(* ===== verification/_CoqProject ===== *)
-Q . S2P
Prelude.v
RateLimit.v
Priority.v
Intake.v
LoginThrottle.v
Errors.v
Password.v
Redb.v
UserStore.v
Revocations.v
Invites.v
Paths.v
Formats.v
Model.v
MetadataRecord.v
AlbumUpdate.v
DirAlbum.v
Expression.v
Snapshots.v
Tokens.v
Prefetch.v
RouterAuth.v
IndexStore.v
DirAlbumStore.v
Writer.v
Accounts.v
UserDeletion.v
Shares.v
DataPages.v
Lists.v
Watcher.v
IndexJob.v
Sanitize.v
Parity.v
FileTree.v
Xmp.v
SidecarEdit.v
Desk.v
Cascade.v
MetadataEdits.v
Deletion.v
Thumbnails.v
Config.v
Pipeline.v
Upload.v
Moves.v
ConfigRoutes.v
Commands.v
Startup.v
SerDe.v
Serving.v
ClientIp.v
Scan.v
Login.v
Observe.v
