(* ===== verification/Prelude.v ===== *)
(** * Picasu: a verification development of the backend

    Picasu is a self-hosted photo library.  Its backend (Rust, [backend/src]) keeps
    accounts, indexes the files below configured directories into a [redb] database,
    answers list queries from an in-memory tree and serves the results to users and
    to holders of share links.  This development models its core logic as
    executable definitions, named as in the source, and proves the theorems listed
    below about them.

    ** How the parts fit together

    A request passes a guard ([RouterAuth]) which decides from its tokens ([Tokens]),
    the user store, the revocations and the album shares who is speaking.  Handlers
    then act on the stores: accounts ([Accounts], [UserDeletion], [Login]), share
    links ([Shares]), queries ([Prefetch] evaluates an [Expression] over the tree and
    freezes the result in [Snapshots]), pages of results ([DataPages]) and listings
    ([Lists]).  Files come in through the watcher ([Watcher]) and the index job
    ([IndexJob]), are queued per path ([Intake], lanes chosen by [Priority]), and
    their records reach the tables ([IndexStore]) through the one writer task
    ([Writer]), which then rebuilds the tree and the albums' statistics
    ([AlbumUpdate], [DirAlbum], [DirAlbumStore]).  Users change what is there through
    the handlers of [MetadataEdits], [Deletion], [Thumbnails], [Upload] and [Moves];
    they work on a [Desk], the server with its files ([FileTree]) and its in-memory
    tree, and an edit reaches the sidecar next to a file ([Xmp], [SidecarEdit]) before
    it reaches the tables; an uploaded file is indexed by the pipeline below.  The process runs under a configuration ([Config]) that an
    administrator reads and changes over the API ([ConfigRoutes]).

    A start ([Startup]) installs the configuration and prepares the stores, whose rows
    lie on the disk as [SerDe] says; the commands of the administrator ([Commands]) work
    on the user store while no server holds it.  A scan ([Scan]) walks the configured
    directories and submits their files; each goes through the pipeline ([Pipeline]) of
    opening, hashing, describing and storing.  What the writer leaves to do afterwards
    runs beside it ([Cascade]).  Sign-in attempts are counted under the key of the
    client's address ([ClientIp]); pages and media are answered from files ([Serving]);
    the published description of the API is compared with the mounted routes ([Parity]).

    ** Files

    - [Prelude]: this file; text, results, lists, the tactics and hint databases.
    - [Errors]: [error.rs], the application error and its HTTP answer.
    - [Redb]: what the stores use of the database crate: tables, transactions that
      publish everything or nothing, and an oracle of failing calls.
    - Throttling: [RateLimit] ([auth/rate_limit.rs], buckets), [LoginThrottle]
      ([auth/login_throttle.rs], the tracker per address and per user).
    - Identity: [Password] ([auth/password.rs]), [UserStore] ([auth/user_store.rs]),
      [Revocations] ([auth/revocations.rs]), [Invites] ([auth/invites.rs]),
      [Accounts] ([auth/users.rs] and the account routes), [UserDeletion] (the proofs
      about [delete_user]), [Login] ([router/post/users_authenticate.rs]).
    - Library data: [Paths] ([storage/files.rs]), [Formats] ([process/format.rs],
      [model/media.rs]), [Model] ([model/*.rs]), [MetadataRecord]
      ([model/metadata_record.rs]), [AlbumUpdate] ([model/album.rs]), [DirAlbum] and
      [DirAlbumStore] ([process/dir_album.rs]), [IndexStore]
      ([storage/asset_store.rs], [tasks/batcher/flush_tree.rs], [update_tree.rs]).
    - Queries: [Expression] ([model/expression.rs]), [Snapshots] ([storage/cache.rs]
      and the flush and expiry tasks), [Prefetch] ([router/get/get_prefetch.rs]),
      [DataPages] ([get_data.rs], [get_metadata.rs], [get_img.rs],
      [process/transitor.rs]), [Lists] ([get_list.rs], [get_export.rs], [storage/db.rs]).
    - Access: [Tokens] and [RouterAuth] ([router/auth.rs]), [Shares]
      ([create_share.rs], [edit_share.rs], [get_share_token.rs]).
    - Tasks: [Priority], [Intake] ([queue/priority.rs], [intake.rs], [worker.rs]),
      [Writer] ([queue/writer.rs]), [Cascade] (the follow-ups of the writer, with
      [queue/bridge.rs] and the expiry tasks), [Watcher] ([batcher/start_watcher.rs],
      [process/path.rs]), [IndexJob] and [Scan] ([actor/album_index.rs] and its routes),
      [Pipeline] ([workflow/mod.rs], [process/index.rs] and the actors of a file),
      [Observe] ([tasks/observe.rs]).
    - Files: [Sanitize] ([process/sanitize.rs], [find_unique_path]), [FileTree] (what
      [std::fs] and [std::path] do), [Xmp] ([process/xmp.rs]), [SidecarEdit]
      ([process/sidecar_edit.rs]).
    - Changes: [Desk] (state, gate and answers of the handlers below),
      [MetadataEdits] (tags, description, rating, flags, album title and cover),
      [Deletion] ([router/delete.rs]), [Thumbnails] (regeneration, rotation and
      replacement of pictures), [Upload] ([router/post/post_upload.rs]), [Moves]
      ([router/put/assign_album.rs], [router/post/create_dir_album.rs]).
    - Configuration: [Config] ([model/config.rs], [auth/secret_key.rs], the roots of
      [storage/files.rs]), [ConfigRoutes] (the configuration routes, the rotation of
      the signing key).
    - The process: [Startup] ([main.rs], [lib.rs], [init.rs], [router/builder.rs]),
      [Commands] ([bin/picasu-cmd.rs], [auth/store_location.rs]), [SerDe]
      ([storage/ser_de.rs]).
    - The surface: [ClientIp] (addresses and their keys), [Serving] (pages, compressed
      media, completion, caching, catchers), [Parity] ([spec_path.rs],
      [openapi_public.rs], [openapi_parity.rs]).

    ** What the theorems show

    - Who may do what: a session opens exactly the guards of its user's current
      record ([session_guards], [change_ends_sessions]); no step makes an
      administrator but an administrator's ([admins_only_from_admins],
      [no_escalation], [last_admin_kept]); sign-in, sign-out and renewal
      ([login_opens_session], [logout_closes_session], [renewal_never_escalates],
      [reauth_spec]); token kinds cannot be confused ([token_kinds_disjoint],
      [token_roundtrip]); media tokens open one file ([media_guards_bind],
      [row_token_scope]).
    - Shares: when a link opens and who may make, change and end it
      ([share_opens_iff], [presenter_sound], [share_authority], [created_link_opens],
      [deleted_link_is_dead]), and what its answers carry
      ([album_answers_carry_bearers], [metadata_spec], [export_spec],
      [album_listing_spec]).
    - Guessing: no attempt keeps a slot ([no_slot_leaks]); the bounds of the throttle
      are in [LoginThrottle] and [RateLimit]; two requests share a count exactly when
      their addresses lie in one network, and other networks are not touched
      ([keys_are_networks], [failures_stay_in_network]).
    - The process: a server that starts is ready ([start_is_ready]), what is stored is
      read back and rows that cannot be read decide whether it starts
      ([records_roundtrip], [rows_decide_start]); the commands refine operations on a map
      of users and keep an administrator ([command_refines], [commands_keep_an_admin]).
    - From file to record: a scan reaches every file it should, by the spelling of its
      roots, and stores what it finds ([scan_reaches], [scan_is_stored]); a request for an index refines its
      specification ([index_request_refines]); edits survive an indexing, and a record
      rebuilt is the record indexed ([edits_survive_reindex], [rebuild_is_index]).
    - After a write: a barrier waits for the follow-ups of its work, which come to an end
      ([barrier_sees_its_work], [chain_spec]); the schedules in which they do not
      ([failed_bookkeeping_hangs_barriers], [gap_name_downs_server]).
    - The surface: compressed files are answered to bound tokens only
      ([compressed_is_tokens]); the comparison of description and routes is exact
      ([gate_status], [drift_is_exact], [artifact_documents_public_operations]); samples
      of the timing record are read whole while one writer at a time is in a slot and it
      is not cleared, and mixed otherwise ([accepted_is_published],
      [second_writer_lets_mixed_sample_through], [clear_lets_mixed_sample_through]);
      its summaries, reports and counters are
      those of its documentation, or differ as stated ([summary_spec], [reports_spaced], [in_flight_counts_timers],
      [breach_counter_and_window]).
    - Stores: every read-modify-write refines a pure map update ([rmw_refines]); a
      scanned file is published whole or not at all, under its old id
      ([flush_insert_spec], [reindex_keeps_ids]); deleting a user is all or nothing
      per transaction ([delete_user_spec]); the tree is the tables' contents
      ([refresh_tree_spec]); pages are the snapshot's rows ([page_spec]).
    - Tasks: drains and barriers wait for exactly their work and come to an end
      ([drain_exact], [intake_drains], [barrier_covers]), lanes are served in bounded
      time ([ready_lane_served_within_73]), and the schedules in which a change of a
      file is lost or a file is deleted ([reused_number_loses_change],
      [rewritten_file_is_deleted], [failed_clear_blocks_indexing]).

    - Changes: every handler that changes files or rows asks the write gate for what it
      touches ([edit_needs_write_access], [delete_needs_write_access],
      [upload_needs_write_access], [move_needs_write_access],
      [picture_needs_write_access]); what exactly changes ([edit_changes_exactly],
      [album_edit_spec], [media_deletion_erases], [upload_keeps_files],
      [file_move_spec], [dir_move_keeps_tables], [create_dir_album_spec],
      [small_width_height_spec]); sidecars hold what the tables hold, and a failed edit
      is undone ([sidecar_roundtrip], [stored_edit_is_in_its_sidecar],
      [failed_edit_undone]); names that reach the disk are safe
      ([sanitize_filename_spec]).
    - Configuration: what is saved is read back ([config_roundtrip]), a start leaves a
      sound configuration ([init_safe]), a change touches the runtime part only
      ([admin_update_spec]), the key is never shown ([config_answers_hide_key]) and its
      rotation ends every session ([reset_ends_sessions]).

    Theorems that state a defect exhibit it on the model as an ordinary statement.

    ** Conventions and bounds

    - Text is the list of its code points ([str]); [lit] converts literals.  Machine
      integers are [N] or [Z] with the wrap-around, saturation or check of the source
      written out; sums that wrap in the release profile wrap here.
    - [app_result] is [Result<_, AppError>]; a panic is a value of its own where a
      handler can panic.  [let?] and [←] chain as [?] does.
    - Recursion is structural or on fuel: the eviction loops take the number of
      entries, the flush loops the size of the map, the walk to an existing ancestor
      the length of the path; each round shortens its measure, and the theorems are
      about the whole loops.  Termination of the task protocols is by the measures
      [work_left] of [Intake] and [Writer].
    - Third-party code is a class of operations, with the documented laws the code
      relies on as a class of its own: [Casing], [Crypto], [TokenCodec], [Fs], [Nfkc],
      [Infer], [Chrono], [Jwt], [QueryHash], [Calendar], [Unlink], [XmpKit], [Nfc],
      [DebugFmt], [Pictures], [Toml], [Decoders], [HexDigests], [Programs], [WalkDir], [Opens],
      [Browse], [Framework], [Bitcode] and others.  Witnesses instantiate them.
    - The file tree has directories and regular files, no symbolic links, owners, modes
      or times; a regular file on the way to a path counts as a missing one; the empty
      path leads nowhere.  Every call consults an oracle of its running number.
    - A handler on the [Desk] returns its answer with the state it leaves; work it
      submits is listed there, and updates it starts without waiting are left out.
    - A disk call fails when the oracle of the request or transaction says so; one
      clock reading and one oracle serve a whole request.  A row of JSON text is
      what it parses to; duplicate keys of a JSON object are not modelled.
    - Concurrency is a transition system whose events are the atomic sections of the
      code; waiting tasks may look at any time, not only when they are notified.
      Parallel iterators go through their rows in order; maps without an order are
      finite maps.  Logging, timers that only warn, and the waking of threads are
      left out.  Channel capacities are the source's (1024).

    ** Not modelled

    The mounting of routes and the JSON of requests, the generation of the API
    description, and the page routes that answer the one page of the frontend without
    looking at anything, as does the build that embeds it: glue over the web framework.
    The runtimes, thread pools and permits schedule work without changing what it does;
    only what a panic does to them is in [Cascade].  The shutdown of the writer waits for
    it to fall idle.  The parsing of command lines, the decoders of pictures and the
    external programs are parameters.  The log, and with it the sentences of the timing
    record, which print binary fractions, has no effect.  The probes of test builds,
    [utils/openapi-sanity], [utils/snapfab] and [utils/dylint-lints] are tools of the
    developers. *)

From stdpp Require Export base numbers list gmap strings pretty fin_maps sorting.
From Stdlib Require Export NArith ZArith Lia.

#[global] Open Scope N_scope.

(** ** Machine integers

    [u64], [u32] and [usize] values are [N] below their width; [i64] and [i32]
    values are [Z].  [saturating_sub] on unsigned integers is the truncated
    subtraction of [N]; the saturating operations that can reach the top of
    the type are written out. *)
Definition u64_max : N := 18446744073709551615.
Definition u32_max : N := 4294967295.

Definition sat_add (a b : N) : N := N.min (a + b) u64_max.
Definition sat_mul (a b : N) : N := N.min (a * b) u64_max.
Definition sat_add_u32 (a b : N) : N := N.min (a + b) u32_max.
Definition wrapping_add_u64 (a b : N) : N := (a + b) mod 18446744073709551616.
Definition checked_add_u64 (a b : N) : option N :=
  if a + b <=? u64_max then Some (a + b) else None.
Definition checked_mul_u64 (a b : N) : option N :=
  if a * b <=? u64_max then Some (a * b) else None.

(** ** Text

    A Rust [str] is a sequence of Unicode scalar values; [lit] embeds an ASCII
    literal of the source. *)
Abbreviation str := (list N).

Definition lit (s : string) : str := Ascii.N_of_ascii <$> String.list_ascii_of_string s.

(** Length of the UTF-8 encoding of one scalar value; [String::len] is the sum. *)
Definition utf8_len (c : N) : N :=
  if c <? 128 then 1 else if c <? 2048 then 2 else if c <? 65536 then 3 else 4.
Definition str_len (s : str) : N := foldr (fun c n => utf8_len c + n) 0 s.
Definition char_count (s : str) : N := N.of_nat (length s).

(** [char::is_whitespace]: the Unicode [White_Space] property. *)
Definition is_whitespace (c : N) : bool :=
  ((9 <=? c) && (c <=? 13)) || (c =? 32) || (c =? 133) || (c =? 160) || (c =? 5760)
  || ((8192 <=? c) && (c <=? 8202)) || (c =? 8232) || (c =? 8233) || (c =? 8239)
  || (c =? 8287) || (c =? 12288).

(** [char::is_control]: the Unicode general category [Cc]. *)
Definition is_control (c : N) : bool := (c <? 32) || ((127 <=? c) && (c <=? 159)).

Fixpoint trim_start (s : str) : str :=
  match s with
  | c :: s' => if is_whitespace c then trim_start s' else s
  | [] => []
  end.
Definition trim (s : str) : str := rev (trim_start (rev (trim_start s))).

Definition is_empty {A} (l : list A) : bool :=
  match l with [] => true | _ :: _ => false end.

Definition ascii_lower (c : N) : N := if (65 <=? c) && (c <=? 90) then c + 32 else c.
Definition to_ascii_lowercase (s : str) : str := ascii_lower <$> s.

Fixpoint starts_with (p s : str) : bool :=
  match p, s with
  | [], _ => true
  | a :: p', b :: s' => (a =? b) && starts_with p' s'
  | _ :: _, [] => false
  end.

(** [strip_prefix]. *)
Fixpoint strip_prefix (p s : str) : option str :=
  match p, s with
  | [], _ => Some s
  | a :: p', b :: s' => if a =? b then strip_prefix p' s' else None
  | _ :: _, [] => None
  end.

(** [str::contains] with a string pattern. *)
Fixpoint contains (s p : str) : bool :=
  starts_with p s || match s with [] => false | _ :: s' => contains s' p end.

(** [split] on one character and [str::lines] (both keep empty pieces; a final
    line terminator opens no further line; one carriage return is stripped). *)
Fixpoint split_on (c : N) (s : str) : list str :=
  match s with
  | [] => [[]]
  | a :: s' =>
      if a =? c then [] :: split_on c s'
      else match split_on c s' with
           | w :: ws => (a :: w) :: ws
           | [] => [[a]]
           end
  end.
Definition strip_cr (s : str) : str :=
  match rev s with 13 :: r => rev r | _ => s end.
Definition str_lines (s : str) : list str :=
  let pieces := split_on 10 s in
  strip_cr <$> (match rev pieces with [] :: r => rev r | _ => pieces end).

(** Decimal rendering, as [format!] prints an unsigned integer. *)
Definition show_N (n : N) : str := lit (pretty n).

(** ** Fallible code *)
Inductive result (E A : Type) : Type :=
| Ok (a : A)
| Err (e : E).
Arguments Ok {E A} a.
Arguments Err {E A} e.

#[export] Instance result_ret {E} : MRet (result E) := fun _ a => Ok a.
#[export] Instance result_bind {E} : MBind (result E) :=
  fun _ _ k r => match r with Ok a => k a | Err e => Err e end.
#[export] Instance result_fmap {E} : FMap (result E) :=
  fun _ _ f r => match r with Ok a => Ok (f a) | Err e => Err e end.

Definition map_err {E F A} (f : E -> F) (r : result E A) : result F A :=
  match r with Ok a => Ok a | Err e => Err (f e) end.
Definition ok_or {E A} (e : E) (o : option A) : result E A :=
  match o with Some a => Ok a | None => Err e end.
Definition result_ok {E A} (r : result E A) : option A :=
  match r with Ok a => Some a | Err _ => None end.
Definition is_ok {E A} (r : result E A) : bool :=
  match r with Ok _ => true | Err _ => false end.

(** Rust [Option::is_some], [Option::filter] and [Option::is_some_and]. *)
Definition is_some {A} (o : option A) : bool :=
  match o with Some _ => true | None => false end.
Definition option_filter {A} (p : A -> bool) (o : option A) : option A :=
  match o with Some a => if p a then Some a else None | None => None end.
Definition is_some_and {A} (p : A -> bool) (o : option A) : bool :=
  match o with Some a => p a | None => false end.

#[export] Instance result_eq_dec {E A} `{EqDecision E, EqDecision A} :
  EqDecision (result E A).
Proof. solve_decision. Defined.

Definition str_eqb (a b : str) : bool := bool_decide (a = b).

(** ** Automation *)
Create HintDb picasu.

(** Destruct the scrutinee of some match or test, keeping its equation. *)
Ltac split_match :=
  match goal with
  | H : context [match ?x with _ => _ end] |- _ =>
      lazymatch x with context [match _ with _ => _ end] => fail | _ => idtac end;
      destruct x eqn:?; simplify_eq/=
  | |- context [match ?x with _ => _ end] =>
      lazymatch x with context [match _ with _ => _ end] => fail | _ => idtac end;
      destruct x eqn:?; simplify_eq/=
  end.
Ltac split_matches := repeat split_match.

(** Evaluate comparisons of literals in the goal. *)
Ltac eval_eqb :=
  repeat match goal with
  | |- context [str_eqb (lit ?a) (lit ?b)] =>
      let r := eval vm_compute in (str_eqb (lit a) (lit b)) in
      change (str_eqb (lit a) (lit b)) with r
  end; cbv iota.

(** Turn boolean facts of the code into propositions. *)
Ltac to_prop :=
  repeat match goal with
  | H : _ && _ = true |- _ => apply andb_true_iff in H as [? ?]
  | H : _ || _ = false |- _ => apply orb_false_iff in H as [? ?]
  | H : negb _ = true |- _ => apply negb_true_iff in H
  | H : negb _ = false |- _ => apply negb_false_iff in H
  | H : (_ =? _)%N = true |- _ => apply N.eqb_eq in H
  | H : (_ =? _)%N = false |- _ => apply N.eqb_neq in H
  | H : (_ <? _)%N = true |- _ => apply N.ltb_lt in H
  | H : (_ <? _)%N = false |- _ => apply N.ltb_ge in H
  | H : (_ <=? _)%N = true |- _ => apply N.leb_le in H
  | H : (_ <=? _)%N = false |- _ => apply N.leb_gt in H
  | H : bool_decide _ = true |- _ => apply bool_decide_eq_true in H
  | H : bool_decide _ = false |- _ => apply bool_decide_eq_false in H
  | H : str_eqb _ _ = true |- _ => apply bool_decide_eq_true in H
  | H : str_eqb _ _ = false |- _ => apply bool_decide_eq_false in H
  end.

(** ** Generic lemmas *)
Lemma sat_add_le (a b : N) : a <= u64_max -> a <= sat_add a b.
Proof. unfold sat_add; lia. Qed.

Lemma sat_add_small (a b : N) : a + b <= u64_max -> sat_add a b = a + b.
Proof. unfold sat_add; lia. Qed.

Lemma sat_add_bound (a b : N) : sat_add a b <= u64_max.
Proof. unfold sat_add; lia. Qed.

Lemma sat_add_0_r (a : N) : a <= u64_max -> sat_add a 0 = a.
Proof. unfold sat_add; lia. Qed.

Lemma str_eqb_eq (a b : str) : str_eqb a b = true <-> a = b.
Proof. unfold str_eqb. apply bool_decide_eq_true. Qed.

Lemma str_eqb_refl (a : str) : str_eqb a a = true.
Proof. by apply str_eqb_eq. Qed.

#[export] Hint Resolve sat_add_le sat_add_bound str_eqb_refl : picasu.
#[export] Hint Rewrite str_eqb_refl : picasu.

Lemma bind_Ok {E A B} (r : result E A) (k : A -> result E B) (b : B) :
  (r ≫= k) = Ok b -> exists a, r = Ok a /\ k a = Ok b.
Proof. destruct r; simpl; [eauto | discriminate]. Qed.

Lemma strip_prefix_app (p s : str) : strip_prefix p (p ++ s) = Some s.
Proof. induction p as [|a p IH]; simpl; [done|]. by rewrite N.eqb_refl. Qed.
Lemma starts_with_app (p s : str) : starts_with p (p ++ s) = true.
Proof. induction p as [|a p IH]; simpl; [done|]. by rewrite N.eqb_refl. Qed.

Lemma strip_prefix_some (p s r : str) : strip_prefix p s = Some r -> s = p ++ r.
Proof.
  revert s. induction p as [|x p IH]; intros [|y s]; simpl; try done; [by intros [= ->]..|].
  destruct (N.eqb_spec x y) as [->|]; [|done]. intros H. by rewrite (IH s H).
Qed.

Lemma trim_start_head (s : str) (c : N) (t : str) :
  trim_start s = c :: t -> is_whitespace c = false.
Proof.
  induction s as [|a s IH]; simpl; [done|].
  destruct (is_whitespace a) eqn:Ha; [done|]. by intros [= <- _].
Qed.

Lemma trim_start_nonws (c : N) (t : str) :
  is_whitespace c = false -> trim_start (c :: t) = c :: t.
Proof. simpl. by intros ->. Qed.

Lemma trim_start_suffix (s : str) : exists p, s = p ++ trim_start s.
Proof.
  induction s as [|a s [p IH]]; simpl; [by exists []|].
  destruct (is_whitespace a); [exists (a :: p); simpl; congruence | by exists []].
Qed.

(** [trim] is idempotent: what the handlers store is what later look-ups use. *)
Lemma trim_idemp (s : str) : trim (trim s) = trim s.
Proof.
  unfold trim. remember (trim_start s) as t eqn:Ht.
  remember (trim_start (rev t)) as r eqn:Hr.
  assert (trim_start (rev r) = rev r) as Hrr.
  { destruct (trim_start_suffix (rev t)) as [p Hp]. rewrite <-Hr in Hp.
    assert (t = rev r ++ rev p) as Ht' by (rewrite <-rev_app_distr, <-Hp; by rewrite rev_involutive).
    destruct (rev r) as [|c q] eqn:Hq; [done|].
    apply trim_start_nonws, (trim_start_head s c (q ++ rev p)).
    by rewrite <-Ht, Ht'. }
  rewrite Hrr, rev_involutive.
  destruct r as [|c r']; [done|].
  rewrite trim_start_nonws; [done|]. by apply (trim_start_head (rev t) c r').
Qed.

#[export] Hint Rewrite trim_idemp : picasu.
