(* ===== verification/RateLimit.v ===== *)
(** * RateLimit: brute-force throttle buckets ([backend/src/auth/rate_limit.rs])

    The pure delay schedule [ban_delay] and the clock-free sliding-window
    [Bucket]: construction, reads ([ban_remaining], [failure_count],
    [peek_ban]) and the two state changes ([record_failure],
    [record_success]).  Times are [u64] seconds, as [N]. *)

From S2P Require Import Prelude.

(** Shipped schedule constants. *)
Definition LOGIN_IP_WINDOW_SECS : N := 600.
Definition LOGIN_IP_MAX_FAILURES : N := 3.
Definition LOGIN_IP_BASE_BAN_SECS : N := 10.
Definition LOGIN_IP_MAX_BAN_SECS : N := 28800.
Definition LOGIN_IP_LONG_WINDOW_SECS : N := 86400.
Definition LOGIN_IP_LONG_MAX_FAILURES : N := 16.
Definition LOGIN_IP_LONG_BASE_BAN_SECS : N := 1800.
Definition LOGIN_IP_LONG_MAX_BAN_SECS : N := 28800.
Definition LOGIN_USER_LONG_WINDOW_SECS : N := 86400.
Definition LOGIN_USER_LONG_MAX_FAILURES : N := 18.
Definition LOGIN_USER_LONG_BASE_BAN_SECS : N := 1800.
Definition LOGIN_USER_LONG_MAX_BAN_SECS : N := 7200.

(** The doubling loop of [ban_delay], one unit of [n] per generation. *)
Fixpoint ban_delay_loop (n : nat) (delay cap_secs : N) : N :=
  match n with
  | O => N.min delay cap_secs
  | S n' =>
      let delay := sat_mul delay 2 in
      if cap_secs <=? delay then cap_secs else ban_delay_loop n' delay cap_secs
  end.

Definition ban_delay (base_secs cap_secs generation : N) : N :=
  ban_delay_loop (N.to_nat generation) base_secs cap_secs.

Module Bucket.

Record Bucket := mkBucket {
  window_secs : N;
  max_failures : N;
  base_ban_secs : N;
  max_ban_secs : N;
  failures : list N;  (** front of the deque first *)
  ban_until : N
}.

#[export] Instance Bucket_eq_dec : EqDecision Bucket.
Proof. solve_decision. Defined.

Definition new (window max base cap : N) : result str Bucket :=
  if window =? 0 then Err (lit "throttle window must be at least 1 second")
  else if max =? 0 then
    Err (lit "throttle must allow at least 1 failure before banning")
  else if base =? 0 then Err (lit "throttle base ban must be at least 1 second")
  else if cap <? base then
    Err (lit "throttle max ban must be at least the base ban")
  else Ok (mkBucket window max base cap [] 0).

Definition ban_remaining (b : Bucket) (now : N) : N := ban_until b - now.

Definition in_window (b : Bucket) (now old : N) : bool := now - old <? window_secs b.

Definition failure_count (b : Bucket) (now : N) : N :=
  N.of_nat (length (List.filter (in_window b now) (failures b))).

Definition ban_for_count (b : Bucket) (count : N) : N :=
  if count <=? max_failures b then 0
  else
    let over := count - max_failures b in
    if over mod 2 =? 0 then 0
    else
      let generation := (over - 1) / 2 in
      let generation := if generation <=? u32_max then generation else u32_max in
      ban_delay (base_ban_secs b) (max_ban_secs b) generation.

Definition peek_ban (b : Bucket) (now extra_failures : N) : N :=
  let remaining := ban_remaining b now in
  if 0 <? remaining then remaining
  else ban_for_count b (sat_add (failure_count b now) extra_failures).

(** The [while front().is_some_and(..) { pop_front() }] loop. *)
Fixpoint prune (window now : N) (l : list N) : list N :=
  match l with
  | old :: l' => if window <=? now - old then prune window now l' else l
  | [] => []
  end.

Definition set_failures (b : Bucket) (l : list N) (until : N) : Bucket :=
  mkBucket (window_secs b) (max_failures b) (base_ban_secs b) (max_ban_secs b) l until.

(** [record_failure]: the new bucket and the ban applied. *)
Definition record_failure (b : Bucket) (now : N) : Bucket * N :=
  if now <? ban_until b then (b, ban_until b - now)
  else
    let fs := prune (window_secs b) now (failures b) ++ [now] in
    let delay := ban_for_count b (N.of_nat (length fs)) in
    if delay =? 0 then (set_failures b fs (ban_until b), 0)
    else (set_failures b fs (sat_add now delay), delay).

Definition record_success (b : Bucket) : Bucket := set_failures b [] 0.

(** A sequence of evaluated failures: the final bucket and the bans answered. *)
Fixpoint run (b : Bucket) (times : list N) : Bucket * list N :=
  match times with
  | [] => (b, [])
  | t :: ts =>
      let '(b1, d) := record_failure b t in
      let '(b2, ds) := run b1 ts in (b2, d :: ds)
  end.

(** ** Well-formedness

    Valid parameters, machine-width values, and a deque in time order whose
    entries are not in the future of [now]. *)
Record wf (now : N) (b : Bucket) : Prop := {
  wf_window : 1 <= window_secs b;
  wf_max : 1 <= max_failures b <= u32_max;
  wf_base : 1 <= base_ban_secs b <= max_ban_secs b;
  wf_cap : max_ban_secs b <= u64_max;
  wf_until : ban_until b <= u64_max;
  wf_sorted : StronglySorted N.le (failures b);
  wf_past : Forall (fun t => t <= now) (failures b)
}.

End Bucket.
Import Bucket.

(** ** The delay schedule *)
Lemma ban_delay_loop_closed (cap : N) (n : nat) : cap <= u64_max ->
  forall d, ban_delay_loop n d cap = N.min (d * 2 ^ N.of_nat n) cap.
Proof.
  intros Hcap. induction n as [|n IH]; intros d; simpl ban_delay_loop.
  - simpl. by rewrite N.mul_1_r.
  - assert (Hpow : 2 ^ N.of_nat (S n) = 2 * 2 ^ N.of_nat n)
      by (rewrite Nat2N.inj_succ, N.pow_succ_r'; lia).
    assert (1 <= 2 ^ N.of_nat n) by (pose proof (N.pow_nonzero 2 (N.of_nat n)); lia).
    destruct (cap <=? sat_mul d 2) eqn:Hle; to_prop; unfold sat_mul in *.
    + rewrite Hpow, N.min_r; [done|].
      transitivity (d * 2); [lia|]. nia.
    + rewrite IH, Hpow. replace (N.min (d * 2) u64_max) with (d * 2) by lia.
      f_equal; lia.
Qed.

Lemma ban_delay_value (base cap g : N) :
  cap <= u64_max -> ban_delay base cap g = N.min (base * 2 ^ g) cap.
Proof.
  intros Hcap. unfold ban_delay. rewrite ban_delay_loop_closed by done.
  by rewrite N2Nat.id.
Qed.

Lemma ban_delay_le_cap (base cap g : N) : cap <= u64_max -> ban_delay base cap g <= cap.
Proof. intros. rewrite ban_delay_value by done. lia. Qed.

Lemma ban_delay_ge_base (base cap g : N) :
  cap <= u64_max -> base <= cap -> base <= ban_delay base cap g.
Proof.
  intros. rewrite ban_delay_value by done.
  pose proof (N.pow_nonzero 2 g). nia.
Qed.

#[export] Hint Resolve ban_delay_le_cap ban_delay_ge_base : picasu.

(** ** Reading and pruning the window *)
Lemma prune_filter (window now : N) (l : list N) :
  StronglySorted N.le l ->
  prune window now l = List.filter (fun old => now - old <? window) l.
Proof.
  induction 1 as [|t l Hl IH Ht]; simpl; [done|].
  destruct (window <=? now - t) eqn:Hw; to_prop.
  - by rewrite (proj2 (N.ltb_ge _ _) Hw).
  - rewrite (proj2 (N.ltb_lt _ _) Hw). f_equal.
    clear IH Hl. induction Ht as [|u l Hu Hl IH]; simpl; [done|].
    replace (now - u <? window) with true by (symmetry; apply N.ltb_lt; lia).
    by f_equal.
Qed.

Lemma prune_length (window now : N) (l : list N) :
  (length (prune window now l) <= length l)%nat.
Proof. induction l; simpl; [lia|]. case_match; simpl; lia. Qed.

Lemma filter_length_le {A} (p : A -> bool) (l : list A) :
  (length (List.filter p l) <= length l)%nat.
Proof. induction l; simpl; [lia|]. case_match; simpl; lia. Qed.

Lemma ban_for_count_bounds (now : N) (b : Bucket) (c : N) :
  wf now b ->
  ban_for_count b c = 0 \/ base_ban_secs b <= ban_for_count b c <= max_ban_secs b.
Proof.
  intros W. destruct W. unfold ban_for_count. cbv zeta.
  do 2 (case_match; [by left|]). right.
  split; [apply ban_delay_ge_base; lia | apply ban_delay_le_cap; lia].
Qed.

Lemma record_failure_live (now : N) (b : Bucket) :
  now < ban_until b -> record_failure b now = (b, ban_remaining b now).
Proof. intros H. unfold record_failure. by rewrite (proj2 (N.ltb_lt _ _) H). Qed.

Lemma record_failure_clear (now : N) (b : Bucket) :
  ban_until b <= now ->
  record_failure b now =
    let fs := prune (window_secs b) now (failures b) ++ [now] in
    let delay := ban_for_count b (N.of_nat (length fs)) in
    (set_failures b fs (if delay =? 0 then ban_until b else sat_add now delay), delay).
Proof.
  intros H. unfold record_failure. rewrite (proj2 (N.ltb_ge _ _) H).
  cbv zeta. case_match; to_prop; congruence.
Qed.

(** ** Preservation of well-formedness *)
Lemma sorted_filter (p : N -> bool) (l : list N) :
  StronglySorted N.le l -> StronglySorted N.le (List.filter p l).
Proof.
  induction 1 as [|t l Hl IH Ht]; simpl; [constructor|].
  destruct (p t); [|done]. constructor; [done|].
  apply List.Forall_forall. intros x Hx.
  apply List.filter_In in Hx as [Hx _]. by eapply List.Forall_forall in Ht.
Qed.

Lemma forall_filter (p : N -> bool) (P : N -> Prop) (l : list N) :
  Forall P l -> Forall P (List.filter p l).
Proof. induction 1; simpl; [constructor|]. case_match; auto. Qed.

Lemma sorted_snoc (l : list N) (x : N) :
  StronglySorted N.le l -> Forall (fun t => t <= x) l -> StronglySorted N.le (l ++ [x]).
Proof.
  induction 1 as [|t l Hl IH Ht]; intros Hx; inversion_clear Hx; simpl.
  - repeat constructor.
  - constructor; [by apply IH|]. apply Forall_app; split; [done|]. by repeat constructor.
Qed.

#[export] Hint Resolve sorted_filter forall_filter sorted_snoc : picasu.

Lemma wf_mono (t now : N) (b : Bucket) : t <= now -> wf t b -> wf now b.
Proof.
  intros Ht []. constructor; try done.
  eapply List.Forall_impl; [|eassumption]. simpl; intros; lia.
Qed.

Lemma wf_new (w m base cap now : N) (b : Bucket) :
  m <= u32_max -> cap <= u64_max -> new w m base cap = Ok b -> wf now b.
Proof.
  unfold new. intros Hm Hc H. split_matches; to_prop.
  all: constructor; simpl; unfold u32_max, u64_max in *; repeat constructor; lia.
Qed.

(** The bucket after an evaluated failure outside a ban. *)
Lemma record_failure_clear_wf (now : N) (b : Bucket) :
  wf now b -> now <= u64_max -> ban_until b <= now -> wf now (record_failure b now).1.
Proof.
  intros W Hnow Hclear. rewrite record_failure_clear by done. cbv zeta.
  rewrite prune_filter by apply W. destruct W.
  constructor; simpl; auto with picasu.
  - case_match; auto with picasu.
  - apply Forall_app; split; auto with picasu.
Qed.

Lemma record_failure_wf (t now : N) (b : Bucket) :
  wf t b -> t <= now -> now <= u64_max -> wf now (record_failure b now).1.
Proof.
  intros W Ht Hnow. pose proof (wf_mono _ _ _ Ht W) as W'.
  destruct (N.lt_ge_cases now (ban_until b)) as [Hlive|Hclear].
  - by rewrite record_failure_live.
  - by apply record_failure_clear_wf.
Qed.

(** The ban end after a failure: never earlier, and reached by the ban answered. *)
Lemma record_failure_until (now : N) (b : Bucket) :
  wf now b -> now <= u64_max ->
  ban_until b <= ban_until (record_failure b now).1 /\
  ban_until (record_failure b now).1 <= sat_add now (record_failure b now).2
    `max` ban_until b /\
  (now + max_ban_secs b <= u64_max ->
     ban_remaining (record_failure b now).1 now = (record_failure b now).2).
Proof.
  intros W Hnow. unfold ban_remaining.
  destruct (N.lt_ge_cases now (ban_until b)) as [Hlive|Hclear].
  - rewrite record_failure_live by done. unfold ban_remaining; simpl. lia.
  - rewrite record_failure_clear by done. cbv zeta. cbn [fst snd ban_until set_failures].
    match goal with |- context [if ?d =? 0 then _ else _] => set (delay := d) in * end.
    destruct (ban_for_count_bounds now b
      (N.of_nat (length (prune (window_secs b) now (failures b) ++ [now]))) W)
      as [Hd|Hd]; fold delay in Hd; case_match; to_prop; unfold sat_add; lia.
Qed.

(** Every recorded failure keeps the bucket well-formed (valid schedule,
    deque in time order, nothing from the future, ban end inside [u64]), the
    ban end never moves backwards, and a call during a live ban changes
    nothing, so hammering neither extends nor escalates a ban. *)
Theorem record_failure_invariant (t now : N) (b : Bucket) :
  wf t b -> t <= now -> now <= u64_max ->
  let '(b', d) := record_failure b now in
  wf now b' /\ ban_until b <= ban_until b' /\
  (now < ban_until b -> b' = b /\ d = ban_until b - now) /\
  (now + max_ban_secs b <= u64_max -> ban_remaining b' now = d).
Proof.
  intros W Ht Hnow. pose proof (record_failure_wf _ _ _ W Ht Hnow) as W'.
  pose proof (record_failure_until now b (wf_mono _ _ _ Ht W) Hnow) as (H1 & _ & H3).
  destruct (record_failure b now) as [b' d] eqn:E. cbn [fst snd] in *.
  split_and!; try done. intros Hlive.
  rewrite record_failure_live in E by done. unfold ban_remaining in E. by simplify_eq.
Qed.

Lemma record_failure_invariant_witness :
  exists b, new 600 3 10 28800 = Ok b /\
    let '(b', d) := record_failure b 5 in
    wf 5 b' /\ ban_until b <= ban_until b' /\
    (5 < ban_until b -> b' = b /\ d = ban_until b - 5) /\
    (5 + max_ban_secs b <= u64_max -> ban_remaining b' 5 = d).
Proof.
  exists (mkBucket 600 3 10 28800 [] 0). split; [reflexivity|].
  apply (record_failure_invariant 0 5).
  - apply (wf_new 600 3 10 28800); [vm_compute; discriminate..|reflexivity].
  - vm_compute; discriminate.
  - vm_compute; discriminate.
Defined.

(** The doubling loop computes [min (base * 2^generation) cap] for every
    generation, with no overflow of [u64] whatever the base, so the saturating
    multiplication and the early return never change the schedule. *)
Theorem ban_delay_closed (base cap generation : N) :
  cap <= u64_max ->
  ban_delay base cap generation = N.min (base * 2 ^ generation) cap
  /\ ban_delay base cap generation <= ban_delay base cap (generation + 1).
Proof.
  intros Hcap. split; [by apply ban_delay_value|].
  rewrite !ban_delay_value, N.add_1_r, N.pow_succ_r' by done. nia.
Qed.

Lemma ban_delay_closed_witness :
  28800 <= u64_max /\ ban_delay 10 28800 11 = 20480
  /\ ban_delay 10 28800 12 = N.min (10 * 2 ^ 12) 28800.
Proof.
  split; [vm_compute; discriminate|]. split; [reflexivity|].
  apply (ban_delay_closed 10 28800 12). vm_compute; discriminate.
Defined.

(** [peek_ban] with one extra failure predicts exactly the answer of
    [record_failure] at the same instant, during a ban or not; afterwards the
    pure read [failure_count] agrees with the deque that was pruned in place. *)
Theorem peek_predicts_record (now : N) (b : Bucket) :
  wf now b -> now <= u64_max -> N.of_nat (length (failures b)) < u64_max ->
  (record_failure b now).2 = peek_ban b now 1 /\
  (ban_until b <= now ->
   failure_count (record_failure b now).1 now = failure_count b now + 1).
Proof.
  intros W Hnow Hlen. unfold peek_ban, ban_remaining.
  destruct (N.lt_ge_cases now (ban_until b)) as [Hlive|Hclear].
  - rewrite record_failure_live by done. unfold ban_remaining; simpl.
    rewrite (proj2 (N.ltb_lt 0 _)) by lia. split; [done | lia].
  - rewrite record_failure_clear by done. cbv zeta.
    rewrite (proj2 (N.ltb_ge 0 _)) by lia. simpl.
    rewrite prune_filter by apply W.
    unfold failure_count, in_window; simpl.
    set (f := fun old => now - old <? window_secs b).
    pose proof (filter_length_le f (failures b)).
    split; [|intros _].
    + f_equal. rewrite length_app, sat_add_small; simpl; lia.
    + rewrite List.filter_app, length_app. cbn [List.filter length].
      assert (f now = true) as Hf by (apply N.ltb_lt; destruct W; lia).
      assert (List.filter f (List.filter f (failures b)) = List.filter f (failures b)) as ->.
      { clear. induction (failures b) as [|x l IH]; simpl; [done|].
        destruct (f x) eqn:E; simpl; [|done]. rewrite E. by f_equal. }
      fold f. rewrite Hf. simpl. lia.
Qed.

Lemma peek_predicts_record_witness :
  let b := mkBucket 600 3 10 28800 [1; 2; 3] 0 in
  peek_ban b 4 1 = 10 /\ (record_failure b 4).2 = peek_ban b 4 1.
Proof.
  split; [reflexivity|].
  apply (peek_predicts_record 4 (mkBucket 600 3 10 28800 [1; 2; 3] 0)).
  - constructor; cbn; unfold u32_max, u64_max; repeat constructor; lia.
  - unfold u64_max; lia.
  - unfold u64_max; cbn; lia.
Defined.

(** ** The rung schedule of a burst *)

(** The documented schedule: [max] free failures, then every second one opens
    the next doubling generation. *)
Definition rung (max base cap i : N) : N :=
  if i <=? max then 0
  else if (i - max) mod 2 =? 0 then 0
  else N.min (base * 2 ^ ((i - max - 1) / 2)) cap.

Lemma ban_for_count_rung (b : Bucket) (i : N) :
  max_ban_secs b <= u64_max -> i <= u32_max ->
  ban_for_count b i = rung (max_failures b) (base_ban_secs b) (max_ban_secs b) i.
Proof.
  intros Hcap Hi. unfold ban_for_count, rung. cbv zeta.
  do 2 (case_match; [done|]). to_prop.
  assert ((i - max_failures b - 1) / 2 <= u32_max) as Hg.
  { transitivity (i - max_failures b - 1); [apply N.Div0.div_le_upper_bound; lia|lia]. }
  rewrite (proj2 (N.leb_le _ _) Hg). by apply ban_delay_value.
Qed.

(** Every attempt of the burst waits for the ban of the previous one. *)
Fixpoint respects (b : Bucket) (k until : N) (times : list N) : Prop :=
  match times with
  | [] => True
  | t :: ts => until <= t /\ respects b (k + 1) (t + ban_for_count b (k + 1)) ts
  end.

Lemma respects_set (b : Bucket) (fs : list N) (u : N) (times : list N) :
  forall k until, respects (set_failures b fs u) k until times <-> respects b k until times.
Proof. induction times as [|t ts IH]; intros k until; simpl; [done|]. by rewrite IH. Qed.

Lemma prune_keep (window now : N) (l : list N) :
  Forall (fun t => now - t < window) l -> prune window now l = l.
Proof.
  destruct l as [|t l]; simpl; [done|]. inversion_clear 1.
  by rewrite (proj2 (N.leb_gt _ _)).
Qed.

Lemma burst_run (t0 : N) (times : list N) : forall (b : Bucket) (until : N),
  ban_until b <= until -> t0 <= until ->
  Forall (fun t => t0 <= t) (failures b) ->
  respects b (N.of_nat (length (failures b))) until times ->
  Forall (fun t => t < t0 + window_secs b /\ t + max_ban_secs b <= u64_max) times ->
  max_ban_secs b <= u64_max ->
  (run b times).2 =
    (fun i => ban_for_count b (N.of_nat i)) <$> seq (S (length (failures b))) (length times).
Proof.
  induction times as [|t ts IH]; intros b until Hu Ht0 Hpast Hr Hw Hcap; [done|].
  simpl in Hr. destruct Hr as [Ht Hr]. inversion_clear Hw as [|? ? [Hwt Hct] Hwts].
  cbn [run]. rewrite record_failure_clear by lia. cbv zeta.
  rewrite prune_keep.
  2:{ eapply List.Forall_impl; [|exact Hpast]. simpl; lia. }
  set (n := length (failures b)) in *.
  assert (N.of_nat (length (failures b ++ [t])) = N.of_nat n + 1) as Hn.
  { rewrite length_app. simpl. subst n. lia. }
  rewrite Hn. set (d := ban_for_count b (N.of_nat n + 1)) in *.
  set (b' := set_failures _ _ _).
  assert (ban_until b' <= t + d) as Hu'.
  { subst b'; simpl. case_match; unfold sat_add; lia. }
  destruct (run b' ts) as [b2 ds] eqn:Hrun. cbn [snd length seq fmap list_fmap].
  f_equal; [unfold d; f_equal; lia|].
  change ds with (b2, ds).2. rewrite <-Hrun.
  rewrite (IH b' (t + d)).
  - assert (length (failures b') = S n) as -> by (simpl; rewrite length_app; simpl; subst n; lia).
    done.
  - done.
  - lia.
  - simpl. apply Forall_app; split; [done|]. repeat constructor; lia.
  - assert (N.of_nat (length (failures b')) = N.of_nat n + 1) as -> by exact Hn.
    by apply respects_set.
  - exact Hwts.
  - exact Hcap.
Qed.

(** In a burst that waits out every ban and stays inside one window, the
    i-th failure on a fresh bucket answers exactly the documented rung: free up
    to [max], then base, free, doubled base, free, ... capped. *)
Theorem burst_schedule (w m base cap : N) (times : list N) (b : Bucket) :
  new w m base cap = Ok b -> cap <= u64_max ->
  N.of_nat (length times) <= u32_max ->
  respects b 0 (hd 0 times) times ->
  Forall (fun t => t < hd 0 times + w /\ t + cap <= u64_max) times ->
  (run b times).2 = (fun i => rung m base cap (N.of_nat i)) <$> seq 1 (length times).
Proof.
  intros Hnew Hcap Hlen Hr Hw.
  assert (b = mkBucket w m base cap [] 0) as ->.
  { unfold new in Hnew. split_matches. done. }
  rewrite (burst_run (hd 0 times) times _ (hd 0 times)); simpl; try done; [|lia].
  apply list_fmap_ext. intros i x Hx. apply lookup_seq in Hx as [-> Hi].
  apply ban_for_count_rung; simpl; [done|]. lia.
Qed.

Lemma burst_schedule_witness :
  exists b, new 600 3 10 28800 = Ok b /\
    (run b [0; 1; 2; 3; 13; 14]).2
      = (fun i => rung 3 10 28800 (N.of_nat i)) <$> seq 1 6
    /\ (run b [0; 1; 2; 3; 13; 14]).2 = [0; 0; 0; 10; 0; 20].
Proof.
  exists (mkBucket 600 3 10 28800 [] 0). split; [reflexivity|]. split; [|reflexivity].
  apply (burst_schedule 600 3 10 28800 [0; 1; 2; 3; 13; 14]).
  - reflexivity.
  - vm_compute; discriminate.
  - vm_compute; discriminate.
  - cbn. unfold ban_for_count; cbn. repeat split; vm_compute; discriminate.
  - unfold u64_max; repeat constructor; cbn; lia.
Defined.

(** ** Paced failures

    The rung is read off the parity of the in-window count.  When each new
    failure ages out exactly one old one, the count, and with it the parity,
    never changes. *)
Definition paced (t p : N) (n : nat) : list N := (fun i => t + p * N.of_nat i) <$> seq 0 n.

Lemma paced_S (t p : N) (n : nat) : paced t p (S n) = t :: paced (t + p) p n.
Proof.
  unfold paced. cbn [seq fmap list_fmap]. f_equal; [lia|].
  rewrite <-fmap_S_seq, <-list_fmap_compose. apply list_fmap_ext.
  intros i x _. unfold compose. lia.
Qed.

Lemma paced_snoc (t p : N) (n : nat) :
  paced t p (S n) = paced t p n ++ [t + p * N.of_nat n].
Proof. unfold paced. rewrite seq_S, fmap_app. done. Qed.

(** A bucket whose deque holds [max + 2] failures spaced evenly over the window. *)
Definition paced_bucket (m base cap p t until : N) : Bucket :=
  mkBucket (p * (m + 2)) m base cap (paced t p (N.to_nat (m + 2))) until.

Lemma prune_paced (t p : N) (n : nat) :
  0 < p -> prune (p * N.of_nat (S n)) (t + p * N.of_nat (S n)) (paced t p (S n))
           = paced (t + p) p n.
Proof.
  intros Hp. rewrite paced_S. cbn [prune].
  rewrite (proj2 (N.leb_le _ _)) by lia. apply prune_keep.
  unfold paced. apply Forall_fmap, Forall_forall. intros i _. unfold compose. nia.
Qed.

Lemma paced_step (m base cap p t until : N) :
  0 < p -> until <= t + p * (m + 2) ->
  record_failure (paced_bucket m base cap p t until) (t + p * (m + 2))
    = (paced_bucket m base cap p (t + p) until, 0).
Proof.
  intros Hp Hu. rewrite record_failure_clear by done. cbv zeta.
  unfold paced_bucket; cbn [window_secs failures].
  destruct (N.to_nat (m + 2)) as [|n] eqn:Hn; [lia|].
  replace (m + 2) with (N.of_nat (S n)) by lia.
  rewrite prune_paced by done.
  replace (t + p * N.of_nat (S n)) with (t + p + p * N.of_nat n) by lia.
  rewrite <-paced_snoc.
  assert (length (paced (t + p) p (S n)) = S n) as ->
    by (unfold paced; by rewrite length_fmap, length_seq).
  assert (forall bk, max_failures bk = m -> ban_for_count bk (N.of_nat (S n)) = 0) as Hz.
  { intros bk Hbk. unfold ban_for_count. rewrite Hbk.
    replace (N.of_nat (S n) - m) with 2 by lia. by case_match. }
  rewrite Hz by done. reflexivity.
Qed.

(** Once a bucket holds [max + 2] evenly spaced failures, an attacker who
    keeps that pace, two failures per window over the documented threshold, is
    never banned again, for any number [n] of further failures. *)
Theorem paced_failures_never_ban (m base cap p t until : N) (n : nat) :
  0 < p -> until <= t + p * (m + 2) ->
  run (paced_bucket m base cap p t until) (paced (t + p * (m + 2)) p n)
    = (paced_bucket m base cap p (t + p * N.of_nat n) until, replicate n 0).
Proof.
  intros Hp. revert t. induction n as [|n IH]; intros t Hu.
  - cbn. f_equal. f_equal. lia.
  - rewrite paced_S. cbn [run]. rewrite paced_step by done.
    replace (t + p * (m + 2) + p) with ((t + p) + p * (m + 2)) by lia.
    rewrite IH by lia. cbn. do 2 f_equal. lia.
Qed.

(** With the shipped IP-short schedule (3 failures per 600 s), a fresh bucket
    reaches that state after one 10 s ban: one failure every 120 s. *)
Lemma paced_failures_never_ban_witness :
  run (mkBucket 600 3 10 28800 [] 0) (paced 0 120 5)
    = (paced_bucket 3 10 28800 120 0 370, [0; 0; 0; 10; 0])
  /\ run (paced_bucket 3 10 28800 120 0 370) (paced 600 120 1000)
    = (paced_bucket 3 10 28800 120 120000 370, replicate 1000 0).
Proof.
  split; [reflexivity|].
  apply (paced_failures_never_ban 3 10 28800 120 0 370 1000); [reflexivity|].
  vm_compute; discriminate.
Defined.
