(* ===== verification/Priority.v ===== *)
(** * Priority: the intake lane scheduler ([backend/src/tasks/queue/priority.rs])

    Five priority lanes, smooth weighted round-robin deficits and the aging
    rule.  [i32] deficits wrap as in the release profile (no overflow checks
    are configured); skip counters are saturating [u32]. *)

From S2P Require Import Prelude.
#[local] Open Scope Z_scope.

Inductive Priority := Interactive | Watcher | Scan | Expire | Verify.

#[export] Instance Priority_eq_dec : EqDecision Priority.
Proof. solve_decision. Defined.

(** [self as usize]. *)
Definition lane_index (p : Priority) : nat :=
  match p with
  | Interactive => 0 | Watcher => 1 | Scan => 2 | Expire => 3 | Verify => 4
  end.

Definition LANE_COUNT : nat := 5.
Definition LANE_WEIGHTS : list Z := [8; 4; 2; 1; 1].
Definition MAX_SKIPS : N := 64.

Definition wrap_i32 (z : Z) : Z := (z + 2147483648) mod 4294967296 - 2147483648.

Record SchedulerState := mkSched { deficit : list Z; skips : list N }.

#[export] Instance SchedulerState_eq_dec : EqDecision SchedulerState.
Proof. solve_decision. Defined.

Definition default_state : SchedulerState :=
  mkSched (replicate LANE_COUNT 0) (replicate LANE_COUNT 0%N).

(** Array reads; the indices of the code are always below [LANE_COUNT]. *)
Definition ready_at (ready : list bool) (i : nat) : bool := default false (ready !! i).
Definition deficit_at (st : SchedulerState) (i : nat) : Z := default 0 (deficit st !! i).
Definition skips_at (st : SchedulerState) (i : nat) : N := default 0%N (skips st !! i).

(** The aging loop: the first ready lane skipped [MAX_SKIPS] times. *)
Fixpoint first_aged (ready : list bool) (skips : list N) (i : nat) : option nat :=
  match ready, skips with
  | r :: rs, s :: ss =>
      if r && (MAX_SKIPS <=? s)%N then Some i else first_aged rs ss (S i)
  | _, _ => None
  end.

Definition weight_total : Z := foldr Z.add 0 LANE_WEIGHTS.

(** [state.deficit[index] += LANE_WEIGHTS[index]] for every ready lane. *)
Definition accrue (ready : list bool) (ds : list Z) : list Z :=
  zip_with (fun '(r, w) d => if (r : bool) then wrap_i32 (d + w) else d)
    (zip ready LANE_WEIGHTS) ds.

(** The selection loop: the deepest deficit wins, ties to the lower index. *)
Definition better (ready : list bool) (ds : list Z) (best : option nat) (i : nat) : option nat :=
  if ready_at ready i &&
     match best with
     | None => true
     | Some current => default 0 (ds !! current) <? default 0 (ds !! i)
     end
  then Some i else best.
Definition select (ready : list bool) (ds : list Z) : option nat :=
  foldl (better ready ds) None (seq 0 LANE_COUNT).

(** [state.skips[index].saturating_add(1)] for the ready losers. *)
Definition bump_skips (ready : list bool) (winner : nat) (ss : list N) : list N :=
  imap (fun i s => if ready_at ready i && negb (i =? winner)%nat then sat_add_u32 s 1 else s) ss.

Definition pick_lane (ready : list bool) (st : SchedulerState)
  : SchedulerState * option nat :=
  match first_aged ready (skips st) 0 with
  | Some index => (mkSched (deficit st) (<[index := 0%N]> (skips st)), Some index)
  | None =>
      let ds := accrue ready (deficit st) in
      match select ready ds with
      | Some winner =>
          (mkSched
             (<[winner := wrap_i32 (default 0 (ds !! winner) - weight_total)]> ds)
             (bump_skips ready winner (<[winner := 0%N]> (skips st))),
           Some winner)
      | None => (mkSched ds (skips st), None)
      end
  end.

(** Successive picks, one readiness vector each. *)
Fixpoint picks (readys : list (list bool)) (st : SchedulerState)
  : SchedulerState * list (option nat) :=
  match readys with
  | [] => (st, [])
  | r :: rs =>
      let '(st1, o) := pick_lane r st in
      let '(st2, os) := picks rs st1 in (st2, o :: os)
  end.

Definition served (i : nat) (os : list (option nat)) : nat :=
  length (List.filter (fun o => bool_decide (o = Some i)) os).

(** Readiness vectors and states of the right shape; an aged-out counter never
    passes [MAX_SKIPS]. *)
Definition ready_ok (ready : list bool) : Prop := length ready = LANE_COUNT.
Record sched_wf (st : SchedulerState) : Prop := {
  wf_deficit : length (deficit st) = LANE_COUNT;
  wf_skips : length (skips st) = LANE_COUNT;
  wf_aged : Forall (fun s => (s <= MAX_SKIPS)%N) (skips st)
}.

(** ** Selection *)
Lemma first_aged_Some (ready : list bool) (ss : list N) : forall k i,
  first_aged ready ss k = Some i ->
  exists j, i = (k + j)%nat /\ ready !! j = Some true /\
            exists s, ss !! j = Some s /\ (MAX_SKIPS <= s)%N.
Proof.
  revert ss. induction ready as [|r rs IH]; intros [|s ss] k i; simpl; try done.
  destruct (r && (MAX_SKIPS <=? s)%N) eqn:E; intros Hf.
  - to_prop. simplify_eq. exists 0%nat. split; [lia|]. split; [simpl; congruence|]. by exists s.
  - apply IH in Hf as (j & -> & Hj & Hs). exists (S j). split; [lia|]. done.
Qed.

Lemma first_aged_None (ready : list bool) (ss : list N) : forall k,
  first_aged ready ss k = None ->
  forall j s, ready !! j = Some true -> ss !! j = Some s -> (s < MAX_SKIPS)%N.
Proof.
  revert ss. induction ready as [|r rs IH]; intros [|s0 ss] k; simpl; try done.
  destruct (r && (MAX_SKIPS <=? s0)%N) eqn:E; [done|]. intros H [|j] s Hr Hs.
  - simplify_eq/=. by apply N.leb_gt.
  - by eapply IH.
Qed.

Lemma better_fold (ready : list bool) (ds : list Z) (l : list nat) : forall best i,
  foldl (better ready ds) best l = Some i ->
  best = Some i \/ (i ∈ l /\ ready_at ready i = true).
Proof.
  induction l as [|x l IH]; intros best i; simpl; [by left|].
  intros H. apply IH in H as [H|[Hi Hr]].
  - unfold better in H. destruct (ready_at ready x) eqn:Hx; simpl in H; [|by left].
    case_match; simplify_eq; [right; split; [constructor|done] | by left].
  - right. split; [by constructor|done].
Qed.

Lemma better_fold_Some (ready : list bool) (ds : list Z) (l : list nat) (b : nat) :
  is_Some (foldl (better ready ds) (Some b) l).
Proof.
  revert b. induction l as [|x l IH]; intros b; simpl; [by eexists|].
  unfold better at 2. case_match; apply IH.
Qed.

Lemma better_fold_None (ready : list bool) (ds : list Z) (l : list nat) :
  foldl (better ready ds) None l = None -> forall i, i ∈ l -> ready_at ready i = false.
Proof.
  induction l as [|x l IH]; simpl; [intros _ i Hi; by apply not_elem_of_nil in Hi|].
  unfold better at 2. rewrite andb_true_r.
  destruct (ready_at ready x) eqn:Hx.
  - intros H. destruct (better_fold_Some ready ds l x) as [y Hy]. congruence.
  - intros H i [->|Hi]%elem_of_cons; [done | by apply IH].
Qed.

Lemma select_Some (ready : list bool) (ds : list Z) (i : nat) :
  select ready ds = Some i -> (i < LANE_COUNT)%nat /\ ready_at ready i = true.
Proof.
  intros H. apply better_fold in H as [H|[Hi Hr]]; [done|].
  apply elem_of_seq in Hi. split; [lia|done].
Qed.

Lemma ready_at_true (ready : list bool) (i : nat) :
  ready_at ready i = true <-> ready !! i = Some true.
Proof. unfold ready_at. destruct (ready !! i) as [[]|]; simpl; split; congruence. Qed.

Lemma accrue_length (ready : list bool) (ds : list Z) :
  ready_ok ready -> length ds = LANE_COUNT -> length (accrue ready ds) = LANE_COUNT.
Proof.
  unfold ready_ok, accrue. intros Hr Hd.
  rewrite length_zip_with, length_zip_with, Hr, Hd. done.
Qed.

Lemma bump_lookup (ready : list bool) (w : nat) (ss : list N) (i : nat) (s : N) :
  ss !! i = Some s ->
  bump_skips ready w ss !! i
    = Some (if ready_at ready i && negb (i =? w)%nat then sat_add_u32 s 1 else s).
Proof. intros H. unfold bump_skips. rewrite list_lookup_imap, H. done. Qed.

Lemma skips_lookup (st : SchedulerState) (i : nat) :
  sched_wf st -> (i < LANE_COUNT)%nat -> skips st !! i = Some (skips_at st i).
Proof.
  intros [] Hi. unfold skips_at.
  destruct (lookup_lt_is_Some_2 (skips st) i) as [s Hs]; [lia|]. by rewrite Hs.
Qed.

Lemma skips_bound (st : SchedulerState) (i : nat) :
  sched_wf st -> (skips_at st i <= MAX_SKIPS)%N.
Proof.
  intros []. unfold skips_at. destruct (skips st !! i) eqn:E; simpl; [|done].
  by eapply Forall_lookup in wf_aged0.
Qed.

(** The skip counters after a pick, aged or not. *)
Lemma pick_cases (ready : list bool) (st : SchedulerState) (o : option nat)
    (st' : SchedulerState) :
  ready_ok ready -> sched_wf st -> pick_lane ready st = (st', o) ->
  (o = None /\ (forall i, (i < LANE_COUNT)%nat -> ready_at ready i = false) /\
     skips st' = skips st) \/
  (exists w, o = Some w /\ (w < LANE_COUNT)%nat /\ ready_at ready w = true /\
     ((skips_at st w = MAX_SKIPS /\ skips st' = <[w := 0%N]> (skips st)) \/
      (forall i, ready_at ready i = true -> (skips_at st i < MAX_SKIPS)%N) /\
       skips st' = bump_skips ready w (<[w := 0%N]> (skips st)))).
Proof.
  intros Hr W. unfold pick_lane.
  destruct (first_aged ready (skips st) 0) as [w|] eqn:Ha.
  - intros [= <- <-]. right. exists w.
    apply first_aged_Some in Ha as (j & -> & Hj & s & Hs & Hle). rewrite Nat.add_0_l.
    pose proof (lookup_lt_Some _ _ _ Hj). rewrite Hr in *.
    split; [done|]. split; [done|]. split; [by apply ready_at_true|]. left.
    split; [|done]. pose proof (skips_bound st j W) as Hb.
    unfold skips_at in *. rewrite Hs in *. simpl in *. lia.
  - pose proof (first_aged_None _ _ _ Ha) as Hnone.
    destruct (select ready (accrue ready (deficit st))) as [w|] eqn:Hs; intros [= <- <-].
    + right. exists w. apply select_Some in Hs as [Hw Hrw].
      repeat split; [done..|]. right. split; [|done]. intros i Hi.
      apply ready_at_true in Hi. pose proof (lookup_lt_Some _ _ _ Hi).
      eapply Hnone; [done|]. apply skips_lookup; [done|]. by rewrite <-Hr.
    + left. split; [done|]. split; [|done]. intros i Hi.
      eapply better_fold_None; [done|]. apply elem_of_seq. lia.
Qed.

Lemma bump_wf (ready : list bool) (st : SchedulerState) (w : nat) :
  sched_wf st -> (forall i, ready_at ready i = true -> (skips_at st i < MAX_SKIPS)%N) ->
  Forall (fun s => (s <= MAX_SKIPS)%N) (bump_skips ready w (<[w := 0%N]> (skips st))).
Proof.
  intros W Hlt. apply Forall_lookup. intros i s Hs.
  destruct (<[w := 0%N]> (skips st) !! i) as [s0|] eqn:E.
  - rewrite (bump_lookup _ _ _ _ _ E) in Hs. simplify_eq.
    assert ((s0 <= MAX_SKIPS)%N /\ (ready_at ready i = true -> (s0 < MAX_SKIPS)%N)) as [? ?].
    { apply list_lookup_insert_Some in E as [(-> & <- & _)|[_ E]]; [done|].
      pose proof (skips_bound st i W). specialize (Hlt i).
      unfold skips_at in *. rewrite E in *. done. }
    destruct (ready_at ready i); simpl; [|done]. case_match; [|done].
    unfold sat_add_u32, MAX_SKIPS, u32_max in *. lia.
  - apply list_lookup_imap_Some in Hs as (? & ? & _). congruence.
Qed.

Lemma pick_wf (ready : list bool) (st st' : SchedulerState) (o : option nat) :
  ready_ok ready -> sched_wf st -> pick_lane ready st = (st', o) -> sched_wf st'.
Proof.
  intros Hr W E. assert (length (deficit st') = LANE_COUNT) as Hd.
  { unfold pick_lane in E. pose proof (accrue_length ready (deficit st) Hr (wf_deficit _ W)).
    split_matches; rewrite ?length_insert; done || apply W. }
  pose proof (wf_skips _ W) as Hlen.
  pose proof (pick_cases _ _ _ _ Hr W E)
    as [(-> & Hn & Hs)|(w & -> & Hw & Hrw & [[Ha Hs]|[Hlt Hs]])];
    constructor; rewrite ?Hs, ?length_insert; try done.
  - apply W.
  - apply Forall_insert; [apply W | done].
  - unfold bump_skips. by rewrite length_imap, length_insert.
  - by apply bump_wf.
Qed.

Lemma pick_None (ready : list bool) (st st' : SchedulerState) :
  ready_ok ready -> sched_wf st -> pick_lane ready st = (st', None) ->
  forall i, (i < LANE_COUNT)%nat -> ready_at ready i = false.
Proof.
  intros Hr W E.
  by pose proof (pick_cases _ _ _ _ Hr W E) as [(_ & Hn & _)|(w & [=] & _)].
Qed.

(** A pick serves a ready lane whenever there is one and answers [None]
    only when no lane is ready; it keeps the state well-formed, with every skip
    counter bounded by [MAX_SKIPS], and clears the counter of the lane served. *)
Theorem pick_lane_work_conserving (ready : list bool) (st : SchedulerState) :
  ready_ok ready -> sched_wf st ->
  let '(st', o) := pick_lane ready st in
  sched_wf st' /\
  match o with
  | Some i => (i < LANE_COUNT)%nat /\ ready_at ready i = true /\ skips_at st' i = 0%N
  | None => forall i, (i < LANE_COUNT)%nat -> ready_at ready i = false
  end.
Proof.
  intros Hr W. destruct (pick_lane ready st) as [st' o] eqn:E.
  split; [by eapply pick_wf|]. pose proof (wf_skips _ W) as Hlen.
  pose proof (pick_cases _ _ _ _ Hr W E)
    as [(-> & Hn & Hs)|(w & -> & Hw & Hrw & [[Ha Hs]|[Hlt Hs]])]; [done|..];
    repeat split; try done; unfold skips_at; rewrite Hs.
  - rewrite list_lookup_insert_eq by lia. done.
  - rewrite (bump_lookup _ _ _ _ 0%N) by (apply list_lookup_insert_eq; lia).
    rewrite Nat.eqb_refl, andb_false_r. done.
Qed.

Lemma pick_lane_work_conserving_witness :
  ready_ok [false; true; false; false; true] /\
  let '(st', o) := pick_lane [false; true; false; false; true] default_state in
  sched_wf st' /\
  match o with
  | Some i => (i < LANE_COUNT)%nat /\ ready_at [false; true; false; false; true] i = true
              /\ skips_at st' i = 0%N
  | None => forall i, (i < LANE_COUNT)%nat -> ready_at [false; true; false; false; true] i = false
  end.
Proof.
  split; [reflexivity|].
  apply (pick_lane_work_conserving [false; true; false; false; true] default_state).
  - reflexivity.
  - constructor; [reflexivity..|]. cbv. repeat constructor; discriminate.
Defined.

(** ** Bounded starvation *)
#[local] Open Scope N_scope.

Definition sumN (f : nat -> N) (l : list nat) : N := foldr (fun j acc => f j + acc) 0 l.

Lemma sumN_le (f g : nat -> N) (l : list nat) :
  (forall j, j ∈ l -> f j <= g j) -> sumN f l <= sumN g l.
Proof.
  induction l as [|x l IH]; simpl; intros H; [lia|].
  pose proof (H x (list_elem_of_here _ _)).
  assert (sumN f l <= sumN g l) by (apply IH; intros; apply H; by constructor). lia.
Qed.

Lemma sumN_lt (f g : nat -> N) (l : list nat) (k : nat) :
  (forall j, j ∈ l -> f j <= g j) -> k ∈ l -> f k < g k -> sumN f l < sumN g l.
Proof.
  induction l as [|x l IH]; simpl; intros H Hk Hlt; [by apply not_elem_of_nil in Hk|].
  assert (sumN f l <= sumN g l) by (apply sumN_le; intros; apply H; by constructor).
  pose proof (H x (list_elem_of_here _ _)).
  apply elem_of_cons in Hk as [->|Hk]; [lia|].
  assert (sumN f l < sumN g l) by (apply IH; [intros; apply H; by constructor|done..]). lia.
Qed.

(** How many times lane [j] can still win by ageing while lane [i] waits. *)
Definition ageings (st : SchedulerState) (i j : nat) : N :=
  if (j =? i)%nat then 0 else (skips_at st j + (MAX_SKIPS - skips_at st i)) / MAX_SKIPS.
Definition potential (st : SchedulerState) (i : nat) : N :=
  (MAX_SKIPS - skips_at st i) + sumN (ageings st i) (seq 0 LANE_COUNT).

Lemma skips_at_aged (st st' : SchedulerState) (w j : nat) :
  sched_wf st -> (w < LANE_COUNT)%nat -> skips st' = <[w := 0]> (skips st) ->
  skips_at st' j = if (j =? w)%nat then 0 else skips_at st j.
Proof.
  intros W Hw E. unfold skips_at. rewrite E. destruct (Nat.eqb_spec j w) as [->|Hne].
  - rewrite list_lookup_insert_eq; [done|]. by rewrite (wf_skips _ W).
  - by rewrite list_lookup_insert_ne.
Qed.

Lemma skips_at_bumped (ready : list bool) (st st' : SchedulerState) (w j : nat) :
  sched_wf st -> (w < LANE_COUNT)%nat -> (j < LANE_COUNT)%nat ->
  skips st' = bump_skips ready w (<[w := 0]> (skips st)) ->
  skips_at st' j =
    if (j =? w)%nat then 0
    else if ready_at ready j then sat_add_u32 (skips_at st j) 1 else skips_at st j.
Proof.
  intros W Hw Hj E. unfold skips_at at 1. rewrite E.
  destruct (Nat.eqb_spec j w) as [->|Hne].
  - rewrite (bump_lookup _ _ _ _ 0)
      by (apply list_lookup_insert_eq; by rewrite (wf_skips _ W)).
    by rewrite Nat.eqb_refl, andb_false_r.
  - rewrite (bump_lookup _ _ _ _ (skips_at st j))
      by (rewrite list_lookup_insert_ne by done; by apply skips_lookup).
    rewrite (proj2 (Nat.eqb_neq _ _) Hne), andb_true_r. done.
Qed.

Lemma div64_bump (a b : N) : b < MAX_SKIPS ->
  (a + 1 + (MAX_SKIPS - (b + 1))) / MAX_SKIPS = (a + (MAX_SKIPS - b)) / MAX_SKIPS.
Proof. intros. f_equal. lia. Qed.

Lemma div64_mono (a a' : N) : a <= a' -> a / MAX_SKIPS <= a' / MAX_SKIPS.
Proof. intros. by apply N.Div0.div_le_mono. Qed.

Lemma pick_decreases (ready : list bool) (st st' : SchedulerState) (i w : nat) :
  ready_ok ready -> sched_wf st -> (i < LANE_COUNT)%nat -> ready_at ready i = true ->
  pick_lane ready st = (st', Some w) -> w <> i ->
  potential st' i < potential st i.
Proof.
  intros Hr W Hi Hri E Hne. pose proof (skips_bound st i W) as Hsi.
  pose proof (pick_cases _ _ _ _ Hr W E)
    as [(? & _)|(w' & [= <-] & Hw & Hrw & [[Ha Hs]|[Hlt Hs]])]; [done| |];
    unfold potential.
  - assert (skips_at st' i = skips_at st i) as Hii.
    { rewrite (skips_at_aged st st' w) by done. by rewrite (proj2 (Nat.eqb_neq i w)). }
    rewrite Hii. apply N.add_lt_mono_l. apply (sumN_lt _ _ _ w).
    + intros j _. unfold ageings. rewrite Hii, (skips_at_aged st st' w) by done.
      repeat case_match; try lia. apply div64_mono; lia.
    + apply elem_of_seq. lia.
    + unfold ageings. rewrite Hii, (skips_at_aged st st' w), Nat.eqb_refl by done.
      rewrite (proj2 (Nat.eqb_neq w i)), Ha by done.
      replace (MAX_SKIPS + (MAX_SKIPS - skips_at st i))
        with (0 + (MAX_SKIPS - skips_at st i) + 1 * MAX_SKIPS) by lia.
      rewrite N.div_add by done. lia.
  - specialize (Hlt i Hri).
    assert (skips_at st' i = skips_at st i + 1) as Hii.
    { rewrite (skips_at_bumped ready st st' w) by done.
      rewrite (proj2 (Nat.eqb_neq i w)), Hri by done.
      unfold sat_add_u32, u32_max, MAX_SKIPS in *. lia. }
    assert (sumN (ageings st' i) (seq 0 LANE_COUNT) <= sumN (ageings st i) (seq 0 LANE_COUNT)).
    { apply sumN_le. intros j Hj. apply elem_of_seq in Hj as [_ Hj].
      unfold ageings. rewrite Hii.
      case_match; [lia|]. rewrite <-(div64_bump (skips_at st j) (skips_at st i)) by done. apply div64_mono.
      rewrite (skips_at_bumped ready st st' w) by done.
      unfold sat_add_u32. repeat case_match; lia. }
    lia.
Qed.

Lemma potential_bound (st : SchedulerState) (i : nat) :
  sched_wf st -> (i < LANE_COUNT)%nat -> potential st i <= 72.
Proof.
  intros W Hi. unfold potential.
  assert (forall j, ageings st i j <= if (j =? i)%nat then 0 else 2) as H.
  { intros j. unfold ageings. case_match; [lia|].
    change 2 with ((64 + 64) / MAX_SKIPS). apply div64_mono.
    pose proof (skips_bound st j W). unfold MAX_SKIPS in *. lia. }
  assert (sumN (ageings st i) (seq 0 LANE_COUNT)
          <= sumN (fun j => if (j =? i)%nat then 0 else 2) (seq 0 LANE_COUNT))
    by (apply sumN_le; auto).
  assert (sumN (fun j => if (j =? i)%nat then 0 else 2) (seq 0 LANE_COUNT) = 8)
    by (unfold LANE_COUNT in Hi; do 5 (destruct i as [|i]; [reflexivity|]); lia).
  unfold MAX_SKIPS in *. lia.
Qed.

(** C40: Bounded starvation, with the exact constant.  A lane that stays ready is
    served within 73 picks from any well-formed state, whatever the other lanes
    do: at most 64 skips of its own and two ageings of each other lane. *)
Theorem ready_lane_served_within_73 (i : nat) (readys : list (list bool))
    (st : SchedulerState) :
  (i < LANE_COUNT)%nat -> sched_wf st ->
  Forall (fun r => ready_ok r /\ ready_at r i = true) readys ->
  (73 <= length readys)%nat ->
  Some i ∈ (picks readys st).2.
Proof.
  intros Hi W Hall Hlen.
  assert (potential st i < N.of_nat (length readys)) as Hp
    by (pose proof (potential_bound st i W Hi); lia).
  clear Hlen. revert st W Hp. induction Hall as [|r rs [Hr Hri] Hall IH]; intros st W Hp.
  { cbn in Hp. lia. }
  cbn [picks]. destruct (pick_lane r st) as [st1 o] eqn:E.
  pose proof (pick_wf _ _ _ _ Hr W E) as W1. destruct (picks rs st1) as [st2 os] eqn:Ep. cbn.
  destruct o as [w|]; [|by rewrite (pick_None r st st1 Hr W E i Hi) in Hri].
  destruct (decide (w = i)) as [->|Hne]; [by left|]. right.
  change os with (st2, os).2. rewrite <-Ep. apply IH; [done|].
  pose proof (pick_decreases r st st1 i w Hr W Hi Hri E Hne). cbn [length] in Hp. lia.
Qed.

Lemma default_wf : sched_wf default_state.
Proof. constructor; [reflexivity..|]. cbv. repeat constructor; discriminate. Qed.

Lemma ready_lane_served_within_73_witness :
  Some 3%nat ∈ (picks (replicate 73 [true; true; true; true; true]) default_state).2.
Proof.
  apply (ready_lane_served_within_73 3).
  - cbv. lia.
  - exact default_wf.
  - apply Forall_replicate. split; reflexivity.
  - cbv. lia.
Defined.

(** ** Shares under full load *)
Definition all_ready : list bool := replicate LANE_COUNT true.

Lemma picks_app (r1 r2 : list (list bool)) (st : SchedulerState) :
  picks (r1 ++ r2) st =
    let '(st1, o1) := picks r1 st in let '(st2, o2) := picks r2 st1 in (st2, o1 ++ o2).
Proof.
  revert st. induction r1 as [|r rs IH]; intros st; simpl.
  - by destruct (picks r2 st).
  - destruct (pick_lane r st) as [s1 o]. rewrite IH.
    destruct (picks rs s1) as [s2 o1]. by destruct (picks r2 s2).
Qed.

Lemma served_app (i : nat) (o1 o2 : list (option nat)) :
  served i (o1 ++ o2) = (served i o1 + served i o2)%nat.
Proof. unfold served. by rewrite List.filter_app, length_app. Qed.

(** The state at the end of every full-load round. *)
Definition round_state : SchedulerState := mkSched [0; 0; 0; 0; 0]%Z [0; 1; 3; 8; 7].

Lemma round_from (st : SchedulerState) (i : nat) :
  st = default_state \/ st = round_state -> (i < LANE_COUNT)%nat ->
  (picks (replicate 16 all_ready) st).1 = round_state /\
  Z.of_nat (served i (picks (replicate 16 all_ready) st).2) = default 0%Z (LANE_WEIGHTS !! i).
Proof.
  unfold LANE_COUNT. intros [->| ->] Hi; (split; [vm_compute; reflexivity|]);
    do 5 (destruct i as [|i]; [vm_compute; reflexivity|]); lia.
Qed.

(** With every lane backlogged, each round of 16 picks serves each lane
    exactly its weight (8, 4, 2, 1, 1), for any number of rounds: ageing never
    disturbs the weighted shares. *)
Theorem full_load_shares (k i : nat) :
  (i < LANE_COUNT)%nat ->
  Z.of_nat (served i (picks (replicate (k * 16) all_ready) default_state).2)
    = (Z.of_nat k * default 0 (LANE_WEIGHTS !! i))%Z.
Proof.
  intros Hi.
  enough (forall st, st = default_state \/ st = round_state ->
    Z.of_nat (served i (picks (replicate (k * 16) all_ready) st).2)
      = (Z.of_nat k * default 0 (LANE_WEIGHTS !! i))%Z) as H by (apply H; by left).
  induction k as [|k IH]; intros st Hst; [done|].
  change (S k * 16)%nat with (16 + k * 16)%nat. rewrite replicate_add, picks_app.
  pose proof (round_from st i Hst Hi) as [H1 H2].
  destruct (picks (replicate 16 all_ready) st) as [st1 o1]. cbn [fst snd] in H1, H2. subst st1.
  specialize (IH round_state (or_intror eq_refl)).
  destruct (picks (replicate (k * 16) all_ready) round_state) as [st2 o2]. cbn [fst snd] in *.
  rewrite served_app. lia.
Qed.

Lemma full_load_shares_witness :
  Z.of_nat (served 2 (picks (replicate (3 * 16) all_ready) default_state).2) = 6%Z.
Proof. rewrite (full_load_shares 3 2); [reflexivity|]. cbv; lia. Defined.

(** ** A lane served alone goes into debt

    The winner pays the weights of all five lanes, ready or not. *)
Definition only_interactive : list bool := [true; false; false; false; false].

Lemma wrap_i32_small (z : Z) : (-2147483648 <= z < 2147483648)%Z -> wrap_i32 z = z.
Proof. intros. unfold wrap_i32. rewrite Z.mod_small by lia. lia. Qed.

Lemma solo_pick (d : Z) :
  (-2147483640 <= d <= 0)%Z ->
  pick_lane only_interactive (mkSched [d; 0; 0; 0; 0]%Z [0; 0; 0; 0; 0])
    = (mkSched [d - 8; 0; 0; 0; 0]%Z [0; 0; 0; 0; 0], Some 0%nat).
Proof.
  intros Hd.
  change (pick_lane only_interactive (mkSched [d; 0; 0; 0; 0]%Z [0; 0; 0; 0; 0]))
    with (mkSched [wrap_i32 (wrap_i32 (d + 8) - 16); 0; 0; 0; 0]%Z [0; 0; 0; 0; 0], Some 0%nat).
  rewrite !wrap_i32_small by (rewrite ?wrap_i32_small by lia; lia).
  do 2 f_equal. f_equal. lia.
Qed.

(** The deficit of a lane that is served while the others are idle falls by
    8 on every pick ([n] picks leave it at [-8 n]), so an idle lane does gain an
    advantage: after 512 interactive-only picks a [Verify] item (weight 1)
    wins 64 picks in a row over the waiting interactive lane (weight 8). *)
Theorem solo_lane_debt (n : nat) :
  (Z.of_nat n <= 268435455)%Z ->
  (picks (replicate n only_interactive) default_state).1
    = mkSched [- 8 * Z.of_nat n; 0; 0; 0; 0]%Z [0; 0; 0; 0; 0] /\
  (n = 512%nat ->
   (picks (replicate 64 [true; false; false; false; true])
      (mkSched [- 8 * Z.of_nat n; 0; 0; 0; 0]%Z [0; 0; 0; 0; 0])).2
     = replicate 64 (Some 4%nat)).
Proof.
  intros Hn. split; [|intros ->; vm_compute; reflexivity].
  change default_state with (mkSched [0; 0; 0; 0; 0]%Z [0; 0; 0; 0; 0]).
  assert (forall m d, (- 2147483640 <= d <= 0)%Z -> (d - 8 * Z.of_nat m >= -2147483648)%Z ->
    (picks (replicate m only_interactive) (mkSched [d; 0; 0; 0; 0]%Z [0; 0; 0; 0; 0])).1
      = mkSched [d - 8 * Z.of_nat m; 0; 0; 0; 0]%Z [0; 0; 0; 0; 0]) as H.
  { clear n Hn. induction m as [|m IH]; intros d Hd Hm.
    - cbn [replicate picks fst]. do 2 f_equal. lia.
    - cbn [replicate picks]. rewrite solo_pick by lia.
      destruct m as [|m']; [cbn [replicate picks fst]; do 2 f_equal; lia|].
      specialize (IH (d - 8)%Z).
      destruct (picks (replicate (S m') only_interactive) _) as [st2 os]. cbn [fst] in *.
      rewrite IH by lia. do 2 f_equal. lia. }
  rewrite (H n 0%Z) by lia. do 2 f_equal. lia.
Qed.

Lemma solo_lane_debt_witness :
  (picks (replicate 512 only_interactive) default_state).1
    = mkSched [- 8 * Z.of_nat 512; 0; 0; 0; 0]%Z [0; 0; 0; 0; 0].
Proof. apply (solo_lane_debt 512). vm_compute; discriminate. Defined.
