(* ===== verification/Intake.v ===== *)
(** * Intake: path coalescing in front of the index workers
      ([backend/src/tasks/queue/intake.rs] and [worker.rs])

    A transition system: each event is one atomic section of a submitter, of a
    worker or of a drain, and [exec] says when it can happen and what it does.
    Which lane a worker serves is any that is not empty; the choice the code makes
    is the scheduler of [Priority].  A file's identity is what its metadata says
    (none when it cannot be read).  What processing an item does is not part of
    this model: the history records that it was done.  Generations are counted
    without a bound. *)

From S2P Require Import Prelude Priority.

Abbreviation Identity := (option N * option N)%type.

Inductive IntakeKind :=
| Scan_ (job_id : N)
| WatcherIndex
| WatcherRemove
| ExpireCheck
| InteractiveAlbum (album_id : str) (reply : bool).
#[export] Instance IntakeKind_eq_dec : EqDecision IntakeKind.
Proof. solve_decision. Defined.

Record IntakeItem := mkItem {
  i_path : str; i_priority : Priority; i_kind : IntakeKind; i_generation : N; i_identity : Identity
}.
#[export] Instance IntakeItem_eq_dec : EqDecision IntakeItem.
Proof. solve_decision. Defined.

Definition INTAKE_CAPACITY : nat := 1024.

(** How far a worker is with its item: just taken, found to be the newest, past
    every check. *)
Inductive Stage := Taken | Newest | Working.
Inductive Outcome := Processed | Superseded | Stale.

Record Intake := mkIntake {
  generations : gmap str N;
  progress : gmap N (N * N);             (* JOB_PROGRESS: submitted, completed *)
  observed : list (IntakeKind * str * Identity);  (* submitters that have looked at the file *)
  sending : list IntakeItem;             (* submitters at [send] *)
  lanes : Priority -> list IntakeItem;
  running : list (Stage * IntakeItem);   (* items in the workers' hands *)
  disk : gmap str Identity;
  history : list (Outcome * IntakeItem)
}.
Definition initial : Intake := mkIntake ∅ ∅ [] [] (fun _ => []) [] ∅ [].

Definition set_generations g s := mkIntake g (progress s) (observed s) (sending s) (lanes s) (running s) (disk s) (history s).
Definition set_progress j s := mkIntake (generations s) j (observed s) (sending s) (lanes s) (running s) (disk s) (history s).
Definition set_observed o s := mkIntake (generations s) (progress s) o (sending s) (lanes s) (running s) (disk s) (history s).
Definition set_sending l s := mkIntake (generations s) (progress s) (observed s) l (lanes s) (running s) (disk s) (history s).
Definition set_lane p q s := mkIntake (generations s) (progress s) (observed s) (sending s)
  (fun p' => if decide (p' = p) then q else lanes s p') (running s) (disk s) (history s).
Definition set_running r s := mkIntake (generations s) (progress s) (observed s) (sending s) (lanes s) r (disk s) (history s).
Definition set_disk d s := mkIntake (generations s) (progress s) (observed s) (sending s) (lanes s) (running s) d (history s).
Definition record_outcome o i s := mkIntake (generations s) (progress s) (observed s) (sending s) (lanes s) (running s) (disk s) (history s ++ [(o, i)]).

(** ** Operations ([intake.rs]) *)
Definition current_generation (path : str) (s : Intake) : option N := generations s !! path.
Definition next_generation (path : str) (s : Intake) : N * Intake :=
  let g := default 0 (generations s !! path) + 1 in
  (g, set_generations (<[path := g]> (generations s)) s).
Definition release_generation (i : IntakeItem) (s : Intake) : Intake :=
  if bool_decide (generations s !! i_path i = Some (i_generation i))
  then set_generations (delete (i_path i) (generations s)) s else s.

Definition job_progress (job : N) (s : Intake) : N * N := default (0, 0) (progress s !! job).
Definition note_item_complete (job : N) (s : Intake) : Intake :=
  let '(submitted, completed) := job_progress job s in
  set_progress (<[job := (submitted, completed + 1)]> (progress s)) s.
Definition note_item_submitted (job : N) (s : Intake) : Intake :=
  let '(submitted, completed) := job_progress job s in
  set_progress (<[job := (submitted + 1, completed)]> (progress s)) s.
Definition remove_job (job : N) (s : Intake) : Intake := set_progress (delete job (progress s)) s.

Definition observe_identity (path : str) (s : Intake) : Identity := default (None, None) (disk s !! path).

Definition lane_of (k : IntakeKind) : Priority :=
  match k with
  | Scan_ _ => Scan
  | WatcherIndex | WatcherRemove => Watcher
  | ExpireCheck => Expire
  | InteractiveAlbum _ _ => Interactive
  end.
(** The kinds whose path carries a generation. *)
Definition coalesced (k : IntakeKind) : bool :=
  match k with Scan_ _ | WatcherIndex | WatcherRemove => true | _ => false end.

(** [submit_*], up to the look at the file. *)
Definition begin_submit (k : IntakeKind) (path : str) (s : Intake) : Intake :=
  let '(path, identity) :=
    match k with
    | Scan_ _ | WatcherIndex => (path, observe_identity path s)
    | WatcherRemove => (path, (None, None))
    | ExpireCheck | InteractiveAlbum _ _ => ([], (None, None))
    end in
  set_observed (observed s ++ [(k, path, identity)]) s.
(** ... and up to [send]. *)
Definition number_item (k : IntakeKind) (path : str) (identity : Identity) (s : Intake) : Intake :=
  let '(generation, s) := if coalesced k then next_generation path s else (0, s) in
  let s := match k with Scan_ job => note_item_submitted job s | _ => s end in
  set_sending (sending s ++ [mkItem path (lane_of k) k generation identity]) s.
Definition send (i : IntakeItem) (s : Intake) : option Intake :=
  let q := lanes s (i_priority i) in
  if (length q <? INTAKE_CAPACITY)%nat then Some (set_lane (i_priority i) (q ++ [i]) s) else None.

(** ** Workers ([worker.rs]) *)
Definition is_superseded (i : IntakeItem) (s : Intake) : bool :=
  negb (bool_decide (current_generation (i_path i) s = Some (i_generation i))).
Definition is_stale (i : IntakeItem) (s : Intake) : bool :=
  match disk s !! i_path i with
  | Some fresh => negb (bool_decide (fresh = i_identity i))
  | None => false
  end.

(** The end of an item: its share of the job's barrier. *)
Definition complete (i : IntakeItem) (s : Intake) : Intake :=
  match i_kind i with Scan_ job => note_item_complete job s | _ => s end.
Definition release (i : IntakeItem) (s : Intake) : Intake :=
  if coalesced (i_kind i) then release_generation i s else s.
Definition finish (o : Outcome) (i : IntakeItem) (s : Intake) : Intake :=
  let s := match o with Superseded => s | _ => release i s end in
  record_outcome o i (complete i s).

Definition replace_at {A} (n : nat) (x : option A) (l : list A) : list A :=
  take n l ++ from_option (fun x => [x]) [] x ++ drop (S n) l.

(** One step of the worker that holds the [n]th item: the check for a newer
    submit, the check of the file, the work. *)
Definition work (n : nat) (s : Intake) : option Intake :=
  '(stage, i) ← running s !! n;
  let leave o := Some (finish o i (set_running (replace_at n None (running s)) s)) in
  let go stage := Some (set_running (replace_at n (Some (stage, i)) (running s)) s) in
  match stage with
  | Taken =>
      if coalesced (i_kind i) then
        if is_superseded i s then leave Superseded
        else go (match i_kind i with WatcherRemove => Working | _ => Newest end)
      else go Working
  | Newest => if is_stale i s then leave Stale else go Working
  | Working => leave Processed
  end.

Section System.
(** The number of workers. *)
Variable workers : nat.

Inductive Event :=
| EObserve (k : IntakeKind) (path : str)
| ENumber (n : nat)
| ESend (n : nat)
| ETake (lane : Priority)
| EWork (n : nat)
| EDrain (job : N)
| ETouch (path : str) (identity : option Identity).

Definition exec (e : Event) (s : Intake) : option Intake :=
  match e with
  | EObserve k path => Some (begin_submit k path s)
  | ENumber n =>
      '(k, path, identity) ← observed s !! n;
      Some (number_item k path identity (set_observed (replace_at n None (observed s)) s))
  | ESend n =>
      i ← sending s !! n;
      send i (set_sending (replace_at n None (sending s)) s)
  | ETake lane =>
      match lanes s lane with
      | i :: q =>
          if (length (running s) <? workers)%nat
          then Some (set_running (running s ++ [(Taken, i)]) (set_lane lane q s)) else None
      | [] => None
      end
  | EWork n => work n s
  | EDrain job =>
      let '(submitted, completed) := job_progress job s in
      if submitted <=? completed then Some (remove_job job s) else None
  | ETouch path identity => Some (set_disk (partial_alter (fun _ => identity) path (disk s)) s)
  end.
Fixpoint run (es : list Event) (s : Intake) : option Intake :=
  match es with [] => Some s | e :: es => s' ← exec e s; run es s' end.
Definition reachable (s : Intake) : Prop := exists es, run es initial = Some s.
End System.

(** ** What is under way *)
Definition all_lanes : list Priority := [Interactive; Watcher; Scan; Expire; Verify].
Definition queued (s : Intake) : list IntakeItem := all_lanes ≫= lanes s.
Definition items (s : Intake) : list IntakeItem := sending s ++ queued s ++ (running s).*2.
Definition is_scan_of (job : N) (i : IntakeItem) : bool := bool_decide (i_kind i = Scan_ job).
Definition outstanding (job : N) (l : list IntakeItem) : N :=
  N.of_nat (length (List.filter (is_scan_of job) l)).

Lemma outstanding_app job l l' : outstanding job (l ++ l') = outstanding job l + outstanding job l'.
Proof. unfold outstanding. rewrite List.filter_app, length_app. lia. Qed.
Lemma outstanding_cons job i l :
  outstanding job (i :: l) = (if is_scan_of job i then 1 else 0) + outstanding job l.
Proof. unfold outstanding. cbn [List.filter]. destruct (is_scan_of job i); cbn [length]; lia. Qed.
#[export] Instance outstanding_Proper job : Proper ((≡ₚ) ==> (=)) (outstanding job).
Proof.
  intros l l' Hl. induction Hl as [|i l l' _ IH|i i' l|]; rewrite ?outstanding_cons; try lia; congruence.
Qed.

Lemma replace_perm {A} n (x : A) l : l !! n = Some x -> l ≡ₚ x :: replace_at n None l.
Proof.
  intros Hn. rewrite <-(take_drop_middle l n x Hn) at 1. unfold replace_at. cbn. by rewrite <-Permutation_middle.
Qed.
Lemma replace_perm_Some {A} n (x y : A) l : l !! n = Some x ->
  replace_at n (Some y) l ≡ₚ y :: replace_at n None l.
Proof. intros Hn. unfold replace_at. cbn. by rewrite <-Permutation_middle. Qed.

Lemma set_lane_queued p q s l : lanes s p ≡ₚ l ++ q -> queued s ≡ₚ l ++ queued (set_lane p q s).
Proof.
  intros Hp. unfold queued, all_lanes. cbn [mbind list_bind set_lane lanes].
  destruct p; cbn [decide decide_rel Priority_eq_dec]; repeat (case_decide; try done);
    rewrite Hp; solve_Permutation.
Qed.

(** ** What an event does to the items *)
Inductive moves (s s' : Intake) : Prop :=
| moved : items s' ≡ₚ items s -> generations s' = generations s -> progress s' = progress s ->
    history s' = history s -> moves s s'
| added i : items s' ≡ₚ i :: items s ->
    (exists identity, (i_kind i, i_path i, identity) ∈ observed s) ->
    generations s' = (if coalesced (i_kind i)
                      then <[i_path i := i_generation i]> (generations s) else generations s) ->
    (coalesced (i_kind i) = true -> i_generation i = default 0 (generations s !! i_path i) + 1) ->
    progress s' = progress (match i_kind i with Scan_ job => note_item_submitted job s | _ => s end) ->
    history s' = history s -> moves s s'
| left_ o i : items s ≡ₚ i :: items s' ->
    generations s' = generations (match o with Superseded => s | _ => release i s end) ->
    progress s' = progress (complete i s) -> history s' = history s ++ [(o, i)] ->
    (o = Superseded -> coalesced (i_kind i) = true /\ generations s !! i_path i <> Some (i_generation i)) ->
    (o = Stale -> is_stale i s = true) -> moves s s'
| drained job : items s' = items s -> generations s' = generations s ->
    progress s' = delete job (progress s) -> history s' = history s ->
    (job_progress job s).1 <= (job_progress job s).2 -> moves s s'.

Ltac finish_cases :=
  unfold finish, complete, release, release_generation, note_item_complete, note_item_submitted, job_progress;
  cbn; repeat (case_match; cbn in *; try done); try congruence.

Lemma finish_moves o i s t : items t ≡ₚ i :: items s -> generations s = generations t ->
  progress s = progress t -> history s = history t -> disk s = disk t ->
  (o = Superseded -> coalesced (i_kind i) = true /\ generations t !! i_path i <> Some (i_generation i)) ->
  (o = Stale -> is_stale i t = true) -> moves t (finish o i s).
Proof.
  intros Hi Hg Hp Hh Hd Hsup Hst. apply (left_ _ _ o i); [rewrite Hi|..|done|done];
    clear Hi Hsup Hst; destruct s, t; cbn in Hg, Hp, Hh, Hd; subst; finish_cases.
Qed.

Lemma running_out n stage i s : running s !! n = Some (stage, i) ->
  items s ≡ₚ i :: items (set_running (replace_at n None (running s)) s).
Proof.
  intros Hn. pose proof (fmap_Permutation snd _ _ (replace_perm _ _ _ Hn)) as Hp. cbn in Hp.
  unfold items. cbn [set_running running sending].
  change (queued (set_running (replace_at n None (running s)) s)) with (queued s).
  rewrite Hp. solve_Permutation.
Qed.
Lemma running_on n stage stage' i s : running s !! n = Some (stage, i) ->
  items (set_running (replace_at n (Some (stage', i)) (running s)) s) ≡ₚ items s.
Proof.
  intros Hn. rewrite (running_out _ _ _ _ Hn). unfold items. cbn [set_running running sending].
  pose proof (fmap_Permutation snd _ _ (replace_perm_Some _ (stage, i) (stage', i) _ Hn)) as Hp.
  cbn in Hp. rewrite Hp.
  change (queued (set_running (replace_at n (Some (stage', i)) (running s)) s)) with (queued s).
  change (queued (set_running (replace_at n None (running s)) s)) with (queued s). solve_Permutation.
Qed.

Lemma work_moves n s s' : work n s = Some s' -> moves s s'.
Proof.
  unfold work. intros ([stage i] & Hn & H)%bind_Some.
  pose proof (running_out _ _ _ _ Hn) as Hout. pose proof (fun st' => running_on _ _ st' _ _ Hn) as Hon.
  destruct stage.
  - destruct (coalesced (i_kind i)) eqn:Hc.
    + unfold is_superseded, current_generation in H. case_bool_decide as Hg; cbn [negb] in H.
      * injection H as <-. apply moved; [apply Hon|done..].
      * injection H as <-. apply finish_moves; done.
    + injection H as <-. apply moved; [apply Hon|done..].
  - destruct (is_stale i s) eqn:Hs; injection H as <-.
    + apply finish_moves; done.
    + apply moved; [apply Hon|done..].
  - injection H as <-. apply finish_moves; done.
Qed.

Lemma number_moves n k path identity s : observed s !! n = Some (k, path, identity) ->
  moves s (number_item k path identity (set_observed (replace_at n None (observed s)) s)).
Proof.
  intros Hn. set (t := set_observed _ s). unfold number_item.
  set (g := if coalesced k then default 0 (generations s !! path) + 1 else 0).
  apply (added _ _ (mkItem path (lane_of k) k g identity)).
  - unfold items, next_generation, note_item_submitted.
    destruct k; cbn; try destruct (job_progress _ _); cbn; solve_Permutation.
  - exists identity. by apply list_elem_of_lookup_2 in Hn.
  - unfold next_generation, note_item_submitted. subst g t.
    by destruct k; cbn; try destruct (job_progress _ _).
  - subst g. cbn. by intros ->.
  - unfold next_generation, note_item_submitted, job_progress. subst t.
    by destruct k; cbn; try destruct (default (0, 0) _).
  - unfold next_generation, note_item_submitted. subst t.
    by destruct k; cbn; try destruct (job_progress _ _).
Qed.

Lemma exec_moves w e s s' : exec w e s = Some s' -> moves s s'.
Proof.
  destruct e as [k path|n|n|lane|n|job|path identity]; cbn [exec].
  - intros [= <-]. unfold begin_submit. destruct k; by apply moved.
  - intros ([[k path] identity] & Hn & [= <-])%bind_Some. by apply number_moves.
  - intros (i & Hn & H)%bind_Some. unfold send in H. destruct (_ <? _)%nat; [|done]. injection H as <-.
    apply moved; [|done..]. set (t := set_sending _ s).
    assert (sending s ≡ₚ i :: sending t) as Hs by by apply replace_perm.
    assert (queued (set_lane (i_priority i) (lanes s (i_priority i) ++ [i]) t) ≡ₚ i :: queued s) as Hq.
    { unfold queued, all_lanes. cbn [mbind list_bind set_lane lanes].
      destruct (i_priority i); repeat (case_decide; try done); cbn; solve_Permutation. }
    unfold items. rewrite Hs, Hq. cbn [set_lane sending running]. solve_Permutation.
  - destruct (lanes s lane) as [|i q] eqn:Hl; [done|]. destruct (_ <? _)%nat; [|done]. intros [= <-].
    apply moved; [|done..].
    assert (queued s ≡ₚ i :: queued (set_lane lane q s)) as Hq.
    { apply (set_lane_queued lane q s [i]). by rewrite Hl. }
    unfold items. rewrite Hq. cbn [set_running set_lane sending running].
    change (queued (set_running _ _)) with (queued (set_lane lane q s)).
    rewrite fmap_app. cbn. solve_Permutation.
  - apply work_moves.
  - destruct (job_progress job s) as [submitted completed] eqn:Hj. destruct (N.leb_spec submitted completed); [|done].
    intros [= <-]. apply (drained _ _ job); try done. by rewrite Hj.
  - intros [= <-]. by apply moved.
Qed.

(** ** The invariant: every count and every generation belongs to something under way *)
Definition accounted (s : Intake) : Prop := forall job,
  (job_progress job s).1 = (job_progress job s).2 + outstanding job (items s).
Definition owned (s : Intake) : Prop := forall path g, generations s !! path = Some g ->
  exists i, i ∈ items s /\ coalesced (i_kind i) = true /\ i_path i = path /\ i_generation i = g.

Lemma submitted_progress job job' s :
  job_progress job (note_item_submitted job' s)
  = (if decide (job = job') then ((job_progress job s).1 + 1, (job_progress job s).2) else job_progress job s).
Proof.
  unfold note_item_submitted. destruct (job_progress job' s) as [a b] eqn:Hj. unfold job_progress in *. cbn.
  case_decide; [subst; by rewrite lookup_insert_eq, Hj|by rewrite lookup_insert_ne].
Qed.
Lemma completed_progress job job' s :
  job_progress job (note_item_complete job' s)
  = (if decide (job = job') then ((job_progress job s).1, (job_progress job s).2 + 1) else job_progress job s).
Proof.
  unfold note_item_complete. destruct (job_progress job' s) as [a b] eqn:Hj. unfold job_progress in *. cbn.
  case_decide; [subst; by rewrite lookup_insert_eq, Hj|by rewrite lookup_insert_ne].
Qed.
Lemma progress_eq job s s' : progress s' = progress s -> job_progress job s' = job_progress job s.
Proof. unfold job_progress. by intros ->. Qed.

Lemma moves_accounted s s' : accounted s -> moves s s' -> accounted s'.
Proof.
  intros Ha Hm job. specialize (Ha job).
  destruct Hm as [Hi _ Hp _|i Hi _ _ _ Hp _|o i Hi _ Hp _ _ _|job' Hi _ Hp _ Hle].
  - by rewrite Hi, (progress_eq job _ _ Hp).
  - rewrite Hi, outstanding_cons, (progress_eq job _ _ Hp). unfold is_scan_of.
    destruct (i_kind i) as [job'| | | |]; try (rewrite bool_decide_eq_false_2 by done; lia).
    rewrite submitted_progress. destruct (decide (job = job')); cbn [fst snd].
    + subst. rewrite bool_decide_eq_true_2 by done. lia.
    + rewrite bool_decide_eq_false_2 by congruence. lia.
  - rewrite Hi, outstanding_cons in Ha. rewrite (progress_eq job _ _ Hp). unfold is_scan_of, complete in *.
    destruct (i_kind i) as [job'| | | |]; try (rewrite bool_decide_eq_false_2 in Ha by done; lia).
    rewrite completed_progress. destruct (decide (job = job')); cbn [fst snd].
    + subst. rewrite bool_decide_eq_true_2 in Ha by done. lia.
    + rewrite bool_decide_eq_false_2 in Ha by congruence. lia.
  - rewrite Hi. unfold job_progress in *. rewrite Hp. destruct (decide (job = job')) as [->|Hne].
    + rewrite lookup_delete_eq. cbn. lia.
    + by rewrite lookup_delete_ne.
Qed.

Lemma release_lookup i s path g : generations (release i s) !! path = Some g ->
  generations s !! path = Some g /\
  (coalesced (i_kind i) = true -> ~ (path = i_path i /\ g = i_generation i)).
Proof.
  unfold release, release_generation. destruct (coalesced (i_kind i)) eqn:Hc; [|done].
  case_bool_decide as Hg.
  - cbn. intros [Hne Hl]%lookup_delete_Some. split; [done|]. intros _ [-> _]. done.
  - intros Hl. split; [done|]. intros _ [-> ->]. done.
Qed.

Lemma moves_owned s s' : owned s -> moves s s' -> owned s'.
Proof.
  intros Ho Hm path g.
  destruct Hm as [Hi Hg _ _|i Hi _ Hg _ _ _|o i Hi Hg _ _ Hsup _|job' Hi Hg _ _ _]; rewrite Hg; intros Hl.
  - destruct (Ho _ _ Hl) as (j & Hj & ?). exists j. by rewrite Hi.
  - setoid_rewrite Hi. setoid_rewrite elem_of_cons. destruct (coalesced (i_kind i)) eqn:Hc.
    + apply lookup_insert_Some in Hl as [[<- <-]|[_ Hl]]; [exists i; auto|].
      destruct (Ho _ _ Hl) as (j & ? & ?). exists j. auto.
    + destruct (Ho _ _ Hl) as (j & ? & ?). exists j. auto.
  - assert (generations s !! path = Some g /\
      (coalesced (i_kind i) = true -> ~ (path = i_path i /\ g = i_generation i))) as [Hl' Hne].
    { destruct o; [by apply release_lookup|split; [done|]|by apply release_lookup].
      intros _ [-> ->]. destruct (Hsup eq_refl) as [_ Hsup']. done. }
    destruct (Ho _ _ Hl') as (j & Hj & Hc & Hp & Hgen). rewrite Hi, elem_of_cons in Hj.
    destruct Hj as [->|Hj]; [|by exists j]. exfalso. by apply Hne.
  - destruct (Ho _ _ Hl) as (j & Hj & ?). exists j. by rewrite Hi.
Qed.

Lemma intake_run_app w es es' s : run w (es ++ es') s = s' ← run w es s; run w es' s'.
Proof. revert s. induction es as [|e es IH]; intros s; [done|]. cbn. destruct (exec w e s); cbn; auto. Qed.
Lemma run_invariant w (P : Intake -> Prop) es s s' :
  (forall t t', P t -> moves t t' -> P t') -> P s -> run w es s = Some s' -> P s'.
Proof.
  intros Hstep. revert s. induction es as [|e es IH]; intros s Hs; cbn; [by intros [= <-]|].
  intros (t & He & Hr)%bind_Some. eapply IH; [|done]. by eapply Hstep, exec_moves.
Qed.
Lemma reachable_accounted w s : reachable w s -> accounted s.
Proof. intros (es & Hr). eapply run_invariant; [apply moves_accounted| |exact Hr]. done. Qed.
Lemma reachable_owned w s : reachable w s -> owned s.
Proof. intros (es & Hr). eapply run_invariant; [apply moves_owned| |exact Hr]. by intros path g. Qed.

(** *** What was submitted and done, counted from the events *)
(** Since the job was last drained: the items numbered for it, and its items that the
    history gained. *)
Definition tally_step (job : N) (e : Event) (s s' : Intake) (counts : N * N) : N * N :=
  let '(submitted, completed) := counts in
  match e with
  | ENumber n =>
      match observed s !! n with
      | Some (Scan_ job', _, _) => if decide (job' = job) then (submitted + 1, completed) else counts
      | _ => counts
      end
  | EWork _ => (submitted, completed + outstanding job (drop (length (history s)) (history s')).*2)
  | EDrain job' => if decide (job' = job) then (0, 0) else counts
  | _ => counts
  end.
Fixpoint tally (w : nat) (job : N) (es : list Event) (s : Intake) (counts : N * N) : N * N :=
  match es with
  | [] => counts
  | e :: es => match exec w e s with Some s' => tally w job es s' (tally_step job e s s' counts) | None => counts end
  end.

Lemma complete_progress job i s : job_progress job (complete i s) =
  ((job_progress job s).1, (job_progress job s).2 + outstanding job [i]).
Proof.
  rewrite outstanding_cons. change (outstanding job []) with 0. rewrite N.add_0_r.
  assert (is_scan_of job i = false -> job_progress job s =
    ((job_progress job s).1, (job_progress job s).2 + (if is_scan_of job i then 1 else 0))) as Hno.
  { intros ->. rewrite N.add_0_r. by destruct (job_progress job s). }
  unfold complete, is_scan_of in *.
  destruct (i_kind i) as [job'| | | |]; try (by apply Hno, bool_decide_eq_false_2).
  rewrite completed_progress. destruct (decide (job = job')) as [->|Hne].
  - by rewrite bool_decide_eq_true_2 by done.
  - apply Hno, bool_decide_eq_false_2. congruence.
Qed.
Lemma finish_progress job o i s : job_progress job (finish o i s) =
  ((job_progress job s).1, (job_progress job s).2 + outstanding job [i]) /\ history (finish o i s) = history s ++ [(o, i)].
Proof.
  assert (forall s', progress s' = progress s -> job_progress job (complete i s') =
    ((job_progress job s).1, (job_progress job s).2 + outstanding job [i])) as Hc.
  { intros s' Hs. by rewrite complete_progress, (progress_eq job _ _ Hs). }
  assert (forall s', history (complete i s') = history s') as Hh.
  { intros s'. unfold complete, note_item_complete. by repeat case_match. }
  unfold finish. cbn [history record_outcome]. rewrite Hh. unfold job_progress at 1. cbn [progress record_outcome].
  change (default (0, 0) (progress ?x !! job)) with (job_progress job x). destruct o; (split; [apply Hc|]);
    try done; unfold release, release_generation; by repeat case_match.
Qed.
Lemma tally_exec w job e s s' : exec w e s = Some s' ->
  job_progress job s' = tally_step job e s s' (job_progress job s).
Proof.
  intros He. destruct (job_progress job s) as [submitted completed] eqn:Hj. destruct e as [k path|n|n|lane|n|job'|path identity];
    cbn [exec] in He; cbn [tally_step].
  - injection He as <-. rewrite <-Hj. apply progress_eq. by destruct k.
  - destruct (observed s !! n) as [[[k path] identity]|]; [|done]. cbn in He. injection He as <-.
    unfold number_item. set (t := if coalesced k then _ else _).
    assert (job_progress job t.2 = (submitted, completed)) as Ht by (rewrite <-Hj; apply progress_eq; unfold t; by destruct k).
    destruct t as [g t]. cbn [snd] in Ht. destruct k as [job0| | | |]; try exact Ht.
    transitivity (job_progress job (note_item_submitted job0 t)); [done|]. rewrite submitted_progress, Ht.
    destruct (decide (job = job0)) as [->|]; [by rewrite decide_True|]. by rewrite decide_False by done.
  - apply bind_Some in He as (i & _ & He). unfold send in He. case_match; [|done]. injection He as <-. rewrite <-Hj. by apply progress_eq.
  - destruct (lanes s lane); [done|]. case_match; [|done]. injection He as <-. rewrite <-Hj. by apply progress_eq.
  - unfold work in He. apply bind_Some in He as ([stage i] & _ & He).
    assert (forall o r, job_progress job (finish o i (set_running r s)) =
      (submitted, completed + outstanding job (drop (length (history s)) (history (finish o i (set_running r s)))).*2)) as Hleave.
    { intros o r. destruct (finish_progress job o i (set_running r s)) as [Hp Hh]. rewrite Hp, Hh.
      cbn [history set_running]. rewrite drop_app_length. change (job_progress job (set_running r s)) with (job_progress job s).
      by rewrite Hj. }
    assert (forall r, job_progress job (set_running r s) =
      (submitted, completed + outstanding job (drop (length (history s)) (history (set_running r s))).*2)) as Hgo.
    { intros r. cbn [history set_running]. rewrite drop_all. change (job_progress job (set_running r s)) with (job_progress job s).
      rewrite Hj. change (outstanding job []) with 0. by rewrite N.add_0_r. }
    repeat case_match; injection He as <-; auto.
  - destruct (job_progress job' s) as [a b]. case_match; [|done]. injection He as <-.
    unfold job_progress, remove_job, set_progress. cbn [progress]. destruct (decide (job' = job)) as [->|].
    + by rewrite lookup_delete_eq.
    + rewrite lookup_delete_ne by done. exact Hj.
  - injection He as <-. rewrite <-Hj. by apply progress_eq.
Qed.
Lemma tally_run w job es s s' : run w es s = Some s' -> job_progress job s' = tally w job es s (job_progress job s).
Proof.
  revert s. induction es as [|e es IH]; intros s; cbn [run tally]; [by intros [= ->]|].
  intros (t & He & Hr)%bind_Some. rewrite He, (IH t Hr). by rewrite <-(tally_exec w job e s t He).
Qed.

(** C34: In every run the progress of a job counts each item once: as submitted when it is
    numbered, as completed when it is finished, as processed, stale or superseded; the
    difference is the number of its items that a submitter, a lane or a worker still
    holds, and a drain returns exactly when there are none. *)
Theorem drain_exact w es s job : run w es initial = Some s ->
  let '(submitted, completed) := tally w job es initial (0, 0) in
  job_progress job s = (submitted, completed) /\
  submitted = completed + outstanding job (items s) /\
  (is_Some (exec w (EDrain job) s) <-> outstanding job (items s) = 0).
Proof.
  intros Hr. pose proof (reachable_accounted w s (ex_intro _ es Hr) job) as Ha.
  pose proof (tally_run w job es initial s Hr) as Ht. change (job_progress job initial) with (0, 0) in Ht.
  rewrite <-Ht. cbn [exec]. destruct (job_progress job s) as [a b]. cbn in Ha.
  split; [done|]. split; [done|]. destruct (N.leb_spec a b); split; intros H'.
  - lia. - by eexists. - by destruct H'. - lia.
Qed.

(** ** Everything submitted is worked off *)
Definition is_work (e : Event) : bool :=
  match e with ENumber _ | ESend _ | ETake _ | EWork _ => true | _ => false end.
Definition stage_left (x : Stage * IntakeItem) : nat :=
  match x.1 with Taken => 3 | Newest => 2 | Working => 1 end.
Definition work_left (s : Intake) : nat :=
  6 * length (observed s) + 5 * length (sending s) + 4 * length (queued s) + sum_list_with stage_left (running s).
Definition quiet (s : Intake) : Prop := observed s = [] /\ items s = [].

Lemma replace_length {A} n (x : A) l : l !! n = Some x ->
  length l = S (length (replace_at n None l)).
Proof. intros Hn. exact (Permutation_length (replace_perm _ _ _ Hn)). Qed.
Lemma stage_left_replace n x o l : l !! n = Some x ->
  (sum_list_with stage_left (replace_at n o l) + stage_left x
   = sum_list_with stage_left l + from_option stage_left 0 o)%nat.
Proof.
  intros Hn. rewrite <-(take_drop_middle l n x Hn) at 2. unfold replace_at.
  rewrite !sum_list_with_app. cbn. destruct o; cbn; lia.
Qed.
Lemma queued_lane p q s l : lanes s p ≡ₚ l ++ q ->
  length (queued s) = (length l + length (queued (set_lane p q s)))%nat.
Proof. intros Hp. by rewrite (Permutation_length (set_lane_queued p q s l Hp)), length_app. Qed.

Lemma finish_queues o i s : observed (finish o i s) = observed s /\ sending (finish o i s) = sending s /\
  queued (finish o i s) = queued s /\ running (finish o i s) = running s.
Proof. by split_and!; unfold queued; finish_cases. Qed.

Lemma number_queues k path identity s : observed (number_item k path identity s) = observed s /\
  (exists i, sending (number_item k path identity s) = sending s ++ [i]) /\
  queued (number_item k path identity s) = queued s /\ running (number_item k path identity s) = running s.
Proof.
  unfold number_item, next_generation, note_item_submitted, queued.
  destruct k; cbn; try destruct (job_progress _ _); cbn; eauto.
Qed.

Lemma intake_work_decreases n s s' : work n s = Some s' -> (work_left s' < work_left s)%nat.
Proof.
  unfold work. intros ([stage i] & Hn & H)%bind_Some.
  assert (forall o, work_left (finish o i (set_running (replace_at n None (running s)) s)) < work_left s)%nat
    as Hleave.
  { intros o. destruct (finish_queues o i (set_running (replace_at n None (running s)) s)) as (H1 & H2 & H3 & H4).
    unfold work_left. rewrite H1, H2, H3, H4. pose proof (stage_left_replace _ _ None _ Hn) as Hs.
    change (queued (set_running (replace_at n None (running s)) s)) with (queued s).
    cbn [set_running observed sending running] in *. cbn in Hs. destruct stage; cbn in Hs; lia. }
  assert (forall st, (stage_left (st, i) < stage_left (stage, i))%nat ->
    work_left (set_running (replace_at n (Some (st, i)) (running s)) s) < work_left s)%nat as Hgo.
  { intros st Hst. pose proof (stage_left_replace _ _ (Some (st, i)) _ Hn) as Hs. unfold work_left.
    change (queued (set_running (replace_at n (Some (st, i)) (running s)) s)) with (queued s).
    cbn [set_running observed sending running from_option] in *. lia. }
  destruct stage; repeat case_match; injection H as <-; try apply Hleave; apply Hgo; cbn; lia.
Qed.

Lemma work_event_decreases w e s s' : is_work e = true -> exec w e s = Some s' ->
  (work_left s' < work_left s)%nat.
Proof.
  intros Hw. destruct e as [|n|n|lane|n| |]; try done; cbn [exec].
  - intros ([[k path] identity] & Hn & [= <-])%bind_Some. pose proof (replace_length _ _ _ Hn) as Hl.
    set (t := set_observed _ s).
    destruct (number_queues k path identity t) as (H1 & [x H2] & H3 & H4).
    unfold work_left. rewrite H1, H2, H3, H4, length_app. change (queued t) with (queued s).
    subst t. cbn [set_observed observed sending running length]. lia.
  - intros (i & Hn & H)%bind_Some. unfold send in H. destruct (_ <? _)%nat; [|done]. injection H as <-.
    pose proof (replace_length _ _ _ Hn) as Hl. unfold work_left.
    set (t := set_sending _ s).
    assert (queued (set_lane (i_priority i) (lanes s (i_priority i) ++ [i]) t) ≡ₚ i :: queued s) as Hq.
    { unfold queued, all_lanes. cbn [mbind list_bind set_lane lanes].
      destruct (i_priority i); repeat (case_decide; try done); cbn; solve_Permutation. }
    change (lanes t (i_priority i)) with (lanes s (i_priority i)).
    rewrite Hq. subst t. cbn [set_lane set_sending observed sending running length]. lia.
  - destruct (lanes s lane) as [|i q] eqn:Hl; [done|]. destruct (_ <? _)%nat; [|done]. intros [= <-].
    pose proof (queued_lane lane q s [i] ltac:(by rewrite Hl)) as Hq. unfold work_left.
    change (queued (set_running _ _)) with (queued (set_lane lane q s)). rewrite Hq.
    cbn [set_running set_lane observed sending running]. rewrite sum_list_with_app.
    cbn [sum_list_with stage_left fst length]. lia.
  - apply intake_work_decreases.
Qed.

Lemma intake_work_bound w es s s' : Forall (fun e => is_work e = true) es -> run w es s = Some s' ->
  (length es <= work_left s)%nat.
Proof.
  intros Hes. revert s. induction Hes as [|e es He _ IH]; intros s; cbn [run length]; [lia|].
  intros (t & Ht & Hr)%bind_Some. pose proof (work_event_decreases _ _ _ _ He Ht). specialize (IH t Hr). lia.
Qed.

Lemma intake_work_enabled w s : (0 < w)%nat -> ~ quiet s -> exists e s', is_work e = true /\ exec w e s = Some s'.
Proof.
  intros Hw Hq. destruct (running s) as [|[stage i] r] eqn:Hr.
  2:{ exists (EWork 0). cbn [exec]. unfold work. rewrite Hr. cbn.
      destruct stage; repeat case_match; eexists; split; done. }
  destruct (queued s) as [|i q] eqn:Hqueue.
  - destruct (sending s) as [|i l] eqn:Hs.
    + destruct (observed s) as [|[[k path] identity] o] eqn:Ho.
      * exfalso. apply Hq. split; [done|]. unfold items. by rewrite Hs, Hqueue, Hr.
      * exists (ENumber 0). eexists. split; [done|]. cbn [exec]. rewrite Ho. done.
    + exists (ESend 0). cbn [exec]. rewrite Hs. cbn [lookup list_lookup mbind option_bind]. unfold send.
      assert (lanes s (i_priority i) = []) as Hl.
      { unfold queued, all_lanes in Hqueue. cbn in Hqueue. repeat (apply app_eq_nil in Hqueue as [? Hqueue]).
        by destruct (i_priority i). }
      cbn [set_sending lanes]. rewrite Hl. by eexists.
  - assert (exists lane i' q', lanes s lane = i' :: q') as (lane & i' & q' & Hl).
    { unfold queued, all_lanes in Hqueue. cbn in Hqueue.
      destruct (lanes s Interactive) as [|? ?] eqn:H1; [|by exists Interactive, i0, l].
      destruct (lanes s Watcher) as [|? ?] eqn:H2; [|by exists Watcher, i0, l].
      destruct (lanes s Scan) as [|? ?] eqn:H3; [|by exists Scan, i0, l].
      destruct (lanes s Expire) as [|? ?] eqn:H4; [|by exists Expire, i0, l].
      destruct (lanes s Verify) as [|? ?] eqn:H5; [done|by exists Verify, i0, l]. }
    exists (ETake lane). cbn [exec]. rewrite Hl, Hr. destruct w as [|w]; [lia|]. by eexists.
Qed.

Lemma quiet_dec s : Decision (quiet s).
Proof.
  unfold quiet. destruct (observed s) as [|? ?]; [|right; by intros [? _]].
  destruct (items s) as [|? ?]; [by left|right; by intros [_ ?]].
Qed.
Lemma work_off w s : (0 < w)%nat -> exists es s', Forall (fun e => is_work e = true) es /\
  run w es s = Some s' /\ quiet s'.
Proof.
  intros Hw. remember (work_left s) as n eqn:Hn. revert s Hn.
  induction n as [n IH] using lt_wf_ind. intros s Hn. destruct (quiet_dec s) as [Hq|Hq].
  - by exists [], s.
  - destruct (intake_work_enabled w s Hw Hq) as (e & t & He & Ht).
    pose proof (work_event_decreases _ _ _ _ He Ht) as Hd.
    destruct (IH (work_left t) ltac:(lia) t eq_refl) as (es & s' & Hes & Hr & Hq').
    exists (e :: es), s'. split; [by constructor|]. split; [|done]. cbn. by rewrite Ht.
Qed.

(** C33: From any reachable state, with no further submits, the workers come to the end
    of everything in a bounded number of steps, whatever they do; then every drain
    can return and the generation map is empty. *)
Theorem intake_drains w s : (0 < w)%nat -> reachable w s ->
  (forall es s', Forall (fun e => is_work e = true) es -> run w es s = Some s' ->
     (length es <= work_left s)%nat) /\
  (exists es s', Forall (fun e => is_work e = true) es /\ run w es s = Some s' /\ quiet s') /\
  (forall es s', run w es s = Some s' -> quiet s' ->
     generations s' = ∅ /\ forall job, is_Some (exec w (EDrain job) s')).
Proof.
  intros Hw (es0 & Hr0). split; [intros es s1; by apply intake_work_bound|]. split; [by apply work_off|].
  intros es s' Hr [Ho Hi]. assert (reachable w s') as Hr'.
  { exists (es0 ++ es). by rewrite intake_run_app, Hr0. }
  split.
  - apply map_empty. intros path. destruct (generations s' !! path) as [g|] eqn:Hg; [|done].
    apply (reachable_owned w s' Hr') in Hg as (i & Hin & _). rewrite Hi in Hin. by apply elem_of_nil in Hin.
  - intros job. pose proof (reachable_accounted w s' Hr' job) as Ha. rewrite Hi in Ha. change (outstanding job []) with 0 in Ha. cbn [exec].
    destruct (job_progress job s') as [a b]. cbn in Ha. rewrite (proj2 (N.leb_le a b)) by (cbn in Ha; lia).
    by eexists.
Qed.

(** *** A path submitted once *)
Lemma exec_observed w e s s' k path identity : exec w e s = Some s' ->
  (k, path, identity) ∈ observed s' -> coalesced k = true ->
  (k, path, identity) ∈ observed s \/ e = EObserve k path.
Proof.
  assert (forall o i t, observed (finish o i t) = observed t) as Hfin.
  { intros o i t. by destruct (finish_queues o i t). }
  destruct e as [k' path'|n|n|lane|n|job|path' i']; cbn [exec].
  - intros [= <-]. unfold begin_submit.
    destruct k'; cbn; intros [?|[= -> -> _]%list_elem_of_singleton]%elem_of_app Hc; auto; discriminate.
  - intros ([[k' path'] identity'] & Hn & [= <-])%bind_Some. set (t := set_observed _ s).
    destruct (number_queues k' path' identity' t) as [-> _]. cbn. intros Hin _. left.
    rewrite (replace_perm _ _ _ Hn). by right.
  - intros (i & _ & H)%bind_Some. unfold send in H. destruct (_ <? _)%nat; [|done]. injection H as <-. auto.
  - destruct (lanes s lane); [done|]. destruct (_ <? _)%nat; [|done]. intros [= <-]. auto.
  - unfold work. intros ([stage i] & _ & H)%bind_Some.
    destruct stage; repeat case_match; injection H as <-; rewrite ?Hfin; auto.
  - destruct (job_progress job s). destruct (_ <=? _); [|done]. intros [= <-]. auto.
  - intros [= <-]. auto.
Qed.

(** [i] is the only item under way for its path, and nobody is about to submit
    another. *)
Record alone (i : IntakeItem) (s : Intake) : Prop := {
  alone_kind : coalesced (i_kind i) = true;
  alone_items : exists rest, items s ≡ₚ i :: rest /\
    forall x, x ∈ rest -> coalesced (i_kind x) = true -> i_path x <> i_path i;
  alone_newest : generations s !! i_path i = Some (i_generation i);
  alone_observed : forall k identity, coalesced k = true -> ~ (k, i_path i, identity) ∈ observed s
}.
Definition served (i : IntakeItem) (s : Intake) : Prop :=
  (Processed, i) ∈ history s \/ (Stale, i) ∈ history s.

Lemma exec_history w e s s' x : exec w e s = Some s' -> x ∈ history s -> x ∈ history s'.
Proof.
  intros He%exec_moves. destruct He as [_ _ _ ->|i _ _ _ _ _ ->|o i _ _ _ -> _ _|job _ _ _ -> _]; [done..| |done].
  intros Hx. apply elem_of_app. by left.
Qed.

Lemma release_other i s path : coalesced (i_kind i) = true -> path <> i_path i ->
  generations (release i s) !! path = generations s !! path.
Proof.
  intros Hc Hne. unfold release, release_generation. rewrite Hc. case_bool_decide; [|done].
  cbn. by rewrite lookup_delete_ne.
Qed.
Lemma uncoalesced_release i s : coalesced (i_kind i) = false -> release i s = s.
Proof. unfold release. by intros ->. Qed.

Lemma exec_alone w e i s s' : alone i s -> exec w e s = Some s' ->
  (forall k, coalesced k = true -> e <> EObserve k (i_path i)) -> alone i s' \/ served i s'.
Proof.
  intros [Hk (rest & Hrest & Hother) Hgen Hobs] He Hquiet.
  assert (forall k identity, coalesced k = true -> ~ (k, i_path i, identity) ∈ observed s') as Hobs'.
  { intros k identity Hc Hin. apply (exec_observed w e s) in Hin as [Hin|Hin]; [by eapply Hobs|..|done|done].
    by eapply Hquiet. }
  apply exec_moves in He as [Hi Hg _ _|x Hi [identity Hx] Hg _ _ _|o x Hi Hg _ Hh Hsup _|job Hi Hg _ _ _].
  - left. split; [done| |by rewrite Hg|done]. exists rest. by rewrite Hi.
  - left. split; [done| | |done].
    + exists (x :: rest). split; [rewrite Hi, Hrest; solve_Permutation|].
      intros y [->|Hy]%elem_of_cons Hc; [|by apply Hother]. intros Heq.
      rewrite Heq in Hx. by eapply Hobs.
    + rewrite Hg. destruct (coalesced (i_kind x)) eqn:Hc; [|done]. rewrite lookup_insert_ne; [done|].
      intros Heq. rewrite Heq in Hx. by eapply Hobs.
  - destruct (decide (x = i)) as [->|Hne].
    + right. destruct o; [left|by destruct (Hsup eq_refl)|right];
        rewrite Hh; apply elem_of_app; right; by left.
    + left. assert (x ∈ rest) as Hx.
      { assert (x ∈ items s) as Hx by (rewrite Hi; by left). rewrite Hrest in Hx.
        by apply elem_of_cons in Hx as [->|]. }
      apply list_elem_of_split in Hx as (l1 & l2 & ->).
      split; [done| | |done].
      * exists (l1 ++ l2). split.
        -- apply (Permutation_cons_inv (a:=x)). rewrite <-Hi, Hrest. solve_Permutation.
        -- intros y Hy. apply Hother. set_solver.
      * rewrite Hg. destruct o; [|done|]; destruct (coalesced (i_kind x)) eqn:Hc;
          rewrite ?(uncoalesced_release _ _ Hc), ?release_other by (done || (intros Heq; eapply Hother; [|exact Hc|done]; set_solver)); done.
  - left. split; [done| |by rewrite Hg|done]. exists rest. by rewrite Hi.
Qed.

(** As long as its path is not submitted again, the only item of a path is not
    dropped: by the time the intake is quiet it was processed, or found changed on
    disk since the submit. *)
Theorem sole_submission_served w i s es s' : alone i s -> run w es s = Some s' ->
  (forall k, coalesced k = true -> ~ EObserve k (i_path i) ∈ es) -> quiet s' -> served i s'.
Proof.
  intros Ha. cut (alone i s \/ served i s); [clear Ha|by left]. intros Ha Hr Hes [Ho Hi]. revert s Ha Hr.
  induction es as [|e es IH]; intros s Ha; cbn [run].
  - intros [= <-]. destruct Ha as [Ha|]; [|done]. destruct (alone_items _ _ Ha) as (rest & Hp & _).
    rewrite Hi in Hp. by apply Permutation_nil_cons in Hp.
  - intros (t & He & Hr)%bind_Some. apply (IH ltac:(set_solver) t); [|done].
    destruct Ha as [Ha|[Hh|Hh]]; [|right; left; by eapply exec_history|right; right; by eapply exec_history].
    apply (exec_alone w e i s t Ha He). intros k Hc ->. apply (Hes k Hc). by left.
Qed.

(** No lane ever holds more than its capacity. *)
Theorem lanes_bounded w s lane : reachable w s -> (length (lanes s lane) <= INTAKE_CAPACITY)%nat.
Proof.
  intros (es & Hr). revert lane. cut (forall t, (forall lane, length (lanes t lane) <= INTAKE_CAPACITY)%nat ->
    forall s, run w es t = Some s -> forall lane, (length (lanes s lane) <= INTAKE_CAPACITY)%nat).
  { intros H. apply (H initial); [|done]. intros lane. cbn. lia. }
  clear Hr s. induction es as [|e es IH]; intros t Ht s; cbn [run]; [by intros [= <-]|].
  intros (t' & He & Hr)%bind_Some. apply (IH t'); [|done]. clear Hr. intros lane.
  assert (forall o i u, lanes (finish o i u) = lanes u) as Hfin by (intros; by finish_cases).
  destruct e as [k path|n|n|lane'|n|job|path identity]; cbn [exec] in He.
  - injection He as <-. unfold begin_submit. destruct k; apply Ht.
  - apply bind_Some in He as ([[k path] identity] & _ & [= <-]).
    unfold number_item, next_generation, note_item_submitted.
    destruct k; cbn; try destruct (job_progress _ _); apply Ht.
  - apply bind_Some in He as (i & _ & He). unfold send in He. destruct (Nat.ltb_spec (length (lanes (set_sending (replace_at n None (sending t)) t) (i_priority i))) INTAKE_CAPACITY) as [Hl|]; [|done].
    injection He as <-. cbn. case_decide; [|apply Ht]. rewrite length_app. cbn in *. lia.
  - destruct (lanes t lane') as [|i q] eqn:Hl; [done|]. destruct (_ <? _)%nat; [|done]. injection He as <-.
    cbn. case_decide; [|apply Ht]. specialize (Ht lane'). rewrite Hl in Ht. cbn in Ht. lia.
  - unfold work in He. apply bind_Some in He as ([stage i] & _ & He).
    destruct stage; repeat case_match; injection He as <-; rewrite ?Hfin; apply Ht.
  - destruct (job_progress job t). destruct (_ <=? _); [|done]. injection He as <-. apply Ht.
  - injection He as <-. apply Ht.
Qed.

(** ** A change that is lost *)
(** The files' states of the example: three versions of one path. *)
Definition photo : str := lit "/img/a.jpg".
Definition version (n : N) : Identity := (Some n, Some n).
Definition submit_watcher_index : list Event := [EObserve WatcherIndex photo; ENumber 0; ESend 0].
(** A scan queues the first version and waits in its lane; the watcher indexes the
    second; the watcher queues the third, which gets the scan's number again. *)
Definition race : list Event :=
  [ETouch photo (Some (version 1)); EObserve (Scan_ 1) photo; ENumber 0; ESend 0;
   ETouch photo (Some (version 2))] ++ submit_watcher_index ++
  [ETake Watcher; EWork 0; EWork 0; EWork 0; ETouch photo (Some (version 3))] ++ submit_watcher_index ++
  [ETake Scan; EWork 0; EWork 0; ETake Watcher; EWork 0].

(** A path's numbers start again once its newest item is done, while an older one
    may still be queued.  The older item then has the number of a newer submit:
    found stale, it takes that submit's entry away, and the newer item, the only one
    that saw the file as it is now, is dropped as superseded. *)
Theorem reused_number_loses_change w : (0 < w)%nat -> exists s,
  run w race initial = Some s /\ quiet s /\
  disk s !! photo = Some (version 3) /\
  (exists i, (Superseded, i) ∈ history s /\ i_path i = photo /\ i_identity i = version 3) /\
  forall i, (Processed, i) ∈ history s -> i_identity i = version 2.
Proof.
  intros Hw. destruct w as [|w]; [lia|]. eexists. split; [vm_compute; reflexivity|].
  split; [by split|]. split; [by vm_compute|]. cbn. split.
  - eexists. split; [do 2 right; left; reflexivity|by split].
  - intros i Hi. repeat (apply elem_of_cons in Hi as [Heq|Hi]; [by simplify_eq|]). by apply elem_of_nil in Hi.
Qed.

(** ** Witnesses *)
Definition one_scan : list Event := [ETouch photo (Some (version 1)); EObserve (Scan_ 1) photo; ENumber 0; ESend 0].
Definition after (es : list Event) : Intake := default initial (run 1 es initial).

Lemma after_reachable es : is_Some (run 1 es initial) -> reachable 1 (after es).
Proof. intros [s Hs]. exists es. unfold after. by rewrite Hs. Qed.

Lemma drain_exact_witness :
  job_progress 1 (after one_scan) = (1, 0) /\ exec 1 (EDrain 1) (after one_scan) = None /\
  outstanding 1 (items (after one_scan)) = 1.
Proof.
  assert (run 1 one_scan initial = Some (after one_scan)) as Hr.
  { unfold after. by destruct (run 1 one_scan initial) eqn:E; [|vm_compute in E]. }
  pose proof (drain_exact 1 one_scan (after one_scan) 1 Hr) as H.
  assert (tally 1 1 one_scan initial (0, 0) = (1, 0)) as Ht by (by vm_compute).
  rewrite Ht in H. destruct H as (Hp & Ho & Hd). split; [exact Hp|].
  assert (outstanding 1 (items (after one_scan)) = 1) as H1 by (vm_compute; reflexivity). split; [|exact H1].
  destruct (exec 1 (EDrain 1) (after one_scan)) as [s|]; [|reflexivity].
  pose proof (proj1 Hd ltac:(by exists s)) as H'. rewrite H1 in H'. discriminate.
Defined.

Lemma intake_drains_witness : exists es s', run 1 es (after one_scan) = Some s' /\ quiet s' /\
  generations s' = ∅ /\ (length es <= 4)%nat.
Proof.
  destruct (intake_drains 1 (after one_scan) ltac:(lia) (after_reachable one_scan ltac:(vm_compute; by eexists)))
    as (Hb & (es & s' & Hw & Hr & Hq) & Hend).
  exists es, s'. split; [exact Hr|]. split; [exact Hq|]. split; [exact (proj1 (Hend es s' Hr Hq))|].
  exact (Hb es s' Hw Hr).
Defined.

Lemma sole_submission_served_witness : exists s',
  run 1 [ETake Scan; EWork 0; EWork 0; EWork 0] (after one_scan) = Some s' /\
  served (mkItem photo Scan (Scan_ 1) 1 (version 1)) s'.
Proof.
  destruct (run 1 [ETake Scan; EWork 0; EWork 0; EWork 0] (after one_scan)) as [s'|] eqn:Hr;
    [|vm_compute in Hr; discriminate].
  exists s'. split; [reflexivity|].
  refine (sole_submission_served 1 (mkItem photo Scan (Scan_ 1) 1 (version 1)) (after one_scan) _ s' _ Hr _ _).
  - split; [done|exists []; split; [by vm_compute|by intros x ?%elem_of_nil]|by vm_compute|].
    intros k identity _ H. vm_compute in H. by apply elem_of_nil in H.
  - intros k _ H. repeat (apply elem_of_cons in H as [H|H]; [discriminate H|]). by apply elem_of_nil in H.
  - vm_compute in Hr. injection Hr as <-. by split.
Defined.

Lemma lanes_bounded_witness : (length (lanes (after one_scan) Scan) <= INTAKE_CAPACITY)%nat.
Proof.
  exact (lanes_bounded 1 (after one_scan) Scan (after_reachable one_scan ltac:(vm_compute; by eexists))).
Defined.

Lemma reused_number_loses_change_witness : exists s, run 1 race initial = Some s /\ quiet s.
Proof.
  destruct (reused_number_loses_change 1 ltac:(lia)) as (s & H1 & H2 & _). exists s. split; [exact H1|exact H2].
Defined.
