(* ===== verification/LoginThrottle.v ===== *)
(** * LoginThrottle: the per-IP / per-user tracker ([backend/src/auth/login_throttle.rs])

    Three bucket schedules behind one API with explicit timestamps.  The two
    [HashMap]s are finite maps; [enforce_caps] picks the least recently seen
    evictable entry in the enumeration order of the map, one of the orders
    [HashMap::iter] may have, and no theorem depends on that order. *)

From S2P Require Import Prelude RateLimit.
Import Bucket.

Definition MAX_IP_ENTRIES : N := 10000.
Definition MAX_USER_ENTRIES : N := 10000.

Record BucketCfg := mkCfg {
  cfg_window_secs : N; cfg_max_failures : N; cfg_base_ban_secs : N; cfg_max_ban_secs : N
}.

#[export] Instance BucketCfg_eq_dec : EqDecision BucketCfg.
Proof. solve_decision. Defined.

Definition from_tuple (t : N * N * N * N) : BucketCfg :=
  let '(w, m, b, c) := t in mkCfg w m b c.

(** [build] unwraps [Bucket::new]; the parameters of a stored [BucketCfg] are
    validated, so the panic arm (modelled by an empty bucket) is never taken. *)
Definition build (c : BucketCfg) : Bucket :=
  match new (cfg_window_secs c) (cfg_max_failures c) (cfg_base_ban_secs c)
          (cfg_max_ban_secs c) with
  | Ok b => b
  | Err _ => mkBucket 0 0 0 0 [] 0
  end.

Record IpEntry := mkIp {
  ip_short : Bucket; ip_long : Bucket; ip_in_flight : N; ip_last_seen : N; ip_banned_until : N
}.
Record ThrottleEntry := mkUser {
  user_long : Bucket; user_in_flight : N; user_last_seen : N; user_banned_until : N
}.

Record LoginThrottle := mkThrottle {
  ip : gmap str IpEntry;
  user : gmap str ThrottleEntry;
  ip_short_cfg : BucketCfg;
  ip_long_cfg : BucketCfg;
  user_long_cfg : BucketCfg;
  longest_window : N
}.

Definition with_maps (t : LoginThrottle) (i : gmap str IpEntry)
  (u : gmap str ThrottleEntry) : LoginThrottle :=
  mkThrottle i u (ip_short_cfg t) (ip_long_cfg t) (user_long_cfg t) (longest_window t).

Definition new_throttle (s l u : N * N * N * N) : result str LoginThrottle :=
  let '(sw, sm, sb, sc) := s in
  let '(lw, lm, lb, lc) := l in
  let '(uw, um, ub, uc) := u in
  _ ← new sw sm sb sc;
  _ ← new lw lm lb lc;
  _ ← new uw um ub uc;
  Ok (mkThrottle ∅ ∅ (from_tuple s) (from_tuple l) (from_tuple u)
        (N.max (N.max sw lw) uw)).

Definition check (t : LoginThrottle) (i u : str) (now : N) : N :=
  let max_ban := 0 in
  let max_ban :=
    match ip t !! i with
    | Some e => N.max (N.max max_ban (ban_remaining (ip_short e) now))
                      (ban_remaining (ip_long e) now)
    | None => max_ban
    end in
  match user t !! u with
  | Some e => N.max max_ban (ban_remaining (user_long e) now)
  | None => max_ban
  end.

Definition fresh_ip (t : LoginThrottle) : IpEntry :=
  mkIp (build (ip_short_cfg t)) (build (ip_long_cfg t)) 0 0 0.
Definition fresh_user (t : LoginThrottle) : ThrottleEntry :=
  mkUser (build (user_long_cfg t)) 0 0 0.

Definition ip_seen (e : IpEntry) (now : N) : IpEntry :=
  mkIp (ip_short e) (ip_long e) (ip_in_flight e) now (ip_banned_until e).
Definition user_seen (e : ThrottleEntry) (now : N) : ThrottleEntry :=
  mkUser (user_long e) (user_in_flight e) now (user_banned_until e).
Definition ip_set_flight (e : IpEntry) (n : N) : IpEntry :=
  mkIp (ip_short e) (ip_long e) n (ip_last_seen e) (ip_banned_until e).
Definition user_set_flight (e : ThrottleEntry) (n : N) : ThrottleEntry :=
  mkUser (user_long e) n (user_last_seen e) (user_banned_until e).

(** [entry(k).or_insert_with(..)] *)
Definition ip_entry (t : LoginThrottle) (i : str) : IpEntry := default (fresh_ip t) (ip t !! i).
Definition user_entry (t : LoginThrottle) (u : str) : ThrottleEntry :=
  default (fresh_user t) (user t !! u).

(** One bucket's contribution to [crowded_ban]; [others] are in flight. *)
Definition crowded (b : Bucket) (others now : N) : N :=
  if 0 <? others then
    let effective := sat_add (failure_count b now) others in
    if max_failures b <? effective then peek_ban b now (others + 1) else 0
  else 0.

Definition reserve (t : LoginThrottle) (i u : str) (now : N) : LoginThrottle * N :=
  let ie := ip_seen (ip_entry t i) now in
  let ue := user_seen (user_entry t u) now in
  let t1 := with_maps t (<[i := ie]> (ip t)) (<[u := ue]> (user t)) in
  let live := N.max (N.max (ban_remaining (ip_short ie) now) (ban_remaining (ip_long ie) now))
                    (ban_remaining (user_long ue) now) in
  if 0 <? live then (t1, live)
  else
    let crowded_ban :=
      N.max (N.max (crowded (ip_short ie) (ip_in_flight ie) now)
                   (crowded (ip_long ie) (ip_in_flight ie) now))
            (crowded (user_long ue) (user_in_flight ue) now) in
    if 0 <? crowded_ban then (t1, crowded_ban)
    else
      (with_maps t
         (<[i := ip_set_flight ie (sat_add_u32 (ip_in_flight ie) 1)]> (ip t))
         (<[u := user_set_flight ue (sat_add_u32 (user_in_flight ue) 1)]> (user t)), 0).

Definition release (t : LoginThrottle) (i u : str) : LoginThrottle :=
  with_maps t
    (alter (fun e => ip_set_flight e (ip_in_flight e - 1)) i (ip t))
    (alter (fun e => user_set_flight e (user_in_flight e - 1)) u (user t)).

(** [enforce_caps], one map at a time. *)
Section Evict.
Context {E : Type} (evictable : E -> bool) (last_seen : E -> N).

(** [filter(..).min_by_key(..)]: the first minimum of the enumeration. *)
Definition oldest (m : gmap str E) : option str :=
  fst <$>
  foldl (fun best kv =>
           if evictable kv.2 then
             match best with
             | Some b => if last_seen kv.2 <? last_seen b.2 then Some kv else best
             | None => Some kv
             end
           else best)
        None (map_to_list m).

Fixpoint evict_loop (cap : N) (fuel : nat) (m : gmap str E) : gmap str E :=
  if cap <? N.of_nat (size m) then
    match oldest m, fuel with
    | Some k, S fuel' => evict_loop cap fuel' (delete k m)
    | _, _ => m
    end
  else m.

Definition evict (cap : N) (m : gmap str E) : gmap str E := evict_loop cap (size m) m.
End Evict.

Definition ip_evictable (now : N) (e : IpEntry) : bool :=
  (ip_banned_until e <=? now) && (ip_in_flight e =? 0).
Definition user_evictable (now : N) (e : ThrottleEntry) : bool :=
  (user_banned_until e <=? now) && (user_in_flight e =? 0).

Definition enforce_caps (t : LoginThrottle) (now : N) : LoginThrottle :=
  with_maps t
    (evict (ip_evictable now) ip_last_seen MAX_IP_ENTRIES (ip t))
    (evict (user_evictable now) user_last_seen MAX_USER_ENTRIES (user t)).

Definition ip_fail (e : IpEntry) (now : N) : IpEntry * N :=
  let '(short, short_ban) := Bucket.record_failure (ip_short e) now in
  let '(long, long_ban) := Bucket.record_failure (ip_long e) now in
  (mkIp short long (ip_in_flight e) now
     (N.max (N.max (ip_banned_until e) (sat_add now short_ban)) (sat_add now long_ban)),
   N.max short_ban long_ban).
Definition user_fail (e : ThrottleEntry) (now : N) : ThrottleEntry * N :=
  let '(long, ban) := Bucket.record_failure (user_long e) now in
  (mkUser long (user_in_flight e) now (N.max (user_banned_until e) (sat_add now ban)), ban).

Definition record_failure (t : LoginThrottle) (i u : str) (now : N) : LoginThrottle * N :=
  let '(ie, ip_ban) := ip_fail (ip_entry t i) now in
  let '(ue, user_ban) := user_fail (user_entry t u) now in
  (enforce_caps (with_maps t (<[i := ie]> (ip t)) (<[u := ue]> (user t))) now,
   N.max ip_ban user_ban).

Definition remaining (t : LoginThrottle) (i u : str) (now : N) : N :=
  let count {A} (o : option A) (f : A -> Bucket) :=
    match o with Some e => failure_count (f e) now | None => 0 end in
  let short := cfg_max_failures (ip_short_cfg t) - count (ip t !! i) ip_short in
  let long := cfg_max_failures (ip_long_cfg t) - count (ip t !! i) ip_long in
  let usr := cfg_max_failures (user_long_cfg t) - count (user t !! u) user_long in
  N.min (N.min short long) usr.

Definition ip_succeed (now : N) (e : IpEntry) : IpEntry :=
  mkIp (Bucket.record_success (ip_short e)) (ip_long e) (ip_in_flight e - 1) now
       (sat_add now (ban_remaining (ip_long e) now)).
Definition record_success (t : LoginThrottle) (i u : str) (now : N) : LoginThrottle :=
  with_maps t (alter (ip_succeed now) i (ip t)) (delete u (user t)).

Definition ip_retained (longest now : N) (e : IpEntry) : bool :=
  (now <? ip_banned_until e) || (now - ip_last_seen e <? longest).
Definition user_retained (longest now : N) (e : ThrottleEntry) : bool :=
  (now <? user_banned_until e) || (now - user_last_seen e <? longest).
Definition sweep (t : LoginThrottle) (now : N) : LoginThrottle :=
  enforce_caps
    (with_maps t
       (filter (fun kv => ip_retained (longest_window t) now kv.2 = true) (ip t))
       (filter (fun kv => user_retained (longest_window t) now kv.2 = true) (user t))) now.

(** ** Histories *)
Inductive op :=
| Reserve (i u : str) | Release (i u : str) | Failure (i u : str)
| Success (i u : str) | Sweep.

Definition exec (o : op) (now : N) (t : LoginThrottle) : LoginThrottle :=
  match o with
  | Reserve i u => (reserve t i u now).1
  | Release i u => release t i u
  | Failure i u => (record_failure t i u now).1
  | Success i u => record_success t i u now
  | Sweep => sweep t now
  end.

(** States reachable from a fresh tracker with a clock that never goes back. *)
Inductive reachable (s l u : N * N * N * N) : N -> LoginThrottle -> Prop :=
| reach_new t : new_throttle s l u = Ok t -> reachable s l u 0 t
| reach_step now now' t o :
    reachable s l u now t -> now <= now' -> now' <= u64_max ->
    reachable s l u now' (exec o now' t).

(** ** Eviction *)
Section EvictFacts.
Context {E : Type} (evictable : E -> bool) (last_seen : E -> N).
Implicit Types (m : gmap str E) (l : list (str * E)).

Let pick_oldest (best : option (str * E)) (kv : str * E) : option (str * E) :=
  if evictable kv.2 then
    match best with
    | Some b => if last_seen kv.2 <? last_seen b.2 then Some kv else best
    | None => Some kv
    end
  else best.

Lemma oldest_fold l : forall best,
  match foldl pick_oldest best l with
  | Some kv => best = Some kv \/ (kv ∈ l /\ evictable kv.2 = true)
  | None => best = None /\ forall kv, kv ∈ l -> evictable kv.2 = false
  end.
Proof.
  induction l as [|x l IH]; intros best; simpl.
  { destruct best; [by left|]. split; [done|]. intros kv Hkv. by apply not_elem_of_nil in Hkv. }
  specialize (IH (pick_oldest best x)).
  destruct (foldl pick_oldest (pick_oldest best x) l) as [kv|].
  - destruct IH as [IH|[Hin Hev]]; [|right; split; [by constructor|done]].
    unfold pick_oldest in IH. repeat case_match; simplify_eq; auto;
      right; (split; [constructor|done]).
  - destruct IH as [Hb IH]. unfold pick_oldest in Hb. repeat case_match; try done.
    split; [done|]. intros kv [->|Hkv]%elem_of_cons; [done|by apply IH].
Qed.

Lemma oldest_Some m k :
  oldest evictable last_seen m = Some k -> exists e, m !! k = Some e /\ evictable e = true.
Proof.
  unfold oldest. pose proof (oldest_fold (map_to_list m) None) as H. unfold pick_oldest in H.
  destruct (foldl _ _ _) as [[k' e]|]; intros [= <-]. destruct H as [H|[Hin Hev]]; [done|].
  exists e. split; [by apply elem_of_map_to_list|done].
Qed.

Lemma oldest_None m :
  oldest evictable last_seen m = None -> forall k e, m !! k = Some e -> evictable e = false.
Proof.
  unfold oldest. pose proof (oldest_fold (map_to_list m) None) as H. unfold pick_oldest in H.
  destruct (foldl _ _ _) as [[k' e]|]; intros Heq; [done|]. destruct H as [_ H].
  intros k e Hk. apply (H (k, e)). by apply elem_of_map_to_list.
Qed.

Lemma evict_loop_sub cap fuel : forall m k e,
  evict_loop evictable last_seen cap fuel m !! k = Some e -> m !! k = Some e.
Proof.
  induction fuel as [|fuel IH]; intros m k e; simpl; repeat case_match; try done.
  intros H'. apply IH in H'. by apply lookup_delete_Some in H' as [_ H'].
Qed.

Lemma evict_loop_keeps cap fuel : forall m k e,
  m !! k = Some e -> evictable e = false ->
  evict_loop evictable last_seen cap fuel m !! k = Some e.
Proof.
  induction fuel as [|fuel IH]; intros m k e Hk He; simpl; repeat case_match; try done.
  apply IH; [|done]. apply lookup_delete_Some. split; [|done]. intros ->.
  match goal with H : oldest _ _ _ = Some _ |- _ => apply oldest_Some in H as (e' & ? & ?) end.
  congruence.
Qed.

Lemma evict_loop_done cap fuel : forall m, (size m <= fuel)%nat ->
  let m' := evict_loop evictable last_seen cap fuel m in
  N.of_nat (size m') <= cap \/ (forall k e, m' !! k = Some e -> evictable e = false).
Proof.
  induction fuel as [|fuel IH]; intros m Hsz; simpl;
    (destruct (cap <? N.of_nat (size m)) eqn:Hc; [|left; by apply N.ltb_ge in Hc]).
  - right. intros k e Hk. assert (size m = 0%nat) as H0 by lia.
    apply map_size_empty_iff in H0. subst m. case_match; by rewrite lookup_empty in Hk.
  - destruct (oldest evictable last_seen m) as [k|] eqn:Ho.
    + apply IH. apply oldest_Some in Ho as (e & Hk & _).
      rewrite map_size_delete, Hk. lia.
    + right. by apply oldest_None.
Qed.

Lemma evict_loop_id cap fuel m :
  N.of_nat (size m) <= cap -> evict_loop evictable last_seen cap fuel m = m.
Proof. intros H. destruct fuel; simpl; by rewrite (proj2 (N.ltb_ge _ _) H). Qed.
End EvictFacts.

(** ** The tracker invariant *)
Definition cfg_ok (c : BucketCfg) : Prop :=
  1 <= cfg_window_secs c /\ 1 <= cfg_max_failures c <= u32_max /\
  1 <= cfg_base_ban_secs c <= cfg_max_ban_secs c /\ cfg_max_ban_secs c <= u64_max.

Definition has_cfg (c : BucketCfg) (b : Bucket) : Prop :=
  mkCfg (window_secs b) (max_failures b) (base_ban_secs b) (max_ban_secs b) = c.

(** A stored bucket: well-formed, of its schedule, its ban end covered by the
    entry's snapshot and its failures no later than the entry's [last_seen]. *)
Record bucket_ok (c : BucketCfg) (now seen until : N) (b : Bucket) : Prop := {
  bo_wf : wf now b;
  bo_cfg : has_cfg c b;
  bo_until : ban_until b <= until;
  bo_seen : Forall (fun t => t <= seen) (failures b)
}.

Record ip_ok (cs cl : BucketCfg) (now : N) (e : IpEntry) : Prop := {
  io_short : bucket_ok cs now (ip_last_seen e) (ip_banned_until e) (ip_short e);
  io_long : bucket_ok cl now (ip_last_seen e) (ip_banned_until e) (ip_long e);
  io_seen : ip_last_seen e <= now
}.
Record user_ok (cu : BucketCfg) (now : N) (e : ThrottleEntry) : Prop := {
  uo_long : bucket_ok cu now (user_last_seen e) (user_banned_until e) (user_long e);
  uo_seen : user_last_seen e <= now
}.

Record tracker_ok (now : N) (t : LoginThrottle) : Prop := {
  to_short : cfg_ok (ip_short_cfg t);
  to_long : cfg_ok (ip_long_cfg t);
  to_user : cfg_ok (user_long_cfg t);
  to_window : longest_window t = N.max (N.max (cfg_window_secs (ip_short_cfg t))
                (cfg_window_secs (ip_long_cfg t))) (cfg_window_secs (user_long_cfg t));
  to_ips : map_Forall (fun _ e => ip_ok (ip_short_cfg t) (ip_long_cfg t) now e) (ip t);
  to_users : map_Forall (fun _ e => user_ok (user_long_cfg t) now e) (user t)
}.

Lemma build_ok (c : BucketCfg) (now seen until : N) :
  cfg_ok c -> bucket_ok c now seen until (build c).
Proof.
  destruct c as [w m b x]. intros (?&?&?&?). unfold build, new; cbn in *.
  rewrite (proj2 (N.eqb_neq w 0)), (proj2 (N.eqb_neq m 0)), (proj2 (N.eqb_neq b 0)),
    (proj2 (N.ltb_ge x b)) by lia.
  constructor; cbn; [|done|lia|constructor]. constructor; cbn; repeat constructor; lia.
Qed.

Lemma bucket_ok_mono c now now' seen seen' until until' b :
  bucket_ok c now seen until b -> now <= now' -> seen <= seen' -> until <= until' ->
  bucket_ok c now' seen' until' b.
Proof.
  intros [] ? ? ?. constructor; [by eapply wf_mono|done|lia|].
  eapply List.Forall_impl; [|done]. simpl; intros; lia.
Qed.

Lemma record_failure_cfg (b : Bucket) (now : N) (c : BucketCfg) :
  has_cfg c b -> has_cfg c (Bucket.record_failure b now).1.
Proof. unfold Bucket.record_failure. repeat case_match; done. Qed.

Lemma record_failure_past (b : Bucket) (now : N) :
  wf now b -> Forall (fun t => t <= now) (failures (Bucket.record_failure b now).1).
Proof.
  intros W. unfold Bucket.record_failure.
  assert (Forall (fun t => t <= now) (prune (window_secs b) now (failures b) ++ [now])).
  { rewrite prune_filter by apply W. apply Forall_app; split; [|by repeat constructor].
    apply forall_filter, W. }
  repeat case_match; simpl; done || apply W.
Qed.

Lemma bucket_ok_fail c t seen until now b until' :
  bucket_ok c t seen until b -> t <= now -> now <= u64_max -> until <= until' ->
  sat_add now (Bucket.record_failure b now).2 <= until' ->
  bucket_ok c now now until' (Bucket.record_failure b now).1.
Proof.
  intros [Hwf Hcfg Hu Hs] Ht Hnow Hle Hle'. pose proof (wf_mono _ _ _ Ht Hwf) as W.
  pose proof (record_failure_until now b W Hnow) as (_ & H2 & _).
  constructor; [by eapply record_failure_wf|by apply record_failure_cfg|lia|].
  by apply record_failure_past.
Qed.

Lemma bucket_ok_clear c now seen until b :
  bucket_ok c now seen until b -> bucket_ok c now seen until (Bucket.record_success b).
Proof.
  intros [[] ? ? ?]. unfold Bucket.record_success, set_failures, has_cfg in *.
  constructor; cbn in *; [|done|lia|constructor].
  constructor; cbn; try done; try lia; constructor.
Qed.

Lemma tracker_ok_maps (now : N) (t : LoginThrottle) i u :
  tracker_ok now t ->
  map_Forall (fun _ e => ip_ok (ip_short_cfg t) (ip_long_cfg t) now e) i ->
  map_Forall (fun _ e => user_ok (user_long_cfg t) now e) u ->
  tracker_ok now (with_maps t i u).
Proof. intros [] Hi Hu. by constructor. Qed.

Lemma ip_ok_mono cs cl now now' e : ip_ok cs cl now e -> now <= now' -> ip_ok cs cl now' e.
Proof.
  intros [] Hle. constructor; [by eapply bucket_ok_mono; eauto; lia..|lia].
Qed.
Lemma user_ok_mono cu now now' e : user_ok cu now e -> now <= now' -> user_ok cu now' e.
Proof. intros [] Hle. constructor; [by eapply bucket_ok_mono; eauto; lia|lia]. Qed.

Lemma tracker_ok_mono (now now' : N) (t : LoginThrottle) :
  tracker_ok now t -> now <= now' -> tracker_ok now' t.
Proof.
  intros [] Hle. constructor; try done.
  - intros k e Hk. eapply ip_ok_mono; [by eapply to_ips0|done].
  - intros k e Hk. eapply user_ok_mono; [by eapply to_users0|done].
Qed.

Lemma ip_entry_ok (now : N) (t : LoginThrottle) (i : str) :
  tracker_ok now t -> ip_ok (ip_short_cfg t) (ip_long_cfg t) now (ip_entry t i).
Proof.
  intros W. unfold ip_entry. destruct (ip t !! i) as [e|] eqn:E; simpl.
  - by eapply (to_ips _ _ W).
  - constructor; simpl; [apply build_ok, W..|lia].
Qed.
Lemma user_entry_ok (now : N) (t : LoginThrottle) (u : str) :
  tracker_ok now t -> user_ok (user_long_cfg t) now (user_entry t u).
Proof.
  intros W. unfold user_entry. destruct (user t !! u) as [e|] eqn:E; simpl.
  - by eapply (to_users _ _ W).
  - constructor; simpl; [apply build_ok, W|lia].
Qed.

Lemma ip_seen_ok cs cl now e : ip_ok cs cl now e -> ip_ok cs cl now (ip_seen e now).
Proof. intros []. constructor; simpl; [by eapply bucket_ok_mono; eauto; lia..|lia]. Qed.
Lemma user_seen_ok cu now e : user_ok cu now e -> user_ok cu now (user_seen e now).
Proof. intros []. constructor; simpl; [by eapply bucket_ok_mono; eauto; lia|lia]. Qed.
Lemma ip_flight_ok cs cl now e n : ip_ok cs cl now e -> ip_ok cs cl now (ip_set_flight e n).
Proof. by intros []. Qed.
Lemma user_flight_ok cu now e n : user_ok cu now e -> user_ok cu now (user_set_flight e n).
Proof. by intros []. Qed.

#[export] Hint Resolve ip_entry_ok user_entry_ok ip_seen_ok user_seen_ok
  ip_flight_ok user_flight_ok : picasu.

Lemma ip_fail_ok cs cl now e :
  ip_ok cs cl now e -> now <= u64_max -> ip_ok cs cl now (ip_fail e now).1.
Proof.
  intros [Hs Hl Hseen] Hnow. unfold ip_fail.
  pose proof (bucket_ok_fail _ _ _ _ now _
    (N.max (N.max (ip_banned_until e) (sat_add now (Bucket.record_failure (ip_short e) now).2))
       (sat_add now (Bucket.record_failure (ip_long e) now).2)) Hs) as Hs'.
  pose proof (bucket_ok_fail _ _ _ _ now _
    (N.max (N.max (ip_banned_until e) (sat_add now (Bucket.record_failure (ip_short e) now).2))
       (sat_add now (Bucket.record_failure (ip_long e) now).2)) Hl) as Hl'.
  destruct (Bucket.record_failure (ip_short e) now) as [s ds].
  destruct (Bucket.record_failure (ip_long e) now) as [l dl]. cbn [fst snd] in *.
  constructor; simpl; [apply Hs'; lia|apply Hl'; lia|lia].
Qed.

Lemma user_fail_ok cu now e :
  user_ok cu now e -> now <= u64_max -> user_ok cu now (user_fail e now).1.
Proof.
  intros [Hs Hseen] Hnow. unfold user_fail.
  pose proof (bucket_ok_fail _ _ _ _ now _
    (N.max (user_banned_until e) (sat_add now (Bucket.record_failure (user_long e) now).2)) Hs)
    as Hs'.
  destruct (Bucket.record_failure (user_long e) now) as [s ds]. cbn [fst snd] in *.
  constructor; simpl; [apply Hs'; lia|lia].
Qed.

Lemma ip_succeed_ok cs cl now e :
  ip_ok cs cl now e -> now <= u64_max -> ip_ok cs cl now (ip_succeed now e).
Proof.
  intros [[] [] Hseen] Hnow. unfold ip_succeed, ban_remaining, Bucket.record_success.
  constructor; simpl; [..|lia].
  - constructor; simpl; try done; [|lia].
    destruct bo_wf0. constructor; simpl; try done; try lia; constructor.
  - constructor; simpl; try done.
    + destruct bo_wf1. unfold sat_add; lia.
    + eapply List.Forall_impl; [|exact bo_seen1]. simpl; lia.
Qed.

Lemma map_Forall_sub {E} (P : str -> E -> Prop) (m m' : gmap str E) :
  map_Forall P m -> (forall k e, m' !! k = Some e -> m !! k = Some e) -> map_Forall P m'.
Proof. intros H Hs k e Hk. by apply H, Hs. Qed.

Lemma enforce_caps_ok (now now' : N) (t : LoginThrottle) :
  tracker_ok now t -> tracker_ok now (enforce_caps t now').
Proof.
  intros W. apply tracker_ok_maps; [done|..].
  - eapply map_Forall_sub; [apply W|]. intros k e. apply evict_loop_sub.
  - eapply map_Forall_sub; [apply W|]. intros k e. apply evict_loop_sub.
Qed.

Lemma map_Forall_alter_id {E} (P : E -> Prop) (f : E -> E) (k : str) (m : gmap str E) :
  map_Forall (fun _ => P) m -> (forall e, P e -> P (f e)) ->
  map_Forall (fun _ => P) (alter f k m).
Proof.
  intros H Hf k' e Hk. apply lookup_alter_Some in Hk as [(-> & e0 & He0 & ->)|[_ He]].
  - by eapply Hf, H.
  - by eapply H.
Qed.

Lemma reserve_ok (now : N) (t : LoginThrottle) (i u : str) :
  tracker_ok now t -> tracker_ok now (reserve t i u now).1.
Proof.
  intros W. unfold reserve. cbv zeta. repeat case_match; simpl; apply tracker_ok_maps;
    try done; apply map_Forall_insert_2; (apply W || auto with picasu).
Qed.

Lemma record_failure_ok (now : N) (t : LoginThrottle) (i u : str) :
  tracker_ok now t -> now <= u64_max -> tracker_ok now (record_failure t i u now).1.
Proof.
  intros W Hnow. unfold record_failure.
  pose proof (ip_fail_ok _ _ _ _ (ip_entry_ok _ _ i W) Hnow) as Hi.
  pose proof (user_fail_ok _ _ _ (user_entry_ok _ _ u W) Hnow) as Hu.
  destruct (ip_fail _ _) as [ie ib], (user_fail _ _) as [ue ub]. cbn [fst snd] in *.
  apply enforce_caps_ok, tracker_ok_maps; [done|..]; apply map_Forall_insert_2; done || apply W.
Qed.

Lemma exec_ok (o : op) (now now' : N) (t : LoginThrottle) :
  tracker_ok now t -> now <= now' -> now' <= u64_max -> tracker_ok now' (exec o now' t).
Proof.
  intros W Hle Hmax. pose proof (tracker_ok_mono _ _ _ W Hle) as W'.
  destruct o as [i u|i u|i u|i u|]; simpl.
  - by apply reserve_ok.
  - apply tracker_ok_maps; [done|..]; (apply map_Forall_alter_id; [apply W'|]);
      intros e He; [by apply ip_flight_ok|by apply user_flight_ok].
  - by apply record_failure_ok.
  - apply tracker_ok_maps; [done|..].
    + apply map_Forall_alter_id; [apply W'|]. intros e He. by apply ip_succeed_ok.
    + apply map_Forall_delete, W'.
  - apply enforce_caps_ok, tracker_ok_maps; [done|..].
    + eapply map_Forall_sub; [apply W'|]. intros k e Hk.
      by apply map_lookup_filter_Some in Hk as [Hk _].
    + eapply map_Forall_sub; [apply W'|]. intros k e Hk.
      by apply map_lookup_filter_Some in Hk as [Hk _].
Qed.

Definition tuple_widths (t : N * N * N * N) : Prop :=
  let '(w, m, b, c) := t in m <= u32_max /\ c <= u64_max.

Lemma new_Ok (w m b c : N) (bk : Bucket) :
  new w m b c = Ok bk -> 1 <= w /\ 1 <= m /\ 1 <= b <= c.
Proof. unfold new. intros Hn. split_matches; to_prop; lia. Qed.

Lemma new_throttle_ok (s l u : N * N * N * N) (t : LoginThrottle) (now : N) :
  tuple_widths s -> tuple_widths l -> tuple_widths u ->
  new_throttle s l u = Ok t -> tracker_ok now t.
Proof.
  destruct s as [[[? ?] ?] ?], l as [[[? ?] ?] ?], u as [[[? ?] ?] ?].
  unfold tuple_widths, new_throttle. intros [] [] [] Hnew.
  apply bind_Ok in Hnew as (b1 & Hb1%new_Ok & Hnew).
  apply bind_Ok in Hnew as (b2 & Hb2%new_Ok & Hnew).
  apply bind_Ok in Hnew as (b3 & Hb3%new_Ok & [= <-]).
  constructor; try done; unfold cfg_ok; simpl; lia.
Qed.

Lemma reachable_ok (s l u : N * N * N * N) (now : N) (t : LoginThrottle) :
  tuple_widths s -> tuple_widths l -> tuple_widths u ->
  reachable s l u now t -> now <= u64_max /\ tracker_ok now t.
Proof.
  intros Hs Hl Hu. induction 1 as [t Ht|now now' t o Hr [IHn IH] Hle Hmax].
  - split; [vm_compute; discriminate|]. by apply (new_throttle_ok s l u).
  - split; [done|]. by eapply exec_ok.
Qed.

(** ** Bans survive reaping *)
Lemma bucket_ok_idle c now seen until b :
  bucket_ok c now seen until b -> until <= now -> ban_remaining b now = 0.
Proof. intros [] Hle. unfold ban_remaining. lia. Qed.

Lemma check_le_sub (t t' : LoginThrottle) (i u : str) (now : N) :
  tracker_ok now t ->
  (forall e, ip t !! i = Some e ->
     ip t' !! i = Some e \/ (ip t' !! i = None /\ ip_banned_until e <= now)) ->
  (forall e, user t !! u = Some e ->
     user t' !! u = Some e \/ (user t' !! u = None /\ user_banned_until e <= now)) ->
  (ip t !! i = None -> ip t' !! i = None) ->
  (user t !! u = None -> user t' !! u = None) ->
  check t' i u now = check t i u now.
Proof.
  intros W Hi Hu Hi0 Hu0. unfold check.
  destruct (ip t !! i) as [e|] eqn:Ei; [destruct (Hi e eq_refl) as [-> | [-> Hb]]|rewrite Hi0 by done];
  (destruct (user t !! u) as [e'|] eqn:Eu; [destruct (Hu e' eq_refl) as [-> | [-> Hb']]|rewrite Hu0 by done]);
  try done;
  repeat match goal with
  | E : ip t !! i = Some ?e |- _ =>
      pose proof (to_ips _ _ W i e E) as [Hs Hl _]; clear E
  | E : user t !! u = Some ?e |- _ =>
      pose proof (to_users _ _ W u e E) as [Hul _]; clear E
  end;
  repeat match goal with
  | H : bucket_ok _ _ _ ?x ?b, Hx : ?x <= now |- _ => rewrite (bucket_ok_idle _ _ _ _ _ H Hx); clear H
  end; lia.
Qed.

Lemma evict_cases {E} (ev : E -> bool) (ls : E -> N) (cap : N) (m : gmap str E) (k : str) (e : E) :
  m !! k = Some e ->
  evict ev ls cap m !! k = Some e \/ (evict ev ls cap m !! k = None /\ ev e = true).
Proof.
  intros Hk. unfold evict.
  destruct (evict_loop ev ls cap (size m) m !! k) as [e'|] eqn:E'.
  - apply evict_loop_sub in E' as Hk'. left. congruence.
  - right. split; [done|]. destruct (ev e) eqn:Hev; [done|].
    by rewrite (evict_loop_keeps _ _ _ _ _ _ _ Hk Hev) in E'.
Qed.

Lemma evict_absent {E} (ev : E -> bool) (ls : E -> N) (cap : N) (m : gmap str E) (k : str) :
  m !! k = None -> evict ev ls cap m !! k = None.
Proof.
  intros Hk. unfold evict. destruct (evict_loop _ _ _ _ m !! k) eqn:E'; [|done].
  apply evict_loop_sub in E'. congruence.
Qed.

Lemma filter_cases {E} (p : E -> bool) (m : gmap str E) (k : str) (e : E) :
  m !! k = Some e ->
  filter (fun kv => p kv.2 = true) m !! k = if p e then Some e else None.
Proof.
  intros Hk. destruct (p e) eqn:Hp.
  - by apply map_lookup_filter_Some.
  - apply map_lookup_filter_None. right. intros x Hx. simplify_eq. simpl. congruence.
Qed.

Lemma filter_absent {E} (p : E -> bool) (m : gmap str E) (k : str) :
  m !! k = None -> filter (fun kv => p kv.2 = true) m !! k = None.
Proof. intros Hk. apply map_lookup_filter_None. by left. Qed.

Lemma enforce_caps_check (now : N) (t : LoginThrottle) (i u : str) :
  tracker_ok now t -> check (enforce_caps t now) i u now = check t i u now.
Proof.
  intros W. apply check_le_sub; [done|..]; simpl.
  - intros e He. destruct (evict_cases (ip_evictable now) ip_last_seen MAX_IP_ENTRIES _ _ _ He)
      as [?|[? Hev]]; [by left|right; split; [done|]].
    unfold ip_evictable in Hev. by to_prop.
  - intros e He. destruct (evict_cases (user_evictable now) user_last_seen MAX_USER_ENTRIES _ _ _ He)
      as [?|[? Hev]]; [by left|right; split; [done|]].
    unfold user_evictable in Hev. by to_prop.
  - by apply evict_absent.
  - by apply evict_absent.
Qed.

Lemma retain_ok (now : N) (t : LoginThrottle) :
  tracker_ok now t ->
  tracker_ok now (with_maps t
       (filter (fun kv => ip_retained (longest_window t) now kv.2 = true) (ip t))
       (filter (fun kv => user_retained (longest_window t) now kv.2 = true) (user t))).
Proof.
  intros W. apply tracker_ok_maps; [done|..]; (eapply map_Forall_sub; [apply W|]);
    intros k e Hk; by apply map_lookup_filter_Some in Hk as [Hk _].
Qed.

Lemma idle_count c now seen until b (longest : N) :
  bucket_ok c now seen until b -> cfg_window_secs c <= longest -> longest <= now - seen ->
  failure_count b now = 0.
Proof.
  intros [_ Hcfg _ Hseen] Hw Hl. unfold failure_count. unfold has_cfg in Hcfg.
  replace (List.filter (in_window b now) (failures b)) with (@nil N); [done|].
  symmetry. induction Hseen as [|x l Hx _ IH]; simpl; [done|].
  unfold in_window at 1. rewrite (proj2 (N.ltb_ge _ _)); [done|].
  subst c. simpl in Hw. lia.
Qed.

(** The in-window count an optional entry contributes to [remaining]. *)
Definition count_of {A} (o : option A) (f : A -> Bucket) (now : N) : N :=
  match o with Some e => failure_count (f e) now | None => 0 end.

Lemma remaining_counts (t : LoginThrottle) (i u : str) (now : N) :
  remaining t i u now =
    N.min (N.min (cfg_max_failures (ip_short_cfg t) - count_of (ip t !! i) ip_short now)
                 (cfg_max_failures (ip_long_cfg t) - count_of (ip t !! i) ip_long now))
          (cfg_max_failures (user_long_cfg t) - count_of (user t !! u) user_long now).
Proof. done. Qed.

Lemma retain_counts (now : N) (t : LoginThrottle) (i u : str) :
  tracker_ok now t ->
  let ips := filter (fun kv => ip_retained (longest_window t) now kv.2 = true) (ip t) in
  let users := filter (fun kv => user_retained (longest_window t) now kv.2 = true) (user t) in
  count_of (ips !! i) ip_short now = count_of (ip t !! i) ip_short now /\
  count_of (ips !! i) ip_long now = count_of (ip t !! i) ip_long now /\
  count_of (users !! u) user_long now = count_of (user t !! u) user_long now.
Proof.
  intros W ips users. pose proof (to_window _ _ W) as Hlong. split_and!.
  1,2: destruct (ip t !! i) as [e|] eqn:E; subst ips; [|by rewrite filter_absent];
    rewrite (filter_cases (ip_retained (longest_window t) now) _ _ e E);
    destruct (ip_retained _ now e) eqn:Hr; [done|];
    destruct (to_ips _ _ W _ _ E); unfold ip_retained in Hr; to_prop; symmetry; simpl;
    eapply idle_count; eauto; lia.
  destruct (user t !! u) as [e|] eqn:E; subst users; [|by rewrite filter_absent].
  rewrite (filter_cases (user_retained (longest_window t) now) _ _ e E).
  destruct (user_retained _ now e) eqn:Hr; [done|].
  destruct (to_users _ _ W _ _ E); unfold user_retained in Hr; to_prop; symmetry; simpl.
  eapply idle_count; eauto; lia.
Qed.

Lemma retain_check (now : N) (t : LoginThrottle) (i u : str) :
  tracker_ok now t ->
  check (with_maps t
       (filter (fun kv => ip_retained (longest_window t) now kv.2 = true) (ip t))
       (filter (fun kv => user_retained (longest_window t) now kv.2 = true) (user t))) i u now
  = check t i u now.
Proof.
  intros W. apply check_le_sub; [done|..]; simpl.
  - intros e He. rewrite (filter_cases (ip_retained _ now) _ _ e He).
    destruct (ip_retained _ now e) eqn:Hr; [by left|right; split; [done|]].
    unfold ip_retained in Hr. by to_prop.
  - intros e He. rewrite (filter_cases (user_retained _ now) _ _ e He).
    destruct (user_retained _ now e) eqn:Hr; [by left|right; split; [done|]].
    unfold user_retained in Hr. by to_prop.
  - apply filter_absent.
  - apply filter_absent.
Qed.

(** Reaping is invisible to the ban check.  In every reachable state,
    [sweep] (idle eviction and the entry caps together) answers [check] exactly
    as before for every client and user name, so an active ban is never swept;
    and within the caps it also leaves [remaining] unchanged, so an evicted
    entry could not influence any bucket any more. *)
Theorem sweep_preserves_bans (s l u : N * N * N * N) (now : N) (t : LoginThrottle)
    (i n : str) :
  tuple_widths s -> tuple_widths l -> tuple_widths u -> reachable s l u now t ->
  check (sweep t now) i n now = check t i n now /\
  (N.of_nat (size (ip t)) <= MAX_IP_ENTRIES -> N.of_nat (size (user t)) <= MAX_USER_ENTRIES ->
   remaining (sweep t now) i n now = remaining t i n now).
Proof.
  intros Hs Hl Hu Hr. apply reachable_ok in Hr as [Hnow W]; [|done..].
  unfold sweep. split.
  - rewrite enforce_caps_check by (by apply retain_ok). by apply retain_check.
  - intros Hi Hn. unfold enforce_caps, evict; simpl. rewrite !evict_loop_id.
    + rewrite !remaining_counts; simpl.
      pose proof (retain_counts now t i n W) as (-> & -> & ->). done.
    + etransitivity; [|exact Hn].
      pose proof (map_size_filter (fun kv => user_retained (longest_window t) now kv.2 = true)
        (user t)). lia.
    + etransitivity; [|exact Hi].
      pose proof (map_size_filter (fun kv => ip_retained (longest_window t) now kv.2 = true)
        (ip t)). lia.
Qed.

(** The shipped login schedules, used by the witnesses. *)
Definition shipped_ip_short := (LOGIN_IP_WINDOW_SECS, LOGIN_IP_MAX_FAILURES,
  LOGIN_IP_BASE_BAN_SECS, LOGIN_IP_MAX_BAN_SECS).
Definition shipped_ip_long := (LOGIN_IP_LONG_WINDOW_SECS, LOGIN_IP_LONG_MAX_FAILURES,
  LOGIN_IP_LONG_BASE_BAN_SECS, LOGIN_IP_LONG_MAX_BAN_SECS).
Definition shipped_user_long := (LOGIN_USER_LONG_WINDOW_SECS, LOGIN_USER_LONG_MAX_FAILURES,
  LOGIN_USER_LONG_BASE_BAN_SECS, LOGIN_USER_LONG_MAX_BAN_SECS).
Definition shipped_tracker : LoginThrottle :=
  mkThrottle ∅ ∅ (from_tuple shipped_ip_short) (from_tuple shipped_ip_long)
    (from_tuple shipped_user_long) 86400.

Lemma shipped_widths :
  tuple_widths shipped_ip_short /\ tuple_widths shipped_ip_long /\ tuple_widths shipped_user_long.
Proof. repeat split; vm_compute; discriminate. Qed.

Lemma shipped_reachable (now : N) (ops : list op) : now <= u64_max ->
  reachable shipped_ip_short shipped_ip_long shipped_user_long now
    (foldl (fun t o => exec o now t) (exec Sweep now shipped_tracker) ops).
Proof.
  intros Hn. assert (reachable shipped_ip_short shipped_ip_long shipped_user_long now
    (exec Sweep now shipped_tracker)) as H.
  { apply (reach_step _ _ _ 0); [by apply reach_new|lia|done]. }
  revert H. generalize (exec Sweep now shipped_tracker).
  induction ops as [|o ops IH]; intros t H; simpl; [done|].
  apply IH. by apply (reach_step _ _ _ now).
Qed.

Definition ex_ops : list op :=
  replicate 4 (Failure (lit "10.0.0.1") (lit "alice")).

Definition ex_tracker : LoginThrottle :=
  foldl (fun t o => exec o 5 t) (exec Sweep 5 shipped_tracker) ex_ops.

Lemma ex_tracker_reachable :
  reachable shipped_ip_short shipped_ip_long shipped_user_long 5 ex_tracker.
Proof. apply shipped_reachable. vm_compute; discriminate. Qed.

Lemma sweep_preserves_bans_witness :
  check ex_tracker (lit "10.0.0.1") (lit "bob") 5 = 10 /\
  check (sweep ex_tracker 5) (lit "10.0.0.1") (lit "bob") 5
    = check ex_tracker (lit "10.0.0.1") (lit "bob") 5.
Proof.
  split; [vm_compute; reflexivity|].
  destruct shipped_widths as (? & ? & ?).
  refine (proj1 (sweep_preserves_bans shipped_ip_short shipped_ip_long shipped_user_long 5
    ex_tracker (lit "10.0.0.1") (lit "bob") _ _ _ ex_tracker_reachable)); assumption.
Defined.

(** ** Recorded failures *)
Lemma ip_fail_remaining cs cl now e :
  ip_ok cs cl now e -> now <= u64_max ->
  now + cfg_max_ban_secs cs <= u64_max -> now + cfg_max_ban_secs cl <= u64_max ->
  let '(e', d) := ip_fail e now in
  N.max (ban_remaining (ip_short e') now) (ban_remaining (ip_long e') now) = d.
Proof.
  intros [[Ws Cs _ _] [Wl Cl _ _] _] Hnow Hs Hl. unfold ip_fail. unfold has_cfg in *.
  pose proof (record_failure_until now _ Ws Hnow) as (_ & _ & Hds).
  pose proof (record_failure_until now _ Wl Hnow) as (_ & _ & Hdl).
  destruct (Bucket.record_failure (ip_short e) now), (Bucket.record_failure (ip_long e) now).
  subst cs cl. simpl in *. rewrite Hds, Hdl by done. done.
Qed.

Lemma user_fail_remaining cu now e :
  user_ok cu now e -> now <= u64_max -> now + cfg_max_ban_secs cu <= u64_max ->
  let '(e', d) := user_fail e now in ban_remaining (user_long e') now = d.
Proof.
  intros [[Wl Cl _ _] _] Hnow Hl. unfold user_fail, has_cfg in *.
  pose proof (record_failure_until now _ Wl Hnow) as (_ & _ & Hdl).
  destruct (Bucket.record_failure (user_long e) now). subst cu. simpl in *. by apply Hdl.
Qed.

(** The ban a recorded failure answers is the ban the next [check] of the
    same client and user sees, for every reachable state: recording is what
    makes the throttle bite, and the entry caps cannot undo it. *)
Theorem recorded_ban_is_checked (s l u : N * N * N * N) (now : N) (t : LoginThrottle)
    (i n : str) :
  tuple_widths s -> tuple_widths l -> tuple_widths u -> reachable s l u now t ->
  now + cfg_max_ban_secs (ip_short_cfg t) <= u64_max ->
  now + cfg_max_ban_secs (ip_long_cfg t) <= u64_max ->
  now + cfg_max_ban_secs (user_long_cfg t) <= u64_max ->
  let '(t', ban) := record_failure t i n now in check t' i n now = ban.
Proof.
  intros Hs Hl Hu Hr Bs Bl Bu. apply reachable_ok in Hr as [Hnow W]; [|done..].
  unfold record_failure.
  pose proof (ip_entry_ok _ _ i W) as Hi. pose proof (user_entry_ok _ _ n W) as Hn.
  pose proof (ip_fail_ok _ _ _ _ Hi Hnow) as Hi'.
  pose proof (user_fail_ok _ _ _ Hn Hnow) as Hn'.
  pose proof (ip_fail_remaining _ _ _ _ Hi Hnow Bs Bl) as Ri.
  pose proof (user_fail_remaining _ _ _ Hn Hnow Bu) as Rn.
  destruct (ip_fail _ _) as [ie ib], (user_fail _ _) as [ue ub]. cbn [fst snd] in *.
  rewrite enforce_caps_check.
  - unfold check; simpl. rewrite !lookup_insert_eq. lia.
  - apply tracker_ok_maps; [done|..]; apply map_Forall_insert_2; done || apply W.
Qed.

Lemma recorded_ban_is_checked_witness :
  (record_failure ex_tracker (lit "10.0.0.1") (lit "alice") 5).2 = 10 /\
  let '(t', ban) := record_failure ex_tracker (lit "10.0.0.1") (lit "alice") 5 in
  check t' (lit "10.0.0.1") (lit "alice") 5 = ban.
Proof.
  split; [vm_compute; reflexivity|]. destruct shipped_widths as (? & ? & ?).
  refine (recorded_ban_is_checked shipped_ip_short shipped_ip_long shipped_user_long 5
    ex_tracker (lit "10.0.0.1") (lit "alice") _ _ _ ex_tracker_reachable _ _ _);
    first [assumption | vm_compute; discriminate].
Defined.

(** ** Reservations and parallel bursts *)
Definition flight (t : LoginThrottle) (i : str) : N := ip_in_flight (ip_entry t i).
Definition ip_history (t : LoginThrottle) (i : str) (now : N) : N :=
  failure_count (ip_short (ip_entry t i)) now.

(** Slots a bucket grants to attempts in flight on top of [c] recorded failures:
    one more than the [max - c] free failures and, because the rung of the
    attempt after that one is free, one further; past the threshold, one or two
    by the parity of the history. *)
Definition slots (max c : N) : N :=
  if c <=? max then max - c + 2 else if (c - max) mod 2 =? 0 then 2 else 1.

Lemma crowded_blocks (b : Bucket) (n now : N) :
  wf now b -> ban_until b <= now -> max_ban_secs b <= u64_max ->
  failure_count b now + n + 1 <= u32_max ->
  n = slots (max_failures b) (failure_count b now) -> 0 < crowded b n now.
Proof.
  intros W Hu Hcap Hw ->. unfold crowded, slots, peek_ban, ban_remaining.
  set (c := failure_count b now) in *. set (m := max_failures b) in *.
  unfold slots in Hw.
  replace (ban_until b - now) with 0 by lia. cbn [N.ltb N.compare].
  assert (Hrung : forall x, x <= u32_max -> m < x -> (x - m) mod 2 <> 0 -> 0 < ban_for_count b x).
  { intros x Hx Hm Hodd. unfold ban_for_count. fold m.
    rewrite (proj2 (N.leb_gt _ _)) by done. cbv zeta.
    rewrite (proj2 (N.eqb_neq _ _)) by done. destruct W.
    eapply N.lt_le_trans; [|apply ban_delay_ge_base]; lia. }
  assert (u32_max < u64_max) by done.
  destruct (c <=? m) eqn:Hc; to_prop.
  - replace (0 <? m - c + 2) with true by (symmetry; apply N.ltb_lt; lia).
    rewrite !sat_add_small by lia.
    replace (m <? c + (m - c + 2)) with true by (symmetry; apply N.ltb_lt; lia).
    apply Hrung; [lia..|]. replace (c + (m - c + 2 + 1) - m) with 3 by lia. done.
  - destruct ((c - m) mod 2 =? 0) eqn:Hp; to_prop; simpl;
      rewrite !sat_add_small by lia;
      (replace (m <? _) with true by (symmetry; apply N.ltb_lt; lia));
      apply Hrung; try lia; clear - Hp Hc; zify; Z.to_euclidean_division_equations; lia.
Qed.

Lemma ip_entry_inserted (t : LoginThrottle) (i : str) (e : IpEntry) m u :
  ip_entry (with_maps t (<[i := e]> m) u) i = e.
Proof. unfold ip_entry. simpl. by rewrite lookup_insert_eq. Qed.

(** A reservation changes neither history nor bans; it adds one slot when it
    answers 0 and none otherwise, and never passes the slots of the short
    bucket. *)
Lemma reserve_flight (now : N) (t : LoginThrottle) (i u : str) :
  tracker_ok now t ->
  ip_history t i now + slots (cfg_max_failures (ip_short_cfg t)) (ip_history t i now) < u32_max ->
  flight t i <= slots (cfg_max_failures (ip_short_cfg t)) (ip_history t i now) ->
  let '(t', r) := reserve t i u now in
  ip_history t' i now = ip_history t i now /\
  ip_short_cfg t' = ip_short_cfg t /\
  flight t' i = flight t i + (if r =? 0 then 1 else 0) /\
  flight t' i <= slots (cfg_max_failures (ip_short_cfg t)) (ip_history t i now).
Proof.
  intros W Hw Hf. unfold reserve. cbv zeta.
  pose proof (ip_entry_ok now t i W) as [[Ws Cs _ _] _ _].
  unfold ip_history, flight in *. set (e := ip_entry t i) in *.
  assert (cfg_max_failures (ip_short_cfg t) = max_failures (ip_short e)) as Hmax
    by (unfold has_cfg in Cs; by rewrite <-Cs).
  match goal with |- context [if 0 <? ?x then (_, ?x) else _] => set (live := x) end.
  destruct (0 <? live) eqn:Hlive.
  { rewrite ip_entry_inserted. to_prop. rewrite (proj2 (N.eqb_neq _ 0)) by lia.
    repeat split; simpl; lia. }
  match goal with |- context [if 0 <? ?x then (_, ?x) else _] => set (cr := x) end.
  destruct (0 <? cr) eqn:Hcr.
  { rewrite ip_entry_inserted. to_prop. rewrite (proj2 (N.eqb_neq _ 0)) by lia.
    repeat split; simpl; lia. }
  to_prop. rewrite ip_entry_inserted. simpl in live, cr.
  rewrite Hmax in *.
  assert (ip_in_flight e <> slots (max_failures (ip_short e)) (failure_count (ip_short e) now)).
  { intros Heq. assert (0 < crowded (ip_short e) (ip_in_flight e) now); [|subst cr; lia].
    rewrite <-Heq in Hw. apply crowded_blocks; [done| |apply Ws|lia|done].
    subst live. unfold ban_remaining in Hlive. lia. }
  simpl. unfold sat_add_u32. rewrite N.min_l by lia. repeat split; lia.
Qed.

Fixpoint reserves (t : LoginThrottle) (i : str) (users : list str) (now : N)
  : LoginThrottle * N :=
  match users with
  | [] => (t, 0)
  | u :: us =>
      let '(t1, r) := reserve t i u now in
      let '(t2, n) := reserves t1 i us now in
      (t2, (if r =? 0 then 1 else 0) + n)
  end.

(** A parallel burst cannot multiply the allowance.  Whatever user names it
    claims, a client with [c] recorded failures in the burst window gets at most
    [slots max c] attempts in flight at once (at most [max + 2] in all), however
    many it sends before any of them is evaluated. *)
Theorem parallel_burst_bound (s l u : N * N * N * N) (now : N) (t : LoginThrottle)
    (i : str) (users : list str) :
  tuple_widths s -> tuple_widths l -> tuple_widths u -> reachable s l u now t ->
  ip_history t i now + slots (cfg_max_failures (ip_short_cfg t)) (ip_history t i now) < u32_max ->
  flight t i = 0 ->
  let '(t', admitted) := reserves t i users now in
  admitted = flight t' i /\
  admitted <= slots (cfg_max_failures (ip_short_cfg t)) (ip_history t i now) /\
  admitted <= cfg_max_failures (ip_short_cfg t) + 2.
Proof.
  intros Hs Hl Hu Hr Hw H0. apply reachable_ok in Hr as [Hnow W]; [|done..].
  set (m := cfg_max_failures (ip_short_cfg t)) in *. set (c := ip_history t i now) in *.
  assert (slots m c <= m + 2) as Hm.
  { unfold slots. repeat case_match; to_prop; lia. }
  enough (forall us t0, tracker_ok now t0 -> ip_short_cfg t0 = ip_short_cfg t ->
    ip_history t0 i now = c -> flight t0 i <= slots m c ->
    let '(t', n) := reserves t0 i us now in
    flight t0 i + n = flight t' i /\ flight t' i <= slots m c) as H.
  { specialize (H users t W eq_refl eq_refl). destruct (reserves t i users now) as [t' n].
    rewrite H0 in H. destruct H; lia. }
  induction us as [|u0 us IH]; intros t0 W0 Hc Hh Hf; simpl; [lia|].
  pose proof (reserve_ok now t0 i u0 W0) as W1.
  pose proof (reserve_flight now t0 i u0 W0) as Hres. rewrite Hc, Hh in Hres.
  fold m in Hres. destruct (reserve t0 i u0 now) as [t1 r]. cbn [fst] in W1.
  destruct Hres as (H1 & H2 & H3 & H4); [done|done|].
  specialize (IH t1 W1). destruct (reserves t1 i us now) as [t2 n].
  destruct IH as [? ?]; [congruence|done|done|]. lia.
Qed.

Lemma idle_tracker_reachable :
  reachable shipped_ip_short shipped_ip_long shipped_user_long 5 (exec Sweep 5 shipped_tracker).
Proof. apply (shipped_reachable 5 []). vm_compute; discriminate. Qed.

(** 50 parallel attempts against the shipped schedule: five are admitted. *)
Lemma parallel_burst_bound_witness :
  let t := exec Sweep 5 shipped_tracker in
  (reserves t (lit "10.0.0.1") (replicate 50 (lit "alice")) 5).2 = 5 /\
  let '(t', admitted) := reserves t (lit "10.0.0.1") (replicate 50 (lit "alice")) 5 in
  admitted = flight t' (lit "10.0.0.1") /\
  admitted <= slots (cfg_max_failures (ip_short_cfg t)) (ip_history t (lit "10.0.0.1") 5) /\
  admitted <= cfg_max_failures (ip_short_cfg t) + 2.
Proof.
  intros t. split; [vm_compute; reflexivity|]. destruct shipped_widths as (? & ? & ?).
  refine (parallel_burst_bound shipped_ip_short shipped_ip_long shipped_user_long 5
    t (lit "10.0.0.1") (replicate 50 (lit "alice")) _ _ _ idle_tracker_reachable _ _);
    first [assumption | vm_compute; reflexivity].
Defined.
