(* ===== verification/Errors.v ===== *)
(** * Errors: the application error and its HTTP answer ([backend/src/error.rs])

    [AppError] is the error type of every handler; [respond_to] turns it into
    the HTTP status, the JSON body and the [Retry-After] header.  [source] keeps
    the rendering of the wrapped [anyhow::Error].  JSON values are those of
    [serde_json::Value]. *)

From S2P Require Import Prelude.

(** ** JSON values *)
Inductive Json :=
| JNull
| JBool (b : bool)
| JNum (n : Z)
| JFloat (repr : str)
| JStr (s : str)
| JArr (l : list Json)
| JObj (fields : list (str * Json)).

(** [Map::get]; keys of a parsed object are distinct. *)
Fixpoint jget (k : str) (fields : list (str * Json)) : option Json :=
  match fields with
  | (k', v) :: fs => if str_eqb k' k then Some v else jget k fs
  | [] => None
  end.
Definition jcontains (k : str) (fields : list (str * Json)) : bool := is_some (jget k fields).
Definition as_object (j : Json) : option (list (str * Json)) :=
  match j with JObj f => Some f | _ => None end.
Definition as_bool (j : Json) : option bool :=
  match j with JBool b => Some b | _ => None end.
Definition as_str (j : Json) : option str :=
  match j with JStr s => Some s | _ => None end.
Definition as_u64 (j : Json) : option N :=
  match j with
  | JNum n => if (0 <=? n)%Z && (n <=? Z.of_N u64_max)%Z then Some (Z.to_N n) else None
  | _ => None
  end.

Lemma as_u64_max j n : as_u64 j = Some n -> n <= u64_max.
Proof.
  destruct j; simpl; try done. destruct (_ && _)%Z eqn:Hn; [|done].
  intros [= <-]. apply andb_true_iff in Hn as [H1%Z.leb_le H2%Z.leb_le]. unfold u64_max; lia.
Qed.

Lemma as_u64_JNum n : n <= u64_max -> as_u64 (JNum (Z.of_N n)) = Some n.
Proof.
  intros Hn. unfold as_u64.
  rewrite (proj2 (Z.leb_le 0 (Z.of_N n))), (proj2 (Z.leb_le (Z.of_N n) _)) by lia.
  simpl. by rewrite N2Z.id.
Qed.

(** ** Errors *)
Inductive ErrorKind :=
| NotFound | PermissionDenied | InvalidInput | Internal | Conflict | Database | IO
| Serialization | Auth | ReadOnlyMode | RateLimited.

#[export] Instance ErrorKind_eq_dec : EqDecision ErrorKind.
Proof. solve_decision. Defined.

Definition kind_as_str (k : ErrorKind) : str :=
  lit match k with
      | NotFound => "Not Found"
      | PermissionDenied => "Permission Denied"
      | InvalidInput => "Invalid Input"
      | Internal => "Internal Error"
      | Conflict => "Conflict"
      | Database => "Database Error"
      | IO => "I/O Error"
      | Serialization => "Serialization Error"
      | Auth => "Authentication Error"
      | ReadOnlyMode => "Read Only Mode"
      | RateLimited => "Rate Limited"
      end.

(** The derived [Serialize] of [ErrorKind]: the variant name, one renamed. *)
Definition kind_json (k : ErrorKind) : Json :=
  JStr (lit match k with
      | NotFound => "NotFound"
      | PermissionDenied => "PermissionDenied"
      | InvalidInput => "InvalidInput"
      | Internal => "Internal"
      | Conflict => "Conflict"
      | Database => "Database"
      | IO => "IO"
      | Serialization => "Serialization"
      | Auth => "Auth"
      | ReadOnlyMode => "ReadOnlyMode"
      | RateLimited => "Rate Limited"
      end).

Record AppError := mkError {
  kind : ErrorKind;
  message : str;
  context : list str;
  source : option str;
  retry_after_secs : option N
}.

#[export] Instance AppError_eq_dec : EqDecision AppError.
Proof. solve_decision. Defined.

Abbreviation app_result := (result AppError).

Definition new_error (k : ErrorKind) (msg : str) : AppError := mkError k msg [] None None.
Definition retry_after (secs : N) (e : AppError) : AppError :=
  mkError (kind e) (message e) (context e) (source e) (Some secs).
Definition add_context (ctx : str) (e : AppError) : AppError :=
  mkError (kind e) (message e) (context e ++ [ctx]) (source e) (retry_after_secs e).
Definition from_err (k : ErrorKind) (err : str) : AppError := mkError k err [] (Some err) None.

(** [ResultExt::or_raise] and [ResultExt::with_context]. *)
Definition or_raise {A} (k : ErrorKind) (msg : str) (r : result str A) : app_result A :=
  map_err (fun e => mkError k msg [] (Some e) None) r.
Definition with_context {A} (ctx : str) (r : result str A) : app_result A :=
  map_err (fun e => mkError Internal (lit "An unexpected error occurred") [ctx] (Some e) None) r.
(** [OptionExt::or_raise]. *)
Definition option_or_raise {A} (k : ErrorKind) (msg : str) (o : option A) : app_result A :=
  ok_or (new_error k msg) o.
(** [impl From<anyhow::Error> for AppError]. *)
Definition from_anyhow (err : str) : AppError := from_err Internal err.

Definition http_status (e : AppError) : N :=
  match kind e with
  | NotFound => 404
  | PermissionDenied => 403
  | Auth => 401
  | InvalidInput => 400
  | Conflict => 409
  | ReadOnlyMode => 405
  | RateLimited => 429
  | _ => 500
  end.

Definition error_json (e : AppError) : Json :=
  JObj ([(lit "kind", kind_json (kind e)); (lit "message", JStr (message e));
         (lit "context", JArr (JStr <$> context e))]
        ++ match retry_after_secs e with
           | Some secs => [(lit "retryAfter", JNum (Z.of_N secs))]
           | None => []
           end).

Record Response := mkResponse { status : N; body : Json; retry_after_header : option str }.

(** [Responder::respond_to]; logging is not modelled. *)
Definition respond_to (e : AppError) : Response :=
  mkResponse (http_status e) (error_json e) (show_N <$> retry_after_secs e).

(** [handle_app_error] logs only what is not an expected client error. *)
Definition handle_app_error_logs (e : AppError) : bool :=
  match kind e with
  | Auth | PermissionDenied | NotFound | InvalidInput | ReadOnlyMode => false
  | _ => true
  end.

(** [Display for AppError]: what [to_string] gives an outer [anyhow] error. *)
Definition display_error (e : AppError) : str :=
  kind_as_str (kind e) ++ lit ": " ++ message e
  ++ mjoin ((fun ctx => [10] ++ lit "  Context: " ++ ctx) <$> context e)
  ++ match source e with Some src => [10] ++ lit "  Caused by: " ++ src | None => [] end.

(** Shorthand for the error arms of handlers. *)
Definition fail {A} (k : ErrorKind) (msg : str) : app_result A := Err (new_error k msg).
Definition fails_with {A} (k : ErrorKind) (r : app_result A) : bool :=
  match r with Err e => bool_decide (kind e = k) | Ok _ => false end.

Lemma fails_with_fail {A} (k : ErrorKind) (msg : str) : fails_with k (@fail A k msg) = true.
Proof. apply bool_decide_eq_true. done. Qed.
#[export] Hint Rewrite @fails_with_fail : picasu.

(** ** JSON text

    [serde_json::from_str::<Value>] and [serde_json::to_string]; the one law used
    is that printed text parses back to the value. *)
Class JsonCodec := { json_parse : str -> option Json; json_print : Json -> str }.
Class JsonLaws `{JsonCodec} := { json_parse_print v : json_parse (json_print v) = Some v }.

(** A concrete codec for witnesses, from the countability of values. *)
Section JsonInd.
Variable P : Json -> Prop.
Hypothesis P_null : P JNull.
Hypothesis P_bool : forall b, P (JBool b).
Hypothesis P_num : forall n, P (JNum n).
Hypothesis P_float : forall s, P (JFloat s).
Hypothesis P_str : forall s, P (JStr s).
Hypothesis P_arr : forall l, Forall P l -> P (JArr l).
Hypothesis P_obj : forall f, Forall (fun kv => P kv.2) f -> P (JObj f).

Fixpoint json_induction (j : Json) : P j :=
  match j with
  | JNull => P_null
  | JBool b => P_bool b
  | JNum n => P_num n
  | JFloat s => P_float s
  | JStr s => P_str s
  | JArr l =>
      P_arr l ((fix go l : Forall P l :=
        match l with
        | [] => List.Forall_nil _
        | x :: xs => List.Forall_cons _ x xs (json_induction x) (go xs)
        end) l)
  | JObj f =>
      P_obj f ((fix go f : Forall (fun kv => P kv.2) f :=
        match f with
        | [] => List.Forall_nil _
        | (k, v) :: xs =>
            List.Forall_cons (fun kv => P kv.2) (k, v) xs (json_induction v) (go xs)
        end) f)
  end.
End JsonInd.

Fixpoint json_tree (j : Json) : gen_tree (bool + (Z + str)) :=
  match j with
  | JNull => GenNode 0 []
  | JBool b => GenNode 1 [GenLeaf (inl b)]
  | JNum n => GenNode 2 [GenLeaf (inr (inl n))]
  | JFloat s => GenNode 3 [GenLeaf (inr (inr s))]
  | JStr s => GenNode 4 [GenLeaf (inr (inr s))]
  | JArr l => GenNode 5 (map json_tree l)
  | JObj f => GenNode 6 (map (fun '(k, v) => GenNode 0 [GenLeaf (inr (inr k)); json_tree v]) f)
  end.
Fixpoint tree_json (t : gen_tree (bool + (Z + str))) : Json :=
  match t with
  | GenNode 1 [GenLeaf (inl b)] => JBool b
  | GenNode 2 [GenLeaf (inr (inl n))] => JNum n
  | GenNode 3 [GenLeaf (inr (inr s))] => JFloat s
  | GenNode 4 [GenLeaf (inr (inr s))] => JStr s
  | GenNode 5 l => JArr (map tree_json l)
  | GenNode 6 l =>
      JObj (map (fun t => match t with
                          | GenNode 0 [GenLeaf (inr (inr k)); v] => (k, tree_json v)
                          | _ => ([], JNull)
                          end) l)
  | _ => JNull
  end.

Lemma tree_json_tree (j : Json) : tree_json (json_tree j) = j.
Proof.
  induction j as [| | | | |l IH|f IH] using json_induction; simpl; try done; f_equal;
    rewrite map_map; rewrite <-(map_id) at 1 || idtac.
  - induction IH; simpl; congruence.
  - induction IH as [|[k v] f Hv _ IH]; simpl in *; congruence.
Qed.

#[export] Instance Json_eq_dec : EqDecision Json.
Proof.
  refine (fun a b => cast_if (decide (json_tree a = json_tree b)));
    [|congruence]. rewrite <-(tree_json_tree a), <-(tree_json_tree b). congruence.
Defined.
#[export] Instance Json_countable : Countable Json := inj_countable' json_tree tree_json tree_json_tree.

#[global] Instance tree_codec : JsonCodec | 100 := {|
  json_parse s := match s with [Npos p] => decode p | _ => None end;
  json_print v := [Npos (encode v)]
|}.
#[global] Instance tree_codec_laws : @JsonLaws tree_codec.
Proof. constructor. intros v. apply decode_encode. Qed.
