(* ===== verification/Password.v ===== *)
(** * Password: policy and hash primitives ([backend/src/auth/password.rs])

    The default password policy ([check_strength] with its blocklist and
    trivial-pattern screen) and the dual-path verification of stored hashes.
    The KDFs, PHC and JSON parsing come from third-party crates and are the
    operations of the class [Crypto]; what the store relies on are the laws of
    [CryptoLaws].  Unicode lowercasing ([str::to_lowercase]) is the operation
    [to_lowercase] of the class [Casing]. *)

From S2P Require Import Prelude Errors.

Definition MIN_PASSWORD_LEN : N := 8.
Definition MAX_PASSWORD_LEN : N := 256.
Definition SALT_LEN : N := 16.
Definition HASH_LEN : N := 32.

Class Casing := { to_lowercase : str -> str }.

(** ** The policy *)
Definition starts_comment (s : str) : bool := starts_with (lit "#") s.

(** The [BLOCKLIST] set built from the text of [blocklist.txt]. *)
Definition blocklist_of `{Casing} (text : str) : gset str :=
  list_to_set
    (omap (fun line =>
       let trimmed := trim line in
       if negb (is_empty trimmed) && negb (starts_comment trimmed)
       then Some (to_lowercase trimmed) else None) (str_lines text)).

(** [windows(2).all(..)]. *)
Fixpoint windows_all (p : N -> N -> bool) (cs : str) : bool :=
  match cs with
  | a :: ((b :: _) as cs') => p a b && windows_all p cs'
  | _ => true
  end.

Definition is_trivial_pattern (lower : str) : bool :=
  if char_count lower <? 2 then false
  else if forallb (fun c => c =? default 0 (head lower)) lower then true
  else
    let ascending := windows_all (fun a b => b =? a + 1) lower in
    let descending := windows_all (fun a b => a =? b + 1) lower in
    ascending || descending.

Definition check_strength `{Casing} (blocklist : gset str) (user_id canonical : str)
  : app_result unit :=
  let len := char_count canonical in
  if len <? MIN_PASSWORD_LEN then
    fail InvalidInput
      (lit "password must be at least " ++ show_N MIN_PASSWORD_LEN ++ lit " characters")
  else if MAX_PASSWORD_LEN <? len then
    fail InvalidInput
      (lit "password must be at most " ++ show_N MAX_PASSWORD_LEN ++ lit " characters")
  else
    let lower := to_lowercase canonical in
    if bool_decide (lower ∈ blocklist) then
      fail InvalidInput (lit "password is too common; choose a less predictable one")
    else if str_eqb lower (to_lowercase (trim user_id)) then
      fail InvalidInput (lit "password must not match the user id")
    else if is_trivial_pattern lower then
      fail InvalidInput (lit "password is too predictable; use unrelated characters")
    else Ok tt.

(** ** Hashing *)
Record PasswordHash := mkHash { salt : list N; hash : list N; iterations : N }.

(** Cost parameters of the argon2id hasher. *)
Inductive Cost := DefaultCost | WeakCost.

Class Crypto := {
  (** [Argon2::hash_password]: cost, salt drawn from the system RNG, password. *)
  argon2_hash : Cost -> N -> str -> str;
  (** [PasswordHash::new] of the PHC string, then [verify_password]; [None] when
      the string does not parse. *)
  argon2_verify : str -> str -> option bool;
  (** [pbkdf2_hmac::<Sha256>]: password, salt, rounds. *)
  pbkdf2 : str -> list N -> N -> list N;
  (** [serde_json::from_str::<PasswordHash>] (base64 salt and hash). *)
  parse_legacy : str -> option PasswordHash
}.

Definition argon2_prefix : str := lit "$argon2id$".

Class CryptoLaws `{Crypto} := {
  argon2_hash_prefix c r p : starts_with argon2_prefix (argon2_hash c r p) = true;
  argon2_verify_hash c r p : argon2_verify p (argon2_hash c r p) = Some true
}.

Definition weak_pwhash_enabled (env : option str) : bool :=
  bool_decide (env = Some (lit "1")).

Definition argon2_hasher (env : option str) : Cost :=
  if weak_pwhash_enabled env then WeakCost else DefaultCost.

Section Hashing.
Context `{Crypto}.

Definition hash_password (env : option str) (rng : N) (password : str) : str :=
  argon2_hash (argon2_hasher env) rng password.

Definition derive (password : str) (salt : list N) (iterations : N) : list N :=
  pbkdf2 password salt iterations.

Definition verify_password (password stored : str) : bool :=
  if starts_with argon2_prefix stored then
    match argon2_verify password stored with Some ok => ok | None => false end
  else
    match parse_legacy stored with
    | Some legacy =>
        bool_decide (derive password (salt legacy) (iterations legacy) = hash legacy)
    | None => false
    end.

Definition hash_share_password (env : option str) (rng : N) (password : str) : str :=
  argon2_hash (argon2_hasher env) rng password.

Definition verify_share_password (candidate stored : str) : bool :=
  if starts_with argon2_prefix stored then
    match argon2_verify candidate stored with Some ok => ok | None => false end
  else str_eqb candidate stored.

Context `{!CryptoLaws}.

Lemma verify_hashed env rng p : verify_password p (hash_password env rng p) = true.
Proof.
  unfold verify_password, hash_password.
  by rewrite argon2_hash_prefix, argon2_verify_hash.
Qed.

Lemma verify_share_hashed env rng p :
  verify_share_password p (hash_share_password env rng p) = true.
Proof.
  unfold verify_share_password, hash_share_password.
  by rewrite argon2_hash_prefix, argon2_verify_hash.
Qed.
End Hashing.

(** A concrete instance for witnesses: the hash carries the password after the
    prefix, PBKDF2 rows are absent, lowercasing is the ASCII one. *)
#[global] Instance ascii_casing : Casing | 100 := {| to_lowercase := to_ascii_lowercase |}.
#[global] Instance plain_crypto : Crypto | 100 := {|
  argon2_hash _ _ p := argon2_prefix ++ p;
  argon2_verify p s := (fun q => str_eqb p q) <$> strip_prefix argon2_prefix s;
  pbkdf2 p _ _ := p;
  parse_legacy _ := None
|}.


#[global] Instance plain_crypto_laws : @CryptoLaws plain_crypto.
Proof.
  constructor; intros.
  - exact (starts_with_app argon2_prefix p).
  - change (argon2_verify p (argon2_hash c r p))
      with ((fun q => str_eqb p q) <$> strip_prefix argon2_prefix (argon2_prefix ++ p)).
    rewrite strip_prefix_app. simpl. by rewrite str_eqb_refl.
Qed.

(** ** The trivial patterns *)
Lemma windows_all_lookup (p : N -> N -> bool) (cs : str) :
  windows_all p cs = true <->
  forall i a b, cs !! i = Some a -> cs !! S i = Some b -> p a b = true.
Proof.
  induction cs as [|x [|y cs] IH].
  - split; [|done]. intros _ i a b Ha. done.
  - split; [|done]. intros _ [|i] a b Ha Hb; done.
  - change (windows_all p (x :: y :: cs)) with (p x y && windows_all p (y :: cs)).
    rewrite andb_true_iff, IH. split.
    + intros [Hxy Hw] [|i] a b Ha Hb; [by simplify_eq/=|]. by apply (Hw i).
    + intros Hw. split; [by apply (Hw 0%nat)|]. intros i a b. apply (Hw (S i)).
Qed.

Lemma run_lookup (step : Z) (cs : str) (c0 : N) :
  head cs = Some c0 ->
  (forall i a b, cs !! i = Some a -> cs !! S i = Some b -> Z.of_N b = Z.of_N a + step)%Z ->
  forall i c, cs !! i = Some c -> (Z.of_N c = Z.of_N c0 + step * Z.of_nat i)%Z.
Proof.
  intros H0 Hs. induction i as [|i IH]; intros c Hc.
  - destruct cs; simplify_eq/=. lia.
  - destruct (cs !! i) as [a|] eqn:Ha.
    + rewrite (Hs i a c Ha Hc), (IH a eq_refl). lia.
    + apply lookup_ge_None in Ha. apply lookup_lt_Some in Hc. lia.
Qed.

(** [cs] is an arithmetic run of step 0, 1 or -1. *)
Definition is_run (cs : str) : Prop :=
  exists c0 step, (step = 0 \/ step = 1 \/ step = -1)%Z /\
    forall i c, cs !! i = Some c -> (Z.of_N c = Z.of_N c0 + step * Z.of_nat i)%Z.

Lemma forallb_head (c : N) (cs : str) :
  forallb (fun x => x =? c) cs = true <-> forall i x, cs !! i = Some x -> x = c.
Proof.
  rewrite forallb_forall. split.
  - intros H i x Hx. apply N.eqb_eq, H. apply list_elem_of_In. by eapply list_elem_of_lookup_2.
  - intros H x Hx. apply N.eqb_eq. apply list_elem_of_In, list_elem_of_lookup in Hx as [i Hi].
    by eapply H.
Qed.

Lemma trivial_pattern_run (cs : str) :
  is_trivial_pattern cs = true <-> 2 <= char_count cs /\ is_run cs.
Proof.
  unfold is_trivial_pattern. destruct (char_count cs <? 2) eqn:Hlen; to_prop.
  { split; [done|]. intros [? _]. lia. }
  assert (exists c0, head cs = Some c0) as [c0 Hc0].
  { destruct cs; [unfold char_count in Hlen; simpl in Hlen; lia|]. by eexists. }
  assert (cs !! 0%nat = Some c0) as H0 by (destruct cs; simplify_eq/=; done).
  rewrite Hc0; simpl. split.
  - intros Ht. split; [done|]. destruct (forallb _ cs) eqn:Hall.
    { exists c0, 0%Z. split; [by left|]. intros i c Hc.
      rewrite (proj1 (forallb_head c0 cs) Hall i c Hc). lia. }
    apply orb_true_iff in Ht as [Hw|Hw]; [exists c0, 1%Z|exists c0, (-1)%Z];
      (split; [auto|]); apply run_lookup; try done; intros i a b Ha Hb;
      pose proof (proj1 (windows_all_lookup _ _) Hw i a b Ha Hb) as Hab; cbv beta in Hab;
      to_prop; lia.
  - intros [_ (c1 & step & Hstep & Hrun)].
    assert (Z.of_N c0 = Z.of_N c1) as Hcc by (pose proof (Hrun 0%nat c0 H0); lia).
    destruct (forallb _ cs) eqn:Hall; [done|].
    destruct Hstep as [-> | [-> | ->]].
    + rewrite (proj2 (forallb_head c0 cs)) in Hall; [done|].
      intros i x Hx. pose proof (Hrun i x Hx). lia.
    + apply orb_true_iff; left. apply windows_all_lookup. intros i a b Ha Hb.
      pose proof (Hrun i a Ha). pose proof (Hrun (S i) b Hb). apply N.eqb_eq. lia.
    + apply orb_true_iff; right. apply windows_all_lookup. intros i a b Ha Hb.
      pose proof (Hrun i a Ha). pose proof (Hrun (S i) b Hb). apply N.eqb_eq. lia.
Qed.

(** A password passes the policy exactly when its length is between 8 and
    256 characters, its lowercase form is not blocklisted, differs from the
    lowercase user id, and is not an arithmetic run of step 0, 1 or -1. *)
Theorem check_strength_spec `{Casing} (blocklist : gset str) (user_id canonical : str) :
  check_strength blocklist user_id canonical = Ok tt <->
  8 <= char_count canonical <= 256 /\
  to_lowercase canonical ∉ blocklist /\
  to_lowercase canonical <> to_lowercase (trim user_id) /\
  ~ (2 <= char_count (to_lowercase canonical) /\ is_run (to_lowercase canonical)).
Proof.
  rewrite <-trivial_pattern_run. unfold check_strength, fail, MIN_PASSWORD_LEN, MAX_PASSWORD_LEN.
  repeat case_match; to_prop; rewrite ?not_true_iff_false; split; intros; destruct_and?;
    split_and?; try (lia || congruence || done).
Qed.
