(* ===== verification/Redb.v ===== *)
(** * Redb: the transactional key-value tables under the stores

    The stores are [redb] tables of text keys and JSON text values.  [redb] is a
    third-party crate; what the code uses of it is a table that may not exist
    yet, iteration in key order, and write transactions that publish everything
    at [commit] and nothing otherwise.  Whether an individual call fails is
    decided by the oracle [fault], so that every [?] of the code is a branch of
    the model. *)

From S2P Require Import Prelude Errors.

(** A table, [None] while no write transaction has created it. *)
Abbreviation Table := (option (gmap str str)).

Inductive RedbOp :=
| CreateDir | Create | BeginRead | BeginWrite | OpenTable | Iter
| Get (k : str) | Insert (k : str) | Remove (k : str) | Commit.

(** The outcome of one call during the operation at hand. *)
Class Redb := { fault : RedbOp -> option str }.

Definition redb {Rd : Redb} (op : RedbOp) : result str unit :=
  match fault op with Some e => Err e | None => Ok tt end.

(** A disk on which every call succeeds. *)
#[global] Instance healthy : Redb | 100 := {| fault _ := None |}.

(** ** Key order: byte order of UTF-8 text, i.e. scalar value order. *)
Fixpoint str_leb (a b : str) : bool :=
  match a, b with
  | [], _ => true
  | _ :: _, [] => false
  | x :: a', y :: b' => (x <? y) || ((x =? y) && str_leb a' b')
  end.
Definition key_le (a b : str * str) : Prop := str_leb a.1 b.1 = true.
#[export] Instance key_le_dec a b : Decision (key_le a b).
Proof. unfold key_le. apply _. Defined.

Definition rows (t : gmap str str) : list (str * str) := merge_sort key_le (map_to_list t).

(** ** Transactions *)
Section Transactions.
Context {Rd : Redb}.

(** [begin_read] and [open_table]; a table never created reads as [None]. *)
Definition read_table (t : Table) : result str Table :=
  _ ← redb BeginRead;
  match t with
  | None => Ok None
  | Some m => _ ← redb OpenTable; Ok (Some m)
  end.

(** [begin_write], [open_table], the body, [commit]; dropping the
    transaction on an error publishes nothing. *)
Definition write_txn {A : Type} (io : str -> AppError) (t : Table)
    (body : gmap str str -> app_result (A * gmap str str)) : app_result A * Table :=
  match (_ ← map_err io (redb BeginWrite);
         _ ← map_err io (redb OpenTable);
         r ← body (default ∅ t);
         _ ← map_err io (redb Commit);
         Ok r) with
  | Ok (a, m) => (Ok a, Some m)
  | Err e => (Err e, t)
  end.

(** [table.insert] and [table.remove] of one key. *)
Definition table_insert (io : str -> AppError) (k v : str) (m : gmap str str)
  : app_result (gmap str str) :=
  _ ← map_err io (redb (Insert k)); Ok (<[k := v]> m).
Definition table_remove (io : str -> AppError) (k : str) (m : gmap str str)
  : app_result (gmap str str) :=
  _ ← map_err io (redb (Remove k)); Ok (delete k m).

(** [for (k, v) in .. { table.insert(k, v)?; }] and the same for [remove]. *)
Fixpoint insert_all (io : str -> AppError) (kvs : list (str * str)) (m : gmap str str)
  : app_result (gmap str str) :=
  match kvs with
  | [] => Ok m
  | (k, v) :: kvs' => m' ← table_insert io k v m; insert_all io kvs' m'
  end.
Fixpoint remove_all (io : str -> AppError) (ks : list str) (m : gmap str str)
  : app_result (gmap str str) :=
  match ks with
  | [] => Ok m
  | k :: ks' => m' ← table_remove io k m; remove_all io ks' m'
  end.
End Transactions.

(** ** Facts *)
Lemma str_leb_refl a : str_leb a a = true.
Proof. induction a as [|x a IH]; simpl; [done|]. by rewrite N.eqb_refl, IH, orb_true_r. Qed.

Lemma str_leb_total a b : str_leb a b = true \/ str_leb b a = true.
Proof.
  revert b. induction a as [|x a IH]; intros [|y b]; simpl; auto.
  destruct (N.lt_trichotomy x y) as [Hlt|[->|Hlt]].
  - left. apply N.ltb_lt in Hlt. by rewrite Hlt.
  - rewrite N.eqb_refl, !N.ltb_irrefl. apply IH.
  - right. apply N.ltb_lt in Hlt. by rewrite Hlt.
Qed.

#[export] Instance key_le_total : Total key_le.
Proof. intros a b. apply str_leb_total. Qed.

Lemma rows_permutation t : rows t ≡ₚ map_to_list t.
Proof. apply merge_sort_Permutation. Qed.

Lemma elem_of_rows t k v : (k, v) ∈ rows t <-> t !! k = Some v.
Proof. by rewrite rows_permutation, elem_of_map_to_list. Qed.

Lemma rows_nodup t : NoDup (rows t).*1.
Proof. rewrite rows_permutation. apply NoDup_fst_map_to_list. Qed.

Lemma write_txn_err {Rd : Redb} {A : Type} (io : str -> AppError) (t : Table) (body : gmap str str -> app_result (A * gmap str str)) e t' :
  write_txn io t body = (Err e, t') -> t' = t.
Proof. unfold write_txn. repeat case_match; by intros [=]. Qed.

Lemma write_txn_ok {Rd : Redb} {A : Type} (io : str -> AppError) (t : Table) (body : gmap str str -> app_result (A * gmap str str)) a t' :
  write_txn io t body = (Ok a, t') ->
  exists m, body (default ∅ t) = Ok (a, m) /\ t' = Some m.
Proof.
  unfold write_txn. intros Ht. case_match eqn:Hr; [|done].
  destruct a0 as [a0 m]. simplify_eq. exists m. split; [|done].
  apply bind_Ok in Hr as ([] & _ & Hr). apply bind_Ok in Hr as ([] & _ & Hr).
  apply bind_Ok in Hr as (r & Hb & Hr). apply bind_Ok in Hr as ([] & _ & [= ->]). done.
Qed.

Lemma write_txn_healthy {A : Type} (io : str -> AppError) (t : Table) (body : _ -> app_result (A * gmap str str)) :
  write_txn (Rd:=healthy) io t body =
  match body (default ∅ t) with Ok (a, m) => (Ok a, Some m) | Err e => (Err e, t) end.
Proof. unfold write_txn. simpl. by destruct (body _) as [[]|]. Qed.

Lemma insert_all_ok {Rd : Redb} (io : str -> AppError) kvs m m' :
  insert_all io kvs m = Ok m' -> m' = list_to_map (reverse kvs) ∪ m.
Proof.
  revert m. induction kvs as [|[k v] kvs IH]; simpl; intros m Hm.
  - simplify_eq. by rewrite (left_id_L ∅ (∪)).
  - apply bind_Ok in Hm as (m1 & Hm1 & Hm). unfold table_insert in Hm1.
    apply bind_Ok in Hm1 as ([] & _ & [= <-]). apply IH in Hm as ->.
    rewrite reverse_cons, list_to_map_app. simpl.
    rewrite insert_empty, <-(assoc_L (∪)). by rewrite insert_union_singleton_l.
Qed.

Lemma remove_all_ok {Rd : Redb} (io : str -> AppError) ks m m' :
  remove_all io ks m = Ok m' -> forall k, m' !! k = if decide (k ∈ ks) then None else m !! k.
Proof.
  revert m. induction ks as [|k0 ks IH]; simpl; intros m Hm k.
  - simplify_eq. destruct (decide (k ∈ [])) as [Hk|]; [set_solver|done].
  - apply bind_Ok in Hm as (m1 & Hm1 & Hm). unfold table_remove in Hm1.
    apply bind_Ok in Hm1 as ([] & _ & [= <-]). rewrite (IH _ Hm k).
    destruct (decide (k ∈ ks)), (decide (k ∈ k0 :: ks)) as [Hk|Hk]; try set_solver.
    + assert (k = k0) as -> by set_solver. apply lookup_delete_eq.
    + rewrite lookup_delete_ne; [done|]. set_solver.
Qed.

Lemma insert_all_healthy (io : str -> AppError) kvs m :
  exists m', insert_all (Rd:=healthy) io kvs m = Ok m'.
Proof. revert m. induction kvs as [|[k v] kvs IH]; simpl; intros m; [by eexists|apply IH]. Qed.
Lemma remove_all_healthy (io : str -> AppError) ks m :
  exists m', remove_all (Rd:=healthy) io ks m = Ok m'.
Proof. revert m. induction ks as [|k kvs IH]; simpl; intros m; [by eexists|apply IH]. Qed.
