(* ===== verification/UserStore.v ===== *)
(** * UserStore: the identity records ([backend/src/auth/user_store.rs])

    One redb file, one table of user id to the JSON text of a [UserRecord].
    Every write is the locked read-modify-write [rmw]; the refinement theorem
    says that, on a readable store, [rmw] is exactly the closure applied to the
    map of decoded records, and that an error publishes nothing.  Hashing is the
    [Crypto] of [Password]; [Json] text is a [JsonCodec]; the legacy PBKDF2 rows
    are read by [legacy_from_value]. *)

From S2P Require Import Prelude Errors Redb Password.

Module User.
Record UserRecord := mkUser {
  hash : option str;
  admin : bool;
  home : option str;
  ver : N;
  disabled : bool;
  shares_enabled : bool
}.
#[export] Instance UserRecord_eq_dec : EqDecision UserRecord.
Proof. solve_decision. Defined.

Definition default_shares_enabled : bool := true.
Definition set_hash h u := mkUser h (admin u) (home u) (ver u) (disabled u) (shares_enabled u).
Definition set_admin_flag a u := mkUser (hash u) a (home u) (ver u) (disabled u) (shares_enabled u).
Definition set_home_dir h u := mkUser (hash u) (admin u) h (ver u) (disabled u) (shares_enabled u).
Definition set_ver v u := mkUser (hash u) (admin u) (home u) v (disabled u) (shares_enabled u).
Definition set_disabled_flag d u := mkUser (hash u) (admin u) (home u) (ver u) d (shares_enabled u).
Definition set_shares b u := mkUser (hash u) (admin u) (home u) (ver u) (disabled u) b.
Definition bump u := set_ver (wrapping_add_u64 (ver u) 1) u.
End User.
Export User.

(** [serde_json::from_value::<PasswordHash>] and [to_string] of a legacy hash
    (base64 salt and hash, third-party codecs). *)
Class LegacyHash := {
  legacy_from_value : Json -> option PasswordHash;
  legacy_to_string : PasswordHash -> str
}.
#[global] Instance no_legacy : LegacyHash | 100 :=
  {| legacy_from_value _ := None; legacy_to_string _ := [] |}.

(** ** The row format *)
Definition opt_str_json (o : option str) : Json :=
  match o with Some s => JStr s | None => JNull end.

(** The derived [Serialize]: every field, in declaration order. *)
Definition user_to_value (u : UserRecord) : Json :=
  JObj [(lit "hash", opt_str_json (hash u)); (lit "admin", JBool (admin u));
        (lit "home", opt_str_json (home u)); (lit "ver", JNum (Z.of_N (ver u)));
        (lit "disabled", JBool (disabled u)); (lit "shares_enabled", JBool (shares_enabled u))].

Section Rows.
Context {Lh : LegacyHash} {Jc : JsonCodec}.

Definition reencode_legacy (v : Json) : result str (option str) :=
  match legacy_from_value v with
  | Some legacy => Ok (Some (legacy_to_string legacy))
  | None => Err (lit "invalid legacy hash")
  end.

Definition deserialize_hash (value : Json) (obj : list (str * Json)) : result str (option str) :=
  if jcontains (lit "salt") obj && jcontains (lit "iterations") obj then reencode_legacy value
  else match jget (lit "hash") obj with
       | Some JNull => Ok None
       | Some (JStr s) => Ok (Some s)
       | Some (JObj h) => reencode_legacy (JObj h)
       | Some _ => Err (lit "invalid password hash")
       | None => Ok None
       end.

Definition deserialize (value : Json) : result str UserRecord :=
  obj ← ok_or (lit "user record must be an object") (as_object value);
  let admin := default false (jget (lit "admin") obj ≫= as_bool) in
  let home := jget (lit "home") obj ≫= as_str in
  let ver := default 0 (jget (lit "ver") obj ≫= as_u64) in
  let disabled := default false (jget (lit "disabled") obj ≫= as_bool) in
  let shares_enabled := default true (jget (lit "shares_enabled") obj ≫= as_bool) in
  hash ← deserialize_hash value obj;
  Ok (mkUser hash admin home ver disabled shares_enabled).

Definition user_to_string (u : UserRecord) : str := json_print (user_to_value u).
Definition user_from_str (raw : str) : result str UserRecord :=
  v ← ok_or (lit "invalid JSON") (json_parse raw); deserialize v.
End Rows.

(** ** The store file and the process-wide handle cache *)
Record Store := mkStore {
  (** where it lies, as it is printed *)
  db_path : str;
  (** the file, [None] when the path does not exist *)
  file : option Table;
  (** this process holds a cached handle *)
  cached : bool;
  (** another process holds the file lock *)
  foreign : bool
}.

Definition STORE_LOCKED_MESSAGE : str :=
  lit "user store is held by another process (the server may be running); stop the server before running this offline command".

Definition io (err : str) : AppError := from_err IO err.

Section Store.
Context {Rd : Redb} {Lh : LegacyHash} {Jc : JsonCodec}.

Definition map_open_error (path : str) : AppError := new_error Conflict (STORE_LOCKED_MESSAGE ++ lit ": " ++ path).

(** [open_db]: the cached handle, or create the file; the table is there only
    once a write transaction has created it. *)
Definition open_db (st : Store) : app_result Table * Store :=
  if cached st then (Ok (default None (file st)), st)
  else match redb CreateDir with
  | Err e => (Err (io e), st)
  | Ok _ =>
      if foreign st then (Err (map_open_error (db_path st)), st)
      else match redb Create with
      | Err e => (Err (io e), st)
      | Ok _ =>
          let t := default None (file st) in
          (Ok t, mkStore (db_path st) (Some t) true (foreign st))
      end
  end.

Fixpoint decode_pairs (pairs : list (str * str)) (users : gmap str UserRecord)
  : result str (gmap str UserRecord) :=
  match pairs with
  | [] => Ok users
  | (id, raw) :: pairs' =>
      user ← map_err (fun e => lit "corrupt user entry " ++ id ++ lit ": " ++ e) (user_from_str raw);
      decode_pairs pairs' (<[id := user]> users)
  end.

Definition load_users (st : Store) : app_result (gmap str UserRecord) * Store :=
  match file st with
  | None => (Ok ∅, st)
  | Some _ =>
      match open_db st with
      | (Err e, st') => (Err e, st')
      | (Ok t, st') =>
          (match map_err io (read_table t) with
           | Err e => Err e
           | Ok None => Ok ∅
           | Ok (Some m) =>
               _ ← map_err io (redb Iter);
               map_err io (decode_pairs (rows m) ∅)
           end, st')
      end
  end.

(** The body of [rmw] inside its transaction. *)
Definition rmw_body {A} (f : gmap str UserRecord -> app_result (A * gmap str UserRecord))
    (table : gmap str str) : app_result (A * gmap str str) :=
  _ ← map_err io (redb Iter);
  users ← map_err io (decode_pairs (rows table) ∅);
  r ← f users;
  let '(result, users') := r in
  table' ← insert_all io (prod_map id user_to_string <$> map_to_list users') table;
  _ ← map_err io (redb Iter);
  let stale := (rows table').*1 in
  let stale := filter (fun id => users' !! id = None) stale in
  table'' ← remove_all io stale table';
  Ok (result, table'').

Definition rmw {A} (f : gmap str UserRecord -> app_result (A * gmap str UserRecord))
    (st : Store) : app_result A * Store :=
  match open_db st with
  | (Err e, st') => (Err e, st')
  | (Ok t, st') =>
      let '(r, t') := write_txn io t (rmw_body f) in
      (r, mkStore (db_path st') (Some t') (cached st') (foreign st'))
  end.
End Store.

(** ** Input validation ([users.rs]) *)
Definition validate_user_id (id : str) : app_result str :=
  let trimmed := trim id in
  if is_empty trimmed then fail InvalidInput (lit "user id must not be empty")
  else if 64 <? str_len trimmed then fail InvalidInput (lit "user id must be at most 64 characters")
  else Ok trimmed.

(** The password policy of the process: the override, then the configuration. *)
Record Policy := mkPolicy {
  trivial_override : option bool;
  config_trivial : option bool;
  blocklist : gset str;
  weak_env : option str
}.

(** [set_trivial_passwords_override]: the first value wins. *)
Definition set_trivial_passwords_override (enabled : bool) (p : Policy) : bool * Policy :=
  match trivial_override p with
  | Some _ => (false, p)
  | None => (true, mkPolicy (Some enabled) (config_trivial p) (blocklist p) (weak_env p))
  end.
Definition trivial_passwords_enabled (p : Policy) : bool :=
  match trivial_override p with
  | Some enabled => enabled
  | None => default false (config_trivial p)
  end.
Definition validate_new_password `{Casing} (p : Policy) (user_id password : str) : app_result str :=
  let canonical := trim password in
  if trivial_passwords_enabled p then
    if is_empty canonical then fail InvalidInput (lit "password must not be empty")
    else Ok canonical
  else _ ← check_strength (blocklist p) user_id canonical; Ok canonical.

(** ** Operations *)
Definition admins (users : gmap str UserRecord) : gmap str UserRecord :=
  filter (fun kv => admin kv.2 = true) users.
Definition enabled_admins (users : gmap str UserRecord) : gmap str UserRecord :=
  filter (fun kv => admin kv.2 = true /\ disabled kv.2 = false) users.

Definition unknown_user {A} (target : str) : app_result A :=
  fail NotFound (lit "unknown user: " ++ target).

(** The closures the operations hand to [rmw]. *)
Abbreviation closure A := (gmap str UserRecord -> app_result (A * gmap str UserRecord)).

Definition provision_fn (id hash : str) (admin : bool) (home : option str) : closure str :=
  fun users =>
    match users !! id with
    | Some _ => fail Conflict (lit "user already exists")
    | None => Ok (id, <[id := mkUser (Some hash) admin home 0 false true]> users)
    end.

Definition set_password_fn (id hash : str) : closure unit := fun users =>
  Ok (tt, match users !! id with
          | Some entry => <[id := bump (set_hash (Some hash) entry)]> users
          | None => <[id := mkUser (Some hash) false None 1 false true]> users
          end).

Definition upgrade_password_hash_fn (id hash : str) : closure unit := fun users =>
  Ok (tt, match users !! id with
          | Some entry => <[id := set_hash (Some hash) entry]> users
          | None => users
          end).

Definition set_admin_fn (target : str) (flag : bool) : closure bool := fun users =>
  match users !! target with
  | None => unknown_user target
  | Some current =>
      if Bool.eqb (admin current) flag then Ok (false, users)
      else if negb flag && (size (admins users) <=? 1)%nat then
        fail Conflict (lit "demotion would leave zero admins")
      else Ok (true, <[target := bump (set_admin_flag flag current)]> users)
  end.

Definition set_disabled_fn (target : str) (flag : bool) : closure bool := fun users =>
  match users !! target with
  | None => unknown_user target
  | Some current =>
      if Bool.eqb (disabled current) flag then Ok (false, users)
      else if flag && admin current && (size (enabled_admins users) <=? 1)%nat then
        fail Conflict (lit "disabling would leave zero enabled admins")
      else
        let current := set_disabled_flag flag current in
        let current := if flag then bump current else current in
        Ok (true, <[target := current]> users)
  end.

Definition set_sharing_enabled_fn (target : str) (enabled : bool) : closure bool := fun users =>
  match users !! target with
  | None => unknown_user target
  | Some current =>
      if Bool.eqb (shares_enabled current) enabled then Ok (false, users)
      else Ok (true, <[target := set_shares enabled current]> users)
  end.

Definition bump_ver_fn (target : str) : closure N := fun users =>
  match users !! target with
  | None => unknown_user target
  | Some current =>
      let current := bump current in Ok (ver current, <[target := current]> users)
  end.

Definition set_home_fn (target : str) (home' : option str) : closure bool := fun users =>
  match users !! target with
  | None => unknown_user target
  | Some current =>
      if bool_decide (home current = home') then Ok (false, users)
      else Ok (true, <[target := set_home_dir home' current]> users)
  end.

Definition delete_fn (target : str) (force : bool) : closure bool := fun users =>
  match users !! target with
  | None => Ok (false, users)
  | Some current =>
      if admin current && negb force && (size (admins users) <=? 1)%nat then
        fail Conflict (lit "deletion would leave zero admins")
      else Ok (true, delete target users)
  end.

Module UserDb.
Section Operations.
Context {Rd : Redb} {Lh : LegacyHash} {Jc : JsonCodec} {Ca : Casing} {Cr : Crypto}.

Definition provision (p : Policy) (rng : N) (id password : str) (admin : bool)
    (home : option str) (st : Store) : app_result str * Store :=
  match (id ← validate_user_id id;
         canonical ← validate_new_password p id password; Ok (id, canonical)) with
  | Err e => (Err e, st)
  | Ok (id, canonical) =>
      rmw (provision_fn id (hash_password (weak_env p) rng canonical) admin home) st
  end.

Definition set_password (env : option str) (rng : N) (id password : str) (st : Store)
  : app_result unit * Store :=
  let id := trim id in
  let canonical := trim password in
  let hash := hash_password env rng canonical in
  rmw (set_password_fn id hash) st.

Definition upgrade_password_hash (env : option str) (rng : N) (id password : str) (st : Store)
  : app_result unit * Store :=
  let hash := hash_password env rng (trim password) in
  rmw (upgrade_password_hash_fn (trim id) hash) st.

Definition set_admin (id : str) (admin : bool) (st : Store) : app_result bool * Store :=
  rmw (set_admin_fn (trim id) admin) st.
Definition set_disabled (id : str) (disabled : bool) (st : Store) : app_result bool * Store :=
  rmw (set_disabled_fn (trim id) disabled) st.
Definition set_sharing_enabled (id : str) (enabled : bool) (st : Store) : app_result bool * Store :=
  rmw (set_sharing_enabled_fn (trim id) enabled) st.
Definition bump_ver (id : str) (st : Store) : app_result N * Store :=
  rmw (bump_ver_fn (trim id)) st.
Definition set_home (id : str) (home : option str) (st : Store) : app_result bool * Store :=
  rmw (set_home_fn (trim id) home) st.
Definition delete (id : str) (force : bool) (st : Store) : app_result bool * Store :=
  rmw (delete_fn (trim id) force) st.

(** Readers. *)
Definition user_le (a b : str * UserRecord) : Prop := str_leb a.1 b.1 = true.
#[export] Instance user_le_dec a b : Decision (user_le a b).
Proof. unfold user_le. apply _. Defined.

Definition read_checked (id : str) (st : Store) : app_result (option UserRecord) * Store :=
  let '(r, st') := load_users st in
  (users ← r; Ok (users !! trim id), st').
Definition read (id : str) (st : Store) : option UserRecord * Store :=
  let '(r, st') := load_users st in
  (users ← result_ok r; users !! trim id, st').
Definition list_checked (st : Store) : app_result (list (str * UserRecord)) * Store :=
  let '(r, st') := load_users st in
  (users ← r; Ok (merge_sort user_le (map_to_list users)), st').
Definition list (st : Store) : list (str * UserRecord) * Store :=
  let '(r, st') := load_users st in
  (merge_sort user_le (map_to_list (default ∅ (result_ok r))), st').
Definition count (st : Store) : nat * Store :=
  let '(r, st') := load_users st in
  (match r with Ok u => size u | Err _ => 0%nat end, st').
Definition is_empty_store (st : Store) : bool * Store :=
  let '(n, st') := count st in ((n =? 0)%nat, st').

(** [remove_store] drops the cached handle and the file. *)
Definition remove_store (st : Store) : Store := mkStore (db_path st) None false (foreign st).

(** The snapshot view [UserStore]; the path is the store's. *)
Record UserStore := mkUserStore { users : gmap str UserRecord }.

Definition load (st : Store) : result str UserStore * Store :=
  let '(r, st') := load_users st in
  (users ← map_err display_error r; Ok (mkUserStore users), st').

Definition view_set_password (env : option str) (rng : N) (user_id password : str)
    (self : UserStore) (st : Store) : result str unit * UserStore * Store :=
  match set_password env rng user_id password st with
  | (Err e, st1) => (Err (display_error e), self, st1)
  | (Ok _, st1) =>
      let '(r, st2) := load_users st1 in
      (Ok tt, mkUserStore (default ∅ (result_ok r)), st2)
  end.

Definition verify (env : option str) (rng : N) (self : UserStore) (user_id password : str)
    (st : Store) : bool * Store :=
  match users self !! trim user_id ≫= hash with
  | None => (false, st)
  | Some h =>
      let ok := verify_password password h in
      if ok && negb (starts_with argon2_prefix h) then
        let '(_, st') := upgrade_password_hash env rng (trim user_id) (trim password) st in
        (ok, st')
      else (ok, st)
  end.
End Operations.
End UserDb.

(** ** The abstract store: the map of decoded records *)
Section Abstract.
Context {Lh : LegacyHash} {Jc : JsonCodec} {Jl : JsonLaws}.

(** Versions are [u64]. *)
Definition user_ok (u : UserRecord) : Prop := ver u <= u64_max.
Definition users_ok (users : gmap str UserRecord) : Prop := map_Forall (fun _ => user_ok) users.

Definition represents (t : gmap str str) (users : gmap str UserRecord) : Prop :=
  forall k, match t !! k, users !! k with
            | Some raw, Some u => user_from_str raw = Ok u
            | None, None => True
            | _, _ => False
            end.
Definition reads (st : Store) (users : gmap str UserRecord) : Prop :=
  represents (default ∅ (default None (file st))) users.

Lemma represents_empty : represents ∅ ∅.
Proof. intros k. by rewrite !lookup_empty. Qed.

Lemma represents_fun t u1 u2 : represents t u1 -> represents t u2 -> u1 = u2.
Proof.
  intros H1 H2. apply map_eq. intros k. specialize (H1 k). specialize (H2 k).
  destruct (t !! k), (u1 !! k), (u2 !! k); simplify_eq; try done. congruence.
Qed.

Lemma deserialize_ok v u : deserialize v = Ok u -> user_ok u.
Proof.
  unfold deserialize. intros Hd. apply bind_Ok in Hd as (obj & _ & Hd).
  apply bind_Ok in Hd as (h & _ & [= <-]). unfold user_ok; simpl.
  destruct (jget _ obj ≫= as_u64) as [n|] eqn:Hn; simpl; [|apply N.le_0_l].
  apply bind_Some in Hn as (j & _ & Hj). by eapply as_u64_max.
Qed.

Lemma represents_ok t users : represents t users -> users_ok users.
Proof.
  intros Hr k u Hu. specialize (Hr k). rewrite Hu in Hr. destruct (t !! k) as [raw|]; [|done].
  unfold user_from_str in Hr. apply bind_Ok in Hr as (v & _ & Hd). by eapply deserialize_ok.
Qed.

Lemma user_roundtrip u : user_ok u -> user_from_str (user_to_string u) = Ok u.
Proof.
  unfold user_from_str, user_to_string, user_ok. rewrite json_parse_print. intros Hv.
  destruct u as [h a hm v d s]; cbn [ver] in Hv.
  pose proof (as_u64_JNum v Hv) as Hn.
  unfold user_to_value. cbn [User.hash admin home ver disabled shares_enabled].
  generalize dependent (JNum (Z.of_N v)). intros jv Hn.
  change (ok_or (lit "invalid JSON") (Some ?x) ≫= ?k) with (k x).
  unfold deserialize, deserialize_hash. cbn [ok_or as_object mbind result_bind].
  set (obj := [_; _; _; _; _; _]).
  change (jget (lit "admin") obj) with (Some (JBool a)).
  change (jget (lit "home") obj) with (Some (opt_str_json hm)).
  change (jget (lit "ver") obj) with (Some jv).
  change (jget (lit "disabled") obj) with (Some (JBool d)).
  change (jget (lit "shares_enabled") obj) with (Some (JBool s)).
  change (jget (lit "hash") obj) with (Some (opt_str_json h)).
  change (jcontains (lit "salt") obj) with false.
  cbn [andb mbind option_bind]. rewrite Hn. by destruct h, hm.
Qed.

Lemma decode_pairs_ok pairs u0 users :
  NoDup pairs.*1 -> decode_pairs pairs u0 = Ok users ->
  (forall k raw, (k, raw) ∈ pairs -> exists u, user_from_str raw = Ok u /\ users !! k = Some u) /\
  (forall k, k ∉ pairs.*1 -> users !! k = u0 !! k).
Proof.
  revert u0. induction pairs as [|[k0 raw0] pairs IH]; intros u0 Hnd Hd; simpl in *.
  { simplify_eq. split; [set_solver|done]. }
  apply NoDup_cons in Hnd as [Hk0 Hnd]. apply bind_Ok in Hd as (u & Hu & Hd).
  destruct (user_from_str raw0) as [u'|] eqn:Hraw; simplify_eq/=.
  destruct (IH _ Hnd Hd) as [IH1 IH2]. split.
  - intros k raw [[= -> ->]|Hin]%elem_of_cons; [|by apply IH1].
    exists u. split; [done|]. rewrite IH2 by done. apply lookup_insert_eq.
  - intros k Hk. rewrite IH2 by set_solver. apply lookup_insert_ne. set_solver.
Qed.

Lemma decode_rows_ok t users : decode_pairs (rows t) ∅ = Ok users -> represents t users.
Proof.
  intros Hd. destruct (decode_pairs_ok _ _ _ (rows_nodup t) Hd) as [H1 H2]. intros k.
  destruct (t !! k) as [raw|] eqn:Hk.
  - destruct (H1 k raw) as (u & Hu & ->); [by apply elem_of_rows|done].
  - rewrite H2, lookup_empty; [done|]. intros ([k' raw] & -> & Hin)%list_elem_of_fmap.
    apply elem_of_rows in Hin. simplify_eq/=.
Qed.

Lemma decode_pairs_total pairs u0 :
  (forall k raw, (k, raw) ∈ pairs -> is_ok (user_from_str raw) = true) ->
  exists users, decode_pairs pairs u0 = Ok users.
Proof.
  revert u0. induction pairs as [|[k0 raw0] pairs IH]; intros u0 Hall; simpl; [by eexists|].
  specialize (Hall k0 raw0 ltac:(set_solver)) as H0.
  destruct (user_from_str raw0); [|done]. simpl. apply IH. set_solver.
Qed.

Lemma represents_decode t users : represents t users -> decode_pairs (rows t) ∅ = Ok users.
Proof.
  intros Hr. destruct (decode_pairs_total (rows t) ∅) as [users' Hd].
  - intros k raw Hin%elem_of_rows. specialize (Hr k). rewrite Hin in Hr.
    destruct (users !! k); [by rewrite Hr|done].
  - rewrite Hd. f_equal. eapply represents_fun; [by apply decode_rows_ok|done].
Qed.

(** What the write-back of [rmw] leaves in the table. *)
Definition encoded (users : gmap str UserRecord) : gmap str str := user_to_string <$> users.

Lemma encoded_represents users : users_ok users -> represents (encoded users) users.
Proof.
  intros Hok k. unfold encoded. rewrite lookup_fmap.
  destruct (users !! k) eqn:Hk; simpl; [|done]. apply user_roundtrip. by eapply Hok.
Qed.

Context {Rd : Redb}.

Lemma write_back_inserted users t t' :
  insert_all io (prod_map id user_to_string <$> map_to_list users) t = Ok t' ->
  t' = encoded users ∪ t.
Proof.
  intros Hi. apply insert_all_ok in Hi as ->. f_equal. unfold encoded.
  rewrite <-(list_to_map_to_list users) at 2. rewrite <-list_to_map_fmap.
  symmetry. apply list_to_map_proper; [|by rewrite reverse_Permutation].
  rewrite <-list_fmap_compose. change (NoDup (fst <$> map_to_list users)).
  apply NoDup_fst_map_to_list.
Qed.

Lemma rmw_body_ok {A} (f : closure A) t a t' :
  rmw_body f t = Ok (a, t') ->
  exists users m, represents t users /\ f users = Ok (a, m) /\ t' = encoded m.
Proof.
  unfold rmw_body. intros Hb. apply bind_Ok in Hb as ([] & _ & Hb).
  apply bind_Ok in Hb as (users & Hu & Hb).
  destruct (decode_pairs (rows t) ∅) as [users'|] eqn:Hd; simplify_eq/=.
  apply bind_Ok in Hb as ([a' m] & Hf & Hb). apply bind_Ok in Hb as (t1 & Hi & Hb).
  apply bind_Ok in Hb as ([] & _ & Hb). apply bind_Ok in Hb as (t2 & Hr & [= <- <-]).
  exists users, m. split; [by apply decode_rows_ok|]. split; [done|].
  apply write_back_inserted in Hi. pose proof (remove_all_ok _ _ _ _ Hr) as Hl.
  apply map_eq. intros k. rewrite Hl, Hi. unfold encoded. case_decide as Hk.
  - apply list_elem_of_filter in Hk as [Hk _]. by rewrite lookup_fmap, Hk.
  - rewrite lookup_union, lookup_fmap. destruct (m !! k) eqn:Hm; simpl; [by destruct (t !! k)|].
    destruct (t !! k) as [raw|] eqn:Htk; [|done]. destruct Hk. apply list_elem_of_filter.
    split; [done|]. apply list_elem_of_fmap. exists (k, raw). split; [done|].
    apply elem_of_rows. unfold encoded.
    by rewrite lookup_union, lookup_fmap, Hm, Htk.
Qed.

Lemma open_db_spec st r st' :
  open_db st = (r, st') ->
  default None (file st') = default None (file st) /\ foreign st' = foreign st /\
  match r with Ok t => t = default None (file st) | Err _ => True end.
Proof. unfold open_db. repeat case_match; intros [= <- <-]; done. Qed.

(** Every branch of [rmw], whatever fails. *)
Lemma rmw_atomic {A} (f : closure A) st users r st' :
  reads st users -> rmw f st = (r, st') ->
  match r with
  | Err _ => reads st' users
  | Ok a => exists m, f users = Ok (a, m) /\ (users_ok m -> reads st' m)
  end.
Proof.
  unfold rmw, reads. intros Hr Hrmw. destruct (open_db st) as [ro st1] eqn:Ho.
  apply open_db_spec in Ho as (Hf & _ & Ht). destruct ro as [t|e].
  - destruct (write_txn io t (rmw_body f)) as [r' t'] eqn:Hw. injection Hrmw as <- <-.
    cbn [file default]. destruct r' as [a|e].
    + apply write_txn_ok in Hw as (m & Hb & ->).
      apply rmw_body_ok in Hb as (users' & m' & Hu & Hfu & ->).
      assert (users' = users) as -> by (eapply represents_fun; [exact Hu|by rewrite Ht]).
      exists m'. split; [done|]. intros Hm. by apply encoded_represents.
    + apply write_txn_err in Hw as ->. by rewrite Ht.
  - injection Hrmw as <- <-. by rewrite Hf.
Qed.
End Abstract.

Section Healthy.
Context {Lh : LegacyHash} {Jc : JsonCodec} {Jl : JsonLaws}.

Lemma rmw_body_healthy {A} (f : closure A) t users :
  represents t users ->
  match f users with
  | Ok (a, _) => exists t', rmw_body (Rd:=healthy) f t = Ok (a, t')
  | Err e => rmw_body (Rd:=healthy) f t = Err e
  end.
Proof.
  intros Hr. unfold rmw_body. simpl. rewrite (represents_decode _ _ Hr). simpl.
  destruct (f users) as [[a m]|e]; simpl; [|done].
  destruct (insert_all_healthy io (prod_map id user_to_string <$> map_to_list m) t) as [t1 ->].
  simpl. edestruct (remove_all_healthy io) as [t2 ->]. simpl. by eexists.
Qed.

Lemma rmw_healthy {A} (f : closure A) st users :
  reads st users -> foreign st = false ->
  fst (rmw (Rd:=healthy) f st) = match f users with Ok (a, _) => Ok a | Err e => Err e end.
Proof.
  intros Hr Hfo. unfold rmw, open_db.
  assert (forall t, t = default None (file st) ->
    fst (write_txn (Rd:=healthy) io t (rmw_body (Rd:=healthy) f)) =
    match f users with Ok (a, _) => Ok a | Err e => Err e end) as Hw.
  { intros t ->. rewrite write_txn_healthy. pose proof (rmw_body_healthy f _ _ Hr) as Hb.
    destruct (f users) as [[a m]|e]; [destruct Hb as [t' ->]|rewrite Hb]; done. }
  rewrite Hfo. simpl. destruct (cached st); simpl;
    (destruct (write_txn _ _ _) eqn:E; simpl; rewrite <-(Hw _ eq_refl), E; done).
Qed.
End Healthy.

(** ** The write operations as one alphabet *)
Section Commands.
Context {Lh : LegacyHash} {Jc : JsonCodec} {Jl : JsonLaws} {Ca : Casing} {Cr : Crypto}.

Inductive Op :=
| OpProvision (p : Policy) (rng : N) (id password : str) (admin : bool) (home : option str)
| OpSetPassword (env : option str) (rng : N) (id password : str)
| OpUpgrade (env : option str) (rng : N) (id password : str)
| OpSetAdmin (id : str) (flag : bool)
| OpSetDisabled (id : str) (flag : bool)
| OpSetSharing (id : str) (flag : bool)
| OpBumpVer (id : str)
| OpSetHome (id : str) (home : option str)
| OpDelete (id : str) (force : bool).

(** The operation under one fault oracle, result dropped. *)
Definition run_op (o : Redb * Op) (st : Store) : Store :=
  let Rd := fst o in
  match snd o with
  | OpProvision p rng id pw a h => snd (UserDb.provision p rng id pw a h st)
  | OpSetPassword env rng id pw => snd (UserDb.set_password env rng id pw st)
  | OpUpgrade env rng id pw => snd (UserDb.upgrade_password_hash env rng id pw st)
  | OpSetAdmin id b => snd (UserDb.set_admin id b st)
  | OpSetDisabled id b => snd (UserDb.set_disabled id b st)
  | OpSetSharing id b => snd (UserDb.set_sharing_enabled id b st)
  | OpBumpVer id => snd (UserDb.bump_ver id st)
  | OpSetHome id h => snd (UserDb.set_home id h st)
  | OpDelete id b => snd (UserDb.delete id b st)
  end.
Definition run_ops (os : list (Redb * Op)) (st : Store) : Store :=
  fold_left (fun st o => run_op o st) os st.

Definition erase {A} (r : app_result (A * gmap str UserRecord)) : option (gmap str UserRecord) :=
  snd <$> result_ok r.

(** What the operation does to the abstract map; [None] when it is refused. *)
Definition effect (o : Op) (users : gmap str UserRecord) : option (gmap str UserRecord) :=
  match o with
  | OpProvision p rng id pw a h =>
      r ← result_ok (id ← validate_user_id id;
                     c ← validate_new_password p id pw; Ok (id, c));
      erase (provision_fn r.1 (hash_password (weak_env p) rng r.2) a h users)
  | OpSetPassword env rng id pw =>
      erase (set_password_fn (trim id) (hash_password env rng (trim pw)) users)
  | OpUpgrade env rng id pw =>
      erase (upgrade_password_hash_fn (trim id) (hash_password env rng (trim pw)) users)
  | OpSetAdmin id b => erase (set_admin_fn (trim id) b users)
  | OpSetDisabled id b => erase (set_disabled_fn (trim id) b users)
  | OpSetSharing id b => erase (set_sharing_enabled_fn (trim id) b users)
  | OpBumpVer id => erase (bump_ver_fn (trim id) users)
  | OpSetHome id h => erase (set_home_fn (trim id) h users)
  | OpDelete id b => erase (delete_fn (trim id) b users)
  end.

Lemma bump_ok u : user_ok (bump u).
Proof.
  unfold user_ok, bump, wrapping_add_u64, u64_max; simpl.
  pose proof (N.mod_lt (ver u + 1) 18446744073709551616). lia.
Qed.

(** Every accepted operation writes at most one row. *)
Variant touches (o : Op) (users : gmap str UserRecord) : gmap str UserRecord -> Prop :=
| touch_none : touches o users users
| touch_insert id u :
    (forall u0, users !! id = Some u0 ->
       (ver u = ver u0 \/ ver u = wrapping_add_u64 (ver u0) 1) /\
       ((hash u <> hash u0 /\ (forall e r i p, o <> OpUpgrade e r i p)) \/ admin u <> admin u0
        \/ (disabled u = true /\ disabled u0 = false) ->
        ver u = wrapping_add_u64 (ver u0) 1)) ->
    (users !! id = None -> ver u <= 1) ->
    touches o users (<[id := u]> users)
| touch_delete id : touches o users (delete id users).

Lemma effect_touches o users m : effect o users = Some m -> touches o users m.
Proof.
  unfold effect, erase, provision_fn, set_password_fn, upgrade_password_hash_fn, set_admin_fn,
    set_disabled_fn, set_sharing_enabled_fn, bump_ver_fn, set_home_fn, delete_fn,
    unknown_user, fail.
  intros He. destruct o; [apply bind_Some in He as ([? ?] & _ & He)|..];
    simpl in He; repeat (case_match; simplify_eq/=); try apply touch_none; try apply touch_delete;
    (apply touch_insert; [intros u0 Hu0; simplify_eq/=|intros Hn; simplify_eq/=]);
    try lia; (split; [simpl; auto|]); intros [[Hh Hup]|[Ha|[Hd1 Hd2]]]; simpl in *;
    try done; try congruence; by edestruct Hup.
Qed.

Lemma users_ok_effect o users m : users_ok users -> effect o users = Some m -> users_ok m.
Proof.
  intros Hok He. apply effect_touches in He as [|id u Hu Hn|id]; [done| |].
  - apply map_Forall_insert_2; [|done]. destruct (users !! id) as [u0|] eqn:Hi.
    + destruct (Hu u0 eq_refl) as [[Hv|Hv] _]; unfold user_ok; rewrite Hv.
      * by apply (Hok id).
      * apply (bump_ok u0).
    + specialize (Hn eq_refl). unfold user_ok, u64_max. lia.
  - by apply map_Forall_delete.
Qed.

Lemma run_op_effect o st users :
  reads st users ->
  reads (run_op o st) users \/
  exists m, effect (snd o) users = Some m /\ reads (run_op o st) m.
Proof.
  destruct o as [Rd o]. intros Hr.
  assert (forall A (f : closure A), erase (f users) = effect o users ->
    reads (snd (rmw f st)) users \/
    exists m, effect o users = Some m /\ reads (snd (rmw f st)) m) as Hrmw.
  { intros A f Hf. destruct (rmw f st) as [r st'] eqn:Hw.
    pose proof (rmw_atomic f st users r st' Hr Hw) as Ha. destruct r as [a|e]; [|by left].
    destruct Ha as (m & Hfm & Hm). right. exists m. rewrite Hfm in Hf. split; [done|].
    apply Hm. eapply users_ok_effect; [by eapply represents_ok|done]. }
  destruct o; cbn [run_op fst snd]; try (apply Hrmw; reflexivity).
  unfold UserDb.provision.
  match goal with |- context [match ?x with _ => _ end] => destruct x as [[id' c]|e] eqn:Hv end; [|by left].
  apply Hrmw. unfold effect. by rewrite Hv.
Qed.

Lemma rmw_foreign {Rd : Redb} {A} (f : closure A) st : foreign (snd (rmw f st)) = foreign st.
Proof.
  unfold rmw. destruct (open_db st) as [[t|e] st1] eqn:Ho; apply open_db_spec in Ho as (_ & Hf & _);
    [by destruct (write_txn io t _)|done].
Qed.

(** On a working disk an accepted operation has its effect. *)
Lemma run_op_healthy o st users m :
  reads st users -> foreign st = false -> effect o users = Some m ->
  reads (run_op (healthy, o) st) m /\ foreign (run_op (healthy, o) st) = false.
Proof.
  intros Hr Hfo He.
  assert (users_ok m) as Hok by (eapply users_ok_effect; [by eapply represents_ok|done]).
  assert (forall A (f : closure A), erase (f users) = Some m ->
    reads (snd (rmw (Rd:=healthy) f st)) m /\ foreign (snd (rmw (Rd:=healthy) f st)) = false) as Hrmw.
  { intros A f Hf. rewrite rmw_foreign. split; [|done].
    pose proof (rmw_healthy f st users Hr Hfo) as Hh.
    destruct (rmw f st) as [r st'] eqn:Hw. apply (rmw_atomic f st users r st' Hr) in Hw.
    unfold erase in Hf. destruct (f users) as [[a m']|e]; [|done].
    cbn in Hf, Hh. simplify_eq. destruct Hw as (m1 & [= <-] & Hm). by apply Hm. }
  unfold effect in He. destruct o; cbn [run_op fst snd]; try by apply Hrmw.
  unfold UserDb.provision. apply bind_Some in He as ([id' c] & Hv & He).
  match goal with |- context [match ?x with _ => _ end] => destruct x as [[id2 c2]|e] eqn:Hx end;
    simplify_eq/=. by apply Hrmw.
Qed.

(** One operation moves the version of a user by at most one wrapping step. *)
Lemma version_moves Rd o st users users' id u u' :
  reads st users -> reads (run_op (Rd, o) st) users' ->
  users !! id = Some u -> users' !! id = Some u' ->
  (ver u' = ver u \/ ver u' = wrapping_add_u64 (ver u) 1) /\
  ((hash u' <> hash u /\ (forall e r i p, o <> OpUpgrade e r i p)) \/ admin u' <> admin u
   \/ (disabled u' = true /\ disabled u = false) ->
   ver u' = wrapping_add_u64 (ver u) 1).
Proof.
  intros Hr Hr' Hu Hu'.
  match goal with |- ?G => assert (u' = u -> G) as Hsame end.
  { intros ->. split; [by left|]. intros [[? _]|[?|[? ?]]]; congruence. }
  destruct (run_op_effect (Rd, o) st users Hr) as [Hr2|(m & He & Hr2)];
    pose proof (represents_fun _ _ _ Hr' Hr2); subst users'; [apply Hsame; congruence|].
  clear Hr' Hr2. revert Hu'.
  apply effect_touches in He as [|id2 u2 Hu2 _|id2]; intros Hu'; [apply Hsame; congruence| |].
  - destruct (decide (id2 = id)) as [->|Hne].
    + rewrite lookup_insert_eq in Hu'. simplify_eq. by apply Hu2.
    + rewrite lookup_insert_ne in Hu' by done. apply Hsame. congruence.
  - apply lookup_delete_Some in Hu' as [_ Hu']. apply Hsame. congruence.
Qed.
End Commands.

(** ** Properties *)
Definition has_admin (users : gmap str UserRecord) : Prop :=
  exists id u, users !! id = Some u /\ admin u = true.
Definition has_enabled_admin (users : gmap str UserRecord) : Prop :=
  exists id u, users !! id = Some u /\ admin u = true /\ disabled u = false.

Lemma other_admin (users : gmap str UserRecord) id :
  (1 < size (admins users))%nat -> exists id' u, id' <> id /\ users !! id' = Some u /\ admin u = true.
Proof.
  intros Hs. destruct (map_choose (delete id (admins users))) as (id' & u & Hu).
  { intros He. pose proof (map_size_delete id (admins users)) as Hd. rewrite He, map_size_empty in Hd.
    case_match; unfold Datatypes.id in *; simpl in *; lia. }
  apply lookup_delete_Some in Hu as [Hne Hu]. apply map_lookup_filter_Some in Hu as [Hu Ha].
  by exists id', u.
Qed.

Section Properties.
Context {Lh : LegacyHash} {Jc : JsonCodec} {Jl : JsonLaws} {Ca : Casing} {Cr : Crypto}.

Lemma admin_kept (id : str) (u u0 : UserRecord) (users : gmap str UserRecord) :
  users !! id = Some u0 -> admin u = admin u0 ->
  has_admin users -> has_admin (<[id := u]> users).
Proof.
  intros Hid Hau (id' & u' & Hu' & Ha). destruct (decide (id = id')) as [->|Hne].
  - exists id', u. rewrite lookup_insert_eq. split; [done|]. congruence.
  - exists id', u'. by rewrite lookup_insert_ne.
Qed.

Lemma admin_fresh (id : str) (u : UserRecord) (users : gmap str UserRecord) :
  users !! id = None -> has_admin users -> has_admin (<[id := u]> users).
Proof.
  intros Hid (id' & u' & Hu' & Ha). exists id', u'. rewrite lookup_insert_ne; [done|congruence].
Qed.

Lemma effect_has_admin o users m :
  (forall id, o <> OpDelete id true) ->
  effect o users = Some m -> has_admin users -> has_admin m.
Proof.
  unfold effect, erase, provision_fn, set_password_fn, upgrade_password_hash_fn, set_admin_fn,
    set_disabled_fn, set_sharing_enabled_fn, bump_ver_fn, set_home_fn, delete_fn,
    unknown_user, fail.
  intros Hf He Ha. destruct o; [apply bind_Some in He as ([? ?] & _ & He)|..];
    simpl in He; repeat (case_match; simplify_eq/=); try done;
    try (by apply admin_fresh); try (by eapply admin_kept).
  - (* set_admin *)
    destruct flag; simpl in *.
    + eexists _, _. by rewrite lookup_insert_eq.
    + match goal with Hs : (_ <=? 1)%nat = false |- _ => apply Nat.leb_gt in Hs;
        destruct (other_admin users (trim id) Hs) as (id2 & u2 & Hne & Hu2 & Had) end.
      exists id2, u2. by rewrite lookup_insert_ne.
  - (* delete *)
    destruct force; [by edestruct Hf|].
    match goal with Hs : _ && negb false && _ = false |- _ =>
      rewrite andb_true_r in Hs; apply andb_false_iff in Hs as [Hs|Hs] end.
    + destruct Ha as (id2 & u2 & Hu2 & Had). exists id2, u2.
      rewrite lookup_delete_ne; [done|]. intros <-. congruence.
    + apply Nat.leb_gt in H0.
      destruct (other_admin users (trim id) H0) as (id2 & u2 & Hne & Hu2 & Had).
      exists id2, u2. by rewrite lookup_delete_ne.
Qed.

Lemma run_ops_reads (P : gmap str UserRecord -> Prop) os st users :
  (forall o users m, o ∈ os.*2 -> effect o users = Some m -> P users -> P m) ->
  reads st users -> P users -> exists users', reads (run_ops os st) users' /\ P users'.
Proof.
  revert st users. induction os as [|o os IH]; intros st users Hp Hr HP; [by exists users|].
  change (run_ops (o :: os) st) with (run_ops os (run_op o st)).
  destruct (run_op_effect o st users Hr) as [Hr'|(m & He & Hr')]; eapply IH; try done;
    try (intros o' u' m' Ho; apply Hp; set_solver). eapply Hp; [|done..]. set_solver.
Qed.

(** C32: on a readable store, [rmw] refines the closure on the abstract map of
    records: whatever calls fail, an error leaves the records as they were and a
    success stores exactly the closure's result; and on a healthy disk not held
    by another process the answer is the closure's. *)
Theorem rmw_refines {A} (f : closure A) st users :
  reads st users ->
  (forall a m, f users = Ok (a, m) -> users_ok m) ->
  (forall Rd : Redb,
     match rmw f st with
     | (Ok a, st') => exists m, f users = Ok (a, m) /\ reads st' m
     | (Err _, st') => reads st' users
     end) /\
  (foreign st = false ->
   fst (rmw (Rd:=healthy) f st) = match f users with Ok (a, _) => Ok a | Err e => Err e end).
Proof.
  intros Hr Hok. split; [|by intros; apply rmw_healthy]. intros Rd.
  destruct (rmw f st) as [r st'] eqn:Hw. pose proof (rmw_atomic f st users r st' Hr Hw) as Ha.
  destruct r as [a|e]; [|done]. destruct Ha as (m & Hm & Hst). exists m. split; [done|].
  apply Hst. by eapply Hok.
Qed.

(** A sequence of store operations without a forced deletion, each under any
    I/O faults, never takes the last administrator away. *)
Theorem last_admin_kept os st users :
  (forall id, OpDelete id true ∉ os.*2) ->
  reads st users -> has_admin users ->
  exists users', reads (run_ops os st) users' /\ has_admin users'.
Proof.
  intros Hf Hr Ha. apply (run_ops_reads has_admin os st users); try done.
  intros o u m Ho He. eapply effect_has_admin; [|done]. intros id ->. by apply (Hf id).
Qed.

(** The token version of a user only moves by one wrapping step per
    operation, and it does move whenever the operation changes the password
    (other than the in-place hash upgrade), changes the role, or disables the
    account. *)
Theorem version_bumps Rd o st users users' id u u' :
  reads st users -> reads (run_op (Rd, o) st) users' ->
  users !! id = Some u -> users' !! id = Some u' ->
  (ver u' = ver u \/ ver u' = wrapping_add_u64 (ver u) 1) /\
  ((hash u' <> hash u /\ (forall e r i p, o <> OpUpgrade e r i p)) \/ admin u' <> admin u
   \/ (disabled u' = true /\ disabled u = false) ->
   ver u' = wrapping_add_u64 (ver u) 1).
Proof. apply version_moves. Qed.

(** A stored record reads back as itself: every field of the derived
    encoding is what the lenient decoder looks for. *)
Theorem record_roundtrip u : user_ok u -> user_from_str (user_to_string u) = Ok u.
Proof. apply user_roundtrip. Qed.

Lemma load_users_reads {Rd : Redb} st users r st' :
  reads st users -> load_users st = (Ok r, st') -> r = users.
Proof.
  unfold load_users, reads. intros Hr Hl. destruct (file st) as [t|] eqn:Hf; simpl in Hr.
  - destruct (open_db st) as [[t'|e] st1] eqn:Ho; [|done].
    apply open_db_spec in Ho as (_ & _ & ->). rewrite Hf in Hl. simpl in Hl.
    injection Hl as Hl _. unfold read_table in Hl.
    destruct (redb BeginRead); simpl in Hl; [|done]. destruct t as [m|]; simpl in *.
    + destruct (redb OpenTable); simpl in Hl; [|done]. destruct (redb Iter); simpl in Hl; [|done].
      destruct (decode_pairs (rows m) ∅) eqn:Hd; simplify_eq/=.
      eapply represents_fun; [by apply decode_rows_ok|done].
    + simplify_eq. eapply represents_fun; [apply represents_empty|done].
  - simplify_eq. eapply represents_fun; [apply represents_empty|done].
Qed.

(** After a successful password write the trimmed password verifies against
    any view loaded from the store, for every spelling of the id that trims to
    the same one. *)
Theorem set_password_then_verify {Cl : CryptoLaws} (Rd Rd' : Redb) env rng rng' id id' p
    st st1 st2 users view :
  reads st users -> trim id' = trim id ->
  UserDb.set_password (Rd:=Rd) env rng id p st = (Ok tt, st1) ->
  UserDb.load (Rd:=Rd') st1 = (Ok view, st2) ->
  fst (UserDb.verify (Rd:=Rd') env rng' view id' (trim p) st2) = true.
Proof.
  intros Hr Hid Hset Hload. unfold UserDb.set_password in Hset.
  apply (rmw_atomic _ _ _ _ _ Hr) in Hset as (m & Hf & Hm).
  injection Hf as Hf. assert (users_ok m) as Hok.
  { apply (users_ok_effect (OpSetPassword env rng id p) users);
      [by eapply represents_ok|].
    unfold effect, erase, set_password_fn. simpl. by rewrite Hf. }
  unfold UserDb.load in Hload. destruct (load_users st1) as [r st1'] eqn:Hl.
  destruct r as [users'|]; [|done]. injection Hload as <- <-.
  apply (load_users_reads _ _ _ _ (Hm Hok)) in Hl as ->.
  unfold UserDb.verify. cbn [UserDb.users]. rewrite Hid.
  assert (m !! trim id ≫= hash = Some (hash_password env rng (trim p))) as ->.
  { rewrite <-Hf. destruct (users !! trim id); by rewrite lookup_insert_eq. }
  rewrite verify_hashed. destruct (true && _); [|done].
  by destruct (UserDb.upgrade_password_hash _ _ _ _ _).
Qed.

Lemma two_admins (users : gmap str UserRecord) (id id' : str) u u' :
  id <> id' -> users !! id = Some u -> admin u = true ->
  users !! id' = Some u' -> admin u' = true -> (size (admins users) <=? 1)%nat = false.
Proof.
  intros Hne Hu Ha Hu' Ha'. apply Nat.leb_gt.
  assert (admins users !! id = Some u) as H1 by (by apply map_lookup_filter_Some).
  assert (admins users !! id' = Some u') as H2 by (by apply map_lookup_filter_Some).
  rewrite <-(insert_delete_id _ _ _ H1), map_size_insert_None by apply lookup_delete_eq.
  assert (delete id (admins users) !! id' = Some u') as H3 by (by rewrite lookup_delete_ne).
  assert (size (delete id (admins users)) <> 0%nat).
  { intros Hz%map_size_empty_inv. by rewrite Hz in H3. }
  lia.
Qed.

(** The zero-admin checks of [set_admin] and [delete] count disabled
    administrators, so demoting or deleting the only enabled one succeeds when a
    disabled one exists, and leaves nobody able to administer. *)
Theorem demotion_can_leave_no_enabled_admin id id' st users u u' :
  reads st users -> foreign st = false ->
  trim id <> id' ->
  users !! trim id = Some u -> admin u = true ->
  users !! id' = Some u' -> admin u' = true ->
  (forall k v, users !! k = Some v -> k <> trim id -> admin v = true -> disabled v = true) ->
  (exists st' users', UserDb.set_admin (Rd:=healthy) id false st = (Ok true, st') /\
     reads st' users' /\ ~ has_enabled_admin users') /\
  (exists st' users', UserDb.delete (Rd:=healthy) id false st = (Ok true, st') /\
     reads st' users' /\ ~ has_enabled_admin users').
Proof.
  intros Hr Hfo Hne Hu Ha Hu' Ha' Hdis.
  pose proof (two_admins users (trim id) id' u u' Hne Hu Ha Hu' Ha') as Hsz.
  assert (forall (f : closure bool) m, f users = Ok (true, m) -> users_ok m ->
    exists st' users', rmw (Rd:=healthy) f st = (Ok true, st') /\ reads st' users' /\ users' = m)
    as Hrmw.
  { intros f m Hf Hm. pose proof (rmw_healthy f st users Hr Hfo) as Hh. rewrite Hf in Hh.
    destruct (rmw (Rd:=healthy) f st) as [r st'] eqn:Hw. simpl in Hh. subst r.
    pose proof (rmw_atomic (Rd:=healthy) f st users _ _ Hr Hw) as (m' & Hm' & Hst).
    rewrite Hf in Hm'. injection Hm' as <-. exists st', m. auto. }
  pose proof (represents_ok _ _ Hr) as Hok. split.
  - destruct (Hrmw (set_admin_fn (trim id) false)
      (<[trim id := bump (set_admin_flag false u)]> users)) as (st' & m & Hw & Hst & ->).
    + unfold set_admin_fn. by rewrite Hu, Ha, Hsz.
    + apply map_Forall_insert_2; [apply bump_ok|done].
    + eexists _, _. split; [exact Hw|]. split; [exact Hst|].
      intros (k & v & Hk & Hadm & Hen).
      apply lookup_insert_Some in Hk as [[<- <-]|[Hk Hv]]; [done|].
      specialize (Hdis k v Hv (not_eq_sym Hk) Hadm). congruence.
  - destruct (Hrmw (delete_fn (trim id) false) (delete (trim id) users))
      as (st' & m & Hw & Hst & ->).
    + unfold delete_fn. by rewrite Hu, Ha, Hsz.
    + by apply map_Forall_delete.
    + eexists _, _. split; [exact Hw|]. split; [exact Hst|].
      intros (k & v & Hk & Hadm & Hen). apply lookup_delete_Some in Hk as [Hk Hv].
      specialize (Hdis k v Hv (not_eq_sym Hk) Hadm). congruence.
Qed.
End Properties.

Lemma load_users_healthy {Lh : LegacyHash} {Jc : JsonCodec} {Jl : JsonLaws} st users :
  reads st users -> foreign st = false ->
  exists st', load_users (Rd:=healthy) st = (Ok users, st') /\ reads st' users /\ foreign st' = false.
Proof.
  intros Hr Hfo. destruct st as [p f c fo]. simpl in Hfo. subst fo.
  unfold reads in *. simpl in Hr.
  destruct f as [[m|]|]; unfold load_users, open_db; simpl in *.
  - destruct c; simpl; rewrite (represents_decode _ _ Hr); by eexists.
  - assert (users = ∅) as -> by (eapply represents_fun; [exact Hr|apply represents_empty]).
    destruct c; simpl; by eexists.
  - assert (users = ∅) as -> by (eapply represents_fun; [exact Hr|apply represents_empty]).
    by eexists.
Qed.

(** ** Witnesses *)
Module UserWitness.
Definition alice : str := lit "alice".
Definition bob : str := lit "bob".
Definition row (admin disabled : bool) : UserRecord :=
  mkUser (Some (lit "x")) admin None 0 disabled true.
(** One enabled and one disabled administrator. *)
Definition team : gmap str UserRecord := <[alice := row true false]> {[bob := row true true]}.
Definition st : Store := mkStore (lit "/d/auth/users.redb") (Some (Some (encoded team))) false false.

Lemma team_alice : team !! alice = Some (row true false).
Proof. apply lookup_insert_eq. Qed.
Lemma team_bob : team !! bob = Some (row true true).
Proof. unfold team. rewrite lookup_insert_ne by done. apply lookup_singleton_eq. Qed.
Lemma team_others k v : team !! k = Some v -> k <> alice -> k = bob /\ v = row true true.
Proof.
  unfold team. intros [[<- <-]|[Hk Hv]]%lookup_insert_Some Hne; [done|].
  by apply lookup_singleton_Some in Hv as [<- <-].
Qed.
Lemma team_ok : users_ok team.
Proof.
  intros k v Hv. destruct (decide (k = alice)) as [->|Hne].
  - rewrite team_alice in Hv. simplify_eq. by vm_compute.
  - apply team_others in Hv as [-> ->]; [by vm_compute|done].
Qed.
Lemma st_reads : reads st team.
Proof. apply encoded_represents, team_ok. Qed.
Lemma team_has_admin : has_admin team.
Proof. by exists alice, (row true false). Qed.

Definition env : option str := Some (lit "1").
Definition secret : str := lit " correct horse ".
Definition set_fn : closure unit := set_password_fn alice (hash_password env 0 (trim secret)).
Definition set_st : Store := snd (UserDb.set_password (Rd:=healthy) env 0 alice secret st).

Lemma set_ok : UserDb.set_password (Rd:=healthy) env 0 alice secret st = (Ok tt, set_st).
Proof.
  unfold set_st. pose proof (rmw_healthy set_fn st team st_reads eq_refl) as H.
  change (UserDb.set_password (Rd:=healthy) env 0 alice secret st)
    with (rmw (Rd:=healthy) set_fn st).
  destruct (rmw (Rd:=healthy) set_fn st) as [r st']. simpl in *. by rewrite H.
Qed.
Lemma set_load : exists view st2, UserDb.load (Rd:=healthy) set_st = (Ok view, st2).
Proof.
  pose proof (rmw_atomic (Rd:=healthy) set_fn st team _ _ st_reads set_ok) as (m & Hm & Hst).
  destruct (load_users_healthy set_st m) as (st' & Hl & _).
  - apply Hst. apply (users_ok_effect (OpSetPassword env 0 alice secret) team _ team_ok).
    unfold effect, erase. change (set_password_fn _ _) with set_fn. by rewrite Hm.
  - vm_compute. done.
  - unfold UserDb.load. rewrite Hl. by eexists _, _.
Qed.
End UserWitness.

Lemma record_roundtrip_witness :
  user_from_str (user_to_string (UserWitness.row true false)) = Ok (UserWitness.row true false).
Proof. apply record_roundtrip. by vm_compute. Defined.

Lemma rmw_refines_witness :
  fst (rmw (Rd:=healthy) (set_admin_fn UserWitness.alice true) UserWitness.st) = Ok false.
Proof.
  refine (eq_trans (proj2 (rmw_refines (set_admin_fn UserWitness.alice true)
    UserWitness.st UserWitness.team UserWitness.st_reads _) eq_refl) _).
  - unfold set_admin_fn. rewrite UserWitness.team_alice. intros a m [= <- <-].
    apply UserWitness.team_ok.
  - reflexivity.
Defined.

Lemma last_admin_kept_witness :
  exists users', reads (run_ops [(healthy, OpSetAdmin UserWitness.alice false);
                                 (healthy, OpDelete UserWitness.bob false)] UserWitness.st) users' /\
    has_admin users'.
Proof.
  refine (last_admin_kept _ _ UserWitness.team _ UserWitness.st_reads UserWitness.team_has_admin).
  intros id Hin. apply list_elem_of_In in Hin. simpl in Hin. destruct Hin as [H|[H|[]]]; discriminate H.
Defined.

Lemma version_bumps_witness : exists (m : gmap str UserRecord) u',
  m !! UserWitness.alice = Some u' /\
  (ver u' = 0 \/ ver u' = wrapping_add_u64 0 1).
Proof.
  destruct (run_op_effect (healthy, OpBumpVer UserWitness.alice) _ _ UserWitness.st_reads)
    as [Hr|(m & He & Hr)].
  - exists UserWitness.team, (UserWitness.row true false). split; [apply UserWitness.team_alice|].
    exact (proj1 (version_bumps healthy (OpBumpVer UserWitness.alice) UserWitness.st _ _
      UserWitness.alice _ _ UserWitness.st_reads Hr UserWitness.team_alice UserWitness.team_alice)).
  - change (effect (OpBumpVer UserWitness.alice) UserWitness.team = Some m) in He.
    unfold effect, erase, bump_ver_fn in He.
    change (trim UserWitness.alice) with UserWitness.alice in He.
    rewrite UserWitness.team_alice in He. injection He as He.
    assert (m !! UserWitness.alice = Some (bump (UserWitness.row true false))) as Hm
      by (rewrite <-He; apply lookup_insert_eq).
    eexists m, _. split; [exact Hm|].
    exact (proj1 (version_bumps healthy (OpBumpVer UserWitness.alice) UserWitness.st _ _
      UserWitness.alice _ _ UserWitness.st_reads Hr UserWitness.team_alice Hm)).
Defined.

Lemma set_password_then_verify_witness : exists view st2,
  fst (UserDb.verify (Rd:=healthy) UserWitness.env 0 view (lit " alice")
         (trim UserWitness.secret) st2) = true.
Proof.
  destruct UserWitness.set_load as (view & st2 & Hl). exists view, st2.
  exact (set_password_then_verify healthy healthy UserWitness.env 0 0 UserWitness.alice
    (lit " alice") UserWitness.secret UserWitness.st UserWitness.set_st st2 UserWitness.team view
    UserWitness.st_reads eq_refl UserWitness.set_ok Hl).
Defined.

Lemma demotion_can_leave_no_enabled_admin_witness :
  exists st' users', UserDb.set_admin (Rd:=healthy) UserWitness.alice false UserWitness.st
    = (Ok true, st') /\ reads st' users' /\ ~ has_enabled_admin users'.
Proof.
  refine (proj1 (demotion_can_leave_no_enabled_admin UserWitness.alice UserWitness.bob
    UserWitness.st UserWitness.team _ _ UserWitness.st_reads eq_refl _ UserWitness.team_alice
    eq_refl UserWitness.team_bob eq_refl _)).
  - discriminate.
  - intros k v Hv Hk _. by destruct (UserWitness.team_others k v Hv Hk) as [_ ->].
Defined.
