(* ===== verification/Revocations.v ===== *)
(** * Revocations: capabilities that must not work any more
      ([backend/src/auth/revocations.rs])

    A table of key to the JSON text of a [Revocation]; [revoke] also drops what
    has expired.  The clock reading of each call is its argument [now]. *)

From S2P Require Import Prelude Errors Redb.

Record Revocation := mkRevocation { expires_at : N }.

Definition session_key (jti : str) : str := lit "session:" ++ jti.
Definition invite_key (invite_id : str) : str := lit "invite:" ++ invite_id.
Definition share_key (share_id : str) : str := lit "share:" ++ share_id.

(** The derived serde implementations: an object with the field, or the
    one-element sequence serde also accepts for a struct. *)
Definition revocation_to_value (r : Revocation) : Json :=
  JObj [(lit "expires_at", JNum (Z.of_N (expires_at r)))].
Definition revocation_from_value (v : Json) : option Revocation :=
  mkRevocation <$> match v with
                   | JObj f => jget (lit "expires_at") f ≫= as_u64
                   | JArr [n] => as_u64 n
                   | _ => None
                   end.

Definition database (err : str) : AppError := from_err Database err.

Section Revocations.
Context {Rd : Redb} {Jc : JsonCodec}.

Definition revocation_from_str (s : str) : option Revocation :=
  json_parse s ≫= revocation_from_value.
Definition revocation_to_string (r : Revocation) : str := json_print (revocation_to_value r).

(** The rows [revoke] drops at [now]: those that parse and have expired. *)
Definition expired (now : N) (value : str) : bool :=
  is_some_and (fun r => expires_at r <=? now) (revocation_from_str value).

Definition revoke (now : N) (key : str) (until : N) (t : Table) : app_result unit * Table :=
  write_txn database t (fun table =>
    _ ← map_err database (redb Iter);
    let gone := (filter (fun kv => expired now kv.2 = true) (rows table)).*1 in
    table ← remove_all database gone table;
    table ← table_insert database key (revocation_to_string (mkRevocation until)) table;
    Ok (tt, table)).

Definition is_revoked (now : N) (key : str) (t : Table) : bool :=
  match redb BeginRead with
  | Err _ => true
  | Ok _ =>
      match t, redb OpenTable, redb (Get key) with
      | Some table, Ok _, Ok _ =>
          match table !! key with
          | Some value =>
              match revocation_from_str value with
              | Some revocation => now <? expires_at revocation
              | None => true
              end
          | None => false
          end
      | _, _, _ => false
      end
  end.

Definition clear (t : Table) : app_result unit * Table :=
  write_txn database t (fun table =>
    _ ← map_err database (redb Iter);
    table ← remove_all database (rows table).*1 table;
    Ok (tt, table)).
End Revocations.

(** ** Facts *)
Section Facts.
Context {Jc : JsonCodec} {Jl : JsonLaws}.

Lemma revocation_roundtrip r :
  expires_at r <= u64_max -> revocation_from_str (revocation_to_string r) = Some r.
Proof.
  destruct r as [n]. intros Hn. unfold revocation_from_str, revocation_to_string.
  rewrite json_parse_print. simpl in Hn.
  unfold revocation_to_value, revocation_from_value. cbn [mbind option_bind expires_at].
  change (jget _ [_]) with (Some (JNum (Z.of_N n))). cbn [mbind option_bind].
  by rewrite as_u64_JNum.
Qed.

Lemma revoke_rows {Rd : Redb} now key until t t' :
  revoke now key until t = (Ok tt, t') ->
  exists m, t' = Some m /\
    m !! key = Some (revocation_to_string (mkRevocation until)) /\
    forall k, k <> key ->
      m !! k = (v ← default ∅ t !! k; if expired now v then None else Some v).
Proof.
  intros Hr. apply write_txn_ok in Hr as (m & Hb & ->). exists m. split; [done|].
  apply bind_Ok in Hb as ([] & _ & Hb). apply bind_Ok in Hb as (t1 & Hrm & Hb).
  apply bind_Ok in Hb as (t2 & Hins & [= <-]). unfold table_insert in Hins.
  apply bind_Ok in Hins as ([] & _ & [= <-]). split; [apply lookup_insert_eq|].
  intros k Hk. rewrite lookup_insert_ne by done. rewrite (remove_all_ok _ _ _ _ Hrm k).
  destruct (default ∅ t !! k) as [v|] eqn:Hv; simpl; case_decide as Hin; try done.
  - apply list_elem_of_fmap in Hin as ([k' v'] & -> & [Hex Hin]%list_elem_of_filter).
    apply elem_of_rows in Hin. simplify_eq/=. by rewrite Hex.
  - destruct (expired now v) eqn:Hex; [|done]. destruct Hin.
    apply list_elem_of_fmap. exists (k, v). split; [done|].
    apply list_elem_of_filter. split; [done|]. by apply elem_of_rows.
Qed.

Lemma revoke_error {Rd : Redb} now key until t e t' :
  revoke now key until t = (Err e, t') -> t' = t.
Proof. apply write_txn_err. Qed.

(** A row under [key] that is in force until after [t]. *)
Definition holds_until (key : str) (t : N) (tb : Table) : Prop :=
  exists m v r, tb = Some m /\ m !! key = Some v /\ revocation_from_str v = Some r /\
    t < expires_at r.

Lemma holds_is_revoked key t tb :
  holds_until key t tb -> is_revoked (Rd:=healthy) t key tb = true.
Proof.
  intros (m & v & r & -> & Hv & Hr & Ht). unfold is_revoked. simpl.
  rewrite Hv, Hr. by apply N.ltb_lt.
Qed.

Lemma revoke_holds {Rd : Redb} now key k until t tb r tb' :
  holds_until key t tb -> now <= t -> until <= u64_max -> (k = key -> t < until) ->
  revoke now k until tb = (r, tb') -> holds_until key t tb'.
Proof.
  intros Hh Hnow Hmax Hk Hr. destruct r as [[]|e]; [|by apply revoke_error in Hr as ->].
  apply revoke_rows in Hr as (m' & -> & Hkey & Hrows).
  destruct (decide (k = key)) as [->|Hne].
  - eexists m', _, _. split; [done|]. split; [exact Hkey|].
    split; [by apply revocation_roundtrip|]. by apply Hk.
  - destruct Hh as (m & v & r & -> & Hv & Hr & Ht).
    exists m', v, r. split; [done|]. split; [|done].
    rewrite Hrows by done. simpl. rewrite Hv. simpl.
    unfold expired. rewrite Hr. simpl. destruct (_ <=? _) eqn:Hle; [|done]. to_prop. lia.
Qed.
End Facts.

(** ** Histories of revocations, each under its own fault oracle *)
Section History.
Context {Jc : JsonCodec} {Jl : JsonLaws}.

Record Call := mkCall { disk : Redb; at_time : N; call_key : str; call_until : N }.
Definition call (c : Call) (tb : Table) : Table :=
  snd (revoke (Rd:=disk c) (at_time c) (call_key c) (call_until c) tb).
Definition calls (cs : list Call) (tb : Table) : Table := fold_left (fun tb c => call c tb) cs tb.

(** Once [revoke] has answered success, the capability stays revoked up to
    its expiry, whatever other revocations follow (failing or not), as long as
    none of them files the same key under an earlier expiry. *)
Theorem revocation_holds (Rd : Redb) now key until tb tb' cs t :
  until <= u64_max -> t < until ->
  revoke now key until tb = (Ok tt, tb') ->
  Forall (fun c => at_time c <= t /\ call_until c <= u64_max /\
                   (call_key c = key -> t < call_until c)) cs ->
  is_revoked (Rd:=healthy) t key (calls cs tb') = true.
Proof.
  intros Hmax Ht Hr Hcs. apply holds_is_revoked.
  assert (holds_until key t tb') as Hh.
  { apply revoke_rows in Hr as (m & -> & Hkey & _). eexists m, _, _. split; [done|].
    split; [exact Hkey|]. by split; [by apply revocation_roundtrip|]. }
  clear Hr. revert tb' Hh. induction Hcs as [|c cs (Hc1 & Hc2 & Hc3) _ IH]; intros tb' Hh; [done|].
  simpl. apply IH. unfold call. destruct (revoke _ _ _ tb') as [r tb''] eqn:Hr.
  by eapply (revoke_holds (Rd:=disk c)).
Qed.

(** After a successful [revoke], every other row still in the table is one
    that was there before and either does not parse or has not expired: the set
    only holds what still matters. *)
Theorem revoke_keeps_live_rows (Rd : Redb) now key until tb tb' k v :
  revoke now key until tb = (Ok tt, tb') -> k <> key ->
  default ∅ tb' !! k = Some v <->
  default ∅ tb !! k = Some v /\
  (forall r, revocation_from_str v = Some r -> now < expires_at r).
Proof.
  intros Hr Hne. apply revoke_rows in Hr as (m & -> & _ & Hrows). simpl. rewrite Hrows by done.
  rewrite bind_Some. unfold expired. split.
  - intros (v' & Hv & Hif). destruct (is_some_and _ _) eqn:He; [done|].
    injection Hif as ->. split; [done|]. intros r Hp. rewrite Hp in He. simpl in He. by to_prop.
  - intros [Hv Hlive]. exists v. split; [done|]. destruct (revocation_from_str v) as [r|]; [|done].
    specialize (Hlive r eq_refl). simpl. destruct (_ <=? _) eqn:Hle; [to_prop; lia|done].
Qed.

(** An index database whose table or row cannot be read grants access: only
    a failing [begin_read] is treated as revoked. *)
Theorem is_revoked_fails_open (Rd : Redb) now key tb :
  (fault BeginRead <> None -> is_revoked now key tb = true) /\
  (fault BeginRead = None -> fault OpenTable <> None \/ fault (Get key) <> None ->
   is_revoked now key tb = false).
Proof.
  unfold is_revoked, redb. destruct (fault BeginRead); split; intros H; try done.
  destruct tb, (fault OpenTable), (fault (Get key)); naive_solver.
Qed.
End History.

(** ** Witnesses *)
Definition logout_key : str := session_key (lit "jti").
Definition revoked_once : Table := snd (revoke (Rd:=healthy) 10 logout_key 100 None).
Lemma revoked_once_ok : revoke (Rd:=healthy) 10 logout_key 100 None = (Ok tt, revoked_once).
Proof. reflexivity. Qed.
(** Reading the table fails. *)
Definition no_table : Redb :=
  {| fault op := match op with OpenTable => Some (lit "io") | _ => None end |}.

Lemma revocation_holds_witness :
  is_revoked (Rd:=healthy) 99 logout_key
    (calls [mkCall healthy 50 (share_key (lit "s")) 60; mkCall no_table 70 logout_key 200]
       revoked_once) = true.
Proof.
  refine (revocation_holds healthy 10 logout_key 100 None revoked_once _ 99 _ _ revoked_once_ok _).
  - by vm_compute.
  - reflexivity.
  - repeat constructor; simpl; (lia || discriminate).
Defined.

Lemma revoke_keeps_live_rows_witness :
  exists tb', revoke (Rd:=healthy) 10 logout_key 100 revoked_once = (Ok tt, tb') /\
    (default ∅ tb' !! share_key [] = Some [] <->
     default ∅ revoked_once !! share_key [] = Some [] /\
     (forall r, revocation_from_str [] = Some r -> 10 < expires_at r)).
Proof.
  exists (snd (revoke (Rd:=healthy) 10 logout_key 100 revoked_once)). split.
  - reflexivity.
  - refine (revoke_keeps_live_rows healthy 10 logout_key 100 revoked_once _ _ _ _ _);
      [reflexivity|discriminate].
Defined.

Lemma is_revoked_fails_open_witness : is_revoked (Rd:=no_table) 10 logout_key revoked_once = false.
Proof.
  refine (proj2 (is_revoked_fails_open no_table 10 logout_key revoked_once) eq_refl (or_introl _)).
  discriminate.
Defined.
