(* ===== verification/Invites.v ===== *)
(** * Invites: single-use registration tokens ([backend/src/auth/invites.rs])

    The [INVITES] table maps the hash of a token to the JSON text of an
    [InviteRecord]; [redeem_invite] also writes the user store, in a second
    transaction.  The token hash (blake3) and the text form of the random bytes
    (base64) are third-party functions, the class [TokenCodec]; the clock and the
    random source are arguments, each of which may fail. *)

From S2P Require Import Prelude Errors Redb Password UserStore.

Definition DEFAULT_EXPIRY_HOURS : Z := 7 * 24.
Definition MAX_EXPIRY_HOURS : Z := 365 * 24.
Definition PREFIX_LEN : nat := 8.
Definition REGISTRATION_CONFLICT_MESSAGE : str :=
  lit "registration conflict: the invite or the userId is already taken".

Module Invite.
Record InviteRecord := mkInvite {
  prefix : str;
  created_by : str;
  expires_at : option N;
  used_by : option str;
  username : option str
}.
#[export] Instance InviteRecord_eq_dec : EqDecision InviteRecord.
Proof. solve_decision. Defined.
Definition mark_used (id : str) (r : InviteRecord) : InviteRecord :=
  mkInvite (prefix r) (created_by r) (expires_at r) (Some id) (username r).
End Invite.
Import Invite.

Record InviteView := mkView { view_id : str; view_record : InviteRecord }.
Definition into_view (r : InviteRecord) (id : str) : InviteView := mkView id r.

Class TokenCodec := { blake3_hex : str -> str; base64_url : list N -> str }.
#[global] Instance plain_token : TokenCodec | 100 :=
  {| blake3_hex s := s; base64_url b := b |}.

(** ** The row format *)
Definition opt_u64_json (o : option N) : Json :=
  match o with Some n => JNum (Z.of_N n) | None => JNull end.
Definition invite_to_value (r : InviteRecord) : Json :=
  JObj [(lit "prefix", JStr (prefix r)); (lit "createdBy", JStr (created_by r));
        (lit "expiresAt", opt_u64_json (expires_at r)); (lit "usedBy", opt_str_json (used_by r));
        (lit "username", opt_str_json (username r))].

(** An [Option] field: absent and [null] are [None]. *)
Definition opt_field {A} (dec : Json -> option A) (v : option Json) : option (option A) :=
  match v with
  | None | Some JNull => Some None
  | Some j => Some <$> dec j
  end.
Definition invite_fields (p c e u n : option Json) : option InviteRecord :=
  p ← p ≫= as_str; c ← c ≫= as_str;
  e ← opt_field as_u64 e; u ← opt_field as_str u; n ← opt_field as_str n;
  Some (mkInvite p c e u n).
(** The derived [Deserialize], from an object or from serde's sequence form. *)
Definition invite_from_value (v : Json) : option InviteRecord :=
  match v with
  | JObj f =>
      invite_fields (jget (lit "prefix") f) (jget (lit "createdBy") f)
        (jget (lit "expiresAt") f) (jget (lit "usedBy") f) (jget (lit "username") f)
  | JArr [p; c; e; u] => invite_fields (Some p) (Some c) (Some e) (Some u) None
  | JArr [p; c; e; u; n] => invite_fields (Some p) (Some c) (Some e) (Some u) (Some n)
  | _ => None
  end.

Definition db_err (err : str) : AppError := from_err Database err.
Definition corrupt {A} : app_result A := Err (from_err Serialization (lit "corrupt invite row")).

Section Invites.
Context {Rd : Redb} {Jc : JsonCodec} {Lh : LegacyHash} {Ca : Casing} {Cr : Crypto}
  {Tc : TokenCodec}.

Definition invite_from_str (s : str) : option InviteRecord := json_parse s ≫= invite_from_value.
Definition invite_to_string (r : InviteRecord) : str := json_print (invite_to_value r).
Definition hash_token (token : str) : str := blake3_hex token.

(** [now_secs]: the clock reading, or its error. *)
Definition now_secs (clock : result str N) : app_result N := map_err (from_err Internal) clock.

Definition resolve_expiry (clock : result str N) (expires_in_hours : Z) : app_result (option N) :=
  if (expires_in_hours =? 0)%Z then Ok None
  else if (0 <? expires_in_hours)%Z then
    if (MAX_EXPIRY_HOURS <? expires_in_hours)%Z then
      fail InvalidInput (lit "expiresInHours must not exceed 8760 hours (one year)")
    else
      now ← now_secs clock;
      seconds ← ok_or (new_error InvalidInput (lit "expiresInHours overflows the deadline"))
        (s ← checked_mul_u64 (Z.to_N (Z.abs expires_in_hours)) 3600; checked_add_u64 now s);
      Ok (Some seconds)
  else fail InvalidInput
         (lit "expiresInHours must not be negative (0 means never expires)").

Definition create_invite_with_expiry (rng : result str (list N)) (created_by : str)
    (expires_at : option N) (username : option str) (t : Table)
  : app_result (str * InviteRecord) * Table :=
  let creator := trim created_by in
  if is_empty creator then (fail InvalidInput (lit "invite creator must not be empty"), t)
  else match (bytes ← map_err (from_err Internal) rng;
              let token := base64_url bytes in
              username ← match username with
                         | Some u =>
                             let trimmed := trim u in
                             if is_empty trimmed then Ok None
                             else Some <$> validate_user_id trimmed
                         | None => Ok None
                         end;
              Ok (token, mkInvite (take PREFIX_LEN token) creator expires_at None username)) with
  | Err e => (Err e, t)
  | Ok (token, record) =>
      let id := hash_token token in
      write_txn db_err t (fun table =>
        table ← table_insert db_err id (invite_to_string record) table;
        Ok ((token, record), table))
  end.

Definition create_invite (clock : result str N) (rng : result str (list N)) (created_by : str)
    (t : Table) : app_result (str * InviteRecord) * Table :=
  match resolve_expiry clock DEFAULT_EXPIRY_HOURS with
  | Err e => (Err e, t)
  | Ok expires_at => create_invite_with_expiry rng created_by expires_at None t
  end.

Fixpoint views_of (rows : list (str * str)) : app_result (list InviteView) :=
  match rows with
  | [] => Ok []
  | (key, value) :: rows' =>
      match invite_from_str value with
      | None => corrupt
      | Some record => vs ← views_of rows'; Ok (into_view record key :: vs)
      end
  end.
Definition view_le (a b : InviteView) : Prop := str_leb (view_id a) (view_id b) = true.
#[export] Instance view_le_dec a b : Decision (view_le a b).
Proof. unfold view_le. apply _. Defined.

Definition list_invites (t : Table) : app_result (list InviteView) :=
  table ← map_err db_err (read_table t);
  match table with
  | None => Ok []
  | Some m =>
      _ ← map_err db_err (redb Iter);
      views ← views_of (rows m);
      Ok (merge_sort view_le views)
  end.

Definition get_invite (invite_id : str) (t : Table) : app_result (option InviteRecord) :=
  table ← map_err db_err (read_table t);
  match table with
  | None => Ok None
  | Some m =>
      _ ← map_err db_err (redb (Get invite_id));
      match m !! invite_id with
      | Some value =>
          match invite_from_str value with Some r => Ok (Some r) | None => corrupt end
      | None => Ok None
      end
  end.

Definition revoke_invite (invite_id : str) (t : Table) : app_result bool * Table :=
  write_txn db_err t (fun table =>
    let removed := is_some (table !! invite_id) in
    table ← table_remove db_err invite_id table;
    Ok (removed, table)).

(** The scan over every row: the record found under the candidate hash, and
    whether any row matched. *)
Fixpoint scan (candidate : str) (rows : list (str * str)) (any_match : bool)
    (found : option InviteRecord) : app_result (bool * option InviteRecord) :=
  match rows with
  | [] => Ok (any_match, found)
  | (key, value) :: rows' =>
      let eq := str_eqb candidate key in
      let any_match := any_match || eq in
      if eq then
        match invite_from_str value with
        | Some r => scan candidate rows' any_match (Some r)
        | None => corrupt
        end
      else scan candidate rows' any_match found
  end.

(** The body of the first transaction; [taken] is what the second existence
    check reads from the user store. *)
Definition redeem_body (id candidate : str) (now : N) (taken : bool) (invites : gmap str str)
  : app_result (unit * gmap str str) :=
  _ ← map_err db_err (redb Iter);
  r ← scan candidate (rows invites) false None;
  let '(any_match, found) := r in
  if negb any_match then fail NotFound (lit "invite token is not valid")
  else
    record ← ok_or (new_error NotFound (lit "invite token is not valid")) found;
    if is_some_and (fun expected => negb (str_eqb id expected)) (username record) then
      fail PermissionDenied (lit "invite is not valid for this user")
    else if is_some (used_by record) then fail Conflict REGISTRATION_CONFLICT_MESSAGE
    else if is_some_and (fun deadline => deadline <=? now) (expires_at record) then
      fail PermissionDenied (lit "invite has expired")
    else if taken then fail Conflict REGISTRATION_CONFLICT_MESSAGE
    else
      let record := mark_used id record in
      invites ← table_insert db_err candidate (invite_to_string record) invites;
      Ok (tt, invites).

Definition enroll_fn (id hash : str) : closure unit := fun users =>
  match users !! id with
  | Some _ => fail Conflict REGISTRATION_CONFLICT_MESSAGE
  | None => Ok (tt, <[id := mkUser (Some hash) false None 0 false true]> users)
  end.

(** The two stores fail on their own: [Ru] is the user store's disk. *)
Definition redeem_invite (Ru : Redb) (env : option str) (rng : N) (clock : result str N)
    (user_id token canonical : str) (t : Table) (st : Store)
  : app_result unit * Table * Store :=
  match validate_user_id user_id with
  | Err e => (Err e, t, st)
  | Ok id =>
      let '(existing, st) := UserDb.read (Rd:=Ru) id st in
      match existing with
      | Some _ => (fail Conflict REGISTRATION_CONFLICT_MESSAGE, t, st)
      | None =>
          let candidate := hash_token token in
          match now_secs clock with
          | Err e => (Err e, t, st)
          | Ok now =>
              let '(again, st) := UserDb.read (Rd:=Ru) id st in
              let '(r, t) := write_txn (Rd:=Rd) db_err t (redeem_body id candidate now (is_some again)) in
              match r with
              | Err e => (Err e, t, st)
              | Ok _ =>
                  let hash := hash_password env rng canonical in
                  let '(w, st) := rmw (Rd:=Ru) (enroll_fn id hash) st in
                  (map_err (fun e => from_err IO (display_error e)) w, t, st)
              end
          end
      end
  end.
End Invites.

(** ** Facts *)
Section Facts.
Context {Jc : JsonCodec} {Jl : JsonLaws}.

Definition invite_ok (r : InviteRecord) : Prop :=
  match expires_at r with Some n => n <= u64_max | None => True end.

Lemma opt_field_str o : opt_field as_str (Some (opt_str_json o)) = Some o.
Proof. by destruct o. Qed.
Lemma opt_field_u64 o :
  (match o with Some n => n <= u64_max | None => True end) ->
  opt_field as_u64 (Some (opt_u64_json o)) = Some o.
Proof.
  destruct o as [n|]; [|done]. intros Hn. cbn [opt_u64_json opt_field].
  by rewrite as_u64_JNum.
Qed.

Lemma invite_roundtrip r : invite_ok r -> invite_from_str (invite_to_string r) = Some r.
Proof.
  destruct r as [p c e u n]. unfold invite_ok. cbn [expires_at]. intros He.
  unfold invite_from_str, invite_to_string. rewrite json_parse_print.
  cbn [mbind option_bind]. unfold invite_to_value, invite_from_value.
  set (obj := [_; _; _; _; _]).
  change (jget (lit "prefix") obj) with (Some (JStr p)).
  change (jget (lit "createdBy") obj) with (Some (JStr c)).
  change (jget (lit "expiresAt") obj) with (Some (opt_u64_json e)).
  change (jget (lit "usedBy") obj) with (Some (opt_str_json u)).
  change (jget (lit "username") obj) with (Some (opt_str_json n)).
  unfold invite_fields. cbn [mbind option_bind as_str].
  by rewrite opt_field_u64, !opt_field_str.
Qed.

Lemma invite_from_str_ok s r : invite_from_str s = Some r -> invite_ok r.
Proof.
  unfold invite_from_str. intros (v & _ & Hv)%bind_Some.
  assert (forall p c e u n, invite_fields p c e u n = Some r -> invite_ok r) as Hf.
  { intros p c e u n Hf. unfold invite_fields in Hf.
    apply bind_Some in Hf as (? & _ & Hf). apply bind_Some in Hf as (? & _ & Hf).
    apply bind_Some in Hf as (e' & He & Hf). apply bind_Some in Hf as (? & _ & Hf).
    apply bind_Some in Hf as (? & _ & [= <-]). unfold invite_ok; cbn [expires_at].
    destruct e' as [n'|]; [|done]. destruct e as [j|]; [|done].
    assert (Some <$> as_u64 j = Some (Some n')) as He' by (by destruct j).
    apply fmap_Some in He' as (? & He' & [= ->]). by eapply as_u64_max. }
  unfold invite_from_value in Hv. repeat case_match; try done; by eapply Hf.
Qed.

Lemma scan_spec candidate rs any found :
  NoDup rs.*1 ->
  scan candidate rs any found =
  match list_find (fun kv => kv.1 = candidate) rs with
  | None => Ok (any, found)
  | Some (_, (_, v)) =>
      match invite_from_str v with Some r => Ok (true, Some r) | None => corrupt end
  end.
Proof.
  revert any found. induction rs as [|[k v] rs IH]; intros any found Hnd; [done|].
  apply NoDup_cons in Hnd as [Hk Hnd]. cbn [scan list_find fst].
  unfold str_eqb. destruct (decide (k = candidate)) as [->|Hne].
  - rewrite bool_decide_eq_true_2 by done. destruct (invite_from_str v) as [r|]; [|done].
    rewrite (IH _ _ Hnd), orb_true_r.
    destruct (list_find _ rs) as [[i [k' v']]|] eqn:Hf; [|done].
    apply list_find_Some in Hf as (Hl & Hp & _). simpl in Hp. subst k'.
    destruct Hk. apply list_elem_of_fmap. exists (candidate, v'). split; [done|].
    by eapply list_elem_of_lookup_2.
  - rewrite bool_decide_eq_false_2 by congruence. rewrite orb_false_r, (IH _ _ Hnd).
    by destruct (list_find _ rs) as [[i [k' v']]|].
Qed.

(** The scan is a look-up under the candidate hash. *)
Lemma scan_rows (candidate : str) (m : gmap str str) :
  scan candidate (rows m) false None =
  match m !! candidate with
  | None => Ok (false, None)
  | Some v => match invite_from_str v with Some r => Ok (true, Some r) | None => corrupt end
  end.
Proof.
  rewrite scan_spec by apply rows_nodup.
  destruct (list_find _ (rows m)) as [[i [k v]]|] eqn:Hf.
  - apply list_find_Some in Hf as (Hl & Hp & _). simpl in Hp. subst k.
    apply list_elem_of_lookup_2, elem_of_rows in Hl. by rewrite Hl.
  - destruct (m !! candidate) as [v|] eqn:Hv; [|done].
    apply list_find_None in Hf. rewrite Forall_forall in Hf.
    destruct (Hf (candidate, v)); [by apply elem_of_rows|done].
Qed.

(** The stored invite under a hash. *)
Definition stored (h : str) (t : Table) : option InviteRecord :=
  default ∅ t !! h ≫= invite_from_str.

Lemma redeem_body_ok {Rd : Redb} id candidate now taken m m' :
  redeem_body id candidate now taken m = Ok (tt, m') ->
  exists r, stored candidate (Some m) = Some r /\ used_by r = None /\ taken = false /\
    (forall e, username r = Some e -> id = e) /\
    (forall d, Invite.expires_at r = Some d -> now < d) /\
    m' = <[candidate := invite_to_string (mark_used id r)]> m.
Proof.
  unfold redeem_body, stored, fail. intros Hb. apply bind_Ok in Hb as ([] & _ & Hb).
  rewrite scan_rows in Hb. simpl. destruct (m !! candidate) as [v|]; [|done].
  simpl in *. destruct (invite_from_str v) as [r|]; [|done]. simpl in Hb.
  destruct (is_some_and _ (username r)) eqn:Hu; [done|].
  destruct (used_by r) eqn:Hused; simpl in Hb; [done|].
  destruct (is_some_and _ (expires_at r)) eqn:He; [done|]. destruct taken; [done|].
  apply bind_Ok in Hb as (m1 & Hi & [= <-]). unfold table_insert in Hi.
  apply bind_Ok in Hi as ([] & _ & [= <-]). exists r. split_and!; try done.
  - intros e Hn. rewrite Hn in Hu. simpl in Hu. by to_prop.
  - intros d Hd. rewrite Hd in He. simpl in He. by to_prop.
Qed.
End Facts.

(** ** Histories over the two stores *)
Section Claims.
Context {Jc : JsonCodec} {Jl : JsonLaws} {Lh : LegacyHash} {Ca : Casing} {Cr : Crypto}
  {Tc : TokenCodec}.

Lemma read_reads {Rd : Redb} id st users o st' :
  reads st users -> UserDb.read id st = (o, st') ->
  reads st' users /\ (o = None \/ o = users !! trim id).
Proof.
  unfold UserDb.read. intros Hr Hrd. destruct (load_users st) as [r st1] eqn:Hl.
  injection Hrd as <- <-. split.
  - unfold load_users in Hl. destruct (file st) eqn:Hf; [|by injection Hl as <- <-].
    destruct (open_db st) as [[t'|e] st2] eqn:Ho; injection Hl as <- <-;
      apply open_db_spec in Ho as (Hd & _ & _); unfold reads; by rewrite Hd.
  - destruct r as [us|e]; [|by left]. apply (load_users_reads _ _ _ _ Hr) in Hl as ->. by right.
Qed.

(** Every branch of [redeem_invite]. *)
Variant redeem_outcome (env : option str) (rng : N) (clock : result str N)
    (user_id token canonical : str) (t : Table) (users : gmap str UserRecord)
  : app_result unit -> Table -> gmap str UserRecord -> Prop :=
| redeem_ok id now r m :
    validate_user_id user_id = Ok id -> clock = Ok now -> t = Some m \/ (t = None /\ m = ∅) ->
    stored (hash_token token) t = Some r -> used_by r = None ->
    (forall e, username r = Some e -> id = e) ->
    (forall d, Invite.expires_at r = Some d -> now < d) ->
    users !! id = None ->
    redeem_outcome env rng clock user_id token canonical t users (Ok tt)
      (Some (<[hash_token token := invite_to_string (mark_used id r)]> m))
      (<[id := mkUser (Some (hash_password env rng canonical)) false None 0 false true]> users)
| redeem_refused e :
    redeem_outcome env rng clock user_id token canonical t users (Err e) t users
| redeem_half id now r m e :
    validate_user_id user_id = Ok id -> clock = Ok now -> t = Some m \/ (t = None /\ m = ∅) ->
    stored (hash_token token) t = Some r -> used_by r = None ->
    redeem_outcome env rng clock user_id token canonical t users (Err e)
      (Some (<[hash_token token := invite_to_string (mark_used id r)]> m)) users.

Lemma redeem_cases {Rd : Redb} Ru env rng clock user_id token canonical t st users r t' st' :
  reads st users ->
  redeem_invite (Rd:=Rd) Ru env rng clock user_id token canonical t st = (r, t', st') ->
  exists users', reads st' users' /\
    redeem_outcome env rng clock user_id token canonical t users r t' users'.
Proof.
  unfold redeem_invite. intros Hr Hx.
  destruct (validate_user_id user_id) as [id|e] eqn:Hid;
    [|injection Hx as <- <- <-; eauto using redeem_refused].
  destruct (UserDb.read id st) as [o st1] eqn:Hrd.
  apply (read_reads _ _ _ _ _ Hr) in Hrd as [Hr1 _].
  destruct o as [u|]; [injection Hx as <- <- <-; eauto using redeem_refused|].
  destruct (now_secs clock) as [now|e] eqn:Hnow;
    [|injection Hx as <- <- <-; eauto using redeem_refused].
  destruct (UserDb.read id st1) as [o st2] eqn:Hrd2.
  apply (read_reads _ _ _ _ _ Hr1) in Hrd2 as [Hr2 _].
  destruct (write_txn _ _ _) as [[[]|e] t1] eqn:Hw;
    [|apply write_txn_err in Hw as ->; injection Hx as <- <- <-; eauto using redeem_refused].
  destruct (rmw _ st2) as [w st3] eqn:Hm. injection Hx as <- <- <-.
  apply write_txn_ok in Hw as (m & Hb & ->).
  apply redeem_body_ok in Hb as (rec & Hst & Hused & _ & Hname & Hexp & ->).
  assert (clock = Ok now) as Hclk by (destruct clock; simpl in Hnow; congruence).
  assert (t = Some (default ∅ t) \/ (t = None /\ default ∅ t = ∅)) as Ht
    by (destruct t; auto).
  pose proof (rmw_atomic _ _ _ _ _ Hr2 Hm) as Ha. destruct w as [[]|e].
  - destruct Ha as (m' & Hf & Ha). unfold enroll_fn in Hf.
    destruct (users !! id) eqn:Hu; [done|]. injection Hf as <-.
    eexists. split; [apply Ha|].
    + apply map_Forall_insert_2; [|by eapply represents_ok]. unfold user_ok, u64_max; simpl; lia.
    + by eapply redeem_ok.
  - exists users. split; [done|]. by eapply redeem_half.
Qed.

(** A redemption that succeeds found the invite under the token's hash,
    unused, not expired at the clock reading and not bound to somebody else; the
    id was free; and all it does is mark that invite used and enroll that id as
    an enabled, non-administrator user with the given password. *)
Theorem redeem_success (Rd Ru : Redb) env rng clock user_id token canonical t st users t' st' :
  reads st users ->
  redeem_invite (Rd:=Rd) Ru env rng clock user_id token canonical t st = (Ok tt, t', st') ->
  exists id now r,
    validate_user_id user_id = Ok id /\ clock = Ok now /\
    stored (hash_token token) t = Some r /\ used_by r = None /\
    (forall e, username r = Some e -> id = e) /\
    (forall d, Invite.expires_at r = Some d -> now < d) /\
    users !! id = None /\
    stored (hash_token token) t' = Some (mark_used id r) /\
    (forall h, h <> hash_token token -> default ∅ t' !! h = default ∅ t !! h) /\
    reads st' (<[id := mkUser (Some (hash_password env rng canonical)) false None 0 false true]> users).
Proof.
  intros Hr Hx. destruct (redeem_cases _ _ _ _ _ _ _ _ _ _ _ _ _ Hr Hx) as (users' & Hr' & Ho).
  inversion Ho as [id now r m Hid Hclk Ht Hst Hused Hname Hexp Hfree| |]; subst.
  exists id, now, r. split_and!; try done.
  - unfold stored. simpl. rewrite lookup_insert_eq. simpl. apply invite_roundtrip.
    unfold stored in Hst. apply bind_Some in Hst as (v & _ & Hv).
    by apply invite_from_str_ok in Hv.
  - intros h Hh. simpl. rewrite lookup_insert_ne by done. by destruct Ht as [-> | [-> ->]].
Qed.

(** A redemption that fails leaves every user record as it was: whatever
    call failed and wherever, no half-made account can log in. *)
Theorem redeem_fail_safe (Rd Ru : Redb) env rng clock user_id token canonical t st users e t' st' :
  reads st users ->
  redeem_invite (Rd:=Rd) Ru env rng clock user_id token canonical t st = (Err e, t', st') ->
  reads st' users /\
  (t' = t \/ exists id r, validate_user_id user_id = Ok id /\
     stored (hash_token token) t = Some r /\ stored (hash_token token) t' = Some (mark_used id r)).
Proof.
  intros Hr Hx. destruct (redeem_cases _ _ _ _ _ _ _ _ _ _ _ _ _ Hr Hx) as (users' & Hr' & Ho).
  inversion Ho as [| |id now r m e' Hid Hclk Ht Hst Hused]; subst; [by auto|].
  split; [done|]. right. exists id, r. split_and!; try done.
  unfold stored. simpl. rewrite lookup_insert_eq. simpl. apply invite_roundtrip.
  unfold stored in Hst. apply bind_Some in Hst as (v & _ & Hv). by apply invite_from_str_ok in Hv.
Qed.

(** What can happen to the invites table and the user store. *)
Inductive Step :=
| SCreate (clock : result str N) (rng : result str (list N)) (by_ : str) (expires : option N)
    (username : option str)
| SRevoke (invite_id : str)
| SRedeem (env : option str) (rng : N) (clock : result str N) (user_id token canonical : str)
| SUsers (o : Op).

(** The disks of the index and of the user store at a step. *)
Definition step (s : (Redb * Redb) * Step) (w : Table * Store) : Table * Store :=
  let Rd := fst (fst s) in
  let Ru := snd (fst s) in
  match snd s with
  | SCreate _ rng by_ ex un => (snd (create_invite_with_expiry (Rd:=Rd) rng by_ ex un (fst w)), snd w)
  | SRevoke id => (snd (revoke_invite (Rd:=Rd) id (fst w)), snd w)
  | SRedeem env rng clk u tok c =>
      let '(_, t, st) := redeem_invite (Rd:=Rd) Ru env rng clk u tok c (fst w) (snd w) in (t, st)
  | SUsers o => (fst w, run_op (Ru, o) (snd w))
  end.
Definition steps (ss : list ((Redb * Redb) * Step)) (w : Table * Store) : Table * Store :=
  fold_left (fun w s => step s w) ss w.

(** The row under [h] is gone, unreadable, or used. *)
Definition spent (h : str) (t : Table) : Prop :=
  forall r, stored h t = Some r -> used_by r <> None.

(** The step does not draw a fresh token with hash [h]. *)
Definition fresh_for (h : str) (s : Step) : Prop :=
  match s with SCreate _ (Ok bytes) _ _ _ => hash_token (base64_url bytes) <> h | _ => True end.

Lemma stored_insert (h h' v : str) (t : Table) (m : gmap str str) :
  t = Some m \/ (t = None /\ m = ∅) -> h <> h' -> stored h (Some (<[h' := v]> m)) = stored h t.
Proof.
  intros Ht Hne. unfold stored. simpl. rewrite lookup_insert_ne by done.
  by destruct Ht as [-> | [-> ->]].
Qed.

Lemma step_spent (h : str) s t st users t' st' :
  fresh_for h (snd s) -> reads st users -> spent h t -> step s (t, st) = (t', st') ->
  spent h t' /\ exists users', reads st' users'.
Proof.
  destruct s as [[Rd Ru] [clk rng by_ ex un|id|env rng clk u tok c|o]]; intros Hf Hr Hs Hx;
    unfold step in Hx; cbn [fst snd] in Hx; simpl in Hf.
  - injection Hx as <- <-. split; [|by exists users].
    unfold create_invite_with_expiry. destruct (is_empty _); [done|].
    destruct rng as [bytes|]; [|done]. cbn [map_err mbind result_bind].
    match goal with |- context [match ?x with _ => _ end] => destruct x as [[token rec]|e] eqn:Hv end;
      [|done].
    apply bind_Ok in Hv as (un' & _ & [= <- <-]).
    destruct (write_txn _ _ _) as [[a|e] t'] eqn:Hw; simpl; [|by apply write_txn_err in Hw as ->].
    apply write_txn_ok in Hw as (m & Hb & ->). apply bind_Ok in Hb as (m1 & Hi & [= _ <-]).
    unfold table_insert in Hi. apply bind_Ok in Hi as ([] & _ & [= <-]).
    unfold spent. rewrite (stored_insert _ _ _ t); [done| |congruence]. destruct t; auto.
  - injection Hx as <- <-. split; [|by exists users]. unfold revoke_invite.
    destruct (write_txn _ _ _) as [[a|e] t'] eqn:Hw; simpl; [|by apply write_txn_err in Hw as ->].
    apply write_txn_ok in Hw as (m & Hb & ->). apply bind_Ok in Hb as (m1 & Hi & [= _ <-]).
    unfold table_remove in Hi. apply bind_Ok in Hi as ([] & _ & [= <-]).
    intros r Hst. unfold stored in Hst. simpl in Hst.
    apply bind_Some in Hst as (v & Hv & Hp). apply lookup_delete_Some in Hv as [_ Hv].
    apply Hs. unfold stored. by rewrite Hv.
  - destruct (redeem_invite _ _ _ _ _ _ _ _ _) as [[x t1] st1] eqn:Hrd. injection Hx as <- <-.
    destruct (redeem_cases _ _ _ _ _ _ _ _ _ _ _ _ _ Hr Hrd) as (users' & Hr' & Ho).
    split; [|by exists users'].
    inversion Ho as [i now rec m ? ? Ht Hst|e|i now rec m e ? ? Ht Hst]; subst; try done;
      (destruct (decide (h = hash_token tok)) as [->|Hne];
        [intros r Hst'; unfold stored in Hst'; simpl in Hst'; rewrite lookup_insert_eq in Hst';
         simpl in Hst'; rewrite invite_roundtrip in Hst';
         [injection Hst' as <-; done|unfold stored in Hst; apply bind_Some in Hst as (v & _ & Hv);
          by apply invite_from_str_ok in Hv]
        |unfold spent; by rewrite (stored_insert _ _ _ t)]).
  - injection Hx as <- <-. split; [done|].
    destruct (run_op_effect (Ru, o) st users Hr) as [|(m & _ & ?)]; eauto.
Qed.

(** An invite is redeemed at most once: after a successful redemption, no
    later redemption of the same token succeeds, whoever tries, whenever, and
    whatever is created, revoked, redeemed or done to the users in between, as
    long as no fresh token has the same hash. *)
Theorem invite_single_use (Rd Ru Rd' Ru' : Redb) env rng clock user_id token canonical t st users t1 st1
    ss env' rng' clock' user_id' canonical' :
  reads st users ->
  redeem_invite (Rd:=Rd) Ru env rng clock user_id token canonical t st = (Ok tt, t1, st1) ->
  Forall (fun s => fresh_for (hash_token token) (snd s)) ss ->
  let w := steps ss (t1, st1) in
  is_ok (fst (fst (redeem_invite (Rd:=Rd') Ru' env' rng' clock' user_id' token canonical'
                     (fst w) (snd w)))) = false.
Proof.
  intros Hr Hx Hss. destruct (redeem_cases _ _ _ _ _ _ _ _ _ _ _ _ _ Hr Hx) as (users1 & Hr1 & Ho).
  assert (spent (hash_token token) t1) as Hs1.
  { inversion Ho as [i now r m ? ? ? Hst| |]; subst. intros r' Hst'.
    unfold stored in Hst'; simpl in Hst'; rewrite lookup_insert_eq in Hst'; simpl in Hst'.
    rewrite invite_roundtrip in Hst'; [by injection Hst' as <-|].
    unfold stored in Hst; apply bind_Some in Hst as (v & _ & Hv). by apply invite_from_str_ok in Hv. }
  clear Hx Ho Hr. revert t1 st1 users1 Hr1 Hs1.
  induction Hss as [|s ss Hs _ IH]; intros t1 st1 users1 Hr1 Hs1 w.
  - destruct (redeem_invite (Rd:=Rd') _ _ _ _ _ _ _ _ _) as [[x t2] st2] eqn:Hx.
    destruct (redeem_cases _ _ _ _ _ _ _ _ _ _ _ _ _ Hr1 Hx) as (users2 & _ & Ho).
    destruct x as [[]|]; [|done]. inversion Ho as [i now r m ? ? ? Hst Hun| |]; subst.
    by destruct (Hs1 r Hst).
  - unfold w. simpl. destruct (step s (t1, st1)) as [t2 st2] eqn:Hst.
    destruct (step_spent _ _ _ _ _ _ _ Hs Hr1 Hs1 Hst) as [Hs2 [users2 Hr2]].
    by eapply IH.
Qed.
End Claims.

Section Deadlines.
(** [resolve_expiry] is exact: 0 never expires, 1 to 8760 hours land on that
    deadline without wrapping, and everything else is an invalid input. *)
Theorem resolve_expiry_spec now hours :
  match resolve_expiry (Ok now) hours with
  | Ok None => hours = 0%Z
  | Ok (Some d) => (0 < hours <= 8760)%Z /\ d = now + 3600 * Z.to_N hours /\ d <= u64_max
  | Err e =>
      kind e = InvalidInput /\
      ((hours < 0)%Z \/ (8760 < hours)%Z \/ u64_max < now + 3600 * Z.to_N hours)
  end.
Proof.
  unfold resolve_expiry, now_secs, MAX_EXPIRY_HOURS.
  destruct (hours =? 0)%Z eqn:H0; [by apply Z.eqb_eq in H0|]. apply Z.eqb_neq in H0.
  destruct (0 <? hours)%Z eqn:Hpos; [apply Z.ltb_lt in Hpos|apply Z.ltb_ge in Hpos]; cycle 1.
  { split; [done|]. left. lia. }
  change (365 * 24)%Z with 8760%Z.
  destruct (8760 <? hours)%Z eqn:Hmax; [apply Z.ltb_lt in Hmax|apply Z.ltb_ge in Hmax].
  { split; [done|]. right. left. lia. }
  assert (Z.to_N (Z.abs hours) = Z.to_N hours) as -> by (f_equal; lia).
  cbn [map_err mbind result_bind]. unfold checked_mul_u64, checked_add_u64.
  rewrite (proj2 (N.leb_le (Z.to_N hours * 3600) u64_max)) by (unfold u64_max; lia).
  cbn [mbind option_bind]. rewrite (N.mul_comm (Z.to_N hours) 3600).
  destruct (now + 3600 * Z.to_N hours <=? u64_max) eqn:Hn; to_prop;
    cbn [ok_or mbind result_bind]; split_and!; auto; lia.
Qed.

Context {Jc : JsonCodec} {Jl : JsonLaws} {Lh : LegacyHash} {Ca : Casing} {Cr : Crypto}
  {Tc : TokenCodec}.

(** When another process holds the user store, redeeming a valid invite
    fails and still consumes it: the existence checks read the locked store as
    empty, and the identity write comes after the invite's commit. *)
Theorem locked_store_burns_invite env rng now user_id id token canonical t st r :
  validate_user_id user_id = Ok id -> cached st = false -> foreign st = true ->
  stored (hash_token token) t = Some r -> used_by r = None -> username r = None ->
  (forall d, Invite.expires_at r = Some d -> now < d) ->
  exists e t', redeem_invite (Rd:=healthy) healthy env rng (Ok now) user_id token canonical t st
                 = (Err e, t', st) /\
    stored (hash_token token) t' = Some (mark_used id r).
Proof.
  intros Hid Hc Hf Hst Hun Hname Hexp. unfold redeem_invite. rewrite Hid.
  assert (UserDb.read (Rd:=healthy) id st = (None, st)) as Hrd.
  { unfold UserDb.read, load_users, open_db. rewrite Hc, Hf.
    destruct (file st); simpl; [done|]. by rewrite lookup_empty. }
  rewrite Hrd. cbn [now_secs map_err]. rewrite Hrd, write_txn_healthy.
  unfold redeem_body. cbn [redb healthy fault map_err mbind result_bind].
  rewrite scan_rows. unfold stored in Hst. apply bind_Some in Hst as (v & Hv & Hp).
  rewrite Hv, Hp. cbn [mbind result_bind negb ok_or]. rewrite Hname, Hun. cbn [is_some_and is_some].
  assert (is_some_and (fun deadline => deadline <=? now) (Invite.expires_at r) = false) as ->.
  { destruct (Invite.expires_at r) as [d|]; [|done]. simpl. apply N.leb_gt. by apply Hexp. }
  unfold table_insert. cbn [redb healthy fault map_err mbind result_bind is_some].
  unfold rmw, open_db. rewrite Hc, Hf. cbn [redb healthy fault].
  eexists _, _. split; [reflexivity|]. unfold stored. simpl. rewrite lookup_insert_eq. simpl.
  apply invite_roundtrip. by apply invite_from_str_ok in Hp.
Qed.
End Deadlines.

(** ** Witnesses *)
Module InviteWitness.
Definition token : str := lit "token-of-the-invite".
Definition record : InviteRecord := mkInvite (take 8 token) (lit "alice") (Some 1000) None None.
Definition table : Table := Some {[ hash_token token := invite_to_string record ]}.
Definition carol : str := lit "carol".
Definition pw : str := lit "correct horse".
Definition st : Store := mkStore (lit "/d/auth/users.redb") None false false.

Lemma table_stored : stored (hash_token token) table = Some record.
Proof.
  unfold stored, table. change (default ∅ (Some ?m)) with m. rewrite lookup_singleton_eq.
  change (Some ?x ≫= invite_from_str) with (invite_from_str x). apply invite_roundtrip. unfold invite_ok, u64_max; simpl; lia.
Qed.
Lemma empty_reads : reads st ∅.
Proof. apply represents_empty. Qed.

Definition redeemed : app_result unit * Table * Store :=
  redeem_invite (Rd:=healthy) healthy None 0 (Ok 500) carol token pw table st.
Definition table' : Table := snd (fst redeemed).
Definition st' : Store := snd redeemed.

Lemma redeemed_ok : redeem_invite (Rd:=healthy) healthy None 0 (Ok 500) carol token pw table st
  = (Ok tt, table', st').
Proof.
  unfold table', st'. enough (fst (fst redeemed) = Ok tt) as H
    by (change (redeem_invite _ _ _ _ _ _ _ _ _) with redeemed;
        destruct redeemed as [[r t] s]; simpl in *; by rewrite H).
  unfold redeemed, redeem_invite. change (validate_user_id carol) with (@Ok AppError _ carol).
  cbv beta iota.
  assert (UserDb.read (Rd:=healthy) carol st = (None, st)) as Hrd by reflexivity.
  rewrite Hrd. cbn [now_secs map_err]. rewrite Hrd, write_txn_healthy.
  assert (redeem_body (Rd:=healthy) carol (hash_token token) 500 false (default ∅ table)
    = Ok (tt, <[hash_token token := invite_to_string (mark_used carol record)]> (default ∅ table)))
    as Hb.
  { unfold redeem_body. cbn [redb healthy fault map_err mbind result_bind].
    rewrite scan_rows. pose proof table_stored as Hs. unfold stored in Hs.
    apply bind_Some in Hs as (v & Hv & Hp). by rewrite Hv, Hp. }
  change (is_some None) with false. rewrite Hb.
  pose proof (rmw_healthy (enroll_fn carol (hash_password None 0 pw)) st ∅ empty_reads eq_refl) as Hw.
  destruct (rmw _ st) as [w s]. cbn [fst] in Hw |- *. by rewrite Hw.
Qed.

(** The same store held by another process. *)
Definition locked : Store := mkStore (lit "/d/auth/users.redb") None false true.
End InviteWitness.

Lemma redeem_success_witness : exists users', reads InviteWitness.st' users'.
Proof.
  pose proof (redeem_success healthy healthy None 0 (Ok 500) InviteWitness.carol InviteWitness.token
    InviteWitness.pw InviteWitness.table InviteWitness.st ∅ _ _ InviteWitness.empty_reads
    InviteWitness.redeemed_ok) as (id & now & r & H).
  eexists. apply H.
Defined.

Lemma locked_store_burns_invite_witness : exists e t',
  redeem_invite (Rd:=healthy) healthy None 0 (Ok 500) InviteWitness.carol InviteWitness.token
    InviteWitness.pw InviteWitness.table InviteWitness.locked
    = (Err e, t', InviteWitness.locked) /\
  stored (hash_token InviteWitness.token) t'
    = Some (mark_used InviteWitness.carol InviteWitness.record).
Proof.
  refine (locked_store_burns_invite None 0 500 InviteWitness.carol InviteWitness.carol
    InviteWitness.token InviteWitness.pw InviteWitness.table InviteWitness.locked
    InviteWitness.record _ eq_refl eq_refl InviteWitness.table_stored eq_refl eq_refl _).
  - reflexivity.
  - intros d [= <-]. reflexivity.
Defined.

Lemma redeem_fail_safe_witness : exists t' st' e,
  redeem_invite (Rd:=healthy) healthy None 0 (Err (lit "clock")) InviteWitness.carol InviteWitness.token
    InviteWitness.pw InviteWitness.table InviteWitness.st = (Err e, t', st') /\ reads st' ∅.
Proof.
  do 3 eexists. split; [reflexivity|].
  refine (proj1 (redeem_fail_safe healthy healthy None 0 (Err (lit "clock")) InviteWitness.carol
    InviteWitness.token InviteWitness.pw InviteWitness.table InviteWitness.st ∅ _ _ _
    InviteWitness.empty_reads _)).
  reflexivity.
Defined.

Lemma invite_single_use_witness :
  let w := steps [((healthy, healthy), SRevoke (lit "other")); ((healthy, healthy), SUsers (OpDelete InviteWitness.carol true))]
             (InviteWitness.table', InviteWitness.st') in
  is_ok (fst (fst (redeem_invite (Rd:=healthy) healthy None 1 (Ok 600) InviteWitness.carol
    InviteWitness.token InviteWitness.pw (fst w) (snd w)))) = false.
Proof.
  refine (invite_single_use healthy healthy healthy healthy None 0 (Ok 500) InviteWitness.carol InviteWitness.token
    InviteWitness.pw InviteWitness.table InviteWitness.st ∅ InviteWitness.table' InviteWitness.st'
    _ None 1 (Ok 600) InviteWitness.carol InviteWitness.pw InviteWitness.empty_reads
    InviteWitness.redeemed_ok _).
  repeat constructor.
Defined.
