(* ===== verification/Paths.v ===== *)
(** * Paths: roots, classification and the write gate
      ([backend/src/storage/files.rs])

    A path is its sequence of components, which is how [std::path] compares,
    joins and strips paths; [components] parses a Unix path.  The file system is
    the class [Fs] ([fs::canonicalize] and [Path::exists]); its laws say what
    canonicalization promises.  NFKC normalization is third-party ([Nfkc]). *)

From S2P Require Import Prelude Errors UserStore.

Inductive Component := RootDir | CurDir | ParentDir | Normal (s : str).
#[export] Instance Component_eq_dec : EqDecision Component.
Proof. solve_decision. Defined.
Abbreviation Path := (list Component).

(** [Path::components] of a Unix path: empty pieces and [.] vanish, except a
    leading [.] of a relative path. *)
Definition component_of (piece : str) : list Component :=
  if is_empty piece then []
  else if str_eqb piece (lit ".") then []
  else if str_eqb piece (lit "..") then [ParentDir]
  else [Normal piece].
Definition components (s : str) : Path :=
  match split_on 47 s with
  | first :: rest =>
      (if starts_with (lit "/") s then [RootDir]
       else if str_eqb first (lit ".") then [CurDir] else component_of first)
      ++ (rest ≫= component_of)
  | [] => []
  end.

(** [PathBuf::push] and [Path::join]: an absolute argument replaces the path, and
    a leading [.] of a relative one vanishes behind a non-empty path. *)
Definition push (out p : Path) : Path :=
  match p with
  | RootDir :: _ => p
  | CurDir :: p' => match out with [] => p | _ => out ++ p' end
  | _ => out ++ p
  end.
(** [Path::parent] and [PathBuf::pop]. *)
Definition parent (p : Path) : option Path :=
  match rev p with
  | [] | RootDir :: _ => None
  | _ :: r => Some (rev r)
  end.
Definition pop (p : Path) : Path := default p (parent p).
Definition file_name (p : Path) : option str :=
  match rev p with Normal s :: _ => Some s | _ => None end.
(** [Path::starts_with] and [Path::strip_prefix] compare whole components. *)
Fixpoint path_strip_prefix (base p : Path) : option Path :=
  match base, p with
  | [], _ => Some p
  | a :: base', b :: p' => if bool_decide (a = b) then path_strip_prefix base' p' else None
  | _ :: _, [] => None
  end.
Definition path_starts_with (p base : Path) : bool := is_some (path_strip_prefix base p).

Class Fs := { canonicalize : Path -> option Path; exists_ : Path -> bool }.
Class Nfkc := { nfkc : str -> str }.

(** A path with neither [.] nor [..]. *)
Definition is_plain (c : Component) : bool :=
  match c with RootDir | Normal _ => true | _ => false end.
Definition clean (p : Path) : Prop := Forall (fun c => is_plain c = true) p.

(** Canonical paths are absolute and free of [.] and [..], and only existing
    paths have one. *)
Class FsLaws `{Fs} := {
  canonicalize_clean p q : canonicalize p = Some q -> clean q;
  canonicalize_absolute p q : canonicalize p = Some q -> head q = Some RootDir;
  canonicalize_exists p q : canonicalize p = Some q -> exists_ p = true
}.

(** ** Roots *)
Record Config := mkConfig { image_home : option Path; users_home : option Path }.
Definition get_resolved_image_home (cfg : Config) : option Path := image_home cfg.
Definition get_resolved_users_home (cfg : Config) : option Path := users_home cfg.

Inductive RootSource :=
| Env (dir : Path) | LegacyCwd | OsStandard (dir : Path) | Undetermined.

(** What the resolution reads: the environment variable, whether the working
    directory holds [config.toml], and the OS-standard directory. *)
Record Host := mkHost { env_var : option str; cwd_config : bool; os_dir : option Path }.

Definition resolve_root_source (h : Host) : RootSource :=
  match env_var h with
  | Some p => Env (components p)
  | None =>
      if cwd_config h then LegacyCwd
      else match os_dir h with
           | Some dir => OsStandard dir
           | None => Undetermined
           end
  end.
Definition resolve_root_path (h : Host) : Path :=
  match resolve_root_source h with
  | Env dir | OsStandard dir => dir
  | LegacyCwd | Undetermined => [CurDir]
  end.
(** [create_dir_all] answers whether the directory could be made. *)
Definition resolve_root `{Fs} (create_dir_all : Path -> bool) (h : Host) : Path :=
  match resolve_root_source h with
  | Env dir => dir
  | LegacyCwd => [CurDir]
  | OsStandard dir =>
      if negb (exists_ dir) && negb (create_dir_all dir) then [CurDir] else dir
  | Undetermined => [CurDir]
  end.

(** ** Classification *)
Inductive PathClassification :=
| Public | Personal (owner : str) | UsersRoot | Outside.
#[export] Instance PathClassification_eq_dec : EqDecision PathClassification.
Proof. solve_decision. Defined.

Definition clean_path (p : Path) : Path :=
  fold_left (fun out comp =>
    match comp with
    | CurDir => out
    | ParentDir => pop out
    | other => push out [other]
    end) p [].

Section Classify.
Context {F : Fs}.

(** The loop of [canonicalize_if_exists]; every round drops a component, so
    the length of the path is enough fuel. *)
Fixpoint split_existing (fuel : nat) (prefix : Path) (tail : list str) : Path * list str :=
  match fuel with
  | O => (prefix, tail)
  | S fuel' =>
      if negb (is_empty prefix) && negb (exists_ prefix) then
        match file_name prefix with
        | Some name => split_existing fuel' (default [] (parent prefix)) (tail ++ [name])
        | None => (prefix, tail)
        end
      else (prefix, tail)
  end.

Definition canonicalize_if_exists (p : Path) : Path :=
  match canonicalize p with
  | Some c => c
  | None =>
      let '(prefix, tail) := split_existing (length p) p [] in
      let out := default (clean_path prefix) (canonicalize prefix) in
      let out := fold_left (fun out comp => push out [Normal comp]) (rev tail) out in
      if is_empty out then clean_path p else out
  end.

Definition is_safe_segment {K : Nfkc} (s : str) : bool :=
  if is_empty s || str_eqb s (lit ".") || str_eqb s (lit "..") then false
  else
    let normalized := nfkc s in
    if contains normalized (lit "/") || contains normalized [92] then false
    else if str_eqb normalized (lit ".") || str_eqb normalized (lit "..") then false
    else match components s with
         | [Normal _] =>
             if existsb is_control s then false
             else negb (existsb (fun c => existsb (N.eqb c)
               [47; 92; 65295; 65340; 8725; 8260; 65128]) s)
         | _ => false
         end.

Inductive UsersDirError := Disabled | InvalidUser.

Definition users_dir_for {K : Nfkc} (cfg : Config) (user_id : str) : result UsersDirError Path :=
  root ← ok_or Disabled (get_resolved_users_home cfg);
  canonical ← map_err (fun _ => InvalidUser) (validate_user_id user_id);
  if negb (is_safe_segment canonical) then Err InvalidUser
  else Ok (push root (components canonical)).

Definition classify_public (cfg : Config) (canonical : Path) : PathClassification :=
  match get_resolved_image_home cfg with
  | Some image_root =>
      let image_root := canonicalize_if_exists image_root in
      if bool_decide (canonical = image_root) || path_starts_with canonical image_root
      then Public else Outside
  | None => Outside
  end.

Definition classify_path (cfg : Config) (p : Path) : PathClassification :=
  let canonical := canonicalize_if_exists p in
  match get_resolved_users_home cfg with
  | Some users_root =>
      let users_root := canonicalize_if_exists users_root in
      if bool_decide (canonical = users_root) then UsersRoot
      else match path_strip_prefix users_root canonical with
           | Some (Normal seg :: _) => Personal seg
           | Some _ => UsersRoot
           | None => classify_public cfg canonical
           end
  | None => classify_public cfg canonical
  end.

Definition visible_to (cfg : Config) (caller : str) (p : Path) : bool :=
  match classify_path cfg p with
  | Public | Outside => true
  | Personal owner => str_eqb owner caller
  | UsersRoot => false
  end.

(** [create_dir_all] and [get_or_create_dir_album] act on the file system and
    the index; their outcomes are parameters. *)
Definition ensure_personal_home {K : Nfkc} (create_dir_all : Path -> result str unit)
    (get_or_create_dir_album : Path -> result str unit) (cfg : Config) (id : str)
  : app_result unit :=
  match get_resolved_users_home cfg with
  | None => Ok tt
  | Some _ =>
      dir ← map_err (fun _ => new_error InvalidInput (lit "invalid user id"))
              (users_dir_for cfg id);
      _ ← map_err (new_error IO) (create_dir_all dir);
      _ ← map_err (new_error Internal) (get_or_create_dir_album dir);
      Ok tt
  end.

Inductive WriteDenial := DenyUsersRoot | NotOwner | CrossOwner.

(** One round of the gate's loop. *)
Definition gate_side (cfg : Config) (caller : str) (p : Path) : result WriteDenial unit :=
  match classify_path cfg p with
  | UsersRoot => Err DenyUsersRoot
  | Personal owner => if negb (str_eqb owner caller) then Err NotOwner else Ok tt
  | _ => Ok tt
  end.

Definition write_gate (cfg : Config) (caller : str) (source dest : option Path)
  : result WriteDenial unit :=
  let cross := match source, dest with
               | Some s, Some d =>
                   match classify_path cfg s, classify_path cfg d with
                   | Personal so, Personal do_ => negb (str_eqb so do_)
                   | _, _ => false
                   end
               | _, _ => false
               end in
  if cross then Err CrossOwner
  else foldl (fun r p => _ ← r; gate_side cfg caller p) (Ok tt)
         (option_list source ++ option_list dest).

Definition validate_path_roots (image_home users_home : option Path) : result str unit :=
  match image_home, users_home with
  | Some img, Some usr =>
      let img := canonicalize_if_exists img in
      let usr := canonicalize_if_exists usr in
      if bool_decide (img = usr) || path_starts_with img usr || path_starts_with usr img then
        Err (lit "users_home must not equal or be nested inside/outside image_home")
      else Ok tt
  | _, _ => Ok tt
  end.
End Classify.

(** ** Facts on components *)
Lemma path_strip_prefix_spec base p rest :
  path_strip_prefix base p = Some rest <-> p = base ++ rest.
Proof.
  revert p. induction base as [|a base IH]; intros p; simpl; [split; congruence|].
  destruct p as [|b p]; [done|]. case_bool_decide as Hab; [subst b|].
  - rewrite IH. split; congruence.
  - split; congruence.
Qed.

Lemma path_starts_with_spec p base : path_starts_with p base = true <-> exists rest, p = base ++ rest.
Proof.
  unfold path_starts_with. destruct (path_strip_prefix base p) as [r|] eqn:Hr; simpl.
  - apply path_strip_prefix_spec in Hr. split; [by exists r|done].
  - split; [done|]. intros [rest Hp]. apply path_strip_prefix_spec in Hp. congruence.
Qed.

Lemma pop_snoc p c : c <> RootDir -> pop (p ++ [c]) = p.
Proof.
  intros Hc. unfold pop, parent. rewrite rev_app_distr. simpl.
  destruct c; try done; simpl; by rewrite rev_involutive.
Qed.

Lemma pop_clean p : clean p -> clean (pop p).
Proof.
  unfold pop, parent, clean. intros Hp. destruct (rev p) as [|c r] eqn:Hr; [done|].
  assert (p = rev r ++ [c]) as -> by (by rewrite <-(rev_involutive p), Hr).
  apply Forall_app in Hp as [Hp _]. destruct c; simpl; try done.
  apply Forall_app. split; [done|]. by constructor.
Qed.

Lemma push_plain_clean out c : clean out -> is_plain c = true -> clean (push out [c]).
Proof.
  intros Ho Hc. destruct c; try done; simpl; [by constructor|].
  apply Forall_app. split; [done|by constructor].
Qed.

Lemma clean_path_clean p : clean (clean_path p).
Proof.
  unfold clean_path. match goal with |- clean (fold_left ?f p _) =>
    enough (forall out, clean out -> clean (fold_left f p out)) as H by (apply H; constructor) end.
  induction p as [|c p IH]; intros out Ho; simpl; [done|]. apply IH.
  destruct c as [| | |n]; [apply (push_plain_clean out RootDir)|done|by apply pop_clean|
    apply (push_plain_clean out (Normal n))]; done.
Qed.

(** Pushing names one by one appends them. *)
Lemma push_names names out :
  fold_left (fun out comp => push out [Normal comp]) names out = out ++ (Normal <$> names).
Proof.
  revert out. induction names as [|n names IH]; intros out; simpl; [by rewrite app_nil_r|].
  rewrite IH. by rewrite <-app_assoc.
Qed.

Lemma split_on_none (c : N) s : c ∉ s -> split_on c s = [s].
Proof.
  induction s as [|a s IH]; intros Hc; simpl; [done|].
  rewrite (proj2 (N.eqb_neq a c)) by set_solver. by rewrite IH by set_solver.
Qed.
Lemma split_on_first (c : N) a rest : c ∉ a -> split_on c (a ++ c :: rest) = a :: split_on c rest.
Proof.
  induction a as [|x a IH]; intros Hc; simpl; [by rewrite N.eqb_refl|].
  rewrite (proj2 (N.eqb_neq x c)) by set_solver. by rewrite IH by set_solver.
Qed.

Section Facts.
Context {F : Fs}.

Lemma canonicalize_if_exists_is_clean {L : FsLaws} p : clean (canonicalize_if_exists p).
Proof.
  unfold canonicalize_if_exists. destruct (canonicalize p) eqn:Hp; [by eapply canonicalize_clean|].
  destruct (split_existing _ _ _) as [prefix tail]. rewrite push_names.
  assert (clean (default (clean_path prefix) (canonicalize prefix))) as Hc.
  { destruct (canonicalize prefix) eqn:Hq; simpl; [by eapply canonicalize_clean|].
    apply clean_path_clean. }
  case_match; [apply clean_path_clean|]. apply Forall_app. split; [done|].
  apply Forall_fmap, Forall_true. done.
Qed.

(** A safe segment is one path component. *)
Lemma safe_segment_components {K : Nfkc} s :
  is_safe_segment s = true -> components s = [Normal s].
Proof.
  unfold is_safe_segment. intros Hs.
  destruct (is_empty s || _ || _) eqn:H1; [done|].
  destruct (contains _ _ || _); [done|]. destruct (str_eqb (nfkc s) _ || _); [done|].
  assert (47 ∉ s) as Hslash.
  { destruct (components s) as [|[] []]; try done. destruct (existsb is_control s); [done|].
    apply negb_true_iff in Hs. intros Hin. rewrite <-not_true_iff_false in Hs. apply Hs.
    apply existsb_exists. exists 47. split; [by apply list_elem_of_In|done]. }
  to_prop. unfold components. rewrite split_on_none by done.
  assert (starts_with (lit "/") s = false) as ->.
  { destruct s as [|a s]; [done|]. change (lit "/") with [47]. cbn [starts_with].
    rewrite (proj2 (N.eqb_neq 47 a)) by set_solver. done. }
  unfold component_of, str_eqb.
  rewrite !bool_decide_eq_false_2 by done. rewrite H. simpl.
  destruct s; done.
Qed.

Lemma users_dir_for_ok {K : Nfkc} cfg id dir :
  users_dir_for cfg id = Ok dir ->
  exists root, users_home cfg = Some root /\ dir = root ++ [Normal (trim id)].
Proof.
  unfold users_dir_for. intros Hd. apply bind_Ok in Hd as (root & Hroot & Hd).
  apply bind_Ok in Hd as (c & Hc & Hd). exists root.
  unfold get_resolved_users_home in Hroot. destruct (users_home cfg); simplify_eq/=.
  split; [done|]. destruct (validate_user_id id) eqn:Hv; simplify_eq/=.
  assert (c = trim id) as ->.
  { unfold validate_user_id, fail in Hv. repeat case_match; by simplify_eq. }
  destruct (is_safe_segment _) eqn:Hs; simplify_eq/=.
  by rewrite (safe_segment_components _ Hs).
Qed.

(** No symlink leads out of the tree below [root]: whatever exists there
    canonicalizes to the same names below [rootc]. *)
Definition unlinked_below (root rootc : Path) : Prop :=
  exists_ root = true /\
  forall names, canonicalize (root ++ (Normal <$> names)) =
                if exists_ (root ++ (Normal <$> names)) then Some (rootc ++ (Normal <$> names))
                else None.

Lemma split_existing_below root fuel names acc :
  exists_ root = true -> (length names <= fuel)%nat ->
  exists t1 t2, names = t1 ++ t2 /\
    split_existing fuel (root ++ (Normal <$> names)) acc
      = (root ++ (Normal <$> t1), acc ++ rev t2) /\
    exists_ (root ++ (Normal <$> t1)) = true.
Proof.
  intros Hroot. revert names acc. induction fuel as [|fuel IH]; intros names acc Hlen.
  - destruct names; simpl in Hlen; [|lia]. exists [], []. simpl. by rewrite !app_nil_r.
  - cbn [split_existing]. destruct (exists_ (root ++ (Normal <$> names))) eqn:He.
    + rewrite andb_false_r. exists names, []. simpl. by rewrite !app_nil_r.
    + destruct names as [|n names _] using rev_ind;
        [simpl in He; rewrite app_nil_r in He; congruence|].
      rewrite fmap_app, app_assoc. simpl. 
      assert (is_empty ((root ++ (Normal <$> names)) ++ [Normal n]) = false) as ->
        by (by destruct (root ++ (Normal <$> names))).
      unfold file_name, parent. rewrite rev_app_distr. simpl. rewrite rev_involutive.
      rewrite length_app in Hlen. simpl in Hlen.
      destruct (IH names (acc ++ [n])) as (t1 & t2 & -> & Hs & Ht1); [lia|].
      exists t1, (t2 ++ [n]). rewrite Hs, rev_app_distr, <-!app_assoc. done.
Qed.

Lemma canonicalize_below root rootc names :
  unlinked_below root rootc ->
  canonicalize_if_exists (root ++ (Normal <$> names)) = rootc ++ (Normal <$> names).
Proof.
  intros [Hroot Hc]. unfold canonicalize_if_exists. rewrite Hc.
  destruct (exists_ (root ++ (Normal <$> names))) eqn:He; [done|].
  destruct (split_existing_below root (length (root ++ (Normal <$> names))) names [])
    as (t1 & t2 & -> & Hs & Ht1); [done|rewrite length_app, length_fmap; lia|].
  rewrite Hs, Hc, Ht1. cbn [default]. rewrite push_names. simpl. rewrite rev_involutive.
  rewrite <-app_assoc, <-fmap_app.
  destruct (is_empty _) eqn:Hem; [|done]. exfalso.
  destruct (rootc ++ (Normal <$> t1 ++ t2)) eqn:Hnil; [|done].
  apply app_nil in Hnil as [_ Hnil]. apply fmap_nil_inv in Hnil. apply app_nil in Hnil as [-> ->].
  simpl in *. rewrite app_nil_r in *. congruence.
Qed.

Lemma gate_side_visible cfg caller p :
  gate_side cfg caller p = Ok tt <-> visible_to cfg caller p = true.
Proof.
  unfold gate_side, visible_to. destruct (classify_path cfg p) as [|o| |]; try done.
  destruct (str_eqb o caller); done.
Qed.
End Facts.

(** ** Properties *)
Section Claims.
Context {F : Fs}.

(** The write gate opens exactly when every path it is given is visible to
    the caller (public, outside both roots, or the caller's own personal area),
    and it answers [CrossOwner] exactly when it pairs the areas of two different
    owners, whoever calls. *)
Theorem write_gate_spec cfg caller source dest :
  (write_gate cfg caller source dest = Ok tt <->
   forall p, source = Some p \/ dest = Some p -> visible_to cfg caller p = true) /\
  (write_gate cfg caller source dest = Err CrossOwner <->
   exists s d so do_, source = Some s /\ dest = Some d /\
     classify_path cfg s = Personal so /\ classify_path cfg d = Personal do_ /\ so <> do_).
Proof.
  assert (forall p, gate_side cfg caller p <> Err CrossOwner) as Hno
    by (intros p; unfold gate_side; repeat case_match; done).
  unfold write_gate. split.
  - destruct source as [s|], dest as [d|]; simpl.
    + pose proof (gate_side_visible cfg caller s) as Hs.
      pose proof (gate_side_visible cfg caller d) as Hd.
      assert ((s0 ← gate_side cfg caller s; gate_side cfg caller d) = Ok tt <->
              gate_side cfg caller s = Ok tt /\ gate_side cfg caller d = Ok tt) as Hb
        by (destruct (gate_side cfg caller s) as [[]|]; simpl; naive_solver).
      case_match eqn:Hx.
      * split; [done|]. intros Hv. pose proof (Hv s (or_introl eq_refl)) as Vs.
        pose proof (Hv d (or_intror eq_refl)) as Vd. unfold visible_to in Vs, Vd.
        repeat case_match; try done. to_prop. congruence.
      * rewrite Hb, Hs, Hd. naive_solver.
    + rewrite gate_side_visible. naive_solver.
    + rewrite gate_side_visible. naive_solver.
    + naive_solver.
  - split.
    + destruct source as [s|], dest as [d|]; simpl; try (intros Hx; by apply Hno in Hx); [|done].
      case_match eqn:Hx.
      * intros _. repeat case_match; try done. to_prop. eauto 10.
      * destruct (gate_side cfg caller s) eqn:Hg; simpl; intros Hc; [by apply Hno in Hc|].
        injection Hc as ->. by apply Hno in Hg.
    + intros (s & d & so & do_ & -> & -> & -> & -> & Hne). unfold str_eqb.
      by rewrite bool_decide_eq_false_2.
Qed.

(** The directory [users_dir_for] gives a user lies directly under
    [users_home], and (with no symlink leading out of that tree) every path below
    it is that user's personal area: visible and writable to exactly that user. *)
Theorem users_dir_own_area {K : Nfkc} cfg id dir root rootc names caller :
  users_home cfg = Some root -> unlinked_below root rootc ->
  users_dir_for cfg id = Ok dir ->
  let p := dir ++ (Normal <$> names) in
  classify_path cfg p = Personal (trim id) /\
  (write_gate cfg caller None (Some p) = Ok tt <-> caller = trim id).
Proof.
  intros Hroot Hlink Hdir p. destruct (users_dir_for_ok cfg id dir Hdir) as (root' & Hr' & Hd).
  assert (root' = root) as -> by congruence.
  assert (classify_path cfg p = Personal (trim id)) as Hcl.
  { unfold classify_path, get_resolved_users_home. rewrite Hroot.
    assert (p = root ++ (Normal <$> trim id :: names)) as Hp
      by (unfold p; rewrite Hd, <-app_assoc; done).
    rewrite Hp, (canonicalize_below root rootc) by done.
    assert (canonicalize_if_exists root = rootc) as ->.
    { pose proof (canonicalize_below root rootc [] Hlink) as H0. simpl in H0.
      by rewrite !app_nil_r in H0. }
    rewrite bool_decide_eq_false_2.
    - by rewrite (proj2 (path_strip_prefix_spec rootc _ (Normal <$> trim id :: names)) eq_refl).
    - intros Heq%(f_equal length). rewrite length_app, length_fmap in Heq. simpl in Heq. lia. }
  split; [done|]. unfold write_gate. simpl. rewrite gate_side_visible. unfold visible_to.
  rewrite Hcl, str_eqb_eq. split; congruence.
Qed.

(** When [validate_path_roots] accepts the configuration, the two trees do
    not overlap: a path that canonicalizes into the image root is public, and one
    strictly below the users root is personal to the first name below it. *)
Theorem validated_roots_disjoint cfg img usr p :
  image_home cfg = Some img -> users_home cfg = Some usr ->
  validate_path_roots (image_home cfg) (users_home cfg) = Ok tt ->
  (forall rest, canonicalize_if_exists p = canonicalize_if_exists img ++ rest ->
                classify_path cfg p = Public) /\
  (forall seg rest, canonicalize_if_exists p = canonicalize_if_exists usr ++ Normal seg :: rest ->
                classify_path cfg p = Personal seg).
Proof.
  intros Himg Husr Hv. rewrite Himg, Husr in Hv. unfold validate_path_roots in Hv.
  destruct (_ || _ || _) eqn:Hx; [done|].
  apply orb_false_iff in Hx as [[_ Hiu]%orb_false_iff Hui].
  unfold classify_path, classify_public, get_resolved_users_home, get_resolved_image_home.
  rewrite Himg, Husr. set (i := canonicalize_if_exists img) in *.
  set (u := canonicalize_if_exists usr) in *. split.
  - intros rest Hp. rewrite Hp.
    assert (forall r, i ++ rest <> u ++ r) as Hno.
    { intros r Heq. apply app_eq_inv in Heq as [(k & -> & ->)|(k & -> & ->)].
      - rewrite <-not_true_iff_false, path_starts_with_spec in Hiu. apply Hiu. by exists k.
      - rewrite <-not_true_iff_false, path_starts_with_spec in Hui. apply Hui. by exists k. }
    rewrite bool_decide_eq_false_2 by (intros He; apply (Hno []); by rewrite app_nil_r).
    destruct (path_strip_prefix u (i ++ rest)) as [r|] eqn:Hs;
      [by apply path_strip_prefix_spec, Hno in Hs|].
    rewrite (proj2 (path_starts_with_spec _ _)) by (by exists rest). by rewrite orb_true_r.
  - intros seg rest Hp. rewrite Hp, bool_decide_eq_false_2.
    + by rewrite (proj2 (path_strip_prefix_spec u _ (Normal seg :: rest)) eq_refl).
    + intros Heq%(f_equal length). rewrite length_app in Heq. simpl in Heq. lia.
Qed.

(** What classification looks at never contains [.] or [..]: canonical
    paths have none, and the lexical fallback removes them. *)
Theorem canonicalize_if_exists_clean {L : FsLaws} p : clean (canonicalize_if_exists p).
Proof. apply canonicalize_if_exists_is_clean. Qed.

(** [resolve_root] differs from the read-only resolution only when the
    OS-standard directory is missing and cannot be created. *)
Lemma resolve_root_agrees create h :
  resolve_root create h = resolve_root_path h \/
  exists dir, env_var h = None /\ cwd_config h = false /\ os_dir h = Some dir /\
    exists_ dir = false /\ create dir = false /\ resolve_root create h = [CurDir].
Proof.
  unfold resolve_root, resolve_root_path, resolve_root_source.
  destruct (env_var h), (cwd_config h), (os_dir h) as [dir|]; auto.
  destruct (exists_ dir) eqn:He, (create dir) eqn:Hc; simpl; auto. right. by exists dir.
Qed.
End Claims.

(** ** Witnesses: a disk with two roots and two users *)
Module PathWitness.
Definition p (s : string) : Path := components (lit s).
Definition disk : list Path := [p "/"; p "/img"; p "/users"; p "/users/alice"; p "/users/bob"].
#[export] Instance fs : Fs := {|
  canonicalize q := if bool_decide (q ∈ disk) then Some q else None;
  exists_ q := bool_decide (q ∈ disk) |}.
#[export] Instance ident : Nfkc := {| nfkc s := s |}.
Lemma disk_spec (P : Path -> Prop) : Forall P disk -> forall q, q ∈ disk -> P q.
Proof. intros H q Hq. by eapply Forall_forall. Qed.
#[export] Instance laws : FsLaws.
Proof.
  constructor; unfold canonicalize, exists_; simpl; intros q q' Hq; case_bool_decide as Hin;
    simplify_eq; try done; revert q' Hin; apply disk_spec; repeat constructor.
Qed.
Definition cfg : Config := mkConfig (Some (p "/img")) (Some (p "/users")).
Lemma unlinked : unlinked_below (p "/users") (p "/users").
Proof.
  split; [reflexivity|]. intros names. unfold canonicalize, exists_; simpl.
  by case_bool_decide.
Qed.
End PathWitness.
Import (hints) PathWitness.

Lemma users_dir_own_area_witness :
  classify_path PathWitness.cfg (PathWitness.p "/users/alice/2024/a.jpg")
    = Personal (lit "alice").
Proof.
  exact (proj1 (users_dir_own_area PathWitness.cfg (lit " alice") _ _ _
    [lit "2024"; lit "a.jpg"] (lit "alice") eq_refl PathWitness.unlinked eq_refl)).
Defined.

Lemma validated_roots_disjoint_witness :
  classify_path PathWitness.cfg (PathWitness.p "/img/x.jpg") = Public.
Proof.
  refine (proj1 (validated_roots_disjoint PathWitness.cfg _ _ _ eq_refl eq_refl _)
    [Normal (lit "x.jpg")] _); vm_compute; reflexivity.
Defined.

Lemma canonicalize_if_exists_clean_witness :
  clean (canonicalize_if_exists (PathWitness.p "/users/alice/../bob/./new/x.jpg")).
Proof. apply canonicalize_if_exists_clean. Defined.
