(* ===== verification/Formats.v ===== *)
(** * Formats: accepted media formats and the indexing decision
      ([backend/src/process/format.rs], [backend/src/model/media.rs])

    The table of accepted formats is the source's, row by row.  Content
    detection is the third-party [infer] crate: the class [Infer] answers the
    extension it reports for a file, or that the file cannot be read. *)

From S2P Require Import Prelude Errors Password Paths.

Inductive DetectedFormat :=
| Jpeg | Png | Gif | Webp | Tiff | Bmp | Mp4 | Mov | M4v | Mkv | Webm | Avi | Flv | Wmv | Mpeg.
#[export] Instance DetectedFormat_eq_dec : EqDecision DetectedFormat.
Proof. solve_decision. Defined.

Inductive MediaKind := KImage | KVideo.
#[export] Instance MediaKind_eq_dec : EqDecision MediaKind.
Proof. solve_decision. Defined.

Record SupportedFormat := mkFormat {
  format : DetectedFormat;
  detected_extension : str;
  extensions : list str;
  family : str;
  fkind : MediaKind
}.

Definition SUPPORTED_FORMATS : list SupportedFormat := [
  mkFormat Jpeg (lit "jpg") [lit "jpg"; lit "jpeg"; lit "jfif"; lit "jpe"] (lit "jpeg") KImage;
  mkFormat Png (lit "png") [lit "png"] (lit "png") KImage;
  mkFormat Gif (lit "gif") [lit "gif"] (lit "gif") KVideo;
  mkFormat Webp (lit "webp") [lit "webp"] (lit "webp") KImage;
  mkFormat Tiff (lit "tif") [lit "tif"; lit "tiff"] (lit "tiff") KImage;
  mkFormat Bmp (lit "bmp") [lit "bmp"] (lit "bmp") KImage;
  mkFormat Mp4 (lit "mp4") [lit "mp4"] (lit "isobmff") KVideo;
  mkFormat Mov (lit "mov") [lit "mov"] (lit "isobmff") KVideo;
  mkFormat M4v (lit "m4v") [lit "m4v"] (lit "isobmff") KVideo;
  mkFormat Mkv (lit "mkv") [lit "mkv"] (lit "ebml") KVideo;
  mkFormat Webm (lit "webm") [lit "webm"] (lit "ebml") KVideo;
  mkFormat Avi (lit "avi") [lit "avi"] (lit "avi") KVideo;
  mkFormat Flv (lit "flv") [lit "flv"] (lit "flv") KVideo;
  mkFormat Wmv (lit "wmv") [lit "wmv"] (lit "wmv") KVideo;
  mkFormat Mpeg (lit "mpg") [lit "mpeg"] (lit "mpeg") KVideo ].

(** [Iterator::find]. *)
Definition find_row (p : SupportedFormat -> bool) : option SupportedFormat :=
  List.find p SUPPORTED_FORMATS.
Definition accepts (extension : str) (row : SupportedFormat) : bool :=
  existsb (str_eqb extension) (extensions row).

(** [entry]; every format has a row, so the [expect] never fails. *)
Definition entry (f : DetectedFormat) : option SupportedFormat :=
  find_row (fun row => bool_decide (format row = f)).
Definition canonical_extension (f : DetectedFormat) : option str :=
  detected_extension <$> entry f.
Definition accepted_extensions : list str := SUPPORTED_FORMATS ≫= extensions.
Definition accepted_extensions_of_kind (k : MediaKind) : list str :=
  filter (fun row => fkind row = k) SUPPORTED_FORMATS ≫= extensions.
Definition kind_for_extension (extension : str) : option MediaKind :=
  fkind <$> find_row (accepts extension).

Inductive Detection := Unsupported (detected : str) | Supported (f : DetectedFormat).

Definition classify (detected : str) : Detection :=
  match find_row (fun row => str_eqb (detected_extension row) detected) with
  | Some row => Supported (format row)
  | None => Unsupported detected
  end.

Definition extension_matches (claimed : str) (detected : DetectedFormat) : bool :=
  match entry detected with
  | None => false
  | Some e =>
      accepts claimed e
      || existsb (accepts claimed)
           (filter (fun candidate => family candidate = family e) SUPPORTED_FORMATS)
  end.

(** [infer::get_from_path]: unreadable, no known signature, or an extension. *)
Class Infer := { infer_get : str -> result str (option str) }.
(** [Path::extension], of a file name and of a path. *)
Definition name_extension (name : str) : option str :=
  match rev (split_on 46 name) with
  | [_; []] => None
  | ext :: _ :: _ => Some ext
  | _ => None
  end.
Definition path_extension (path : str) : option str :=
  name ← file_name (components path);
  name_extension name.

Inductive SkipReason :=
| UnsupportedExtension | ContentMismatch (detected : str) | UnrecognizedContent | Unreadable.
Inductive MediaOutcome := Index | Skip (why : SkipReason).

Section Media.
Context {Ca : Casing} {I : Infer}.

Definition detect_from_path (path : str) : result str (option Detection) :=
  match infer_get path with
  | Ok d => Ok (option_map classify d)
  | Err e => Err e
  end.

Definition media_extension (path : str) : option str :=
  e ← path_extension path;
  let extension := to_lowercase e in
  _ ← kind_for_extension extension;
  Some extension.
Definition is_valid_media_file (path : str) : bool := is_some (media_extension path).

Definition classify_media_file (path : str) : MediaOutcome :=
  match media_extension path with
  | None => Skip UnsupportedExtension
  | Some extension =>
      match detect_from_path path with
      | Err _ => Skip Unreadable
      | Ok None => Skip UnrecognizedContent
      | Ok (Some (Unsupported d)) => Skip (ContentMismatch d)
      | Ok (Some (Supported f)) =>
          if negb (extension_matches extension f)
          then Skip (ContentMismatch (default [] (canonical_extension f)))
          else Index
      end
  end.
End Media.

(** ** Facts *)
Lemma entry_total f : exists row, entry f = Some row /\ format row = f.
Proof. destruct f; eexists; (split; [vm_compute; reflexivity|reflexivity]). Qed.

(** A file that is indexed. *)
Lemma classify_index {Ca : Casing} {I : Infer} path :
  classify_media_file path = Index <->
  exists ext d f, media_extension path = Some ext /\ infer_get path = Ok (Some d) /\
    classify d = Supported f /\ extension_matches ext f = true.
Proof.
  unfold classify_media_file, detect_from_path. split.
  - destruct (media_extension path) as [ext|]; [|done].
    destruct (infer_get path) as [[d|]|]; simpl; try done.
    destruct (classify d) as [|f] eqn:Hd; [done|].
    destruct (extension_matches ext f) eqn:Hm; [|done]. intros _. by exists ext, d, f.
  - intros (ext & d & f & -> & -> & Hd & Hm). simpl. by rewrite Hd, Hm.
Qed.

(** The table is consistent: each format has a row; no two rows accept the
    same extension; the extension [infer] reports leads back to the format; and
    whenever content matches a declared extension, the decoder chosen from the
    extension is the decoder of the detected format, so that an indexed file is
    never handed to the wrong decoder. *)
Theorem formats_consistent :
  NoDup accepted_extensions /\
  (forall f ext, canonical_extension f = Some ext -> classify ext = Supported f) /\
  (forall f ext, extension_matches ext f = true ->
     exists row, entry f = Some row /\ kind_for_extension ext = Some (fkind row)).
Proof.
  split; [|split].
  - apply (bool_decide_unpack _). by vm_compute.
  - intros f ext. destruct f; intros [= <-]; vm_compute; reflexivity.
  - intros f ext. unfold extension_matches, accepts.
    destruct f; vm_compute entry; cbn [extensions family];
      match goal with |- context [filter ?p ?l] =>
        let r := eval vm_compute in (filter p l) in change (filter p l) with r end;
      cbn [existsb extensions]; rewrite ?orb_false_r; intros Hm; (eexists; split; [reflexivity|]);
      repeat match goal with
             | H : _ || _ = true |- _ => apply orb_true_iff in H as [H|H]
             | H : str_eqb _ _ = true |- _ => apply str_eqb_eq in H; subst ext
             end; vm_compute; reflexivity.
Qed.
