(* ===== verification/Model.v ===== *)
(** * Model: the records of the library ([backend/src/model])

    Images, videos and albums as they travel on the wire ([AbstractData]), the
    path-primary identity record ([AssetRecord]) and the accessors the rest of
    the server uses.  An [ArrayString<64>] is text of at most 64 bytes; a
    [HashSet<String>] is a [gset], a map a [gmap]; an [f64] is its bit pattern.
    Clock readings are arguments; date parsing (chrono) and the file-name regex
    are the class [Chrono]. *)

From S2P Require Import Prelude Errors Paths Formats.

(** [ArrayString::<64>::from]. *)
Definition array_string (s : str) : option str := if str_len s <=? 64 then Some s else None.

(** ** object.rs *)
Inductive ObjectType := TImage | TVideo | TAlbum.
#[export] Instance ObjectType_eq_dec : EqDecision ObjectType.
Proof. solve_decision. Defined.
Definition object_type_display (t : ObjectType) : str :=
  lit match t with TImage => "image" | TVideo => "video" | TAlbum => "album" end.
Definition object_type_from_str (s : str) : result str ObjectType :=
  if str_eqb s (lit "image") then Ok TImage
  else if str_eqb s (lit "video") then Ok TVideo
  else if str_eqb s (lit "album") then Ok TAlbum
  else Err (lit "Invalid ObjectType: " ++ s).

Record ObjectSchema := mkObject {
  id : str;
  obj_type : ObjectType;
  pending : bool;
  thumbhash : option (list N);
  description : option str;
  tags : gset str;
  rating : option N;
  update_at : Z
}.
Definition new_object (now : Z) (i : str) (t : ObjectType) : ObjectSchema :=
  mkObject i t false None None ∅ None now.

(** ** response.rs *)
Record FileEntry := mkEntry { file : str; modified : Z; scan_time : Z; entry_trashed : bool }.
Definition new_entry (now : Z) (f : str) (m : Z) : FileEntry := mkEntry f m now false.
Definition entry_set_trashed (b : bool) (e : FileEntry) : FileEntry :=
  mkEntry (file e) (modified e) (scan_time e) b.

(** ** image.rs, video.rs *)
Record ImageMetadata := mkImageMeta {
  img_size : N; img_width : N; img_height : N; img_ext : str; img_phash : option (list N);
  img_album : option str; img_exif : gmap str str; img_path : option FileEntry
}.
Definition new_image_metadata (size width height : N) (ext : str) : ImageMetadata :=
  mkImageMeta size width height ext None None ∅ None.
Record ImageCombined := mkImage { img_object : ObjectSchema; img_metadata : ImageMetadata }.

Record VideoMetadata := mkVideoMeta {
  vid_size : N; vid_width : N; vid_height : N; vid_ext : str; vid_duration : N;
  vid_album : option str; vid_exif : gmap str str; vid_path : option FileEntry
}.
Definition new_video_metadata (size width height : N) (ext : str) : VideoMetadata :=
  mkVideoMeta size width height ext 0 None ∅ None.
Record VideoCombined := mkVideo { vid_object : ObjectSchema; vid_metadata : VideoMetadata }.

(** ** album.rs *)
Record Share := mkShare {
  url : str; share_description : str; password : option str; show_metadata : bool;
  show_download : bool; show_upload : bool; exp : Z; created_by : str
}.
#[export] Instance Share_eq_dec : EqDecision Share.
Proof. solve_decision. Defined.
Record ResolvedShare := mkResolved { share : Share; album_id : str; album_title : option str }.
#[export] Instance ResolvedShare_eq_dec : EqDecision ResolvedShare.
Proof. solve_decision. Defined.
Definition new_resolved (a : str) (t : option str) (s : Share) : ResolvedShare := mkResolved s a t.

Record AlbumMetadata := mkAlbumMeta {
  alb_id : str; title : option str; created_time : Z; start_time : option Z;
  end_time : option Z; last_modified_time : Z; cover : option str; item_count : N;
  item_size : N; share_list : gmap str Share; dir_path : str; custom_title : option str;
  alb_trashed : bool
}.
(** [AlbumMetadata::default] with the three identity fields set. *)
Definition default_album (i dir : str) (trashed : bool) : AlbumMetadata :=
  mkAlbumMeta i None 0 None None 0 None 0 0 ∅ dir None trashed.
Record AlbumCombined := mkAlbum { alb_object : ObjectSchema; alb_metadata : AlbumMetadata }.

(** ** abstract_data.rs *)
Inductive AbstractData :=
| Image (img : ImageCombined) | Video (vid : VideoCombined) | Album (alb : AlbumCombined).

Definition object_of (d : AbstractData) : ObjectSchema :=
  match d with
  | Image i => img_object i | Video v => vid_object v | Album a => alb_object a
  end.
Definition on_object (f : ObjectSchema -> ObjectSchema) (d : AbstractData) : AbstractData :=
  match d with
  | Image i => Image (mkImage (f (img_object i)) (img_metadata i))
  | Video v => Video (mkVideo (f (vid_object v)) (vid_metadata v))
  | Album a => Album (mkAlbum (f (alb_object a)) (alb_metadata a))
  end.

Definition hash (d : AbstractData) : str := id (object_of d).
Definition width (d : AbstractData) : N :=
  match d with
  | Image i => img_width (img_metadata i) | Video v => vid_width (vid_metadata v) | Album _ => 300
  end.
Definition height (d : AbstractData) : N :=
  match d with
  | Image i => img_height (img_metadata i) | Video v => vid_height (vid_metadata v)
  | Album _ => 300
  end.
Definition get_description (d : AbstractData) : option str := description (object_of d).
Definition set_description (x : option str) : AbstractData -> AbstractData :=
  on_object (fun o => mkObject (id o) (obj_type o) (pending o) (thumbhash o) x (tags o) (rating o)
                        (update_at o)).
Definition get_rating (d : AbstractData) : option N := rating (object_of d).
Definition set_rating (x : option N) : AbstractData -> AbstractData :=
  on_object (fun o => mkObject (id o) (obj_type o) (pending o) (thumbhash o) (description o)
                        (tags o) x (update_at o)).
Definition tag (d : AbstractData) : gset str := tags (object_of d).
Definition tag_mut (f : gset str -> gset str) : AbstractData -> AbstractData :=
  on_object (fun o => mkObject (id o) (obj_type o) (pending o) (thumbhash o) (description o)
                        (f (tags o)) (rating o) (update_at o)).
Definition update_update_at (now : Z) : AbstractData -> AbstractData :=
  on_object (fun o => mkObject (id o) (obj_type o) (pending o) (thumbhash o) (description o)
                        (tags o) (rating o) now).
Definition get_update_at (d : AbstractData) : Z := update_at (object_of d).
Definition get_pending (d : AbstractData) : bool := pending (object_of d).
Definition set_pending (x : bool) : AbstractData -> AbstractData :=
  on_object (fun o => mkObject (id o) (obj_type o) x (thumbhash o) (description o) (tags o)
                        (rating o) (update_at o)).
Definition get_thumbhash (d : AbstractData) : option (list N) := thumbhash (object_of d).
Definition object_set_thumbhash (x : option (list N)) (o : ObjectSchema) : ObjectSchema :=
  mkObject (id o) (obj_type o) (pending o) x (description o) (tags o) (rating o) (update_at o).
Definition set_thumbhash (x : list N) : AbstractData -> AbstractData :=
  on_object (object_set_thumbhash (Some x)).

Definition ext_type (d : AbstractData) : str :=
  lit match d with Image _ => "image" | Video _ => "video" | Album _ => "album" end.
Definition exif_vec (d : AbstractData) : option (gmap str str) :=
  match d with
  | Image i => Some (img_exif (img_metadata i)) | Video v => Some (vid_exif (vid_metadata v))
  | Album _ => None
  end.
Definition path (d : AbstractData) : option FileEntry :=
  match d with
  | Image i => img_path (img_metadata i) | Video v => vid_path (vid_metadata v) | Album _ => None
  end.
Definition is_trashed (d : AbstractData) : bool :=
  match d with
  | Image i => is_some_and entry_trashed (img_path (img_metadata i))
  | Video v => is_some_and entry_trashed (vid_path (vid_metadata v))
  | Album a => alb_trashed (alb_metadata a)
  end.
Definition get_album (d : AbstractData) : option str :=
  match d with
  | Image i => img_album (img_metadata i) | Video v => vid_album (vid_metadata v)
  | Album _ => None
  end.
Definition is_image (d : AbstractData) : bool := match d with Image _ => true | _ => false end.
Definition is_video (d : AbstractData) : bool := match d with Video _ => true | _ => false end.

(** Setters of the media metadata. *)
Definition on_image_metadata (f : ImageMetadata -> ImageMetadata) (i : ImageCombined) :=
  mkImage (img_object i) (f (img_metadata i)).
Definition on_video_metadata (f : VideoMetadata -> VideoMetadata) (v : VideoCombined) :=
  mkVideo (vid_object v) (f (vid_metadata v)).
Definition on_album_metadata (f : AlbumMetadata -> AlbumMetadata) (a : AlbumCombined) :=
  mkAlbum (alb_object a) (f (alb_metadata a)).
Definition img_set_path x m :=
  mkImageMeta (img_size m) (img_width m) (img_height m) (img_ext m) (img_phash m) (img_album m)
    (img_exif m) x.
Definition vid_set_path x m :=
  mkVideoMeta (vid_size m) (vid_width m) (vid_height m) (vid_ext m) (vid_duration m) (vid_album m)
    (vid_exif m) x.
Definition img_set_dims w h m :=
  mkImageMeta (img_size m) w h (img_ext m) (img_phash m) (img_album m) (img_exif m) (img_path m).
Definition vid_set_dims w h m :=
  mkVideoMeta (vid_size m) w h (vid_ext m) (vid_duration m) (vid_album m) (vid_exif m) (vid_path m).
Definition img_set_album x m :=
  mkImageMeta (img_size m) (img_width m) (img_height m) (img_ext m) (img_phash m) x (img_exif m)
    (img_path m).
Definition vid_set_album x m :=
  mkVideoMeta (vid_size m) (vid_width m) (vid_height m) (vid_ext m) (vid_duration m) x (vid_exif m)
    (vid_path m).
Definition alb_set_trashed b m :=
  mkAlbumMeta (alb_id m) (title m) (created_time m) (start_time m) (end_time m)
    (last_modified_time m) (cover m) (item_count m) (item_size m) (share_list m) (dir_path m)
    (custom_title m) b.

Definition set_trashed (b : bool) (d : AbstractData) : AbstractData :=
  match d with
  | Image i =>
      Image (on_image_metadata (fun m => img_set_path (entry_set_trashed b <$> img_path m) m) i)
  | Video v =>
      Video (on_video_metadata (fun m => vid_set_path (entry_set_trashed b <$> vid_path m) m) v)
  | Album a => Album (on_album_metadata (alb_set_trashed b) a)
  end.
Definition path_mut (f : option FileEntry -> option FileEntry) (d : AbstractData) : AbstractData :=
  match d with
  | Image i => Image (on_image_metadata (fun m => img_set_path (f (img_path m)) m) i)
  | Video v => Video (on_video_metadata (fun m => vid_set_path (f (vid_path m)) m) v)
  | Album _ => d
  end.
Definition exif_vec_mut (f : gmap str str -> gmap str str) (d : AbstractData) : AbstractData :=
  match d with
  | Image i => Image (on_image_metadata (fun m =>
      mkImageMeta (img_size m) (img_width m) (img_height m) (img_ext m) (img_phash m) (img_album m)
        (f (img_exif m)) (img_path m)) i)
  | Video v => Video (on_video_metadata (fun m =>
      mkVideoMeta (vid_size m) (vid_width m) (vid_height m) (vid_ext m) (vid_duration m)
        (vid_album m) (f (vid_exif m)) (vid_path m)) v)
  | Album _ => d
  end.
Definition set_album (x : option str) (d : AbstractData) : AbstractData :=
  match d with
  | Image i => Image (on_image_metadata (img_set_album x) i)
  | Video v => Video (on_video_metadata (vid_set_album x) v)
  | Album _ => d
  end.
Definition set_width (w : N) (d : AbstractData) : AbstractData :=
  match d with
  | Image i => Image (on_image_metadata (fun m => img_set_dims w (img_height m) m) i)
  | Video v => Video (on_video_metadata (fun m => vid_set_dims w (vid_height m) m) v)
  | Album _ => d
  end.
Definition set_height (h : N) (d : AbstractData) : AbstractData :=
  match d with
  | Image i => Image (on_image_metadata (fun m => img_set_dims (img_width m) h m) i)
  | Video v => Video (on_video_metadata (fun m => vid_set_dims (vid_width m) h m) v)
  | Album _ => d
  end.
Definition swap_width_height (d : AbstractData) : AbstractData :=
  match d with
  | Image i => Image (on_image_metadata (fun m => img_set_dims (img_height m) (img_width m) m) i)
  | Video v => Video (on_video_metadata (fun m => vid_set_dims (vid_height m) (vid_width m) m) v)
  | Album _ => d
  end.
Definition set_phash (x : list N) (d : AbstractData) : AbstractData :=
  match d with
  | Image i => Image (on_image_metadata (fun m =>
      mkImageMeta (img_size m) (img_width m) (img_height m) (img_ext m) (Some x) (img_album m)
        (img_exif m) (img_path m)) i)
  | _ => d
  end.

Definition determine_type (ext : str) : ObjectType :=
  if bool_decide (kind_for_extension ext = Some KImage) then TImage else TVideo.

(** [AbstractData::new]: the file's size and modification time (milliseconds
    since the epoch, saturating to 0 past [i64]) come from the file system. *)
Definition i64_max : N := 9223372036854775807.
Definition new_abstract_data (now : Z) (stat : result str (N * N)) (p hash : str)
  : result str AbstractData :=
  match path_extension p with
  | None => Err (lit "File has no extension: " ++ p)
  | Some e =>
      let ext := to_ascii_lowercase e in
      match stat with
      | Err err => Err err
      | Ok (size, millis) =>
          let modified := if millis <=? i64_max then Z.of_N millis else 0%Z in
          let entry := new_entry now p modified in
          match determine_type ext with
          | TImage => Ok (Image (mkImage (new_object now hash TImage)
                                   (img_set_path (Some entry) (new_image_metadata size 0 0 ext))))
          | TVideo => Ok (Video (mkVideo (new_object now hash TVideo)
                                   (vid_set_path (Some entry) (new_video_metadata size 0 0 ext))))
          | TAlbum => Err (lit "Cannot create Album from file path")
          end
      end
  end.

Definition visibility_path (d : AbstractData) : option str :=
  match d with
  | Image i => file <$> img_path (img_metadata i)
  | Video v => file <$> vid_path (vid_metadata v)
  | Album a => Some (dir_path (alb_metadata a))
  end.
Definition source_path_string (d : AbstractData) : str :=
  match d with
  | Image i => match img_path (img_metadata i) with Some a => file a | None => [] end
  | Video v => match vid_path (vid_metadata v) with Some a => file a | None => [] end
  | Album _ => []
  end.
(** The paths of derived files, relative to the data home; slicing the first two
    bytes of a hash shorter than that is a panic. *)
Definition compressed_relative (h ext : str) : str :=
  lit "object/compressed/" ++ take 2 h ++ lit "/" ++ h ++ ext.
Definition compressed_path_string (d : AbstractData) : option str :=
  match d with
  | Image _ => Some (compressed_relative (hash d) (lit ".jpg"))
  | Video _ => Some (compressed_relative (hash d) (lit ".mp4"))
  | Album _ => None
  end.
Definition thumbnail_path (d : AbstractData) : str := compressed_relative (hash d) (lit ".jpg").

(** ** asset.rs *)
Inductive AssetKind := AImage | AVideo | AAlbum.
#[export] Instance AssetKind_eq_dec : EqDecision AssetKind.
Proof. solve_decision. Defined.
Definition asset_kind_display (k : AssetKind) : str :=
  lit match k with AImage => "image" | AVideo => "video" | AAlbum => "album" end.
Definition asset_kind_from_str (s : str) : result str AssetKind :=
  if str_eqb s (lit "image") then Ok AImage
  else if str_eqb s (lit "video") then Ok AVideo
  else if str_eqb s (lit "album") then Ok AAlbum
  else Err (lit "Invalid AssetKind: " ++ s).
Definition is_media (k : AssetKind) : bool := match k with AImage | AVideo => true | _ => false end.

Record AssetRecord := mkAsset {
  asset_id : str; kind : AssetKind; rec_path : str; content_hash : option str; file_size : N;
  rec_ext : str; rec_modified : Z; rec_scan_time : Z; rec_trashed : bool; rec_album : option str
}.
(** The identifier is drawn at random ([generate_random_hash]); a non-media
    kind is an assertion failure. *)
Definition new_media (rng : str) (now : Z) (k : AssetKind) (p : str) (h : option str) (size : N)
    (ext : str) (m : Z) : option AssetRecord :=
  if is_media k then Some (mkAsset rng k p h size ext m now false None) else None.
Definition new_album (rng : str) (now : Z) (p : str) : AssetRecord :=
  mkAsset rng AAlbum p None 0 [] now now false None.

(** [PathClean::clean]: unlike [PathBuf::pop], [Vec::pop] also drops the root. *)
Definition clean_components (p : Path) : Path :=
  fold_left (fun out comp =>
    match comp with
    | ParentDir => removelast out
    | CurDir => out
    | other => out ++ [other]
    end) p [].
Definition is_absolute (p : Path) : bool :=
  match p with RootDir :: _ => true | _ => false end.
Definition canonicalize_path (p image_home : Path) : Path :=
  clean_components (if is_absolute p then p else push image_home p).

(** ** [compute_timestamp] *)

(** chrono and the file-name regex: the current local time and local times are
    numbers of milliseconds on the wall clock. *)
Class Chrono := {
  (** [NaiveDateTime::parse_from_str(_, "%Y-%m-%d %H:%M:%S")] *)
  parse_exif_time : str -> option Z;
  (** [FILE_NAME_TIME_REGEX] on a file name, its six captures parsed, and
      [from_ymd_opt]/[from_hms_opt] on them *)
  file_name_time : str -> option Z;
  (** [Local.from_local_datetime(_).single()], then [timestamp_millis]; [None]
      for a wall-clock time that does not exist or is ambiguous *)
  local_millis : Z -> option Z
}.

Section Timestamp.
Context {Ch : Chrono}.

(** One field of the priority list: [Err] is a panic, [Ok None] falls through. *)
Definition field_timestamp (now_time random : Z) (field : str) (d : AbstractData)
  : result str (option Z) :=
  if str_eqb field (lit "DateTimeOriginal") then
    Ok (exif ← exif_vec d;
        value ← exif !! lit "DateTimeOriginal";
        naive ← parse_exif_time value;
        millis ← local_millis naive;
        if (naive <=? now_time)%Z then Some millis else None)
  else if str_eqb field (lit "filename") then
    match (e ← path d;
           name ← file_name (components (file e));
           datetime ← file_name_time name;
           if (datetime <=? now_time)%Z then Some datetime else None) with
    | Some datetime =>
        match local_millis datetime with
        | Some millis => Ok (Some millis)
        | None => Err (lit "failed to convert datetime to local timezone")
        end
    | None => Ok None
    end
  else if str_eqb field (lit "scan_time") then Ok (scan_time <$> path d)
  else if str_eqb field (lit "modified") then Ok (modified <$> path d)
  else if str_eqb field (lit "random") then Ok (Some random)
  else Err (lit "Unknown field type: " ++ field).

Fixpoint timestamp_loop (now_time random : Z) (priority_list : list str) (d : AbstractData)
  : result str Z :=
  match priority_list with
  | [] => Ok 0%Z
  | field :: rest =>
      match field_timestamp now_time random field d with
      | Err e => Err e
      | Ok (Some t) => Ok t
      | Ok None => timestamp_loop now_time random rest d
      end
  end.

Definition compute_timestamp (now_time random : Z) (priority_list : list str) (d : AbstractData)
  : result str Z :=
  match d with
  | Album a => Ok (created_time (alb_metadata a))
  | _ => timestamp_loop now_time random priority_list d
  end.

Record DatabaseTimestamp := mkTimestamped {
  abstract_data : AbstractData; timestamp : Z; ts_asset_id : str
}.
Definition with_asset_id (now_time random : Z) (d : AbstractData) (priority_list : list str)
    (i : str) : result str DatabaseTimestamp :=
  match compute_timestamp now_time random priority_list d with
  | Ok t => Ok (mkTimestamped d t i)
  | Err e => Err e
  end.

(** The fields [compute_timestamp] knows. *)
Definition known_field (f : str) : Prop :=
  f ∈ [lit "DateTimeOriginal"; lit "filename"; lit "scan_time"; lit "modified"; lit "random"].

(** The wall-clock time in the record's file name, when it has a past one. *)
Definition past_name_time (now_time : Z) (d : AbstractData) : option Z :=
  e ← path d;
  name ← file_name (components (file e));
  datetime ← file_name_time name;
  if (datetime <=? now_time)%Z then Some datetime else None.

(** [compute_timestamp] over known fields crashes exactly when a file name
    carries a past wall-clock time that does not exist or is ambiguous in the
    local time zone and the list reaches the file name with no earlier field
    answering. *)
Theorem compute_timestamp_panics now_time random priority d :
  Forall known_field priority ->
  is_ok (compute_timestamp now_time random priority d) = false <->
  exists before rest datetime,
    priority = before ++ lit "filename" :: rest /\
    Forall (fun f => field_timestamp now_time random f d = Ok None) before /\
    past_name_time now_time d = Some datetime /\ local_millis datetime = None.
Proof.
  intros Hk.
  assert (is_ok (timestamp_loop now_time random priority d) = false <->
    exists before rest datetime,
    priority = before ++ lit "filename" :: rest /\
    Forall (fun f => field_timestamp now_time random f d = Ok None) before /\
    past_name_time now_time d = Some datetime /\ local_millis datetime = None) as Hloop.
  { assert (forall f, known_field f -> (exists e, field_timestamp now_time random f d = Err e) <->
      f = lit "filename" /\ exists dt, past_name_time now_time d = Some dt /\ local_millis dt = None)
      as Hfield.
    { intros f Hf. unfold field_timestamp, past_name_time.
      unfold known_field in Hf. rewrite !elem_of_cons, elem_of_nil in Hf.
      destruct Hf as [->|[->|[->|[->|[->|[]]]]]]; eval_eqb;
        try (split; [by intros [e He]|intros [Hne _]; vm_compute in Hne; discriminate Hne]).
      destruct (_ ≫= _) as [dt|].
      - destruct (local_millis dt) eqn:Hl; (split; [intros [e He]; try done; eauto|]).
        + intros (_ & dt' & [= ->] & Hl'). congruence.
        + by eexists.
      - split; [by intros [e He]|]. by intros (_ & dt & Hdt & _). }
    induction Hk as [|f rest Hf _ IH]; simpl.
    - split; [done|]. intros (b & r & dt & Hnil & _). by destruct b.
    - destruct (field_timestamp now_time random f d) as [[t|]|e] eqn:He.
      + split; [done|]. intros (b & r & dt & Heq & Hb & Hdt & Hl). destruct b as [|x b]; simplify_eq/=.
        * destruct (proj2 (Hfield _ Hf)) as [e He']; [by eauto|]. congruence.
        * apply Forall_cons in Hb as [Hb _]. congruence.
      + rewrite IH. split.
        * intros (b & r & dt & -> & Hb & Hx). exists (f :: b), r, dt. split; [done|].
          split; [by constructor|done].
        * intros (b & r & dt & Heq & Hb & Hdt & Hl). destruct b as [|x b]; simplify_eq/=.
          -- destruct (proj2 (Hfield _ Hf)) as [e He']; [by eauto|]. congruence.
          -- apply Forall_cons in Hb as [_ Hb]. by exists b, r, dt.
      + split; [|done]. intros _. destruct (proj1 (Hfield _ Hf)) as [-> (dt & Hdt & Hl)]; [by eexists|].
        by exists [], rest, dt. }
  destruct d as [i|v|a]; try exact Hloop. simpl. split; [done|].
  intros (b & r & dt & _ & _ & Hp & _). done.
Qed.
End Timestamp.

(** Berlin, 31 March 2024: the wall clock jumps from 02:00 to 03:00. *)
Definition spring_forward : Chrono := {|
  parse_exif_time _ := None;
  file_name_time _ := Some 9000000%Z;
  local_millis t := if (7200000 <=? t)%Z && (t <? 10800000)%Z then None else Some t |}.
Definition gap_photo : AbstractData :=
  Image (mkImage (new_object 0 (lit "h") TImage)
    (img_set_path (Some (new_entry 0 (lit "/img/20240331_023000.jpg") 0))
       (new_image_metadata 1 0 0 (lit "jpg")))).

Lemma compute_timestamp_panics_witness :
  is_ok (compute_timestamp (Ch:=spring_forward) 20000000 0
    [lit "DateTimeOriginal"; lit "filename"; lit "modified"] gap_photo) = false.
Proof.
  refine (proj2 (compute_timestamp_panics (Ch:=spring_forward) 20000000 0
    [lit "DateTimeOriginal"; lit "filename"; lit "modified"] gap_photo _) _).
  - repeat constructor; apply (bool_decide_unpack _); vm_compute; exact I.
  - exists [lit "DateTimeOriginal"], [lit "modified"], 9000000%Z.
    split; [reflexivity|]. split; [repeat constructor|]. split; reflexivity.
Defined.

(** [canonicalize_path] loses the root of an absolute path that climbs above it. *)
Example canonicalize_path_loses_root :
  canonicalize_path (components (lit "/../etc/passwd")) (components (lit "/img"))
  = components (lit "etc/passwd").
Proof. reflexivity. Qed.
