(* ===== verification/MetadataRecord.v ===== *)
(** * MetadataRecord: the stored payload and its composition with the identity
      record ([backend/src/model/metadata_record.rs])

    [METADATA_TABLE] keeps user metadata only; every identity field comes from
    the [AssetRecord] when a view is composed. *)

From S2P Require Import Prelude Errors Paths Formats Model.

(** The fields every payload starts with. *)
Record Common := mkCommon {
  c_tags : gset str; c_description : option str; c_rating : option N; c_update_at : Z;
  c_pending : bool; c_thumbhash : option (list N)
}.
Record ImagePayload := mkImagePayload {
  ip_common : Common; ip_width : N; ip_height : N; ip_phash : option (list N);
  ip_exif : gmap str str
}.
Record VideoPayload := mkVideoPayload {
  vp_common : Common; vp_width : N; vp_height : N; vp_duration : N; vp_exif : gmap str str
}.
Record AlbumPayload := mkAlbumPayload {
  ap_common : Common; ap_title : option str; ap_created : Z; ap_start : option Z;
  ap_end : option Z; ap_modified : Z; ap_cover : option str; ap_count : N; ap_size : N;
  ap_shares : gmap str Share; ap_custom : option str
}.
Inductive MetadataRecord :=
| MImage (p : ImagePayload) | MVideo (p : VideoPayload) | MAlbum (p : AlbumPayload).

Definition common_of (o : ObjectSchema) : Common :=
  mkCommon (tags o) (description o) (rating o) (update_at o) (pending o) (thumbhash o).

Definition to_metadata_record (d : AbstractData) : MetadataRecord :=
  match d with
  | Image i =>
      let m := img_metadata i in
      MImage (mkImagePayload (common_of (img_object i)) (img_width m) (img_height m)
                (img_phash m) (img_exif m))
  | Video v =>
      let m := vid_metadata v in
      MVideo (mkVideoPayload (common_of (vid_object v)) (vid_width m) (vid_height m)
                (vid_duration m) (vid_exif m))
  | Album a =>
      let m := alb_metadata a in
      MAlbum (mkAlbumPayload (common_of (alb_object a)) (title m) (created_time m)
                (start_time m) (end_time m) (last_modified_time m) (cover m) (item_count m)
                (item_size m) (share_list m) (custom_title m))
  end.

(** [object] after its payload fields are copied in. *)
Definition with_common (o : ObjectSchema) (c : Common) : ObjectSchema :=
  mkObject (id o) (obj_type o) (c_pending c) (c_thumbhash c) (c_description c) (c_tags c)
    (c_rating c) (c_update_at c).

(** Whether the payload's variant is the record's kind. *)
Definition matches_kind (k : AssetKind) (m : MetadataRecord) : bool :=
  match k, m with
  | AImage, MImage _ | AVideo, MVideo _ | AAlbum, MAlbum _ => true
  | _, _ => false
  end.

Definition display_id (r : AssetRecord) : str :=
  match kind r with
  | AAlbum => asset_id r
  | _ => default (asset_id r) (content_hash r)
  end.
Definition object_type_of (k : AssetKind) : ObjectType :=
  match k with AImage => TImage | AVideo => TVideo | AAlbum => TAlbum end.
Definition file_entry (r : AssetRecord) : FileEntry :=
  mkEntry (rec_path r) (rec_modified r) (rec_scan_time r) (rec_trashed r).

(** [now] is the clock reading of [ObjectSchema::new], kept only when no payload
    overrides it. *)
Definition compose_abstract_data (now : Z) (r : AssetRecord) (meta : option MetadataRecord)
  : AbstractData :=
  let matching := option_filter (matches_kind (kind r)) meta in
  let object := new_object now (display_id r) (object_type_of (kind r)) in
  match kind r with
  | AImage =>
      let '(object, metadata) :=
        match matching with
        | Some (MImage p) =>
            (with_common object (ip_common p),
             mkImageMeta (file_size r) (ip_width p) (ip_height p) (rec_ext r) (ip_phash p) None
               (ip_exif p) None)
        | _ => (object, new_image_metadata (file_size r) 0 0 (rec_ext r))
        end in
      Image (mkImage object (img_set_path (Some (file_entry r)) (img_set_album (rec_album r) metadata)))
  | AVideo =>
      let '(object, metadata) :=
        match matching with
        | Some (MVideo p) =>
            (with_common object (vp_common p),
             mkVideoMeta (file_size r) (vp_width p) (vp_height p) (rec_ext r) (vp_duration p) None
               (vp_exif p) None)
        | _ => (object, new_video_metadata (file_size r) 0 0 (rec_ext r))
        end in
      Video (mkVideo object (vid_set_path (Some (file_entry r)) (vid_set_album (rec_album r) metadata)))
  | AAlbum =>
      let '(object, metadata) :=
        match matching with
        | Some (MAlbum p) =>
            (with_common object (ap_common p),
             mkAlbumMeta (asset_id r) (ap_title p) (ap_created p) (ap_start p) (ap_end p)
               (ap_modified p) (ap_cover p) (ap_count p) (ap_size p) (ap_shares p) (rec_path r)
               (ap_custom p) (rec_trashed r))
        | _ => (object, default_album (asset_id r) (rec_path r) (rec_trashed r))
        end in
      Album (mkAlbum object metadata)
  end.

Lemma with_common_of o c : common_of (with_common o c) = c.
Proof. by destruct c. Qed.

(** What a view says about identity. *)
Definition identity (d : AbstractData) :=
  (hash d, obj_type (object_of d), is_trashed d, get_album d, visibility_path d, path d,
   match d with
   | Image i => Some (img_size (img_metadata i), img_ext (img_metadata i))
   | Video v => Some (vid_size (vid_metadata v), vid_ext (vid_metadata v))
   | Album _ => None
   end).

(** Storing the payload of a composed view loses nothing and keeps identity
    out: whatever payload is stored, the view's identity (path, trash flag, hash,
    kind, size, extension, album) is the record's, extracting the payload of the
    view gives the stored one back, and a payload of the wrong variant counts as
    none. *)
Theorem compose_roundtrip now r m :
  identity (compose_abstract_data now r (Some m)) = identity (compose_abstract_data now r None) /\
  (matches_kind (kind r) m = true ->
   to_metadata_record (compose_abstract_data now r (Some m)) = m) /\
  (matches_kind (kind r) m = false ->
   compose_abstract_data now r (Some m) = compose_abstract_data now r None).
Proof.
  unfold compose_abstract_data. destruct (kind r) eqn:Hk, m as [[]|[]|[]]; simpl;
    (split_and!; [done|intros He|intros He]); try discriminate He; simpl; rewrite ?with_common_of;
    reflexivity.
Qed.

(** Composing a view, storing its payload and composing again yields the same
    view. *)
Theorem recompose now now' r meta :
  let d := compose_abstract_data now r meta in
  compose_abstract_data now' r (Some (to_metadata_record d)) = d.
Proof.
  unfold compose_abstract_data. destruct (kind r) eqn:Hk, meta as [[[]|[]|[]]|]; simpl;
    try reflexivity; repeat match goal with c : Common |- _ => destruct c end; reflexivity.
Qed.

Lemma compose_roundtrip_witness :
  let r := new_album (lit "album-1") 5 (lit "/img/2024") in
  let m := MAlbum (mkAlbumPayload (mkCommon ∅ None None 7 false None) (Some (lit "2024")) 1 None
                     None 2 None 3 4 ∅ None) in
  to_metadata_record (compose_abstract_data 9 r (Some m)) = m.
Proof.
  intros r m. exact (proj1 (proj2 (compose_roundtrip 9 r m)) eq_refl).
Defined.
