(* ===== verification/AlbumUpdate.v ===== *)
(** * AlbumUpdate: recomputing an album's statistics
      ([AlbumCombined::self_update] in [backend/src/model/album.rs])

    The in-memory tree is the list of timestamped records.  The parallel
    iterator keeps the order of the tree; [sort_by_key] is stable.  Sums of
    [u64] sizes wrap as in the release profile. *)

From S2P Require Import Prelude Errors Paths Formats Model.

Record MediaItemInfo := mkInfo {
  info_id : str; info_size : N; info_thumbhash : option (list N); info_timestamp : Z
}.

Definition PLACEHOLDER : str := lit ".__picasu_ph__.jpg".

Definition path_is_in_album_or_descendant (p : str) (dir : Path) : bool :=
  let p := components p in
  path_starts_with p dir
  && is_some_and (fun name => negb (str_eqb name PLACEHOLDER)) (file_name p).

Definition belongs_to_album (dir : Path) (entry : option FileEntry) : bool :=
  is_some_and (fun a =>
    negb (entry_trashed a) && path_is_in_album_or_descendant (file a) dir
    && bool_decide (parent (components (file a)) = Some dir)) entry.
Definition in_subtree (dir : Path) (entry : option FileEntry) : bool :=
  is_some_and (fun a =>
    negb (entry_trashed a) && path_is_in_album_or_descendant (file a) dir) entry.

(** [filter_map] over the tree: media whose entry satisfies the predicate. *)
Definition media_info (p : option FileEntry -> bool) (t : DatabaseTimestamp)
  : option MediaItemInfo :=
  match abstract_data t with
  | Image i =>
      let m := img_metadata i in
      if p (img_path m)
      then Some (mkInfo (ts_asset_id t) (img_size m) (thumbhash (img_object i)) (timestamp t))
      else None
  | Video v =>
      let m := vid_metadata v in
      if p (vid_path m)
      then Some (mkInfo (ts_asset_id t) (vid_size m) (thumbhash (vid_object v)) (timestamp t))
      else None
  | Album _ => None
  end.

(** [sort_by_key(|info| Reverse(info.timestamp))]. *)
Definition newest_first (a b : MediaItemInfo) : Prop := (info_timestamp b <= info_timestamp a)%Z.
#[export] Instance newest_first_dec a b : Decision (newest_first a b).
Proof. unfold newest_first. apply _. Defined.
#[export] Instance newest_first_total : Total newest_first.
Proof. intros a b. unfold newest_first. lia. Qed.
#[export] Instance newest_first_trans : Transitive newest_first.
Proof. intros a b c. unfold newest_first. lia. Qed.
Definition sorted_newest (l : list MediaItemInfo) : list MediaItemInfo := merge_sort newest_first l.

Definition sum_sizes (l : list MediaItemInfo) : N :=
  foldr (fun i n => wrapping_add_u64 (info_size i) n) 0 l.

Definition with_cover (c : option str) (thumb : option (list N)) (a : AlbumCombined)
  : AlbumCombined :=
  let m := alb_metadata a in
  mkAlbum (object_set_thumbhash thumb (alb_object a))
    (mkAlbumMeta (alb_id m) (title m) (created_time m) (start_time m) (end_time m)
       (last_modified_time m) c (item_count m) (item_size m) (share_list m) (dir_path m)
       (custom_title m) (alb_trashed m)).
Definition set_cover (cover_data : AbstractData) (i : str) (a : AlbumCombined) : AlbumCombined :=
  with_cover (Some i) (get_thumbhash cover_data) a.
Definition set_cover_from_info (i : MediaItemInfo) (a : AlbumCombined) : AlbumCombined :=
  with_cover (Some (info_id i)) (info_thumbhash i) a.

Definition with_stats (start end_ : option Z) (modified : Z) (count size : N) (a : AlbumCombined)
  : AlbumCombined :=
  let m := alb_metadata a in
  mkAlbum (alb_object a)
    (mkAlbumMeta (alb_id m) (title m) (created_time m) start end_ modified (cover m) count size
       (share_list m) (dir_path m) (custom_title m) (alb_trashed m)).

(** The cover of an album with members: kept while it is one of them, else the
    first. *)
Definition settle_cover (data_in_album : list MediaItemInfo) (a : AlbumCombined) : AlbumCombined :=
  match cover (alb_metadata a) with
  | None =>
      match head data_in_album with Some first => set_cover_from_info first a | None => a end
  | Some current =>
      if existsb (fun i => str_eqb (info_id i) current) data_in_album then a
      else match head data_in_album with Some first => set_cover_from_info first a | None => a end
  end.

Definition self_update (now : Z) (tree : list DatabaseTimestamp) (a : AlbumCombined)
  : AlbumCombined :=
  let dir := components (dir_path (alb_metadata a)) in
  let data_in_album := omap (media_info (belongs_to_album dir)) tree in
  if is_empty data_in_album then
    let descendant_data := sorted_newest (omap (media_info (in_subtree dir)) tree) in
    let first := head descendant_data in
    with_cover (info_id <$> first) (first ≫= info_thumbhash)
      (with_stats None None (last_modified_time (alb_metadata a)) 0 0 a)
  else
    let data_in_album := sorted_newest data_in_album in
    settle_cover data_in_album
      (with_stats (info_timestamp <$> last data_in_album) (info_timestamp <$> head data_in_album)
         now (N.of_nat (length data_in_album)) (sum_sizes data_in_album) a).

(** ** Facts *)
Definition members (dir : Path) (tree : list DatabaseTimestamp) : list MediaItemInfo :=
  omap (media_info (belongs_to_album dir)) tree.
Definition descendants (dir : Path) (tree : list DatabaseTimestamp) : list MediaItemInfo :=
  omap (media_info (in_subtree dir)) tree.

Lemma sorted_newest_perm l : sorted_newest l ≡ₚ l.
Proof. apply merge_sort_Permutation. Qed.
Lemma elem_of_sorted_newest l i : i ∈ sorted_newest l <-> i ∈ l.
Proof. by rewrite sorted_newest_perm. Qed.

Lemma head_newest l i : head (sorted_newest l) = Some i ->
  i ∈ l /\ forall j, j ∈ l -> (info_timestamp j <= info_timestamp i)%Z.
Proof.
  intros Hh. pose proof (StronglySorted_merge_sort newest_first l) as Hs.
  fold (sorted_newest l) in Hs. destruct (sorted_newest l) as [|x s] eqn:Hl; simplify_eq/=.
  split; [by apply elem_of_sorted_newest; rewrite Hl; left|].
  intros j Hj. apply elem_of_sorted_newest in Hj. rewrite Hl in Hj.
  apply elem_of_cons in Hj as [->|Hj]; [lia|]. inversion Hs as [|? ? _ Hall]; subst.
  by eapply Forall_forall in Hall.
Qed.

Lemma last_oldest l i : last (sorted_newest l) = Some i ->
  i ∈ l /\ forall j, j ∈ l -> (info_timestamp i <= info_timestamp j)%Z.
Proof.
  intros Hh. pose proof (StronglySorted_merge_sort newest_first l) as Hs.
  fold (sorted_newest l) in Hs. apply last_Some in Hh as [s Hl]. rewrite Hl in Hs.
  split; [apply elem_of_sorted_newest; rewrite Hl; set_solver|].
  intros j Hj. apply elem_of_sorted_newest in Hj. rewrite Hl in Hj.
  apply elem_of_app in Hj as [Hj|Hj]; [|set_solver by lia].
  clear Hl. induction s as [|x s IH]; [set_solver|]. simpl in Hs.
  apply StronglySorted_inv in Hs as [Hs Hall].
  apply elem_of_cons in Hj as [->|Hj]; [|by apply IH].
  eapply Forall_forall in Hall; [exact Hall|]. set_solver.
Qed.

Lemma sorted_nonempty l : l <> [] -> exists x s, sorted_newest l = x :: s.
Proof.
  intros Hl. destruct (sorted_newest l) as [|x s] eqn:Hs; [|by eauto].
  destruct Hl. apply Permutation_nil. by rewrite <-Hs, sorted_newest_perm.
Qed.

Lemma sum_sizes_perm l l' : l ≡ₚ l' -> sum_sizes l = sum_sizes l'.
Proof.
  induction 1 as [|x l l' _ IH|x y l|l1 l2 l3 _ IH1 _ IH2]; simpl; try congruence.
  unfold wrapping_add_u64. rewrite !N.Div0.add_mod_idemp_r. f_equal. lia.
Qed.

(** What [self_update] never touches. *)
Definition album_identity (a : AlbumCombined) :=
  let m := alb_metadata a in
  (share_list m, dir_path m, alb_id m, title m, custom_title m, alb_trashed m, created_time m).
Definition album_stats (a : AlbumCombined) :=
  let m := alb_metadata a in (item_count m, item_size m, start_time m, end_time m).

Lemma settle_cover_spec l x a :
  head l = Some x ->
  let b := settle_cover l a in
  album_identity b = album_identity a /\ album_stats b = album_stats a /\
  exists c, c ∈ l /\ cover (alb_metadata b) = Some (info_id c) /\
    ((exists i, i ∈ l /\ cover (alb_metadata a) = Some (info_id i)) ->
     cover (alb_metadata b) = cover (alb_metadata a)).
Proof.
  intros Hx b. assert (x ∈ l) as Hin by (destruct l; simplify_eq/=; left).
  unfold b, settle_cover. rewrite Hx. destruct (cover (alb_metadata a)) as [cur|] eqn:Hcur.
  - destruct (existsb _ l) eqn:Hex.
    + apply existsb_exists in Hex as (i & Hi & He). apply list_elem_of_In in Hi.
      apply str_eqb_eq in He. subst cur. split_and!; eauto.
    + split_and!; try done. exists x. split_and!; try done.
      intros (i & Hi & [= ->]). rewrite <-not_true_iff_false in Hex. destruct Hex.
      apply existsb_exists. exists i. split; [by apply list_elem_of_In|apply str_eqb_refl].
  - split_and!; try done. exists x. split_and!; try done. by intros (i & _ & [=]).
Qed.

(** The bounds the newest-first order gives. *)
Lemma newest_bounds l : l <> [] -> exists lo hi,
  last (sorted_newest l) = Some lo /\ head (sorted_newest l) = Some hi /\ lo ∈ l /\ hi ∈ l /\
  forall i, i ∈ l -> (info_timestamp lo <= info_timestamp i <= info_timestamp hi)%Z.
Proof.
  intros Hl. destruct (sorted_nonempty l Hl) as (hi & s & Hs).
  destruct (last (sorted_newest l)) as [lo|] eqn:Hlo; [|by rewrite Hs in Hlo; apply last_None in Hlo].
  assert (head (sorted_newest l) = Some hi) as Hhi by (by rewrite Hs).
  pose proof (head_newest _ _ Hhi) as [? Hmax]. pose proof (last_oldest _ _ Hlo) as [? Hmin].
  exists lo, hi. split_and!; auto.
Qed.

(** After [self_update] an album with direct live members has their count,
    their total size, their oldest and newest timestamps, and a cover that is one
    of them, the previous cover when it still is one; an album without has zero
    statistics and the newest live item below it as cover, if any.  Identity,
    title and shares never change. *)
Theorem self_update_spec now tree a :
  let dir := components (dir_path (alb_metadata a)) in
  let a' := self_update now tree a in
  let m' := alb_metadata a' in
  album_identity a' = album_identity a /\
  item_count m' = N.of_nat (length (members dir tree)) /\
  item_size m' = sum_sizes (members dir tree) /\
  (members dir tree <> [] ->
     (exists lo hi, start_time m' = Some (info_timestamp lo) /\
        end_time m' = Some (info_timestamp hi) /\
        lo ∈ members dir tree /\ hi ∈ members dir tree /\
        forall i, i ∈ members dir tree ->
          (info_timestamp lo <= info_timestamp i <= info_timestamp hi)%Z) /\
     exists c, c ∈ members dir tree /\ cover m' = Some (info_id c) /\
       ((exists i, i ∈ members dir tree /\ cover (alb_metadata a) = Some (info_id i)) ->
          cover m' = cover (alb_metadata a))) /\
  (members dir tree = [] ->
     start_time m' = None /\ end_time m' = None /\
     match cover m' with
     | Some c => exists i, i ∈ descendants dir tree /\ info_id i = c /\
                   forall j, j ∈ descendants dir tree -> (info_timestamp j <= info_timestamp i)%Z
     | None => descendants dir tree = []
     end).
Proof.
  intros dir a' m'. unfold m', a', self_update. fold dir. fold (members dir tree).
  fold (descendants dir tree). destruct (decide (members dir tree = [])) as [Hnil|Hne].
  - rewrite Hnil. cbn. split_and!; try done. intros _. split_and!; try done.
    destruct (head (sorted_newest (descendants dir tree))) as [h|] eqn:Hh; cbn.
    + apply head_newest in Hh as [Hin Hmax]. eauto.
    + destruct (decide (descendants dir tree = [])) as [|Hd]; [done|].
      destruct (sorted_nonempty _ Hd) as (y & s & Hs). by rewrite Hs in Hh.
  - assert (is_empty (members dir tree) = false) as -> by (by destruct (members dir tree)).
    destruct (newest_bounds _ Hne) as (lo & hi & Hlo & Hhi & Hloin & Hhiin & Hb).
    rewrite Hlo, Hhi. set (a1 := with_stats _ _ _ _ _ a).
    destruct (settle_cover_spec _ _ a1 Hhi) as (Hid & Hst & c & Hc & Hcov & Hkeep).
    injection Hst as Hcount Hsize Hstart Hend. rewrite Hcount, Hsize, Hstart, Hend. cbn.
    split_and!; [by rewrite Hid| | |intros _|done].
    + by rewrite sorted_newest_perm.
    + apply sum_sizes_perm, sorted_newest_perm.
    + split; [exists lo, hi; split_and!; auto|]. exists c.
      rewrite elem_of_sorted_newest in Hc. split_and!; [done|exact Hcov|].
      intros (i & Hi & Hci). apply Hkeep. exists i. by rewrite elem_of_sorted_newest.
Qed.
