(* ===== verification/DirAlbum.v ===== *)
(** * DirAlbum: the directory-to-album cache ([backend/src/process/dir_album.rs])

    [DIR_ALBUM_CACHE] maps directories to album ids and is held locked for the
    whole of every operation, so operations are functions on the cache and on
    the set of albums waiting for a statistics update. *)

From S2P Require Import Prelude Errors Redb Paths Formats Model MetadataRecord.

#[export] Instance Component_countable : Countable Component.
Proof.
  refine (inj_countable' (fun c => match c with
    | RootDir => inl 0 | CurDir => inl 1 | ParentDir => inl 2 | Normal s => inr s end)
    (fun x => match x with
     | inl 0 => RootDir | inl 1 => CurDir | inl _ => ParentDir | inr s => Normal s end) _).
  by intros [].
Defined.

Record Albums := mkAlbums { cache : gmap Path str; pending_updates : gset str }.

Definition mark_album_for_update (i : str) (a : Albums) : Albums :=
  mkAlbums (cache a) ({[ i ]} ∪ pending_updates a).
Definition drain_pending_album_updates (a : Albums) : list str * Albums :=
  (elements (pending_updates a), mkAlbums (cache a) ∅).
Definition get_album_id_for_dir (dir : Path) (a : Albums) : option str := cache a !! dir.
Definition get_parent_album_id (dir : Path) (a : Albums) : option str :=
  p ← parent dir; cache a !! p.
(** [find_map] over the cache; ids are unique in it, so the order is immaterial. *)
Definition get_dir_path_for_album (i : str) (a : Albums) : option Path :=
  fst <$> List.find (fun kv => str_eqb kv.2 i) (map_to_list (cache a)).
Definition evict_dir_album (dir : Path) (a : Albums) : Albums :=
  mkAlbums (delete dir (cache a)) (pending_updates a).
Definition reset_dir_album_cache (_ : Albums) : Albums := mkAlbums ∅ ∅.

(** One round of [rewrite_dir_album_cache_prefix]. *)
Definition rekey (old_prefix new_prefix : Path) (c : gmap Path str) (entry : Path * str)
  : gmap Path str :=
  let c := delete entry.1 c in
  match path_strip_prefix old_prefix entry.1 with
  | Some rel => <[push new_prefix rel := entry.2]> c
  | None => c
  end.
Definition rewrite_dir_album_cache_prefix (old_prefix new_prefix : Path) (a : Albums) : Albums :=
  let matching :=
    filter (fun kv => path_starts_with kv.1 old_prefix = true) (map_to_list (cache a)) in
  mkAlbums (fold_left (rekey old_prefix new_prefix) matching (cache a)) (pending_updates a).

Definition mark_dir_albums_for_path (file_path : Path) (a : Albums) : Albums :=
  mkAlbums (cache a)
    (list_to_set ((filter (fun kv => path_starts_with file_path kv.1 = true)
                     (map_to_list (cache a))).*2) ∪ pending_updates a).

(** [get_or_create_dir_album]; [write_album_to_db] answers the id of the album it
    stored, or fails. *)
Definition get_or_create_dir_album (write_album_to_db : Path -> result str str) (dir : Path)
    (a : Albums) : result str str * Albums :=
  match cache a !! dir with
  | Some i => (Ok i, a)
  | None =>
      match write_album_to_db dir with
      | Err e => (Err (lit "Failed to create album: " ++ e), a)
      | Ok i => (Ok i, mkAlbums (<[dir := i]> (cache a)) (pending_updates a))
      end
  end.

(** [init_dir_album_cache]: albums with a payload whose record parses and whose
    directory still exists; all of them are queued for an update. *)
Definition init_dir_album_cache (metadata : gmap str MetadataRecord)
    (record_of : str -> option AssetRecord) (is_dir : Path -> bool) (a : Albums) : Albums :=
  let add c (kv : str * MetadataRecord) :=
    match kv.2 with
    | MAlbum _ =>
        match record_of kv.1 with
        | Some r =>
            let p := components (rec_path r) in
            if is_dir p then <[p := asset_id r]> c else c
        | None => c
        end
    | _ => c
    end in
  let c := fold_left add (map_to_list metadata) (cache a) in
  mkAlbums c (list_to_set (map_to_list c).*2 ∪ pending_updates a).

(** [prettify_dir_name] and [derive_default_title]. *)
Class Uppercase := { to_uppercase : N -> str }.
Definition spaces_of (s : str) : str :=
  (fun c => if (c =? 95) || (c =? 45) || (c =? 46) then 32 else c) <$> s.
(** [split_whitespace]. *)
Fixpoint split_words (s : str) : list str :=
  match s with
  | [] => [[]]
  | c :: s' =>
      if is_whitespace c then [] :: split_words s'
      else match split_words s' with w :: ws => (c :: w) :: ws | [] => [[c]] end
  end.
Definition split_whitespace (s : str) : list str :=
  filter (fun w => is_empty w = false) (split_words s).
Fixpoint join_spaces (ws : list str) : str :=
  match ws with [] => [] | [w] => w | w :: ws' => w ++ 32 :: join_spaces ws' end.
Definition prettify_dir_name {U : Uppercase} (name : str) : str :=
  join_spaces ((fun word => match word with [] => [] | c :: cs => to_uppercase c ++ cs end)
                 <$> split_whitespace (spaces_of name)).
Definition derive_default_title {U : Uppercase} (dir : str) : str :=
  prettify_dir_name (default (lit "Album") (file_name (components dir))).

(** ** Facts *)
Lemma path_app_prefix (p q rel : Path) : path_strip_prefix p (p ++ rel) = Some rel.
Proof. by apply path_strip_prefix_spec. Qed.

(** Relative parts below an absolute prefix hold no root or leading dot. *)
Definition below_names (p : Path) : Prop :=
  forall c, c ∈ p -> exists s, c = Normal s.

Lemma push_below new rel : below_names rel -> push new rel = new ++ rel.
Proof.
  destruct rel as [|[] rel]; intros Hb; try done.
  - destruct (Hb RootDir) as [s Hs]; [left|done].
  - destruct (Hb CurDir) as [s Hs]; [left|done].
Qed.

Section Rekey.
Context (old new : Path).
Hypothesis disjoint : forall r r', old ++ r <> new ++ r'.

Lemma rekey_fold l c :
  NoDup l.*1 -> Forall (fun kv => exists rel, kv.1 = old ++ rel /\ below_names rel) l ->
  let c' := fold_left (rekey old new) l c in
  (forall rel i, (old ++ rel, i) ∈ l -> c' !! (new ++ rel) = Some i /\ c' !! (old ++ rel) = None) /\
  (forall p, p ∉ l.*1 -> (forall rel, p = new ++ rel -> old ++ rel ∉ l.*1) -> c' !! p = c !! p).
Proof.
  revert c. induction l as [|[k i] l IH]; intros c Hnd Hall; simpl; [split; [set_solver|done]|].
  apply NoDup_cons in Hnd as [Hk Hnd]. apply Forall_cons in Hall as [(rel0 & Hk0 & Hb) Hall].
  simpl in Hk0. subst k. destruct (IH (rekey old new c (old ++ rel0, i)) Hnd Hall) as [IH1 IH2].
  assert (rekey old new c (old ++ rel0, i) = <[new ++ rel0 := i]> (delete (old ++ rel0) c)) as Hre.
  { unfold rekey. cbn [fst snd]. by rewrite path_app_prefix, push_below. }
  split.
  - intros rel i' [[= He <-]|Hin]%elem_of_cons; [|by apply IH1].
    apply app_inv_head in He as ->.
    rewrite !IH2, Hre; try done.
    + split; [apply lookup_insert_eq|]. rewrite lookup_insert_ne by (intros He; by eapply disjoint).
      apply lookup_delete_eq.
    + intros rel He. by apply disjoint in He.
    + intros Hin. apply list_elem_of_fmap in Hin as ([k j] & Heq & Hin). simpl in Heq.
      eapply Forall_forall in Hall as (r & Hr & _); [|exact Hin]. simpl in Hr. subst k.
      by apply eq_sym, disjoint in Hr.
    + intros rel He. apply app_inv_head in He as <-. done.
  - intros p Hp Hnew. rewrite IH2, Hre.
    + rewrite lookup_insert_ne, lookup_delete_ne; [done| |]; [set_solver|].
      intros <-. apply (Hnew rel0 eq_refl). left.
    + set_solver.
    + intros rel Hrel Hin. apply (Hnew rel Hrel). by right.
Qed.
End Rekey.

(** After a directory move the cache answers, for everything under the new
    location, what it answered for the same relative path under the old one;
    nothing is left under the old location and nothing else changes. *)
Theorem rewrite_prefix_moves old new a :
  (forall r r', old ++ r <> new ++ r') ->
  (forall rel, is_Some (cache a !! (old ++ rel)) -> below_names rel) ->
  (forall rel, cache a !! (new ++ rel) = None) ->
  let a' := rewrite_dir_album_cache_prefix old new a in
  (forall rel, cache a' !! (new ++ rel) = cache a !! (old ++ rel)) /\
  (forall rel, cache a' !! (old ++ rel) = None) /\
  (forall p, (forall rel, p <> old ++ rel /\ p <> new ++ rel) -> cache a' !! p = cache a !! p).
Proof.
  intros Hdis Hbelow Hfree a'.
  set (l := filter (fun kv => path_starts_with kv.1 old = true) (map_to_list (cache a))).
  assert (forall k i, (k, i) ∈ l <-> cache a !! k = Some i /\ exists rel, k = old ++ rel) as Hl.
  { intros k i. unfold l. rewrite list_elem_of_filter, elem_of_map_to_list. simpl.
    rewrite path_starts_with_spec. naive_solver. }
  destruct (rekey_fold old new Hdis l (cache a)) as [H1 H2].
  { unfold l. assert (NoDup (map_to_list (cache a)).*1) as Hnd by apply NoDup_fst_map_to_list.
    revert Hnd. generalize (map_to_list (cache a)). induction l0 as [|x xs IH]; [done|].
    intros [Hx Hnd]%NoDup_cons. rewrite filter_cons. case_decide; simpl; [|by apply IH].
    constructor; [|by apply IH]. intros Hin. apply Hx. apply list_elem_of_fmap in Hin as (y & -> & Hy).
    apply list_elem_of_fmap_2. by apply list_elem_of_filter in Hy as [_ Hy]. }
  { apply Forall_forall. intros [k i] Hin. apply Hl in Hin as [Hc [rel ->]]. exists rel.
    split; [done|]. apply Hbelow. by eexists. }
  assert (forall k, k ∈ l.*1 -> is_Some (cache a !! k) /\ exists rel, k = old ++ rel) as Hk.
  { intros k ([k' i] & -> & Hin)%list_elem_of_fmap. apply Hl in Hin as [Hc Hr].
    split; [by eexists|done]. }
  change (cache a') with (fold_left (rekey old new) l (cache a)). split_and!.
  - intros rel. destruct (cache a !! (old ++ rel)) as [i|] eqn:Hi.
    + apply H1. apply Hl. eauto.
    + rewrite H2, Hfree; [done| |].
      * intros Hin. apply Hk in Hin as [_ [r Hr]]. by apply eq_sym, Hdis in Hr.
      * intros r Hr Hin. apply app_inv_head in Hr as <-. apply Hk in Hin as [[j Hj] _]. congruence.
  - intros rel. destruct (cache a !! (old ++ rel)) as [i|] eqn:Hi.
    + apply (H1 rel i). apply Hl. eauto.
    + rewrite H2, Hi; [done| |].
      * intros Hin. apply Hk in Hin as [[j Hj] _]. congruence.
      * intros r Hr. by apply Hdis in Hr.
  - intros p Hp. apply H2.
    + intros Hin. apply Hk in Hin as [_ [r Hr]]. by destruct (Hp r).
    + intros r Hr. by destruct (Hp r).
Qed.

(** A directory gets one album: once [get_or_create_dir_album] has answered an
    id, it answers the same one, creating nothing, whatever albums other
    directories get in between. *)
Theorem one_album_per_directory w w' dir others i a a' :
  get_or_create_dir_album w dir a = (Ok i, a') ->
  let a'' := fold_left (fun a d => snd (get_or_create_dir_album w d a)) others a' in
  get_or_create_dir_album w' dir a'' = (Ok i, a'').
Proof.
  intros Hg. assert (cache a' !! dir = Some i) as Hc.
  { unfold get_or_create_dir_album in Hg. destruct (cache a !! dir) eqn:Hd; [by simplify_eq|].
    destruct (w dir); simplify_eq. apply lookup_insert_eq. }
  clear Hg a. revert a' Hc. induction others as [|d others IH]; intros a' Hc; simpl.
  - unfold get_or_create_dir_album. by rewrite Hc.
  - apply IH. unfold get_or_create_dir_album. destruct (cache a' !! d) eqn:Hd; [done|].
    destruct (w d); simpl; [|done]. rewrite lookup_insert_ne; [done|congruence].
Qed.

Definition ex_cache : Albums :=
  mkAlbums {[ components (lit "/img/a") := lit "A"; components (lit "/img/a/x") := lit "X" ]} ∅.

Lemma rewrite_prefix_moves_witness :
  cache (rewrite_dir_album_cache_prefix (components (lit "/img/a")) (components (lit "/img/b"))
           ex_cache) !! components (lit "/img/b/x") = Some (lit "X").
Proof.
  refine (eq_trans (proj1 (rewrite_prefix_moves (components (lit "/img/a"))
    (components (lit "/img/b")) ex_cache _ _ _) [Normal (lit "x")]) _).
  - intros r r' H. discriminate H.
  - intros rel [i Hi]. unfold ex_cache in Hi. cbn [cache] in Hi. apply lookup_insert_Some in Hi as [[He _]|[_ Hi]].
    + assert (rel = []) as -> by (by destruct rel). intros c Hc. by apply not_elem_of_nil in Hc.
    + apply lookup_singleton_Some in Hi as [He _].
      assert (rel = [Normal (lit "x")]) as -> by (symmetry; by apply (app_inv_head (components (lit "/img/a")))).
      intros c Hc. apply list_elem_of_singleton in Hc as ->. by eexists.
  - intros rel. unfold ex_cache. cbn [cache]. rewrite lookup_insert_ne by discriminate.
    by apply lookup_singleton_ne.
  - reflexivity.
Defined.

Lemma one_album_per_directory_witness :
  fst (get_or_create_dir_album (fun _ => Ok (lit "N")) (components (lit "/img/a"))
    (snd (get_or_create_dir_album (fun _ => Err []) (components (lit "/img/a")) ex_cache)))
  = Ok (lit "A").
Proof.
  exact (f_equal fst (one_album_per_directory (fun _ => Err []) (fun _ => Ok (lit "N"))
    (components (lit "/img/a")) [] (lit "A") ex_cache ex_cache eq_refl)).
Defined.
