(* ===== verification/Expression.v ===== *)
(** * Expression: list queries and their filters
      ([backend/src/model/expression.rs])

    A query becomes a predicate on records, in full ([generate_filter]) or with
    metadata hidden for share viewers ([generate_filter_hide_metadata]).  The
    filters read the directory cache and the image root, the [Library]. *)

From S2P Require Import Prelude Errors Paths Formats Model MetadataRecord DirAlbum.

Inductive FilterValue := FValue (s : str) | FExists (b : bool).
Inductive AlbumFilterValue := AValue (i : str) | AExists (b : bool).
Inductive Expression :=
| EOr (es : list Expression) | EAnd (es : list Expression) | ENot (e : Expression)
| ETag (t : FilterValue) | EExtType (s : str) | EExt (s : str)
| EModel (f : FilterValue) | EMake (f : FilterValue) | EPath (s : str)
| EAlbum (f : AlbumFilterValue) | ERootAlbum (b : bool) | EAny (s : str)
| EParentAlbum (i : str) | ETrashed (b : bool).

Record Library := mkLibrary { config : Config; albums : Albums }.

Definition normalize_parent (lib : Library) (file_path : str) : option Path :=
  let p := components file_path in
  let abs := if is_absolute p then p
             else match get_resolved_image_home (config lib) with
                  | Some image_home => push image_home p
                  | None => p
                  end in
  parent abs.

Fixpoint contains_root_album_true (e : Expression) : bool :=
  match e with
  | ERootAlbum value => value
  | EAnd es | EOr es => existsb contains_root_album_true es
  | _ => false
  end.

(** ** Atoms shared by the two filters *)
Definition lower_contains (s lower : str) : bool := contains (to_ascii_lowercase s) lower.
Definition tag_matches (t : FilterValue) (d : AbstractData) : bool :=
  match t with
  | FValue s => bool_decide (s ∈ tags (object_of d))
  | FExists e => negb (Bool.eqb (bool_decide (tags (object_of d) = ∅)) e)
  end.
Definition trashed_matches (value : bool) (d : AbstractData) : bool :=
  match d with
  | Image i => is_some_and (fun e => Bool.eqb (entry_trashed e) value) (img_path (img_metadata i))
  | Video v => is_some_and (fun e => Bool.eqb (entry_trashed e) value) (vid_path (vid_metadata v))
  | Album a => Bool.eqb (alb_trashed (alb_metadata a)) value
  end.
Definition media_ext (d : AbstractData) : option str :=
  match d with
  | Image i => Some (img_ext (img_metadata i)) | Video v => Some (vid_ext (vid_metadata v))
  | Album _ => None
  end.
Definition ext_matches (ext : str) (d : AbstractData) : bool :=
  is_some_and (fun e => lower_contains e (to_ascii_lowercase ext)) (media_ext d).
(** [exif_vec.get(key)] of a medium. *)
Definition exif_get (key : str) (d : AbstractData) : option str := m ← exif_vec d; m !! key.
Definition exif_contains (key lower : str) (d : AbstractData) : bool :=
  is_some_and (fun v => lower_contains v lower) (exif_get key d).
Definition exif_matches (key : str) (f : FilterValue) (d : AbstractData) : bool :=
  match f with
  | FValue v => exif_contains key (to_ascii_lowercase v) d
  | FExists e => is_some_and (fun m => Bool.eqb (is_some (m !! key)) e) (exif_vec d)
  end.
Definition path_contains (lower : str) (d : AbstractData) : bool :=
  is_some_and (fun e => lower_contains (file e) lower) (path d).
(** A medium whose stored album field satisfies [p]. *)
Definition album_field (p : option str -> bool) (d : AbstractData) : bool :=
  match d with
  | Image i => p (img_album (img_metadata i)) | Video v => p (vid_album (vid_metadata v))
  | Album _ => false
  end.

Definition album_matches (lib : Library) (f : AlbumFilterValue) (d : AbstractData) : bool :=
  match f with
  | AValue i =>
      match get_dir_path_for_album i (albums lib) with
      | Some dir =>
          is_some_and (fun a => bool_decide (normalize_parent lib (file a) = Some dir)) (path d)
      | None => false
      end
  | AExists e => album_field (fun a => Bool.eqb (is_some a) e) d
  end.
Definition parent_of_album (lib : Library) (d : AbstractData) : option (option str) :=
  match d with
  | Album a => Some (get_parent_album_id (components (dir_path (alb_metadata a))) (albums lib))
  | _ => None
  end.

Definition any_matches (s : str) (d : AbstractData) : bool :=
  let lower := to_ascii_lowercase s in
  match d with
  | Album a =>
      bool_decide (s ∈ tags (alb_object a))
      || contains (to_ascii_lowercase (lit "album")) lower
      || lower_contains (id (alb_object a)) lower
  | _ =>
      bool_decide (s ∈ tags (object_of d))
      || contains (ext_type d) s
      || lower_contains (id (object_of d)) lower
      || is_some_and (fun e => lower_contains e lower) (media_ext d)
      || exif_contains (lit "Make") lower d
      || exif_contains (lit "Model") lower d
      || path_contains lower d
  end.
Definition any_matches_hidden (s : str) (d : AbstractData) : bool :=
  let lower := to_ascii_lowercase s in
  match d with
  | Album _ => false
  | _ =>
      contains (ext_type d) s
      || is_some_and (fun e => lower_contains e lower) (media_ext d)
      || exif_contains (lit "Make") lower d
      || exif_contains (lit "Model") lower d
  end.

(** ** The filters *)
Fixpoint generate_filter (lib : Library) (e : Expression) (d : AbstractData) : bool :=
  match e with
  | EOr es => existsb (fun e => generate_filter lib e d) es
  | EAnd es => forallb (fun e => generate_filter lib e d) es
  | ENot e => negb (generate_filter lib e d)
  | ETag t => tag_matches t d
  | ETrashed value => trashed_matches value d
  | EExtType s => contains s (ext_type d)
  | EExt s => ext_matches s d
  | EModel f => exif_matches (lit "Model") f d
  | EMake f => exif_matches (lit "Make") f d
  | EPath s => path_contains (to_ascii_lowercase s) d
  | EAlbum f => album_matches lib f d
  | ERootAlbum value =>
      is_some_and (fun p => Bool.eqb (negb (is_some p)) value) (parent_of_album lib d)
  | EParentAlbum i =>
      is_some_and (fun p => bool_decide (p = Some i)) (parent_of_album lib d)
  | EAny s => any_matches s d
  end.

Fixpoint generate_filter_hide_metadata (shared_album_id : str) (e : Expression) (d : AbstractData)
  : bool :=
  match e with
  | EOr es => existsb (fun e => generate_filter_hide_metadata shared_album_id e d) es
  | EAnd es => forallb (fun e => generate_filter_hide_metadata shared_album_id e d) es
  | ENot e => negb (generate_filter_hide_metadata shared_album_id e d)
  | EAlbum (AValue i) =>
      if str_eqb i shared_album_id then album_field (fun a => bool_decide (a = Some i)) d
      else false
  | EAlbum (AExists e) => match d with Album _ => false | _ => e end
  | ETag _ | EPath _ | ERootAlbum _ | EParentAlbum _ => false
  | ETrashed value => trashed_matches value d
  | EExtType s => match d with Album _ => false | _ => contains s (ext_type d) end
  | EExt s => ext_matches s d
  | EModel f => exif_matches (lit "Model") f d
  | EMake f => exif_matches (lit "Make") f d
  | EAny s => any_matches_hidden s d
  end.

(** ** Induction over queries *)
Definition is_atom (e : Expression) : bool :=
  match e with EOr _ | EAnd _ | ENot _ => false | _ => true end.

Section ExpressionInd.
Variable P : Expression -> Prop.
Hypothesis P_or : forall es, Forall P es -> P (EOr es).
Hypothesis P_and : forall es, Forall P es -> P (EAnd es).
Hypothesis P_not : forall e, P e -> P (ENot e).
Hypothesis P_atom : forall e, is_atom e = true -> P e.

Fixpoint expression_induction (e : Expression) : P e :=
  let fix go (es : list Expression) : Forall P es :=
    match es with
    | [] => List.Forall_nil _
    | x :: xs => List.Forall_cons _ x xs (expression_induction x) (go xs)
    end in
  match e with
  | EOr es => P_or es (go es)
  | EAnd es => P_and es (go es)
  | ENot e => P_not e (expression_induction e)
  | ETag t => P_atom (ETag t) eq_refl
  | EExtType s => P_atom (EExtType s) eq_refl
  | EExt s => P_atom (EExt s) eq_refl
  | EModel f => P_atom (EModel f) eq_refl
  | EMake f => P_atom (EMake f) eq_refl
  | EPath s => P_atom (EPath s) eq_refl
  | EAlbum f => P_atom (EAlbum f) eq_refl
  | ERootAlbum b => P_atom (ERootAlbum b) eq_refl
  | EAny s => P_atom (EAny s) eq_refl
  | EParentAlbum i => P_atom (EParentAlbum i) eq_refl
  | ETrashed b => P_atom (ETrashed b) eq_refl
  end.
End ExpressionInd.

(** ** Properties *)

(** What a share that hides metadata may base a query on: the kind of record,
    whether it belongs to the shared album, its trash flag, its extension and the
    camera make and model. *)
Definition exposed (shared : str) (d : AbstractData) :=
  (ext_type d, album_field (fun a => bool_decide (a = Some shared)) d,
   (trashed_matches true d, trashed_matches false d), media_ext d,
   match d with Album _ => false | _ => true end,
   (exif_get (lit "Make") d, exif_get (lit "Model") d)).

Lemma trashed_exposed shared d d' b :
  exposed shared d = exposed shared d' -> trashed_matches b d = trashed_matches b d'.
Proof. intros [=]. by destruct b. Qed.

Lemma exif_exposed key f d d' :
  exif_get key d = exif_get key d' ->
  match d with Album _ => false | _ => true end = match d' with Album _ => false | _ => true end ->
  exif_matches key f d = exif_matches key f d'.
Proof.
  intros Hg Hm. destruct f as [v|b]; simpl.
  - unfold exif_contains. by rewrite Hg.
  - unfold exif_get in Hg. destruct d, d'; simpl in *; try done; by rewrite Hg.
Qed.

(** With metadata hidden, a query cannot tell apart two records that agree on
    the exposed fields: neither tags, nor description, rating, path, title, nor the
    album structure influences which rows a viewer gets, negations included. *)
Theorem hidden_filter_noninterference shared e d d' :
  exposed shared d = exposed shared d' ->
  generate_filter_hide_metadata shared e d = generate_filter_hide_metadata shared e d'.
Proof.
  intros Hx. pose proof Hx as [= Hty Halb Ht Hf Hext Hmed Hmake Hmodel].
  induction e as [es IH|es IH|e IH|e Hatom] using expression_induction; simpl.
  - induction IH as [|e es He _ IH]; simpl; [done|]. by rewrite He, IH.
  - induction IH as [|e es He _ IH]; simpl; [done|]. by rewrite He, IH.
  - by rewrite IH.
  - destruct e as [| | | | | | | | |[i|b]| | | |]; simpl; try done.
    + destruct d, d'; simpl in *; try discriminate; try done; congruence.
    + unfold ext_matches. by rewrite Hext.
    + by apply exif_exposed.
    + by apply exif_exposed.
    + destruct (str_eqb i shared) eqn:Hi; [|done]. apply str_eqb_eq in Hi as ->. exact Halb.
    + by destruct d, d'.
    + unfold any_matches_hidden, exif_contains. rewrite <-Hmake, <-Hmodel, <-Hext.
      destruct d, d'; simpl in *; try discriminate; try done; congruence.
    + by apply (trashed_exposed shared).
Qed.

(** Queries over the record itself, which hiding metadata leaves alone. *)
Fixpoint embedded_only (e : Expression) : bool :=
  match e with
  | EOr es | EAnd es => forallb embedded_only es
  | ENot e => embedded_only e
  | EExtType _ | EExt _ | EModel _ | EMake _ | ETrashed _ => true
  | _ => false
  end.

(** On images and videos, hiding metadata changes nothing for queries built
    from kind, extension, camera and trash conditions. *)
Theorem hidden_filter_agrees lib shared e d :
  embedded_only e = true -> is_image d = true \/ is_video d = true ->
  generate_filter_hide_metadata shared e d = generate_filter lib e d.
Proof.
  intros He Hd. induction e as [es IH|es IH|e IH|e Hatom] using expression_induction; simpl in *.
  - induction IH as [|x es Hx _ IH]; simpl in *; [done|]. apply andb_true_iff in He as [H1 H2].
    by rewrite Hx, IH.
  - induction IH as [|x es Hx _ IH]; simpl in *; [done|]. apply andb_true_iff in He as [H1 H2].
    by rewrite Hx, IH.
  - by rewrite IH.
  - destruct e; simpl in *; try done. destruct d; try done. by destruct Hd.
Qed.

(** The filters obey the Boolean laws a query author expects: negation of a
    disjunction is the conjunction of negations and conversely, and the two trash
    views are disjoint and cover exactly the records that still have a path. *)
Theorem filter_boolean_laws lib es d :
  generate_filter lib (ENot (EOr es)) d = generate_filter lib (EAnd (ENot <$> es)) d /\
  generate_filter lib (ENot (EAnd es)) d = generate_filter lib (EOr (ENot <$> es)) d /\
  generate_filter lib (EAnd [ETrashed true; ETrashed false]) d = false /\
  (generate_filter lib (EOr [ETrashed true; ETrashed false]) d = true <->
   visibility_path d <> None).
Proof.
  simpl. split_and!.
  - induction es as [|e es IH]; simpl; [done|]. by rewrite negb_orb, IH.
  - induction es as [|e es IH]; simpl; [done|]. by rewrite negb_andb, IH.
  - destruct d as [i|v|a]; simpl.
    + destruct (img_path (img_metadata i)) as [e|]; simpl; [by destruct (entry_trashed e)|done].
    + destruct (vid_path (vid_metadata v)) as [e|]; simpl; [by destruct (entry_trashed e)|done].
    + by destruct (alb_trashed (alb_metadata a)).
  - destruct d as [i|v|a]; simpl.
    + destruct (img_path (img_metadata i)) as [e|]; simpl; [by destruct (entry_trashed e)|].
      split; [done|]. by intros [].
    + destruct (vid_path (vid_metadata v)) as [e|]; simpl; [by destruct (entry_trashed e)|].
      split; [done|]. by intros [].
    + by destruct (alb_trashed (alb_metadata a)).
Qed.

(** A query can select root albums without [contains_root_album_true] seeing
    it: [Not(RootAlbum(false))] matches every root album. *)
Theorem root_selection_unseen lib a :
  get_parent_album_id (components (dir_path (alb_metadata a))) (albums lib) = None ->
  generate_filter lib (ENot (ERootAlbum false)) (Album a) = true /\
  generate_filter lib (ERootAlbum true) (Album a) = true /\
  contains_root_album_true (ENot (ERootAlbum false)) = false /\
  contains_root_album_true (ENot (ENot (ERootAlbum true))) = false.
Proof. intros Hp. simpl. by rewrite Hp. Qed.

Definition ex_lib : Library := mkLibrary (mkConfig (Some (components (lit "/img"))) None) ex_cache.
Definition ex_photo (t : gset str) : AbstractData :=
  Image (mkImage (mkObject (lit "h") TImage false None None t None 0)
    (img_set_path (Some (new_entry 0 (lit "/img/a/p.jpg") 0)) (new_image_metadata 1 2 3 (lit "jpg")))).

Lemma hidden_filter_noninterference_witness :
  generate_filter_hide_metadata (lit "A") (ENot (ETag (FValue (lit "secret")))) (ex_photo {[ lit "secret" ]})
  = generate_filter_hide_metadata (lit "A") (ENot (ETag (FValue (lit "secret")))) (ex_photo ∅).
Proof. exact (hidden_filter_noninterference (lit "A") _ _ _ eq_refl). Defined.

Lemma hidden_filter_agrees_witness :
  generate_filter_hide_metadata (lit "A") (EAnd [EExt (lit "JP"); ETrashed false]) (ex_photo ∅)
  = generate_filter ex_lib (EAnd [EExt (lit "JP"); ETrashed false]) (ex_photo ∅).
Proof.
  exact (hidden_filter_agrees ex_lib (lit "A") (EAnd [EExt (lit "JP"); ETrashed false]) (ex_photo ∅)
           eq_refl (or_introl eq_refl)).
Defined.

Lemma root_selection_unseen_witness :
  generate_filter ex_lib (ENot (ERootAlbum false))
    (Album (mkAlbum (new_object 0 (lit "A") TAlbum) (default_album (lit "A") (lit "/img/a") false)))
  = true.
Proof.
  exact (proj1 (root_selection_unseen ex_lib
    (mkAlbum (new_object 0 (lit "A") TAlbum) (default_album (lit "A") (lit "/img/a") false)) eq_refl)).
Defined.
