(* ===== verification/Snapshots.v ===== *)
(** * Snapshots: query results kept for paging

    [storage/cache.rs] and the batch tasks that move its contents to disk and
    drop them again.  A prefetch freezes its result rows under a fresh snapshot
    id; the rows, the scroll bar and the data pages are read from the snapshot,
    first in memory, then in the disk table named after the id.  Query results
    are remembered by query hash, on disk in a table named after the version of
    the tree.  [DashMap] iteration order and the outcome of every disk call are
    parameters. *)

From S2P Require Import Prelude Errors.

Definition ROW_BATCH_NUMBER : N := 20.

Record ReducedData := mkReduced {
  r_asset_id : str; r_hash : str; r_width : N; r_height : N; r_date : Z; r_update_at : Z;
  r_pending : bool
}.
Record Prefetch := mkPrefetch { pf_timestamp : Z; locate_to : option N; data_length : N }.
Record Row := mkRow {
  row_start : N; row_end : N; display_elements : list (N * N); row_index : N
}.
Record ScrollBarData := mkScroll { sb_year : N; sb_month : N; sb_index : N }.

(** The two caches, the expiry table ([None] until first written), the last
    snapshot id and [VERSION_COUNT_TIMESTAMP]. *)
Record Snapshots := mkSnapshots {
  tree_memory : gmap Z (list ReducedData);
  tree_disk : gmap Z (gmap N ReducedData);
  query_memory : gmap N Prefetch;
  query_disk : gmap Z (gmap N Prefetch);
  expire_table : option (gmap Z (option Z));
  last_snapshot_id : Z;
  version : Z
}.
Definition with_tree m d (s : Snapshots) : Snapshots :=
  mkSnapshots m d (query_memory s) (query_disk s) (expire_table s) (last_snapshot_id s) (version s).
Definition with_query m d (s : Snapshots) : Snapshots :=
  mkSnapshots (tree_memory s) (tree_disk s) m d (expire_table s) (last_snapshot_id s) (version s).
Definition with_expire e v (s : Snapshots) : Snapshots :=
  mkSnapshots (tree_memory s) (tree_disk s) (query_memory s) (query_disk s) e
    (last_snapshot_id s) v.

(** ** Snapshot ids *)
Definition i64_top : Z := 9223372036854775807.
Definition next_snapshot_id (now : Z) (s : Snapshots) : Z * Snapshots :=
  let next := Z.max now (Z.min (last_snapshot_id s + 1) i64_top) in
  (next, mkSnapshots (tree_memory s) (tree_disk s) (query_memory s) (query_disk s)
           (expire_table s) next (version s)).

(** [TREE_SNAPSHOT.in_memory.insert] under a fresh id, and
    [QUERY_SNAPSHOT.in_memory.insert]. *)
Definition insert_snapshot (now : Z) (rows : list ReducedData) (s : Snapshots) : Z * Snapshots :=
  let '(id, s') := next_snapshot_id now s in
  (id, with_tree (<[id := rows]> (tree_memory s')) (tree_disk s') s').
Definition remember_query (h : N) (p : Prefetch) (s : Snapshots) : Snapshots :=
  with_query (<[h := p]> (query_memory s)) (query_disk s) s.

(** ** Disk calls *)
Inductive StoreOp :=
| SBeginRead | SBeginWrite | SOpen | SLen | SGet (i : N) | SIter | SInsert (k : N) | SCommit.
Class Store := {
  sfault : StoreOp -> option str;
  (** [in_memory.iter().next()]: some entry of the map *)
  pick_tree : list Z -> option Z;
  pick_query : list N -> option N
}.
Class StoreLaws (St : Store) := {
  pick_tree_elem ks k : pick_tree ks = Some k -> k ∈ ks;
  pick_tree_none ks : pick_tree ks = None -> ks = [];
  pick_query_elem ks k : pick_query ks = Some k -> k ∈ ks;
  pick_query_none ks : pick_query ks = None -> ks = []
}.
Definition store {St : Store} (op : StoreOp) : result str unit :=
  match sfault op with Some e => Err e | None => Ok tt end.

(** A disk on which every call succeeds. *)
Class Sound (St : Store) := sound op : sfault (Store:=St) op = None.

(** ** Reading a snapshot *)
Inductive SnapshotReadError := NotFound (ts : Z) | Storage (msg : str).
Definition show_Z (z : Z) : str := lit (pretty z).
Definition into_app_error (e : SnapshotReadError) : AppError :=
  match e with
  | NotFound ts => new_error InvalidInput (lit "Unknown snapshot id: " ++ show_Z ts)
  | Storage m => from_err Database m
  end.

Inductive MyCow := InMemory (rs : list ReducedData) | OnDisk (t : gmap N ReducedData).

(** Rows of a disk table in key order. *)
Definition index_le (a b : N * ReducedData) : Prop := a.1 <= b.1.
#[export] Instance index_le_dec a b : Decision (index_le a b).
Proof. unfold index_le. apply _. Defined.
Definition disk_entries (t : gmap N ReducedData) : list (N * ReducedData) :=
  merge_sort index_le (map_to_list t).

Definition wmul (a b : N) : N := (a * b) mod 18446744073709551616.
Definition div_ceil (a b : N) : N := if a mod b =? 0 then a / b else a / b + 1.

(** [a..b], empty when [b <= a]. *)
Definition range (a b : N) : list N := N.of_nat <$> seq (N.to_nat a) (N.to_nat (b - a)).

Section Reads.
Context {St : Store}.

Definition read_tree_snapshot (ts : Z) (s : Snapshots) : result SnapshotReadError MyCow :=
  match tree_memory s !! ts with
  | Some data => Ok (InMemory data)
  | None =>
      _ ← map_err Storage (store SBeginRead);
      match tree_disk s !! ts with
      | None => Err (NotFound ts)
      | Some table => _ ← map_err Storage (store SOpen); Ok (OnDisk table)
      end
  end.

Definition cow_len (c : MyCow) : result SnapshotReadError N :=
  match c with
  | InMemory data => Ok (N.of_nat (length data))
  | OnDisk table => _ ← map_err Storage (store SLen); Ok (N.of_nat (size table))
  end.

Definition lookup_disk (t : gmap N ReducedData) (msg : str) (i : N) : result str ReducedData :=
  _ ← store (SGet i); ok_or msg (t !! i).

Definition get_width_height (c : MyCow) (i : N) : result str (N * N) :=
  let msg := lit "Fail to find with and height in tree snapshots for index " ++ show_N i in
  data ← match c with
         | InMemory data => ok_or msg (data !! N.to_nat i)
         | OnDisk table => lookup_disk table msg i
         end;
  Ok (r_width data, r_height data).

(** [None]: indexing past the end of the vector panics. *)
Definition get_reduced (c : MyCow) (i : N) : option (result str ReducedData) :=
  match c with
  | InMemory data => Ok <$> data !! N.to_nat i
  | OnDisk table =>
      Some (lookup_disk table (lit "Fail to find snapshot entry for index " ++ show_N i) i)
  end.
Definition get_hash (c : MyCow) (i : N) : option (result str str) :=
  match c with
  | InMemory data => (fun d => Ok (r_hash d)) <$> data !! N.to_nat i
  | OnDisk table =>
      Some (r_hash <$> lookup_disk table
              (lit "Fail to find hash in tree snapshots for index " ++ show_N i) i)
  end.
Definition get_asset_id (c : MyCow) (i : N) : option (result str str) :=
  match c with
  | InMemory data => (fun d => Ok (r_asset_id d)) <$> data !! N.to_nat i
  | OnDisk table =>
      Some (r_asset_id <$> lookup_disk table
              (lit "Fail to find asset_id in tree snapshots for index " ++ show_N i) i)
  end.

(** [(a..b).map(f).collect::<Result<_>>()]. *)
Fixpoint try_map {A B : Type} (f : A -> result str B) (l : list A) : result str (list B) :=
  match l with
  | [] => Ok []
  | a :: l' => b ← f a; bs ← try_map f l'; Ok (b :: bs)
  end.

Definition read_row (row : N) (ts : Z) (s : Snapshots) : result SnapshotReadError Row :=
  tree_snapshot ← read_tree_snapshot ts s;
  len ← cow_len tree_snapshot;
  let chunk_count := div_ceil len ROW_BATCH_NUMBER in
  if chunk_count <? row then Err (Storage (lit "Row index out of bounds"))
  else
    let start := wmul row ROW_BATCH_NUMBER in
    let stop := N.min (wrapping_add_u64 start ROW_BATCH_NUMBER) len in
    elements ← map_err Storage (try_map (get_width_height tree_snapshot) (range start stop));
    Ok (mkRow start (wrapping_add_u64 start ROW_BATCH_NUMBER - 1) elements row).
End Reads.

(** [Utc.timestamp_millis_opt(date).single()], its year and month. *)
Class Calendar := { year_month : Z -> option (Z * N) }.
Definition as_usize (z : Z) : N := Z.to_N (z mod 18446744073709551616).

Section Scroll.
Context {St : Store} {Ca : Calendar}.

Definition to_year_month (date : Z) : result SnapshotReadError (Z * N) :=
  ok_or (Storage (lit "invalid timestamp " ++ show_Z date ++ lit " in tree snapshot data"))
    (year_month date).

Fixpoint scroll_loop (index : N) (last : option (Z * N)) (rows : list ReducedData)
  : result SnapshotReadError (list ScrollBarData) :=
  match rows with
  | [] => Ok []
  | data :: rest =>
      ym ← to_year_month (r_date data);
      bars ← scroll_loop (index + 1) (Some ym) rest;
      Ok (if bool_decide (last = Some ym) then bars
          else mkScroll (as_usize ym.1) ym.2 index :: bars)
  end.

Definition read_scrollbar (ts : Z) (s : Snapshots) : result SnapshotReadError (list ScrollBarData) :=
  tree_snapshot ← read_tree_snapshot ts s;
  match tree_snapshot with
  | InMemory data => scroll_loop 0 None data
  | OnDisk table =>
      _ ← map_err Storage (store SIter);
      scroll_loop 0 None (disk_entries table).*2
  end.
End Scroll.

(** ** Query cache *)
(** [None] is the [expect] on [begin_read]; an [open_table] or [get] failure,
    or a missing table, is an error the caller ignores. *)
Definition read_query_snapshot {St : Store} (query_hash : N) (s : Snapshots)
  : option (result str (option Prefetch)) :=
  match query_memory s !! query_hash with
  | Some data => Some (Ok (Some data))
  | None =>
      match store SBeginRead with
      | Err _ => None
      | Ok _ =>
          Some (table ← ok_or (lit "Table does not exist") (query_disk s !! version s);
                _ ← store SOpen; _ ← store (SGet query_hash);
                Ok (table !! query_hash))
      end
  end.

(** ** Moving the caches to disk *)
Section Flush.
Context {St : Store}.

(** A failed insert is logged and the loop goes on. *)
Fixpoint flush_rows (i : N) (rs : list ReducedData) (t : gmap N ReducedData)
  : gmap N ReducedData :=
  match rs with
  | [] => t
  | d :: rs' => flush_rows (i + 1) rs' (if is_ok (store (SInsert i)) then <[i := d]> t else t)
  end.

(** One entry; [None] leaves the loop. *)
Definition flush_tree_entry (ts : Z) (data : list ReducedData) (s : Snapshots)
  : option Snapshots :=
  if is_ok (store SBeginWrite) && is_ok (store SOpen) && is_ok (store SCommit) then
    let table := flush_rows 0 data (default ∅ (tree_disk s !! ts)) in
    Some (with_tree (delete ts (tree_memory s)) (<[ts := table]> (tree_disk s)) s)
  else None.
Definition flush_query_entry (h : N) (p : Prefetch) (s : Snapshots) : option Snapshots :=
  if is_ok (store SBeginWrite) && is_ok (store SOpen) && is_ok (store SCommit) then
    let table := default ∅ (query_disk s !! version s) in
    let table := if is_ok (store (SInsert h)) then <[h := p]> table else table in
    Some (with_query (delete h (query_memory s)) (<[version s := table]> (query_disk s)) s)
  else None.

Fixpoint flush_tree_loop (fuel : nat) (s : Snapshots) : Snapshots :=
  match fuel with
  | O => s
  | S fuel' =>
      match (ts ← pick_tree (map_to_list (tree_memory s)).*1;
             data ← tree_memory s !! ts; flush_tree_entry ts data s) with
      | Some s' => flush_tree_loop fuel' s'
      | None => s
      end
  end.
Fixpoint flush_query_loop (fuel : nat) (s : Snapshots) : Snapshots :=
  match fuel with
  | O => s
  | S fuel' =>
      match (h ← pick_query (map_to_list (query_memory s)).*1;
             p ← query_memory s !! h; flush_query_entry h p s) with
      | Some s' => flush_query_loop fuel' s'
      | None => s
      end
  end.
(** Every turn removes an entry, so the number of entries is fuel enough. *)
Definition flush_tree_snapshot_task (s : Snapshots) : Snapshots :=
  flush_tree_loop (size (tree_memory s)) s.
Definition flush_query_snapshot_task (s : Snapshots) : Snapshots :=
  flush_query_loop (size (query_memory s)) s.
End Flush.

(** ** Versions and expiry (a failing disk call panics here) *)
(** The end of [refresh_tree_cache]. *)
Definition store_version (now : Z) (s : Snapshots) : Snapshots := with_expire (expire_table s) now s.
(** [VERSION_COUNT_TIMESTAMP.fetch_add(1)] of [assign_album]. *)
Definition bump_version (s : Snapshots) : Snapshots :=
  with_expire (expire_table s) (version s + 1) s.

Definition HOUR_MILLIS : Z := 3600000.
Definition update_expire_task (now : Z) (s : Snapshots) : bool * Snapshots :=
  let last_timestamp := version s in
  if (0 <? last_timestamp)%Z then
    let new_expire_time := Z.min (now + HOUR_MILLIS) i64_top in
    let t := default ∅ (expire_table s) in
    (true, with_expire (Some (<[now := None]> (<[last_timestamp := Some new_expire_time]> t))) now s)
  else (false, with_expire (expire_table s) now s).

Definition expired_check (now ts : Z) (t : gmap Z (option Z)) : bool * gmap Z (option Z) :=
  match mjoin (t !! ts) with
  | Some expire_time =>
      if (expire_time <? now)%Z
      then (true, filter (fun kv => ~ (kv.1 <= ts)%Z) t)
      else (false, t)
  | None => (false, t)
  end.

(** [remove_task]. *)
Definition remove_snapshot (ts : Z) (d : gmap Z (gmap N ReducedData)) := delete ts d.

(** The sweep visits the query tables on a thread pool; [order] is the order in
    which the visits happen and [now] the clock; only tables that exist are
    visited.  Opening the expiry table before it was ever written panics
    ([None]). *)
Definition sweep_table (now : Z) (s : Snapshots) (ts : Z) : option Snapshots :=
  match query_disk s !! ts with None => Some s | Some q =>
  if (ts <? version s)%Z then
    t ← expire_table s;
    let '(expired, t') := expired_check now ts t in
    let s' := with_expire (Some t') (version s) s in
    if expired then
      let doomed := pf_timestamp <$> (map_to_list q).*2 in
      Some (with_tree (tree_memory s') (foldr remove_snapshot (tree_disk s') doomed)
              (with_query (query_memory s') (delete ts (query_disk s')) s'))
    else Some s'
  else Some s
  end.
Fixpoint expire_check_task (now : Z) (order : list Z) (s : Snapshots) : option Snapshots :=
  match order with
  | [] => Some s
  | ts :: rest => s' ← sweep_table now s ts; expire_check_task now rest s'
  end.

(** ** Disk tables written by a flush *)
Section Tables.
Context {St : Store} {So : Sound St}.

Lemma store_ok op : store op = Ok tt.
Proof. unfold store. by rewrite So. Qed.

Lemma flush_rows_lookup i rs t k :
  flush_rows i rs t !! k =
  if bool_decide (i <= k < i + N.of_nat (length rs)) then rs !! N.to_nat (k - i) else t !! k.
Proof.
  revert i t. induction rs as [|d rs IH]; intros i t; cbn [flush_rows length].
  - rewrite bool_decide_eq_false_2 by lia. done.
  - rewrite store_ok, IH. cbn [is_ok]. destruct (decide (k = i)) as [->|Hne].
    + rewrite bool_decide_eq_false_2, bool_decide_eq_true_2 by lia.
      by rewrite lookup_insert_eq, N.sub_diag.
    + rewrite lookup_insert_ne by done. repeat case_bool_decide; try lia; [|done].
      replace (N.to_nat (k - i)) with (S (N.to_nat (k - (i + 1)))) by lia. done.
Qed.

(** The table a flush writes for the rows [rs] of a new snapshot. *)
Definition table_of (rs : list ReducedData) : gmap N ReducedData := flush_rows 0 rs ∅.

Lemma table_of_lookup rs k : table_of rs !! k = rs !! N.to_nat k.
Proof.
  unfold table_of. rewrite flush_rows_lookup, N.sub_0_r. case_bool_decide as Hk; [done|].
  rewrite lookup_empty. symmetry. apply lookup_ge_None. lia.
Qed.

Fixpoint number_from (i : N) (rs : list ReducedData) : list (N * ReducedData) :=
  match rs with [] => [] | d :: rs' => (i, d) :: number_from (i + 1) rs' end.

Lemma number_from_elem i rs k d :
  (k, d) ∈ number_from i rs <-> i <= k /\ rs !! N.to_nat (k - i) = Some d.
Proof.
  revert i. induction rs as [|x rs IH]; intros i; cbn [number_from].
  - rewrite elem_of_nil. split; [done|]. by intros [_ Hk].
  - rewrite elem_of_cons, IH. destruct (decide (k = i)) as [->|Hne].
    + rewrite N.sub_diag. simpl. split.
      * intros [[= ->]|[? _]]; [done|lia].
      * intros [_ [= ->]]. by left.
    + split.
      * intros [[= ? ->]|[Hk Hd]]; [done|]. split; [lia|].
        replace (N.to_nat (k - i)) with (S (N.to_nat (k - (i + 1)))) by lia. done.
      * intros [Hk Hd]. right. split; [lia|].
        replace (N.to_nat (k - i)) with (S (N.to_nat (k - (i + 1)))) in Hd by lia. done.
Qed.

Lemma number_from_sorted i rs : StronglySorted index_le (number_from i rs).
Proof.
  revert i. induction rs as [|x rs IH]; intros i; cbn [number_from]; constructor; [apply IH|].
  apply Forall_forall. intros [k d] [Hk _]%number_from_elem. unfold index_le. simpl. lia.
Qed.
Lemma number_from_snd i rs : (number_from i rs).*2 = rs.
Proof. revert i. induction rs as [|x rs IH]; intros i; cbn; [done|]. by rewrite IH. Qed.
Lemma number_from_nodup i rs : NoDup (number_from i rs).
Proof.
  revert i. induction rs as [|x rs IH]; intros i; cbn; constructor; [|apply IH].
  intros [Hk _]%number_from_elem. lia.
Qed.

#[export] Instance index_le_total : Total index_le.
Proof. intros a b. unfold index_le. lia. Qed.
#[export] Instance index_le_trans : Transitive index_le.
Proof. intros a b c. unfold index_le. lia. Qed.

Lemma table_of_entries rs : map_to_list (table_of rs) ≡ₚ number_from 0 rs.
Proof.
  apply NoDup_Permutation; [apply NoDup_map_to_list|apply number_from_nodup|].
  intros [k d]. rewrite elem_of_map_to_list, number_from_elem, table_of_lookup, N.sub_0_r.
  split; [intros; split; [lia|done]|tauto].
Qed.

Lemma disk_entries_table rs : disk_entries (table_of rs) = number_from 0 rs.
Proof.
  apply (StronglySorted_unique_strong index_le).
  - intros [k d] [k' d'] Hi Hj. unfold index_le. simpl. intros.
    assert (k' = k) as -> by lia. unfold disk_entries in Hi.
    rewrite (merge_sort_Permutation index_le), table_of_entries in Hi.
    apply number_from_elem in Hi as [_ Hi], Hj as [_ Hj]. congruence.
  - apply (StronglySorted_merge_sort index_le).
  - apply number_from_sorted.
  - unfold disk_entries. by rewrite (merge_sort_Permutation index_le), table_of_entries.
Qed.

Lemma table_of_size rs : size (table_of rs) = length rs.
Proof.
  rewrite <-length_map_to_list, (Permutation_length (table_of_entries rs)).
  rewrite <-(number_from_snd 0 rs) at 2. by rewrite length_fmap.
Qed.

(** ** What a snapshot holds *)
Definition holds (c : MyCow) (rs : list ReducedData) : Prop :=
  c = InMemory rs \/ c = OnDisk (table_of rs).

Lemma holds_len c rs : holds c rs -> cow_len c = Ok (N.of_nat (length rs)).
Proof. intros [->| ->]; cbn; [done|]. by rewrite store_ok, table_of_size. Qed.

Lemma holds_width_height c rs i : holds c rs ->
  get_width_height c i =
  match rs !! N.to_nat i with
  | Some d => Ok (r_width d, r_height d)
  | None => Err (lit "Fail to find with and height in tree snapshots for index " ++ show_N i)
  end.
Proof.
  intros [->| ->]; unfold get_width_height, lookup_disk; rewrite ?store_ok, ?table_of_lookup;
    by destruct (rs !! N.to_nat i).
Qed.

Lemma holds_reduced c rs i d : holds c rs -> rs !! N.to_nat i = Some d ->
  get_reduced c i = Some (Ok d).
Proof.
  intros [->| ->] Hd; unfold get_reduced, lookup_disk;
    rewrite ?store_ok, ?table_of_lookup, Hd; done.
Qed.
End Tables.

(** ** Paging *)
Definition dims (rs : list ReducedData) : list (N * N) :=
  (fun d => (r_width d, r_height d)) <$> rs.
(** The rows of batch [k]. *)
Definition batch (k : N) (rs : list ReducedData) : list ReducedData :=
  take 20 (drop (N.to_nat k * 20) rs).

Section Paging.
Context {St : Store} {So : Sound St}.

Lemma try_map_range c rs a n :
  holds c rs -> n = O \/ (a + n <= length rs)%nat ->
  try_map (get_width_height c) (N.of_nat <$> seq a n) = Ok (dims (take n (drop a rs))).
Proof.
  intros Hc. revert a. induction n as [|n IH]; intros a Hn; cbn [seq fmap list_fmap try_map take].
  - done.
  - rewrite (holds_width_height c rs) by done. rewrite Nat2N.id.
    destruct (rs !! a) as [d|] eqn:Hd; [|apply lookup_ge_None in Hd; lia].
    rewrite (drop_S rs d a Hd). cbn [mbind result_bind fmap list_fmap dims].
    change (list_fmap nat N N.of_nat (seq (S a) n)) with (N.of_nat <$> seq (S a) n).
    rewrite IH by lia. done.
Qed.

Lemma div_ceil_bound len k : k <= div_ceil len 20 <-> k * 20 < len + 20.
Proof.
  unfold div_ceil. pose proof (N.div_mod' len 20) as Hd.
  pose proof (N.mod_lt len 20 ltac:(lia)) as Hm. revert Hd Hm.
  generalize (len / 20) (len mod 20). intros q r ->. destruct (N.eqb_spec r 0); lia.
Qed.

Lemma batches_concat m rs : (length rs <= m * 20)%nat ->
  mjoin ((fun k => dims (batch (N.of_nat k) rs)) <$> seq 0 m) = dims rs.
Proof.
  revert rs. induction m as [|m IH]; intros rs Hm.
  - destruct rs; [done|simpl in Hm; lia].
  - cbn [seq]. rewrite <-fmap_S_seq, fmap_cons, <-list_fmap_compose.
    transitivity (dims (take 20 rs) ++ dims (drop 20 rs));
      [|unfold dims; by rewrite <-fmap_app, take_drop].
    rewrite <-(IH (drop 20 rs)) by (rewrite length_drop; lia).
    simpl mjoin. f_equal. f_equal. apply list_fmap_ext. intros i k _. unfold compose, batch.
    rewrite drop_drop. do 3 f_equal. lia.
Qed.

Lemma batch_range rs k len : len = N.of_nat (length rs) -> k * 20 < len + 20 ->
  take (N.to_nat (N.min (k * 20 + 20) len - k * 20)) (drop (N.to_nat (k * 20)) rs) = batch k rs.
Proof.
  intros -> Hk. unfold batch. replace (N.to_nat (k * 20)) with (N.to_nat k * 20)%nat by lia.
  destruct (decide (k * 20 + 20 <= N.of_nat (length rs))).
  - f_equal. lia.
  - rewrite !take_ge; [done| |]; rewrite length_drop; lia.
Qed.

(** The pages of a snapshot.  Batch [k] lies at rows [20k..20k+19] and lists
    the sizes of exactly those rows that exist; one batch past the last is still
    answered (empty when the length is a multiple of 20), any later index is the
    out-of-bounds error; and the batches in order are the whole snapshot. *)
Theorem read_row_pages ts s c rs :
  read_tree_snapshot ts s = Ok c -> holds c rs -> N.of_nat (length rs) < 2 ^ 63 ->
  (forall k, read_row k ts s =
    if k * 20 <? N.of_nat (length rs) + 20
    then Ok (mkRow (k * 20) (k * 20 + 19) (dims (batch k rs)) k)
    else Err (Storage (lit "Row index out of bounds"))) /\
  mjoin ((fun k => dims (batch k rs)) <$> range 0 (div_ceil (N.of_nat (length rs)) 20)) = dims rs.
Proof.
  intros Hs Hc Hlen. split.
  - intros k. unfold read_row. rewrite Hs. cbn [mbind result_bind]. rewrite (holds_len c rs Hc).
    cbn [mbind result_bind]. unfold ROW_BATCH_NUMBER.
    destruct (N.ltb_spec (k * 20) (N.of_nat (length rs) + 20)) as [Hk|Hk].
    + rewrite (proj2 (N.ltb_ge _ _)) by by apply div_ceil_bound.
      unfold wmul, wrapping_add_u64. rewrite !(N.mod_small) by lia.
      unfold range. rewrite (try_map_range c rs) by (done || lia).
      cbn. rewrite batch_range by done. do 2 f_equal. lia.
    + rewrite (proj2 (N.ltb_lt _ _)); [done|].
      apply N.nle_gt. rewrite div_ceil_bound. lia.
  - unfold range. rewrite N.sub_0_r, <-list_fmap_compose. apply batches_concat.
    pose proof (proj1 (div_ceil_bound (N.of_nat (length rs)) (div_ceil (N.of_nat (length rs)) 20 + 1))).
    destruct (decide (div_ceil (N.of_nat (length rs)) 20 + 1 <= div_ceil (N.of_nat (length rs)) 20)); [lia|].
    rewrite div_ceil_bound in n. lia.
Qed.
End Paging.

(** ** The scroll bar *)
Section ScrollBar.
Context {St : Store} {Ca : Calendar}.

Definition prev_month (last : option (Z * N)) (rs : list ReducedData) (i : nat) : option (Z * N) :=
  match i with O => last | S j => d ← rs !! j; year_month (r_date d) end.

Lemma scroll_loop_ok last rs bars index :
  scroll_loop index last rs = Ok bars ->
  Forall (fun d => is_some (year_month (r_date d)) = true) rs /\
  (forall b, b ∈ bars <-> exists i d ym, rs !! i = Some d /\ year_month (r_date d) = Some ym /\
     prev_month last rs i <> Some ym /\ b = mkScroll (as_usize ym.1) ym.2 (index + N.of_nat i)) /\
  StronglySorted (fun a b => sb_index a < sb_index b) bars.
Proof.
  revert last bars index. induction rs as [|d rs IH]; intros last bars index; cbn [scroll_loop].
  - intros [= <-]. split_and!; [done| |constructor].
    intros b. rewrite elem_of_nil. split; [done|]. by intros (i & d & ym & ? & _).
  - unfold to_year_month. destruct (year_month (r_date d)) as [ym|] eqn:Hym; [|done].
    cbn [ok_or mbind result_bind]. intros (bars' & Hl & [= <-])%bind_Ok.
    destruct (IH _ _ _ Hl) as (Hall & Hin & Hsort).
    assert (forall b, b ∈ bars' <-> exists i d' ym', (d :: rs) !! S i = Some d' /\
      year_month (r_date d') = Some ym' /\ prev_month last (d :: rs) (S i) <> Some ym' /\
      b = mkScroll (as_usize ym'.1) ym'.2 (index + N.of_nat (S i))) as Hin'.
    { intros b. rewrite Hin.
      by split; intros (i & d' & ym' & Hd & Hy & Hp & ->); exists i, d', ym';
        (split_and!; [done|done| |f_equal; lia]); destruct i; simpl in *; rewrite ?Hym in *. }
    split; [constructor; [by rewrite Hym|done]|].
    case_bool_decide as Hlast; split.
    + intros b. rewrite Hin'. split; intros (i & d' & ym' & Hd & Hy & Hp & ->).
      * by exists (S i), d', ym'.
      * destruct i as [|i]; [simpl in *; congruence|]. by exists i, d', ym'.
    + done.
    + intros b. rewrite elem_of_cons, Hin'. split.
      * intros [->|(i & d' & ym' & Hd & Hy & Hp & ->)]; [|by exists (S i), d', ym'].
        exists O, d, ym. simpl. split_and!; [done|done|done|]. f_equal. lia.
      * intros ([|i] & d' & ym' & Hd & Hy & Hp & ->); [left|by right; exists i, d', ym'].
        simpl in Hd. simplify_eq. f_equal. lia.
    + constructor; [done|]. apply Forall_forall. intros b (i & ? & ? & _ & _ & _ & ->)%Hin'.
      simpl. lia.
Qed.
Lemma scroll_loop_total last rs index :
  Forall (fun d => is_some (year_month (r_date d)) = true) rs ->
  is_ok (scroll_loop index last rs) = true.
Proof.
  intros Hall. revert last index. induction Hall as [|d rs Hd _ IH]; intros last index; [done|].
  cbn [scroll_loop]. unfold to_year_month. destruct (year_month (r_date d)) as [ym|]; [|done].
  cbn [ok_or mbind result_bind]. specialize (IH (Some ym) (index + 1)).
  by destruct (scroll_loop (index + 1) (Some ym) rs).
Qed.

Lemma holds_scrollbar {So : Sound St} ts s c rs :
  read_tree_snapshot ts s = Ok c -> holds c rs -> read_scrollbar ts s = scroll_loop 0 None rs.
Proof.
  intros Hs Hc. unfold read_scrollbar. rewrite Hs. cbn [mbind result_bind].
  destruct Hc as [->| ->]; [done|]. rewrite store_ok. cbn [map_err].
  by rewrite disk_entries_table, number_from_snd.
Qed.

(** The scroll bar of a snapshot has one entry per run of rows of the same
    month, at the run's first row and in row order, from memory and from disk
    alike; and it fails exactly when some stored date has no calendar date. *)
Theorem scrollbar_runs {So : Sound St} ts s c rs :
  read_tree_snapshot ts s = Ok c -> holds c rs ->
  (is_ok (read_scrollbar ts s) = true <->
    forall d, d ∈ rs -> is_some (year_month (r_date d)) = true) /\
  forall bars, read_scrollbar ts s = Ok bars ->
    StronglySorted (fun a b => sb_index a < sb_index b) bars /\
    forall b, b ∈ bars <-> exists i d ym, rs !! i = Some d /\ year_month (r_date d) = Some ym /\
      prev_month None rs i <> Some ym /\ b = mkScroll (as_usize ym.1) ym.2 (N.of_nat i).
Proof.
  intros Hs Hc. rewrite (holds_scrollbar ts s c rs Hs Hc). split.
  - rewrite <-Forall_forall. split.
    + destruct (scroll_loop 0 None rs) as [bars|] eqn:Hl; [|done]. intros _.
      by apply scroll_loop_ok in Hl as [].
    + apply scroll_loop_total.
  - intros bars Hl. apply scroll_loop_ok in Hl as (_ & Hin & Hsort). split; [done|].
    intros b. rewrite Hin. setoid_rewrite N.add_0_l. done.
Qed.
End ScrollBar.

(** ** A flush is invisible *)
Section FlushFacts.
Context {St : Store} {So : Sound St} {Sl : StoreLaws St}.

(** No snapshot is both in memory and on disk: its id is fresh when it is made. *)
Definition separate (s : Snapshots) : Prop :=
  forall ts, is_Some (tree_memory s !! ts) -> tree_disk s !! ts = None.

(** The rows a reader of [ts] gets: the whole of what [MyCow] is used for. *)
Definition same_view (ts : Z) (s s' : Snapshots) : Prop :=
  match read_tree_snapshot ts s, read_tree_snapshot ts s' with
  | Ok c, Ok c' => c = c' \/ exists rs, holds c rs /\ holds c' rs
  | Err e, Err e' => e = e'
  | _, _ => False
  end.

Lemma same_view_refl ts s : same_view ts s s.
Proof. unfold same_view. destruct (read_tree_snapshot ts s); auto. Qed.

Lemma holds_fun c rs rs' : holds c rs -> holds c rs' -> rs = rs'.
Proof.
  intros [->| ->] [Heq|Heq]; simplify_eq; [done|].
  rewrite <-(number_from_snd 0 rs), <-(number_from_snd 0 rs').
  by rewrite <-!disk_entries_table, Heq.
Qed.

Lemma same_view_trans ts s1 s2 s3 : same_view ts s1 s2 -> same_view ts s2 s3 -> same_view ts s1 s3.
Proof.
  unfold same_view. destruct (read_tree_snapshot ts s1), (read_tree_snapshot ts s2),
    (read_tree_snapshot ts s3); try done; try congruence.
  intros [->|(rs & H1 & H2)] [->|(rs' & H3 & H4)]; auto; [by right; exists rs'|by right; exists rs|].
  rewrite (holds_fun _ _ _ H3 H2) in *. right. by exists rs.
Qed.

Lemma read_ok ts s : read_tree_snapshot ts s =
  match tree_memory s !! ts with
  | Some d => Ok (InMemory d)
  | None => match tree_disk s !! ts with None => Err (NotFound ts) | Some t => Ok (OnDisk t) end
  end.
Proof. unfold read_tree_snapshot. rewrite !store_ok. by repeat case_match. Qed.

Lemma flush_entry_ok ts data s s' :
  tree_memory s !! ts = Some data -> separate s ->
  flush_tree_entry ts data s = Some s' ->
  separate s' /\ (forall k, same_view k s s') /\
  size (tree_memory s') = pred (size (tree_memory s)).
Proof.
  intros Hd Hsep. unfold flush_tree_entry. rewrite !store_ok. intros [= <-]. cbn.
  rewrite (Hsep ts) by done. split_and!.
  - intros k. cbn. destruct (decide (k = ts)) as [->|Hne].
    + rewrite lookup_delete_eq. by intros [].
    + rewrite lookup_delete_ne, lookup_insert_ne by done. apply Hsep.
  - intros k. unfold same_view. rewrite !read_ok. cbn. destruct (decide (k = ts)) as [->|Hne].
    + rewrite Hd, lookup_delete_eq, lookup_insert_eq. right. exists data.
      split; [by left|by right].
    + rewrite lookup_delete_ne, lookup_insert_ne by done.
      destruct (tree_memory s !! k), (tree_disk s !! k); auto.
  - apply map_size_delete_Some. by exists data.
Qed.

Lemma flush_loop_ok fuel s : separate s -> (size (tree_memory s) <= fuel)%nat ->
  tree_memory (flush_tree_loop fuel s) = ∅ /\ forall k, same_view k s (flush_tree_loop fuel s).
Proof.
  revert s. induction fuel as [|fuel IH]; intros s Hsep Hsz; cbn [flush_tree_loop].
  - split; [|intros; apply same_view_refl]. apply map_size_empty_inv. lia.
  - destruct (pick_tree _) as [ts|] eqn:Hp; cbn [mbind option_bind].
    + apply pick_tree_elem in Hp as ([? data] & -> & Hin%elem_of_map_to_list)%list_elem_of_fmap.
      cbn [fst]. rewrite Hin. cbn [mbind option_bind].
      destruct (flush_tree_entry _ data s) as [s'|] eqn:Hf.
      * destruct (flush_entry_ok _ _ _ _ Hin Hsep Hf) as (Hsep' & Hv & Hs).
        destruct (IH s' Hsep' ltac:(lia)) as [He Hv']. split; [done|].
        intros k. by eapply same_view_trans.
      * exfalso. revert Hf. unfold flush_tree_entry. by rewrite !store_ok.
    + apply pick_tree_none, fmap_nil_inv, map_to_list_empty_iff in Hp.
      split; [done|]. intros; apply same_view_refl.
Qed.

Lemma same_view_get_width_height c c' rs i : holds c rs -> holds c' rs ->
  get_width_height c i = get_width_height c' i.
Proof. intros Hc Hc'. by rewrite !(holds_width_height _ rs). Qed.

(** Flushing is invisible.  Whatever order the map is drained in, the task
    ends with nothing left in memory, and every snapshot id then reads the same:
    the same batches of rows, the same scroll bar, the same entries. *)
Theorem flush_keeps_reads {Ca : Calendar} s ts :
  separate s ->
  let s' := flush_tree_snapshot_task s in
  tree_memory s' = ∅ /\
  (forall row, read_row row ts s' = read_row row ts s) /\
  read_scrollbar ts s' = read_scrollbar ts s /\
  forall rs i d, tree_memory s !! ts = Some rs -> rs !! N.to_nat i = Some d ->
    exists c, read_tree_snapshot ts s' = Ok c /\ get_reduced c i = Some (Ok d).
Proof.
  intros Hsep s'. destruct (flush_loop_ok _ s Hsep (le_n _)) as [He Hv].
  specialize (Hv ts). fold (flush_tree_snapshot_task s) in He, Hv. fold s' in He, Hv.
  unfold same_view in Hv. split; [done|].
  destruct (read_tree_snapshot ts s) as [c|e] eqn:Hr, (read_tree_snapshot ts s') as [c'|e'] eqn:Hr';
    try done.
  - split_and!.
    + intros row. unfold read_row. rewrite Hr, Hr'. cbn [mbind result_bind].
      destruct Hv as [->|(rs & Hc & Hc')]; [done|].
      rewrite !(holds_len _ rs) by done. cbn [mbind result_bind]. destruct (_ <? _); [done|].
      assert (forall l, try_map (get_width_height c') l = try_map (get_width_height c) l) as ->;
        [|done].
      induction l as [|i l IH]; cbn [try_map]; [done|].
      by rewrite (same_view_get_width_height c' c rs i), IH.
    + destruct Hv as [->|(rs & Hc & Hc')]; [unfold read_scrollbar; by rewrite Hr, Hr'|].
      by rewrite (holds_scrollbar ts s c rs), (holds_scrollbar ts s' c' rs).
    + intros rs i d Hm Hi. exists c'. split; [done|]. rewrite read_ok, Hm in Hr.
      injection Hr as <-. destruct Hv as [<-|(rs' & [[= <-]|?] & Hc')]; [|by eapply holds_reduced|done].
      cbn. by rewrite Hi.
  - simplify_eq. split_and!.
    + intros row. unfold read_row. by rewrite Hr, Hr'.
    + unfold read_scrollbar. by rewrite Hr, Hr'.
    + intros rs i d Hm. rewrite read_ok, Hm in Hr. done.
Qed.
End FlushFacts.

(** ** Expiry *)
Section Expiry.
Context {St : Store}.

(** What moves the caches, at clock time [now]. *)
Inductive Step (now : Z) : Snapshots -> Snapshots -> Prop :=
| step_refresh s : Step now s (store_version now s)
| step_expire s : Step now s (update_expire_task now s).2
| step_bump s : Step now s (bump_version s)
| step_sweep order s s' : expire_check_task now order s = Some s' -> Step now s s'
| step_prefetch rows h p s : Step now s (remember_query h p (insert_snapshot now rows s).2)
| step_flush_tree s : Step now s (flush_tree_snapshot_task s)
| step_flush_query s : Step now s (flush_query_snapshot_task s).

(** A run in which the clock never shows [v] or less. *)
Inductive Run (v : Z) : Snapshots -> Snapshots -> Prop :=
| run_nil s : Run v s s
| run_step now s s' s'' : (v < now)%Z -> Step now s s' -> Run v s' s'' -> Run v s s''.

(** The expiry row of version [v], [None] when missing or "never". *)
Definition deadline (v : Z) (s : Snapshots) : option Z :=
  mjoin (default ∅ (expire_table s) !! v).

Definition stuck (v : Z) (q : gmap N Prefetch) (s : Snapshots) : Prop :=
  (v < version s)%Z /\ deadline v s = None /\ query_disk s !! v = Some q.

Lemma flush_tree_loop_frame fuel s :
  query_disk (flush_tree_loop fuel s) = query_disk s /\
  expire_table (flush_tree_loop fuel s) = expire_table s /\
  version (flush_tree_loop fuel s) = version s.
Proof.
  revert s. induction fuel as [|fuel IH]; intros s; cbn [flush_tree_loop]; [done|].
  destruct (_ ≫= _) as [s'|] eqn:Hs; [|done].
  apply bind_Some in Hs as (ts & _ & (data & _ & Hs)%bind_Some).
  destruct (IH s') as (-> & -> & ->). revert Hs. unfold flush_tree_entry.
  by destruct (_ && _); intros [= <-].
Qed.

Lemma flush_query_loop_stuck fuel v q s : stuck v q s -> stuck v q (flush_query_loop fuel s).
Proof.
  revert s. induction fuel as [|fuel IH]; intros s Hs; cbn [flush_query_loop]; [done|].
  destruct (_ ≫= _) as [s'|] eqn:Hf; [|done]. apply IH.
  apply bind_Some in Hf as (h & _ & (p & _ & Hf)%bind_Some).
  revert Hf. unfold flush_query_entry. destruct (_ && _); intros [= <-].
  destruct Hs as (Hv & Hd & Hq). split_and!; [done|done|]. cbn. rewrite lookup_insert_ne; [done|lia].
Qed.

Lemma expired_check_none now ts v t :
  mjoin (t !! v) = None -> mjoin ((expired_check now ts t).2 !! v) = None.
Proof.
  intros Hv. unfold expired_check. destruct (mjoin (t !! ts)); [|done]. case_match; [|done].
  cbn. destruct (t !! v) as [o|] eqn:Hl.
  - destruct (filter _ t !! v) as [o'|] eqn:Hf; [|done].
    apply map_lookup_filter_Some in Hf as [Hf _]. congruence.
  - rewrite (proj2 (map_lookup_filter_None _ _ _)); [done|]. by left.
Qed.

Lemma sweep_table_stuck now ts v q s s' :
  sweep_table now s ts = Some s' -> stuck v q s -> stuck v q s'.
Proof.
  unfold sweep_table. intros Hs (Hv & Hd & Hq).
  destruct (query_disk s !! ts); [|by simplify_eq]. case_match; [|by simplify_eq].
  apply bind_Some in Hs as (t & Ht & Hs). unfold deadline in Hd. rewrite Ht in Hd. cbn in Hd.
  pose proof (expired_check_none now ts v t Hd) as Hn.
  destruct (expired_check now ts t) as [expired t'] eqn:He. cbn in Hn.
  assert (expired = true -> ts <> v) as Hne.
  { intros -> ->. revert He. unfold expired_check. rewrite Hd. done. }
  destruct expired; simplify_eq/=; (split_and!; [done|done|]); [|done].
  cbn. rewrite lookup_delete_ne; [done|]. by apply Hne.
Qed.

Lemma sweep_stuck now order v q s s' :
  expire_check_task now order s = Some s' -> stuck v q s -> stuck v q s'.
Proof.
  revert s. induction order as [|ts order IH]; cbn [expire_check_task]; intros s Hs Hst.
  - by simplify_eq.
  - apply bind_Some in Hs as (s1 & H1 & H2). eauto using sweep_table_stuck.
Qed.

Lemma step_stuck now v q s s' : (v < now)%Z -> Step now s s' -> stuck v q s -> stuck v q s'.
Proof.
  intros Hnow Hs Hst. pose proof Hst as (Hv & Hd & Hq).
  destruct Hs as [s|s|s|order s s' Hs|rows h p s|s|s].
  - done.
  - unfold update_expire_task. case_match; [|done]. split_and!; [done| |done].
    unfold deadline. cbn. rewrite !lookup_insert_ne by lia. done.
  - split_and!; [cbn; lia|done|done].
  - by eapply sweep_stuck.
  - done.
  - destruct (flush_tree_loop_frame (size (tree_memory s)) s) as (Hq' & He & Hv').
    unfold stuck, deadline, flush_tree_snapshot_task. by rewrite Hq', He, Hv'.
  - by apply flush_query_loop_stuck.
Qed.

Lemma run_stuck v q s s' : Run v s s' -> stuck v q s -> stuck v q s'.
Proof. induction 1 as [|now s s1 s2 Hnow Hs _ IH]; eauto using step_stuck. Qed.

(** The query results cached under a version the expiry bookkeeping left
    current are never dropped.  [update_expire_task] makes its clock reading the
    version and records no expiry for it; the next tree refresh overwrites the
    version before any task has read it, so its expiry is never scheduled, and
    no later run of refreshes, expiry updates, sweeps, flushes and prefetches
    ever removes its table. *)
Theorem resting_version_never_expires v q s0 s1 s2 t s3 :
  (0 < version s0)%Z -> (update_expire_task v s0).2 = s1 ->
  version s2 = v -> expire_table s2 = expire_table s1 -> query_disk s2 !! v = Some q ->
  (v < t)%Z -> Run v (store_version t s2) s3 ->
  query_disk s3 !! v = Some q.
Proof.
  intros H0 H1 Hv He Hq Ht Hrun. apply (run_stuck v q) in Hrun as (_ & _ & Hd); [done|].
  split_and!; [done| |done]. unfold deadline, store_version. cbn. rewrite He, <-H1.
  unfold update_expire_task. rewrite (proj2 (Z.ltb_lt _ _) H0). cbn. by rewrite lookup_insert_eq.
Qed.

(** What a sweep at [now] may do to the caches. *)
Record swept (now : Z) (s s' : Snapshots) : Prop := {
  swept_version : version s' = version s;
  swept_memory : tree_memory s' = tree_memory s;
  swept_deadline v e : deadline v s' = Some e -> deadline v s = Some e;
  swept_query v : query_disk s' !! v = query_disk s !! v \/
    query_disk s' !! v = None /\ (v < version s)%Z /\
    exists e, deadline v s = Some e /\ (e < now)%Z;
  swept_tree ts : tree_disk s' !! ts = tree_disk s !! ts \/
    exists v q h p, query_disk s !! v = Some q /\ q !! h = Some p /\ pf_timestamp p = ts /\
      query_disk s' !! v = None
}.

Lemma swept_refl now s : swept now s s.
Proof. constructor; auto. Qed.
Lemma swept_trans now s1 s2 s3 : swept now s1 s2 -> swept now s2 s3 -> swept now s1 s3.
Proof.
  intros H1 H2. constructor.
  - by rewrite (swept_version _ _ _ H2), (swept_version _ _ _ H1).
  - by rewrite (swept_memory _ _ _ H2), (swept_memory _ _ _ H1).
  - intros v e He. by apply (swept_deadline _ _ _ H1), (swept_deadline _ _ _ H2).
  - intros v. destruct (swept_query _ _ _ H2 v) as [->|(Hn & Hv & e & He & Hlt)];
      [apply (swept_query _ _ _ H1)|].
    right. rewrite (swept_version _ _ _ H1) in Hv. split_and!; [done|done|].
    exists e. split; [|done]. by apply (swept_deadline _ _ _ H1).
  - intros ts. destruct (swept_tree _ _ _ H2 ts) as [->|(v & q & h & p & Hq & Hp & Hts & Hn)].
    + destruct (swept_tree _ _ _ H1 ts) as [->|(v & q & h & p & Hq & Hp & Hts & Hn)]; [by left|].
      right. exists v, q, h, p. split_and!; try done.
      destruct (swept_query _ _ _ H2 v) as [->|(? & _)]; done.
    + right. exists v, q, h, p. split_and!; try done.
      destruct (swept_query _ _ _ H1 v) as [<-|(Hx & _)]; [done|congruence].
Qed.

Lemma remove_snapshots_ne l d (ts : Z) : ts ∉ l -> foldr remove_snapshot d l !! ts = d !! ts.
Proof.
  induction l as [|x l IH]; intros Hn; cbn; [done|]. unfold remove_snapshot at 1.
  rewrite lookup_delete_ne by set_solver. apply IH. set_solver.
Qed.

Lemma expired_check_deadline now ts t v e :
  mjoin ((expired_check now ts t).2 !! v) = Some e -> mjoin (t !! v) = Some e.
Proof.
  unfold expired_check. destruct (mjoin (t !! ts)); [|done]. case_match; [|done].
  cbn. destruct (filter _ t !! v) as [o|] eqn:Hf; [|done].
  by apply map_lookup_filter_Some in Hf as [-> _].
Qed.

Lemma sweep_table_swept now ts s s' : sweep_table now s ts = Some s' -> swept now s s'.
Proof.
  unfold sweep_table. destruct (query_disk s !! ts) as [q|] eqn:Hq;
    [|intros [= <-]; apply swept_refl].
  intros Hs. destruct (Z.ltb_spec ts (version s)) as [Hv|];
    [|simplify_eq; apply swept_refl].
  apply bind_Some in Hs as (t & Ht & Hs).
  assert (forall v e, mjoin ((expired_check now ts t).2 !! v) = Some e -> deadline v s = Some e) as Hdl.
  { intros v e He. unfold deadline. rewrite Ht. cbn. by apply (expired_check_deadline now ts). }
  assert ((expired_check now ts t).1 = true -> exists e, deadline ts s = Some e /\ (e < now)%Z) as Hex.
  { unfold deadline. rewrite Ht. cbn. unfold expired_check.
    destruct (mjoin (t !! ts)) as [e|] eqn:He; [|done].
    destruct (Z.ltb_spec e now) as [Hlt|]; [|done]. intros _. by exists e. }
  destruct (expired_check now ts t) as [expired t']. cbn in Hdl, Hex.
  destruct expired; simplify_eq/=; constructor; cbn; try done; try (by left).
  - intros v. destruct (decide (v = ts)) as [->|Hne].
    + right. rewrite lookup_delete_eq. auto.
    + left. by rewrite lookup_delete_ne.
  - intros k. destruct (decide (k ∈ pf_timestamp <$> (map_to_list q).*2))
      as [Hin|Hn]; [|left; by apply remove_snapshots_ne].
    right. apply list_elem_of_fmap in Hin as (p & -> & Hin).
    apply list_elem_of_fmap in Hin as ([h p'] & -> & Hin). apply elem_of_map_to_list in Hin.
    exists ts, q, h, p'. by rewrite lookup_delete_eq.
Qed.

Lemma sweep_swept now order s s' : expire_check_task now order s = Some s' -> swept now s s'.
Proof.
  revert s. induction order as [|ts order IH]; cbn [expire_check_task]; intros s Hs.
  - simplify_eq. apply swept_refl.
  - apply bind_Some in Hs as (s1 & H1 & H2). eauto using swept_trans, sweep_table_swept.
Qed.

(** A sweep drops only what is past its deadline, in whatever order it visits
    the tables: the query table of a version that is current, newer, or has no
    passed deadline stays as it is, and a snapshot that only surviving tables
    point at keeps its rows. *)
Theorem sweep_keeps_live now order s s' :
  expire_check_task now order s = Some s' ->
  version s' = version s /\ tree_memory s' = tree_memory s /\
  (forall v, (version s <= v)%Z \/ (forall e, deadline v s = Some e -> (now <= e)%Z) ->
    query_disk s' !! v = query_disk s !! v) /\
  forall ts, (forall v q h p, query_disk s !! v = Some q -> q !! h = Some p ->
      pf_timestamp p = ts -> is_Some (query_disk s' !! v)) ->
    tree_disk s' !! ts = tree_disk s !! ts.
Proof.
  intros Hs%sweep_swept. split; [apply Hs|]. split; [apply Hs|]. split.
  - intros v Hlive. destruct (swept_query _ _ _ Hs v) as [|(_ & Hv & e & He & Hlt)]; [done|].
    destruct Hlive as [?|Hlive]; [lia|]. apply Hlive in He. lia.
  - intros ts Hts. destruct (swept_tree _ _ _ Hs ts) as [|(v & q & h & p & Hq & Hp & Hk & Hn)];
      [done|]. destruct (Hts v q h p Hq Hp Hk) as [? Hx]. congruence.
Qed.

(** A sweep that reaches the newer of two expired versions first removes the
    deadline of the older one, whose table is then past saving: no later sweep
    finds it expired. *)
Lemma sweep_order_leaks now s v1 v2 e1 e2 q1 q2 t :
  (v1 < v2 < version s)%Z -> expire_table s = Some t ->
  t !! v1 = Some (Some e1) -> t !! v2 = Some (Some e2) -> (e2 < now)%Z ->
  query_disk s !! v1 = Some q1 -> query_disk s !! v2 = Some q2 ->
  exists s', expire_check_task now [v2; v1] s = Some s' /\
    query_disk s' !! v1 = Some q1 /\ deadline v1 s' = None.
Proof.
  intros Hv Ht H1 H2 He Hq Hq2. set (t' := filter (fun kv : Z * option Z => ~ (kv.1 <= v2)%Z) t).
  assert (t' !! v1 = None) as Hn.
  { apply map_lookup_filter_None. right. intros o _. cbn. lia. }
  assert (exists s1, sweep_table now s v2 = Some s1 /\ version s1 = version s /\
    expire_table s1 = Some t' /\ query_disk s1 !! v1 = Some q1) as (s1 & Hs1 & Hv1 & Ht1 & Hq1).
  { unfold sweep_table. rewrite Hq2, (proj2 (Z.ltb_lt v2 (version s))), Ht by lia. cbn.
    unfold expired_check. rewrite H2. cbn. rewrite (proj2 (Z.ltb_lt e2 now)) by lia.
    eexists. split; [reflexivity|]. cbn. by rewrite lookup_delete_ne by lia. }
  exists (with_expire (Some t') (version s1) s1). split_and!.
  - cbn [expire_check_task]. rewrite Hs1. cbn [mbind option_bind]. unfold sweep_table.
    rewrite Hq1, (proj2 (Z.ltb_lt v1 (version s1))), Ht1 by lia. cbn. unfold expired_check.
    by rewrite Hn.
  - done.
  - unfold deadline. cbn. by rewrite Hn.
Qed.
End Expiry.

(** ** Witnesses: three rows, two months *)
Module SnapshotWitness.
#[export] Instance st : Store := {|
  sfault _ := None; pick_tree ks := head ks; pick_query ks := head ks |}.
#[export] Instance sound : Sound st.
Proof. done. Qed.
#[export] Instance laws : StoreLaws st.
Proof.
  by constructor; intros ks; [intros k; apply head_Some_elem_of|destruct ks
    |intros k; apply head_Some_elem_of|destruct ks].
Qed.
#[export] Instance months : Calendar := {| year_month d := Some (1970%Z, Z.to_N (d / 100)) |}.
Definition row (i : string) (d : Z) : ReducedData := mkReduced (lit i) (lit i) 4 3 d 0 false.
Definition rows : list ReducedData := [row "a" 250; row "b" 210; row "c" 120].
Definition empty : Snapshots := mkSnapshots ∅ ∅ ∅ ∅ None 0 0.
Definition start : Snapshots := (insert_snapshot 1000 rows empty).2.
(** A query cached under version 1000 and flushed. *)
Definition booted : Snapshots := mkSnapshots ∅ ∅ ∅ ∅ None 0 5.
Definition cached : Snapshots :=
  flush_query_snapshot_task
    (remember_query 7 (mkPrefetch 1500 None 3) (update_expire_task 1000 booted).2).
(** A later tree refresh and its expiry update. *)
Definition refreshed : Snapshots := (update_expire_task 2001 (store_version 2000 cached)).2.
End SnapshotWitness.
Import (hints) SnapshotWitness.

Lemma read_row_pages_witness :
  read_row 0 1000 SnapshotWitness.start = Ok (mkRow 0 19 [(4, 3); (4, 3); (4, 3)] 0).
Proof.
  refine (proj1 (read_row_pages 1000 SnapshotWitness.start
    (InMemory SnapshotWitness.rows) SnapshotWitness.rows _ _ _) 0);
    [vm_compute; reflexivity|left; reflexivity|vm_compute; reflexivity].
Defined.

Lemma scrollbar_runs_witness :
  is_ok (read_scrollbar 1000 SnapshotWitness.start) = true.
Proof.
  refine (proj2 (proj1 (scrollbar_runs 1000 SnapshotWitness.start
    (InMemory SnapshotWitness.rows) SnapshotWitness.rows _ _)) _);
    [vm_compute; reflexivity|left; reflexivity|done].
Defined.

Lemma flush_keeps_reads_witness :
  tree_memory (flush_tree_snapshot_task SnapshotWitness.start) = ∅.
Proof.
  refine (proj1 (flush_keeps_reads SnapshotWitness.start 1000 _)).
  intros ts _. reflexivity.
Defined.

Lemma resting_version_never_expires_witness :
  exists s, expire_check_task 9999999 [1000%Z; 2000%Z] SnapshotWitness.refreshed = Some s /\
    query_disk s !! 1000%Z = Some {[7 := mkPrefetch 1500 None 3]}.
Proof.
  destruct (expire_check_task 9999999 [1000%Z; 2000%Z] SnapshotWitness.refreshed) as [s|] eqn:Hs;
    [|vm_compute in Hs; discriminate].
  exists s. split; [reflexivity|].
  refine (resting_version_never_expires 1000 _ SnapshotWitness.booted _ SnapshotWitness.cached 2000
    s _ eq_refl _ _ _ _ _); [reflexivity|reflexivity|reflexivity|vm_compute; reflexivity|lia|].
  eapply run_step; [|apply step_expire|]; [|eapply run_step; [|eapply step_sweep, Hs|apply run_nil]];
    lia.
Defined.

Lemma sweep_keeps_live_witness :
  exists s, expire_check_task 9999999 [2000%Z; 1000%Z] SnapshotWitness.refreshed = Some s /\
    version s = 2001%Z.
Proof.
  destruct (expire_check_task 9999999 [2000%Z; 1000%Z] SnapshotWitness.refreshed) as [s|] eqn:Hs;
    [|vm_compute in Hs; discriminate].
  exists s. split; [reflexivity|].
  rewrite (proj1 (sweep_keeps_live _ _ _ _ Hs)). vm_compute. reflexivity.
Defined.

(** ** Fresh ids *)
Definition ids_below (s : Snapshots) : Prop :=
  forall ts, is_Some (tree_memory s !! ts) \/ is_Some (tree_disk s !! ts) ->
    (ts <= last_snapshot_id s)%Z.

(** Insert the row lists one after the other, at the given clock readings. *)
Fixpoint insert_snapshots (work : list (Z * list ReducedData)) (s : Snapshots)
  : list Z * Snapshots :=
  match work with
  | [] => ([], s)
  | (now, rows) :: rest =>
      let '(i, s1) := insert_snapshot now rows s in
      let '(ids, s2) := insert_snapshots rest s1 in (i :: ids, s2)
  end.

Lemma insert_snapshot_fresh now rows s i s' :
  (last_snapshot_id s < i64_top)%Z -> insert_snapshot now rows s = (i, s') ->
  (last_snapshot_id s < i)%Z /\ (now <= i)%Z /\ (i = now \/ i = last_snapshot_id s + 1)%Z /\
  last_snapshot_id s' = i /\
  tree_memory s' = <[i := rows]> (tree_memory s) /\ tree_disk s' = tree_disk s.
Proof.
  unfold insert_snapshot, next_snapshot_id. cbn. intros Hl [= <- <-]. split_and!; try done; lia.
Qed.

(** Snapshots never share an id, even when they are made in the same
    millisecond or the clock runs backwards: ids strictly increase past the last
    one, never fall behind the clock, and a new snapshot leaves every earlier one,
    in memory or on disk, as it was. *)
Theorem snapshot_ids_fresh work s ids s' :
  ids_below s -> (last_snapshot_id s + Z.of_nat (length work) < i64_top)%Z ->
  Forall (fun w => (w.1 + Z.of_nat (length work) < i64_top)%Z) work ->
  insert_snapshots work s = (ids, s') ->
  StronglySorted Z.lt ids /\
  Forall2 (fun w i => (w.1 <= i)%Z /\ (last_snapshot_id s < i)%Z) work ids /\
  ids_below s' /\
  forall ts, (ts <= last_snapshot_id s)%Z ->
    tree_memory s' !! ts = tree_memory s !! ts /\ tree_disk s' !! ts = tree_disk s !! ts.
Proof.
  revert s ids s'. induction work as [|[now rows] work IH]; intros s ids s' Hb Hl Hw Hi.
  - cbn in Hi. simplify_eq. split_and!; by try constructor.
  - cbn [insert_snapshots] in Hi. destruct (insert_snapshot now rows s) as [i s1] eqn:H1.
    destruct (insert_snapshots work s1) as [ids' s2] eqn:H2. simplify_eq.
    apply Forall_cons in Hw as [Hnow Hw]. cbn [length fst] in *.
    apply insert_snapshot_fresh in H1 as (Hlt & Hge & Hor & Hlast & Hm & Hd); [|lia].
    assert (ids_below s1) as Hb1.
    { intros ts. rewrite Hm, Hd, Hlast. intros [Hts|Hts].
      - destruct (decide (ts = i)) as [->|Hne]; [lia|]. rewrite lookup_insert_ne in Hts by done.
        specialize (Hb ts (or_introl Hts)). lia.
      - specialize (Hb ts (or_intror Hts)). lia. }
    destruct (IH s1 ids' s' Hb1) as (Hs & H3 & Hb2 & Hk); [lia| |done|].
    { eapply Forall_impl; [exact Hw|]. intros w. cbn. lia. }
    rewrite Hlast in *. split_and!.
    + constructor; [done|]. clear -H3. induction H3 as [|w j ws js [_ Hj] _ IH]; by constructor.
    + constructor; [done|]. eapply Forall2_impl; [exact H3|]. cbn. intros w j. lia.
    + done.
    + intros ts Hts. destruct (Hk ts ltac:(lia)) as [-> ->]. rewrite Hm, Hd.
      by rewrite lookup_insert_ne by lia.
Qed.

Lemma snapshot_ids_fresh_witness :
  StronglySorted Z.lt (insert_snapshots
    [(1000%Z, SnapshotWitness.rows); (1000%Z, []); (500%Z, [])] SnapshotWitness.start).1.
Proof.
  refine (proj1 (snapshot_ids_fresh [(1000%Z, SnapshotWitness.rows); (1000%Z, []); (500%Z, [])]
    SnapshotWitness.start _ (insert_snapshots [(1000%Z, SnapshotWitness.rows); (1000%Z, []);
    (500%Z, [])] SnapshotWitness.start).2 _ _ _ _)).
  - intros ts [Hts|Hts]; destruct Hts as [x Hx].
    + change (tree_memory SnapshotWitness.start)
        with (<[1000%Z := SnapshotWitness.rows]> (∅ : gmap Z (list ReducedData))) in Hx.
      apply lookup_insert_Some in Hx as [[<- _]|[_ Hx]]; [|by apply lookup_empty_Some in Hx].
      vm_compute; discriminate.
    + change (tree_disk SnapshotWitness.start) with (∅ : gmap Z (gmap N ReducedData)) in Hx.
      by apply lookup_empty_Some in Hx.
  - reflexivity.
  - repeat constructor.
  - apply surjective_pairing.
Defined.
