(* ===== verification/Tokens.v ===== *)
(** * Tokens: the claims of the three JSON web tokens
      ([backend/src/router/auth.rs], first part)

    A session token identifies a user or a share for 14 days, a snapshot token
    one prefetch result and an asset token one file, both for 300 seconds.  The
    derived serde forms are written out; signing and verification are
    [jsonwebtoken]'s and stay abstract. *)

From S2P Require Import Prelude Errors Model.

(** ** Claims *)
Inductive Role := RUser (id : str) (admin : bool) | RShare (s : ResolvedShare).
Inductive TokenType := TSession | TSnapshot | TAsset.
#[export] Instance TokenType_eq_dec : EqDecision TokenType.
Proof. solve_decision. Defined.

Record ClaimsSession := mkSession {
  role : Role; session_exp : N; session_typ : TokenType; jti : str; session_ver : N
}.
Record ClaimsAsset := mkAssetClaims {
  allow_original : bool; asset_hash : str; claims_asset_id : str; asset_timestamp : Z;
  asset_exp : N; asset_caller : str; asset_share : option ResolvedShare; asset_typ : TokenType
}.
Record ClaimsSnapshot := mkSnapshotClaims {
  caller : str; resolved_share_opt : option ResolvedShare; snapshot_timestamp : Z;
  snapshot_exp : N; snapshot_typ : TokenType
}.

(** [(now.timestamp_millis() / 1000) as u64 + life]: division towards zero, sign
    cast, wrapping addition. *)
Definition expiry (now_millis : Z) (life : N) : N :=
  wrapping_add_u64 (Z.to_N (Z.quot now_millis 1000 mod 18446744073709551616)) life.

Definition new_user (now : Z) (uuid id : str) (admin : bool) (ver : N) : ClaimsSession :=
  mkSession (RUser id admin) (expiry now (14 * 86400)) TSession uuid ver.
Definition new_share (now : Z) (uuid : str) (s : ResolvedShare) : ClaimsSession :=
  mkSession (RShare s) (expiry now (14 * 86400)) TSession uuid 0.
Definition is_admin (c : ClaimsSession) : bool :=
  match role c with RUser _ admin => admin | RShare _ => false end.
Definition get_share (c : ClaimsSession) : option ResolvedShare :=
  match role c with RShare s => Some s | RUser _ _ => None end.
Definition new_asset (now : Z) (hash asset_id : str) (timestamp : Z) (allow_original : bool)
    (caller : str) (share : option ResolvedShare) : ClaimsAsset :=
  mkAssetClaims allow_original hash asset_id timestamp (expiry now 300) caller share TAsset.
Definition new_snapshot (now : Z) (caller : str) (share : option ResolvedShare) (timestamp : Z)
  : ClaimsSnapshot :=
  mkSnapshotClaims caller share timestamp (expiry now 300) TSnapshot.

(** ** Derived serde forms *)
(** A struct from an object or from serde's sequence form: [names] in order, the
    first [req] of them without a default, [deny] for [deny_unknown_fields]. *)
Definition struct_fields (names : list str) (req : nat) (deny : bool) (j : Json)
  : option (list (str * Json)) :=
  match j with
  | JObj f =>
      if deny && negb (forallb (fun kv => bool_decide (kv.1 ∈ names)) f) then None else Some f
  | JArr l =>
      if (req <=? length l)%nat && (length l <=? length names)%nat then Some (zip names l) else None
  | _ => None
  end.

Definition as_i64 (j : Json) : option Z :=
  match j with
  | JNum n => if (-9223372036854775808 <=? n)%Z && (n <=? 9223372036854775807)%Z then Some n else None
  | _ => None
  end.
Definition as_array_string (j : Json) : option str := as_str j ≫= array_string.
(** An [Option] field: absent or [null] is [None]. *)
Definition opt_member {A} (dec : Json -> option A) (v : option Json) : option (option A) :=
  match v with None | Some JNull => Some None | Some j => Some <$> dec j end.
Definition opt_json {A} (enc : A -> Json) (o : option A) : Json :=
  match o with Some a => enc a | None => JNull end.

Definition share_names : list str :=
  lit <$> ["url"; "description"; "password"; "showMetadata"; "showDownload"; "showUpload"; "exp";
           "createdBy"]%string.
Definition share_to_value (s : Share) : Json :=
  JObj ([(lit "url", JStr (url s)); (lit "description", JStr (share_description s))]
        ++ match password s with Some p => [(lit "password", JStr p)] | None => [] end
        ++ [(lit "showMetadata", JBool (show_metadata s));
            (lit "showDownload", JBool (show_download s));
            (lit "showUpload", JBool (show_upload s)); (lit "exp", JNum (exp s));
            (lit "createdBy", JStr (created_by s))]).
Definition share_from_value (j : Json) : option Share :=
  f ← struct_fields share_names 7 false j;
  u ← jget (lit "url") f ≫= as_array_string;
  d ← jget (lit "description") f ≫= as_str;
  p ← opt_member as_str (jget (lit "password") f);
  m ← jget (lit "showMetadata") f ≫= as_bool;
  dl ← jget (lit "showDownload") f ≫= as_bool;
  up ← jget (lit "showUpload") f ≫= as_bool;
  e ← jget (lit "exp") f ≫= as_i64;
  c ← match jget (lit "createdBy") f with None => Some [] | Some v => as_str v end;
  Some (mkShare u d p m dl up e c).

Definition resolved_to_value (r : ResolvedShare) : Json :=
  JObj [(lit "share", share_to_value (share r)); (lit "albumId", JStr (album_id r));
        (lit "albumTitle", opt_json JStr (album_title r))].
Definition resolved_from_value (j : Json) : option ResolvedShare :=
  f ← struct_fields [lit "share"; lit "albumId"; lit "albumTitle"] 3 false j;
  s ← jget (lit "share") f ≫= share_from_value;
  a ← jget (lit "albumId") f ≫= as_array_string;
  t ← opt_member as_str (jget (lit "albumTitle") f);
  Some (mkResolved s a t).

Definition typ_to_value (t : TokenType) : Json :=
  JStr (match t with
        | TSession => lit "session" | TSnapshot => lit "snapshot" | TAsset => lit "asset"
        end).
Definition typ_from_name (s : str) : option TokenType :=
  if str_eqb s (lit "session") then Some TSession
  else if str_eqb s (lit "snapshot") then Some TSnapshot
  else if str_eqb s (lit "asset") then Some TAsset
  else None.
Definition typ_from_value (j : Json) : option TokenType :=
  match j with
  | JStr s => typ_from_name s
  | JObj [(s, JNull)] => typ_from_name s
  | _ => None
  end.

Definition role_to_value (r : Role) : Json :=
  match r with
  | RUser i a => JObj [(lit "user", JObj [(lit "id", JStr i); (lit "admin", JBool a)])]
  | RShare s => JObj [(lit "share", resolved_to_value s)]
  end.
Definition role_from_value (j : Json) : option Role :=
  match j with
  | JObj [(k, v)] =>
      if str_eqb k (lit "user") then
        f ← struct_fields [lit "id"; lit "admin"] 2 false v;
        i ← jget (lit "id") f ≫= as_str;
        a ← jget (lit "admin") f ≫= as_bool;
        Some (RUser i a)
      else if str_eqb k (lit "share") then RShare <$> resolved_from_value v
      else None
  | _ => None
  end.

Definition session_names : list str := lit <$> ["role"; "exp"; "typ"; "jti"; "ver"]%string.
Definition session_to_value (c : ClaimsSession) : Json :=
  JObj [(lit "role", role_to_value (role c)); (lit "exp", JNum (Z.of_N (session_exp c)));
        (lit "typ", typ_to_value (session_typ c)); (lit "jti", JStr (jti c));
        (lit "ver", JNum (Z.of_N (session_ver c)))].
Definition session_from_value (j : Json) : option ClaimsSession :=
  f ← struct_fields session_names 4 true j;
  r ← jget (lit "role") f ≫= role_from_value;
  e ← jget (lit "exp") f ≫= as_u64;
  t ← jget (lit "typ") f ≫= typ_from_value;
  i ← jget (lit "jti") f ≫= as_str;
  v ← match jget (lit "ver") f with None => Some 0 | Some v => as_u64 v end;
  Some (mkSession r e t i v).

Definition asset_names : list str :=
  lit <$> ["allowOriginal"; "hash"; "assetId"; "timestamp"; "exp"; "caller"; "resolvedShareOpt";
           "typ"]%string.
Definition asset_to_value (c : ClaimsAsset) : Json :=
  JObj [(lit "allowOriginal", JBool (allow_original c)); (lit "hash", JStr (asset_hash c));
        (lit "assetId", JStr (claims_asset_id c)); (lit "timestamp", JNum (asset_timestamp c));
        (lit "exp", JNum (Z.of_N (asset_exp c))); (lit "caller", JStr (asset_caller c));
        (lit "resolvedShareOpt", opt_json resolved_to_value (asset_share c));
        (lit "typ", typ_to_value (asset_typ c))].
Definition asset_from_value (j : Json) : option ClaimsAsset :=
  f ← struct_fields asset_names 8 true j;
  o ← jget (lit "allowOriginal") f ≫= as_bool;
  h ← jget (lit "hash") f ≫= as_array_string;
  a ← jget (lit "assetId") f ≫= as_array_string;
  ts ← jget (lit "timestamp") f ≫= as_i64;
  e ← jget (lit "exp") f ≫= as_u64;
  c ← jget (lit "caller") f ≫= as_str;
  s ← opt_member resolved_from_value (jget (lit "resolvedShareOpt") f);
  t ← jget (lit "typ") f ≫= typ_from_value;
  Some (mkAssetClaims o h a ts e c s t).

Definition snapshot_names : list str :=
  lit <$> ["caller"; "resolvedShareOpt"; "timestamp"; "exp"; "typ"]%string.
Definition snapshot_to_value (c : ClaimsSnapshot) : Json :=
  JObj [(lit "caller", JStr (caller c));
        (lit "resolvedShareOpt", opt_json resolved_to_value (resolved_share_opt c));
        (lit "timestamp", JNum (snapshot_timestamp c));
        (lit "exp", JNum (Z.of_N (snapshot_exp c))); (lit "typ", typ_to_value (snapshot_typ c))].
Definition snapshot_from_value (j : Json) : option ClaimsSnapshot :=
  f ← struct_fields snapshot_names 5 true j;
  c ← jget (lit "caller") f ≫= as_str;
  s ← opt_member resolved_from_value (jget (lit "resolvedShareOpt") f);
  ts ← jget (lit "timestamp") f ≫= as_i64;
  e ← jget (lit "exp") f ≫= as_u64;
  t ← jget (lit "typ") f ≫= typ_from_value;
  Some (mkSnapshotClaims c s ts e t).

(** ** Signing and decoding *)
Inductive Validation := ValidateExp | AllowExpired.
#[export] Instance Validation_eq_dec : EqDecision Validation.
Proof. solve_decision. Defined.

(** [jsonwebtoken::encode] with the default header, and [decode]; times are the
    milliseconds the clock shows. *)
Class Jwt := {
  jwt_encode : str -> Json -> str;
  jwt_decode : str -> Validation -> Z -> str -> result str Json
}.
(** What the code relies on: a token signed with the key decodes to its claims
    while its [exp] (seconds) is not past, and past it when expiry is not checked. *)
Class JwtLaws (J : Jwt) := {
  jwt_fresh key now f e : jget (lit "exp") f = Some (JNum e) -> (now <= e * 1000)%Z ->
    jwt_decode key ValidateExp now (jwt_encode key (JObj f)) = Ok (JObj f);
  jwt_expired key now f e : jget (lit "exp") f = Some (JNum e) ->
    jwt_decode key AllowExpired now (jwt_encode key (JObj f)) = Ok (JObj f)
}.

(** [TokenKind], with the serde implementations of the claims type. *)
Class TokenKind (T : Type) := {
  EXPECTED : TokenType;
  token_type : T -> TokenType;
  token_exp : T -> N;
  to_value : T -> Json;
  from_value : Json -> option T
}.
#[export] Instance session_kind : TokenKind ClaimsSession := {|
  EXPECTED := TSession; token_type := session_typ; token_exp := session_exp;
  to_value := session_to_value; from_value := session_from_value |}.
#[export] Instance asset_kind : TokenKind ClaimsAsset := {|
  EXPECTED := TAsset; token_type := asset_typ; token_exp := asset_exp;
  to_value := asset_to_value; from_value := asset_from_value |}.
#[export] Instance snapshot_kind : TokenKind ClaimsSnapshot := {|
  EXPECTED := TSnapshot; token_type := snapshot_typ; token_exp := snapshot_exp;
  to_value := snapshot_to_value; from_value := snapshot_from_value |}.

Section Decode.
Context {J : Jwt}.

Definition encode_token {T : Type} `{TokenKind T} (key : str) (c : T) : str :=
  jwt_encode key (to_value c).
Definition my_decode_token {T : Type} `{TokenKind T} (key : str) (v : Validation) (now : Z)
    (token : str) : result str T :=
  match jwt_decode key v now token ≫= (fun j => ok_or (lit "invalid claims") (from_value j)) with
  | Ok claims => Ok claims
  | Err _ => Err (lit "Failed to decode JWT token")
  end.
Definition decode_typed {T : Type} `{TokenKind T} (key : str) (v : Validation) (now : Z)
    (token : str) : result str T :=
  claims ← my_decode_token key v now token;
  if bool_decide (token_type claims = EXPECTED) then Ok claims
  else Err (lit "Token type mismatch").
End Decode.

(** ** Claims survive the wire *)
Definition ids_ok (s : str) : Prop := str_len s <= 64.
Definition i64_ok (z : Z) : Prop := (-9223372036854775808 <= z <= 9223372036854775807)%Z.
Definition share_ok (s : Share) : Prop := ids_ok (url s) /\ i64_ok (exp s).
Definition resolved_ok (r : ResolvedShare) : Prop := share_ok (share r) /\ ids_ok (album_id r).
Definition opt_ok (o : option ResolvedShare) : Prop := forall r, o = Some r -> resolved_ok r.

Lemma struct_obj names req deny f :
  forallb (fun k => bool_decide (k ∈ names)) f.*1 = true ->
  struct_fields names req deny (JObj f) = Some f.
Proof.
  intros Hf. unfold struct_fields. replace (forallb _ f) with true; [by destruct deny|].
  rewrite <-Hf. induction f as [|[k v] f IH]; [done|]. cbn in *. by destruct (bool_decide _); auto.
Qed.

(** Look every member of a literal object up. *)
Ltac members := repeat (cbn [jget app mbind option_bind as_bool as_str]; eval_eqb).
Ltac struct := rewrite struct_obj by (vm_compute; reflexivity); cbn [mbind option_bind].

Lemma as_array_string_ok s : ids_ok s -> as_array_string (JStr s) = Some s.
Proof. intros Hs. unfold as_array_string, array_string. cbn. by apply N.leb_le in Hs as ->. Qed.
Lemma as_i64_ok z : i64_ok z -> as_i64 (JNum z) = Some z.
Proof.
  intros [H1 H2]. unfold as_i64. by rewrite (proj2 (Z.leb_le _ _) H1), (proj2 (Z.leb_le _ _) H2).
Qed.
Lemma opt_member_json {A} (dec : Json -> option A) (enc : A -> Json) o :
  (forall a, enc a <> JNull) -> (forall a, o = Some a -> dec (enc a) = Some a) ->
  opt_member dec (Some (opt_json enc o)) = Some o.
Proof.
  intros Hn Hd. destruct o as [a|]; [|done]. cbn. rewrite (Hd a eq_refl).
  destruct (enc a) eqn:He; try done. by destruct (Hn a).
Qed.
Lemma typ_roundtrip t : typ_from_value (typ_to_value t) = Some t.
Proof. by destruct t. Qed.

Lemma share_roundtrip s : share_ok s -> share_from_value (share_to_value s) = Some s.
Proof.
  intros [Hu He]. destruct s as [u d p m dl up e c]. cbn in Hu, He.
  unfold share_from_value, share_to_value. cbn [url share_description password show_metadata
    show_download show_upload exp created_by].
  destruct p as [p|]; cbn [app]; struct; members;
    rewrite as_array_string_ok by done; members; rewrite as_i64_ok by done; by members.
Qed.

Lemma resolved_roundtrip r : resolved_ok r -> resolved_from_value (resolved_to_value r) = Some r.
Proof.
  intros [Hs Ha]. destruct r as [s a t]. cbn [share album_id] in *.
  unfold resolved_from_value, resolved_to_value. cbn [share album_id album_title]. struct. members.
  rewrite share_roundtrip by done. members. rewrite as_array_string_ok by done. members.
  by rewrite opt_member_json.
Qed.
Lemma opt_resolved_roundtrip o : opt_ok o ->
  opt_member resolved_from_value (Some (opt_json resolved_to_value o)) = Some o.
Proof. intros Ho. apply opt_member_json; [done|]. intros r Hr. by apply resolved_roundtrip, Ho. Qed.

Definition role_ok (r : Role) : Prop := match r with RUser _ _ => True | RShare s => resolved_ok s end.
Lemma role_roundtrip r : role_ok r -> role_from_value (role_to_value r) = Some r.
Proof.
  destruct r as [i a|s]; intros Hr; unfold role_from_value, role_to_value; eval_eqb.
  - struct. by members.
  - by rewrite resolved_roundtrip.
Qed.

(** Claims that fit their integer and string types. *)
Class TokenLaws (T : Type) `{TokenKind T} := {
  claims_ok : T -> Prop;
  claims_roundtrip c : claims_ok c -> from_value (to_value c) = Some c;
  claims_object c : exists f, to_value c = JObj f /\
    jget (lit "exp") f = Some (JNum (Z.of_N (token_exp c)))
}.
#[export] Instance session_laws : TokenLaws ClaimsSession.
Proof.
  refine {| claims_ok c := role_ok (role c) /\ session_exp c <= u64_max /\ session_ver c <= u64_max |}.
  - intros [r e t i v] (Hr & He & Hv). cbn in Hr, He, Hv.
    unfold from_value, to_value, session_kind, session_from_value, session_to_value.
    cbn [role session_exp session_typ jti session_ver]. struct. members.
    rewrite role_roundtrip by done. members. rewrite as_u64_JNum by done. members.
    rewrite typ_roundtrip. members. by rewrite as_u64_JNum.
  - intros c. by eexists.
Defined.
#[export] Instance asset_laws : TokenLaws ClaimsAsset.
Proof.
  refine {| claims_ok c := ids_ok (asset_hash c) /\ ids_ok (claims_asset_id c) /\
    i64_ok (asset_timestamp c) /\ asset_exp c <= u64_max /\ opt_ok (asset_share c) |}.
  - intros [o h a ts e c s t] (Hh & Ha & Hts & He & Hs). cbn in Hh, Ha, Hts, He, Hs.
    unfold from_value, to_value, asset_kind, asset_from_value, asset_to_value.
    cbn [allow_original asset_hash claims_asset_id asset_timestamp asset_exp asset_caller
      asset_share asset_typ].
    struct. members. rewrite as_array_string_ok by done. members.
    rewrite as_array_string_ok by done. members. rewrite as_i64_ok by done. members.
    rewrite as_u64_JNum by done. members. rewrite opt_resolved_roundtrip by done. members.
    by rewrite typ_roundtrip.
  - intros c. by eexists.
Defined.
#[export] Instance snapshot_laws : TokenLaws ClaimsSnapshot.
Proof.
  refine {| claims_ok c := i64_ok (snapshot_timestamp c) /\ snapshot_exp c <= u64_max /\
    opt_ok (resolved_share_opt c) |}.
  - intros [c s ts e t] (Hts & He & Hs). cbn in Hts, He, Hs.
    unfold from_value, to_value, snapshot_kind, snapshot_from_value, snapshot_to_value.
    cbn [caller resolved_share_opt snapshot_timestamp snapshot_exp snapshot_typ].
    struct. members. rewrite opt_resolved_roundtrip by done. members.
    rewrite as_i64_ok by done. members. rewrite as_u64_JNum by done. members.
    by rewrite typ_roundtrip.
  - intros c. by eexists.
Defined.

Section Theorems.
Context {J : Jwt}.

Lemma decode_typed_ok {T : Type} `{TokenKind T} key v now token (c : T) :
  decode_typed key v now token = Ok c ->
  token_type c = EXPECTED /\ exists j, jwt_decode key v now token = Ok j /\ from_value j = Some c.
Proof.
  unfold decode_typed, my_decode_token. destruct (jwt_decode key v now token) as [j|]; [|done].
  cbn. destruct (from_value j) as [c'|] eqn:Hj; cbn; [|done].
  case_bool_decide; [|done]. intros [= ->]. eauto.
Qed.

Lemma decode_exp_ok key v now token (c : ClaimsSession) :
  decode_typed key v now token = Ok c -> session_exp c <= u64_max.
Proof.
  intros (_ & j & _ & Hj)%decode_typed_ok. cbn in Hj. unfold session_from_value in Hj.
  apply bind_Some in Hj as (f & _ & Hj). apply bind_Some in Hj as (? & _ & Hj).
  apply bind_Some in Hj as (e & He & Hj). do 3 apply bind_Some in Hj as (? & _ & Hj).
  injection Hj as <-. apply bind_Some in He as (je & _ & He). by eapply as_u64_max.
Qed.

Lemma minted_decodes {Jl : JwtLaws J} {T : Type} `{TokenLaws T} key now v (c : T) :
  claims_ok c -> token_type c = EXPECTED ->
  (v = ValidateExp -> (now <= Z.of_N (token_exp c) * 1000)%Z) ->
  decode_typed key v now (encode_token key c) = Ok c.
Proof.
  intros Hc Ht Hv. destruct (claims_object c) as (f & Hf & He).
  pose proof (claims_roundtrip c Hc) as Hr. rewrite Hf in Hr.
  assert (jwt_decode key v now (jwt_encode key (JObj f)) = Ok (JObj f)) as Hd.
  { destruct v; [by apply (jwt_fresh _ _ _ _ He), Hv|by apply (jwt_expired _ _ _ _ He)]. }
  unfold decode_typed, my_decode_token, encode_token. rewrite Hf, Hd. cbn. rewrite Hr. cbn.
  by rewrite bool_decide_eq_true_2.
Qed.

(** A minted token decodes to the claims it was minted from until its expiry,
    and after it where expiry is not checked; so a renewal sees what was signed. *)
Theorem token_roundtrip {Jl : JwtLaws J} {T : Type} `{TokenLaws T} key now (c : T) :
  claims_ok c -> token_type c = EXPECTED ->
  ((now <= Z.of_N (token_exp c) * 1000)%Z ->
    decode_typed key ValidateExp now (encode_token key c) = Ok c) /\
  decode_typed key AllowExpired now (encode_token key c) = Ok c.
Proof. intros Hc Ht. split; [intros Hn|]; by apply minted_decodes. Qed.

(** The [typ] member decides which kind an object of claims is. *)
Definition typ_of (f : list (str * Json)) : option TokenType :=
  jget (lit "typ") f ≫= typ_from_value.

Lemma struct_inv names req deny j f : struct_fields names req deny j = Some f ->
  j = JObj f \/ exists l, j = JArr l /\ f = zip names l /\ (req <= length l <= length names)%nat.
Proof.
  unfold struct_fields. destruct j; try done.
  - destruct (_ && _) eqn:Hl; [|done]. intros [= <-]. right. apply andb_true_iff in Hl as [H1 H2].
    apply Nat.leb_le in H1, H2. eauto.
  - destruct (_ && _); [done|]. intros [= ->]. by left.
Qed.

Ltac binds H := repeat match type of H with
  | _ ≫= _ = Some _ => let x := fresh "x" in let Hx := fresh "Hx" in
      apply bind_Some in H as (x & Hx & H)
  | Some _ = Some _ => injection H as H
  end.

Lemma session_typ_of j c : session_from_value j = Some c ->
  exists f, struct_fields session_names 4 true j = Some f /\ typ_of f = Some (session_typ c) /\
    is_Some (jget (lit "role") f ≫= role_from_value).
Proof.
  unfold session_from_value. intros (f & Hf & H)%bind_Some. exists f. split; [done|].
  apply bind_Some in H as (r & Hr & H). apply bind_Some in H as (e & _ & H).
  apply bind_Some in H as (t & Ht & H). apply bind_Some in H as (i & _ & H).
  apply bind_Some in H as (v & _ & [= <-]). by rewrite Hr.
Qed.
Lemma asset_typ_of j c : asset_from_value j = Some c ->
  exists f, struct_fields asset_names 8 true j = Some f /\ typ_of f = Some (asset_typ c).
Proof.
  unfold asset_from_value. intros (f & Hf & H)%bind_Some. exists f. split; [done|].
  do 7 apply bind_Some in H as (? & _ & H). by apply bind_Some in H as (t & Ht & [= <-]).
Qed.
Lemma snapshot_typ_of j c : snapshot_from_value j = Some c ->
  exists f, struct_fields snapshot_names 5 true j = Some f /\ typ_of f = Some (snapshot_typ c) /\
    is_Some (jget (lit "caller") f ≫= as_str).
Proof.
  unfold snapshot_from_value. intros (f & Hf & H)%bind_Some. exists f. split; [done|].
  apply bind_Some in H as (cl & Hc & H). do 3 apply bind_Some in H as (? & _ & H).
  apply bind_Some in H as (t & Ht & [= <-]). by rewrite Hc.
Qed.

(** Token kinds never mix: whatever the key, the clock and the validation, no
    token is accepted as two of session, snapshot and asset. *)
Theorem token_kinds_disjoint key v v' now now' token j :
  jwt_decode key v now token = Ok j -> jwt_decode key v' now' token = Ok j ->
  let session := is_ok (decode_typed (T:=ClaimsSession) key v now token) in
  let asset := is_ok (decode_typed (T:=ClaimsAsset) key v' now' token) in
  let snapshot := is_ok (decode_typed (T:=ClaimsSnapshot) key v' now' token) in
  session && asset = false /\ session && snapshot = false /\ asset && snapshot = false.
Proof.
  intros Hj Hj' session asset snapshot. split_and!; apply not_true_iff_false; subst session asset snapshot;
    intros [H1 H2]%andb_true_iff.
  - destruct (decode_typed (T:=ClaimsSession) _ _ _ _) as [c1|] eqn:E1; [|done].
    destruct (decode_typed (T:=ClaimsAsset) _ _ _ _) as [c2|] eqn:E2; [|done].
    apply decode_typed_ok in E1 as (Ht1 & j1 & Hj1 & E1), E2 as (Ht2 & j2 & Hj2 & E2).
    assert (j1 = j) as -> by congruence. assert (j2 = j) as -> by congruence. apply session_typ_of in E1 as (f & Hf & Htf & _).
    apply asset_typ_of in E2 as (g & Hg & Htg). cbn in Ht1, Ht2. rewrite Ht1 in Htf. rewrite Ht2 in Htg.
    apply struct_inv in Hf as [->|(l & -> & -> & Hl)], Hg as [Hg|(l' & Hg & -> & Hl')];
      simplify_eq; first [congruence|simpl in *; lia].
  - destruct (decode_typed (T:=ClaimsSession) _ _ _ _) as [c1|] eqn:E1; [|done].
    destruct (decode_typed (T:=ClaimsSnapshot) _ _ _ _) as [c2|] eqn:E2; [|done].
    apply decode_typed_ok in E1 as (Ht1 & j1 & Hj1 & E1), E2 as (Ht2 & j2 & Hj2 & E2).
    assert (j1 = j) as -> by congruence. assert (j2 = j) as -> by congruence. apply session_typ_of in E1 as (f & Hf & Htf & Hr).
    apply snapshot_typ_of in E2 as (g & Hg & Htg & Hc). cbn in Ht1, Ht2. rewrite Ht1 in Htf. rewrite Ht2 in Htg.
    apply struct_inv in Hf as [->|(l & -> & -> & Hl)], Hg as [Hg|(l' & Hg & -> & Hl')];
      simplify_eq; try congruence.
    destruct l' as [|x l']; [simpl in *; lia|]. destruct Hr as [r Hr], Hc as [s Hc].
    change (jget (lit "role") (zip session_names (x :: l'))) with (Some x) in Hr.
    change (jget (lit "caller") (zip snapshot_names (x :: l'))) with (Some x) in Hc.
    by destruct x.
  - destruct (decode_typed (T:=ClaimsAsset) _ _ _ _) as [c1|] eqn:E1; [|done].
    destruct (decode_typed (T:=ClaimsSnapshot) _ _ _ _) as [c2|] eqn:E2; [|done].
    apply decode_typed_ok in E1 as (Ht1 & j1 & Hj1 & E1), E2 as (Ht2 & j2 & Hj2 & E2).
    assert (j1 = j) as -> by congruence. assert (j2 = j) as -> by congruence. apply asset_typ_of in E1 as (f & Hf & Htf).
    apply snapshot_typ_of in E2 as (g & Hg & Htg & _). cbn in Ht1, Ht2. rewrite Ht1 in Htf. rewrite Ht2 in Htg.
    apply struct_inv in Hf as [->|(l & -> & -> & Hl)], Hg as [Hg|(l' & Hg & -> & Hl')];
      simplify_eq; first [congruence|simpl in *; lia].
Qed.
End Theorems.

(** ** Witnesses: a scheme that keeps the claims readable *)
Module TokenWitness.
Definition key : str := lit "secret".
#[export] Instance jwt : Jwt := {|
  jwt_encode k v := json_print (JArr [JStr k; v]);
  jwt_decode k val now t :=
    match json_parse t with
    | Some (JArr [JStr k'; JObj f]) =>
        match jget (lit "exp") f with
        | Some (JNum e) =>
            if str_eqb k k' && (bool_decide (val = AllowExpired) || (now <=? e * 1000)%Z)
            then Ok (JObj f) else Err (lit "ExpiredSignature")
        | _ => Err (lit "MissingRequiredClaim")
        end
    | _ => Err (lit "InvalidSignature")
    end |}.
#[export] Instance jwt_laws : JwtLaws jwt.
Proof.
  split; intros k now f e He; unfold jwt_decode, jwt_encode, jwt; rewrite json_parse_print, He, str_eqb_refl; [|done].
  intros Hn. by rewrite (proj2 (Z.leb_le _ _) Hn), orb_true_r.
Qed.
Definition session : ClaimsSession := new_user 1700000000000 (lit "jti") (lit "alice") true 3.
Definition token : str := encode_token key session.
Definition claims : list (str * Json) :=
  match session_to_value session with JObj f => f | _ => [] end.
End TokenWitness.
Import (hints) TokenWitness.

Lemma token_roundtrip_witness :
  decode_typed TokenWitness.key ValidateExp 1700000001000 TokenWitness.token
    = Ok TokenWitness.session.
Proof.
  refine (proj1 (token_roundtrip TokenWitness.key 1700000001000 TokenWitness.session _ _) _);
    [split_and!; done|reflexivity|vm_compute; discriminate].
Defined.

Lemma token_kinds_disjoint_witness :
  is_ok (decode_typed (T:=ClaimsSession) TokenWitness.key AllowExpired 0 TokenWitness.token)
  && is_ok (decode_typed (T:=ClaimsAsset) TokenWitness.key AllowExpired 0 TokenWitness.token) = false.
Proof.
  refine (proj1 (token_kinds_disjoint TokenWitness.key AllowExpired AllowExpired 0 0
    TokenWitness.token (JObj TokenWitness.claims) _ _));
    refine (jwt_expired _ _ _ (Z.of_N (session_exp TokenWitness.session)) _); reflexivity.
Defined.
