(* ===== verification/Prefetch.v ===== *)
(** * Prefetch: evaluating a list query into a snapshot
      ([backend/src/router/get/get_prefetch.rs])

    A query is answered from the cache when its hash is known; otherwise the
    in-memory tree is filtered for the caller, the rows are frozen under a fresh
    snapshot id and the answer is remembered.  Timers, logging and the in-flight
    tripwire's warning are left out. *)

From S2P Require Import Prelude Errors Paths Model DirAlbum Expression Snapshots Tokens.

Record PrefetchReturn := mkReturn {
  prefetch_of : Prefetch; token : str; ret_share : option ResolvedShare
}.

(** [From<&DatabaseTimestamp> for ReducedData]. *)
Definition reduce (source : DatabaseTimestamp) : ReducedData :=
  let d := abstract_data source in
  mkReduced (ts_asset_id source) (Model.hash d) (Model.width d) (Model.height d)
    (timestamp source) (get_update_at d) (get_pending d).

Section Filter.
Context {F : Fs}.

Definition classify (lib : Library) (d : AbstractData) : option PathClassification :=
  (fun p => classify_path (config lib) (components p)) <$> visibility_path d.
Definition is_personal (c : PathClassification) : bool :=
  match c with Personal _ => true | _ => false end.

Definition row_visible (lib : Library) (ad : AbstractData) (caller : str) (include_personal : bool)
  : bool :=
  match visibility_path ad with
  | Some path =>
      visible_to (config lib) caller (components path)
      && negb (is_personal (classify_path (config lib) (components path)) && negb include_personal)
  | None => true
  end.

Definition filter_items (lib : Library) (tree : list DatabaseTimestamp)
    (expression : option Expression) (share : option ResolvedShare) (caller : str)
    (include_personal personal_only_roots : bool) : list ReducedData :=
  let keep (d : AbstractData) :=
    match expression, share with
    | Some expr, Some resolved =>
        let filter_fn := if show_metadata (Model.share resolved) then generate_filter lib expr
                         else generate_filter_hide_metadata (album_id resolved) expr in
        negb (bool_decide (classify lib d = Some UsersRoot)) && filter_fn d
    | Some expr, None =>
        row_visible lib d caller include_personal
        && negb (personal_only_roots && bool_decide (classify lib d = Some Public))
        && generate_filter lib expr d
    | None, _ => row_visible lib d caller include_personal
    end in
  reduce <$> filter (fun t => keep (abstract_data t) = true) tree.
End Filter.

(** [position_first]. *)
Fixpoint position (p : ReducedData -> bool) (i : N) (rows : list ReducedData) : option N :=
  match rows with
  | [] => None
  | r :: rs => if p r then Some i else position p (i + 1) rs
  end.
Definition compute_locate (rows : list ReducedData) (locate : option str) : option N :=
  l ← locate; position (fun r => str_eqb (r_asset_id r) l) 0 rows.

(** The 64-bit [DefaultHasher] digest of the query, the version and the caller;
    the share a query runs for is not among its inputs. *)
Class QueryHash := {
  query_digest : option Expression -> Z -> option str -> str -> bool -> bool -> N
}.

Section Prefetch.
Context {F : Fs} {St : Store} {Qh : QueryHash} {J : Jwt}.

Definition build_cache_key (expression : option Expression) (ver : Z) (locate : option str)
    (caller : str) (include_personal personal_only_roots : bool) : N :=
  query_digest expression ver locate caller include_personal personal_only_roots.

Definition respond (key : str) (now : Z) (caller : str) (share : option ResolvedShare)
    (p : Prefetch) : PrefetchReturn :=
  mkReturn p (encode_token key (new_snapshot now caller share (pf_timestamp p))) share.

(** Outer [None]: reading the cache panics. *)
Definition check_query_cache (key : str) (now : Z) (query_hash : N) (share : option ResolvedShare)
    (caller : str) (s : Snapshots) : option (option PrefetchReturn) :=
  r ← read_query_snapshot query_hash s;
  Some match r with
       | Ok (Some prefetch) => Some (respond key now caller share prefetch)
       | _ => None
       end.

Definition insert_data_into_tree_snapshot (now : Z) (rows : list ReducedData) (s : Snapshots)
  : Z * N * Snapshots :=
  let '(ts, s') := insert_snapshot now rows s in (ts, N.of_nat (length rows), s').

Definition create_json_response (key : str) (now ts : Z) (locate : option N) (len query_hash : N)
    (share : option ResolvedShare) (caller : str) (s : Snapshots) : PrefetchReturn * Snapshots :=
  let prefetch := mkPrefetch ts locate len in
  (respond key now caller share prefetch, remember_query query_hash prefetch s).

Definition execute_prefetch_logic (key : str) (now : Z) (lib : Library)
    (tree : list DatabaseTimestamp) (expression : option Expression) (locate : option str)
    (share : option ResolvedShare) (caller : str) (include_personal personal_only_roots : bool)
    (s : Snapshots) : option (PrefetchReturn * Snapshots) :=
  let query_hash :=
    build_cache_key expression (version s) locate caller include_personal personal_only_roots in
  cached ← check_query_cache key now query_hash share caller s;
  match cached with
  | Some response => Some (response, s)
  | None =>
      let rows := filter_items lib tree expression share caller include_personal
                    personal_only_roots in
      let locate_to := compute_locate rows locate in
      let '(ts, len, s) := insert_data_into_tree_snapshot now rows s in
      Some (create_json_response key now ts locate_to len query_hash share caller s)
  end.

(** The handler, behind [GuardPresenter]. *)
Definition prefetch (key : str) (now : Z) (lib : Library) (tree : list DatabaseTimestamp)
    (claims : ClaimsSession) (query : option Expression) (locate : option str)
    (include_personal : option bool) (s : Snapshots) : option (PrefetchReturn * Snapshots) :=
  let caller := match role claims with RUser id _ => id | RShare _ => [] end in
  let include_personal := default false include_personal in
  let share := get_share claims in
  let personal_only_roots :=
    include_personal && is_some_and contains_root_album_true query in
  let expression :=
    match share with
    | Some resolved =>
        let album := EAlbum (AValue (album_id resolved)) in
        Some (match query with Some e => EAnd [album; e] | None => album end)
    | None => query
    end in
  execute_prefetch_logic key now lib tree expression locate share caller include_personal
    personal_only_roots s.
End Prefetch.

Definition IN_FLIGHT_WARN_MULTIPLE : N := 4.
Definition prefetch_concurrency_over_limit (in_flight workers : N) : bool :=
  wmul IN_FLIGHT_WARN_MULTIPLE (N.max workers 1) <? in_flight.

(** ** Facts *)
Section Facts.
Context {F : Fs} {St : Store} {Qh : QueryHash} {J : Jwt}.

Lemma row_visible_spec lib d caller inc :
  row_visible lib d caller inc = true <->
  forall p, visibility_path d = Some p ->
    visible_to (config lib) caller (components p) = true /\
    forall o, classify_path (config lib) (components p) = Personal o -> o = caller /\ inc = true.
Proof.
  unfold row_visible. destruct (visibility_path d) as [p|]; [|by split].
  split.
  - intros [Hv Hp]%andb_true_iff p' [= <-]. split; [done|]. intros o Ho.
    unfold visible_to in Hv. rewrite Ho in Hv, Hp. to_prop. split; [done|].
    by destruct inc.
  - intros Hp. destruct (Hp p eq_refl) as [-> Ho]. simpl.
    destruct (classify_path _ _) as [|o| |]; simpl; try done. by destruct (Ho o eq_refl) as [_ ->].
Qed.

Lemma position_spec p i rows n : position p i rows = Some n ->
  i <= n /\ exists r, rows !! N.to_nat (n - i) = Some r /\ p r = true /\
    forall j r', (j < N.to_nat (n - i))%nat -> rows !! j = Some r' -> p r' = false.
Proof.
  revert i. induction rows as [|r rs IH]; intros i; cbn [position]; [done|].
  destruct (p r) eqn:Hp.
  - intros [= ->]. split; [done|]. rewrite N.sub_diag. exists r. split_and!; [done|done|]. lia.
  - intros Hn. destruct (IH _ Hn) as (Hi & r0 & Hr & Hpr & Hbefore). split; [lia|].
    replace (N.to_nat (n - i)) with (S (N.to_nat (n - (i + 1)))) by lia.
    exists r0. split_and!; [done|done|]. intros [|j] r' Hj Hr'; [by simplify_eq/=|].
    eapply Hbefore; [|exact Hr']. lia.
Qed.

Lemma position_none p i rows : position p i rows = None -> Forall (fun r => p r = false) rows.
Proof.
  revert i. induction rows as [|r rs IH]; intros i; cbn [position]; [done|].
  destruct (p r) eqn:Hp; [done|]. intros Hn. constructor; eauto.
Qed.

(** The row a [locate] request points at: the first with that asset id. *)
Lemma compute_locate_spec rows l :
  match compute_locate rows (Some l) with
  | Some n => exists r, rows !! N.to_nat n = Some r /\ r_asset_id r = l /\
      forall j r', (j < N.to_nat n)%nat -> rows !! j = Some r' -> r_asset_id r' <> l
  | None => forall r, r ∈ rows -> r_asset_id r <> l
  end.
Proof.
  unfold compute_locate. cbn [mbind option_bind].
  destruct (position _ 0 rows) as [n|] eqn:Hn.
  - apply position_spec in Hn as (_ & r & Hr & Hp & Hb). rewrite N.sub_0_r in Hr, Hb.
    exists r. to_prop. split_and!; [done|done|]. intros j r' Hj Hr'.
    specialize (Hb j r' Hj Hr'). by to_prop.
  - apply position_none in Hn. intros r Hr. eapply Forall_forall in Hn; [|exact Hr]. by to_prop.
Qed.

(** A query whose answer is not cached. *)
Definition uncached (h : N) (s : Snapshots) : Prop :=
  forall p, read_query_snapshot h s <> Some (Ok (Some p)).

Lemma execute_cold key now lib tree e l sh c inc pers s ret s' :
  uncached (build_cache_key e (version s) l c inc pers) s ->
  execute_prefetch_logic key now lib tree e l sh c inc pers s = Some (ret, s') ->
  let rows := filter_items lib tree e sh c inc pers in
  let p := prefetch_of ret in
  tree_memory s' !! pf_timestamp p = Some rows /\ data_length p = N.of_nat (length rows) /\
  locate_to p = compute_locate rows l /\
  query_memory s' !! build_cache_key e (version s) l c inc pers = Some p /\
  version s' = version s.
Proof.
  intros Hu. unfold execute_prefetch_logic, check_query_cache.
  set (h := build_cache_key _ _ _ _ _ _) in *. specialize (Hu).
  destruct (read_query_snapshot h s) as [r|] eqn:Hr; [|done]. cbn [mbind option_bind].
  destruct r as [[p|]|]; [by destruct (Hu p)| |];
    unfold insert_data_into_tree_snapshot, insert_snapshot, create_json_response;
    cbn; intros [= <- <-]; cbn; by rewrite !lookup_insert_eq.
Qed.

Lemma execute_hit key now lib tree e l sh c inc pers s p :
  query_memory s !! build_cache_key e (version s) l c inc pers = Some p ->
  execute_prefetch_logic key now lib tree e l sh c inc pers s = Some (respond key now c sh p, s).
Proof.
  intros Hq. unfold execute_prefetch_logic, check_query_cache, read_query_snapshot. by rewrite Hq.
Qed.
End Facts.

Section Theorems.
Context {F : Fs} {St : Store} {Qh : QueryHash} {J : Jwt}.

(** The cache key of a request, as [prefetch] computes it. *)
Definition user_key (s : Snapshots) (id : str) (query : option Expression) (locate : option str)
    (inc : option bool) : N :=
  build_cache_key query (version s) locate id (default false inc)
    (default false inc && is_some_and contains_root_album_true query).
Definition share_query (r : ResolvedShare) (query : option Expression) : Expression :=
  let album := EAlbum (AValue (album_id r)) in
  match query with Some e => EAnd [album; e] | None => album end.
Definition guest_key (s : Snapshots) (r : ResolvedShare) (query : option Expression)
    (locate : option str) (inc : option bool) : N :=
  build_cache_key (Some (share_query r query)) (version s) locate [] (default false inc)
    (default false inc && is_some_and contains_root_album_true query).

(** C39: what a signed-in user's fresh prefetch freezes: in tree order, exactly the
    rows that match the query, lie where the user may look, are personal only if
    they are the user's own and were asked for, and are not public when the query
    asks for root albums with personal items; [locateTo] is the first row of the
    requested asset. *)
Theorem prefetch_user_rows key now lib tree claims id adm query locate inc s ret s' :
  role claims = RUser id adm -> uncached (user_key s id query locate inc) s ->
  prefetch key now lib tree claims query locate inc s = Some (ret, s') ->
  exists shown, sublist shown tree /\
    tree_memory s' !! pf_timestamp (prefetch_of ret) = Some (reduce <$> shown) /\
    data_length (prefetch_of ret) = N.of_nat (length shown) /\
    locate_to (prefetch_of ret) = compute_locate (reduce <$> shown) locate /\
    forall t, t ∈ shown <-> t ∈ tree /\
      (forall e, query = Some e -> generate_filter lib e (abstract_data t) = true /\
         (inc = Some true -> contains_root_album_true e = true ->
            classify lib (abstract_data t) <> Some Public)) /\
      (forall p, visibility_path (abstract_data t) = Some p ->
         visible_to (config lib) id (components p) = true /\
         forall o, classify_path (config lib) (components p) = Personal o ->
           o = id /\ inc = Some true).
Proof.
  intros Hr Hu Hp. unfold prefetch in Hp. rewrite Hr in Hp. unfold get_share in Hp. rewrite Hr in Hp.
  apply execute_cold in Hp as (Hm & Hl & Hloc & _); [|exact Hu].
  unfold filter_items in Hm, Hl, Hloc. rewrite length_fmap in Hl.
  eexists. split; [|split; [exact Hm|split; [exact Hl|split; [exact Hloc|]]]].
  - apply sublist_filter.
  - intros t. rewrite list_elem_of_filter. clear.
    assert (default false inc = true <-> inc = Some true) as Hinc by (by destruct inc as [[]|]).
    destruct query as [e|]; cbn [is_some_and].
    + rewrite !andb_true_iff, row_visible_spec, negb_true_iff, andb_false_iff, andb_false_iff.
      rewrite bool_decide_eq_false. setoid_rewrite Hinc.
      assert (default false inc = false <-> inc <> Some true) as Hinc' by (by destruct inc as [[]|]).
      rewrite Hinc'. split.
      * intros [[[Hv Hpub] Hf] Hin]. split_and!; [done| |done]. intros e' [= <-].
        split; [done|]. intros Hi Hc. destruct Hpub as [[Hx|Hx]|Hx]; [by destruct Hx|congruence|done].
      * intros (Hin & Hq & Hv). destruct (Hq e eq_refl) as [Hf Hpub].
        split_and!; [done| |done|done].
        destruct (decide (inc = Some true)); [|by left; left].
        destruct (contains_root_album_true e); [right; auto|by left; right].
    + rewrite row_visible_spec. setoid_rewrite Hinc. split.
      * intros [Hv Hin]. by split_and!.
      * by intros (Hin & _ & Hv).
Qed.

(** What a share visitor's fresh prefetch freezes stays inside the shared
    album: every row matches the album condition and the visitor's own query,
    under the filter the share's metadata switch selects, and nothing under the
    users root is listed. *)
Theorem prefetch_share_rows key now lib tree claims r query locate inc s ret s' :
  role claims = RShare r -> uncached (guest_key s r query locate inc) s ->
  prefetch key now lib tree claims query locate inc s = Some (ret, s') ->
  let matches := if show_metadata (Model.share r) then generate_filter lib
                 else generate_filter_hide_metadata (album_id r) in
  exists shown, sublist shown tree /\
    tree_memory s' !! pf_timestamp (prefetch_of ret) = Some (reduce <$> shown) /\
    data_length (prefetch_of ret) = N.of_nat (length shown) /\
    (forall t, t ∈ shown <-> t ∈ tree /\
      matches (EAlbum (AValue (album_id r))) (abstract_data t) = true /\
      (forall e, query = Some e -> matches e (abstract_data t) = true) /\
      classify lib (abstract_data t) <> Some UsersRoot) /\
    ret_share ret = Some r.
Proof.
  intros Hr Hu Hp matches. unfold prefetch in Hp. rewrite Hr in Hp. unfold get_share in Hp.
  rewrite Hr in Hp.
  pose proof Hp as Hp'. apply execute_cold in Hp as (Hm & Hl & _); [|exact Hu].
  unfold filter_items in Hm, Hl. rewrite length_fmap in Hl.
  eexists. split; [|split; [exact Hm|split; [exact Hl|split]]].
  - apply sublist_filter.
  - intros t. rewrite list_elem_of_filter. rewrite andb_true_iff, negb_true_iff, bool_decide_eq_false.
    fold (share_query r query).
    assert ((if show_metadata (Model.share r) then generate_filter lib (share_query r query)
             else generate_filter_hide_metadata (album_id r) (share_query r query)) (abstract_data t)
            = true <-> matches (EAlbum (AValue (album_id r))) (abstract_data t) = true /\
              forall e, query = Some e -> matches e (abstract_data t) = true) as ->.
    { unfold matches, share_query. destruct query as [e|].
      - destruct (show_metadata _); cbn [generate_filter generate_filter_hide_metadata forallb];
          rewrite andb_true_r, andb_true_iff; (split; [intros [? ?]|intros [? Hq]]; eauto);
          (split; [done|]); by intros ? [= <-].
      - destruct (show_metadata _); (split; [by intros ?|by intros [? _]]). }
    tauto.
  - unfold execute_prefetch_logic in Hp'. apply bind_Some in Hp' as (c & Hc & Hp').
    unfold check_query_cache in Hc. apply bind_Some in Hc as (x & Hx & [= <-]).
    destruct x as [[p|]|]; [by destruct (Hu p)| |];
      unfold insert_data_into_tree_snapshot, insert_snapshot, create_json_response in Hp'; cbn in Hp';
      by injection Hp' as <- <-.
Qed.

(** A cached answer ignores the share.  Once a share visitor's prefetch has
    been answered, any other share of the same album gets the same snapshot for
    the same query, whatever its metadata switch says. *)
Theorem cache_ignores_share key now now' lib lib' tree tree' c1 c2 r1 r2 query locate inc s ret s' :
  role c1 = RShare r1 -> role c2 = RShare r2 -> album_id r1 = album_id r2 ->
  uncached (guest_key s r1 query locate inc) s ->
  prefetch key now lib tree c1 query locate inc s = Some (ret, s') ->
  exists ret', prefetch key now' lib' tree' c2 query locate inc s' = Some (ret', s') /\
    prefetch_of ret' = prefetch_of ret /\ ret_share ret' = Some r2 /\
    token ret' = encode_token key (new_snapshot now' [] (Some r2) (pf_timestamp (prefetch_of ret))).
Proof.
  intros H1 H2 Ha Hu Hp. unfold prefetch in Hp. rewrite H1 in Hp. unfold get_share in Hp.
  rewrite H1 in Hp. apply execute_cold in Hp as (_ & _ & _ & Hq & Hv); [|exact Hu].
  eexists. split; [|split; [|split]].
  - unfold prefetch. rewrite H2. unfold get_share. rewrite H2.
    rewrite (execute_hit _ _ _ _ _ _ _ _ _ _ _ (prefetch_of ret)); [reflexivity|].
    by rewrite Hv, <-Ha.
  - done.
  - done.
  - done.
Qed.
End Theorems.

(** ** Witnesses: one tagged photo in one album *)
Import (hints) PathWitness SnapshotWitness TokenWitness.
Module PrefetchWitness.
#[export] Instance digest : QueryHash := {|
  query_digest e v l c i p := Z.to_N v * 4 + (if i then 2 else 0) + (if p then 1 else 0) |}.
Definition tree : list DatabaseTimestamp :=
  [mkTimestamped (set_album (Some (lit "A")) (ex_photo {[ lit "secret" ]})) 5 (lit "asset")].
Definition a_share (metadata : bool) (u : string) : ResolvedShare :=
  mkResolved (mkShare (lit u) [] None metadata false false 0 (lit "alice")) (lit "A") None.
Definition guest (r : ResolvedShare) : ClaimsSession := new_share 1000000 (lit "jti") r.
Definition alice : ClaimsSession := new_user 1000000 (lit "jti") (lit "alice") false 0.
Definition secret : option Expression := Some (ETag (FValue (lit "secret"))).
Definition ask (c : ClaimsSession) (s : Snapshots) : option (PrefetchReturn * Snapshots) :=
  prefetch TokenWitness.key 1000000 ex_lib tree c secret None None s.
Definition length_of (r : option (PrefetchReturn * Snapshots)) : option N :=
  (fun x => data_length (prefetch_of x.1)) <$> r.
Definition empty : Snapshots := SnapshotWitness.empty.
End PrefetchWitness.
Import (hints) PrefetchWitness.

Lemma empty_uncached h : uncached h PrefetchWitness.empty.
Proof. intros p. discriminate. Qed.

Lemma prefetch_user_rows_witness :
  exists ret s', PrefetchWitness.ask PrefetchWitness.alice PrefetchWitness.empty = Some (ret, s') /\
    exists shown, sublist shown PrefetchWitness.tree /\
      data_length (prefetch_of ret) = N.of_nat (length shown).
Proof.
  destruct (PrefetchWitness.ask PrefetchWitness.alice PrefetchWitness.empty) as [[ret s']|] eqn:Hp;
    [|vm_compute in Hp; discriminate].
  exists ret, s'. split; [reflexivity|].
  destruct (prefetch_user_rows _ _ _ _ PrefetchWitness.alice (lit "alice") false _ _ _ _ _ _ eq_refl
    (empty_uncached _) Hp) as (shown & Hs & _ & Hl & _).
  by exists shown.
Defined.

Lemma prefetch_share_rows_witness :
  exists ret s', PrefetchWitness.ask (PrefetchWitness.guest (PrefetchWitness.a_share true "one"))
      PrefetchWitness.empty = Some (ret, s') /\
    ret_share ret = Some (PrefetchWitness.a_share true "one").
Proof.
  destruct (PrefetchWitness.ask (PrefetchWitness.guest (PrefetchWitness.a_share true "one"))
    PrefetchWitness.empty) as [[ret s']|] eqn:Hp; [|vm_compute in Hp; discriminate].
  exists ret, s'. split; [reflexivity|].
  destruct (prefetch_share_rows TokenWitness.key 1000000 ex_lib PrefetchWitness.tree
    (PrefetchWitness.guest (PrefetchWitness.a_share true "one")) _ PrefetchWitness.secret None None PrefetchWitness.empty
    ret s' eq_refl (empty_uncached _) Hp)
    as (shown & _ & _ & _ & _ & Hs). exact Hs.
Defined.

(** The visitor of a share without metadata is told about the tagged photo, which
    the share's own filter would not have listed. *)
Lemma cache_ignores_share_witness :
  let shown := PrefetchWitness.guest (PrefetchWitness.a_share true "one") in
  let hidden := PrefetchWitness.guest (PrefetchWitness.a_share false "two") in
  PrefetchWitness.length_of (PrefetchWitness.ask hidden PrefetchWitness.empty) = Some 0 /\
  exists ret s' ret', PrefetchWitness.ask shown PrefetchWitness.empty = Some (ret, s') /\
    PrefetchWitness.ask hidden s' = Some (ret', s') /\ data_length (prefetch_of ret') = 1.
Proof.
  split; [vm_compute; reflexivity|].
  destruct (PrefetchWitness.ask (PrefetchWitness.guest (PrefetchWitness.a_share true "one"))
    PrefetchWitness.empty) as [[ret s']|] eqn:Hp; [|vm_compute in Hp; discriminate].
  destruct (cache_ignores_share TokenWitness.key 1000000 1000000 ex_lib ex_lib PrefetchWitness.tree
    PrefetchWitness.tree (PrefetchWitness.guest (PrefetchWitness.a_share true "one"))
    (PrefetchWitness.guest (PrefetchWitness.a_share false "two")) _ _
    PrefetchWitness.secret None None PrefetchWitness.empty ret s' eq_refl eq_refl eq_refl
    (empty_uncached _) Hp) as (ret' & Hp' & He & _).
  exists ret, s', ret'. split; [reflexivity|]. split; [exact Hp'|].
  rewrite He. assert (PrefetchWitness.length_of (Some (ret, s')) = Some 1) as Hl
    by (rewrite <-Hp; vm_compute; reflexivity).
  injection Hl as ->. reflexivity.
Defined.
