(* ===== verification/RouterAuth.v ===== *)
(** * RouterAuth: who a request speaks for
      ([backend/src/router/auth.rs], second part)

    The guards decide from the request alone and from a view of the stores: the
    user records, the revocations, the album payloads and the assets.  A guard
    never writes, except [GuardReauth], which spends guess budget and revokes
    sessions.  Logging is left out; [anyhow] errors are their message. *)

From S2P Require Import Prelude Errors Redb Password UserStore Revocations LoginThrottle Paths.
From S2P Require Import Model MetadataRecord Tokens.

(** ** Requests and the view of the server's state *)
Record Request := mkRequest {
  header : str -> option str;           (* headers().get_one *)
  cookie_jwt : option str;              (* cookies().get("jwt") *)
  path_segments : list str;             (* uri().path().segments() *)
  query_segments : list (str * str);    (* uri().query(), raw *)
  query_value : str -> option str       (* query_value::<&str>(_).and_then(Result::ok) *)
}.

Record World := mkWorld {
  user_disk : Redb;                     (* fate of the user store's disk calls *)
  tree_db : Redb;                       (* fate of the index's disk calls *)
  user_file : Store;
  revocations : Table;
  metadata : gmap str MetadataRecord;
  get_asset_by_id : str -> result str (option AssetRecord);
  jwt_secret : str;
  bootstrap_admin : bool;
  read_only_mode : bool;
  roots : Config
}.

Definition secs (now_millis : Z) : N := Z.to_N (Z.quot now_millis 1000).

(** A guard's answer; an error carries the HTTP status of the outcome. *)
Abbreviation outcome A := (result (N * AppError) A).
Definition outcome_err {A} (status : N) (e : AppError) : outcome A := Err (status, e).
Definition by_kind {A} (r : app_result A) : outcome A := map_err (fun e => (http_status e, e)) r.

(** ** Tokens in requests *)
Definition extract_bearer_token (req : Request) : result str str :=
  match header req (lit "Authorization") with
  | Some h =>
      ok_or (lit "Authorization header format is invalid, expected 'Bearer <token>'")
        (strip_prefix (lit "Bearer ") h)
  | None => Err (lit "Request is missing the Authorization header")
  end.

(** [rsplit_once('.')]: what precedes the last dot. *)
Fixpoint before_last_dot (s : str) : option str :=
  match s with
  | [] => None
  | c :: s' =>
      match before_last_dot s' with
      | Some p => Some (c :: p)
      | None => if c =? 46 then Some [] else None
      end
  end.
Definition extract_serving_id_from_path (req : Request) : result str str :=
  ok_or (lit "No valid 'hash' parameter found in the uri")
    (s ← last (path_segments req); before_last_dot s).

(** [str::parse::<i64>]. *)
Fixpoint parse_digits (acc : Z) (s : str) : option Z :=
  match s with
  | [] => Some acc
  | c :: s' => if (48 <=? c) && (c <=? 57) then parse_digits (acc * 10 + Z.of_N (c - 48)) s' else None
  end.
Definition parse_i64 (s : str) : option Z :=
  z ← match s with
      | [] => None
      | c :: s' =>
          if c =? 45 then if is_empty s' then None else Z.opp <$> parse_digits 0 s'
          else if c =? 43 then if is_empty s' then None else parse_digits 0 s'
          else parse_digits 0 s
      end;
  as_i64 (JNum z).

Section Guards.
Context {Jc : JsonCodec} {Lh : LegacyHash} {Cr : Crypto} {J : Jwt}.

(** ** The user store as the guards see it *)
Definition user_record (w : World) (id : str) : result str (option UserRecord) :=
  Ok (UserDb.read (Rd:=user_disk w) id (user_file w)).1.
Definition get_admin (w : World) (id : str) : result str (option bool) :=
  Ok (admin <$> (UserDb.read (Rd:=user_disk w) id (user_file w)).1).
Definition user_count (w : World) : result str nat :=
  Ok (UserDb.count (Rd:=user_disk w) (user_file w)).1.
Definition store_is_empty (w : World) : bool :=
  (UserDb.is_empty_store (Rd:=user_disk w) (user_file w)).1.
Definition session_revoked (w : World) (now : Z) (jti : str) : bool :=
  is_revoked (Rd:=tree_db w) (secs now) (session_key jti) (revocations w).

Definition bootstrap_open (w : World) : bool := bootstrap_admin w.
Definition not_enrolled_message (w : World) : str :=
  if bootstrap_open w then
    lit "No administrator enrolled: enroll the first administrator via POST /post/users/bootstrap"
  else
    lit "No administrator enrolled: start the server with --bootstrap-admin (or PICASU_BOOTSTRAP_ADMIN=true) to enroll the first admin, or provision a user with the picasu-cmd CLI".

(** ** Session cookies *)
Definition try_jwt_cookie_auth (w : World) (now : Z) (v : Validation) (req : Request)
  : result str ClaimsSession :=
  let not_admin := Err (lit "User is not an admin") in
  if store_is_empty w then Err (not_enrolled_message w)
  else match cookie_jwt req with
       | None => Err (lit "JWT not found in cookies")
       | Some token =>
           claims ← decode_typed (T:=ClaimsSession) (jwt_secret w) v now token;
           if negb (is_admin claims) then not_admin
           else match role claims with
                | RShare _ => not_admin
                | RUser id _ =>
                    let passwd_admin := default false (mjoin (result_ok (get_admin w id))) in
                    record ← user_record w id;
                    match record with
                    | Some record =>
                        if passwd_admin && negb (disabled record) then
                          if negb (ver record =? session_ver claims) || disabled record
                          then not_admin
                          else if session_revoked w now (jti claims) then not_admin
                          else Ok claims
                        else not_admin
                    | None => not_admin
                    end
                end
       end.

Definition with_admin (a : bool) (c : ClaimsSession) : ClaimsSession :=
  match role c with
  | RUser id _ => mkSession (RUser id a) (session_exp c) (session_typ c) (jti c) (session_ver c)
  | RShare _ => c
  end.

Definition try_jwt_cookie_user (w : World) (now : Z) (v : Validation) (req : Request)
  : result str ClaimsSession :=
  if store_is_empty w then Err (not_enrolled_message w)
  else match cookie_jwt req with
       | None => Err (lit "JWT not found in cookies")
       | Some token =>
           claims ← decode_typed (T:=ClaimsSession) (jwt_secret w) v now token;
           match role claims with
           | RShare _ => Err (lit "Share token not accepted")
           | RUser id _ =>
               record ← user_record w id;
               match record with
               | Some record =>
                   if (ver record =? session_ver claims) && negb (disabled record) then
                     if session_revoked w now (jti claims) then Err (lit "Session revoked")
                     else Ok (with_admin (admin record) claims)
                   else Err (lit "User record missing or stale")
               | None => Err (lit "User record missing or stale")
               end
           end
       end.

Definition guard_admin (w : World) (now : Z) (req : Request) : outcome ClaimsSession :=
  map_err (fun e => (401, add_context (lit "Authentication error") (from_err Auth e)))
    (try_jwt_cookie_auth w now ValidateExp req).

Definition denied {A} (msg : str) : outcome A :=
  outcome_err 401 (add_context (lit "Authentication error") (new_error Auth msg)).
Definition forbidden {A} (msg : str) : outcome A :=
  outcome_err 403 (add_context (lit "Authorization error") (new_error PermissionDenied msg)).

Definition guard_user (w : World) (now : Z) (req : Request) : outcome ClaimsSession :=
  match user_count w with
  | Err err => outcome_err 500 (from_err Database err)
  | Ok n =>
      if (n =? 0)%nat then forbidden (not_enrolled_message w)
      else match cookie_jwt req with
           | None => denied (lit "JWT not found in cookies")
           | Some token =>
               match decode_typed (T:=ClaimsSession) (jwt_secret w) ValidateExp now token with
               | Err _ => denied (lit "Invalid token")
               | Ok claims =>
                   match role claims with
                   | RShare _ => denied (lit "Share token not accepted")
                   | RUser id _ =>
                       match user_record w id with
                       | Err err => outcome_err 500 (from_err Database err)
                       | Ok None => denied (lit "Unknown user")
                       | Ok (Some record) =>
                           if negb (ver record =? session_ver claims) || disabled record
                           then denied (lit "Invalid token version")
                           else if session_revoked w now (jti claims)
                           then denied (lit "Session revoked")
                           else Ok (with_admin (admin record) claims)
                       end
                   end
               end
           end
  end.

Definition guard_mutate (w : World) : outcome unit :=
  if read_only_mode w
  then outcome_err 405 (new_error ReadOnlyMode (lit "Read-only mode is enabled"))
  else Ok tt.

(** ** Shares *)
Definition validate_share_access (now : Z) (share : Share) (req : Request) : app_result unit :=
  if (0 <? exp share)%Z && (exp share <? Z.quot now 1000)%Z
  then fail PermissionDenied (lit "Share link expired")
  else match password share with
       | Some pwd =>
           match header req (lit "x-share-password") with
           | Some header_pwd =>
               if verify_share_password header_pwd pwd then Ok tt
               else fail Auth (lit "Share password required or incorrect")
           | None => fail Auth (lit "Share password required or incorrect")
           end
       | None => Ok tt
       end.

(** The creator has a readable record with sharing switched off. *)
Definition creator_stopped_sharing (w : World) (share : Share) : bool :=
  negb (is_empty (created_by share))
  && match user_record w (created_by share) with
     | Ok (Some record) => negb (shares_enabled record)
     | _ => false
     end.

(** The three disk calls in front of a metadata row. *)
Definition open_metadata (w : World) : app_result unit :=
  _ ← map_err (fun e => add_context (lit "Failed to begin read transaction") (from_err Database e))
        (redb (Rd:=tree_db w) BeginRead);
  map_err (fun e => add_context (lit "Failed to open data table") (from_err Database e))
    (redb (Rd:=tree_db w) OpenTable).

Definition revalidate_share_record (w : World) (now : Z) (album_id share_id : str)
  : app_result unit :=
  let gone {A} : app_result A := fail Auth (lit "Share no longer exists") in
  _ ← open_metadata w;
  _ ← map_err (from_err Database) (redb (Rd:=tree_db w) (Get album_id));
  match metadata w !! album_id with
  | Some (MAlbum album) =>
      match ap_shares album !! share_id with
      | Some share =>
          if creator_stopped_sharing w share then gone
          else if (0 <? exp share)%Z && (exp share <? Z.quot now 1000)%Z
          then fail Auth (lit "Share link expired")
          else Ok tt
      | None => gone
      end
  | _ => gone
  end.

Definition with_password (p : option str) (s : Share) : Share :=
  mkShare (url s) (share_description s) p (show_metadata s) (show_download s) (show_upload s)
    (exp s) (created_by s).

Definition resolve_share_internal (w : World) (now : Z) (uuid album_id share_id : str)
    (req : Request) : app_result (option ClaimsSession) :=
  _ ← open_metadata w;
  _ ← map_err (fun e => add_context (lit "Failed to get data from table") (from_err Database e))
        (redb (Rd:=tree_db w) (Get album_id));
  match metadata w !! album_id with
  | None => fail NotFound (lit "Album not found for id '" ++ album_id ++ lit "'")
  | Some (MAlbum album) =>
      share ← option_or_raise NotFound
        (lit "Share '" ++ share_id ++ lit "' not found in album '" ++ album_id ++ lit "'")
        (ap_shares album !! share_id);
      if creator_stopped_sharing w share then fail Auth (lit "Share no longer exists")
      else
        _ ← validate_share_access now share req;
        let share :=
          match password share, header req (lit "x-share-password") with
          | Some _, Some pw => with_password (Some pw) share
          | _, _ => share
          end in
        album_id ← option_or_raise Internal (lit "Failed to parse album_id") (array_string album_id);
        Ok (Some (new_share now uuid (new_resolved album_id (ap_title album) share)))
  | Some _ => fail InvalidInput (lit "Data with id '" ++ album_id ++ lit "' is not an album")
  end.

Definition resolve_pair (w : World) (now : Z) (uuid : str) (req : Request) (msg : str)
    (album_id share_id : option str) : app_result (option ClaimsSession) :=
  match album_id, share_id with
  | None, None => Ok None
  | Some a, Some s => resolve_share_internal w now uuid a s req
  | _, _ => fail InvalidInput msg
  end.
Definition try_resolve_share_from_headers (w : World) (now : Z) (uuid : str) (req : Request) :=
  resolve_pair w now uuid req (lit "Both x-album-id and x-share-id must be provided together")
    (header req (lit "x-album-id")) (header req (lit "x-share-id")).
Definition try_resolve_share_from_query (w : World) (now : Z) (uuid : str) (req : Request) :=
  resolve_pair w now uuid req (lit "Both albumId and shareId must be provided together")
    (query_value req (lit "albumId")) (query_value req (lit "shareId")).

Definition resolve_presenter (w : World) (now : Z) (uuid : str) (req : Request)
  : app_result ClaimsSession :=
  from_headers ← try_resolve_share_from_headers w now uuid req;
  match from_headers with
  | Some claims => Ok claims
  | None =>
      from_query ← try_resolve_share_from_query w now uuid req;
      match from_query with
      | Some claims => Ok claims
      | None => map_err (fun e => add_context (lit "Authentication error") (from_err Auth e))
                  (try_jwt_cookie_user w now ValidateExp req)
      end
  end.

(** [GuardPresenter]: the same chain, and its last error is always a 401. *)
Definition guard_presenter (w : World) (now : Z) (uuid : str) (req : Request)
  : outcome ClaimsSession :=
  from_headers ← by_kind (try_resolve_share_from_headers w now uuid req);
  match from_headers with
  | Some claims => Ok claims
  | None =>
      from_query ← by_kind (try_resolve_share_from_query w now uuid req);
      match from_query with
      | Some claims => Ok claims
      | None => map_err (fun e => (401, add_context (lit "Authentication error") (from_err Auth e)))
                  (try_jwt_cookie_user w now ValidateExp req)
      end
  end.

(** ** Bearer tokens bound to their presenter *)
Definition unauthorized {A} (msg : str) : outcome A := outcome_err 401 (new_error Auth msg).

(** A share presenter and a token's share are the same link. *)
Definition same_share (token_share : option ResolvedShare) (presenter : ResolvedShare) : bool :=
  match token_share with
  | Some s => str_eqb (album_id s) (album_id presenter)
              && str_eqb (url (share s)) (url (share presenter))
  | None => false
  end.

(** The caller and share of a token against the presenter; [what] names the kind
    of token in the messages. *)
Definition bind_presenter (what : str) (caller : str) (token_share : option ResolvedShare)
    (presenter : ClaimsSession) : outcome unit :=
  match role presenter with
  | RUser id _ =>
      if str_eqb id caller then Ok tt else unauthorized (what ++ lit " caller mismatch")
  | RShare s =>
      if negb (is_empty caller) then unauthorized (what ++ lit " caller mismatch")
      else if same_share token_share s then Ok tt
      else unauthorized (what ++ lit " share mismatch")
  end.

Definition bearer (ctx : str) (req : Request) : outcome str :=
  map_err (fun e => (401, add_context ctx (from_err Auth e))) (extract_bearer_token req).
Definition decoded {T : Type} `{TokenKind T} (w : World) (now : Z) (token : str) : outcome T :=
  map_err (fun e => (401, add_context (lit "JWT decoding failed") (from_err Auth e)))
    (decode_typed (T:=T) (jwt_secret w) ValidateExp now token).

Definition guard_hash (w : World) (now : Z) (uuid : str) (req : Request) : outcome unit :=
  token ← bearer (lit "Bearer token extraction failed") req;
  claims ← decoded (T:=ClaimsAsset) w now token;
  data_hash ← map_err (fun e => (401, add_context (lit "Hash extraction failed") (from_err Auth e)))
                (extract_serving_id_from_path req);
  if negb (str_eqb data_hash (asset_hash claims)) then unauthorized (lit "Hash does not match")
  else
    presenter ← by_kind (resolve_presenter w now uuid req);
    bind_presenter (lit "Asset") (asset_caller claims) (asset_share claims) presenter.

Definition guard_hash_original (w : World) (now : Z) (uuid : str) (req : Request) : outcome unit :=
  token ← bearer (lit "Bearer token extraction failed") req;
  claims ← decoded (T:=ClaimsAsset) w now token;
  if negb (allow_original claims) then unauthorized (lit "Original access is not allowed")
  else
    url_id ← map_err (fun e => (401, add_context (lit "Asset ID extraction from URL failed")
                                       (from_err Auth e)))
               (extract_serving_id_from_path req);
    if negb (str_eqb url_id (claims_asset_id claims)) then unauthorized (lit "Asset ID does not match")
    else
      presenter ← by_kind (resolve_presenter w now uuid req);
      bind_presenter (lit "Asset") (asset_caller claims) (asset_share claims) presenter.

Definition guard_renew_hash (w : World) (now : Z) (req : Request) : outcome ClaimsSnapshot :=
  token ← bearer (lit "Bearer token extraction failed") req;
  decoded (T:=ClaimsSnapshot) w now token.

Definition guard_snapshot (w : World) (now : Z) (uuid : str) (req : Request)
  : outcome (ClaimsSnapshot * ClaimsSession) :=
  token ← map_err (fun e => (401, from_err Auth e)) (extract_bearer_token req);
  claims ← map_err (fun e => (401, from_err Auth e))
             (decode_typed (T:=ClaimsSnapshot) (jwt_secret w) ValidateExp now token);
  match (v ← snd <$> list_find (fun kv => kv.1 = lit "timestamp") (query_segments req);
         parse_i64 v.2) with
  | None => unauthorized (lit "No valid 'timestamp' parameter found in the query")
  | Some query_timestamp =>
      if negb (query_timestamp =? snapshot_timestamp claims)%Z
      then unauthorized (lit "Timestamp mismatch")
      else
        presenter ← by_kind (resolve_presenter w now uuid req);
        _ ← bind_presenter (lit "Snapshot") (caller claims) (resolved_share_opt claims) presenter;
        Ok (claims, presenter)
  end.

(** ** Renewal *)
Definition lookup_abstract_data_by_asset_id (w : World) (now : Z) (asset_id : str)
  : result str (option AbstractData) :=
  record ← get_asset_by_id w asset_id;
  match record with
  | None => Ok None
  | Some record =>
      _ ← map_err (fun _ => lit "Failed to begin read transaction") (redb (Rd:=tree_db w) BeginRead);
      _ ← map_err (fun _ => lit "Failed to open METADATA_TABLE") (redb (Rd:=tree_db w) OpenTable);
      _ ← redb (Rd:=tree_db w) (Get asset_id);
      Ok (Some (compose_abstract_data now record (metadata w !! asset_id)))
  end.

Definition renewal_share_same (a b : option ResolvedShare) : bool :=
  match a, b with
  | Some a, Some b => same_share (Some a) b
  | None, None => true
  | _, _ => false
  end.

(** The asset is in the presenter's album, or on a path the presenter may see. *)
Definition renewal_in_scope {F : Fs} (w : World) (presenter : ClaimsSnapshot) (d : AbstractData) : bool :=
  match resolved_share_opt presenter with
  | Some resolved => bool_decide (get_album d = Some (album_id resolved))
  | None =>
      match visibility_path d with
      | Some path => visible_to (roots w) (caller presenter) (components path)
      | None => true
      end
  end.

(** Behind [GuardRenewHash], whose claims are [presenter]. *)
Definition renew_hash_token {F : Fs} (w : World) (now : Z) (presenter : ClaimsSnapshot)
    (expired_hash_token : str) : app_result str :=
  let refuse {A} msg : app_result A := fail Auth (lit "Unauthorized: " ++ msg) in
  match decode_typed (T:=ClaimsAsset) (jwt_secret w) AllowExpired now expired_hash_token with
  | Err _ => refuse (lit "Invalid token")
  | Ok claims =>
      if negb (asset_timestamp claims =? snapshot_timestamp presenter)%Z
      then refuse (lit "Timestamp mismatch")
      else if negb (str_eqb (asset_caller claims) (caller presenter))
      then refuse (lit "Caller mismatch")
      else if negb (renewal_share_same (asset_share claims) (resolved_share_opt presenter))
      then refuse (lit "Share mismatch")
      else
        _ ← match resolved_share_opt presenter with
            | Some resolved => revalidate_share_record w now (album_id resolved) (url (share resolved))
            | None => Ok tt
            end;
        found ← map_err (fun err => add_context
                    (lit "Failed to look up asset for renewal scope check") (from_err Database err))
                  (lookup_abstract_data_by_asset_id w now (claims_asset_id claims));
        match found with
        | None => refuse (lit "Asset not found")
        | Some d =>
            if negb (renewal_in_scope w presenter d) then refuse (lit "Asset out of scope")
            else Ok (encode_token (jwt_secret w)
                       (new_asset now (asset_hash claims) (claims_asset_id claims)
                          (asset_timestamp claims) (allow_original claims) (asset_caller claims)
                          (asset_share claims)))
        end
  end.

(** Behind [GuardPresenter], whose claims are [presenter]. *)
Definition renew_timestamp_token (w : World) (now : Z) (presenter : ClaimsSession) (token : str)
  : app_result str :=
  let refuse {A} msg : app_result A := fail Auth (lit "Unauthorized: " ++ msg) in
  match decode_typed (T:=ClaimsSnapshot) (jwt_secret w) AllowExpired now token with
  | Err _ => refuse (lit "Invalid token")
  | Ok claims =>
      _ ← match role presenter with
          | RUser id _ => if str_eqb (caller claims) id then Ok tt else refuse (lit "Caller mismatch")
          | RShare s =>
              if is_empty (caller claims) && same_share (resolved_share_opt claims) s then Ok tt
              else refuse (lit "Share mismatch")
          end;
      _ ← match resolved_share_opt claims with
          | Some resolved => revalidate_share_record w now (album_id resolved) (url (share resolved))
          | None => Ok tt
          end;
      Ok (encode_token (jwt_secret w)
            (new_snapshot now (caller claims) (resolved_share_opt claims)
               (snapshot_timestamp claims)))
  end.

(** ** Re-authentication *)
Definition PW_IP_SHORT : N * N * N * N := (600, 100, 10, 60).
Definition PW_IP_LONG : N * N * N * N := (86400, 3, 60, 3600).
Definition PW_JTI_LONG : N * N * N * N := (86400, 3, 60, 3600).
(** The tracker [with_password_throttle] installs on first use. *)
Definition password_throttle : LoginThrottle :=
  match new_throttle PW_IP_SHORT PW_IP_LONG PW_JTI_LONG with
  | Ok t => t
  | Err _ => mkThrottle ∅ ∅ (from_tuple PW_IP_SHORT) (from_tuple PW_IP_LONG)
               (from_tuple PW_JTI_LONG) 0
  end.

Definition revoke_attempt_session (w : World) (now : Z) (jti : str) (exp : N)
  : app_result unit * Table :=
  revoke (Rd:=tree_db w) (secs now) (session_key jti) exp (revocations w).

Definition attempts_detail (n : N) : str :=
  if n =? 0 then lit "Incorrect current password (no attempts remaining)"
  else if n =? 1 then lit "Incorrect current password (1 attempt remaining)"
  else lit "Incorrect current password (" ++ show_N n ++ lit " attempts remaining)".

(** What re-authentication may change besides answering: the guess budget, the
    revocations, and the user store (a legacy hash is upgraded on the way). *)
Record Reauth := mkReauth {
  answer : outcome ClaimsSession; budget : LoginThrottle; revoked_after : Table;
  store_after : Store
}.

(** The throttle's time is [Some] unless limits are off or the clock is before
    the epoch. *)
Definition guard_reauth (env : option str) (rng : N) (w : World) (now : Z) (req : Request) (ip : str)
    (limit : option N) (t : LoginThrottle) : Reauth :=
  let rev := revocations w in
  let refuse status e t rev st := mkReauth (outcome_err status e) t rev st in
  let spent t jti exp st :=
    refuse 401 (new_error Auth (lit "too many incorrect password attempts; session revoked")) t
      (revoke_attempt_session w now jti exp).2 st in
  match try_jwt_cookie_user w now ValidateExp req with
  | Err _ => refuse 401 (new_error Auth (lit "Authentication error")) t rev (user_file w)
  | Ok claims =>
      match role claims with
      | RShare _ => refuse 401 (new_error Auth (lit "Authentication error")) t rev (user_file w)
      | RUser id _ =>
          match header req (lit "x-picasu-password") with
          | None => refuse 403 (new_error PermissionDenied
                                  (lit "Re-authentication password required")) t rev (user_file w)
          | Some presented =>
              match UserDb.load (Rd:=user_disk w) (user_file w) with
              | (Err _, st) => refuse 500 (new_error IO (lit "User store unavailable")) t rev st
              | (Ok store, st) =>
                  let '(t1, ban) := match limit with
                                    | Some n => reserve t ip (jti claims) n
                                    | None => (t, 0)
                                    end in
                  if 0 <? ban then
                    spent (match limit with Some n => sweep t1 n | None => t1 end)
                      (jti claims) (session_exp claims) st
                  else
                    let '(ok, st) := UserDb.verify (Rd:=user_disk w) env rng store id presented st in
                    if negb ok then
                      match limit with
                      | None => refuse 403 (new_error PermissionDenied
                                              (lit "Incorrect current password")) t1 rev st
                      | Some n =>
                          let '(t2, ban) :=
                            record_failure (release t1 ip (jti claims)) ip (jti claims) n in
                          if 0 <? ban then spent t2 (jti claims) (session_exp claims) st
                          else refuse 403 (new_error PermissionDenied
                                 (attempts_detail (remaining t2 ip (jti claims) n))) t2 rev st
                      end
                    else mkReauth (Ok claims) (match limit with
                                               | Some n => record_success t1 ip (jti claims) n
                                               | None => t1
                                               end) rev st
              end
          end
      end
  end.
End Guards.

(** ** Facts *)
Section Facts.
Context {Jc : JsonCodec} {Jl : JsonLaws} {Lh : LegacyHash} {Cr : Crypto} {J : Jwt}.

(** The identity record a session stands on. *)
Definition live (w : World) (now : Z) (claims : ClaimsSession) (id : str) (r : UserRecord) : Prop :=
  user_record w id = Ok (Some r) /\ ver r = session_ver claims /\ disabled r = false /\
  session_revoked w now (jti claims) = false.

(** What the session guards admit: a verified, unexpired session token of a user
    whose identity record still stands behind it; the role is the record's. *)
Definition admitted (w : World) (now : Z) (req : Request) (out : ClaimsSession) : Prop :=
  exists token claims id flag r, cookie_jwt req = Some token /\
    decode_typed (jwt_secret w) ValidateExp now token = Ok claims /\ role claims = RUser id flag /\
    live w now claims id r /\ out = with_admin (admin r) claims.

Lemma user_record_store w id r : user_record w id = Ok (Some r) ->
  store_is_empty w = false /\ exists n, user_count w = Ok (S n).
Proof.
  unfold user_record, store_is_empty, user_count, UserDb.is_empty_store, UserDb.count, UserDb.read.
  destruct (load_users _) as [[users|e] st]; cbn; [|done]. intros [= Hr].
  destruct (size users) as [|n] eqn:Hs; [|by eauto].
  apply map_size_empty_inv in Hs as ->. by rewrite lookup_empty in Hr.
Qed.

Lemma cookie_user_admitted w now req c :
  try_jwt_cookie_user w now ValidateExp req = Ok c <-> admitted w now req c.
Proof.
  unfold try_jwt_cookie_user, admitted, live. split.
  - destruct (store_is_empty w); [done|]. destruct (cookie_jwt req) as [token|]; [|done].
    intros (claims & Hd & Hc)%bind_Ok. destruct (role claims) as [id flag|] eqn:Hr; [|done].
    apply bind_Ok in Hc as ([r|] & Hu & Hc); [|done].
    destruct (_ && _) eqn:Hv; [|done]. to_prop. destruct (session_revoked _ _ _) eqn:Hs; [done|].
    injection Hc as <-. by exists token, claims, id, flag, r.
  - intros (token & claims & id & flag & r & -> & Hd & Hr & (Hu & Hv & Hdis & Hs) & ->).
    destruct (user_record_store _ _ _ Hu) as [-> _]. rewrite Hd. cbn [mbind result_bind].
    rewrite Hr, Hu. cbn [mbind result_bind]. by rewrite Hv, N.eqb_refl, Hdis, Hs.
Qed.

Lemma guard_user_admitted w now req c : guard_user w now req = Ok c <-> admitted w now req c.
Proof.
  unfold guard_user, admitted, live. split.
  - destruct (user_count w) as [n|]; [|done]. destruct (n =? 0)%nat; [done|].
    destruct (cookie_jwt req) as [token|]; [|done].
    destruct (decode_typed _ _ _ _) as [claims|] eqn:Hd; [|done].
    destruct (role claims) as [id flag|] eqn:Hr; [|done].
    destruct (user_record w id) as [[r|]|] eqn:Hu; try done.
    destruct (negb _ || _) eqn:Hv; [done|]. to_prop. destruct (session_revoked _ _ _) eqn:Hs; [done|].
    intros [= <-]. by exists token, claims, id, flag, r.
  - intros (token & claims & id & flag & r & -> & Hd & Hr & (Hu & Hv & Hdis & Hs) & ->).
    destruct (user_record_store _ _ _ Hu) as [_ [n ->]].
    cbn [Nat.eqb]. rewrite Hd, Hr, Hu, Hv, N.eqb_refl, Hdis. cbn [negb orb]. by rewrite Hs.
Qed.

(** The token a request carries says "admin". *)
Definition token_says_admin (w : World) (now : Z) (req : Request) : Prop :=
  exists token claims, cookie_jwt req = Some token /\
    decode_typed (jwt_secret w) ValidateExp now token = Ok claims /\ is_admin claims = true.

Lemma guard_admin_admitted w now req c : guard_admin w now req = Ok c <->
  admitted w now req c /\ is_admin c = true /\ token_says_admin w now req.
Proof.
  unfold guard_admin, try_jwt_cookie_auth, admitted, live, token_says_admin. split.
  - destruct (store_is_empty w); [done|]. destruct (cookie_jwt req) as [token|] eqn:Ht; [|done].
    destruct (decode_typed _ _ _ _) as [claims|] eqn:Hd; [|done]. cbn [mbind result_bind].
    destruct (is_admin claims) eqn:Ha; [|done]. cbn [negb].
    destruct (role claims) as [id flag|] eqn:Hr; [|done].
    assert (get_admin w id = Ok (admin <$> (UserDb.read (Rd:=user_disk w) id (user_file w)).1))
      as Hg by done.
    unfold user_record in *. rewrite Hg. cbn [mbind result_bind result_ok mjoin].
    destruct (UserDb.read _ _) as [[r|] st] eqn:Hread; [|done]. cbn.
    destruct (admin r) eqn:Hadm; [|done]. cbn. destruct (disabled r) eqn:Hdis; [done|]. cbn.
    destruct (N.eqb_spec (ver r) (session_ver claims)) as [Hv|]; [|done]. cbn.
    destruct (session_revoked _ _ _) eqn:Hs; [done|]. intros [= <-]. split_and!.
    + exists token, claims, id, flag, r. split_and!; try done; [by rewrite Hread|].
      unfold with_admin. rewrite Hr. unfold is_admin in Ha. rewrite Hr in Ha. subst flag.
      rewrite Hadm. destruct claims; cbn in *. by subst.
    + done.
    + by exists token, claims.
  - intros [(token & claims & id & flag & r & Hc & Hd & Hr & (Hu & Hv & Hdis & Hs) & ->)
            [Ha (token' & claims' & Hc' & Hd' & Ha')]].
    assert (token' = token) as -> by congruence. assert (claims' = claims) as -> by congruence.
    destruct (user_record_store _ _ _ Hu) as [-> _]. rewrite Hc, Hd. cbn [mbind result_bind].
    rewrite Ha', Hr. cbn [negb]. rewrite Hu.
    assert (get_admin w id = Ok (Some (admin r))) as ->.
    { unfold get_admin. unfold user_record in Hu. injection Hu as ->. done. }
    assert (admin r = true) as Hadm.
    { unfold is_admin, with_admin in Ha. rewrite Hr in Ha. exact Ha. }
    cbn. rewrite Hadm, Hdis, Hv, N.eqb_refl. cbn. rewrite Hs. cbn. f_equal.
    unfold with_admin. rewrite Hr. unfold is_admin in Ha'. rewrite Hr in Ha'. subst flag.
    destruct claims; cbn in *. by subst.
Qed.
End Facts.

Section Sessions.
Context {Jc : JsonCodec} {Jl : JsonLaws} {Lh : LegacyHash} {Ca : Casing} {Cr : Crypto} {J : Jwt}.

(** C1: the three session guards agree.  [GuardUser] and the cookie path of a
    presenter admit exactly a verified, unexpired session token whose user
    record exists with the token's version, is not disabled, and whose [jti] is
    not revoked, with the record's role; [GuardAdmin] admits exactly those of
    them whose record and token both say administrator. *)
Theorem session_guards w now req out :
  (guard_user w now req = Ok out <-> admitted w now req out) /\
  (try_jwt_cookie_user w now ValidateExp req = Ok out <-> admitted w now req out) /\
  (guard_admin w now req = Ok out <->
    admitted w now req out /\ is_admin out = true /\ token_says_admin w now req).
Proof. split_and!; [apply guard_user_admitted|apply cookie_user_admitted|apply guard_admin_admitted]. Qed.

(** Nothing the session guards admit. *)
Definition no_session (w : World) (now : Z) (req : Request) : Prop :=
  is_ok (guard_user w now req) = false /\ is_ok (guard_admin w now req) = false /\
  is_ok (try_jwt_cookie_user w now ValidateExp req) = false.

Lemma not_admitted w now req : (forall c, ~ admitted w now req c) -> no_session w now req.
Proof.
  intros Hn. split_and!.
  - destruct (guard_user w now req) as [c|] eqn:Hg; [|done]. apply guard_user_admitted in Hg.
    by apply Hn in Hg.
  - destruct (guard_admin w now req) as [c|] eqn:Hg; [|done].
    apply guard_admin_admitted in Hg as [Hg _]. by apply Hn in Hg.
  - destruct (try_jwt_cookie_user w now ValidateExp req) as [c|] eqn:Hg; [|done].
    apply cookie_user_admitted in Hg. by apply Hn in Hg.
Qed.

Lemma user_record_reads w id r users :
  reads (user_file w) users -> user_record w id = Ok (Some r) -> users !! trim id = Some r.
Proof.
  unfold user_record, UserDb.read. destruct (load_users (user_file w)) as [[u|e] st] eqn:Hl; [|done].
  intros Hr. apply (load_users_reads _ _ _ _ Hr) in Hl as ->. cbn. by intros [= ->].
Qed.

Lemma wrapping_succ_ne v : v <= u64_max -> wrapping_add_u64 v 1 <> v.
Proof.
  unfold wrapping_add_u64, u64_max. intros Hv.
  destruct (decide (v = 18446744073709551615)) as [->|]; [discriminate|].
  rewrite N.mod_small; lia.
Qed.

(** C2: a change of password or role, a disabling or a deletion ends every session
    of that user, on every guard: whatever operation made it, whatever disk calls
    failed before or after, a token minted for the version the user had is refused. *)
Theorem change_ends_sessions (Rd : Redb) o w w' now req token claims id flag users users' u :
  reads (user_file w) users -> users !! trim id = Some u ->
  user_file w' = run_op (Rd, o) (user_file w) -> reads (user_file w') users' ->
  cookie_jwt req = Some token ->
  decode_typed (jwt_secret w') ValidateExp now token = Ok claims ->
  role claims = RUser id flag -> session_ver claims = ver u ->
  match users' !! trim id with
  | None => True
  | Some u' => (User.hash u' <> User.hash u /\ (forall e r i p, o <> OpUpgrade e r i p)) \/
               admin u' <> admin u \/ (disabled u' = true /\ disabled u = false)
  end ->
  no_session w' now req.
Proof.
  intros Hr Hu Hf Hr' Hc Hd Hrole Hver Hchange. apply not_admitted.
  intros c (token' & claims' & id' & flag' & r & Hc' & Hd' & Hrole' & (Hrec & Hv & _) & _).
  simplify_eq. assert (id' = id) as -> by congruence.
  apply (user_record_reads _ _ _ _ Hr') in Hrec. rewrite Hrec in Hchange.
  rewrite Hf in Hr'. destruct (version_moves Rd o _ _ _ _ _ _ Hr Hr' Hu Hrec) as [_ Hm].
  apply Hm in Hchange. apply (wrapping_succ_ne (ver u)); [|congruence].
  apply represents_ok in Hr. by apply (Hr (trim id)).
Qed.

(** Versions start over with a new record.  After a user is deleted and the
    same id is registered again, a token minted for the first user's first
    version is a session of the second. *)
Theorem recreated_user_revives_sessions force p rng pw adm home w w' now req token claims id flag
    users u m m' :
  reads (user_file w) users -> foreign (user_file w) = false -> trim id = id ->
  users !! id = Some u -> ver u = 0 ->
  effect (OpDelete id force) users = Some m ->
  effect (OpProvision p rng id pw adm home) m = Some m' ->
  user_file w' = run_ops [(healthy, OpDelete id force);
                          (healthy, OpProvision p rng id pw adm home)] (user_file w) ->
  user_disk w' = healthy -> cookie_jwt req = Some token ->
  decode_typed (jwt_secret w') ValidateExp now token = Ok claims ->
  role claims = RUser id flag -> session_ver claims = ver u ->
  session_revoked w' now (jti claims) = false ->
  guard_user w' now req = Ok (with_admin adm claims).
Proof.
  intros Hr Hfo Ht Hu Hver Hdel Hprov Hf Hdisk Hc Hd Hrole Hv Hrev.
  destruct (run_op_healthy _ _ _ _ Hr Hfo Hdel) as [Hr1 Hfo1].
  destruct (run_op_healthy _ _ _ _ Hr1 Hfo1 Hprov) as [Hr2 Hfo2].
  unfold run_ops in Hf. cbn [fold_left] in Hf. rewrite <-Hf in Hr2, Hfo2.
  assert (m !! id = None) as Hm.
  { unfold effect, erase, delete_fn in Hdel. rewrite Ht, Hu in Hdel.
    destruct (_ && _); cbn in Hdel; simplify_eq. apply lookup_delete_eq. }
  assert (exists h, m' !! id = Some (User.mkUser h adm home 0 false true)) as [h Hm'].
  { cbn [effect] in Hprov. apply bind_Some in Hprov as ([id' c] & Hval & Hp).
    unfold validate_user_id in Hval. rewrite Ht in Hval.
    destruct (is_empty id); [done|]. destruct (64 <? str_len id); [done|]. cbn in Hval.
    destruct (validate_new_password p id pw); [|done]. cbn in Hval. simplify_eq.
    unfold provision_fn, erase in Hp. cbn in Hp. rewrite Hm in Hp. cbn in Hp. simplify_eq.
    rewrite lookup_insert_eq. by eexists. }
  apply guard_user_admitted. exists token, claims, id, flag, (User.mkUser h adm home 0 false true).
  split_and!; try done. split_and!; try done; [|by rewrite Hv, Hver].
  unfold user_record, UserDb.read. rewrite Hdisk.
  destruct (load_users_healthy _ _ Hr2 Hfo2) as (st' & -> & _). cbn. by rewrite Ht, Hm'.
Qed.

Lemma revoked_session_refused w now req token claims t :
  cookie_jwt req = Some token -> decode_typed (jwt_secret w) ValidateExp now token = Ok claims ->
  holds_until (session_key (jti claims)) t (revocations w) -> tree_db w = healthy ->
  secs now <= t -> no_session w now req.
Proof.
  intros Hc Hd (mm & v & r & Hrev & Hl & Hp & Hexp) Hdisk Hnow.
  assert (session_revoked w now (jti claims) = true) as Hrevoked.
  { unfold session_revoked. rewrite Hdisk. apply holds_is_revoked.
    exists mm, v, r. split_and!; try done. lia. }
  apply not_admitted.
  intros c (token' & claims' & id & flag & u & Hc' & Hd' & _ & (_ & _ & _ & Hs) & _).
  congruence.
Qed.

(** A revoked session is refused until its token has expired anyway, through
    whatever later revocations, on a disk that can be read. *)
Theorem logout_ends_session w now req token claims t :
  cookie_jwt req = Some token -> decode_typed (jwt_secret w) ValidateExp now token = Ok claims ->
  holds_until (session_key (jti claims)) t (revocations w) -> tree_db w = healthy ->
  secs now <= t -> no_session w now req.
Proof. apply revoked_session_refused. Qed.
End Sessions.

(** ** Shares and presenters *)
Section Presenters.
Context {Jc : JsonCodec} {Jl : JsonLaws} {Lh : LegacyHash} {Ca : Casing} {Cr : Crypto} {J : Jwt}.

(** A share link that is good now: stored under the album, not switched off by
    its creator, not past its expiry. *)
Definition share_live (w : World) (now : Z) (album_id share_id : str) (album : AlbumPayload)
    (s : Share) : Prop :=
  metadata w !! album_id = Some (MAlbum album) /\ ap_shares album !! share_id = Some s /\
  creator_stopped_sharing w s = false /\ ((exp s <= 0)%Z \/ (Z.quot now 1000 <= exp s)%Z).

(** What the visitor is given of a stored share: the password they presented in
    place of the stored one. *)
Definition granted (req : Request) (stored given : Share) : Prop :=
  match password stored with
  | None => given = stored
  | Some hash => exists presented, header req (lit "x-share-password") = Some presented /\
      verify_share_password presented hash = true /\ given = with_password (Some presented) stored
  end.

Lemma not_expired (e now : Z) :
  (0 <? e)%Z && (e <? Z.quot now 1000)%Z = false <-> ((e <= 0)%Z \/ (Z.quot now 1000 <= e)%Z).
Proof. rewrite andb_false_iff, Z.ltb_ge, Z.ltb_ge. done. Qed.

Lemma validate_share_access_ok now s req : validate_share_access now s req = Ok tt <->
  ((exp s <= 0)%Z \/ (Z.quot now 1000 <= exp s)%Z) /\
  match password s with
  | None => True
  | Some hash => exists presented, header req (lit "x-share-password") = Some presented /\
      verify_share_password presented hash = true
  end.
Proof.
  rewrite <-not_expired. unfold validate_share_access. destruct (_ && _) eqn:He; [by split; [|intros []]|].
  destruct (password s) as [h|]; [|done].
  destruct (header req (lit "x-share-password")) as [p|]; [|split; [done|by intros [_ (? & ? & _)]]].
  destruct (verify_share_password p h) eqn:Hv; (split; [|done || intros [_ (? & [= <-] & ?)]; congruence]).
  - intros _. split; [done|]. by exists p.
  - done.
Qed.

Lemma resolve_share_ok w now uuid a s req out :
  resolve_share_internal w now uuid a s req = Ok out ->
  exists album stored given, share_live w now a s album stored /\ granted req stored given /\
    str_len a <= 64 /\ out = Some (new_share now uuid (new_resolved a (ap_title album) given)).
Proof.
  unfold resolve_share_internal. intros H.
  apply bind_Ok in H as ([] & _ & H). apply bind_Ok in H as ([] & _ & H).
  destruct (metadata w !! a) as [[| |album]|] eqn:Hm; try done.
  apply bind_Ok in H as (stored & Hs & H). unfold option_or_raise in Hs.
  destruct (ap_shares album !! s) as [st|] eqn:Hl; [|done]. cbn in Hs. simplify_eq.
  destruct (creator_stopped_sharing w stored) eqn:Hc; [done|].
  apply bind_Ok in H as ([] & Hv & H). apply validate_share_access_ok in Hv as [He Hp].
  apply bind_Ok in H as (a' & Ha & [= <-]). unfold option_or_raise, array_string in Ha.
  destruct (str_len a <=? 64) eqn:Hlen; [|done]. cbn in Ha. simplify_eq. to_prop.
  exists album, stored. eexists. split; [by split_and!|]. split; [|by split].
  unfold granted. destruct (password stored) as [h|]; [|done].
  destruct Hp as (p & Hh & Hver). exists p. by rewrite Hh.
Qed.

Lemma resolve_share_healthy w now uuid a s req album stored given :
  tree_db w = healthy -> share_live w now a s album stored -> granted req stored given ->
  str_len a <= 64 ->
  resolve_share_internal w now uuid a s req =
  Ok (Some (new_share now uuid (new_resolved a (ap_title album) given))).
Proof.
  intros Hd (Hm & Hl & Hc & He) Hg Ha. unfold resolve_share_internal, open_metadata.
  rewrite Hd, Hm, Hl. cbn [redb fault healthy map_err mbind result_bind option_or_raise ok_or].
  rewrite Hc.
  assert (validate_share_access now stored req = Ok tt) as Hv.
  { apply validate_share_access_ok. split; [done|]. unfold granted in Hg.
    destruct (password stored); [|done]. destruct Hg as (p & ? & ? & _). by exists p. }
  rewrite Hv. cbn [mbind result_bind]. unfold array_string. apply N.leb_le in Ha as ->.
  cbn [option_or_raise ok_or mbind result_bind]. unfold granted in Hg.
  destruct (password stored) as [h|]; [|by subst].
  by destruct Hg as (p & -> & _ & ->).
Qed.

Lemma revalidate_ok w now a s : revalidate_share_record w now a s = Ok tt ->
  exists album stored, share_live w now a s album stored.
Proof.
  unfold revalidate_share_record. intros H.
  apply bind_Ok in H as ([] & _ & H). apply bind_Ok in H as ([] & _ & H).
  destruct (metadata w !! a) as [[| |album]|] eqn:Hm; try done.
  destruct (ap_shares album !! s) as [st|] eqn:Hl; [|done].
  destruct (creator_stopped_sharing w st) eqn:Hc; [done|]. destruct (_ && _) eqn:He; [done|].
  exists album, st. apply not_expired in He. by split_and!.
Qed.

(** The share credentials a request carries, headers first. *)
Definition share_pair (req : Request) : option (str * str) :=
  match header req (lit "x-album-id"), header req (lit "x-share-id") with
  | Some a, Some s => Some (a, s)
  | None, None =>
      match query_value req (lit "albumId"), query_value req (lit "shareId") with
      | Some a, Some s => Some (a, s)
      | _, _ => None
      end
  | _, _ => None
  end.

Lemma resolve_presenter_cases w now uuid req c : resolve_presenter w now uuid req = Ok c ->
  (exists a s, share_pair req = Some (a, s) /\
     resolve_share_internal w now uuid a s req = Ok (Some c)) \/
  (share_pair req = None /\ admitted w now req c).
Proof.
  unfold resolve_presenter, try_resolve_share_from_headers, try_resolve_share_from_query, resolve_pair,
    share_pair.
  destruct (header req (lit "x-album-id")) as [a|], (header req (lit "x-share-id")) as [s|]; try done;
    cbn [mbind result_bind].
  - destruct (resolve_share_internal w now uuid a s req) as [o|] eqn:Hs; [|done]. cbn.
    destruct (resolve_share_ok _ _ _ _ _ _ _ Hs) as (? & ? & ? & _ & _ & _ & ->).
    intros [= <-]. left. by exists a, s.
  - destruct (query_value req (lit "albumId")) as [a|], (query_value req (lit "shareId")) as [s|];
      try done; cbn [mbind result_bind].
    + destruct (resolve_share_internal w now uuid a s req) as [o|] eqn:Hs; [|done]. cbn.
      destruct (resolve_share_ok _ _ _ _ _ _ _ Hs) as (? & ? & ? & _ & _ & _ & ->).
      intros [= <-]. left. by exists a, s.
    + destruct (try_jwt_cookie_user w now ValidateExp req) as [c'|] eqn:Hc; [|done].
      intros [= <-]. right. split; [done|]. by apply cookie_user_admitted.
Qed.

Lemma presenter_guard_agrees w now uuid req c :
  guard_presenter w now uuid req = Ok c <-> resolve_presenter w now uuid req = Ok c.
Proof.
  unfold guard_presenter, resolve_presenter.
  destruct (try_resolve_share_from_headers w now uuid req) as [[c1|]|];
    cbn [by_kind map_err mbind result_bind];
    try by split; intros [= ->].
  destruct (try_resolve_share_from_query w now uuid req) as [[c2|]|];
    cbn [by_kind map_err mbind result_bind];
    try by split; intros [= ->].
  by destruct (try_jwt_cookie_user w now ValidateExp req); split; intros [= ->].
Qed.

(** C12: who a presenter is.  [GuardPresenter] and the chain behind the media
    guards agree; a presenter with share credentials is that link, live in the
    album's stored payload, its password (if any) presented and verified, and is
    never handed the stored hash; without share credentials the presenter is a
    live session.  Share credentials that do not resolve never fall back to the
    cookie. *)
Theorem presenter_sound w now uuid req c :
  (guard_presenter w now uuid req = Ok c <-> resolve_presenter w now uuid req = Ok c) /\
  (resolve_presenter w now uuid req = Ok c ->
   match share_pair req with
   | Some (a, s) => exists album stored given, share_live w now a s album stored /\
       granted req stored given /\ role c = RShare (new_resolved a (ap_title album) given)
   | None => admitted w now req c
   end).
Proof.
  split; [apply presenter_guard_agrees|].
  intros [(a & s & -> & Hs)|[-> Ha]]%resolve_presenter_cases; [|done].
  apply resolve_share_ok in Hs as (album & st & g & Hl & Hg & _ & [= ->]). by exists album, st, g.
Qed.

(** C13: on a working disk a share link opens exactly when it is live and its
    password, if it has one, was presented; every other link is an error. *)
Theorem share_opens_iff w now uuid a s req :
  tree_db w = healthy -> str_len a <= 64 ->
  (is_ok (resolve_share_internal w now uuid a s req) = true <->
   exists album stored given, share_live w now a s album stored /\ granted req stored given).
Proof.
  intros Hd Ha. split.
  - destruct (resolve_share_internal w now uuid a s req) as [o|] eqn:Hr; [|done]. intros _.
    apply resolve_share_ok in Hr as (album & st & g & Hl & Hg & _). eauto.
  - intros (album & st & g & Hl & Hg). by rewrite (resolve_share_healthy _ _ _ _ _ _ _ _ _ Hd Hl Hg Ha).
Qed.

(** Presenter and token belong together. *)
Definition bound (caller : str) (token_share : option ResolvedShare) (p : ClaimsSession) : Prop :=
  match role p with
  | RUser id _ => id = caller
  | RShare s => caller = [] /\ exists t, token_share = Some t /\ album_id t = album_id s /\
                  url (share t) = url (share s)
  end.

Lemma same_share_spec t s : same_share t s = true <->
  exists t', t = Some t' /\ album_id t' = album_id s /\ url (share t') = url (share s).
Proof.
  unfold same_share. destruct t as [t|]; [|split; [done|by intros (? & ? & _)]].
  rewrite andb_true_iff, !str_eqb_eq. split; [intros [? ?]; eauto|by intros (? & [= ->] & ?)].
Qed.

Lemma bind_presenter_ok what cl ts p : bind_presenter what cl ts p = Ok tt <-> bound cl ts p.
Proof.
  unfold bind_presenter, bound. destruct (role p) as [id flag|s].
  - destruct (str_eqb id cl) eqn:He; to_prop; by split.
  - rewrite <-same_share_spec. destruct cl as [|x cl]; cbn; [|by split; [|intros []]].
    destruct (same_share ts s); by split; [|intros []].
Qed.
End Presenters.

Section Media.
Context {Jc : JsonCodec} {Jl : JsonLaws} {Lh : LegacyHash} {Ca : Casing} {Cr : Crypto} {J : Jwt}.

Definition presents {T : Type} `{TokenKind T} (w : World) (now : Z) (req : Request) (claims : T) : Prop :=
  exists token, extract_bearer_token req = Ok token /\
    decode_typed (jwt_secret w) ValidateExp now token = Ok claims.

Lemma map_err_Ok {E F A} (f : E -> F) (r : result E A) a : map_err f r = Ok a <-> r = Ok a.
Proof. destruct r; cbn; split; congruence. Qed.

Lemma bearer_decoded {T : Type} `{TokenKind T} w now req ctx (c : T) :
  (token ← bearer ctx req; decoded w now token) = Ok c <-> presents w now req c.
Proof.
  unfold bearer, decoded, presents. split.
  - intros (token & Ht & Hc)%bind_Ok. apply map_err_Ok in Ht, Hc. eauto.
  - intros (token & -> & Hc). cbn. by rewrite Hc.
Qed.

(** The snapshot id in the query string: the first member of that name, if it is
    a number. *)
Definition queried_timestamp (req : Request) : option Z :=
  v ← snd <$> list_find (fun kv => kv.1 = lit "timestamp") (query_segments req); parse_i64 v.2.

(** C11: a capability works only for whom it was minted.  The snapshot guard opens
    exactly for an unexpired snapshot token that names the queried snapshot, the
    two file guards exactly for an unexpired asset token that names the file in
    the URL (its hash, or its asset id when originals are allowed); and in each
    case only with a live presenter who is the token's caller, or the token's very
    share link when the token has no caller. *)
Theorem media_guards_bind w now uuid req :
  (forall c p, guard_snapshot w now uuid req = Ok (c, p) <->
    presents w now req c /\ queried_timestamp req = Some (snapshot_timestamp c) /\
    resolve_presenter w now uuid req = Ok p /\ bound (caller c) (resolved_share_opt c) p) /\
  (guard_hash w now uuid req = Ok tt <-> exists (c : ClaimsAsset) p,
    presents w now req c /\ extract_serving_id_from_path req = Ok (asset_hash c) /\
    resolve_presenter w now uuid req = Ok p /\ bound (asset_caller c) (asset_share c) p) /\
  (guard_hash_original w now uuid req = Ok tt <-> exists (c : ClaimsAsset) p,
    presents w now req c /\ allow_original c = true /\
    extract_serving_id_from_path req = Ok (claims_asset_id c) /\
    resolve_presenter w now uuid req = Ok p /\ bound (asset_caller c) (asset_share c) p).
Proof.
  split_and!.
  - intros c p. unfold guard_snapshot, presents. fold (queried_timestamp req). split.
    + intros (token & Ht%map_err_Ok & H)%bind_Ok. apply bind_Ok in H as (c' & Hc%map_err_Ok & H).
      destruct (queried_timestamp req) as [ts|] eqn:Hq; [|done].
      destruct (Z.eqb_spec ts (snapshot_timestamp c')) as [->|]; [|done]. cbn [negb] in H.
      apply bind_Ok in H as (p' & Hp%map_err_Ok & H). apply bind_Ok in H as ([] & Hb & [= -> ->]).
      apply bind_presenter_ok in Hb. split_and!; eauto.
    + intros ((token & Ht & Hc) & -> & Hp & Hb). rewrite Ht. cbn [map_err mbind result_bind].
      rewrite Hc. cbn [map_err mbind result_bind]. rewrite Z.eqb_refl, Hp. cbn [negb by_kind map_err mbind result_bind].
      apply (bind_presenter_ok (lit "Snapshot")) in Hb. by rewrite Hb.
  - unfold guard_hash, bearer, decoded, presents. split.
    + intros (token & Ht%map_err_Ok & H)%bind_Ok. apply bind_Ok in H as (c & Hc%map_err_Ok & H).
      apply bind_Ok in H as (h & Hh%map_err_Ok & H). destruct (str_eqb h _) eqn:He; [|done].
      to_prop. subst h. cbn [negb] in H. apply bind_Ok in H as (p & Hp%map_err_Ok & Hb).
      apply bind_presenter_ok in Hb. exists c, p. split_and!; eauto.
    + intros (c & p & (token & Ht & Hc) & Hh & Hp & Hb). rewrite Ht. cbn [map_err mbind result_bind].
      rewrite Hc. cbn [map_err mbind result_bind]. rewrite Hh. cbn [map_err mbind result_bind].
      rewrite str_eqb_refl, Hp. cbn [negb by_kind map_err mbind result_bind].
      by apply bind_presenter_ok.
  - unfold guard_hash_original, bearer, decoded, presents. split.
    + intros (token & Ht%map_err_Ok & H)%bind_Ok. apply bind_Ok in H as (c & Hc%map_err_Ok & H).
      destruct (allow_original c) eqn:Ha; [|done]. cbn [negb] in H.
      apply bind_Ok in H as (h & Hh%map_err_Ok & H). destruct (str_eqb h _) eqn:He; [|done].
      to_prop. subst h. cbn [negb] in H. apply bind_Ok in H as (p & Hp%map_err_Ok & Hb).
      apply bind_presenter_ok in Hb. exists c, p. split_and!; eauto.
    + intros (c & p & (token & Ht & Hc) & Ha & Hh & Hp & Hb). rewrite Ht. cbn [map_err mbind result_bind].
      rewrite Hc. cbn [map_err mbind result_bind]. rewrite Ha. cbn [negb]. rewrite Hh.
      cbn [map_err mbind result_bind]. rewrite str_eqb_refl, Hp.
      cbn [negb by_kind map_err mbind result_bind]. by apply bind_presenter_ok.
Qed.

(** The same claims with a new expiry. *)
Definition renewed_asset (now : Z) (c : ClaimsAsset) : ClaimsAsset :=
  mkAssetClaims (allow_original c) (asset_hash c) (claims_asset_id c) (asset_timestamp c)
    (expiry now 300) (asset_caller c) (asset_share c) (asset_typ c).
Definition renewed_snapshot (now : Z) (c : ClaimsSnapshot) : ClaimsSnapshot :=
  mkSnapshotClaims (caller c) (resolved_share_opt c) (snapshot_timestamp c) (expiry now 300)
    (snapshot_typ c).

Definition still_live (w : World) (now : Z) (s : option ResolvedShare) : Prop :=
  forall r, s = Some r -> exists album stored,
    share_live w now (album_id r) (url (share r)) album stored.

Lemma revalidated w now s :
  match s with
  | Some r => revalidate_share_record w now (album_id r) (url (share r))
  | None => Ok tt
  end = Ok tt -> still_live w now s.
Proof. intros H r ->. by apply revalidate_ok in H. Qed.

(** Renewal extends a token and nothing else.  A renewed token carries the
    submitted token's claims with only the expiry replaced; the submitted token
    was signed by the server; its caller and share are the presenter's; a share it
    was minted for is still live; and for an asset token the snapshot is the
    presenter's and the asset is still in the presenter's scope. *)
Theorem renewal_never_escalates {F : Fs} w now :
  (forall presenter token out, renew_hash_token w now presenter token = Ok out ->
    exists c d, decode_typed (jwt_secret w) AllowExpired now token = Ok c /\
      out = encode_token (jwt_secret w) (renewed_asset now c) /\
      asset_timestamp c = snapshot_timestamp presenter /\ asset_caller c = caller presenter /\
      (is_Some (asset_share c) <-> is_Some (resolved_share_opt presenter)) /\
      (forall s, resolved_share_opt presenter = Some s -> same_share (asset_share c) s = true) /\
      still_live w now (resolved_share_opt presenter) /\
      lookup_abstract_data_by_asset_id w now (claims_asset_id c) = Ok (Some d) /\
      renewal_in_scope w presenter d = true) /\
  (forall presenter token out, renew_timestamp_token w now presenter token = Ok out ->
    exists c, decode_typed (jwt_secret w) AllowExpired now token = Ok c /\
      out = encode_token (jwt_secret w) (renewed_snapshot now c) /\
      bound (caller c) (resolved_share_opt c) presenter /\
      still_live w now (resolved_share_opt c)).
Proof.
  split; intros presenter token out.
  - unfold renew_hash_token. destruct (decode_typed _ _ _ _) as [c|] eqn:Hd; [|done].
    destruct (Z.eqb_spec (asset_timestamp c) (snapshot_timestamp presenter)) as [Hts|]; [|done].
    destruct (str_eqb (asset_caller c) (caller presenter)) eqn:Hc; [|done].
    destruct (renewal_share_same _ _) eqn:Hs; [|done]. cbn [negb].
    intros ([] & Hrev & H)%bind_Ok. apply bind_Ok in H as (found & Hf%map_err_Ok & H).
    destruct found as [d|]; [|done]. destruct (renewal_in_scope w presenter d) eqn:Hsc; [|done].
    cbn [negb] in H. injection H as <-. apply decode_typed_ok in Hd as Hd'.
    destruct Hd' as [Htyp _]. cbn in Htyp. to_prop.
    exists c, d. unfold renewed_asset. rewrite Htyp. split_and!; try done.
    + unfold renewal_share_same in Hs. by destruct (asset_share c), (resolved_share_opt presenter).
    + unfold renewal_share_same in Hs. intros s Hsp. rewrite Hsp in Hs. by destruct (asset_share c).
    + by apply revalidated.
  - unfold renew_timestamp_token. destruct (decode_typed _ _ _ _) as [c|] eqn:Hd; [|done].
    intros ([] & Hb & H)%bind_Ok. apply bind_Ok in H as ([] & Hrev & [= <-]).
    apply decode_typed_ok in Hd as Hd'. destruct Hd' as [Htyp _]. cbn in Htyp.
    exists c. unfold renewed_snapshot. rewrite Htyp. split_and!; try done.
    + unfold bound. destruct (role presenter) as [id flag|s].
      * destruct (str_eqb _ _) eqn:He; [|done]. by to_prop.
      * destruct (is_empty (caller c) && _) eqn:He; [|done].
        apply andb_true_iff in He as [He Hs]. split; [by destruct (caller c)|].
        by apply same_share_spec.
    + by apply revalidated.
Qed.

(** How a link that does not open answers tells a link whose creator stopped
    sharing (401) from one that was removed (404). *)
Lemma stopped_share_is_distinguishable w now uuid a s req album stored :
  tree_db w = healthy -> metadata w !! a = Some (MAlbum album) ->
  (ap_shares album !! s = None ->
    map_err http_status (resolve_share_internal w now uuid a s req) = Err 404) /\
  (ap_shares album !! s = Some stored -> creator_stopped_sharing w stored = true ->
    map_err http_status (resolve_share_internal w now uuid a s req) = Err 401).
Proof.
  intros Hd Hm. unfold resolve_share_internal, open_metadata. rewrite Hd, Hm.
  cbn [redb fault healthy map_err mbind result_bind]. split.
  - by intros ->.
  - intros -> Hs. cbn [option_or_raise ok_or mbind result_bind]. by rewrite Hs.
Qed.
End Media.

Section Reauthentication.
Context {Jc : JsonCodec} {Jl : JsonLaws} {Lh : LegacyHash} {Ca : Casing} {Cr : Crypto} {J : Jwt}.

Lemma revoke_healthy now key until t : exists t', revoke (Rd:=healthy) now key until t = (Ok tt, t').
Proof.
  unfold revoke. rewrite write_txn_healthy. cbn [redb fault healthy map_err mbind result_bind].
  edestruct (remove_all_healthy database) as [m ->]. cbn. by eexists.
Qed.

Lemma revoke_now_holds now key until tb t :
  until <= u64_max -> t < until -> holds_until key t (revoke (Rd:=healthy) now key until tb).2.
Proof.
  intros He Ht. destruct (revoke_healthy now key until tb) as [t' Hr]. rewrite Hr.
  apply revoke_rows in Hr as (m & -> & Hk & _).
  exists m, (revocation_to_string (mkRevocation until)), (mkRevocation until).
  split_and!; try done. by apply revocation_roundtrip.
Qed.

Lemma revoke_attempt_holds w now jti exp t :
  tree_db w = healthy -> exp <= u64_max -> t < exp ->
  holds_until (session_key jti) t (revoke_attempt_session w now jti exp).2.
Proof. intros Hd. unfold revoke_attempt_session. rewrite Hd. apply revoke_now_holds. Qed.

Definition spent_error : N * AppError :=
  (401, new_error Auth (lit "too many incorrect password attempts; session revoked")).

(** The session's revocation is in force at [t]. *)
Definition ended (w : World) (now : Z) (req : Request) (t : N) (rev : Table) : Prop :=
  forall token claims, cookie_jwt req = Some token ->
    decode_typed (jwt_secret w) ValidateExp now token = Ok claims ->
    t < session_exp claims -> holds_until (session_key (jti claims)) t rev.

(** Re-authentication.  It succeeds only for a live session and only when the
    presented password is the one stored for that very user; and when the guess
    budget is spent, the answer is the 401 that says so and the session's
    revocation is in force until the token expires, so no guard admits it again. *)
Theorem reauth_spec env rng w now req ip limit t users :
  reads (user_file w) users ->
  let r := guard_reauth env rng w now req ip limit t in
  (forall c, answer r = Ok c -> admitted w now req c /\
     exists id flag presented u stored, role c = RUser id flag /\
       header req (lit "x-picasu-password") = Some presented /\ users !! trim id = Some u /\
       User.hash u = Some stored /\ verify_password presented stored = true) /\
  (answer r = Err spent_error -> tree_db w = healthy ->
     forall k, ended w now req k (revoked_after r)) /\
  (answer r <> Err spent_error -> revoked_after r = revocations w).
Proof.
  intros Hr r. subst r. unfold guard_reauth.
  destruct (try_jwt_cookie_user w now ValidateExp req) as [c|] eqn:Hc; [|done].
  apply cookie_user_admitted in Hc as Hadm.
  assert (forall k, tree_db w = healthy ->
    ended w now req k (revoke_attempt_session w now (jti c) (session_exp c)).2) as Hended.
  { intros k Hd token claims Ht Hdec Hk.
    destruct Hadm as (token' & claims' & id & flag & u & Ht' & Hdec' & Hrole & _ & ->).
    assert (claims' = claims) as -> by congruence. unfold with_admin. rewrite Hrole. cbn.
    apply revoke_attempt_holds; [done|by eapply decode_exp_ok|done]. }
  destruct (role c) as [id flag|] eqn:Hrole; [|done].
  destruct (header req (lit "x-picasu-password")) as [pw|] eqn:Hpw; [|done].
  destruct (UserDb.load (user_file w)) as [[store|e] st] eqn:Hl; [|done].
  assert (store = UserDb.mkUserStore users) as ->.
  { unfold UserDb.load in Hl. destruct (load_users (user_file w)) as [[u|] st1] eqn:Hlu; [|done].
    cbn in Hl. apply (load_users_reads _ _ _ _ Hr) in Hlu as ->. by simplify_eq. }
  destruct (match limit with Some n => _ | None => _ end) as [t1 ban].
  destruct (0 <? ban); [split_and!; [done|intros _ Hd k; by apply Hended|by intros []]|].
  destruct (UserDb.verify _ _ _ _ _ _) as [ok st'] eqn:Hv. destruct ok; cbn [negb].
  - split_and!; [|done|done]. intros c' [= <-]. split; [done|].
    unfold UserDb.verify in Hv. cbn [UserDb.users] in Hv.
    destruct (users !! trim id) as [u|] eqn:Hu; [|done]. cbn [mbind option_bind] in Hv.
    destruct (User.hash u) as [h|] eqn:Hh; [|done].
    exists id, flag, pw, u, h. split_and!; try done.
    destruct (verify_password pw h); [done|]. cbn in Hv. done.
  - destruct limit as [n|]; [|done]. destruct (record_failure _ _ _ _) as [t2 ban2].
    destruct (0 <? ban2); split_and!; try done; intros _ Hd k; by apply Hended.
Qed.
End Reauthentication.

(** ** Witnesses: a server with two administrators and one shared album *)
Import (hints) TokenWitness.
Module AuthWitness.
Definition now : Z := 1700000001000.
Definition session : ClaimsSession := new_user 1700000000000 (lit "jti") UserWitness.alice true 0.
Definition token : str := encode_token TokenWitness.key session.
Definition open_share : Share :=
  mkShare (lit "link") [] (Some (lit "pw")) false false false 0 (lit "nobody").
Definition album : AlbumPayload :=
  mkAlbumPayload (mkCommon ∅ None None 0 false None) None 0 None None 0 None 0 0
    {[ lit "link" := open_share ]} None.
Definition world (users : Store) (rev : Table) : World :=
  mkWorld healthy healthy users rev {[ lit "A" := MAlbum album ]} (fun _ => Ok None)
    TokenWitness.key false false (mkConfig None None).
Definition visit (headers : list (str * str)) (cookie : option str) : Request :=
  mkRequest (fun k => snd <$> (list_find (fun kv => kv.1 = k) headers ≫= fun x => Some x.2))
    cookie [] [] (fun _ => None).
Definition signed_in : Request := visit [(lit "x-picasu-password", lit "x")] (Some token).
Definition disable : Op := OpSetDisabled UserWitness.bob true.

Lemma token_decodes : decode_typed TokenWitness.key ValidateExp now token = Ok session.
Proof. vm_compute. reflexivity. Qed.
Definition policy : Policy := mkPolicy (Some true) None ∅ None.
Definition recreate : list (Redb * Op) :=
  [(healthy, OpDelete UserWitness.alice false);
   (healthy, OpProvision policy 0 UserWitness.alice (lit "new") false None)].
(** One administrator whose password is "x". *)
Definition solo : gmap str UserRecord :=
  {[ UserWitness.alice := User.mkUser (Some (hash_password None 0 (lit "x"))) true None 0 false true ]}.
Lemma solo_reads : reads (mkStore (lit "/d/auth/users.redb") (Some (Some (encoded solo))) false false) solo.
Proof.
  apply encoded_represents. intros k v Hk. unfold solo in Hk.
  apply lookup_singleton_Some in Hk as [<- <-]. vm_compute. discriminate.
Qed.
Definition solo_world : World := world (mkStore (lit "/d/auth/users.redb") (Some (Some (encoded solo))) false false) None.
End AuthWitness.

Lemma change_ends_sessions_witness :
  exists users', reads (run_op (healthy, OpSetAdmin UserWitness.alice false) UserWitness.st) users' /\
    no_session (AuthWitness.world
      (run_op (healthy, OpSetAdmin UserWitness.alice false) UserWitness.st) None)
      AuthWitness.now AuthWitness.signed_in.
Proof.
  set (o := OpSetAdmin UserWitness.alice false).
  destruct (effect o UserWitness.team) as [m|] eqn:He; [|vm_compute in He; discriminate].
  destruct (run_op_healthy o _ _ m UserWitness.st_reads eq_refl He) as [Hm _].
  exists m. split; [exact Hm|].
  refine (change_ends_sessions healthy o (AuthWitness.world UserWitness.st None)
    (AuthWitness.world (run_op (healthy, o) UserWitness.st) None) AuthWitness.now AuthWitness.signed_in
    AuthWitness.token AuthWitness.session UserWitness.alice true UserWitness.team m
    (UserWitness.row true false) UserWitness.st_reads UserWitness.team_alice eq_refl Hm eq_refl
    AuthWitness.token_decodes eq_refl eq_refl _).
  unfold o, effect, erase, set_admin_fn in He.
  change (trim UserWitness.alice) with UserWitness.alice in *.
  rewrite UserWitness.team_alice in He. vm_compute in He.
  injection He as He. rewrite <-He. vm_compute. right. left. discriminate.
Defined.

Lemma recreated_user_revives_sessions_witness :
  guard_user (AuthWitness.world (run_ops AuthWitness.recreate UserWitness.st) None)
    AuthWitness.now AuthWitness.signed_in = Ok (with_admin false AuthWitness.session).
Proof.
  destruct (effect (OpDelete UserWitness.alice false) UserWitness.team) as [m|] eqn:He;
    [|vm_compute in He; discriminate].
  destruct (effect (OpProvision AuthWitness.policy 0 UserWitness.alice (lit "new") false None) m)
    as [m'|] eqn:He'.
  - refine (recreated_user_revives_sessions false AuthWitness.policy 0 (lit "new") false None
      (AuthWitness.world UserWitness.st None)
      (AuthWitness.world (run_ops AuthWitness.recreate UserWitness.st) None)
      AuthWitness.now AuthWitness.signed_in AuthWitness.token AuthWitness.session UserWitness.alice true UserWitness.team
      (UserWitness.row true false) m m' UserWitness.st_reads eq_refl _ UserWitness.team_alice
      eq_refl He He' _ _ _ AuthWitness.token_decodes _ _ _); [vm_compute; reflexivity|..].
    1: { unfold AuthWitness.world, AuthWitness.recreate. cbn [user_file]. reflexivity. }
    all: unfold AuthWitness.world, AuthWitness.signed_in, AuthWitness.visit.
    all: cbn [user_disk cookie_jwt revocations tree_db]; reflexivity.
  - exfalso. vm_compute in He. injection He as <-. vm_compute in He'. discriminate.
Defined.

Lemma logout_ends_session_witness :
  no_session (AuthWitness.world UserWitness.st
      (revoke (Rd:=healthy) 1700000000 (session_key (lit "jti")) 1800000000 None).2)
    AuthWitness.now AuthWitness.signed_in.
Proof.
  refine (logout_ends_session (AuthWitness.world UserWitness.st _) AuthWitness.now
    AuthWitness.signed_in AuthWitness.token AuthWitness.session 1750000000 eq_refl
    AuthWitness.token_decodes _ eq_refl _); [|vm_compute; discriminate].
  apply revoke_now_holds; vm_compute; (discriminate || reflexivity).
Defined.

Lemma share_opens_iff_witness :
  is_ok (resolve_share_internal (AuthWitness.world UserWitness.st None) AuthWitness.now [] (lit "A")
    (lit "link") (AuthWitness.visit [(lit "x-share-password", lit "pw")] None)) = true.
Proof.
  refine (proj2 (share_opens_iff (AuthWitness.world UserWitness.st None) AuthWitness.now []
    (lit "A") (lit "link") (AuthWitness.visit [(lit "x-share-password", lit "pw")] None) eq_refl _) _);
    [vm_compute; discriminate|].
  exists AuthWitness.album, AuthWitness.open_share,
    (with_password (Some (lit "pw")) AuthWitness.open_share). split.
  - split; [vm_compute; reflexivity|]. split; [vm_compute; reflexivity|].
    split; [vm_compute; reflexivity|left; vm_compute; discriminate].
  - exists (lit "pw"). split; [vm_compute; reflexivity|]. split; vm_compute; reflexivity.
Defined.

Lemma reauth_spec_witness :
  exists c, answer (guard_reauth None 0 AuthWitness.solo_world AuthWitness.now
      AuthWitness.signed_in (lit "1.2.3.4") (Some 1700000001) password_throttle) = Ok c /\
    admitted AuthWitness.solo_world AuthWitness.now AuthWitness.signed_in c.
Proof.
  destruct (answer (guard_reauth None 0 AuthWitness.solo_world AuthWitness.now
      AuthWitness.signed_in (lit "1.2.3.4") (Some 1700000001) password_throttle)) as [c|] eqn:Ha;
    [|vm_compute in Ha; discriminate].
  exists c. split; [reflexivity|].
  exact (proj1 (proj1 (reauth_spec None 0 AuthWitness.solo_world AuthWitness.now
    AuthWitness.signed_in (lit "1.2.3.4") (Some 1700000001) password_throttle AuthWitness.solo
    AuthWitness.solo_reads) c Ha)).
Defined.
