(* ===== verification/IndexStore.v ===== *)
(** * IndexStore: the asset tables and their flush
      ([backend/src/storage/asset_store.rs], [backend/src/tasks/batcher/flush_tree.rs],
      [backend/src/tasks/batcher/update_tree.rs])

    The index database keeps four tables: [ASSET_BY_ID], [ASSET_BY_PATH],
    [DUPE_INDEX] and [METADATA_TABLE].  A row of JSON text is what its text
    parses to, [None] when it does not parse; rows this code writes parse back.
    Every transaction has a fate of its own, the oracle [fate] at the running
    number of the transaction, so a failure can strike any one of them. *)

From S2P Require Import Prelude Errors Redb Paths Model MetadataRecord DirAlbum.

Record Index := mkIndex {
  by_id : gmap str (option AssetRecord);
  by_path : gmap str str;
  dupes : gmap str (option (list str));
  payloads : gmap str MetadataRecord;
  ticks : nat
}.
Definition set_by_id t ix := mkIndex t (by_path ix) (dupes ix) (payloads ix) (ticks ix).
Definition set_by_path t ix := mkIndex (by_id ix) t (dupes ix) (payloads ix) (ticks ix).
Definition set_dupes t ix := mkIndex (by_id ix) (by_path ix) t (payloads ix) (ticks ix).
Definition set_payloads t ix := mkIndex (by_id ix) (by_path ix) (dupes ix) t (ticks ix).
Definition tick ix := mkIndex (by_id ix) (by_path ix) (dupes ix) (payloads ix) (S (ticks ix)).

Class Fates := { fate : nat -> Redb }.
#[global] Instance all_healthy : Fates | 100 := {| fate _ := healthy |}.

(** ** Operations on the index: state, and errors as their message *)
Definition Io (A : Type) : Type := Index -> result str A * Index.
Definition done {A} (a : A) : Io A := fun ix => (Ok a, ix).
Definition and_then {A B} (m : Io A) (k : A -> Io B) : Io B := fun ix =>
  match m ix with
  | (Ok a, ix') => k a ix'
  | (Err e, ix') => (Err e, ix')
  end.
Declare Scope io_scope.
Delimit Scope io_scope with io.
Notation "'let*' x ':=' m 'in' k" := (and_then m (fun x => k))
  (at level 200, x pattern, m at level 100, k at level 200) : io_scope.

(** [anyhow::Context]: the context is the message. *)
Definition context {A} (msg : string) (r : result str A) : result str A :=
  map_err (fun _ => lit msg) r.

Section AssetStore.
Context {Fa : Fates}.
Open Scope io_scope.

(** A read transaction over one table; [call] is the access it makes. *)
Definition reading {A} (begin_msg open_msg : string) (call : Redb -> result str unit)
    (body : Index -> result str A) : Io A := fun ix =>
  let Rd := fate (ticks ix) in
  (_ ← context begin_msg (redb BeginRead);
   _ ← context open_msg (redb OpenTable);
   _ ← call Rd;
   body ix, tick ix).
Definition get_row (k : str) (Rd : Redb) : result str unit := redb (Get k).

(** A write transaction over one table that makes one call. *)
Definition writing (begin_msg open_msg call_msg commit_msg : string) (call : RedbOp)
    (body : Index -> Index) : Io unit := fun ix =>
  let Rd := fate (ticks ix) in
  match (_ ← context begin_msg (redb BeginWrite);
         _ ← context open_msg (redb OpenTable);
         _ ← context call_msg (redb call);
         context commit_msg (redb Commit)) with
  | Ok _ => (Ok tt, tick (body ix))
  | Err e => (Err e, tick ix)
  end.

(** *** Asset by path *)
Definition get_asset_id_by_path (path : str) : Io (option str) :=
  reading "Failed to begin read transaction for ASSET_BY_PATH" "Failed to open ASSET_BY_PATH"
    (get_row path) (fun ix =>
      match by_path ix !! path with
      | Some id_str =>
          Some <$> ok_or (lit "Asset ID exceeds 64 bytes: " ++ id_str) (array_string id_str)
      | None => Ok None
      end).
Definition put_asset_by_path (path asset_id : str) : Io unit :=
  writing "Failed to begin write transaction for ASSET_BY_PATH"
    "Failed to open ASSET_BY_PATH for write" "Failed to insert into ASSET_BY_PATH"
    "Failed to commit ASSET_BY_PATH insert" (Insert path)
    (fun ix => set_by_path (<[path := asset_id]> (by_path ix)) ix).
Definition remove_asset_by_path (path : str) : Io unit :=
  writing "Failed to begin write transaction for ASSET_BY_PATH"
    "Failed to open ASSET_BY_PATH for write" "Failed to remove from ASSET_BY_PATH"
    "Failed to commit ASSET_BY_PATH remove" (Remove path)
    (fun ix => set_by_path (delete path (by_path ix)) ix).

(** *** Asset by ID *)
Definition get_asset_by_id (asset_id : str) : Io (option AssetRecord) :=
  reading "Failed to begin read transaction for ASSET_BY_ID" "Failed to open ASSET_BY_ID"
    (get_row asset_id) (fun ix =>
      match by_id ix !! asset_id with
      | Some (Some record) => Ok (Some record)
      | Some None => Err (lit "Failed to deserialize AssetRecord")
      | None => Ok None
      end).
(** The parsing rows in key order. *)
Definition row_le (a b : str * option AssetRecord) : Prop := str_leb a.1 b.1 = true.
#[export] Instance row_le_dec a b : Decision (row_le a b).
Proof. unfold row_le. apply _. Defined.
Definition records (ix : Index) : list AssetRecord :=
  omap snd (merge_sort row_le (map_to_list (by_id ix))).
Definition get_all_assets : Io (list AssetRecord) :=
  reading "Failed to begin read transaction for ASSET_BY_ID" "Failed to open ASSET_BY_ID"
    (fun Rd => context "Failed to iterate ASSET_BY_ID" (redb Iter))
    (fun ix => Ok (records ix)).
Definition get_assets_under_path (dir : str) : Io (list AssetRecord) :=
  let prefix := if bool_decide (last dir = Some 47) then dir else dir ++ [47] in
  let* all := get_all_assets in
  done (filter (fun r => starts_with prefix (rec_path r) = true) all).
Definition put_asset_by_id (record : AssetRecord) : Io unit :=
  writing "Failed to begin write transaction for ASSET_BY_ID"
    "Failed to open ASSET_BY_ID for write" "Failed to insert into ASSET_BY_ID"
    "Failed to commit ASSET_BY_ID insert" (Insert (asset_id record))
    (fun ix => set_by_id (<[asset_id record := Some record]> (by_id ix)) ix).
Definition remove_asset_by_id (asset_id : str) : Io unit :=
  writing "Failed to begin write transaction for ASSET_BY_ID"
    "Failed to open ASSET_BY_ID for write" "Failed to remove from ASSET_BY_ID"
    "Failed to commit ASSET_BY_ID remove" (Remove asset_id)
    (fun ix => set_by_id (delete asset_id (by_id ix)) ix).

(** *** Duplicate groups *)
Fixpoint array_strings (ids : list str) : result str (list str) :=
  match ids with
  | [] => Ok []
  | s :: ids' =>
      id ← ok_or (lit "Asset ID exceeds 64 bytes: " ++ s) (array_string s);
      rest ← array_strings ids';
      Ok (id :: rest)
  end.
Definition get_dupe_ids (content_hash : str) : Io (list str) :=
  reading "Failed to begin read transaction for DUPE_INDEX" "Failed to open DUPE_INDEX"
    (get_row content_hash) (fun ix =>
      match dupes ix !! content_hash with
      | Some (Some ids) => array_strings ids
      | Some None => Err (lit "Failed to deserialize dupe IDs")
      | None => Ok []
      end).
Definition add_to_dupe_group (content_hash asset_id : str) : Io unit :=
  let* ids := get_dupe_ids content_hash in
  if bool_decide (asset_id ∈ ids) then done tt
  else
    writing "Failed to begin write transaction for DUPE_INDEX"
      "Failed to open DUPE_INDEX for write" "Failed to insert into DUPE_INDEX"
      "Failed to commit DUPE_INDEX insert" (Insert content_hash)
      (fun ix => set_dupes (<[content_hash := Some (ids ++ [asset_id])]> (dupes ix)) ix).
Definition remove_from_dupe_group (content_hash asset_id : str) : Io unit :=
  let* ids := get_dupe_ids content_hash in
  let ids := filter (fun id => id <> asset_id) ids in
  if is_empty ids then
    writing "Failed to begin write transaction for DUPE_INDEX"
      "Failed to open DUPE_INDEX for write" "Failed to remove from DUPE_INDEX"
      "Failed to commit DUPE_INDEX update" (Remove content_hash)
      (fun ix => set_dupes (delete content_hash (dupes ix)) ix)
  else
    writing "Failed to begin write transaction for DUPE_INDEX"
      "Failed to open DUPE_INDEX for write" "Failed to insert into DUPE_INDEX"
      "Failed to commit DUPE_INDEX update" (Insert content_hash)
      (fun ix => set_dupes (<[content_hash := Some ids]> (dupes ix)) ix).

(** *** Whole assets *)
Definition insert_asset (record : AssetRecord) : Io unit :=
  let* _ := put_asset_by_id record in
  let* _ := put_asset_by_path (rec_path record) (asset_id record) in
  match content_hash record with
  | Some h => add_to_dupe_group h (asset_id record)
  | None => done tt
  end.
Definition remove_asset (record : AssetRecord) : Io unit :=
  let* _ := remove_asset_by_id (asset_id record) in
  let* _ := remove_asset_by_path (rec_path record) in
  match content_hash record with
  | Some h => remove_from_dupe_group h (asset_id record)
  | None => done tt
  end.
End AssetStore.

(** ** The flush of scanned and removed files ([flush_tables]) *)

(** The index and the albums waiting for a statistics update; [Err] is a panic
    ([expect]) in the state it left behind. *)
Record Library_ := mkLib { index : Index; albums : Albums }.
Abbreviation flow := (result Library_ Library_).

(** What the record of a scanned file is made of. *)
Definition kind_of (d : AbstractData) : AssetKind :=
  match d with Image _ => AImage | Video _ => AVideo | Album _ => AAlbum end.
Definition ext_of (d : AbstractData) : str :=
  match d with
  | Image i => img_ext (img_metadata i) | Video v => vid_ext (vid_metadata v) | Album _ => []
  end.
Definition size_of (d : AbstractData) : N :=
  match d with
  | Image i => img_size (img_metadata i) | Video v => vid_size (vid_metadata v) | Album _ => 0
  end.
Definition flush_path (d : AbstractData) : str := default [] (file <$> path d).
Definition flushed_record (now : Z) (asset_id : str) (d : AbstractData) : AssetRecord :=
  mkAsset asset_id (kind_of d) (flush_path d) (Some (hash d)) (size_of d) (ext_of d)
    (default 0%Z (modified <$> path d)) (default now (scan_time <$> path d))
    match d with
    | Album a => alb_trashed (alb_metadata a)
    | _ => is_some_and entry_trashed (path d)
    end (get_album d).

Section Flush.
Context {Fa : Fates} {F : Fs}.

(** A row of the duplicate index inside the flush's transaction: unreadable and
    unparsable rows count as empty. *)
Definition group_of {Rd : Redb} (h : str) (t : gmap str (option (list str))) : list str :=
  match redb (Get h), t !! h with
  | Ok _, Some (Some ids) => ids
  | _, _ => []
  end.

Definition remove_from_old_group {Rd : Redb} (old_hash asset_id : str)
    (t : gmap str (option (list str))) : result str (gmap str (option (list str))) :=
  let retained := filter (fun id => id <> asset_id) (group_of old_hash t) in
  if is_empty retained
  then _ ← redb (Remove old_hash); Ok (delete old_hash t)
  else _ ← redb (Insert old_hash); Ok (<[old_hash := Some retained]> t).

(** The write transaction of one inserted file. *)
Definition flush_txn (record : AssetRecord) (payload : MetadataRecord) (old_hash : option str)
    (h : str) (ix : Index) : result str Index :=
  let Rd := fate (ticks ix) in
  _ ← redb BeginWrite;
  _ ← redb OpenTable;
  _ ← redb (Insert (asset_id record));
  let ids := <[asset_id record := Some record]> (by_id ix) in
  _ ← redb (Insert (rec_path record));
  let paths := <[rec_path record := asset_id record]> (by_path ix) in
  let metas := <[asset_id record := payload]> (payloads ix) in
  groups ← match old_hash with
           | Some old => if negb (str_eqb old h)
                         then remove_from_old_group old (asset_id record) (dupes ix)
                         else Ok (dupes ix)
           | None => Ok (dupes ix)
           end;
  let existing := group_of h groups in
  groups ← if bool_decide (asset_id record ∈ existing) then Ok groups
           else _ ← redb (Insert h);
                Ok (<[h := Some (existing ++ [asset_id record])]> groups);
  _ ← redb Commit;
  Ok (mkIndex ids paths groups metas (ticks ix)).

Definition mark_albums (d : AbstractData) (a : Albums) : Albums :=
  let a := match get_album d with Some i => mark_album_for_update i a | None => a end in
  match path d with
  | Some e => mark_dir_albums_for_path (components (file e)) a
  | None => a
  end.

(** One round of the insert loop; [fresh] is the identifier
    [generate_random_hash] would draw. *)
Definition flush_insert (now : Z) (fresh : str) (d : AbstractData) (l : Library_) : flow :=
  let '(r, ix) := get_asset_id_by_path (flush_path d) (index l) in
  let existing_id := default None (result_ok r) in
  let '(old_hash, ix) :=
    match existing_id with
    | Some id =>
        let '(r, ix) := get_asset_by_id id ix in
        (record ← default None (result_ok r); content_hash record, ix)
    | None => (None, ix)
    end in
  let asset_id := default fresh existing_id in
  let record := flushed_record now asset_id d in
  match flush_txn record (to_metadata_record d) old_hash (hash d) ix with
  | Ok ix => Ok (mkLib (tick ix) (mark_albums d (albums l)))
  | Err _ => Err (mkLib (tick ix) (albums l))
  end.

(** [remove_asset_from_tables]; the first three outcomes are dropped. *)
Definition remove_asset_from_tables (asset_id path content_hash : str) (ix : Index)
  : result Index Index :=
  let '(_, ix) := remove_asset_by_id asset_id ix in
  let '(_, ix) := remove_asset_by_path path ix in
  let '(_, ix) := remove_from_dupe_group content_hash asset_id ix in
  let Rd := fate (ticks ix) in
  match redb BeginWrite, redb OpenTable with
  | Ok _, Ok _ =>
      let removed := match redb (Remove asset_id) with
                     | Ok _ => delete asset_id (payloads ix)
                     | Err _ => payloads ix
                     end in
      Ok (tick (match redb Commit with Ok _ => set_payloads removed ix | Err _ => ix end))
  | _, _ => Err (tick ix)
  end.

(** A removed record without a path: the members of its group whose file is gone. *)
Fixpoint remove_gone (content_hash : str) (ids : list str) (ix : Index) : result Index Index :=
  match ids with
  | [] => Ok ix
  | id :: ids' =>
      let '(r, ix) := get_asset_by_id id ix in
      match r with
      | Ok (Some record) =>
          if negb (exists_ (components (rec_path record)))
          then ix ← remove_asset_from_tables id (rec_path record) content_hash ix;
               remove_gone content_hash ids' ix
          else remove_gone content_hash ids' ix
      | _ => remove_gone content_hash ids' ix
      end
  end.

Definition flush_remove (d : AbstractData) (l : Library_) : flow :=
  match (if is_empty (flush_path d) then
           let '(r, ix) := get_dupe_ids (hash d) (index l) in
           match r with
           | Ok ids => remove_gone (hash d) ids ix
           | Err _ => Ok ix
           end
         else
           let '(r, ix) := get_asset_id_by_path (flush_path d) (index l) in
           match r with
           | Ok (Some asset_id) => remove_asset_from_tables asset_id (flush_path d) (hash d) ix
           | _ => Ok ix
           end) with
  | Ok ix => Ok (mkLib ix (mark_albums d (albums l)))
  | Err ix => Err (mkLib ix (albums l))
  end.

(** Identifiers are drawn from [draws], one per inserted file at most. *)
Fixpoint flush_inserts (now : Z) (draws : nat -> str) (ds : list AbstractData) (l : Library_)
  : flow :=
  match ds with
  | [] => Ok l
  | d :: ds' =>
      l ← flush_insert now (draws (ticks (index l))) d l;
      flush_inserts now draws ds' l
  end.
Fixpoint flush_removes (ds : list AbstractData) (l : Library_) : flow :=
  match ds with
  | [] => Ok l
  | d :: ds' => l ← flush_remove d l; flush_removes ds' l
  end.
Definition flush_tables (now : Z) (draws : nat -> str) (inserts removes : list AbstractData)
    (l : Library_) : flow :=
  l ← flush_inserts now draws inserts l; flush_removes removes l.
End Flush.

(** ** The in-memory tree *)
Section Tree.
Context {Fa : Fates} {Ch : Chrono}.

Definition priority_list : list str :=
  lit <$> ["DateTimeOriginal"; "filename"; "modified"; "scan_time"]%string.

(** The rows of the tree; a row's timestamp may panic. *)
Fixpoint tree_rows (now : Z) (random : str -> Z) (priority : list str)
    (payload_of : str -> option MetadataRecord) (rs : list AssetRecord)
  : result str (list DatabaseTimestamp) :=
  match rs with
  | [] => Ok []
  | r :: rs' =>
      row ← with_asset_id now (random (asset_id r))
              (compose_abstract_data now r (payload_of (asset_id r))) priority (asset_id r);
      rows ← tree_rows now random priority payload_of rs';
      Ok (row :: rows)
  end.

(** Two read transactions: the assets', and the payloads', whose opening must not
    fail. *)
Definition build_from_asset_tables (now : Z) (random : str -> Z) (priority : list str) (ix : Index)
  : result str (option (list DatabaseTimestamp)) * Index :=
  let Rd := fate (ticks ix) in
  let Rd' := fate (S (ticks ix)) in
  match redb (Rd:=Rd) BeginRead, redb (Rd:=Rd) OpenTable with
  | Ok _, Ok _ =>
      (_ ← context "failed to begin read transaction" (redb (Rd:=Rd') BeginRead);
       _ ← context "failed to open data table" (redb (Rd:=Rd') OpenTable);
       let payload_of i := match redb (Rd:=Rd') (Get i) with
                           | Ok _ => payloads ix !! i
                           | Err _ => None
                           end in
       let rs := match redb (Rd:=Rd) Iter with Ok _ => records ix | Err _ => [] end in
       entries ← tree_rows now random priority payload_of rs;
       Ok (if is_empty entries then None else Some entries), tick (tick ix))
  | _, _ => (Ok None, tick ix)
  end.

Definition row_path (t : DatabaseTimestamp) : str := default [] (file <$> path (abstract_data t)).
Definition tree_le (a b : DatabaseTimestamp) : Prop :=
  (timestamp b < timestamp a)%Z \/
  (timestamp a = timestamp b /\ str_leb (row_path a) (row_path b) = true).
#[export] Instance tree_le_dec a b : Decision (tree_le a b).
Proof. unfold tree_le. apply _. Defined.

(** [TREE.in_memory] and [VERSION_COUNT_TIMESTAMP]. *)
Record Tree := mkTree { in_memory : list DatabaseTimestamp; version : Z }.

(** [refresh_tree_cache]; [Err] is a panic, which leaves the tree as it was. *)
Definition refresh_tree_cache (now : Z) (random : str -> Z) (ix : Index) (t : Tree)
  : result str Tree * Index :=
  let '(r, ix) := build_from_asset_tables now random priority_list ix in
  (entries ← r; Ok (mkTree (merge_sort tree_le (default [] entries)) now), ix).
End Tree.

(** ** Consistency of the four tables *)
Definition members (groups : gmap str (option (list str))) (h : str) : list str :=
  match groups !! h with Some (Some ids) => ids | _ => [] end.
Definition groups_wf (groups : gmap str (option (list str))) : Prop :=
  forall h g, groups !! h = Some g -> exists ids, g = Some ids /\ ids <> [] /\ NoDup ids.

Record tables_ok (ids : gmap str (option AssetRecord)) (paths : gmap str str)
    (groups : gmap str (option (list str))) (metas : gmap str MetadataRecord) : Prop := {
  ok_rows : forall i o, ids !! i = Some o ->
    str_len i <= 64 /\ exists r, o = Some r /\ asset_id r = i /\ paths !! rec_path r = Some i;
  ok_paths : forall p i, paths !! p = Some i ->
    exists r, ids !! i = Some (Some r) /\ rec_path r = p;
  ok_members : forall h i, i ∈ members groups h <->
    exists r, ids !! i = Some (Some r) /\ content_hash r = Some h;
  ok_groups : groups_wf groups;
  ok_payloads : forall i, is_Some (metas !! i) -> is_Some (ids !! i)
}.
Abbreviation consistent ix := (tables_ok (by_id ix) (by_path ix) (dupes ix) (payloads ix)).

(** What the two group updates do to the table. *)
Definition ungroup (h i : str) (groups : gmap str (option (list str))) :=
  let retained := filter (fun j => j <> i) (members groups h) in
  if is_empty retained then delete h groups else <[h := Some retained]> groups.
Definition join (h i : str) (groups : gmap str (option (list str))) :=
  if bool_decide (i ∈ members groups h) then groups
  else <[h := Some (members groups h ++ [i])]> groups.

Lemma members_insert groups h h' l :
  members (<[h := Some l]> groups) h' = if decide (h' = h) then l else members groups h'.
Proof.
  unfold members. destruct (decide (h' = h)) as [->|]; by rewrite ?lookup_insert_eq, ?lookup_insert_ne.
Qed.

Lemma members_ungroup groups h i h' :
  members (ungroup h i groups) h' =
  if decide (h' = h) then filter (fun j => j <> i) (members groups h) else members groups h'.
Proof.
  unfold ungroup. destruct (filter _ _) as [|x l] eqn:Hf; cbn [is_empty].
  - unfold members at 1. destruct (decide (h' = h)) as [->|];
      by rewrite ?lookup_delete_eq, ?lookup_delete_ne.
  - by rewrite members_insert.
Qed.

Lemma members_join groups h i h' j :
  j ∈ members (join h i groups) h' <-> j ∈ members groups h' \/ (h' = h /\ j = i).
Proof.
  unfold join. case_bool_decide as Hin.
  - split; [by left|]. by intros [?|[-> ->]].
  - rewrite members_insert. destruct (decide (h' = h)) as [->|]; set_solver.
Qed.

Lemma members_nodup groups h : groups_wf groups -> NoDup (members groups h).
Proof.
  intros Hwf. unfold members. destruct (groups !! h) as [g|] eqn:Hg; [|constructor].
  by apply Hwf in Hg as (ids & -> & _ & ?).
Qed.

Lemma ungroup_wf groups h i : groups_wf groups -> groups_wf (ungroup h i groups).
Proof.
  intros Hwf h' g. unfold ungroup. destruct (filter _ _) as [|x l] eqn:Hf; cbn [is_empty].
  - intros [_ Hg]%lookup_delete_Some. by apply (Hwf h').
  - intros [[<- <-]|[_ Hg]]%lookup_insert_Some; [|by apply (Hwf h')].
    exists (x :: l). split_and!; [done|done|]. rewrite <-Hf. by apply NoDup_filter, members_nodup.
Qed.

Lemma join_wf groups h i : groups_wf groups -> groups_wf (join h i groups).
Proof.
  intros Hwf h' g. unfold join. case_bool_decide as Hin; [by apply Hwf|].
  intros [[<- <-]|[_ Hg]]%lookup_insert_Some; [|by apply (Hwf h')].
  eexists. split_and!; [done|by destruct (members groups h)|].
  apply NoDup_app. split_and!; [by apply members_nodup|set_solver|apply NoDup_singleton].
Qed.

(** Storing one record: over its previous self, or new. *)
Definition regroup (old : option str) (h i : str) groups :=
  join h i match old with
           | Some o => if negb (str_eqb o h) then ungroup o i groups else groups
           | None => groups
           end.

Lemma members_regroup groups old h i h' j :
  (forall k, i ∈ members groups k -> old = Some k) ->
  j ∈ members (regroup old h i groups) h' <->
  (j = i /\ h' = h) \/ (j <> i /\ j ∈ members groups h').
Proof.
  intros Hold. unfold regroup. rewrite members_join.
  assert (j ∈ members (match old with
      | Some o => if negb (str_eqb o h) then ungroup o i groups else groups
      | None => groups end) h' <->
    (j <> i /\ j ∈ members groups h') \/ (j = i /\ h' = h /\ i ∈ members groups h)) as ->.
  { destruct old as [o|].
    - destruct (str_eqb o h) eqn:He; to_prop; cbn [negb].
      + destruct (decide (j = i)) as [->|]; [|naive_solver]. split.
        * intros Hi. apply Hold in Hi as Ho. simplify_eq. naive_solver.
        * intros [[? _]|(_ & -> & ?)]; done.
      + rewrite members_ungroup. destruct (decide (h' = o)) as [->|Hne].
        * rewrite list_elem_of_filter. naive_solver.
        * destruct (decide (j = i)) as [->|]; [|naive_solver]. split.
          -- intros Hi. apply Hold in Hi. congruence.
          -- intros [[? _]|(_ & -> & Hi)]; [done|]. apply Hold in Hi. congruence.
    - destruct (decide (j = i)) as [->|]; [|naive_solver]. split.
      + intros Hi. by apply Hold in Hi.
      + intros [[? _]|(_ & -> & ?)]; done. }
  naive_solver.
Qed.

Lemma tables_insert ids paths groups metas i r m h old :
  tables_ok ids paths groups metas ->
  asset_id r = i -> str_len i <= 64 -> content_hash r = Some h ->
  match paths !! rec_path r with
  | Some j => j = i /\ exists r0, ids !! i = Some (Some r0) /\ old = content_hash r0
  | None => ids !! i = None /\ old = None
  end ->
  tables_ok (<[i := Some r]> ids) (<[rec_path r := i]> paths) (regroup old h i groups)
    (<[i := m]> metas).
Proof.
  intros Hok Hi Hlen Hh Hcase.
  assert (forall j o, ids !! j = Some o -> j <> i -> exists r', o = Some r' /\ rec_path r' <> rec_path r)
    as Hother.
  { intros j o Hj Hne. apply (ok_rows _ _ _ _ Hok) in Hj as (_ & r' & -> & _ & Hp).
    exists r'. split; [done|]. intros He. rewrite He in Hp. rewrite Hp in Hcase. naive_solver. }
  assert (forall k, i ∈ members groups k -> old = Some k) as Hold.
  { intros k (r0 & Hr0 & Hk)%(ok_members _ _ _ _ Hok).
    destruct (paths !! rec_path r); [destruct Hcase as (-> & r1 & ? & ->)|]; naive_solver. }
  split.
  - intros j o [[<- <-]|[Hne Hj]]%lookup_insert_Some.
    + split; [done|]. exists r. by rewrite lookup_insert_eq.
    + destruct (Hother j o Hj (not_eq_sym Hne)) as (r' & -> & Hp).
      apply (ok_rows _ _ _ _ Hok) in Hj as (? & r'' & [= <-] & ? & ?).
      split; [done|]. exists r'. by rewrite lookup_insert_ne.
  - intros p j [[<- <-]|[Hne Hp]]%lookup_insert_Some.
    + exists r. by rewrite lookup_insert_eq.
    + apply (ok_paths _ _ _ _ Hok) in Hp as (r' & Hj & <-).
      destruct (decide (j = i)) as [->|Hji]; [|exists r'; by rewrite lookup_insert_ne].
      exfalso. pose proof (ok_rows _ _ _ _ Hok _ _ Hj) as (_ & r'' & [= <-] & _ & Hp).
      destruct (paths !! rec_path r) as [k|] eqn:Hk; [|naive_solver].
      destruct Hcase as (-> & r0 & Hr0 & _). apply (ok_paths _ _ _ _ Hok) in Hk as (r1 & Hr1 & Hp1).
      congruence.
  - intros h' j. rewrite (members_regroup _ _ _ _ _ _ Hold), (ok_members _ _ _ _ Hok).
    destruct (decide (j = i)) as [->|Hne].
    + rewrite lookup_insert_eq. split; [intros [[_ ->]|[? _]]; [by exists r|done]|].
      intros (r' & [= <-] & ?). left. split; [done|congruence].
    + rewrite lookup_insert_ne by done. naive_solver.
  - unfold regroup. apply join_wf. pose proof (ok_groups _ _ _ _ Hok).
    destruct old as [o|]; [destruct (negb _)|]; try done. by apply ungroup_wf.
  - intros j [<-|[Hne Hj]]%lookup_insert_is_Some.
    + rewrite lookup_insert_eq. by eexists.
    + rewrite lookup_insert_ne by done. by apply (ok_payloads _ _ _ _ Hok).
Qed.

Lemma tables_remove ids paths groups metas i r h :
  tables_ok ids paths groups metas -> ids !! i = Some (Some r) -> content_hash r = Some h ->
  tables_ok (delete i ids) (delete (rec_path r) paths) (ungroup h i groups) (delete i metas).
Proof.
  intros Hok Hi Hh. pose proof (ok_rows _ _ _ _ Hok _ _ Hi) as (_ & ? & [= <-] & _ & Hp). split.
  - intros j o [Hne Hj]%lookup_delete_Some.
    apply (ok_rows _ _ _ _ Hok) in Hj as (? & r' & -> & ? & Hp').
    split; [done|]. exists r'. rewrite lookup_delete_ne; [done|]. intros He. congruence.
  - intros p j [Hne Hj]%lookup_delete_Some.
    apply (ok_paths _ _ _ _ Hok) in Hj as (r' & Hj & <-). exists r'.
    rewrite lookup_delete_ne; [done|]. intros <-. congruence.
  - intros h' j. rewrite members_ungroup. destruct (decide (j = i)) as [->|Hne].
    + rewrite lookup_delete_eq. split; [|naive_solver].
      destruct (decide (h' = h)); [rewrite list_elem_of_filter; naive_solver|].
      intros (? & ? & ?)%(ok_members _ _ _ _ Hok). congruence.
    + rewrite lookup_delete_ne, <-(ok_members _ _ _ _ Hok) by done.
      destruct (decide (h' = h)) as [->|]; [rewrite list_elem_of_filter; naive_solver|done].
  - apply ungroup_wf, (ok_groups _ _ _ _ Hok).
  - intros j [v [Hne Hj]%lookup_delete_Some]. rewrite lookup_delete_ne by done.
    apply (ok_payloads _ _ _ _ Hok). by eexists.
Qed.

(** ** What the calls do on consistent tables *)
Definition reads_work (Rd : Redb) : Prop :=
  fault (Redb:=Rd) BeginRead = None /\ fault (Redb:=Rd) OpenTable = None /\
  forall k, fault (Redb:=Rd) (Get k) = None.

(** The same tables; transactions may have run in between. *)
Definition same_tables (a b : Index) : Prop :=
  by_id a = by_id b /\ by_path a = by_path b /\ dupes a = dupes b /\ payloads a = payloads b.

Section Calls.
Context {Fa : Fates} {F : Fs}.
Hypothesis reads_ok : forall n, reads_work (fate n).

Lemma redb_ok {Rd : Redb} op : fault op = None -> redb op = Ok tt.
Proof. unfold redb. by intros ->. Qed.

Lemma get_path_ok p ix : consistent ix ->
  get_asset_id_by_path p ix = (Ok (by_path ix !! p), tick ix).
Proof.
  intros Hok. unfold get_asset_id_by_path, reading, get_row.
  destruct (reads_ok (ticks ix)) as (Hb & Ho & Hg). rewrite !redb_ok by done. cbn.
  destruct (by_path ix !! p) as [i|] eqn:Hp; [|done].
  apply (ok_paths _ _ _ _ Hok) in Hp as (r & Hi & _).
  apply (ok_rows _ _ _ _ Hok) in Hi as (Hl & _). unfold array_string.
  apply N.leb_le in Hl. by rewrite Hl.
Qed.

Lemma get_id_ok i ix : consistent ix ->
  get_asset_by_id i ix = (Ok (mjoin (by_id ix !! i)), tick ix).
Proof.
  intros Hok. unfold get_asset_by_id, reading, get_row.
  destruct (reads_ok (ticks ix)) as (Hb & Ho & Hg). rewrite !redb_ok by done. cbn.
  destruct (by_id ix !! i) as [[r|]|] eqn:Hi; try done.
  by apply (ok_rows _ _ _ _ Hok) in Hi as (_ & r & [=] & _).
Qed.

Lemma group_of_ok n h groups : group_of (Rd:=fate n) h groups = members groups h.
Proof.
  unfold group_of, members. destruct (reads_ok n) as (_ & _ & Hg). by rewrite redb_ok.
Qed.

(** The write transaction of an insert publishes everything or nothing. *)
Lemma flush_txn_ok record payload old h ix ix' :
  flush_txn record payload old h ix = Ok ix' ->
  ix' = mkIndex (<[asset_id record := Some record]> (by_id ix))
          (<[rec_path record := asset_id record]> (by_path ix))
          (regroup old h (asset_id record) (dupes ix))
          (<[asset_id record := payload]> (payloads ix)) (ticks ix).
Proof.
  unfold flush_txn. intros H.
  do 4 apply bind_Ok in H as ([] & _ & H). cbv zeta in H.
  apply bind_Ok in H as (g1 & Hg1 & H). apply bind_Ok in H as (g2 & Hg2 & H).
  apply bind_Ok in H as ([] & _ & [= <-]). f_equal.
  assert (g1 = match old with
               | Some o => if negb (str_eqb o h) then ungroup o (asset_id record) (dupes ix)
                           else dupes ix
               | None => dupes ix
               end) as ->.
  { destruct old as [o|]; [|by simplify_eq]. destruct (negb _); [|by simplify_eq].
    unfold remove_from_old_group in Hg1. rewrite group_of_ok in Hg1. unfold ungroup.
    destruct (is_empty _); apply bind_Ok in Hg1 as ([] & _ & [= <-]); done. }
  unfold regroup, join. rewrite group_of_ok in Hg2. destruct (bool_decide _); [by simplify_eq|].
  by apply bind_Ok in Hg2 as ([] & _ & [= <-]).
Qed.

(** The identifier a flushed file gets. *)
Definition id_for (fresh : str) (d : AbstractData) (ix : Index) : str :=
  default fresh (by_path ix !! flush_path d).

Lemma flush_insert_cases now fresh d l :
  consistent (index l) ->
  let i := id_for fresh d (index l) in
  let old := by_path (index l) !! flush_path d ≫= fun i =>
             mjoin (by_id (index l) !! i) ≫= content_hash in
  match flush_insert now fresh d l with
  | Ok l' => index l' = mkIndex (<[i := Some (flushed_record now i d)]> (by_id (index l)))
               (<[flush_path d := i]> (by_path (index l)))
               (regroup old (hash d) i (dupes (index l)))
               (<[i := to_metadata_record d]> (payloads (index l))) (ticks (index l'))
             /\ albums l' = mark_albums d (albums l)
  | Err l' => same_tables (index l') (index l) /\ albums l' = albums l
  end /\
  (forall l', flush_insert now fresh d l = Ok l' -> (ticks (index l) < ticks (index l'))%nat).
Proof.
  intros Hok i old. unfold flush_insert. rewrite (get_path_ok _ _ Hok).
  cbv zeta. cbn [result_ok from_option Datatypes.id].
  destruct (by_path (index l) !! flush_path d) as [j|] eqn:Hp.
  - cbn [from_option Datatypes.id]. rewrite (get_id_ok j (tick (index l)) Hok).
    cbn [result_ok from_option Datatypes.id].
    assert (i = j) as Hij by (unfold i, id_for; by rewrite Hp).
    cbn [option_bind mbind] in old. change (by_id (tick (index l))) with (by_id (index l)).
    destruct (flush_txn _ _ _ _ _) as [ix'|e] eqn:Ht.
    + apply flush_txn_ok in Ht as ->. cbn. rewrite Hij. split; [done|].
      intros l' [= <-]. cbn. lia.
    + by split.
  - assert (i = fresh) as Hij by (unfold i, id_for; by rewrite Hp).
    destruct (flush_txn _ _ _ _ _) as [ix'|e] eqn:Ht.
    + apply flush_txn_ok in Ht as ->. cbn. rewrite Hij. split; [done|].
      intros l' [= <-]. cbn. lia.
    + by split.
Qed.

Lemma flush_insert_consistent now fresh d l l' :
  consistent (index l) -> str_len fresh <= 64 -> by_id (index l) !! fresh = None ->
  flush_insert now fresh d l = Ok l' -> consistent (index l').
Proof.
  intros Hok Hlen Hfresh Hf. pose proof (flush_insert_cases now fresh d l Hok) as [Hc _].
  rewrite Hf in Hc. destruct Hc as [-> _]. cbn [by_id by_path dupes payloads].
  unfold id_for. destruct (by_path (index l) !! flush_path d) as [j|] eqn:Hp; cbn.
  - destruct (ok_paths _ _ _ _ Hok _ _ Hp) as (r & Hr & _).
    pose proof (ok_rows _ _ _ _ Hok _ _ Hr) as (Hl & _).
    apply (tables_insert _ _ _ _ j (flushed_record now j d) _ (hash d)); try done.
    cbn [rec_path flushed_record]. rewrite Hp. split; [done|]. exists r. by rewrite Hr.
  - apply (tables_insert _ _ _ _ fresh (flushed_record now fresh d) _ (hash d)); try done.
    cbn [rec_path flushed_record]. by rewrite Hp.
Qed.
End Calls.

Section Removal.
Context {F : Fs}.

Lemma healthy_reads (n : nat) : reads_work (fate (Fates:=all_healthy) n).
Proof. done. Qed.

Lemma array_strings_ok ids : (forall i, i ∈ ids -> str_len i <= 64) -> array_strings ids = Ok ids.
Proof.
  induction ids as [|i ids IH]; intros Hall; [done|]. cbn [array_strings]. unfold array_string.
  assert (str_len i <=? 64 = true) as -> by (apply N.leb_le, Hall; left). cbn.
  rewrite IH; [done|]. intros j Hj. apply Hall. by right.
Qed.

Lemma members_short ix h i : consistent ix -> i ∈ members (dupes ix) h -> str_len i <= 64.
Proof.
  intros Hok (r & Hi & _)%(ok_members _ _ _ _ Hok). by apply (ok_rows _ _ _ _ Hok) in Hi as [? _].
Qed.

Lemma get_dupes_healthy h ix :
  groups_wf (dupes ix) -> (forall i, i ∈ members (dupes ix) h -> str_len i <= 64) ->
  get_dupe_ids (Fa:=all_healthy) h ix = (Ok (members (dupes ix) h), tick ix).
Proof.
  intros Hwf Hs. unfold get_dupe_ids, reading, members in *. cbn.
  destruct (dupes ix !! h) as [g|] eqn:Hg; [|done].
  apply Hwf in Hg as (ids & -> & _). cbn in *. by rewrite array_strings_ok.
Qed.

(** The four removals, when nothing fails. *)
Definition removed (i p h : str) (ix : Index) : Index :=
  mkIndex (delete i (by_id ix)) (delete p (by_path ix)) (ungroup h i (dupes ix))
    (delete i (payloads ix)) (5 + ticks ix).

Lemma remove_healthy i p h ix : consistent ix ->
  remove_asset_from_tables (Fa:=all_healthy) i p h ix = Ok (removed i p h ix).
Proof.
  intros Hok. unfold remove_asset_from_tables, remove_asset_by_id, remove_asset_by_path, writing.
  cbn [fate all_healthy redb fault healthy mbind result_bind context map_err].
  unfold remove_from_dupe_group, and_then.
  rewrite get_dupes_healthy; cbn [dupes tick set_by_id set_by_path];
    [|apply (ok_groups _ _ _ _ Hok)|intros j; by apply members_short].
  unfold removed, ungroup. by destruct (is_empty _).
Qed.

Lemma flush_remove_healthy d l :
  consistent (index l) -> flush_path d <> [] ->
  flush_remove (Fa:=all_healthy) d l =
  Ok (mkLib match by_path (index l) !! flush_path d with
            | Some i => removed i (flush_path d) (hash d) (tick (index l))
            | None => tick (index l)
            end (mark_albums d (albums l))).
Proof.
  intros Hok Hp. unfold flush_remove.
  destruct (flush_path d) as [|c p] eqn:Hfp; [done|]. cbn [is_empty].
  rewrite (get_path_ok healthy_reads _ _ Hok).
  destruct (by_path (index l) !! (c :: p)) as [i|]; [|done].
  by rewrite (remove_healthy i (c :: p) (hash d) (tick (index l)) Hok).
Qed.
End Removal.

(** ** Theorems *)
Section Theorems.
Context {F : Fs}.

(** C35: Storing a scanned file, when reads work, whatever write call fails: either
    nothing is published and the writer stops there, or the file's path has the
    identifier it had before (a fresh one otherwise), that identifier has the
    scanned record and payload, no other asset is touched, and the four tables
    are consistent. *)
Theorem flush_insert_spec {Fa : Fates} now fresh d l :
  (forall n, reads_work (fate n)) -> consistent (index l) -> str_len fresh <= 64 ->
  by_id (index l) !! fresh = None ->
  match flush_insert now fresh d l with
  | Err l' => same_tables (index l') (index l)
  | Ok l' =>
      let i := id_for fresh d (index l) in
      consistent (index l') /\
      by_path (index l') = <[flush_path d := i]> (by_path (index l)) /\
      by_id (index l') = <[i := Some (flushed_record now i d)]> (by_id (index l)) /\
      payloads (index l') = <[i := to_metadata_record d]> (payloads (index l)) /\
      (forall h j, j <> i -> j ∈ members (dupes (index l')) h <-> j ∈ members (dupes (index l)) h)
  end.
Proof.
  intros Hr Hok Hlen Hfresh. pose proof (flush_insert_cases Hr now fresh d l Hok) as [Hc _].
  destruct (flush_insert now fresh d l) as [l'|l'] eqn:Hf; [|by destruct Hc].
  pose proof (flush_insert_consistent Hr _ _ _ _ _ Hok Hlen Hfresh Hf) as Hok'.
  destruct Hc as [Hix _]. cbv zeta. split; [done|]. rewrite Hix in Hok' |- *.
  cbn [by_id by_path dupes payloads] in Hok' |- *. split_and!; try done. intros h j Hj.
  rewrite (ok_members _ _ _ _ Hok'), (ok_members _ _ _ _ Hok).
  by setoid_rewrite (lookup_insert_ne _ _ j _ (not_eq_sym Hj)).
Qed.

(** A batch of scanned files, under any write failures: the tables stay
    consistent wherever the batch stops, and every path that was indexed keeps
    its identifier, so links, shares and edits that name assets survive re-scans. *)
Theorem reindex_keeps_ids {Fa : Fates} now draws ds l :
  (forall n, reads_work (fate n)) -> consistent (index l) ->
  (forall n, str_len (draws n) <= 64) -> Inj (=) (=) draws ->
  (forall n, (ticks (index l) <= n)%nat -> by_id (index l) !! draws n = None) ->
  let l' := match flush_inserts now draws ds l with Ok l' => l' | Err l' => l' end in
  consistent (index l') /\
  (forall p i, by_path (index l) !! p = Some i -> by_path (index l') !! p = Some i).
Proof.
  intros Hr Hok Hlen Hinj Hfresh. cbv zeta. revert l Hok Hfresh.
  induction ds as [|d ds IH]; intros l Hok Hfresh; [by split|]. cbn [flush_inserts].
  pose proof (flush_insert_cases Hr now (draws (ticks (index l))) d l Hok) as [Hc Ht].
  destruct (flush_insert now _ d l) as [l1|l1] eqn:Hf; cbn [mbind result_bind].
  - destruct Hc as [Hix _]. assert (consistent (index l1)) as Hok1.
    { eapply (flush_insert_consistent Hr); [exact Hok|apply Hlen|by apply Hfresh|exact Hf]. }
    specialize (Ht l1 eq_refl). destruct (IH l1 Hok1) as [Hok2 Hkeep].
    + intros n Hn. rewrite Hix. cbn [by_id]. rewrite lookup_insert_ne; [apply Hfresh; lia|].
      unfold id_for. destruct (by_path (index l) !! flush_path d) as [j|] eqn:Hp; cbn.
      * intros ->. apply (ok_paths _ _ _ _ Hok) in Hp as (r & Hr' & _).
        rewrite Hfresh in Hr' by lia. done.
      * intros He%Hinj. lia.
    + split; [done|]. intros p i Hp. apply Hkeep. rewrite Hix. cbn [by_path].
      destruct (decide (p = flush_path d)) as [->|]; [|by rewrite lookup_insert_ne].
      rewrite lookup_insert_eq. unfold id_for. by rewrite Hp.
  - destruct Hc as [(E1 & E2 & E3 & E4) _]. rewrite E1, E2, E3, E4. by split.
Qed.

(** Removing an indexed file whose content is the one on record, when nothing
    fails: the asset leaves all four tables, nothing else changes, and the tables
    are consistent. *)
Theorem flush_remove_spec d l i r :
  consistent (index l) -> flush_path d <> [] ->
  by_path (index l) !! flush_path d = Some i -> by_id (index l) !! i = Some (Some r) ->
  content_hash r = Some (hash d) ->
  exists l', flush_remove (Fa:=all_healthy) d l = Ok l' /\ consistent (index l') /\
    by_id (index l') = delete i (by_id (index l)) /\
    by_path (index l') = delete (flush_path d) (by_path (index l)) /\
    payloads (index l') = delete i (payloads (index l)) /\
    (forall h, i ∉ members (dupes (index l')) h).
Proof.
  intros Hok Hne Hp Hi Hh. eexists. split; [by apply flush_remove_healthy|]. cbn [index].
  rewrite Hp. assert (rec_path r = flush_path d) as Hrp.
  { apply (ok_paths _ _ _ _ Hok) in Hp as (r' & Hi' & <-). congruence. }
  pose proof (tables_remove _ _ _ _ i r (hash d) Hok Hi Hh) as Hok'. rewrite Hrp in Hok'.
  unfold removed. cbn [by_id by_path dupes payloads tick]. split_and!; try done.
  intros h (r' & Hr' & _)%(ok_members _ _ _ _ Hok'). by rewrite lookup_delete_eq in Hr'.
Qed.

(** The removal trusts the content hash it is handed, not the one on record.
    When the file was re-scanned with other bytes in between, the asset's
    identifier stays in the group of its last content with no record behind it. *)
Theorem stale_removal_leaves_ghost d l i r h :
  consistent (index l) -> flush_path d <> [] ->
  by_path (index l) !! flush_path d = Some i -> by_id (index l) !! i = Some (Some r) ->
  content_hash r = Some h -> h <> hash d ->
  exists l', flush_remove (Fa:=all_healthy) d l = Ok l' /\
    by_id (index l') !! i = None /\ i ∈ members (dupes (index l')) h /\ ~ consistent (index l').
Proof.
  intros Hok Hne Hp Hi Hh Hstale. eexists. split; [by apply flush_remove_healthy|]. cbn [index].
  rewrite Hp. unfold removed. cbn [by_id by_path dupes payloads tick].
  assert (i ∈ members (ungroup (hash d) i (dupes (index l))) h) as Hin.
  { rewrite members_ungroup, decide_False by done. apply (ok_members _ _ _ _ Hok). by exists r. }
  split_and!; [apply lookup_delete_eq|done|]. intros Hok'.
  apply (ok_members _ _ _ _ Hok') in Hin as (r' & Hr' & _). by rewrite lookup_delete_eq in Hr'.
Qed.

(** The cleanup below a deleted album removes each descendant with
    [remove_asset] and then flushes its removal to clear the payload; by then the
    path is no longer indexed, so the flush finds nothing and the payload row
    stays for ever. *)
Theorem descendant_payload_leaks d r l m :
  consistent (index l) -> flush_path d <> [] -> rec_path r = flush_path d ->
  by_id (index l) !! asset_id r = Some (Some r) -> payloads (index l) !! asset_id r = Some m ->
  exists ix l', remove_asset (Fa:=all_healthy) r (index l) = (Ok tt, ix) /\
    flush_remove (Fa:=all_healthy) d (mkLib ix (albums l)) = Ok l' /\
    by_id (index l') !! asset_id r = None /\ payloads (index l') !! asset_id r = Some m.
Proof.
  intros Hok Hne Hrp Hi Hm. destruct (flush_path d) as [|c p] eqn:Hfp; [done|].
  unfold remove_asset, and_then, remove_asset_by_id, remove_asset_by_path, writing.
  cbn [fate all_healthy redb fault healthy mbind result_bind context map_err].
  set (ix2 := tick (set_by_path _ _)).
  assert (exists g n, (match content_hash r with
      | Some h => remove_from_dupe_group (Fa:=all_healthy) h (asset_id r)
      | None => done tt
      end) ix2 = (Ok tt, mkIndex (by_id ix2) (by_path ix2) g (payloads ix2) n)) as (g & n & ->).
  { destruct (content_hash r) as [h|]; [|by eexists _, _].
    unfold remove_from_dupe_group, and_then.
    rewrite get_dupes_healthy; [|apply (ok_groups _ _ _ _ Hok)|intros j; apply (members_short _ _ _ Hok)].
    destruct (is_empty _); by eexists _, _. }
  eexists _, _. split; [done|]. unfold flush_remove. rewrite Hfp. cbn [is_empty index].
  unfold get_asset_id_by_path, reading, get_row.
  cbn [fate all_healthy redb fault healthy mbind result_bind context map_err by_path ix2 tick
    set_by_path set_by_id].
  rewrite Hrp, lookup_delete_eq. split; [done|]. cbn. by rewrite lookup_delete_eq.
Qed.

(** A removed album carries no file path, so the flush looks for the album's id
    among the content hashes; the album's own record, path and payload stay. *)
Theorem album_removal_is_ignored a l :
  consistent (index l) -> members (dupes (index l)) (hash (Album a)) = [] ->
  exists l', flush_remove (Fa:=all_healthy) (Album a) l = Ok l' /\
    same_tables (index l') (index l).
Proof.
  intros Hok Hno. unfold flush_remove. cbn [flush_path path from_option fmap option_fmap option_map is_empty].
  rewrite get_dupes_healthy; [|apply (ok_groups _ _ _ _ Hok)|intros j; apply (members_short _ _ _ Hok)].
  rewrite Hno. by eexists.
Qed.
End Theorems.

Section TreeFacts.
Context {Fa : Fates} {Ch : Chrono}.

#[export] Instance tree_le_total : Total tree_le.
Proof.
  intros a b. unfold tree_le.
  destruct (Z.lt_trichotomy (timestamp a) (timestamp b)) as [?|[He|?]]; [by right; left| |by left; left].
  destruct (str_leb_total (row_path a) (row_path b)); [left|right]; right; by split.
Qed.

Lemma records_of ix r : r ∈ records ix <-> exists i, by_id ix !! i = Some (Some r).
Proof.
  unfold records. rewrite list_elem_of_omap. setoid_rewrite merge_sort_Permutation.
  split; [intros ([i o] & Hin & Hr)|intros [i Hi]].
  - apply elem_of_map_to_list in Hin. cbn in Hr. subst o. by exists i.
  - exists (i, Some r). by rewrite elem_of_map_to_list.
Qed.

Lemma tree_rows_spec now random priority payload_of rs rows :
  tree_rows now random priority payload_of rs = Ok rows ->
  length rows = length rs /\
  forall row, row ∈ rows <-> exists r, r ∈ rs /\
    with_asset_id now (random (asset_id r)) (compose_abstract_data now r (payload_of (asset_id r)))
      priority (asset_id r) = Ok row.
Proof.
  revert rows. induction rs as [|r rs IH]; cbn [tree_rows]; intros rows H.
  - injection H as <-. split; [done|]. intros row. split; [by intros ?%elem_of_nil|].
    by intros (? & ?%elem_of_nil & _).
  - apply bind_Ok in H as (row0 & H0 & H). apply bind_Ok in H as (rows' & Hr & [= <-]).
    destruct (IH _ Hr) as [Hl Hin]. split; [cbn; congruence|]. intros row.
    rewrite elem_of_cons, Hin. setoid_rewrite elem_of_cons. split.
    + intros [->|(r' & ? & ?)]; [exists r; by split; [left|]|exists r'; by split; [right|]].
    + intros (r' & [->|?] & ?); [left; congruence|right; by exists r'].
Qed.

(** A refresh that reads the disk: the tree has exactly one row for each record,
    the record composed with its payload, newest first and equal times by path;
    the version is the refresh's. *)
Definition refresh_reads (ix : Index) : Prop :=
  reads_work (fate (ticks ix)) /\ reads_work (fate (S (ticks ix))) /\ fault (Redb:=fate (ticks ix)) Iter = None.
Lemma refresh_tree_rows now random ix t t' ix' : refresh_reads ix ->
  refresh_tree_cache now random ix t = (Ok t', ix') ->
  version t' = now /\ Sorted tree_le (in_memory t') /\
  length (in_memory t') = length (records ix) /\
  forall row, row ∈ in_memory t' <-> exists i r, by_id ix !! i = Some (Some r) /\
    with_asset_id now (random (asset_id r))
      (compose_abstract_data now r (payloads ix !! asset_id r)) priority_list (asset_id r) = Ok row.
Proof.
  intros ((Hb & Ho & _) & (Hb' & Ho' & Hg') & Hi). unfold refresh_tree_cache, build_from_asset_tables.
  rewrite !redb_ok by done. cbn [context map_err mbind result_bind].
  destruct (tree_rows _ _ _ _ _) as [rows|e] eqn:Ht; cbn [mbind result_bind]; [|done].
  intros [= <- <-]. cbn [version in_memory].
  assert (default [] (if is_empty rows then None else Some rows) = rows) as -> by (by destruct rows).
  apply tree_rows_spec in Ht as [Hl Hin]. split_and!; [done| | |].
  - apply Sorted_merge_sort, _.
  - by rewrite merge_sort_Permutation.
  - intros row. rewrite merge_sort_Permutation, Hin. setoid_rewrite records_of.
    split.
    + intros (r & [i Hx] & Hw). exists i, r. split; [done|].
      rewrite redb_ok in Hw by apply Hg'. done.
    + intros (i & r & Hx & Hw). exists r. split; [by exists i|].
      by rewrite redb_ok by apply Hg'.
Qed.
Theorem refresh_tree_spec now random ix t t' ix' :
  (forall n, reads_work (fate n)) -> (forall n, fault (Redb:=fate n) Iter = None) ->
  refresh_tree_cache now random ix t = (Ok t', ix') ->
  version t' = now /\ Sorted tree_le (in_memory t') /\
  length (in_memory t') = length (records ix) /\
  forall row, row ∈ in_memory t' <-> exists i r, by_id ix !! i = Some (Some r) /\
    with_asset_id now (random (asset_id r))
      (compose_abstract_data now r (payloads ix !! asset_id r)) priority_list (asset_id r) = Ok row.
Proof. intros Hr Hi. by apply refresh_tree_rows. Qed.

(** A refresh whose read transaction fails answers an empty library. *)
Theorem failed_refresh_empties_tree now random ix t :
  (fault (Redb:=fate (ticks ix)) BeginRead <> None \/ fault (Redb:=fate (ticks ix)) OpenTable <> None) ->
  (refresh_tree_cache now random ix t).1 = Ok (mkTree [] now).
Proof.
  unfold refresh_tree_cache, build_from_asset_tables, redb.
  destruct (fault BeginRead), (fault OpenTable); try done. by intros [?|?].
Qed.
End TreeFacts.

(** ** Witnesses: one indexed photograph *)
Module IndexWitness.
Definition a_photo (h : string) : AbstractData :=
  Image (mkImage (new_object 0 (lit h) TImage)
    (img_set_path (Some (new_entry 0 (lit "/img/a.jpg") 0)) (new_image_metadata 1 4 3 (lit "jpg")))).
Definition row (h : string) : AssetRecord := flushed_record 5 (lit "id1") (a_photo h).
Definition one : Library_ :=
  mkLib (mkIndex {[ lit "id1" := Some (row "h1") ]} {[ lit "/img/a.jpg" := lit "id1" ]}
           {[ lit "h1" := Some [lit "id1"] ]} {[ lit "id1" := to_metadata_record (a_photo "h1") ]} 0)
    (mkAlbums ∅ ∅).
Definition draws (n : nat) : str := [N.of_nat n].
Definition clock : Chrono := {|
  parse_exif_time _ := None; file_name_time _ := None; local_millis t := Some t |}.
Definition no_reads : Fates := {| fate _ := {| fault op := match op with
  | BeginRead => Some (lit "no space") | _ => None end |} |}.
(** The third write call fails. *)
Definition no_insert : Fates := {| fate _ := {| fault op := match op with
  | Insert _ => Some (lit "no space") | _ => None end |} |}.
End IndexWitness.
Import IndexWitness.
Import (hints) PathWitness.

Lemma empty_ok : tables_ok ∅ ∅ ∅ ∅.
Proof.
  split; try (intros ? ? Hx; by rewrite lookup_empty in Hx).
  - intros h i. unfold members. rewrite lookup_empty. split; [by intros ?%elem_of_nil|].
    intros (r & Hr & _). by rewrite lookup_empty in Hr.
  - intros i [m Hm]. by rewrite lookup_empty in Hm.
Qed.

Lemma one_ok : consistent (index one).
Proof.
  pose proof (tables_insert ∅ ∅ ∅ ∅ (lit "id1") (row "h1") (to_metadata_record (a_photo "h1"))
    (lit "h1") None empty_ok eq_refl) as H.
  apply H; [by vm_compute|done|done].
Qed.

Lemma draws_short n : str_len (draws n) <= 64.
Proof. cbn. unfold utf8_len. repeat case_match; lia. Qed.
Lemma draws_inj : Inj (=) (=) draws.
Proof. intros m n [= ?]. lia. Qed.
Lemma draws_fresh n : by_id (index one) !! draws n = None.
Proof. apply lookup_singleton_ne. discriminate. Qed.

Lemma flush_insert_spec_witness :
  exists l', flush_insert (Fa:=all_healthy) 7 (draws 0) (a_photo "h2") one = Ok l' /\
    consistent (index l') /\ by_path (index l') !! lit "/img/a.jpg" = Some (lit "id1").
Proof.
  pose proof (flush_insert_spec (Fa:=all_healthy) 7 (draws 0) (a_photo "h2") one healthy_reads one_ok
    (draws_short 0) (draws_fresh 0)) as H.
  destruct (flush_insert 7 (draws 0) (a_photo "h2") one) as [l'|l'] eqn:Hf; [|by vm_compute in Hf].
  exists l'. destruct H as (Hok & Hp & _). split; [reflexivity|]. split; [exact Hok|].
  rewrite Hp. exact (lookup_insert_eq (by_path (index one)) (lit "/img/a.jpg") (lit "id1")).
Defined.

(** The re-scan of the photograph fails half way. *)
Lemma reindex_keeps_ids_witness :
  let l' := match flush_inserts (Fa:=no_insert) 7 draws [a_photo "h2"] one with
            | Ok l' => l' | Err l' => l' end in
  consistent (index l') /\ by_path (index l') !! lit "/img/a.jpg" = Some (lit "id1").
Proof.
  destruct (reindex_keeps_ids (Fa:=no_insert) 7 draws [a_photo "h2"] one (fun n => conj eq_refl
    (conj eq_refl (fun k => eq_refl))) one_ok draws_short draws_inj
    (fun n _ => draws_fresh n)) as [H1 H2].
  split; [exact H1|]. apply H2. reflexivity.
Defined.

Lemma flush_remove_spec_witness :
  exists l', flush_remove (Fa:=all_healthy) (a_photo "h1") one = Ok l' /\ consistent (index l') /\
    by_id (index l') !! lit "id1" = None.
Proof.
  destruct (flush_remove_spec (a_photo "h1") one (lit "id1") (row "h1") one_ok ltac:(discriminate)
    eq_refl eq_refl eq_refl) as (l' & Hf & Hok & Hi & _).
  exists l'. split; [exact Hf|]. split; [exact Hok|]. rewrite Hi. apply lookup_delete_eq.
Defined.

Lemma stale_removal_leaves_ghost_witness :
  exists l', flush_remove (Fa:=all_healthy) (a_photo "h0") one = Ok l' /\
    by_id (index l') !! lit "id1" = None /\ lit "id1" ∈ members (dupes (index l')) (lit "h1").
Proof.
  destruct (stale_removal_leaves_ghost (a_photo "h0") one (lit "id1") (row "h1") (lit "h1") one_ok
    ltac:(discriminate) eq_refl eq_refl eq_refl ltac:(discriminate)) as (l' & H1 & H2 & H3 & _).
  exists l'. split; [exact H1|]. split; [exact H2|exact H3].
Defined.

Lemma descendant_payload_leaks_witness :
  exists ix l', remove_asset (Fa:=all_healthy) (row "h1") (index one) = (Ok tt, ix) /\
    flush_remove (Fa:=all_healthy) (a_photo "h1") (mkLib ix (albums one)) = Ok l' /\
    payloads (index l') !! lit "id1" = Some (to_metadata_record (a_photo "h1")).
Proof.
  destruct (descendant_payload_leaks (a_photo "h1") (row "h1") one _ one_ok ltac:(discriminate)
    eq_refl eq_refl eq_refl) as (ix & l' & H1 & H2 & _ & H4).
  exists ix, l'. split; [exact H1|]. split; [exact H2|exact H4].
Defined.

Lemma album_removal_is_ignored_witness :
  exists l', flush_remove (Fa:=all_healthy)
      (Album (mkAlbum (new_object 0 (lit "album") TAlbum) (default_album (lit "album") (lit "/img") false))) one
    = Ok l' /\ same_tables (index l') (index one).
Proof.
  exact (album_removal_is_ignored
    (mkAlbum (new_object 0 (lit "album") TAlbum) (default_album (lit "album") (lit "/img") false)) one
    one_ok eq_refl).
Defined.

Lemma refresh_tree_spec_witness :
  exists t' ix', refresh_tree_cache (Fa:=all_healthy) (Ch:=clock) 9 (fun _ => 0%Z) (index one) (mkTree [] 0)
      = (Ok t', ix') /\ version t' = 9%Z /\ length (in_memory t') = 1%nat.
Proof.
  destruct (refresh_tree_cache (Fa:=all_healthy) (Ch:=clock) 9 (fun _ => 0%Z) (index one) (mkTree [] 0))
    as [[t'|e] ix'] eqn:Hr; [|by vm_compute in Hr].
  exists t', ix'. destruct (refresh_tree_spec (Fa:=all_healthy) (Ch:=clock) 9 (fun _ => 0%Z) (index one)
    (mkTree [] 0) t' ix' healthy_reads (fun n => eq_refl) Hr) as (Hv & _ & Hl & _).
  split; [reflexivity|]. split; [exact Hv|exact Hl].
Defined.

Lemma failed_refresh_empties_tree_witness :
  (refresh_tree_cache (Fa:=no_reads) (Ch:=clock) 9 (fun _ => 0%Z) (index one) (mkTree [] 0)).1
  = Ok (mkTree [] 9).
Proof.
  exact (failed_refresh_empties_tree (Fa:=no_reads) (Ch:=clock) 9 (fun _ => 0%Z) (index one) (mkTree [] 0)
    (or_introl (fun H : Some _ = None => match H with end))).
Defined.
