(* ===== verification/DirAlbumStore.v ===== *)
(** * DirAlbumStore: the album of a directory in the database
      ([write_album_to_db], [get_or_create_dir_album] of
      [backend/src/process/dir_album.rs]; [ensure_personal_home] of
      [storage/files.rs])

    [DirAlbum] has the cache; here an album that is not in it is written.  One
    write transaction covers three tables, but only the failure to store the
    payload is an error: the results of the two row inserts are dropped.  They run
    under an oracle of their own. *)

From S2P Require Import Prelude Errors Redb UserStore Paths Formats Model MetadataRecord DirAlbum.
From S2P Require Import IndexStore.

(** What the sidecar of a directory says. *)
Record XmpData := mkXmp {
  x_tags : gset str; x_description : option str; x_rating : option N; x_title : option str;
  x_trashed : bool
}.
(** [read_albuminfo]: [.albuminfo.xmp] of the directory as it parses. *)
Class Sidecars := { read_albuminfo : Path -> XmpData }.

(** The text of a path in normal form. *)
Definition component_text (c : Component) : str :=
  match c with
  | RootDir => [] | CurDir => lit "." | ParentDir => lit ".." | Normal s => s
  end.
Definition path_text (p : Path) : str :=
  let joined := mjoin ((fun c => lit "/" ++ component_text c) <$> p) in
  match p with
  | [RootDir] => lit "/"
  | RootDir :: rest => mjoin ((fun c => lit "/" ++ component_text c) <$> rest)
  | _ => drop 1 joined
  end.

Section Store.
Context {Fa : Fates} {U : Uppercase} {X : Sidecars} {K : Nfkc}.

Definition album_of_dir (now : Z) (album_id : str) (dir : Path) : AbstractData :=
  let dir_path_str := path_text dir in
  let albuminfo := read_albuminfo dir in
  let title := default (derive_default_title dir_path_str) (x_title albuminfo) in
  Album (mkAlbum
    (mkObject album_id TAlbum false None (x_description albuminfo) (x_tags albuminfo)
       (x_rating albuminfo) now)
    (mkAlbumMeta album_id (Some title) now None None now None 0 0 ∅ dir_path_str
       (x_title albuminfo) (x_trashed albuminfo))).

(** [or_keep r new old]: [let _ = table.insert(..)]. *)
Definition or_keep {A} (r : result str unit) (new old : A) : A :=
  match r with Ok _ => new | Err _ => old end.

Definition write_album_to_db (now : Z) (album_id : str) (dir : Path) : Io str := fun ix =>
  let payload := to_metadata_record (album_of_dir now album_id dir) in
  let record := new_album album_id now (path_text dir) in
  let meta := fate (ticks ix) in
  let rows := fate (S (ticks ix)) in
  match (_ ← context "Failed to begin write transaction for dir album" (redb (Rd:=meta) BeginWrite);
         _ ← context "Failed to open data table" (redb (Rd:=meta) OpenTable);
         _ ← context "Failed to insert dir album" (redb (Rd:=meta) (Insert album_id));
         _ ← context "Failed to open ASSET_BY_PATH" (redb (Rd:=rows) OpenTable);
         context "Failed to commit dir album" (redb (Rd:=meta) Commit)) with
  | Ok _ =>
      (Ok album_id,
       tick (tick (mkIndex
         (or_keep (redb (Rd:=rows) (Insert album_id)) (<[album_id := Some record]> (by_id ix)) (by_id ix))
         (or_keep (redb (Rd:=rows) (Insert (path_text dir))) (<[path_text dir := album_id]> (by_path ix))
            (by_path ix))
         (dupes ix) (<[album_id := payload]> (payloads ix)) (ticks ix))))
  | Err e => (Err e, tick (tick ix))
  end.

(** [get_or_create_dir_album]: the cache is locked throughout; the refresh of the
    tree it asks for runs later.  [fresh] is the identifier it would draw. *)
Definition create_dir_album (now : Z) (fresh : str) (dir : Path) (l : Library_)
  : result str str * Library_ :=
  match get_album_id_for_dir dir (albums l) with
  | Some i => (Ok i, l)
  | None =>
      let '(written, ix) := write_album_to_db now fresh dir (index l) in
      let '(r, a) := get_or_create_dir_album (fun _ => written) dir (albums l) in
      (r, mkLib ix a)
  end.

(** [ensure_personal_home]. *)
Definition create_personal_home (create_dir_all : Path -> result str unit) (cfg : Config) (now : Z)
    (fresh : str) (id : str) (l : Library_) : app_result unit * Library_ :=
  match get_resolved_users_home cfg with
  | None => (Ok tt, l)
  | Some _ =>
      match users_dir_for cfg id with
      | Err _ => (Err (new_error InvalidInput (lit "invalid user id")), l)
      | Ok dir =>
          match create_dir_all dir with
          | Err e => (Err (new_error IO e), l)
          | Ok _ =>
              let '(r, l) := create_dir_album now fresh dir l in
              (_ ← map_err (new_error Internal) r; Ok tt, l)
          end
      end
  end.
End Store.

(** ** What is stored *)
Section Facts.
Context {Fa : Fates} {U : Uppercase} {X : Sidecars} {K : Nfkc}.

(** The two row inserts succeed. *)
Definition rows_work (n : nat) : Prop := forall k, fault (Redb:=fate n) (Insert k) = None.

Definition with_dir_album (now : Z) (i : str) (dir : Path) (ix : Index) : Index :=
  mkIndex (<[i := Some (new_album i now (path_text dir))]> (by_id ix))
    (<[path_text dir := i]> (by_path ix)) (dupes ix)
    (<[i := to_metadata_record (album_of_dir now i dir)]> (payloads ix)) (ticks ix).

(** A new album joins no duplicate group, so the tables stay consistent. *)
Lemma with_dir_album_ok now i dir ix :
  consistent ix -> str_len i <= 64 -> by_id ix !! i = None -> by_path ix !! path_text dir = None ->
  consistent (with_dir_album now i dir ix).
Proof.
  intros [Hrows Hpaths Hmem Hgr Hpay] Hlen Hi Hp. unfold with_dir_album. cbn.
  set (r := new_album i now (path_text dir)).
  split.
  - intros j o [[<- <-]|[Hne Hj]]%lookup_insert_Some.
    + split; [done|]. exists r. split_and!; [done|done|]. apply lookup_insert_eq.
    + destruct (Hrows j o Hj) as (Hl & r' & -> & Ha & Hpj). split; [done|]. exists r'.
      split_and!; [done|done|]. rewrite lookup_insert_ne; [done|]. congruence.
  - intros p j [[<- <-]|[Hne Hj]]%lookup_insert_Some.
    + exists r. by rewrite lookup_insert_eq.
    + destruct (Hpaths p j Hj) as (r' & Hr' & Hp'). exists r'. rewrite lookup_insert_ne; [done|]. congruence.
  - intros h j. rewrite Hmem. split; intros (r' & Hr' & Hh); exists r'.
    + rewrite lookup_insert_ne; [done|]. congruence.
    + apply lookup_insert_Some in Hr' as [[<- [= <-]]|[_ Hr']]; done.
  - done.
  - intros j [m [[<- _]|[_ Hm]]%lookup_insert_Some].
    + rewrite lookup_insert_eq. by eexists.
    + apply lookup_insert_is_Some'. right. apply Hpay. by exists m.
Qed.

Lemma write_album_cases now i dir ix : rows_work (S (ticks ix)) ->
  match write_album_to_db now i dir ix with
  | (Ok j, ix') => j = i /\ same_tables ix' (with_dir_album now i dir ix)
  | (Err _, ix') => same_tables ix' ix
  end.
Proof.
  intros Hw. unfold write_album_to_db.
  assert (forall k, redb (Rd:=fate (S (ticks ix))) (Insert k) = Ok tt) as Hi
    by (intros k; unfold redb; by rewrite Hw).
  rewrite !Hi. destruct (mbind _ _); by split_and!.
Qed.
End Facts.

Section Claims.
Context {Fa : Fates} {U : Uppercase} {X : Sidecars} {K : Nfkc}.

(** Asking for the album of a directory: a cached answer changes nothing; otherwise
    the tables stay consistent and hold one new album for the directory, which every
    later request is answered with; or, on an error, neither tables nor cache have
    changed.  The identifier drawn is short and not in use, the directory has no
    row yet, and the two row inserts work. *)
Theorem dir_album_spec now fresh dir l :
  consistent (index l) -> str_len fresh <= 64 -> by_id (index l) !! fresh = None ->
  rows_work (S (ticks (index l))) ->
  (get_album_id_for_dir dir (albums l) = None -> by_path (index l) !! path_text dir = None) ->
  let '(r, l') := create_dir_album now fresh dir l in
  match r with
  | Ok i =>
      consistent (index l') /\ get_album_id_for_dir dir (albums l') = Some i /\
      pending_updates (albums l') = pending_updates (albums l) /\
      (l' = l \/ (i = fresh /\ same_tables (index l') (with_dir_album now i dir (index l)))) /\
      forall now' fresh', create_dir_album now' fresh' dir l' = (Ok i, l')
  | Err _ => same_tables (index l') (index l) /\ albums l' = albums l
  end.
Proof.
  intros Hok Hlen Hfresh Hw Hp. unfold create_dir_album at 1.
  destruct (get_album_id_for_dir dir (albums l)) as [i|] eqn:Hc.
  - split_and!; try done; [by left|]. intros now' fresh'. unfold create_dir_album. by rewrite Hc.
  - pose proof (write_album_cases now fresh dir (index l) Hw) as Hx.
    unfold get_or_create_dir_album. unfold get_album_id_for_dir in Hc. rewrite Hc.
    destruct (write_album_to_db now fresh dir (index l)) as [[j|e] ix]; [|done].
    destruct Hx as [-> Hs]. cbn [index albums]. split_and!.
    + destruct Hs as (-> & -> & -> & ->). by apply with_dir_album_ok; [..|apply Hp].
    + unfold get_album_id_for_dir. apply lookup_insert_eq.
    + done.
    + by right.
    + intros now' fresh'. unfold create_dir_album, get_album_id_for_dir. cbn [albums cache].
      by rewrite lookup_insert_eq.
Qed.

(** The album read back is the one that was stored, except for the trash marker:
    the sidecar's is dropped, and the album is not in the trash. *)
Theorem rebuilt_album_loses_trash now now' i dir :
  let stored := album_of_dir now i dir in
  let read := compose_abstract_data now' (new_album i now (path_text dir))
                (Some (to_metadata_record stored)) in
  is_trashed stored = x_trashed (read_albuminfo dir) /\ is_trashed read = false /\
  read = set_trashed false stored.
Proof. by split_and!. Qed.

(** When only the insert of the asset row fails, the answer is still the new
    identifier and it is cached; but there is no asset under it, and the payload
    belongs to none. *)
Theorem failed_row_is_silent now fresh dir l why :
  get_album_id_for_dir dir (albums l) = None -> by_id (index l) !! fresh = None ->
  (forall op, fault (Redb:=fate (ticks (index l))) op = None) ->
  fault (Redb:=fate (S (ticks (index l)))) (Insert fresh) = Some why ->
  (forall op, op <> Insert fresh -> fault (Redb:=fate (S (ticks (index l)))) op = None) ->
  let '(r, l') := create_dir_album now fresh dir l in
  r = Ok fresh /\ get_album_id_for_dir dir (albums l') = Some fresh /\
  by_id (index l') !! fresh = None /\ is_Some (payloads (index l') !! fresh) /\
  ~ consistent (index l').
Proof.
  intros Hc Hf Hm Hrow Hrows. unfold create_dir_album, get_or_create_dir_album. rewrite Hc.
  unfold get_album_id_for_dir in Hc. rewrite Hc.
  unfold write_album_to_db, redb. rewrite !Hm, Hrow, (Hrows OpenTable) by done. cbn.
  assert (is_Some (<[fresh := to_metadata_record (album_of_dir now fresh dir)]> (payloads (index l)) !! fresh))
    as Hs by (rewrite lookup_insert_eq; by eexists).
  split_and!; [done|unfold get_album_id_for_dir; apply lookup_insert_eq|done|done|].
  intros Hok. apply (ok_payloads _ _ _ _ Hok) in Hs as [o Ho]. congruence.
Qed.

(** A directory whose album is in the tables but not in the cache, as after a start
    while it was not mounted, gets a second album; the first keeps its row, and no
    path leads to it any more. *)
Theorem uncached_album_is_doubled now fresh dir l old r :
  consistent (index l) -> rows_work (S (ticks (index l))) ->
  get_album_id_for_dir dir (albums l) = None ->
  by_path (index l) !! path_text dir = Some old -> by_id (index l) !! old = Some (Some r) ->
  old <> fresh ->
  let '(a, l') := create_dir_album now fresh dir l in
  is_ok a = true ->
  by_id (index l') !! old = Some (Some r) /\ rec_path r = path_text dir /\
  by_path (index l') !! path_text dir = Some fresh /\
  (exists r', by_id (index l') !! fresh = Some (Some r') /\ rec_path r' = path_text dir).
Proof.
  intros Hok Hw Hc Hp Hr Hne. unfold create_dir_album, get_or_create_dir_album. rewrite Hc.
  unfold get_album_id_for_dir in Hc. rewrite Hc.
  pose proof (write_album_cases now fresh dir (index l) Hw) as Hx.
  destruct (write_album_to_db now fresh dir (index l)) as [[j|e] ix]; [|done].
  destruct Hx as [-> (Hid & Hpa & _)]. intros _. cbn [index]. rewrite Hid, Hpa.
  unfold with_dir_album. cbn [by_id by_path]. split_and!.
  - by rewrite lookup_insert_ne by done.
  - destruct (ok_rows _ _ _ _ Hok _ _ Hr) as (_ & r' & [= <-] & _ & Hpr).
    destruct (ok_paths _ _ _ _ Hok _ _ Hp) as (r' & Hr' & Hpath). congruence.
  - apply lookup_insert_eq.
  - eexists. split; [apply lookup_insert_eq|done].
Qed.

(** The stateful [ensure_personal_home] answers what the abstract one does with the
    album's outcome. *)
Theorem personal_home_refines mkdir cfg now fresh id l :
  (create_personal_home mkdir cfg now fresh id l).1
  = ensure_personal_home mkdir
      (fun dir => _ ← (create_dir_album now fresh dir l).1; Ok tt) cfg id.
Proof.
  unfold create_personal_home, ensure_personal_home.
  destruct (get_resolved_users_home cfg); [|done].
  destruct (users_dir_for cfg id) as [dir|]; cbn; [|done].
  destruct (mkdir dir); cbn; [|done].
  by destruct (create_dir_album now fresh dir l) as [[?|?] ?].
Qed.
End Claims.

(** ** Witnesses: a new directory beside one indexed photograph *)
Module HomeWitness.
Import (hints) PathWitness.
#[export] Instance no_case : Uppercase := {| to_uppercase c := [c] |}.
#[export] Instance no_sidecars : Sidecars := {| read_albuminfo _ := mkXmp ∅ None None None false |}.
Definition dir : Path := PathWitness.p "/img/2024".
Definition fresh : str := lit "id2".
(** The insert of the asset row fails, and nothing else does. *)
Definition row_fails : Fates := {| fate n := match n with
  | 1%nat => {| fault op := match op with
               | Insert k => if str_eqb k fresh then Some (lit "no space") else None
               | _ => None end |}
  | _ => healthy end |}.
(** The directory's album is in the tables and not in the cache. *)
Definition unmounted : Library_ :=
  mkLib (with_dir_album 5 (lit "id0") dir (index IndexWitness.one)) (mkAlbums ∅ ∅).
Lemma unmounted_ok : consistent (index unmounted).
Proof.
  apply with_dir_album_ok; [apply IndexStore.one_ok|..]; vm_compute; done || discriminate.
Qed.
End HomeWitness.
Import (hints) HomeWitness.
Import (hints) PathWitness.

Lemma dir_album_spec_witness :
  consistent (index (create_dir_album (Fa:=all_healthy) 7 HomeWitness.fresh HomeWitness.dir IndexWitness.one).2).
Proof.
  pose proof (dir_album_spec (Fa:=all_healthy) 7 HomeWitness.fresh HomeWitness.dir IndexWitness.one
    IndexStore.one_ok) as H.
  destruct (create_dir_album _ _ _ _) as [[i|e] l'] eqn:Hc.
  - refine (proj1 (H _ _ _ _)); vm_compute; done || discriminate.
  - exfalso. apply (f_equal fst) in Hc. vm_compute in Hc. discriminate.
Defined.

Lemma failed_row_is_silent_witness :
  (create_dir_album (Fa:=HomeWitness.row_fails) 7 HomeWitness.fresh HomeWitness.dir IndexWitness.one).1
  = Ok HomeWitness.fresh.
Proof.
  pose proof (failed_row_is_silent (Fa:=HomeWitness.row_fails) 7 HomeWitness.fresh HomeWitness.dir
    IndexWitness.one (lit "no space")) as H.
  destruct (create_dir_album _ _ _ _) as [r l']. refine (proj1 (H _ _ _ _ _)); try (vm_compute; reflexivity).
  intros [| | | | | |k|k|k|] Hne; try reflexivity.
  change ((if str_eqb k HomeWitness.fresh then Some (lit "no space") else None) = None).
  destruct (str_eqb k HomeWitness.fresh) eqn:Hk; [|reflexivity].
    apply str_eqb_eq in Hk as ->. done.
Defined.

Lemma uncached_album_is_doubled_witness :
  by_path (index (create_dir_album (Fa:=all_healthy) 7 HomeWitness.fresh HomeWitness.dir
    HomeWitness.unmounted).2) !! path_text HomeWitness.dir = Some HomeWitness.fresh.
Proof.
  pose proof (uncached_album_is_doubled (Fa:=all_healthy) 7 HomeWitness.fresh HomeWitness.dir
    HomeWitness.unmounted (lit "id0")
    (new_album (lit "id0") 5 (path_text HomeWitness.dir)) HomeWitness.unmounted_ok) as H.
  destruct (create_dir_album _ _ _ _) as [r l'] eqn:Hc.
  assert (is_ok r = true) as Hr by (apply (f_equal fst) in Hc; vm_compute in Hc; by subst).
  refine (proj1 (proj2 (proj2 (H _ _ _ _ _ Hr)))); try (vm_compute; reflexivity).
  vm_compute. discriminate.
Defined.
