(* ===== verification/Writer.v ===== *)
(** * Writer: the serial database writer and its barriers
      ([backend/src/tasks/queue/writer.rs])

    Any number of tasks submit operations to one writer task, which hands a
    follow-up entry to one cascade task.  The protocol is a transition system at
    the granularity of the code's awaits and atomic accesses; which event comes
    next is the scheduler's choice.  A waiting barrier may look at the watermarks
    at any time, not only after a notification.  What an operation does to the
    tables is a function of its own, applied batch by batch. *)

From S2P Require Import Prelude Errors Redb Paths Model MetadataRecord DirAlbum IndexStore.

Definition WRITER_CAPACITY : nat := 1024.
Definition CASCADE_CAPACITY : nat := 1024.

Inductive WriteOp :=
| Flush (inserts removes : list AbstractData)
| UpdateTree
| ExpireCheck
| SweepDirAlbums (entries : list (str * str))
| PruneUsersRoot (users_root : str)
| Barrier.
Inductive CascadeOp := UpdateTreeChain | ExpireRound | Noop.

Definition is_flush (op : WriteOp) : bool := match op with Flush _ _ => true | _ => false end.
Definition is_barrier (op : WriteOp) : bool := match op with Barrier => true | _ => false end.

(** The follow-up of an operation, the second half of [handle_op]. *)
Definition cascade_of (op : WriteOp) : CascadeOp :=
  match op with
  | Flush _ _ | UpdateTree => UpdateTreeChain
  | ExpireCheck => ExpireRound
  | SweepDirAlbums _ | PruneUsersRoot _ | Barrier => Noop
  end.

(** ** What operations do to the tables *)
Section Effects.
Context {Fa : Fates} {F : Fs}.

(** The last transaction of a sweep or prune; every outcome is dropped. *)
Definition remove_payload (album_id : str) (ix : Index) : Index :=
  let Rd := fate (ticks ix) in
  match redb BeginWrite with
  | Err _ => tick ix
  | Ok _ =>
      let removed := match redb OpenTable, redb (Remove album_id) with
                     | Ok _, Ok _ => delete album_id (payloads ix)
                     | _, _ => payloads ix
                     end in
      tick (match redb Commit with Ok _ => set_payloads removed ix | Err _ => ix end)
  end.

Definition remove_album_record (dir album_id : str) (l : Library_) : Library_ :=
  let '(_, ix) := remove_asset_by_id album_id (index l) in
  let '(_, ix) := remove_asset_by_path dir ix in
  mkLib (remove_payload album_id ix) (evict_dir_album (components dir) (albums l)).

Definition handle_sweep_dir_albums (entries : list (str * str)) (l : Library_) : Library_ :=
  fold_left (fun l e => remove_album_record e.1 e.2 l) entries l.
Definition handle_prune_users_root (users_root : str) (l : Library_) : Library_ :=
  let '(r, ix) := get_asset_id_by_path users_root (index l) in
  match r with
  | Ok (Some album_id) => remove_album_record users_root album_id (mkLib ix (albums l))
  | _ => mkLib ix (albums l)
  end.

Definition handle_op (now : Z) (draws : nat -> str) (op : WriteOp) (l : Library_) : flow :=
  match op with
  | Flush inserts removes => flush_tables now draws inserts removes l
  | SweepDirAlbums entries => Ok (handle_sweep_dir_albums entries l)
  | PruneUsersRoot root => Ok (handle_prune_users_root root l)
  | UpdateTree | ExpireCheck | Barrier => Ok l
  end.

(** A run of flushes merged into one. *)
Definition inserts_of (ops : list WriteOp) : list AbstractData :=
  ops ≫= fun op => match op with Flush ins _ => ins | _ => [] end.
Definition removes_of (ops : list WriteOp) : list AbstractData :=
  ops ≫= fun op => match op with Flush _ rem => rem | _ => [] end.
Definition merged_flush (now : Z) (draws : nat -> str) (ops : list WriteOp) (l : Library_) : flow :=
  flush_tables now draws (inserts_of ops) (removes_of ops) l.

Fixpoint one_by_one (now : Z) (draws : nat -> str) (ops : list WriteOp) (l : Library_) : flow :=
  match ops with
  | [] => Ok l
  | op :: ops' => l ← handle_op now draws op l; one_by_one now draws ops' l
  end.
End Effects.

(** ** The protocol *)
Abbreviation Msg := (N * WriteOp)%type.

(** Tasks inside [submit] or [barrier].  [before] counts the messages that were
    in the inbox's history when the call began. *)
Inductive Task :=
| Sending (before : nat) (seq : N) (op : WriteOp)   (* seq drawn, [tx.send] pending *)
| MarkerSent (before : nat) (seq : N)               (* about to read [NEXT_SEQ] *)
| Waiting (before : nat) (seq target : N)           (* about to read [COMPLETED_SEQ] *)
| HalfChecked (before : nat) (seq target : N).      (* about to read [CASCADE_COMPLETED_SEQ] *)

(** Where [writer_loop] stands. *)
Inductive Phase :=
| Receiving                                            (* [recv], then [try_recv] *)
| PopSingle                                            (* after the merged run *)
| ToQueue (seq : N) (c : CascadeOp) (merged : bool)    (* [enqueue_cascade] pending *)
| ToComplete (seq : N) (merged : bool).                (* [complete_seq] pending *)

Record Sys := mkSys {
  next_seq : N;
  tasks : gmap nat Task;
  inbox : list Msg;
  pending_ops : list Msg;
  phase : Phase;
  completed : N;
  cascade_inbox : list (N * CascadeOp);
  cascading : option (N * CascadeOp);
  cascade_completed : N;
  (* history *)
  sent : list Msg;                 (* everything ever put in the inbox *)
  batches : list (list Msg);       (* what the writer has written, batch by batch *)
  cascaded : nat                   (* how many batches have had their follow-up *)
}.
Definition start : Sys := mkSys 1 ∅ [] [] Receiving 0 [] None 0 [] [] 0.

(** The leading run of flushes and what follows it. *)
Fixpoint leading_flushes (l : list Msg) : list Msg * list Msg :=
  match l with
  | m :: l' => if is_flush m.2 then let '(run, rest) := leading_flushes l' in (m :: run, rest)
               else ([], l)
  | [] => ([], [])
  end.
Definition max_seq (run : list Msg) : N := foldr (fun m n => N.max m.1 n) 0 run.

Inductive Event :=
| ETake (t : nat) (op : WriteOp) | ESend (t : nat) | EReadSeq (t : nat)
| ECheckWriter (t : nat) | ECheckCascade (t : nat) | EDrop (t : nat)
| ERecv | EMerge | EPop | EQueue | EComplete | ECascadeStart | ECascadeDone.

Definition with_tasks (ts : gmap nat Task) (s : Sys) : Sys :=
  mkSys (next_seq s) ts (inbox s) (pending_ops s) (phase s) (completed s) (cascade_inbox s)
    (cascading s) (cascade_completed s) (sent s) (batches s) (cascaded s).
Definition with_phase (ph : Phase) (s : Sys) : Sys :=
  mkSys (next_seq s) (tasks s) (inbox s) (pending_ops s) ph (completed s) (cascade_inbox s)
    (cascading s) (cascade_completed s) (sent s) (batches s) (cascaded s).

(** The writer has written [batch] and [rest] is still pending. *)
Definition wrote (batch rest : list Msg) (ph : Phase) (s : Sys) : Sys :=
  mkSys (next_seq s) (tasks s) (inbox s) rest ph (completed s) (cascade_inbox s)
    (cascading s) (cascade_completed s) (sent s) (batches s ++ [batch]) (cascaded s).

(** The state after the event, [None] when it cannot happen now. *)
Definition exec (e : Event) (s : Sys) : option Sys :=
  match e with
  | ETake t op =>                         (* [NEXT_SEQ.fetch_add(1)] *)
      match tasks s !! t with
      | None =>
          let s := with_tasks (<[t := Sending (length (sent s)) (next_seq s) op]> (tasks s)) s in
          Some (mkSys (next_seq s + 1) (tasks s) (inbox s) (pending_ops s) (phase s) (completed s)
                  (cascade_inbox s) (cascading s) (cascade_completed s) (sent s) (batches s)
                  (cascaded s))
      | Some _ => None
      end
  | ESend t =>                            (* the message enters the inbox *)
      match tasks s !! t with
      | Some (Sending before seq op) =>
          if (length (inbox s) <? WRITER_CAPACITY)%nat then
            let ts := if is_barrier op then <[t := MarkerSent before seq]> (tasks s)
                      else delete t (tasks s) in
            Some (mkSys (next_seq s) ts (inbox s ++ [(seq, op)]) (pending_ops s) (phase s)
                    (completed s) (cascade_inbox s) (cascading s) (cascade_completed s)
                    (sent s ++ [(seq, op)]) (batches s) (cascaded s))
          else None
      | _ => None
      end
  | EReadSeq t =>                         (* [NEXT_SEQ.load() - 1] *)
      match tasks s !! t with
      | Some (MarkerSent before seq) =>
          Some (with_tasks (<[t := Waiting before seq (next_seq s - 1)]> (tasks s)) s)
      | _ => None
      end
  | ECheckWriter t =>
      match tasks s !! t with
      | Some (Waiting before seq target) =>
          if target <=? completed s
          then Some (with_tasks (<[t := HalfChecked before seq target]> (tasks s)) s)
          else None
      | _ => None
      end
  | ECheckCascade t =>                    (* the barrier returns, or waits again *)
      match tasks s !! t with
      | Some (HalfChecked before seq target) =>
          if target <=? cascade_completed s
          then Some (with_tasks (delete t (tasks s)) s)
          else Some (with_tasks (<[t := Waiting before seq target]> (tasks s)) s)
      | _ => None
      end
  | EDrop t =>                            (* the future is dropped at an await *)
      match tasks s !! t with
      | Some _ => Some (with_tasks (delete t (tasks s)) s)
      | None => None
      end
  | ERecv =>
      match phase s, inbox s with
      | Receiving, m :: rest =>
          Some (mkSys (next_seq s) (tasks s) rest (pending_ops s ++ [m]) (phase s) (completed s)
                  (cascade_inbox s) (cascading s) (cascade_completed s) (sent s) (batches s)
                  (cascaded s))
      | _, _ => None
      end
  | EMerge =>                             (* [try_recv] found the inbox empty *)
      match phase s, inbox s, pending_ops s with
      | Receiving, [], _ :: _ =>
          match leading_flushes (pending_ops s) with
          | ([], _) => Some (with_phase PopSingle s)
          | (run, rest) => Some (wrote run rest (ToQueue (max_seq run) UpdateTreeChain true) s)
          end
      | _, _, _ => None
      end
  | EPop =>
      match phase s, pending_ops s with
      | PopSingle, (seq, op) :: rest =>
          Some (wrote [(seq, op)] rest (ToQueue seq (cascade_of op) false) s)
      | PopSingle, [] => Some (with_phase Receiving s)
      | _, _ => None
      end
  | EQueue =>
      match phase s with
      | ToQueue seq c merged =>
          if (length (cascade_inbox s) <? CASCADE_CAPACITY)%nat then
            Some (mkSys (next_seq s) (tasks s) (inbox s) (pending_ops s) (ToComplete seq merged)
                    (completed s) (cascade_inbox s ++ [(seq, c)]) (cascading s)
                    (cascade_completed s) (sent s) (batches s) (cascaded s))
          else None
      | _ => None
      end
  | EComplete =>                          (* [COMPLETED_SEQ.store(seq)] *)
      match phase s with
      | ToComplete seq merged =>
          Some (mkSys (next_seq s) (tasks s) (inbox s) (pending_ops s)
                  (if merged then PopSingle else Receiving) seq (cascade_inbox s) (cascading s)
                  (cascade_completed s) (sent s) (batches s) (cascaded s))
      | _ => None
      end
  | ECascadeStart =>
      match cascading s, cascade_inbox s with
      | None, entry :: rest =>
          Some (mkSys (next_seq s) (tasks s) (inbox s) (pending_ops s) (phase s) (completed s)
                  rest (Some entry) (cascade_completed s) (sent s) (batches s) (cascaded s))
      | _, _ => None
      end
  | ECascadeDone =>                       (* [CASCADE_COMPLETED_SEQ.store(seq)] *)
      match cascading s with
      | Some (seq, _) =>
          Some (mkSys (next_seq s) (tasks s) (inbox s) (pending_ops s) (phase s) (completed s)
                  (cascade_inbox s) None seq (sent s) (batches s) (S (cascaded s)))
      | None => None
      end
  end.

Fixpoint run (es : list Event) (s : Sys) : option Sys :=
  match es with
  | [] => Some s
  | e :: es' => exec e s ≫= run es'
  end.
Definition reachable_sys (s : Sys) : Prop := exists es, run es start = Some s.

(** ** The invariant *)
Definition in_phase (ph : Phase) : list N := match ph with ToQueue q _ _ => [q] | _ => [] end.
(** Sequence numbers on their way through the cascade, oldest first. *)
Definition in_flight (s : Sys) : list N :=
  match cascading s with Some e => [e.1] | None => [] end ++ (cascade_inbox s).*1 ++ in_phase (phase s).
Definition watermark (bs : list (list Msg)) : N := default 0 (max_seq <$> last bs).
(** The batches whose sequence number the writer has published. *)
Definition published (s : Sys) : list (list Msg) :=
  match phase s with
  | ToQueue _ _ _ | ToComplete _ _ => removelast (batches s)
  | _ => batches s
  end.

Definition call_ok (s : Sys) (before : nat) (seq : N) : Prop :=
  (before <= length (sent s))%nat /\ 0 < seq < next_seq s /\
  forall j m, (j < before)%nat -> sent s !! j = Some m -> m.1 < seq.
Definition task_ok (s : Sys) (t : Task) : Prop :=
  match t with
  | Sending b q _ | MarkerSent b q => call_ok s b q
  | Waiting b q w | HalfChecked b q w => call_ok s b q /\ q <= w < next_seq s
  end.

Record Inv (s : Sys) : Prop := {
  inv_fifo : sent s = concat (batches s) ++ pending_ops s ++ inbox s;
  inv_flight : in_flight s = max_seq <$> drop (cascaded s) (batches s);
  inv_count : (cascaded s <= length (batches s))%nat;
  inv_cascade : cascade_completed s = watermark (take (cascaded s) (batches s));
  inv_writer : completed s = watermark (published s);
  inv_phase : match phase s with
              | ToQueue q _ _ | ToComplete q _ => exists b, last (batches s) = Some b /\ max_seq b = q
              | _ => True
              end;
  inv_tasks : forall t task, tasks s !! t = Some task -> task_ok s task;
  inv_next : 0 < next_seq s;
  inv_seqs : Forall (fun m => m.1 < next_seq s) (sent s)
}.

Lemma leading_flushes_app l a b : leading_flushes l = (a, b) -> l = a ++ b.
Proof.
  revert a. induction l as [|m l IH]; cbn; intros a; [by intros [= <- <-]|].
  destruct (is_flush m.2); [|by intros [= <- <-]].
  destruct (leading_flushes l) as [run rest]. intros [= <- <-]. by rewrite (IH run).
Qed.

Lemma watermark_snoc bs b : watermark (bs ++ [b]) = max_seq b.
Proof. unfold watermark. by rewrite last_snoc. Qed.

Lemma removelast_snoc {A} (l : list A) x : removelast (l ++ [x]) = l.
Proof. rewrite removelast_app by done. apply app_nil_r. Qed.

(** A message more in the history keeps every call's obligation. *)
Lemma call_ok_mono s s' b q : call_ok s b q ->
  (exists ms, sent s' = sent s ++ ms) -> next_seq s <= next_seq s' -> call_ok s' b q.
Proof.
  intros (Hb & Hq & Hm) [ms Hs] Hn. unfold call_ok. rewrite Hs, length_app.
  split_and!; [lia|lia|lia|]. intros j m Hj. rewrite lookup_app_l by lia. by apply Hm.
Qed.
Lemma task_ok_mono s s' t : task_ok s t ->
  (exists ms, sent s' = sent s ++ ms) -> next_seq s <= next_seq s' -> task_ok s' t.
Proof.
  intros Ht Hs Hn. destruct t; cbn in *; [by eapply call_ok_mono..| |];
    (destruct Ht as [Hc Hw]; split; [by eapply call_ok_mono|lia]).
Qed.
Lemma task_ok_same s s' t : task_ok s t -> sent s' = sent s -> next_seq s' = next_seq s -> task_ok s' t.
Proof.
  intros Ht Hs Hn. eapply task_ok_mono; [done| |by rewrite Hn]. exists []. by rewrite Hs, app_nil_r.
Qed.

(** The writer's part of a batch that has just been written. *)
Lemma inv_wrote s ph batch rest :
  Inv s -> (phase s = Receiving \/ phase s = PopSingle) -> pending_ops s = batch ++ rest ->
  (exists c m, ph = ToQueue (max_seq batch) c m) -> Inv (wrote batch rest ph s).
Proof.
  intros HI Hph Hp (c & m & ->). destruct HI as [Hf Hfl Hc Hcc Hw _ Ht Hn Hs].
  assert (published s = batches s /\ in_phase (phase s) = []) as [Hpub Hin].
  { unfold published. by destruct Hph as [-> | ->]. }
  split; unfold wrote, in_flight, published in *; cbn in *.
  - rewrite concat_app, Hf, Hp. cbn. by rewrite app_nil_r, <-!app_assoc.
  - rewrite drop_app_le, fmap_app, <-Hfl by done. cbn. by rewrite Hin, app_nil_r, <-!app_assoc.
  - rewrite length_app. cbn. lia.
  - by rewrite take_app_le.
  - rewrite removelast_snoc. by destruct Hph as [Hx|Hx]; rewrite Hx in Hw.
  - exists batch. by rewrite last_snoc.
  - intros t task Htask. apply Ht in Htask. by eapply task_ok_same.
  - done.
  - done.
Qed.

Lemma inv_start : Inv start.
Proof. by split. Qed.

Lemma inv_with_tasks ts s :
  Inv s -> (forall t task, ts !! t = Some task -> task_ok s task) -> Inv (with_tasks ts s).
Proof.
  by intros [] Hts; split.
Qed.

(** Replacing or dropping one task. *)
Lemma inv_retask s t task :
  Inv s -> task_ok s task -> Inv (with_tasks (<[t := task]> (tasks s)) s).
Proof.
  intros HI Hok. apply inv_with_tasks; [done|].
  intros t' task' [[<- <-]|[_ H]]%lookup_insert_Some; [done|]. by eapply inv_tasks.
Qed.
Lemma inv_untask s t : Inv s -> Inv (with_tasks (delete t (tasks s)) s).
Proof.
  intros HI. apply inv_with_tasks; [done|]. intros t' task' [_ H]%lookup_delete_Some.
  by eapply inv_tasks.
Qed.

Lemma inv_take t op s s' : Inv s -> exec (ETake t op) s = Some s' -> Inv s'.
Proof.
  intros HI He. cbn [exec] in He. destruct (tasks s !! t) eqn:Htt; [done|]. injection He as <-.
  destruct HI as [Hf Hfl Hc Hcc Hw Hph Ht Hn Hs]. split; try done; cbn; [|lia|].
  - intros t' task [[<- <-]|[_ Htask]]%lookup_insert_Some.
    + unfold task_ok, call_ok. cbn. split_and!; [lia|lia|lia|].
      intros j m _ Hm. by apply (Forall_lookup_1 _ _ _ _ Hs Hm).
    + apply Ht in Htask. eapply task_ok_mono; [done| |cbn; lia]. exists []. by rewrite app_nil_r.
  - eapply Forall_impl; [done|]. cbn. intros m ?. lia.
Qed.

Lemma inv_send t s s' : Inv s -> exec (ESend t) s = Some s' -> Inv s'.
Proof.
  intros HI He. cbn [exec] in He. destruct (tasks s !! t) as [[b q op| | |]|] eqn:Htt; try done.
  destruct (_ <? _)%nat; [|done]. injection He as <-.
  pose proof (inv_tasks _ HI _ _ Htt) as Hok. cbn in Hok.
  destruct HI as [Hf Hfl Hc Hcc Hw Hph Ht Hn Hs]. split; try done; cbn.
  - rewrite Hf. by rewrite <-!app_assoc.
  - assert (forall task, task_ok s task -> forall ts, task_ok (mkSys (next_seq s) ts
      (inbox s ++ [(q, op)]) (pending_ops s) (phase s) (completed s) (cascade_inbox s)
      (cascading s) (cascade_completed s) (sent s ++ [(q, op)]) (batches s) (cascaded s)) task)
      as Hmono.
    { intros task Htask ts. eapply task_ok_mono; [done|by eexists|cbn; lia]. }
    intros t' task. destruct (is_barrier op).
    + intros [[<- <-]|[_ H]]%lookup_insert_Some; apply Hmono; [done|by eapply Ht].
    + intros [_ H]%lookup_delete_Some. apply Hmono. by eapply Ht.
  - apply Forall_app. split; [done|]. apply Forall_singleton. cbn. destruct Hok as (_ & ? & _). lia.
Qed.

Lemma inv_tasks_step e s s' : Inv s -> exec e s = Some s' ->
  match e with EReadSeq _ | ECheckWriter _ | ECheckCascade _ | EDrop _ => Inv s' | _ => True end.
Proof.
  intros HI He. destruct e as [t op|t|t|t|t|t| | | | | | |]; try done; cbn [exec] in He;
    destruct (tasks s !! t) as [task|] eqn:Htt; try done;
    pose proof (inv_tasks _ HI _ _ Htt) as Hok.
  - destruct task; try done. injection He as <-. apply inv_retask; [done|]. cbn in *.
    destruct Hok as (? & ? & ?). split; [done|lia].
  - destruct task; try done. destruct (_ <=? _); [|done]. injection He as <-. by apply inv_retask.
  - destruct task; try done. destruct (_ <=? _); injection He as <-; [by apply inv_untask|by apply inv_retask].
  - injection He as <-. by apply inv_untask.
Qed.

(** The writer's and the cascade's own steps keep the calls as they are. *)
Ltac unchanged Ht := unfold in_flight, published in *; cbn in *;
  try (let t := fresh in let task := fresh in let H := fresh in
       intros t task H; apply Ht in H; by eapply task_ok_same); try done.

Lemma inv_writer_step e s s' : Inv s -> exec e s = Some s' ->
  match e with ERecv | EMerge | EPop | EQueue | EComplete => Inv s' | _ => True end.
Proof.
  intros HI He. pose proof HI as [Hf Hfl Hc Hcc Hw Hph Ht Hn Hs]. destruct e; try done; cbn [exec] in He.
  - destruct (phase s) eqn:Hp; try done. destruct (inbox s) as [|m rest] eqn:Hi; [done|].
    injection He as <-. split; unchanged Ht; rewrite ?Hp in *; try done.
    by rewrite Hf, <-!app_assoc.
  - destruct (phase s) eqn:Hp; try done. destruct (inbox s) eqn:Hi; [|done].
    destruct (pending_ops s) as [|m l] eqn:Hl; [done|].
    destruct (leading_flushes (m :: l)) as [[|m' r] rest] eqn:Hlead; injection He as <-.
    + split; unchanged Ht; rewrite ?Hp in *; try done. by rewrite Hf, Hl, Hi.
    + apply leading_flushes_app in Hlead. apply inv_wrote; try done; [by left|by rewrite Hl|by eexists _, _].
  - destruct (phase s) eqn:Hp; try done. destruct (pending_ops s) as [|[q op] rest] eqn:Hl; injection He as <-.
    + split; unchanged Ht; rewrite ?Hp in *; try done. by rewrite Hf, Hl.
    + apply inv_wrote; try done; [by right|].
      eexists _, _. cbn. by rewrite N.max_0_r.
  - destruct (phase s) as [| |q c m|q m] eqn:Hp; try done. destruct (_ <? _)%nat; [|done].
    injection He as <-. split; unchanged Ht; rewrite ?Hp in *; try done.
    rewrite <-Hfl. by rewrite fmap_app, <-!app_assoc.
  - destruct (phase s) as [| |q c m|q m] eqn:Hp; try done. injection He as <-.
    destruct Hph as (b & Hb & <-). apply last_Some in Hb as [bs Hb].
    split; unchanged Ht; rewrite ?Hp in *; try (by destruct m).
    destruct m; by rewrite Hb, watermark_snoc.
Qed.

Lemma inv_cascade_step e s s' : Inv s -> exec e s = Some s' ->
  match e with ECascadeStart | ECascadeDone => Inv s' | _ => True end.
Proof.
  intros HI He. pose proof HI as [Hf Hfl Hc Hcc Hw Hph Ht Hn Hs]. destruct e; try done; cbn [exec] in He.
  - destruct (cascading s) eqn:Hca; [done|]. destruct (cascade_inbox s) as [|e rest] eqn:Hi; [done|].
    injection He as <-. split; unchanged Ht. by rewrite <-Hfl, Hca, Hi.
  - destruct (cascading s) as [[q c]|] eqn:Hca; [|done]. injection He as <-.
    unfold in_flight in Hfl. rewrite Hca in Hfl. cbn in Hfl.
    destruct (drop (cascaded s) (batches s)) as [|b bs] eqn:Hd; [done|]. cbn in Hfl.
    injection Hfl as Hq Hfl.
    assert (batches s !! cascaded s = Some b) as Hb.
    { rewrite <-(Nat.add_0_r (cascaded s)), <-lookup_drop, Hd. done. }
    assert (drop (S (cascaded s)) (batches s) = bs) as Hd'.
    { by rewrite <-Nat.add_1_r, <-drop_drop, Hd. }
    split; unchanged Ht; [by rewrite Hd'| |].
    + apply lookup_lt_Some in Hb. lia.
    + by rewrite (take_S_r _ _ _ Hb), watermark_snoc.
Qed.

Lemma inv_exec e s s' : Inv s -> exec e s = Some s' -> Inv s'.
Proof.
  intros HI He. destruct e;
    first [by eapply inv_take|by eapply inv_send|by apply (inv_tasks_step _ _ _ HI He)
          |by apply (inv_writer_step _ _ _ HI He)|by apply (inv_cascade_step _ _ _ HI He)].
Qed.

Lemma inv_reachable s : reachable_sys s -> Inv s.
Proof.
  intros [es Hr]. revert Hr. generalize inv_start. generalize start.
  induction es as [|e es IH]; cbn [run]; intros s0 HI Hr; [by injection Hr as <-|].
  apply bind_Some in Hr as (s1 & He & Hr). eapply IH; [|done]. by eapply inv_exec.
Qed.

(** ** Draining: the two tasks finish whatever they are given *)
Definition is_work (e : Event) : bool :=
  match e with
  | ERecv | EMerge | EPop | EQueue | EComplete | ECascadeStart | ECascadeDone => true
  | _ => false
  end.
Definition idle (s : Sys) : Prop :=
  inbox s = [] /\ pending_ops s = [] /\ phase s = Receiving /\ cascade_inbox s = [] /\
  cascading s = None.

(** Work left: every step of the two tasks makes it smaller. *)
Definition work_left (s : Sys) : nat :=
  9 * length (inbox s) + 6 * length (pending_ops s)
  + match phase s with
    | Receiving => if is_empty (pending_ops s) then 0 else 2
    | PopSingle => 1
    | ToQueue _ _ _ => 6
    | ToComplete _ _ => 3
    end
  + 2 * length (cascade_inbox s) + (if cascading s then 1 else 0).

Lemma work_decreases e s s' : is_work e = true -> exec e s = Some s' ->
  (work_left s' < work_left s)%nat.
Proof.
  intros Hw He. unfold work_left. destruct e; try done; cbn [exec] in He.
  - destruct (phase s) eqn:Hp; try done. destruct (inbox s) as [|m l] eqn:Hi; [done|].
    injection He as <-. cbn. rewrite ?Hp, length_app.
    destruct (pending_ops s); cbn; lia.
  - destruct (phase s) eqn:Hp; try done. destruct (inbox s) eqn:Hi; [|done].
    destruct (pending_ops s) as [|m l] eqn:Hl; [done|].
    destruct (leading_flushes (m :: l)) as [[|m' r] rest] eqn:Hlead; injection He as <-; cbn.
    + rewrite ?Hi, ?Hl. cbn. lia.
    + apply leading_flushes_app in Hlead. apply (f_equal length) in Hlead.
      rewrite length_app in Hlead. cbn in Hlead. rewrite ?Hi. cbn. cbn in Hlead. lia.
  - destruct (phase s) eqn:Hp; try done.
    destruct (pending_ops s) as [|[q op] rest] eqn:Hl; injection He as <-; cbn; rewrite ?Hl; cbn; lia.
  - destruct (phase s) as [| |q c m|q m] eqn:Hp; try done. destruct (_ <? _)%nat; [|done].
    injection He as <-. cbn. rewrite length_app. cbn. lia.
  - destruct (phase s) as [| |q c m|q m] eqn:Hp; try done. injection He as <-. cbn.
    destruct m; [lia|]. destruct (pending_ops s); cbn; lia.
  - destruct (cascading s); [done|]. destruct (cascade_inbox s); [done|]. injection He as <-. cbn. lia.
  - destruct (cascading s) as [[q c]|]; [|done]. injection He as <-. cbn. lia.
Qed.

Lemma work_enabled s : idle s \/ exists e s', is_work e = true /\ exec e s = Some s'.
Proof.
  destruct (cascading s) as [[q c]|] eqn:Hca.
  { right. exists ECascadeDone. cbn. rewrite Hca. eauto. }
  destruct (cascade_inbox s) as [|e l] eqn:Hci; [|right; exists ECascadeStart; cbn; rewrite Hca, Hci; eauto].
  destruct (phase s) as [| |q c m|q m] eqn:Hp.
  - destruct (inbox s) as [|m l] eqn:Hi; [|right; exists ERecv; cbn; rewrite Hp, Hi; eauto].
    destruct (pending_ops s) as [|m l] eqn:Hl; [by left|].
    right. exists EMerge. cbn [exec]. rewrite Hp, Hi, Hl.
    destruct (leading_flushes (m :: l)) as [[|] ?]; eauto.
  - right. exists EPop. cbn. rewrite Hp. destruct (pending_ops s) as [|[q op] l]; eauto.
  - right. exists EQueue. cbn [exec]. rewrite Hp, Hci. cbn. eauto.
  - right. exists EComplete. cbn. rewrite Hp. eauto.
Qed.

Lemma run_app es es' s : run (es ++ es') s = run es s ≫= run es'.
Proof.
  revert s. induction es as [|e es IH]; intros s; [done|]. cbn. destruct (exec e s); [apply IH|done].
Qed.
Lemma run_inv es s s' : Inv s -> run es s = Some s' -> Inv s'.
Proof.
  revert s. induction es as [|e es IH]; cbn; intros s HI Hr; [by injection Hr as <-|].
  apply bind_Some in Hr as (s1 & He & Hr). eapply IH; [|done]. by eapply inv_exec.
Qed.

(** The work steps touch neither the calls in progress nor the history of the inbox. *)
Lemma work_keeps e s s' : is_work e = true -> exec e s = Some s' ->
  tasks s' = tasks s /\ sent s' = sent s /\ next_seq s' = next_seq s.
Proof.
  intros Hw He. destruct e; try done; cbn [exec] in He; repeat (case_match; try done);
    injection He as <-; done.
Qed.

Lemma work_bound es s s' : Forall (fun e => is_work e = true) es -> run es s = Some s' ->
  (length es <= work_left s)%nat.
Proof.
  revert s. induction es as [|e es IH]; intros s Hall Hr; [cbn; lia|].
  apply Forall_cons in Hall as [He Hall]. cbn [run] in Hr.
  destruct (exec e s) as [s1|] eqn:Hx; [|done]. cbn [mbind option_bind] in Hr.
  pose proof (work_decreases e s s1 He Hx). specialize (IH s1 Hall Hr). cbn [length]. lia.
Qed.

Lemma drain s : exists es s', Forall (fun e => is_work e = true) es /\ run es s = Some s' /\ idle s' /\
  tasks s' = tasks s /\ sent s' = sent s /\ next_seq s' = next_seq s.
Proof.
  remember (work_left s) as n eqn:Hn. revert s Hn.
  induction (lt_wf n) as [n _ IH]; intros s ->.
  destruct (work_enabled s) as [Hi|(e & s1 & Hw & He)]; [by exists [], s|].
  destruct (IH _ (work_decreases e s s1 Hw He) s1 eq_refl) as (es & s' & Hall & Hr & Hi & H1 & H2 & H3).
  apply (work_keeps _ _ _ Hw) in He as Hk. destruct Hk as (K1 & K2 & K3).
  exists (e :: es), s'. cbn. rewrite He. cbn. split_and!; try done; try congruence. by constructor.
Qed.

(** In an idle state everything sent has been written and followed up, and the
    watermarks are the last batch's. *)
Lemma idle_done s : Inv s -> idle s ->
  concat (batches s) = sent s /\ cascaded s = length (batches s) /\
  completed s = watermark (batches s) /\ cascade_completed s = watermark (batches s).
Proof.
  intros [Hf Hfl Hc Hcc Hw _ _ _ _] (Hi & Hp & Hph & Hci & Hca).
  unfold in_flight, published in *. rewrite Hi, Hp, Hph, Hci, Hca in *. cbn in *.
  assert (cascaded s = length (batches s)) as Heq.
  { destruct (drop (cascaded s) (batches s)) as [|b bs] eqn:Hd; [|done].
    apply (f_equal length) in Hd. rewrite length_drop in Hd. cbn in Hd. lia. }
  split_and!; [by rewrite Hf, app_nil_r|done|done|]. by rewrite Hcc, Heq, firstn_all.
Qed.

(** ** Theorems *)

Lemma max_seq_reached (b : list Msg) q : 0 < q -> q <= max_seq b -> exists m, m ∈ b /\ q <= m.1.
Proof.
  intros Hq. induction b as [|x b IH]; intros Hmax; [change (q <= 0) in Hmax; lia|].
  change (q <= N.max x.1 (max_seq b)) in Hmax.
  destruct (decide (q <= x.1)); [exists x; split; [left|done]|].
  destruct IH as (m & ? & ?); [lia|]. exists m. split; [by right|done].
Qed.

(** A barrier's last look succeeds only when the messages it found in the inbox's
    history are among those followed up. *)
Lemma barrier_waited s s' t before seq target :
  reachable_sys s -> tasks s !! t = Some (HalfChecked before seq target) ->
  exec (ECheckCascade t) s = Some s' -> tasks s' !! t = None ->
  s' = with_tasks (delete t (tasks s)) s /\ (before <= length (sent s))%nat /\
  (before <= length (concat (take (cascaded s) (batches s))))%nat /\
  exists ms, sent s = concat (take (cascaded s) (batches s)) ++ ms.
Proof.
  intros Hreach Ht He Hgone. apply inv_reachable in Hreach as HI.
  destruct (inv_tasks _ HI _ _ Ht) as [(Hb & Hq & Hm) Hw].
  cbn [exec] in He. rewrite Ht in He. destruct (target <=? cascade_completed s) eqn:Hle.
  2: { injection He as <-. cbn in Hgone. by rewrite lookup_insert_eq in Hgone. }
  injection He as <-. split; [done|]. split; [done|]. to_prop.
  destruct HI as [Hf _ Hc Hcc _ _ _ _ _].
  set (done_ := take (cascaded s) (batches s)) in *.
  assert (exists ms, sent s = concat done_ ++ ms) as [ms Hsent].
  { exists (concat (drop (cascaded s) (batches s)) ++ pending_ops s ++ inbox s).
    unfold done_. by rewrite app_assoc, <-concat_app, take_drop. }
  split; [|by exists ms]. apply Nat.nlt_ge. intros Hlt. rewrite Hcc in Hle. unfold watermark in Hle.
  destruct (last done_) as [b|] eqn:Hlast; [change (target <= max_seq b) in Hle|cbn in Hle; lia].
  apply last_Some in Hlast as [l' Hl'].
  assert (exists m, m ∈ b /\ seq <= m.1) as (m & Hin & Hseq).
  { apply max_seq_reached; lia. }
  assert (m ∈ concat done_) as Hmc.
  { rewrite Hl', concat_app. cbn. rewrite app_nil_r. apply elem_of_app. by right. }
  apply list_elem_of_lookup in Hmc as [j Hj]. apply lookup_lt_Some in Hj as Hjl.
  specialize (Hm j m). rewrite Hsent, lookup_app_l in Hm by done. specialize (Hm ltac:(lia) Hj). lia.
Qed.

(** A barrier that returns has waited for enough: every message that was in the
    inbox's history when the call began is in a batch that has been written and
    whose follow-up has run. *)
Theorem barrier_covers s s' t before seq target :
  reachable_sys s -> tasks s !! t = Some (HalfChecked before seq target) ->
  exec (ECheckCascade t) s = Some s' -> tasks s' !! t = None ->
  (before <= length (sent s'))%nat /\
  forall j m, (j < before)%nat -> sent s' !! j = Some m ->
    concat (take (cascaded s') (batches s')) !! j = Some m.
Proof.
  intros Hreach Ht He Hgone.
  destruct (barrier_waited _ _ _ _ _ _ Hreach Ht He Hgone) as (-> & Hb & Hlen & ms & Hsent). cbn. split; [done|].
  intros j m Hj Hsm. by rewrite Hsent, lookup_app_l in Hsm by lia.
Qed.

(** From any reachable state the writer and the cascade alone reach an idle one in
    which everything that was sent has been written, in order, and followed up. *)
Theorem writer_drains s : reachable_sys s ->
  (forall es s', Forall (fun e => is_work e = true) es -> run es s = Some s' ->
    (length es <= work_left s)%nat) /\
  exists es s', Forall (fun e => is_work e = true) es /\ run es s = Some s' /\ idle s' /\
    sent s' = sent s /\ concat (batches s') = sent s /\ cascaded s' = length (batches s').
Proof.
  intros Hreach. split; [intros es s'; apply work_bound|]. destruct (drain s) as (es & s' & Hall & Hr & Hi & Ht & Hs & Hn).
  exists es, s'. pose proof (run_inv _ _ _ (inv_reachable _ Hreach) Hr) as HI'.
  destruct (idle_done _ HI' Hi) as (Hc & Hn' & _). split_and!; try done. by rewrite Hc, Hs.
Qed.

(** Messages entered the inbox in the order their numbers were drawn, and none
    is missing. *)
Definition in_order (s : Sys) : Prop :=
  forall j m, sent s !! j = Some m -> m.1 = N.of_nat (S j).
Definition all_arrived (s : Sys) : Prop := next_seq s = N.of_nat (S (length (sent s))).

Lemma max_seq_snoc (b : list Msg) m : max_seq (b ++ [m]) = N.max (max_seq b) m.1.
Proof.
  induction b as [|x b IH]; [apply N.max_comm|].
  change (N.max x.1 (max_seq (b ++ [m])) = N.max (N.max x.1 (max_seq b)) m.1). rewrite IH. lia.
Qed.

(** Written batches are not empty. *)
Definition no_empty_batch (s : Sys) : Prop := Forall (fun b => b <> []) (batches s).

Lemma no_empty_exec e s s' : no_empty_batch s -> exec e s = Some s' -> no_empty_batch s'.
Proof.
  unfold no_empty_batch. intros Hb He. destruct e; cbn [exec] in He; repeat (case_match; try done);
    injection He as <-; try done; cbn; (apply Forall_app; split; [done|by apply Forall_singleton]).
Qed.

Lemma max_seq_numbered base (l : list Msg) :
  (forall j m, l !! j = Some m -> m.1 = N.of_nat (base + S j)) ->
  l <> [] -> max_seq l = N.of_nat (base + length l).
Proof.
  induction l as [|m l IH] using rev_ind; intros Hl Hne; [done|].
  assert (m.1 = N.of_nat (base + S (length l))) as Hm.
  { apply Hl. rewrite lookup_app_r, Nat.sub_diag by lia. done. }
  rewrite max_seq_snoc, Hm, length_app. cbn [length].
  destruct l as [|x l]; [change (max_seq []) with 0; cbn [length]; lia|].
  rewrite IH; [lia| |done]. intros j m' Hj. apply Hl. by apply lookup_app_l_Some.
Qed.

Lemma in_order_watermark s :
  Inv s -> idle s -> no_empty_batch s -> in_order s ->
  watermark (batches s) = N.of_nat (length (sent s)).
Proof.
  intros HI Hi Hne Ho. destruct (idle_done _ HI Hi) as (Hc & _).
  unfold watermark. destruct (last (batches s)) as [b|] eqn:Hl.
  - apply last_Some in Hl as [bs Hb]. rewrite Hb, concat_app in Hc. cbn in Hc.
    rewrite app_nil_r in Hc. unfold no_empty_batch in Hne. rewrite Hb in Hne.
    apply Forall_app in Hne as [_ [Hb' _]%Forall_cons].
    change (max_seq b = N.of_nat (length (sent s))).
    rewrite <-Hc, length_app. apply max_seq_numbered; [|exact Hb']. intros j m Hj.
    rewrite (Ho (length (concat bs) + j)%nat m); [f_equal; lia|].
    rewrite <-Hc, lookup_app_r by lia.
    assert (length (concat bs) + j - length (concat bs) = j)%nat as -> by lia. done.
  - apply last_None in Hl. rewrite Hl in Hc. by rewrite <-Hc.
Qed.

Lemma no_empty_run es s s' : no_empty_batch s -> run es s = Some s' -> no_empty_batch s'.
Proof.
  revert s. induction es as [|e es IH]; cbn; intros s Hb Hr; [by injection Hr as <-|].
  apply bind_Some in Hr as (s1 & He & Hr). eapply IH; [|done]. by eapply no_empty_exec.
Qed.

(** When messages enter the inbox in the order of their numbers and all drawn
    numbers have arrived, a waiting barrier returns without anything more being
    submitted. *)
Theorem barrier_returns_in_order s t before seq target :
  reachable_sys s -> in_order s -> all_arrived s ->
  tasks s !! t = Some (Waiting before seq target) ->
  exists es s', Forall (fun e => is_work e = true \/ e = ECheckWriter t \/ e = ECheckCascade t) es /\
    run es s = Some s' /\ tasks s' !! t = None.
Proof.
  intros Hreach Ho Ha Ht. destruct (drain s) as (es & s1 & Hall & Hr & Hi & Hts & Hsent & Hn).
  pose proof (run_inv _ _ _ (inv_reachable _ Hreach) Hr) as HI1.
  assert (no_empty_batch s1) as Hne.
  { destruct Hreach as [es0 Hr0]. eapply (no_empty_run (es0 ++ es) start); [by constructor|].
    by rewrite run_app, Hr0. }
  assert (in_order s1) as Ho1 by (unfold in_order; by rewrite Hsent).
  pose proof (in_order_watermark _ HI1 Hi Hne Ho1) as Hw. rewrite Hsent in Hw.
  destruct (idle_done _ HI1 Hi) as (_ & _ & Hc & Hcc). rewrite Hw in Hc, Hcc.
  assert (target <= N.of_nat (length (sent s))) as Hle.
  { destruct (inv_tasks _ (inv_reachable _ Hreach) _ _ Ht) as [_ Htar].
    unfold all_arrived in Ha. lia. }
  apply N.leb_le in Hle.
  set (s2 := with_tasks (<[t := HalfChecked before seq target]> (tasks s1)) s1).
  exists (es ++ [ECheckWriter t; ECheckCascade t]), (with_tasks (delete t (tasks s2)) s2).
  split_and!.
  - apply Forall_app. split; [eapply Forall_impl; [done|]; naive_solver|].
    apply Forall_cons. split; [by right; left|]. apply Forall_singleton. by right; right.
  - rewrite run_app, Hr. cbn [mbind option_bind run exec]. rewrite Hts, Ht, Hc, Hle.
    cbn [mbind option_bind exec tasks with_tasks]. rewrite lookup_insert_eq.
    cbn [cascade_completed with_tasks]. rewrite Hcc, Hle. unfold s2. by rewrite Hts.
  - apply lookup_delete_eq.
Qed.

(** Two submitters whose messages overtake each other, one of them a barrier. *)
Definition overtaking : list Event :=
  [ETake 2 Barrier; ETake 1 UpdateTree; ESend 1; ESend 2; EReadSeq 2;
   ERecv; ERecv; EMerge; EPop; EQueue; EComplete; EMerge; EPop; EQueue; EComplete;
   ECascadeStart; ECascadeDone; ECascadeStart; ECascadeDone].

(** Where they leave the server. *)
Definition hung : Sys :=
  mkSys 3 {[ 2%nat := Waiting 0 1 2 ]} [] [] Receiving 1 [] None 1
    [(2, UpdateTree); (1, Barrier)] [[(2, UpdateTree)]; [(1, Barrier)]] 2.

(** The watermarks are overwritten, not raised.  When two submitters draw numbers
    in one order and enqueue in the other, the last store is the smaller number:
    both tasks are idle, everything is written and followed up, and the barrier
    still waits for the larger one.  Nothing but another submission, or dropping
    the barrier, can ever happen. *)
Theorem barrier_can_hang :
  run overtaking start = Some hung /\ idle hung /\ all_arrived hung /\
  cascaded hung = length (batches hung) /\ concat (batches hung) = sent hung /\
  tasks hung !! 2%nat = Some (Waiting 0 1 2) /\
  forall e s', exec e hung = Some s' -> (exists t op, e = ETake t op) \/ e = EDrop 2.
Proof.
  split; [vm_compute; reflexivity|]. split_and!; try done.
  intros e s' He.
  assert (forall t task, tasks hung !! t = Some task -> t = 2%nat /\ task = Waiting 0 1 2) as Hts.
  { intros t task Ht. change (tasks hung) with ({[ 2%nat := Waiting 0 1 2 ]} : gmap nat Task) in Ht.
    apply lookup_singleton_Some in Ht as [<- <-]. done. }
  destruct e as [t op|t|t|t|t|t| | | | | | |]; try done; [by eauto|..]; cbn [exec] in He;
    (destruct (tasks hung !! t) as [task|] eqn:Ht; [|done]); apply Hts in Ht as [-> ->]; try done.
  by right.
Qed.

(** A submitter that drew its number before a barrier and enqueues after it. *)
Definition passed_over : list Event :=
  [ETake 1 UpdateTree; ETake 2 Barrier; ESend 2; EReadSeq 2; ERecv; EMerge; EPop; EQueue;
   EComplete; ECascadeStart; ECascadeDone; ECheckWriter 2; ECheckCascade 2].

(** A barrier does not wait for every operation with a smaller number: here it has
    returned, with both watermarks past 1, and operation 1 is not in the inbox yet. *)
Theorem barrier_passes_smaller_seq : exists s,
  run passed_over start = Some s /\ tasks s !! 2%nat = None /\
  tasks s !! 1%nat = Some (Sending 0 1 UpdateTree) /\
  1 <= completed s /\ 1 <= cascade_completed s /\ sent s = [(2, Barrier)].
Proof. eexists. split; [vm_compute; reflexivity|]. vm_compute. by split_and!. Qed.

(** ** Merging flushes *)
Section Merging.
Context {F : Fs}.

Lemma flush_inserts_app {Fa : Fates} now draws a b l :
  flush_inserts now draws (a ++ b) l = flush_inserts now draws a l ≫= flush_inserts now draws b.
Proof.
  revert l. induction a as [|d a IH]; intros l; [done|]. cbn [app flush_inserts].
  destruct (flush_insert _ _ _ _) as [l'|l']; [apply IH|done].
Qed.

Lemma flush_txn_healthy record payload old h ix :
  exists ix', flush_txn (Fa:=all_healthy) record payload old h ix = Ok ix'.
Proof.
  unfold flush_txn, remove_from_old_group. cbn [fate all_healthy redb fault healthy mbind result_bind].
  destruct old as [o|]; [destruct (negb _); [destruct (is_empty _)|]|];
    cbn [mbind result_bind]; destruct (bool_decide _); cbn [mbind result_bind]; by eexists.
Qed.

Lemma flush_insert_healthy now fresh d l :
  exists l', flush_insert (Fa:=all_healthy) now fresh d l = Ok l'.
Proof.
  unfold flush_insert. destruct (get_asset_id_by_path _ _) as [r ix].
  destruct (default None (result_ok r)) as [i|].
  - destruct (get_asset_by_id i ix) as [r' ix'].
    edestruct flush_txn_healthy as [ix2 Hx]. rewrite Hx. by eexists.
  - edestruct flush_txn_healthy as [ix2 Hx]. rewrite Hx. by eexists.
Qed.

(** The writer merges a run of flushes into one: all insertions, then all
    removals.  For insertions alone that is the run itself; but a file removed by
    one flush and scanned again by the next is inserted first and then removed,
    and ends up not indexed, where the flushes in turn index it. *)
Theorem merging_reorders now draws d i r l :
  consistent (index l) -> flush_path d <> [] ->
  by_path (index l) !! flush_path d = Some i -> by_id (index l) !! i = Some (Some r) ->
  content_hash r = Some (hash d) ->
  (exists l1, merged_flush (Fa:=all_healthy) now draws [Flush [] [d]; Flush [d] []] l = Ok l1 /\
     by_path (index l1) !! flush_path d = None) /\
  (exists l2 j, one_by_one (Fa:=all_healthy) now draws [Flush [] [d]; Flush [d] []] l = Ok l2 /\
     by_path (index l2) !! flush_path d = Some j).
Proof.
  intros Hok Hne Hp Hi Hh. split.
  - unfold merged_flush, flush_tables. cbn [inserts_of removes_of mbind list_bind app flush_inserts].
    destruct (flush_insert_healthy now (draws (ticks (index l))) d l) as [l1 Hl1].
    pose proof (flush_insert_cases (Fa:=all_healthy) healthy_reads now (draws (ticks (index l))) d l Hok) as [Hc _].
    rewrite Hl1 in Hc |- *. cbn [mbind result_bind flush_removes]. destruct Hc as [Hix _].
    assert (id_for (draws (ticks (index l))) d (index l) = i) as Hid by (unfold id_for; by rewrite Hp).
    rewrite Hid in Hix.
    assert (consistent (index l1)) as Hok1.
    { rewrite Hix. cbn [by_id by_path dupes payloads].
      apply (tables_insert _ _ _ _ i (flushed_record now i d) _ (hash d)); try done.
      - by apply (ok_rows _ _ _ _ Hok) in Hi as [? _].
      - cbn [rec_path flushed_record]. rewrite Hp. split; [done|]. exists r.
        split; [done|]. cbn. by rewrite Hi. }
    rewrite (flush_remove_healthy d l1 Hok1 Hne). eexists. split; [done|]. cbn [index].
    assert (by_path (index l1) !! flush_path d = Some i) as ->.
    { rewrite Hix. apply lookup_insert_eq. }
    apply lookup_delete_eq.
  - cbn [one_by_one handle_op]. unfold flush_tables. cbn [flush_inserts flush_removes mbind result_bind].
    rewrite (flush_remove_healthy d l Hok Hne), Hp. cbn [mbind result_bind].
    set (l' := mkLib _ _).
    assert (consistent (index l')) as Hok'.
    { assert (rec_path r = flush_path d) as Hrp.
      { apply (ok_paths _ _ _ _ Hok) in Hp as (r' & Hi' & <-). congruence. }
      pose proof (tables_remove _ _ _ _ i r (hash d) Hok Hi Hh) as Hx. by rewrite Hrp in Hx. }
    destruct (flush_insert_healthy now (draws (ticks (index l'))) d l') as [l2 Hl2].
    pose proof (flush_insert_cases (Fa:=all_healthy) healthy_reads now (draws (ticks (index l'))) d l' Hok') as [Hc _].
    rewrite Hl2 in Hc |- *. destruct Hc as [Hix _]. cbn [mbind result_bind].
    eexists l2, _. split; [done|]. rewrite Hix. apply lookup_insert_eq.
Qed.

Lemma merged_inserts_exact {Fa : Fates} now draws (runs : list (list AbstractData)) l :
  merged_flush now draws ((fun ins => Flush ins []) <$> runs) l =
  one_by_one now draws ((fun ins => Flush ins []) <$> runs) l.
Proof.
  unfold merged_flush, flush_tables.
  assert (removes_of ((fun ins => Flush ins []) <$> runs) = []) as ->.
  { induction runs as [|ins runs IH]; [done|]. exact IH. }
  revert l. induction runs as [|ins runs IH]; intros l; [done|].
  change (inserts_of _) with (ins ++ inserts_of ((fun ins => Flush ins []) <$> runs)).
  rewrite flush_inserts_app. cbn [fmap list_fmap one_by_one handle_op]. unfold flush_tables.
  destruct (flush_inserts now draws ins l) as [l'|l']; cbn [mbind result_bind flush_removes]; [|done].
  apply IH.
Qed.
End Merging.

(** ** Witnesses *)
Import (hints) PathWitness.
Import IndexWitness.

(** An update, then a barrier, up to the moment before the barrier's last look. *)
Definition about_to_return : list Event :=
  [ETake 1 UpdateTree; ESend 1; ETake 2 Barrier; ESend 2; EReadSeq 2;
   ERecv; ERecv; EMerge; EPop; EQueue; EComplete; EMerge; EPop; EQueue; EComplete;
   ECascadeStart; ECascadeDone; ECascadeStart; ECascadeDone; ECheckWriter 2].
Definition state_after (es : list Event) : Sys := default start (run es start).

Lemma state_after_reachable es : is_some (run es start) = true -> reachable_sys (state_after es).
Proof.
  unfold state_after, reachable_sys. intros H. exists es. by destruct (run es start).
Qed.

Lemma barrier_covers_witness :
  exists s', exec (ECheckCascade 2) (state_after about_to_return) = Some s' /\
    forall j m, (j < 1)%nat -> sent s' !! j = Some m ->
      concat (take (cascaded s') (batches s')) !! j = Some m.
Proof.
  destruct (exec (ECheckCascade 2) (state_after about_to_return)) as [s'|] eqn:He;
    [|by vm_compute in He].
  exists s'. split; [reflexivity|].
  refine (proj2 (barrier_covers (state_after about_to_return) s' 2 1 2 2
    (state_after_reachable about_to_return _) _ He _)).
  - vm_compute. reflexivity.
  - vm_compute. reflexivity.
  - vm_compute in He. injection He as <-. vm_compute. reflexivity.
Defined.

(** Two messages on their way. *)
Definition busy : list Event := [ETake 1 UpdateTree; ESend 1; ETake 2 Barrier; ESend 2; EReadSeq 2].

Lemma writer_drains_witness :
  exists es s', run es (state_after busy) = Some s' /\ idle s' /\ (length es <= 18)%nat /\
    concat (batches s') = [(1, UpdateTree); (2, Barrier)].
Proof.
  destruct (writer_drains (state_after busy) (state_after_reachable busy ltac:(by vm_compute)))
    as (Hb & es & s' & Hall & Hr & Hi & _ & Hc & _).
  exists es, s'. split; [exact Hr|]. split; [exact Hi|].
  split; [exact (Hb es s' Hall Hr)|]. rewrite Hc. vm_compute. reflexivity.
Defined.

Lemma barrier_returns_in_order_witness :
  exists es s', run es (state_after busy) = Some s' /\ tasks s' !! 2%nat = None.
Proof.
  destruct (barrier_returns_in_order (state_after busy) 2 1 2 2
    (state_after_reachable busy ltac:(by vm_compute))) as (es & s' & _ & Hr & Ht).
  - intros [|[|j]] m Hm; vm_compute in Hm; [injection Hm as <-; reflexivity..|discriminate].
  - vm_compute. reflexivity.
  - vm_compute. reflexivity.
  - exists es, s'. split; [exact Hr|exact Ht].
Defined.

Lemma merging_reorders_witness :
  exists l1 l2 j,
    merged_flush (Fa:=all_healthy) 7 draws [Flush [] [a_photo "h1"]; Flush [a_photo "h1"] []] one = Ok l1 /\
    by_path (index l1) !! lit "/img/a.jpg" = None /\
    one_by_one (Fa:=all_healthy) 7 draws [Flush [] [a_photo "h1"]; Flush [a_photo "h1"] []] one = Ok l2 /\
    by_path (index l2) !! lit "/img/a.jpg" = Some j.
Proof.
  destruct (merging_reorders 7 draws (a_photo "h1") (lit "id1") (row "h1") one one_ok
    ltac:(discriminate) eq_refl eq_refl eq_refl) as [(l1 & H1 & H2) (l2 & j & H3 & H4)].
  exists l1, l2, j. split; [exact H1|]. split; [exact H2|]. split; [exact H3|exact H4].
Defined.
