(* ===== verification/Accounts.v ===== *)
(** * Accounts: the account handlers
      ([backend/src/auth/users.rs], [router/post/users_register.rs],
      [users_bootstrap.rs], [invites.rs], [router/put/users_*.rs],
      [router/get/users.rs], [self_profile.rs], [router/delete.rs])

    A handler is a step on the whole server state: the stores, the index and the
    throttles.  What one request sees of the outside (clock, disk faults,
    configuration, random source, client address) is its context.  Guards run
    before the handler, in the order of its parameters, and their answers are
    looked at in the order of the code.  A handler answers, fails with an
    [AppError], or panics. *)

From S2P Require Import Prelude Errors Redb Password UserStore Revocations Invites LoginThrottle.
From S2P Require Import Paths Formats Model MetadataRecord DirAlbum Tokens RouterAuth IndexStore.
From S2P Require Import DirAlbumStore.

(** The three schedules of the login throttle. *)
Record Schedules := mkSchedules {
  s_ip_short : N * N * N * N; s_ip_long : N * N * N * N; s_user_long : N * N * N * N
}.
#[export] Instance Schedules_eq_dec : EqDecision Schedules.
Proof. solve_decision. Defined.

Record Server := mkServer {
  user_store : Store;
  revoked : Table;
  invite_rows : Table;
  library : Library_;
  login_slot : option (Schedules * LoginThrottle);    (* LOGIN_THROTTLE *)
  last_sweep : N;                                     (* LAST_SWEEP *)
  guesses : LoginThrottle                             (* PASSWORD_THROTTLE *)
}.
Definition with_user_store st s :=
  mkServer st (revoked s) (invite_rows s) (library s) (login_slot s) (last_sweep s) (guesses s).
Definition with_revoked t s :=
  mkServer (user_store s) t (invite_rows s) (library s) (login_slot s) (last_sweep s) (guesses s).
Definition with_invites t s :=
  mkServer (user_store s) (revoked s) t (library s) (login_slot s) (last_sweep s) (guesses s).
Definition with_library l s :=
  mkServer (user_store s) (revoked s) (invite_rows s) l (login_slot s) (last_sweep s) (guesses s).
Definition with_login slot sweep s :=
  mkServer (user_store s) (revoked s) (invite_rows s) (library s) slot sweep (guesses s).
Definition with_guesses t s :=
  mkServer (user_store s) (revoked s) (invite_rows s) (library s) (login_slot s) (last_sweep s) t.

(** What one request sees of the outside. *)
Record Ctx := mkCtx {
  c_now : Z;                             (* the clock, milliseconds *)
  c_user_io : Redb;                      (* faults of the user store's disk *)
  c_index_io : Redb;                     (* faults of invites and revocations *)
  c_fates : Fates;                       (* faults of the index, per transaction *)
  c_secret : str;
  c_bootstrap : bool;                    (* --bootstrap-admin *)
  c_read_only : bool;
  c_roots : Config;
  c_policy : Policy;
  c_open_registration : bool;            (* allowRegistration *)
  c_schedules : Schedules;
  c_rate_limits : option str;            (* PICASU_RATE_LIMITS *)
  c_request : Request;
  c_ip : str;                            (* ThrottleClientIp *)
  c_rng : N;                             (* salt *)
  c_jti : str;                           (* Uuid::new_v4 *)
  c_random : result str (list N);        (* token bytes *)
  c_new_id : str;                        (* generate_random_hash *)
  c_mkdir : Path -> result str unit;     (* create_dir_all *)
  c_join : result str unit;              (* whether the blocking task ran *)
  c_refreshed : result str unit          (* whether the tree update ran *)
}.

(** ** Handlers: state, errors and panics *)
Inductive Stop := Failed (e : AppError) | Panicked.
Definition Api (A : Type) : Type := Server -> result Stop A * Server.
Definition pure {A} (a : A) : Api A := fun s => (Ok a, s).
Definition then_ {A B} (m : Api A) (k : A -> Api B) : Api B := fun s =>
  match m s with
  | (Ok a, s') => k a s'
  | (Err e, s') => (Err e, s')
  end.
Definition lift {A} (r : app_result A) : Api A := fun s => (map_err Failed r, s).
Definition raise {A} (k : ErrorKind) (msg : str) : Api A := lift (fail k msg).
(** A call that reads or writes the user store. *)
Definition on_users {A} (f : Store -> app_result A * Store) : Api A := fun s =>
  let '(r, st) := f (user_store s) in (map_err Failed r, with_user_store st s).
Definition peek_users {A} (f : Store -> A * Store) : Api A := fun s =>
  let '(a, st) := f (user_store s) in (Ok a, with_user_store st s).
Definition on_invites {A} (f : Table -> app_result A * Table) : Api A := fun s =>
  let '(r, t) := f (invite_rows s) in (map_err Failed r, with_invites t s).
Declare Scope api_scope.
Delimit Scope api_scope with api.
Notation "'let?' x ':=' m 'in' k" := (then_ m (fun x => k))
  (at level 200, x pattern, m at level 100, k at level 200) : api_scope.
Open Scope api_scope.

(** [spawn_blocking(..).await.or_raise(..)?] *)
Definition blocking {A} (c : Ctx) (m : Api A) : Api A :=
  let? _ := lift (or_raise Internal (lit "Failed to join blocking task") (c_join c)) in m.

Record UserSummary := mkSummary {
  sum_id : str; sum_admin : bool; sum_disabled : bool; sum_shares_enabled : bool
}.
(** [unwrap_or_default_record]. *)
Definition unwrap_or_default_record (o : option UserRecord) : UserRecord :=
  default (User.mkUser None false None 0 false true) o.

(** A directory as [read_dir] and [file_type] show it, to its full depth. *)
Inductive DirTree :=
| UnreadableDir
| Listing (entries : list DirEntry)
with DirEntry :=
| BadEntry                 (* the entry itself is an error *)
| SubDir (d : DirTree)
| RegularFile (path : str)
| OtherEntry.
Class Dirs := { read_dirs : Path -> DirTree }.

Section Accounts.
Context {Jc : JsonCodec} {Lh : LegacyHash} {Ca : Casing} {Cr : Crypto} {J : Jwt} {Tc : TokenCodec}.
Context {F : Fs} {K : Nfkc} {I : Infer} {D : Dirs} {Uc : Uppercase} {Sc : Sidecars}.

(** ** Guards *)
Definition view (c : Ctx) (s : Server) : World :=
  mkWorld (c_user_io c) (c_index_io c) (user_store s) (revoked s) (payloads (index (library s)))
    (fun i => (IndexStore.get_asset_by_id (Fa:=c_fates c) i (index (library s))).1)
    (c_secret c) (c_bootstrap c) (c_read_only c) (c_roots c).
Definition admin_claims (c : Ctx) (s : Server) : app_result ClaimsSession :=
  map_err snd (guard_admin (view c s) (c_now c) (c_request c)).
Definition user_claims (c : Ctx) (s : Server) : app_result ClaimsSession :=
  map_err snd (guard_user (view c s) (c_now c) (c_request c)).
Definition may_mutate (c : Ctx) (s : Server) : app_result unit :=
  map_err snd (guard_mutate (view c s)).

(** [rate_limits_disabled_from], and the throttles' clock: [None] when limits are
    off or the clock is before the epoch. *)
Definition rate_limits_disabled_from (env_value : option str) : bool :=
  bool_decide (env_value = Some (lit "false")).
Definition throttle_instant (c : Ctx) : option N :=
  if (0 <=? c_now c)%Z then Some (secs (c_now c)) else None.
Definition throttle_now (c : Ctx) : option N :=
  if rate_limits_disabled_from (c_rate_limits c) then None else throttle_instant c.
Definition clock (c : Ctx) : result str N :=
  ok_or (lit "second time provided was later than self") (throttle_instant c).

(** [GuardReauth] spends guess budget whatever the other guards say. *)
Definition reauth (c : Ctx) : Api (app_result ClaimsSession) := fun s =>
  let r := guard_reauth (weak_env (c_policy c)) (c_rng c) (view c s) (c_now c) (c_request c)
             (c_ip c) (throttle_now c) (guesses s) in
  (Ok (map_err snd (answer r)),
   with_guesses (budget r) (with_revoked (revoked_after r) (with_user_store (store_after r) s))).

Definition guarded {A} (r : Server -> app_result A) : Api A := fun s => (map_err Failed (r s), s).

Definition caller_identity (claims : ClaimsSession) : str * bool :=
  match role claims with RUser id admin => (id, admin) | RShare _ => ([], false) end.

(** ** Users ([users.rs]) *)
Definition read_user (c : Ctx) (id : str) : Api (option UserRecord) :=
  peek_users (UserDb.read (Rd:=c_user_io c) id).
Definition count_users (c : Ctx) : Api nat := peek_users (UserDb.count (Rd:=c_user_io c)).

(** The shape of the three role setters: an existing user, then the store. *)
Definition set_role (c : Ctx) (id : str) (f : str -> Store -> app_result bool * Store) : Api bool :=
  let? target := lift (validate_user_id id) in
  let? existing := read_user c target in
  match existing with
  | None => lift (unknown_user target)
  | Some _ => on_users (f target)
  end.
Definition set_admin_role (c : Ctx) (id : str) (admin : bool) : Api bool :=
  set_role c id (fun target => UserDb.set_admin (Rd:=c_user_io c) target admin).
Definition set_disabled_role (c : Ctx) (id : str) (disabled : bool) : Api bool :=
  set_role c id (fun target => UserDb.set_disabled (Rd:=c_user_io c) target disabled).
Definition set_sharing_enabled_role (c : Ctx) (id : str) (enabled : bool) : Api bool :=
  set_role c id (fun target => UserDb.set_sharing_enabled (Rd:=c_user_io c) target enabled).

(** The personal home; a failure is only logged. *)
Definition best_effort_home (c : Ctx) (id : str) : Api unit := fun s =>
  (Ok tt, with_library (create_personal_home (Fa:=c_fates c) (c_mkdir c) (c_roots c) (c_now c)
                          (c_new_id c) id (library s)).2 s).
Definition provision_user_with_home (c : Ctx) (id password : str) (admin : bool)
    (home : option str) : Api str :=
  let? id := lift (validate_user_id id) in
  let? canonical := lift (validate_new_password (c_policy c) id password) in
  let? existing := read_user c id in
  match existing with
  | Some _ => raise Conflict REGISTRATION_CONFLICT_MESSAGE
  | None =>
      let? _ := on_users (fun st =>
        let '(r, st) := UserDb.provision (Rd:=c_user_io c) (c_policy c) (c_rng c) id canonical
                          admin home st in
        (map_err (fun e => from_err IO (display_error e)) r, st)) in
      let? _ := best_effort_home c id in
      pure id
  end.
Definition provision_user (c : Ctx) (id password : str) (admin : bool) : Api str :=
  provision_user_with_home c id password admin None.

Definition store_password (c : Ctx) (id password : str) : Api unit :=
  on_users (UserDb.set_password (Rd:=c_user_io c) (weak_env (c_policy c)) (c_rng c) id password).

(** *** Deleting a user *)
(** [walk]: does the directory hold an indexable media file? *)
Fixpoint walk (d : DirTree) : bool :=
  match d with
  | UnreadableDir => true
  | Listing entries =>
      (fix go (es : list DirEntry) : bool :=
         match es with
         | [] => false
         | BadEntry :: _ => true
         | SubDir d' :: es' => walk d' || go es'
         | RegularFile p :: es' =>
             match classify_media_file p with Formats.Index => true | Skip _ => go es' end
         | OtherEntry :: es' => go es'
         end) entries
  end.
Definition has_personal_photos (c : Ctx) (user_id : str) : bool :=
  match users_dir_for (c_roots c) user_id with
  | Err _ => false
  | Ok dir => if negb (exists_ dir) then false else walk (read_dirs dir)
  end.

Definition with_shares (shares : gmap str Share) (a : AlbumPayload) : AlbumPayload :=
  mkAlbumPayload (ap_common a) (ap_title a) (ap_created a) (ap_start a) (ap_end a) (ap_modified a)
    (ap_cover a) (ap_count a) (ap_size a) shares (ap_custom a).
Definition kept_shares (target : str) (a : AlbumPayload) : gmap str Share :=
  filter (fun kv => created_by kv.2 <> target) (ap_shares a).
Fixpoint drop_shares {Rd : Redb} (target : str) (keys : list str) (t : gmap str MetadataRecord)
  : app_result (gmap str MetadataRecord) :=
  match keys with
  | [] => Ok t
  | key :: keys' =>
      _ ← or_raise Database (lit "Failed to get album") (redb (Get key));
      t ← match t !! key with
          | Some (MAlbum album) =>
              let kept := kept_shares target album in
              if (size kept =? size (ap_shares album))%nat then Ok t
              else _ ← or_raise Database (lit "Failed to update album") (redb (Insert key));
                   Ok (<[key := MAlbum (with_shares kept album)]> t)
          | _ => Ok t
          end;
      drop_shares target keys' t
  end.

Definition text_le (a b : str) : Prop := str_leb a b = true.
#[export] Instance text_le_dec a b : Decision (text_le a b).
Proof. unfold text_le. apply _. Defined.
Definition keys_of {V} (t : gmap str V) : list str := merge_sort text_le (map_to_list t).*1.

(** One write transaction of the index; its number advances either way. *)
Definition index_txn (c : Ctx) (body : Redb -> Index -> app_result Index) : Api unit := fun s =>
  let ix := index (library s) in
  let Rd := fate (Fates:=c_fates c) (ticks ix) in
  match (_ ← or_raise Database (lit "Failed to begin transaction") (redb BeginWrite);
         _ ← or_raise Database (lit "Failed to open data table") (redb OpenTable);
         ix' ← body Rd ix;
         _ ← or_raise Database (lit "Failed to commit transaction") (redb Commit);
         Ok ix') with
  | Ok ix' => (Ok tt, with_library (mkLib (tick ix') (albums (library s))) s)
  | Err e => (Err (Failed e), with_library (mkLib (tick ix) (albums (library s))) s)
  end.
Definition on_index {A} (f : Io A) (k : result str A -> app_result A) : Api A := fun s =>
  let '(r, ix) := f (index (library s)) in
  (map_err Failed (k r), with_library (mkLib ix (albums (library s))) s).

Definition cascade_owned_shares (c : Ctx) (target : str) : Api unit :=
  index_txn c (fun Rd ix =>
    _ ← or_raise Database (lit "Failed to iterate data table") (redb Iter);
    t ← drop_shares target (keys_of (payloads ix)) (payloads ix);
    Ok (set_payloads t ix)).

Definition prune_personal_album (c : Ctx) (user_id : str) : Api unit :=
  match users_dir_for (c_roots c) user_id with
  | Err _ => pure tt
  | Ok dir =>
      let? album_id := fun s =>
        match get_album_id_for_dir dir (albums (library s)) with
        | Some i => (Ok (Some i), s)
        | None =>
            let '(r, ix) := get_all_assets (Fa:=c_fates c) (index (library s)) in
            (Ok (all ← result_ok r;
                 asset_id <$> List.find (fun r => bool_decide (Model.kind r = AAlbum)
                                                  && str_eqb (rec_path r) (path_text dir)) all),
             with_library (mkLib ix (albums (library s))) s)
        end in
      match album_id with
      | None => pure tt
      | Some album_id =>
          let? record := on_index (IndexStore.get_asset_by_id (Fa:=c_fates c) album_id)
                           (or_raise Database (lit "Failed to look up album asset")) in
          let? _ := match record with
                    | Some record => on_index (remove_asset (Fa:=c_fates c) record)
                                       (or_raise Database (lit "Failed to remove album asset"))
                    | None => pure tt
                    end in
          let? _ := index_txn c (fun Rd ix =>
            _ ← or_raise Database (lit "Failed to remove album metadata") (redb (Remove album_id));
            Ok (set_payloads (delete album_id (payloads ix)) ix)) in
          fun s => (Ok tt, with_library (mkLib (index (library s))
                                           (evict_dir_album dir (albums (library s)))) s)
      end
  end.

Definition delete_user (c : Ctx) (id : str) : Api unit :=
  let? target := lift (validate_user_id id) in
  let? existing := read_user c target in
  match existing with
  | None => lift (unknown_user target)
  | Some record =>
      let? _ := (if admin record then
                   let? rows := peek_users (UserDb.list (Rd:=c_user_io c)) in
                   if (length (filter (fun r => admin r.2 = true) rows) <=? 1)%nat
                   then raise Conflict (lit "deletion would leave zero admins") else pure tt
                 else pure tt) in
      if has_personal_photos c target then
        raise Conflict (lit "user still has personal photos: lock the account and remove/revoke the shares; to delete manually, remove the files from the host filesystem under USERS_HOME/<username>, then retry the delete")
      else
        let? _ := cascade_owned_shares c target in
        let? _ := prune_personal_album c target in
        let? removed := on_users (UserDb.delete (Rd:=c_user_io c) target false) in
        if removed then pure tt else lift (unknown_user target)
  end.

(** ** Requests and answers *)
Inductive Reply :=
| Done
| Summary (u : UserSummary)
| UserRows (l : list UserSummary)
| SelfProfile (user_id : str) (admin : bool) (home : option str)
| InviteCreated (token : str) (invite : InviteView)
| InviteRows (l : list InviteView)
| SignedIn (cookie : str) (u : UserSummary)
| SignedOut.

Definition summary_of (id : str) (admin : bool) (r : UserRecord) : UserSummary :=
  mkSummary id admin (disabled r) (shares_enabled r).

(** ** Enrollment *)
Definition WINDOW_CLOSED_MSG : str := lit "No administrator enrolled: the bootstrap window is closed (user store is non-empty or --bootstrap-admin is off). Enroll further users via POST /post/users/register, or provision via the picasu-cmd CLI".

(** Under [BOOTSTRAP_LOCK]. *)
Definition bootstrap_user_sync (c : Ctx) (user_id password : str) : Api UserSummary :=
  let? n := count_users c in
  if (0 <? n)%nat || negb (c_bootstrap c) then raise Auth WINDOW_CLOSED_MSG
  else
    let? id := provision_user c user_id password true in
    pure (mkSummary id true false true).
Definition bootstrap_admin_handler (c : Ctx) (user_id password : str) : Api Reply :=
  let? _ := guarded (may_mutate c) in
  let? n := count_users c in
  if (0 <? n)%nat || negb (c_bootstrap c) then
    let? _ := guarded (admin_claims c) in raise Auth WINDOW_CLOSED_MSG
  else
    let? created := blocking c (bootstrap_user_sync c user_id password) in
    pure (Summary created).

Definition register_user_sync (c : Ctx) (user_id password : str) (invite : option str)
    (allow_registration admin_session : bool) : Api UserSummary :=
  let? id := lift (validate_user_id user_id) in
  let? canonical := lift (validate_new_password (c_policy c) id password) in
  let? n := count_users c in
  let registered :=
    let? record := read_user c id in
    pure (summary_of id false (unwrap_or_default_record record)) in
  if (n =? 0)%nat then fun s => lift (fail Auth (not_enrolled_message (view c s))) s
  else if admin_session || allow_registration then
    let? _ := provision_user c id canonical false in registered
  else
    match option_filter (fun t => negb (is_empty t)) (trim <$> invite) with
    | None => raise PermissionDenied (lit "registration is disabled; an invite is required")
    | Some token =>
        let? _ := (fun s =>
          let '(r, t, st) := redeem_invite (Rd:=c_index_io c) (c_user_io c) (weak_env (c_policy c))
                               (c_rng c) (clock c) id token canonical (invite_rows s)
                               (user_store s) in
          (map_err Failed r, with_invites t (with_user_store st s))) in
        registered
    end.
Definition register_user_handler (c : Ctx) (user_id password : str) (invite : option str)
  : Api Reply :=
  let? auth := fun s => (Ok (admin_claims c s), s) in
  let? _ := guarded (may_mutate c) in
  let? admin_session :=
    match auth with
    | Ok claims => if is_admin claims then let? n := count_users c in pure (0 <? n)%nat else pure false
    | Err _ => pure false
    end in
  let? u := blocking c (register_user_sync c user_id password invite (c_open_registration c)
                          admin_session) in
  pure (Summary u).

(** ** Passwords and roles *)
Definition set_password_sync (c : Ctx) (caller_id : str) (caller_admin : bool)
    (target_user_id new_password : str) : Api unit :=
  let? target := lift (validate_user_id target_user_id) in
  let? canonical := lift (validate_new_password (c_policy c) target new_password) in
  if negb caller_admin && negb (str_eqb target caller_id)
  then raise PermissionDenied (lit "cannot change another user's password")
  else
    let? existing := read_user c target in
    match existing with
    | None => lift (unknown_user target)
    | Some _ => store_password c target canonical
    end.
Definition set_user_password_handler (c : Ctx) (user_id new_password : str) : Api Reply :=
  let? user := fun s => (Ok (user_claims c s), s) in
  let? read_only := fun s => (Ok (may_mutate c s), s) in
  let? reauthenticated := reauth c in
  let? claims := lift user in
  let? _ := lift read_only in
  let? _ := lift reauthenticated in
  let '(caller_id, caller_admin) := caller_identity claims in
  let? _ := blocking c (set_password_sync c caller_id caller_admin user_id new_password) in
  pure Done.

(** The shape of the three role handlers. *)
Definition role_handler (c : Ctx) (f : Api bool) : Api Reply :=
  let? auth := fun s => (Ok (admin_claims c s), s) in
  let? _ := guarded (may_mutate c) in
  let? claims := lift auth in
  match role claims with
  | RShare _ => raise Auth (lit "Share token not accepted")
  | RUser _ _ => let? _ := f in pure Done
  end.
(** [set_admin_sync] and its like validate the id once more. *)
Definition set_user_admin_handler (c : Ctx) (user_id : str) (admin : bool) : Api Reply :=
  role_handler c (let? target := lift (validate_user_id user_id) in set_admin_role c target admin).
Definition set_user_disabled_handler (c : Ctx) (user_id : str) (disabled : bool) : Api Reply :=
  role_handler c
    (let? target := lift (validate_user_id user_id) in set_disabled_role c target disabled).
Definition set_user_sharing_handler (c : Ctx) (user_id : str) (enabled : bool) : Api Reply :=
  role_handler c
    (let? target := lift (validate_user_id user_id) in set_sharing_enabled_role c target enabled).

(** ** Listings *)
Definition list_users_handler (c : Ctx) : Api Reply :=
  let? _ := guarded (admin_claims c) in
  let? n := count_users c in
  if (n =? 0)%nat then fun s => lift (fail Auth (not_enrolled_message (view c s))) s
  else
    let? rows := peek_users (UserDb.list (Rd:=c_user_io c)) in
    pure (UserRows ((fun r => summary_of r.1 (admin r.2) r.2) <$> rows)).
Definition get_self_profile_handler (c : Ctx) : Api Reply :=
  let? claims := guarded (user_claims c) in
  match role claims with
  | RShare _ => raise Auth (lit "Share token not accepted")
  | RUser id _ =>
      let? record := read_user c id in
      match record with
      | None => lift (unknown_user id)
      | Some r => pure (SelfProfile id (admin r) (home r))
      end
  end.

(** ** Invites *)
Definition create_invite_handler (c : Ctx) (expires_in_hours : Z) (username : option str)
  : Api Reply :=
  let? claims := guarded (admin_claims c) in
  let? _ := guarded (may_mutate c) in
  let '(creator, _) := caller_identity claims in
  let? expires_at := lift (resolve_expiry (clock c) expires_in_hours) in
  let? username :=
    match option_filter (fun u => negb (is_empty u)) (trim <$> username) with
    | Some u => let? u := lift (validate_user_id u) in pure (Some u)
    | None => pure None
    end in
  let? created := on_invites (create_invite_with_expiry (Rd:=c_index_io c) (c_random c) creator
                                expires_at username) in
  pure (InviteCreated created.1 (into_view created.2 (hash_token created.1))).
Definition list_invites_handler (c : Ctx) : Api Reply :=
  let? _ := guarded (admin_claims c) in
  let? views := guarded (fun s => list_invites (Rd:=c_index_io c) (invite_rows s)) in
  pure (InviteRows views).
Definition delete_invite (c : Ctx) (invite_id : str) : Api Reply :=
  let? _ := guarded (admin_claims c) in
  let? _ := guarded (may_mutate c) in
  let? found := on_invites (revoke_invite (Rd:=c_index_io c) invite_id) in
  if found then pure Done else raise NotFound (lit "unknown invite: " ++ invite_id).

(** ** Deletion *)
Definition delete_user_handler (c : Ctx) (user_id : str) : Api Reply :=
  let? auth := fun s => (Ok (admin_claims c s), s) in
  let? mutation := fun s => (Ok (may_mutate c s), s) in
  let? reauthenticated := reauth c in
  let? _ := lift auth in
  let? _ := lift mutation in
  let? _ := lift reauthenticated in
  let? _ := blocking c (delete_user c user_id) in
  let? _ := lift (or_raise Internal (lit "Failed to update tree") (c_refreshed c)) in
  pure Done.
End Accounts.

(** ** What a handler may do to the user records

    [moves R m]: whatever fails, the records [m] leaves behind are readable and
    related by [R] to those it found. *)
Section Moves.
Context {Jc : JsonCodec} {Jl : JsonLaws} {Lh : LegacyHash} {Ca : Casing} {Cr : Crypto}.

Definition moves (R : gmap str UserRecord -> gmap str UserRecord -> Prop) {A} (m : Api A) : Prop :=
  forall s users, reads (user_store s) users ->
    exists users', reads (user_store (m s).2) users' /\ R users users'.

(** Only ids of [P] become administrators, and the last one stays. *)
Definition raises (P : str -> Prop) (users users' : gmap str UserRecord) : Prop :=
  (forall id u', users' !! id = Some u' -> admin u' = true ->
     P id \/ exists u, users !! id = Some u /\ admin u = true) /\
  (has_admin users -> has_admin users').
Definition steady : gmap str UserRecord -> gmap str UserRecord -> Prop := raises (fun _ => False).

#[export] Instance raises_preorder P : PreOrder (raises P).
Proof.
  split; [by split; eauto|]. intros a b c [H1 H2] [H3 H4]. split; [|by auto].
  intros id u' Hu Ha. destruct (H3 id u' Hu Ha) as [?|(u & Hb & Hau)]; eauto.
Qed.
#[export] Instance steady_preorder : PreOrder steady.
Proof. apply raises_preorder. Qed.

Lemma steady_raises P users users' : steady users users' -> raises P users users'.
Proof.
  intros [H1 H2]. split; [|done]. intros id u' Hu Ha. destruct (H1 id u' Hu Ha) as [[]|?]. by right.
Qed.
Lemma moves_steady P {A} (m : Api A) : moves steady m -> moves (raises P) m.
Proof.
  intros Hm s users Hr. destruct (Hm s users Hr) as (users' & Hr' & Hs). exists users'.
  split; [done|by apply steady_raises].
Qed.

Section Combinators.
Context (R : gmap str UserRecord -> gmap str UserRecord -> Prop) `{!PreOrder R}.

Lemma moves_bind {A B} (m : Api A) (k : A -> Api B) :
  moves R m -> (forall a s, (m s).1 = Ok a -> moves R (k a)) -> moves R (then_ m k).
Proof.
  intros Hm Hk s users Hr. destruct (Hm s users Hr) as (users1 & Hr1 & HR1). unfold then_.
  destruct (m s) as [[a|e] s1] eqn:Hms; cbn in *; [|by exists users1].
  destruct (Hk a s (f_equal fst Hms) s1 users1 Hr1) as (users2 & Hr2 & HR2). exists users2.
  split; [done|by etrans].
Qed.
Lemma moves_then {A B} (m : Api A) (k : A -> Api B) :
  moves R m -> (forall a, moves R (k a)) -> moves R (then_ m k).
Proof. intros Hm Hk. apply moves_bind; [done|]. intros a _ _. apply Hk. Qed.
(** A step that leaves the user store alone. *)
Lemma moves_still {A} (m : Api A) :
  (forall s, user_store (m s).2 = user_store s) -> moves R m.
Proof. intros Hm s users Hr. exists users. by rewrite Hm. Qed.
Lemma moves_pure {A} (a : A) : moves R (pure a).
Proof. by apply moves_still. Qed.
Lemma moves_lift {A} (r : app_result A) : moves R (lift r).
Proof. by apply moves_still. Qed.
Lemma moves_guarded {A} (r : Server -> app_result A) : moves R (guarded r).
Proof. by apply moves_still. Qed.
Lemma moves_look {A} (r : Server -> A) : moves R (fun s => (Ok (r s), s)).
Proof. by apply moves_still. Qed.
Lemma moves_refuse {A} (r : Server -> app_result A) : moves R (fun s => lift (r s) s).
Proof. by apply moves_still. Qed.
Lemma moves_invites {A} (f : Table -> app_result A * Table) : moves R (on_invites f).
Proof. apply moves_still. intros s. unfold on_invites. by destruct (f _). Qed.
Lemma moves_index {A} (f : Io A) (k : result str A -> app_result A) : moves R (on_index f k).
Proof. apply moves_still. intros s. unfold on_index. by destruct (f _). Qed.
Lemma moves_txn c body : moves R (index_txn c body).
Proof. apply moves_still. intros s. unfold index_txn. by repeat case_match. Qed.
Lemma moves_blocking {A} c (m : Api A) : moves R m -> moves R (blocking c m).
Proof. intros Hm. apply moves_then; [apply moves_lift|done]. Qed.
Lemma moves_peek {A} (f : Store -> A * Store) :
  (forall st users, reads st users -> reads (f st).2 users) -> moves R (peek_users f).
Proof.
  intros Hf s users Hr. exists users. unfold peek_users. specialize (Hf _ _ Hr).
  by destruct (f (user_store s)).
Qed.
Lemma moves_users {A} (f : Store -> app_result A * Store) :
  (forall st users, reads st users -> exists users', reads (f st).2 users' /\ R users users') ->
  moves R (on_users f).
Proof.
  intros Hf s users Hr. destruct (Hf _ _ Hr) as (users' & Hr' & HR). exists users'.
  unfold on_users. by destruct (f (user_store s)).
Qed.
End Combinators.

(** Reading changes no record: it may only open the file. *)
Lemma load_users_keeps {Rd : Redb} st users : reads st users -> reads (load_users st).2 users.
Proof.
  intros Hr. unfold load_users. destruct (UserStore.file st) eqn:Hf; [|done].
  destruct (open_db st) as [[t|e] st'] eqn:Ho; apply open_db_spec in Ho as (Hd & _ & _);
    unfold reads; cbn; by rewrite Hd.
Qed.
Lemma read_keeps {Rd : Redb} id st users : reads st users -> reads (UserDb.read id st).2 users.
Proof.
  intros Hr. apply (load_users_keeps (Rd:=Rd)) in Hr. unfold UserDb.read.
  by destruct (load_users st).
Qed.
Lemma count_keeps {Rd : Redb} st users : reads st users -> reads (UserDb.count st).2 users.
Proof.
  intros Hr. apply (load_users_keeps (Rd:=Rd)) in Hr. unfold UserDb.count.
  by destruct (load_users st).
Qed.
Lemma list_keeps {Rd : Redb} st users : reads st users -> reads (UserDb.list st).2 users.
Proof.
  intros Hr. apply (load_users_keeps (Rd:=Rd)) in Hr. unfold UserDb.list.
  by destruct (load_users st).
Qed.

(** Which operations are steady. *)
Definition grants (o : Op) : bool :=
  match o with
  | OpProvision _ _ _ _ admin _ => admin
  | OpSetAdmin _ flag => flag
  | OpDelete _ force => force
  | _ => false
  end.
Lemma effect_steady o users m : grants o = false -> effect o users = Some m -> steady users m.
Proof.
  intros Hg He. split.
  - unfold effect, erase, provision_fn, set_password_fn, upgrade_password_hash_fn, set_admin_fn,
      set_disabled_fn, set_sharing_enabled_fn, bump_ver_fn, set_home_fn, delete_fn,
      unknown_user, fail in He.
    intros id u' Hu Ha. right. destruct o; [apply bind_Some in He as ([? ?] & _ & He)|..];
      simpl in He, Hg; repeat (case_match; simplify_eq/=); eauto;
      try (apply lookup_insert_Some in Hu as [[<- <-]|[_ Hu]]; simpl in *; by eauto);
      try (apply lookup_delete_Some in Hu as [_ Hu]; by eauto).
  - apply (effect_has_admin o users m); [|done]. intros id ->. done.
Qed.

Lemma op_moves {A} o (f : Store -> app_result A * Store) (Rd : Redb) :
  grants o = false -> (forall st, (f st).2 = run_op (Rd, o) st) -> moves steady (on_users f).
Proof.
  intros Hg Hf. apply moves_users. intros st users Hr. rewrite Hf.
  destruct (run_op_effect (Rd, o) st users Hr) as [Hr'|(m & He & Hr')].
  - by exists users.
  - exists m. split; [done|]. by apply (effect_steady o).
Qed.
End Moves.

(** ** Every handler but two is steady *)
Create HintDb moves.
#[export] Hint Resolve moves_pure moves_lift moves_guarded moves_look moves_refuse moves_invites
  moves_index moves_txn : moves.
(** Walk through a handler, one step at a time. *)
Ltac walk_steps :=
  repeat first
    [ solve [typeclasses eauto with moves typeclass_instances]
    | apply (moves_blocking _)
    | apply (moves_then _); [|intros ?]
    | case_match ].

Section Steady.
Context {Jc : JsonCodec} {Jl : JsonLaws} {Lh : LegacyHash} {Ca : Casing} {Cr : Crypto} {J : Jwt}
  {Tc : TokenCodec}.
Context {F : Fs} {K : Nfkc} {I : Infer} {D : Dirs} {Uc : Uppercase} {Sc : Sidecars}.

Lemma read_user_moves R `{!PreOrder R} c id : moves R (read_user c id).
Proof. apply moves_peek; [done|]. intros st users. apply read_keeps. Qed.
Lemma count_users_moves R `{!PreOrder R} c : moves R (count_users c).
Proof. apply moves_peek; [done|]. intros st users. apply count_keeps. Qed.
Lemma list_moves R `{!PreOrder R} c : moves R (peek_users (UserDb.list (Rd:=c_user_io c))).
Proof. apply moves_peek; [done|]. intros st users. apply list_keeps. Qed.
Lemma home_moves R `{!PreOrder R} c id : moves R (best_effort_home c id).
Proof. by apply moves_still. Qed.
Hint Resolve read_user_moves count_users_moves list_moves home_moves : moves.

Lemma verify_moves {Rd : Redb} env rng v id p st users :
  reads st users ->
  exists users', reads (UserDb.verify env rng v id p st).2 users' /\ steady users users'.
Proof.
  intros Hr. unfold UserDb.verify. destruct (UserDb.users v !! trim id ≫= User.hash) as [h|];
    [|by exists users].
  destruct (verify_password p h && _); [|by exists users].
  destruct (run_op_effect (Rd, OpUpgrade env rng (trim id) (trim p)) st users Hr)
    as [Hr'|(m & He & Hr')]; cbn in Hr'; destruct (UserDb.upgrade_password_hash _ _ _ _ _) as [x st'].
  - by exists users.
  - exists m. split; [done|]. by apply (effect_steady (OpUpgrade env rng (trim id) (trim p))).
Qed.

Lemma load_keeps {Rd : Redb} st users : reads st users -> reads (UserDb.load st).2 users.
Proof.
  intros Hr. apply (load_users_keeps (Rd:=Rd)) in Hr. unfold UserDb.load.
  by destruct (load_users st).
Qed.

Lemma reauth_moves c : moves steady (reauth c).
Proof.
  intros s users Hr. unfold reauth, guard_reauth. cbn [user_file view].
  destruct (try_jwt_cookie_user _ _ _ _) as [claims|]; [|by exists users].
  destruct (role claims); [|by exists users].
  destruct (header _ _) as [pw|]; [|by exists users].
  apply (load_keeps (Rd:=c_user_io c)) in Hr as Hl. cbn [user_disk view].
  destruct (UserDb.load (user_store s)) as [[v|e] st] eqn:Hld; cbn in Hl; [|by exists users].
  destruct (match throttle_now c with Some _ => _ | None => _ end) as [t1 ban].
  destruct (0 <? ban); [by exists users|].
  destruct (verify_moves (Rd:=c_user_io c) (weak_env (c_policy c)) (c_rng c) v id pw st users Hl)
    as (users' & Hv & Hs).
  destruct (UserDb.verify _ _ _ _ _ _) as [ok st']. exists users'. split; [|done]. cbn in Hv.
  repeat case_match; done.
Qed.
Hint Resolve reauth_moves : moves.

Lemma set_role_moves c id f o :
  (forall target, grants (o target) = false) ->
  (forall target st, (f target st).2 = run_op (c_user_io c, o target) st) ->
  moves steady (set_role c id f).
Proof.
  intros Hg Hf. unfold set_role. walk_steps. by apply (op_moves (o a) _ (c_user_io c)).
Qed.

Lemma provision_moves c id password home :
  moves steady (provision_user_with_home c id password false home).
Proof.
  unfold provision_user_with_home. walk_steps.
  apply (op_moves (OpProvision (c_policy c) (c_rng c) a a0 false home) _ (c_user_io c)); [done|].
  intros st. cbn. by destruct (UserDb.provision _ _ _ _ _ _ _).
Qed.

Lemma store_password_moves c id password : moves steady (store_password c id password).
Proof. by apply (op_moves (OpSetPassword (weak_env (c_policy c)) (c_rng c) id password) _ (c_user_io c)). Qed.

Lemma delete_user_moves c id : moves steady (delete_user c id).
Proof.
  unfold delete_user, cascade_owned_shares, prune_personal_album. walk_steps.
  - apply (moves_still _). intros s. by repeat case_match.
  - by apply (moves_still _).
  - by apply (op_moves (OpDelete a false) _ (c_user_io c)).
Qed.

Lemma enroll_steady users id h : users !! id = None ->
  steady users (<[id := User.mkUser (Some h) false None 0 false true]> users).
Proof.
  intros Hn. split; [|by apply admin_fresh]. intros id' u'.
  intros [[<- <-]|[_ Hu]]%lookup_insert_Some Ha; [done|by eauto].
Qed.

(** The two operations that make an administrator. *)
Lemma grant_raises (id : str) (u : UserRecord) (users : gmap str UserRecord) :
  admin u = true -> raises (eq id) users (<[id := u]> users).
Proof.
  intros Hu. split.
  - intros k u' [[<- <-]|[_ Hk]]%lookup_insert_Some Ha; [by left|by eauto].
  - intros _. exists id, u. by rewrite lookup_insert_eq.
Qed.

Lemma redeem_moves c env rng clk id token canonical :
  moves steady (fun s =>
    let '(r, t, st) := redeem_invite (Rd:=c_index_io c) (c_user_io c) env rng clk id token canonical
                         (invite_rows s) (user_store s) in
    (map_err Failed r, with_invites t (with_user_store st s))).
Proof.
  intros s users Hr. destruct (redeem_invite _ _ _ _ _ _ _ _ _) as [[r t] st] eqn:Hx.
  destruct (redeem_cases (Rd:=c_index_io c) _ _ _ _ _ _ _ _ _ _ _ _ _ Hr Hx) as (users' & Hr' & Ho).
  exists users'. split; [done|]. inversion Ho; subst; try done. by apply enroll_steady.
Qed.
Hint Resolve provision_moves store_password_moves delete_user_moves redeem_moves : moves.

Lemma validated_trim id target : validate_user_id id = Ok target -> target = trim id.
Proof. unfold validate_user_id, fail. repeat case_match; congruence. Qed.

Lemma op_raises {A} (P : str -> Prop) o (f : Store -> app_result A * Store) (Rd : Redb) :
  (forall users m, effect o users = Some m -> raises P users m) ->
  (forall st, (f st).2 = run_op (Rd, o) st) -> moves (raises P) (on_users f).
Proof.
  intros Ho Hf. apply moves_users. intros st users Hr. rewrite Hf.
  destruct (run_op_effect (Rd, o) st users Hr) as [Hr'|(m & He & Hr')].
  - by exists users.
  - exists m. split; [done|by apply Ho].
Qed.

Lemma lift_Ok {A} (r : app_result A) s a : (lift r s).1 = Ok a -> r = Ok a.
Proof. destruct r; cbn; [by intros [= ->]|done]. Qed.

Lemma set_admin_moves c id : moves (raises (eq (trim id))) (set_admin_role c id true).
Proof.
  unfold set_admin_role, set_role. apply (moves_bind _); [walk_steps|].
  intros a s Ha%lift_Ok%validated_trim. walk_steps.
  apply (op_raises _ (OpSetAdmin a true) _ (c_user_io c)); [|done]. intros users m He.
  cbn in He. rewrite Ha, trim_idemp in He. unfold erase, set_admin_fn, unknown_user, fail in He.
  repeat (case_match; simplify_eq/=); try done. by apply grant_raises.
Qed.

Lemma bootstrap_moves c id password home :
  moves (raises (eq (trim id))) (provision_user_with_home c id password true home).
Proof.
  unfold provision_user_with_home. apply (moves_bind _); [walk_steps|].
  intros a s Ha%lift_Ok%validated_trim. walk_steps.
  apply (op_raises _ (OpProvision (c_policy c) (c_rng c) a a0 true home) _ (c_user_io c)).
  - intros users m He. cbn in He. apply bind_Some in He as ([i p] & Hv & He).
    assert (i = trim id) as ->.
    { destruct (validate_user_id a) as [i'|] eqn:Hi; [|done].
      cbn in Hv. destruct (validate_new_password _ _ _); simplify_eq/=.
      apply validated_trim in Hi as ->. apply trim_idemp. }
    unfold erase, provision_fn, fail in He. cbn in He. case_match; simplify_eq/=. by apply grant_raises.
  - intros st. cbn. by destruct (UserDb.provision _ _ _ _ _ _ _).
Qed.
End Steady.
#[export] Hint Resolve read_user_moves count_users_moves list_moves home_moves reauth_moves provision_moves
  store_password_moves delete_user_moves redeem_moves : moves.

(** ** What a handler leaves alone

    [keeps P m]: [m] preserves a property of the server that does not look at the
    user records, the invites or the index. *)
Record unseen (P : Server -> Prop) : Prop := {
  unseen_users st s : P s -> P (with_user_store st s);
  unseen_invites t s : P s -> P (with_invites t s);
  unseen_library l s : P s -> P (with_library l s)
}.
Definition keeps (P : Server -> Prop) {A} (m : Api A) : Prop := forall s, P s -> P (m s).2.

Section Keeps.
Context {P : Server -> Prop} (U : unseen P).

Lemma keeps_then {A B} (m : Api A) (k : A -> Api B) :
  keeps P m -> (forall a, keeps P (k a)) -> keeps P (then_ m k).
Proof.
  intros Hm Hk s Hs. specialize (Hm s Hs). unfold then_.
  destruct (m s) as [[a|e] s1]; [by apply Hk|done].
Qed.
Lemma keeps_look {A} (r : Server -> result Stop A) : keeps P (fun s => (r s, s)).
Proof. by intros s. Qed.
Lemma keeps_lift {A} (r : app_result A) : keeps P (lift r).
Proof. by intros s. Qed.
Lemma keeps_refuse {A} (r : Server -> app_result A) : keeps P (fun s => lift (r s) s).
Proof. by intros s. Qed.
Lemma keeps_blocking {A} c (m : Api A) : keeps P m -> keeps P (blocking c m).
Proof. intros Hm. apply keeps_then; [apply keeps_lift|done]. Qed.
Lemma keeps_peek {A} (f : Store -> A * Store) : keeps P (peek_users f).
Proof. intros s Hs. unfold peek_users. destruct (f _). by apply unseen_users. Qed.
Lemma keeps_users {A} (f : Store -> app_result A * Store) : keeps P (on_users f).
Proof. intros s Hs. unfold on_users. destruct (f _). by apply unseen_users. Qed.
Lemma keeps_invites {A} (f : Table -> app_result A * Table) : keeps P (on_invites f).
Proof. intros s Hs. unfold on_invites. destruct (f _). by apply unseen_invites. Qed.
Lemma keeps_index {A} (f : Io A) (k : result str A -> app_result A) : keeps P (on_index f k).
Proof. intros s Hs. unfold on_index. destruct (f _). by apply unseen_library. Qed.
Lemma keeps_home `{Nfkc, Uppercase, Sidecars} c id : keeps P (best_effort_home c id).
Proof. intros s Hs. unfold best_effort_home. by apply (unseen_library _ U). Qed.
Lemma keeps_txn c body : keeps P (index_txn c body).
Proof. intros s Hs. unfold index_txn. case_match; by apply unseen_library. Qed.
End Keeps.

Ltac keep_steps U :=
  repeat first
    [ assumption
    | apply keeps_look | apply keeps_lift | apply keeps_refuse
    | apply (keeps_peek U) | apply (keeps_users U) | apply (keeps_invites U)
    | apply (keeps_index U) | apply (keeps_txn U) | apply (keeps_home U)
    | apply keeps_blocking
    | apply keeps_then; [|intros ?]
    | case_match ].

(** ** A server to run requests on: two administrators, one of them locked; or one
    administrator whose password is "x" *)
Module ServerWitness.
#[export] Instance nothing_detected : Infer := {| infer_get _ := Ok None |}.
#[export] Instance no_dirs : Dirs := {| read_dirs _ := Listing [] |}.


Definition schedules : Schedules := mkSchedules (60, 5, 30, 600) (3600, 20, 60, 3600) (3600, 10, 60, 3600).
Definition ctx_at (now : Z) (request : Request) (jti : str) (join : result str unit) : Ctx :=
  mkCtx now healthy healthy all_healthy TokenWitness.key false false PathWitness.cfg
    AuthWitness.policy false schedules None request (lit "1.2.3.4") 0 jti (Ok []) (lit "new") (fun _ => Ok tt) join (Ok tt).
Definition visitor : Request := AuthWitness.visit [] None.
(** A request without a cookie. *)
Definition ctx : Ctx := ctx_at 1700000000000 visitor (lit "jti") (Ok tt).
Definition server (users : Store) : Server :=
  mkServer users None None
    (mkLib (mkIndex ∅ ∅ ∅ {[ lit "A" := MAlbum AuthWitness.album ]} 0) (mkAlbums ∅ ∅)) None 0
    password_throttle.
Definition team : Server := server UserWitness.st.
Definition solo : Server := server (mkStore (lit "/d/auth/users.redb") (Some (Some (encoded AuthWitness.solo))) false false).
End ServerWitness.
