(* ===== verification/UserDeletion.v ===== *)
(** * UserDeletion: what deleting a user guarantees
      ([delete_user] of [backend/src/auth/users.rs])

    The operation itself is in [Accounts]: one transaction over the album
    metadata, the removal of the personal album, one transaction over the user
    store.  The proofs follow the metadata through the first two steps and the
    user records through the third, whatever disk calls fail. *)

From S2P Require Import Prelude Errors Redb Password UserStore Revocations Invites LoginThrottle.
From S2P Require Import Paths Formats Model MetadataRecord DirAlbum Tokens RouterAuth IndexStore.
From S2P Require Import DirAlbumStore Accounts.

(** ** The shares of a metadata row *)
(** The row without the shares [target] created; other rows stay. *)
Definition stripped (target : str) (row : MetadataRecord) : MetadataRecord :=
  match row with
  | MAlbum a => MAlbum (with_shares (kept_shares target a) a)
  | _ => row
  end.
(** No share of the row was created by [target]. *)
Definition free_of (target : str) (row : MetadataRecord) : Prop :=
  match row with
  | MAlbum a => map_Forall (fun _ sh => created_by sh <> target) (ap_shares a)
  | _ => True
  end.

Lemma stripped_free target row : free_of target (stripped target row).
Proof.
  destruct row as [| |a]; try done. intros k sh. cbn. unfold kept_shares.
  by intros [_ Hk]%map_lookup_filter_Some.
Qed.
Lemma same_size_stripped target a :
  size (kept_shares target a) = size (ap_shares a) -> stripped target (MAlbum a) = MAlbum a.
Proof.
  intros Hs. cbn. enough (kept_shares target a = ap_shares a) as -> by by destruct a.
  apply map_subseteq_size_eq; [apply map_filter_subseteq|]. rewrite Hs. done.
Qed.

Lemma drop_shares_spec {Rd : Redb} target keys t t' : NoDup keys ->
  drop_shares target keys t = Ok t' ->
  forall k, t' !! k = if bool_decide (k ∈ keys) then stripped target <$> t !! k else t !! k.
Proof.
  intros Hnd. revert t. induction Hnd as [|key keys Hni _ IH]; intros t Hd k.
  - by injection Hd as ->.
  - cbn [drop_shares] in Hd. apply bind_Ok in Hd as (? & _ & Hd). apply bind_Ok in Hd as (t1 & H1 & Hd).
    assert (forall j, t1 !! j = if decide (j = key) then stripped target <$> t !! j else t !! j) as Ht1.
    { intros j. destruct (t !! key) as [[| |a]|] eqn:Hk; simplify_eq.
      1,2,4: by case_decide; subst; rewrite ?Hk.
      destruct (size (kept_shares target a) =? size (ap_shares a))%nat eqn:Hs.
      - injection H1 as <-. apply Nat.eqb_eq in Hs. case_decide; [|done]. subst.
        by rewrite Hk, fmap_Some_2 with (x := MAlbum a), same_size_stripped.
      - apply bind_Ok in H1 as (? & _ & [= <-]). case_decide; subst.
        + by rewrite lookup_insert_eq, Hk.
        + by rewrite lookup_insert_ne. }
    rewrite (IH _ Hd k). case_bool_decide as Hin; case_bool_decide as Hin'.
    + rewrite Ht1. destruct (decide (k = key)) as [->|]; done.
    + exfalso. apply Hin'. by apply list_elem_of_further.
    + rewrite Ht1. apply elem_of_cons in Hin' as [->|?]; [by rewrite decide_True|done].
    + rewrite Ht1, decide_False; [done|]. intros ->. apply Hin'. by left.
Qed.

Lemma keys_of_spec {V} (t : gmap str V) : NoDup (keys_of t) /\ forall k, k ∈ keys_of t <-> is_Some (t !! k).
Proof.
  unfold keys_of. assert (merge_sort text_le (map_to_list t).*1 ≡ₚ (map_to_list t).*1) as Hp
    by apply merge_sort_Permutation.
  split; [rewrite Hp; apply NoDup_fst_map_to_list|]. intros k. rewrite Hp, list_elem_of_fmap. split.
  - intros ([k' v] & -> & Hk%elem_of_map_to_list). by exists v.
  - intros [v Hk]. exists (k, v). by rewrite elem_of_map_to_list.
Qed.

(** ** The check for media *)
Section Walk.
Context {Ca : Casing} {I : Infer}.

(** A directory or an entry below [d] that cannot be read. *)
Inductive unreadable : DirTree -> Prop :=
| unreadable_dir : unreadable UnreadableDir
| unreadable_entry es : BadEntry ∈ es -> unreadable (Listing es)
| unreadable_below es d : SubDir d ∈ es -> unreadable d -> unreadable (Listing es).
(** [p] is a regular file below [d]. *)
Inductive file_below (p : str) : DirTree -> Prop :=
| file_here es : RegularFile p ∈ es -> file_below p (Listing es)
| file_deeper es d : SubDir d ∈ es -> file_below p d -> file_below p (Listing es).

Definition occupied (d : DirTree) : Prop :=
  unreadable d \/ exists p, file_below p d /\ classify_media_file p = Formats.Index.

Lemma occupied_cons e es :
  occupied (Listing (e :: es)) <->
  (match e with
   | BadEntry => True
   | SubDir d => occupied d
   | RegularFile p => classify_media_file p = Formats.Index
   | OtherEntry => False
   end \/ occupied (Listing es)).
Proof.
  split.
  - intros [Hu|(p & Hf & Hc)].
    + inversion Hu as [|? Hin|? d Hin Hd]; subst; apply elem_of_cons in Hin as [<-|Hin].
      1: by left. 2: left; by left.
      all: right; left; first [by apply unreadable_entry|by eapply unreadable_below].
    + inversion Hf as [? Hin|? d Hin Hd]; subst; apply elem_of_cons in Hin as [<-|Hin].
      1: by left. 2: left; right; by exists p.
      all: right; right; exists p; (split; [|done]); first [by apply file_here|by eapply file_deeper].
  - intros [He|[Hu|(p & Hf & Hc)]].
    + destruct e as [|d|p|]; [| | |done].
      * left. apply unreadable_entry. by left.
      * destruct He as [Hu|(p & Hf & Hc)].
        -- left. eapply unreadable_below; [by left|done].
        -- right. exists p. split; [|done]. eapply file_deeper; [by left|done].
      * right. exists p. split; [|done]. apply file_here. by left.
    + left. inversion Hu as [|? Hin|? d Hin Hd]; subst; [apply unreadable_entry|eapply unreadable_below];
        (done || by right).
    + right. exists p. split; [|done].
      inversion Hf as [? Hin|? d Hin Hd]; subst; [apply file_here|eapply file_deeper]; (done || by right).
Qed.
Lemma occupied_nil : ~ occupied (Listing []).
Proof.
  intros [Hu|(p & Hf & _)]; [inversion Hu as [|? Hin|? ? Hin]|inversion Hf as [? Hin|? ? Hin]]; subst;
    by apply not_elem_of_nil in Hin.
Qed.

(** The check fails closed on what it cannot list: it finds the directory occupied
    exactly when some directory or entry below cannot be read or some file below is
    one that would be indexed. *)
Theorem walk_spec d : walk d = true <-> occupied d.
Proof.
  revert d. fix IH 1. intros [|es]; [split; [intros _; left; constructor|done]|].
  induction es as [|e es IHes].
  - split; [done|]. by intros ?%occupied_nil.
  - rewrite occupied_cons, <-IHes. destruct e as [|d|p|]; cbn [walk].
    + split; [by left|done].
    + rewrite <-(IH d). rewrite orb_true_iff. done.
    + destruct (classify_media_file p); split; try tauto. by intros [?|?].
    + tauto.
Qed.

(** A photo whose leading bytes cannot be read counts as no photo: a directory of
    such files is not occupied, and its user can be deleted. *)
Theorem unreadable_photos_do_not_count d :
  ~ unreadable d -> (forall p, file_below p d -> exists e, infer_get p = Err e) -> walk d = false.
Proof.
  intros Hu Hf. apply not_true_iff_false. rewrite walk_spec. intros [?|(p & Hp & Hc)]; [done|].
  apply classify_index in Hc as (? & ? & ? & _ & Hi & _). destruct (Hf p Hp). congruence.
Qed.
End Walk.

(** ** The steps *)
Section Steps.
Context {Jc : JsonCodec} {Jl : JsonLaws} {Lh : LegacyHash} {Ca : Casing} {Cr : Crypto} {J : Jwt}
  {Tc : TokenCodec}.
Context {F : Fs} {K : Nfkc} {I : Infer} {D : Dirs} {Uc : Uppercase} {Sc : Sidecars}.

Abbreviation metadata s := (payloads (index (library s))).

Lemma then_Ok {A B} (m : Api A) (k : A -> Api B) s b s' : then_ m k s = (Ok b, s') ->
  exists a s1, m s = (Ok a, s1) /\ k a s1 = (Ok b, s').
Proof. unfold then_. destruct (m s) as [[a|e] s1]; [|done]. eauto. Qed.

Lemma index_txn_cases c body s :
  user_store (index_txn c body s).2 = user_store s /\
  match index_txn c body s with
  | (Ok _, s') => exists ix', body (fate (Fates:=c_fates c) (ticks (index (library s)))) (index (library s)) = Ok ix'
                    /\ index (library s') = tick ix'
  | (Err _, s') => metadata s' = metadata s
  end.
Proof.
  unfold index_txn. destruct (mbind _ _) as [ix'|e] eqn:Hb; split; try done.
  apply bind_Ok in Hb as (? & _ & Hb). apply bind_Ok in Hb as (? & _ & Hb).
  apply bind_Ok in Hb as (ix & Hb & Hc). apply bind_Ok in Hc as (? & _ & [= <-]). by exists ix.
Qed.

(** The metadata the cascade leaves: every row stripped, or, on an error, all
    rows as they were. *)
Lemma cascade_spec c target s :
  let '(r, s') := cascade_owned_shares c target s in
  user_store s' = user_store s /\
  match r with
  | Ok _ => metadata s' = stripped target <$> metadata s
  | Err _ => metadata s' = metadata s
  end.
Proof.
  pose proof (index_txn_cases c (fun Rd ix =>
    _ ← or_raise Database (lit "Failed to iterate data table") (redb Iter);
    t ← drop_shares target (keys_of (payloads ix)) (payloads ix);
    Ok (set_payloads t ix)) s) as [Hst Hx].
  unfold cascade_owned_shares. destruct (index_txn _ _ s) as [[[]|e] s']; [|done]. split; [done|].
  destruct Hx as (ix & Hb & ->). apply bind_Ok in Hb as (? & _ & Hb).
  apply bind_Ok in Hb as (t & Hd & [= <-]). cbn. apply map_eq. intros k.
  destruct (keys_of_spec (metadata s)) as [Hnd Hin].
  rewrite (drop_shares_spec (Rd:=fate (Fates:=c_fates c) (ticks (index (library s)))) _ _ _ _ Hnd Hd),
    lookup_fmap.
  case_bool_decide as Hk; [done|]. destruct (metadata s !! k) eqn:He; [|done].
  exfalso. by apply Hk, Hin.
Qed.

(** Rows only disappear. *)
Definition shrinks (s s' : Server) : Prop := metadata s' ⊆ metadata s.
Definition shrinking {A} (m : Api A) : Prop :=
  forall s, shrinks s (m s).2 /\ user_store (m s).2 = user_store s.
Lemma shrinking_still {A} (r : Server -> result Stop A) (a : Server -> Albums) :
  shrinking (fun s => (r s, with_library (mkLib (index (library s)) (a s)) s)).
Proof. intros s. split; [unfold shrinks; reflexivity|done]. Qed.
Lemma shrinking_pure {A} (a : A) : shrinking (pure a).
Proof. intros s. split; [unfold shrinks; reflexivity|done]. Qed.
Lemma shrinking_then {A B} (m : Api A) (k : A -> Api B) :
  shrinking m -> (forall a, shrinking (k a)) -> shrinking (then_ m k).
Proof.
  intros Hm Hk s. unfold then_. destruct (Hm s) as [H1 H2].
  destruct (m s) as [[a|e] s1]; [|done]. destruct (Hk a s1) as [H3 H4]. cbn in *.
  split; [unfold shrinks in *; by etrans|by rewrite H4].
Qed.
Lemma shrinking_index {A} (f : Io A) k :
  (forall ix, payloads (f ix).2 = payloads ix) -> shrinking (on_index f k).
Proof.
  intros Hf s. unfold on_index, shrinks. specialize (Hf (index (library s))).
  destruct (f _) as [r ix]. cbn in *. by rewrite Hf.
Qed.

Section Payloads.
Context {Fa : Fates}.
Lemma writing_payloads b o m w call body ix : (forall ix, payloads (body ix) = payloads ix) ->
  payloads (writing b o m w call body ix).2 = payloads ix.
Proof. intros Hb. unfold writing. case_match; cbn; [apply Hb|done]. Qed.
Lemma and_then_payloads {A B} (m : Io A) (k : A -> Io B) ix :
  (forall ix, payloads (m ix).2 = payloads ix) -> (forall a ix, payloads (k a ix).2 = payloads ix) ->
  payloads (and_then m k ix).2 = payloads ix.
Proof.
  intros Hm Hk. unfold and_then. specialize (Hm ix). destruct (m ix) as [[a|e] ix1]; cbn in *; [|done].
  by rewrite Hk.
Qed.
Lemma remove_asset_payloads r ix : payloads (remove_asset r ix).2 = payloads ix.
Proof.
  unfold remove_asset. apply and_then_payloads; [intros ?; by apply writing_payloads|]. intros _ ix1.
  apply and_then_payloads; [intros ?; by apply writing_payloads|]. intros _ ix2.
  destruct (content_hash r); [|done]. apply and_then_payloads; [done|]. intros ids ix3.
  cbv zeta. case_match; by apply writing_payloads.
Qed.
End Payloads.

Lemma prune_shrinks c id : shrinking (prune_personal_album c id).
Proof.
  unfold prune_personal_album. destruct (users_dir_for _ _) as [dir|]; [|apply shrinking_pure].
  apply shrinking_then; [|intros [i|]; [|apply shrinking_pure]].
  { intros s. destruct (get_album_id_for_dir _ _); (split; [unfold shrinks; reflexivity|done]). }
  apply shrinking_then; [by apply shrinking_index|]. intros record.
  apply shrinking_then; [|intros _; apply shrinking_then; [|intros _; apply shrinking_still]].
  { destruct record; [|apply shrinking_pure]. apply shrinking_index. intros ix.
    by apply (remove_asset_payloads (Fa:=c_fates c)). }
  intros s. pose proof (index_txn_cases c (fun Rd ix =>
    _ ← or_raise Database (lit "Failed to remove album metadata") (redb (Remove i));
    Ok (set_payloads (delete i (payloads ix)) ix)) s) as [Hst Hx].
  split; [|done]. unfold shrinks. destruct (index_txn _ _ s) as [[x|e] s4]; cbn in *.
  - destruct Hx as (ix & Hb & ->). apply bind_Ok in Hb as (? & _ & [= <-]). cbn.
    apply delete_subseteq.
  - by rewrite Hx.
Qed.

(** ** The whole operation *)
(** Deleting a user: when it succeeds, the user existed, had no media under the
    own directory, and was not the last administrator; the record is gone and every
    other record is as it was; every album keeps exactly the shares that others
    created; and nothing else in the metadata changed but the personal album's own
    row, which may be gone.  When it fails at any step, no user record has changed,
    the shares of each album are as they were or without the user's, and the
    operation can be tried again. *)
Theorem delete_user_spec c id s users :
  reads (user_store s) users ->
  let '(r, s') := delete_user c id s in
  match r with
  | Ok _ =>
      exists u, validate_user_id id = Ok (trim id) /\ users !! trim id = Some u /\
        has_personal_photos c (trim id) = false /\
        (admin u = true -> (1 < size (admins users))%nat) /\
        reads (user_store s') (delete (trim id) users) /\
        metadata s' ⊆ stripped (trim id) <$> metadata s /\
        map_Forall (fun _ => free_of (trim id)) (metadata s')
  | Err _ =>
      reads (user_store s') users /\
      (metadata s' = metadata s \/ metadata s' ⊆ stripped (trim id) <$> metadata s)
  end.
Proof.
  intros Hr. unfold delete_user, then_ at 1, lift at 1.
  destruct (validate_user_id id) as [target|e] eqn:Hid; cbn [map_err]; [|by split; [|left]].
  pose proof (validated_trim _ _ Hid) as ->.
  unfold then_ at 1, read_user, peek_users at 1.
  pose proof (read_keeps (Rd:=c_user_io c) (trim id) _ _ Hr) as Hr1.
  destruct (UserDb.read (trim id) (user_store s)) as [[u|] st1] eqn:Hrd; [|by split; [|left]].
  cbn [snd] in Hr1. set (s1 := with_user_store st1 s).
  assert (reads (user_store s1) users /\ metadata s1 = metadata s) as Hs1 by done.
  clearbody s1. unfold then_ at 1.
  match goal with |- context [match ?g s1 with _ => _ end] => set (guard := g) end.
  assert (reads (user_store (guard s1).2) users /\ metadata (guard s1).2 = metadata s) as Hs2.
  { subst guard. destruct (admin u); [|done]. destruct Hs1 as [Hs1 Hm1].
    unfold then_, peek_users. pose proof (list_keeps (Rd:=c_user_io c) _ _ Hs1) as Hl.
    destruct (UserDb.list (user_store s1)) as [rows st2]. by case_match. }
  destruct (guard s1) as [[[]|e] s2]; cbn [snd] in Hs2; destruct Hs2 as [Hr2 Hm2];
    [|by split; [|left; rewrite Hm2]].
  destruct (has_personal_photos c (trim id)) eqn:Hph; [by split; [|left; cbn; rewrite Hm2]|].
  unfold then_ at 1. pose proof (cascade_spec c (trim id) s2) as Hc.
  destruct (cascade_owned_shares c (trim id) s2) as [[[]|e] s3]; destruct Hc as [Hu3 Hm3];
    [|by split; [rewrite Hu3|left; rewrite Hm3, Hm2]].
  unfold then_ at 1. destruct (prune_shrinks c (trim id) s3) as [Hm4 Hu4]. unfold shrinks in Hm4.
  rewrite Hm3, Hm2 in Hm4. rewrite Hu3 in Hu4. rewrite <-Hu4 in Hr2.
  destruct (prune_personal_album c (trim id) s3) as [[[]|e] s4]; cbn [snd] in *;
    [|by split; [|right]].
  unfold then_, on_users. destruct (UserDb.delete (trim id) false (user_store s4)) as [r st5] eqn:Hdel.
  pose proof (rmw_atomic (Rd:=c_user_io c) _ _ _ _ _ Hr2 Hdel) as Hat. rewrite trim_idemp in Hat.
  destruct r as [removed|e]; cbn [map_err]; [|by split; [|right]].
  destruct Hat as (m & Hfn & Hm). unfold delete_fn in Hfn.
  destruct (users !! trim id) as [cur|] eqn:Hcur.
  - destruct (admin cur && negb false && (size (admins users) <=? 1)%nat) eqn:Hg; [done|].
    injection Hfn as <- <-. cbn. exists cur. split_and!; try done.
    + intros Ha. rewrite Ha in Hg. cbn in Hg. apply Nat.leb_gt in Hg. lia.
    + apply Hm. apply map_Forall_delete. by apply (represents_ok _ _ Hr).
    + intros k row Hk. eapply lookup_weaken in Hk; [|exact Hm4].
      apply lookup_fmap_Some in Hk as (row' & <- & _). apply stripped_free.
  - injection Hfn as <- <-. cbn. split; [|by right]. apply Hm. by apply (represents_ok _ _ Hr).
Qed.
End Steps.

(** ** Witnesses: the locked administrator is deleted *)
Import (hints) ServerWitness.
Import (hints) HomeWitness.
Import (hints) PathWitness.
Import (hints) TokenWitness.

Lemma delete_user_spec_witness : exists s',
  delete_user ServerWitness.ctx UserWitness.bob ServerWitness.team = (Ok tt, s') /\
  reads (user_store s') (delete UserWitness.bob UserWitness.team).
Proof.
  pose proof (delete_user_spec ServerWitness.ctx UserWitness.bob ServerWitness.team UserWitness.team
    UserWitness.st_reads) as H.
  destruct (delete_user _ _ _) as [[[]|e] s'] eqn:Hd;
    [|exfalso; apply (f_equal fst) in Hd; vm_compute in Hd; discriminate].
  exists s'. split; [reflexivity|]. destruct H as (u & _ & _ & _ & _ & H & _). exact H.
Defined.

Lemma unreadable_photos_do_not_count_witness :
  walk (I:={| infer_get _ := Err (lit "denied") |}) (Listing [RegularFile (lit "a.jpg")]) = false.
Proof.
  refine (unreadable_photos_do_not_count (I:={| infer_get _ := Err (lit "denied") |}) _ _ _).
  - intros Hu. inversion Hu as [|? Hin|? ? Hin]; subst;
      by apply list_elem_of_singleton in Hin.
  - intros p _. by eexists.
Defined.
