(* ===== verification/Shares.v ===== *)
(** * Shares: creating, editing, deleting and revealing share links
      ([backend/src/router/post/create_share.rs], [put/edit_share.rs],
      [get/get_share_token.rs])

    The handlers are steps on the server of [Accounts].  A share lives in its
    album's metadata row under its bearer token; listings and edits name it by
    its fingerprint.  The share map is iterated in no order: a lookup by
    fingerprint takes the first match of some enumeration. *)

From S2P Require Import Prelude Errors Redb Password UserStore Revocations Invites LoginThrottle.
From S2P Require Import Paths Formats Model MetadataRecord DirAlbum Tokens RouterAuth IndexStore.
From S2P Require Import DirAlbumStore Accounts.

Record CreateShare := mkCreateShare {
  cs_album_id : str; cs_description : str; cs_password : option str; cs_show_metadata : bool;
  cs_show_download : bool; cs_show_upload : bool; cs_exp : Z
}.
Record EditShare := mkEditShare { es_album_id : str; es_share : Share }.
Record DeleteShare := mkDeleteShare { ds_album_id : str; ds_share_id : str }.
Inductive ShareReply :=
| Created (link fingerprint : str)
| Edited
| Deleted
| Revealed (token : str).

Section Shares.
Context {Jc : JsonCodec} {Lh : LegacyHash} {Ca : Casing} {Cr : Crypto} {J : Jwt} {Tc : TokenCodec}.
Context {F : Fs}.

(** [Share::fingerprint]. *)
Definition fingerprint (s : Share) : str := take 16 (blake3_hex (url s)).

(** One write transaction of the metadata table; [wrap] is how a handler turns a
    failed call into an error. *)
Definition metadata_txn {A} (c : Ctx) (wrap : forall {B}, string -> result str B -> app_result B)
    (body : Redb -> gmap str MetadataRecord -> app_result (A * gmap str MetadataRecord)) : Api A :=
  fun s =>
  let ix := index (library s) in
  let Rd := fate (Fates:=c_fates c) (ticks ix) in
  match (_ ← wrap "Failed to begin transaction" (redb BeginWrite);
         _ ← wrap "Failed to open data table" (redb OpenTable);
         at_ ← body Rd (payloads ix);
         _ ← wrap "Failed to commit transaction" (redb Commit);
         Ok at_) with
  | Ok (a, t) => (Ok a, with_library (mkLib (tick (set_payloads t ix)) (albums (library s))) s)
  | Err e => (Err (Failed e), with_library (mkLib (tick ix) (albums (library s))) s)
  end.
Definition unwrapped {B} (_ : string) (r : result str B) : app_result B := map_err (from_err Database) r.
Definition raised {B} (msg : string) (r : result str B) : app_result B := or_raise Database (lit msg) r.

(** The row as an album. *)
Definition album_row (album_id : str) (t : gmap str MetadataRecord) : option AlbumPayload :=
  match t !! album_id with Some (MAlbum a) => Some a | _ => None end.
Definition find_share (fp : str) (a : AlbumPayload) : option (str * Share) :=
  List.find (fun kv => str_eqb (fingerprint kv.2) fp) (map_to_list (ap_shares a)).

(** The ownership check in front of every write: the album's directory is known
    and visible to the caller. *)
Definition visible_album (c : Ctx) (caller album_id : str) : Api unit := fun s =>
  match get_dir_path_for_album album_id (albums (library s)) with
  | None => raise NotFound (lit "Album not found") s
  | Some dir =>
      if visible_to (c_roots c) caller dir then (Ok tt, s)
      else raise NotFound (lit "Album not found") s
  end.

(** *** [create_share] *)
Definition create_and_insert_share (c : Ctx) (req : CreateShare) (creator : str) (Rd : Redb)
    (t : gmap str MetadataRecord) : app_result (ShareReply * gmap str MetadataRecord) :=
  _ ← unwrapped "" (redb (Get (cs_album_id req)));
  match album_row (cs_album_id req) t with
  | None => fail NotFound (lit "Album not found")
  | Some album =>
      let link := c_new_id c in
      share_id ← option_or_raise Internal (lit "Failed to create share ID") (array_string link);
      let share := mkShare share_id (cs_description req)
        (hash_share_password (weak_env (c_policy c)) (c_rng c) <$> cs_password req)
        (cs_show_metadata req) (cs_show_download req) (cs_show_upload req) (cs_exp req) creator in
      _ ← unwrapped "" (redb (Insert (cs_album_id req)));
      Ok (Created link (fingerprint share),
          <[cs_album_id req := MAlbum (with_shares (<[share_id := share]> (ap_shares album)) album)]> t)
  end.
Definition create_share (c : Ctx) (req : CreateShare) : Api ShareReply :=
  let? claims := guarded (user_claims c) in
  let? _ := guarded (may_mutate c) in
  let creator := (caller_identity claims).1 in
  let? record := read_user c creator in
  if is_some_and (fun r => negb (shares_enabled r)) record
  then raise PermissionDenied (lit "Sharing disabled")
  else
    let? _ := visible_album c creator (cs_album_id req) in
    let? _ := lift (map_err (from_err Internal) (c_join c)) in
    metadata_txn c (@unwrapped) (create_and_insert_share c req creator).

(** *** [edit_share] *)
Definition edited (c : Ctx) (caller : str) (incoming : Share) (stored_url : str) (existing : Share)
  : Share :=
  mkShare stored_url (share_description incoming)
    (match password incoming with
     | Some [] => None
     | None => password existing
     | Some pw => Some (hash_share_password (weak_env (c_policy c)) (c_rng c) pw)
     end)
    (show_metadata incoming) (show_download incoming) (show_upload incoming) (exp incoming)
    (if is_empty (created_by existing) then caller else created_by existing).
Definition replace_share (c : Ctx) (req : EditShare) (caller : str) (Rd : Redb)
    (t : gmap str MetadataRecord) : app_result (ShareReply * gmap str MetadataRecord) :=
  _ ← raised "Failed to get album" (redb (Get (es_album_id req)));
  match album_row (es_album_id req) t with
  | None => Ok (Edited, t)
  | Some album =>
      match find_share (url (es_share req)) album with
      | None => Ok (Edited, t)
      | Some (stored_url, existing) =>
          if negb (str_eqb (created_by existing) caller)
          then fail PermissionDenied (lit "Share not owned by caller")
          else
            _ ← raised "Failed to update album" (redb (Insert (es_album_id req)));
            Ok (Edited, <[es_album_id req := MAlbum (with_shares
                  (<[stored_url := edited c caller (es_share req) stored_url existing]> (ap_shares album))
                  album)]> t)
      end
  end.
Definition refreshed (c : Ctx) : Api unit :=
  lift (or_raise Internal (lit "Failed to update tree") (c_refreshed c)).
Definition edit_share (c : Ctx) (req : EditShare) : Api ShareReply :=
  let? claims := guarded (user_claims c) in
  let? _ := guarded (may_mutate c) in
  let caller := (caller_identity claims).1 in
  let? _ := visible_album c caller (es_album_id req) in
  let? r := blocking c (metadata_txn c (@raised) (replace_share c req caller)) in
  let? _ := refreshed c in
  pure r.

(** *** [delete_share] *)
Definition remove_share (req : DeleteShare) (caller : str) (caller_is_admin : bool) (Rd : Redb)
    (t : gmap str MetadataRecord) : app_result (ShareReply * gmap str MetadataRecord) :=
  _ ← raised "Failed to get album" (redb (Get (ds_album_id req)));
  match album_row (ds_album_id req) t with
  | None => Ok (Deleted, t)
  | Some album =>
      album ← match find_share (ds_share_id req) album with
              | None => Ok album
              | Some (stored_key, existing) =>
                  if negb (str_eqb (created_by existing) caller) && negb caller_is_admin
                  then fail PermissionDenied (lit "Share not owned by caller")
                  else Ok (with_shares (delete stored_key (ap_shares album)) album)
              end;
      _ ← raised "Failed to update album" (redb (Insert (ds_album_id req)));
      Ok (Deleted, <[ds_album_id req := MAlbum album]> t)
  end.
Definition delete_share (c : Ctx) (req : DeleteShare) : Api ShareReply :=
  let? claims := guarded (user_claims c) in
  let? _ := guarded (may_mutate c) in
  let '(caller, caller_is_admin) := caller_identity claims in
  let? _ := visible_album c caller (ds_album_id req) in
  let? r := blocking c (metadata_txn c (@raised) (remove_share req caller caller_is_admin)) in
  let? _ := refreshed c in
  pure r.

(** *** [get_share_token] *)
Definition get_share_token (c : Ctx) (album_id fp : str) : Api ShareReply :=
  let? claims := guarded (user_claims c) in
  let caller := (caller_identity claims).1 in
  let? album_id := lift (option_or_raise NotFound (lit "Album not found") (array_string album_id)) in
  let? _ := visible_album c caller album_id in
  fun s =>
  let ix := index (library s) in
  let Rd := fate (Fates:=c_fates c) (ticks ix) in
  let r :=
    _ ← raised "Failed to begin transaction" (redb BeginRead);
    _ ← raised "Failed to open data table" (redb OpenTable);
    _ ← raised "Failed to get album" (redb (Get album_id));
    match (album ← album_row album_id (payloads ix); find_share fp album) with
    | Some (token, share) =>
        if str_eqb (created_by share) caller then Ok (Revealed token)
        else fail NotFound (lit "Share not found")
    | None => fail NotFound (lit "Share not found")
    end in
  lift r (with_library (mkLib (tick ix) (albums (library s))) s).

Inductive ShareCall :=
| CreateCall (req : CreateShare) | EditCall (req : EditShare) | DeleteCall (req : DeleteShare)
| RevealCall (album_id fp : str).
Definition serve_share (c : Ctx) (call : ShareCall) : Api ShareReply :=
  match call with
  | CreateCall req => create_share c req
  | EditCall req => edit_share c req
  | DeleteCall req => delete_share c req
  | RevealCall a fp => get_share_token c a fp
  end.
End Shares.

(** ** Who may change a share *)
Abbreviation metadata s := (payloads (index (library s))).
Definition share_at (t : gmap str MetadataRecord) (row key : str) : option Share :=
  a ← album_row row t; ap_shares a !! key.
(** A row without its shares. *)
Definition shareless (m : MetadataRecord) : MetadataRecord :=
  match m with MAlbum a => MAlbum (with_shares ∅ a) | _ => m end.
(** Every share is stored under its bearer token. *)
Definition well_keyed (t : gmap str MetadataRecord) : Prop :=
  forall row key sh, share_at t row key = Some sh -> url sh = key.

(** What [caller] may do to one entry: put in place, or replace, the caller's own;
    take away the caller's own, or any as an administrator. *)
Inductive may_become (caller : str) (caller_is_admin : bool) : option Share -> option Share -> Prop :=
| unchanged o : may_become caller caller_is_admin o o
| own_new sh : created_by sh = caller -> may_become caller caller_is_admin None (Some sh)
| own_edit sh sh' : created_by sh = caller -> created_by sh' = caller ->
    may_become caller caller_is_admin (Some sh) (Some sh')
| taken sh : created_by sh = caller \/ caller_is_admin = true ->
    may_become caller caller_is_admin (Some sh) None.
(** And to the whole table: nothing but entries of the album [row]. *)
Record within (caller : str) (caller_is_admin : bool) (row : str) (t t' : gmap str MetadataRecord) : Prop := {
  within_rest : shareless <$> t' = shareless <$> t;
  within_other row' : row' <> row -> t' !! row' = t !! row';
  within_entries key : may_become caller caller_is_admin (share_at t row key) (share_at t' row key);
  within_keyed : well_keyed t -> well_keyed t'
}.

Section Authority.
Context {Jc : JsonCodec} {Lh : LegacyHash} {Ca : Casing} {Cr : Crypto} {J : Jwt} {Tc : TokenCodec}.
Context {F : Fs}.

Lemma within_refl caller adm row t : within caller adm row t t.
Proof. split; [done|done|constructor|done]. Qed.

Lemma album_row_insert row a t row' :
  album_row row' (<[row := MAlbum a]> t) = if decide (row' = row) then Some a else album_row row' t.
Proof.
  unfold album_row. destruct (decide (row' = row)) as [->|]; by rewrite ?lookup_insert_eq, ?lookup_insert_ne.
Qed.

(** Replacing the shares of one album. *)
Lemma within_insert caller adm row t a shares :
  album_row row t = Some a ->
  (forall key, may_become caller adm (ap_shares a !! key) (shares !! key)) ->
  ((forall key sh, ap_shares a !! key = Some sh -> url sh = key) ->
   forall key sh, shares !! key = Some sh -> url sh = key) ->
  within caller adm row t (<[row := MAlbum (with_shares shares a)]> t).
Proof.
  intros Ha Hent Hkey. split.
  - rewrite fmap_insert. unfold album_row in Ha. apply map_eq. intros k.
    destruct (decide (k = row)) as [->|]; [|by rewrite lookup_insert_ne].
    rewrite lookup_insert_eq, lookup_fmap. destruct (t !! row) as [[| |a']|]; by simplify_eq/=.
  - intros row' Hne. by rewrite lookup_insert_ne.
  - intros key. unfold share_at. rewrite album_row_insert, Ha, decide_True by done. apply Hent.
  - intros Hwk row' key sh. unfold share_at. rewrite album_row_insert.
    destruct (decide (row' = row)) as [->|]; [|apply Hwk].
    cbn. apply Hkey. intros key' sh' Hk. apply (Hwk row key' sh'). unfold share_at. by rewrite Ha.
Qed.

Lemma find_share_Some fp a key sh : find_share fp a = Some (key, sh) ->
  ap_shares a !! key = Some sh /\ fingerprint sh = fp.
Proof.
  intros Hf. apply List.find_some in Hf as [Hin Hfp]. apply str_eqb_eq in Hfp.
  split; [|done]. apply elem_of_map_to_list. by apply list_elem_of_In.
Qed.

Lemma create_within c req creator Rd t r t' :
  share_at t (cs_album_id req) (c_new_id c) = None ->
  create_and_insert_share c req creator Rd t = Ok (r, t') ->
  within creator false (cs_album_id req) t t' /\
  r = Created (c_new_id c) (fingerprint (mkShare (c_new_id c) [] None false false false 0 [])).
Proof.
  intros Hnew Hc. unfold create_and_insert_share in Hc. apply bind_Ok in Hc as (? & _ & Hc).
  destruct (album_row (cs_album_id req) t) as [a|] eqn:Ha; [|done].
  apply bind_Ok in Hc as (link & Hl & Hc). apply bind_Ok in Hc as (? & _ & [= <- <-]).
  assert (link = c_new_id c) as ->.
  { unfold array_string in Hl. destruct (str_len _ <=? 64); simplify_eq/=; done. }
  unfold share_at in Hnew. rewrite Ha in Hnew. cbn in Hnew. split; [|done].
  apply within_insert; [done| |].
  - intros key. destruct (decide (key = c_new_id c)) as [->|].
    + rewrite lookup_insert_eq, Hnew. by constructor.
    + rewrite lookup_insert_ne by done. constructor.
  - intros Hwk key sh [[<- <-]|[_ Hk]]%lookup_insert_Some; [done|by apply Hwk].
Qed.

Lemma edited_by c caller incoming u existing : created_by existing = caller ->
  created_by (edited c caller incoming u existing) = caller.
Proof. intros <-. unfold edited. cbn. by destruct (is_empty _). Qed.

Lemma replace_within c req caller Rd t r t' :
  replace_share c req caller Rd t = Ok (r, t') -> within caller false (es_album_id req) t t'.
Proof.
  intros Hc. unfold replace_share in Hc. apply bind_Ok in Hc as (? & _ & Hc).
  destruct (album_row (es_album_id req) t) as [a|] eqn:Ha; [|simplify_eq; apply within_refl].
  destruct (find_share _ a) as [[key sh]|] eqn:Hf; [|simplify_eq; apply within_refl].
  apply find_share_Some in Hf as [Hk _].
  destruct (str_eqb (created_by sh) caller) eqn:Hcb; [|done]. cbn [negb] in Hc.
  apply str_eqb_eq in Hcb. apply bind_Ok in Hc as (? & _ & [= _ <-]).
  apply within_insert; [done| |].
  - intros key'. destruct (decide (key' = key)) as [->|].
    + rewrite lookup_insert_eq, Hk. constructor; [done|]. by apply edited_by.
    + rewrite lookup_insert_ne by done. constructor.
  - intros Hwk key' sh' [[<- <-]|[_ Hk']]%lookup_insert_Some; [done|by apply Hwk].
Qed.

Lemma with_shares_same a : with_shares (ap_shares a) a = a.
Proof. by destruct a. Qed.
Lemma remove_within req caller adm Rd t r t' :
  remove_share req caller adm Rd t = Ok (r, t') -> within caller adm (ds_album_id req) t t'.
Proof.
  intros Hc. unfold remove_share in Hc. apply bind_Ok in Hc as (? & _ & Hc).
  destruct (album_row (ds_album_id req) t) as [a|] eqn:Ha; [|simplify_eq; apply within_refl].
  apply bind_Ok in Hc as (a' & Hf & Hc). apply bind_Ok in Hc as (? & _ & [= _ <-]).
  destruct (find_share _ a) as [[key sh]|] eqn:Hs.
  - apply find_share_Some in Hs as [Hk _].
    destruct (negb (str_eqb (created_by sh) caller) && negb adm) eqn:Hcb; [done|].
    injection Hf as <-. apply within_insert; [done| |].
    + intros key'. destruct (decide (key' = key)) as [->|].
      * rewrite lookup_delete_eq, Hk. constructor.
        destruct (str_eqb (created_by sh) caller) eqn:He; [left; by apply str_eqb_eq|right].
        by destruct adm.
      * rewrite lookup_delete_ne by done. constructor.
    + intros Hwk key' sh' [_ Hk']%lookup_delete_Some. by apply Hwk.
  - injection Hf as <-. rewrite <-(with_shares_same a) at 1.
    apply within_insert; [done|constructor|auto].
Qed.

Lemma metadata_txn_cases {A} c wrap body s :
  let '(r, s') := metadata_txn (A:=A) c wrap body s in
  user_store s' = user_store s /\ albums (library s') = albums (library s) /\
  match r with
  | Ok a => exists t, body (fate (Fates:=c_fates c) (ticks (index (library s)))) (metadata s) = Ok (a, t)
              /\ metadata s' = t
  | Err _ => metadata s' = metadata s
  end.
Proof.
  unfold metadata_txn.
  destruct (mbind _ _) as [[a t]|e] eqn:Hb; split_and!; try done.
  apply bind_Ok in Hb as (? & _ & Hb). apply bind_Ok in Hb as (? & _ & Hb).
  apply bind_Ok in Hb as ([a' t'] & Hb & Hc). apply bind_Ok in Hc as (? & _ & [= <- <-]). by exists t'.
Qed.
Lemma within_mono caller adm row t t' : within caller false row t t' -> within caller adm row t t'.
Proof.
  intros [H1 H2 H3 H4]. split; [done|done| |done]. intros key.
  destruct (H3 key) as [o|sh Hc|sh sh' Hc Hc'|sh [Hc|]]; try done; constructor; auto.
Qed.

Lemma visible_album_cases c caller album_id s :
  (exists e, visible_album c caller album_id s = (Err e, s)) \/
  (visible_album c caller album_id s = (Ok tt, s) /\
   exists dir, get_dir_path_for_album album_id (albums (library s)) = Some dir /\
     visible_to (c_roots c) caller dir = true).
Proof.
  unfold visible_album. destruct (get_dir_path_for_album _ _) as [dir|]; [|left; by eexists].
  destruct (visible_to _ _ dir) eqn:Hv; [|left; by eexists]. right. split; [done|]. by exists dir.
Qed.
Lemma user_claims_role c s claims : user_claims c s = Ok claims ->
  exists id adm, role claims = RUser id adm /\ caller_identity claims = (id, adm).
Proof.
  unfold user_claims. destruct (guard_user _ _ _) as [cl|] eqn:Hg; [|done]. intros [= <-].
  apply guard_user_admitted in Hg as (token & cl' & id & flag & r & _ & _ & Hr & _ & ->).
  exists id, (admin r). unfold caller_identity, with_admin. by rewrite Hr.
Qed.

Definition target_album (call : ShareCall) : str :=
  match call with
  | CreateCall req => cs_album_id req | EditCall req => es_album_id req
  | DeleteCall req => ds_album_id req | RevealCall a _ => a
  end.
(** The drawn identifier is not a share of the album yet. *)
Definition link_fresh (c : Ctx) (call : ShareCall) (s : Server) : Prop :=
  match call with
  | CreateCall req => share_at (metadata s) (cs_album_id req) (c_new_id c) = None
  | _ => True
  end.

(** A request that got past its checks. *)
Record cleared (c : Ctx) (s : Server) (album_id id : str) (adm : bool) : Prop := {
  cleared_claims : exists claims, user_claims c s = Ok claims /\ role claims = RUser id adm;
  cleared_mode : c_read_only c = false;
  cleared_album : exists dir, get_dir_path_for_album album_id (albums (library s)) = Some dir /\
    visible_to (c_roots c) id dir = true
}.

(** The checks in front of each handler, and the state its transaction runs in. *)
Lemma guarded_flow {A} c s (k : ClaimsSession -> unit -> Api A) :
  (exists e, then_ (guarded (user_claims c)) (fun cl => then_ (guarded (may_mutate c)) (k cl)) s = (Err e, s)) \/
  exists claims id adm, user_claims c s = Ok claims /\ role claims = RUser id adm /\
    caller_identity claims = (id, adm) /\ c_read_only c = false /\
    then_ (guarded (user_claims c)) (fun cl => then_ (guarded (may_mutate c)) (k cl)) s = k claims tt s.
Proof.
  unfold then_, guarded. destruct (user_claims c s) as [claims|e] eqn:Hc; [|left; by eexists].
  destruct (user_claims_role _ _ _ Hc) as (id & adm & Hr & Hi). cbn [map_err].
  unfold may_mutate, guard_mutate. cbn [read_only_mode view].
  destruct (c_read_only c) eqn:Hro; [left; by eexists|]. right. by exists claims, id, adm.
Qed.

Ltac enter c s :=
  match goal with
  | |- context [then_ (guarded (user_claims c)) (fun cl => then_ (guarded (may_mutate c)) (@?k cl)) s] =>
      let H := fresh in
      destruct (guarded_flow c s k) as [[e H]|(claims & id & adm & Hc & Hr & Hi & Hro & H)];
      cbn beta in H; rewrite H; clear H; [by left|rewrite Hi; cbn [fst]]
  end.

(** The common end of the handlers that edit and delete. *)
Definition checked_txn (c : Ctx) (caller album_id : str)
    (body : Redb -> gmap str MetadataRecord -> app_result (ShareReply * gmap str MetadataRecord))
  : Api ShareReply :=
  let? _ := visible_album c caller album_id in
  let? r := blocking c (metadata_txn c (@raised) body) in
  let? _ := refreshed c in
  pure r.
Lemma checked_txn_flow c id adm row body s :
  (forall Rd t r t', body Rd t = Ok (r, t') -> within id adm row t t') ->
  let s' := (checked_txn c id row body s).2 in
  metadata s' = metadata s \/
  (exists dir, get_dir_path_for_album row (albums (library s)) = Some dir /\
     visible_to (c_roots c) id dir = true) /\ within id adm row (metadata s) (metadata s').
Proof.
  intros Hbody s'. subst s'. unfold checked_txn, then_, blocking, refreshed, lift, pure, then_.
  destruct (visible_album_cases c id row s) as [[e Hv]|[Hv Hdir]]; rewrite Hv; [by left|].
  destruct (c_join c); [|by left]. cbn [or_raise map_err].
  pose proof (metadata_txn_cases c (@raised) body s) as Hx.
  destruct (metadata_txn _ _ _ s) as [[r|e] s2]; destruct Hx as (_ & _ & Hx); [|by left].
  destruct Hx as (t & Hb & Ht). right. split; [done|].
  apply Hbody in Hb. rewrite <-Ht in Hb. destruct (c_refreshed c); exact Hb.
Qed.

(** C14: Whatever a share request answers, the albums' rows are unchanged, or the caller
    has a session and may mutate, the album is one the caller can see, and nothing
    but entries of its share map changed: new entries are the caller's, replaced
    entries were and stay the caller's, and removed ones were the caller's unless
    the caller is an administrator. *)
Theorem share_authority c call s :
  link_fresh c call s ->
  let s' := (serve_share c call s).2 in
  metadata s' = metadata s \/
  exists id adm, cleared c s (target_album call) id adm /\
    within id adm (target_album call) (metadata s) (metadata s').
Proof.
  intros Hfresh s'. subst s'. destruct call as [req|req|req|a fp]; cbn [serve_share target_album].
  - unfold create_share. enter c s. unfold then_, read_user, peek_users, lift.
    destruct (UserDb.read id (user_store s)) as [record st].
    set (s1 := with_user_store st s). destruct (is_some_and _ _); [by left|].
    destruct (visible_album_cases c id (cs_album_id req) s1) as [[e Hv]|[Hv Hdir]]; rewrite Hv; [by left|].
    destruct (c_join c); [|by left]. cbn [map_err].
    pose proof (metadata_txn_cases c (@unwrapped) (create_and_insert_share c req id) s1) as Hx.
    destruct (metadata_txn _ _ _ s1) as [[r|e] s2]; destruct Hx as (_ & _ & Hx); [|by left].
    destruct Hx as (t & Hb & Ht). right. exists id, adm.
    split; [split; [by exists claims|done|exact Hdir]|]. cbn [snd]. rewrite Ht.
    apply within_mono. by apply create_within in Hb as [Hw _].
  - unfold edit_share. enter c s. edestruct (checked_txn_flow c id adm (es_album_id req) (replace_share c req id) s)
      as [He|[Hdir Hw]]; [by intros ? ? ? ? Hx%replace_within; apply within_mono|by left|].
    right. exists id, adm. split; [split; [by exists claims|done|exact Hdir]|exact Hw].
  - unfold delete_share. enter c s. edestruct (checked_txn_flow c id adm (ds_album_id req) (remove_share req id adm) s)
      as [He|[Hdir Hw]]; [by intros ????; apply remove_within|by left|].
    right. exists id, adm. split; [split; [by exists claims|done|exact Hdir]|exact Hw].
  - left. unfold get_share_token, then_, guarded, lift. destruct (user_claims c s) as [claims|e]; [|done].
    cbn [map_err]. destruct (option_or_raise _ _ _) as [a'|e]; [|done]. cbn [map_err].
    by destruct (visible_album_cases c (caller_identity claims).1 a' s) as [[e ->]|[-> _]].
Qed.
End Authority.

(** ** What a share request does *)
Section Life.
Context {Jc : JsonCodec} {Lh : LegacyHash} {Ca : Casing} {Cr : Crypto} {Cl : CryptoLaws} {J : Jwt}
  {Tc : TokenCodec}.
Context {F : Fs}.

(** The share a creation stores. *)
Definition new_share_of (c : Ctx) (req : CreateShare) (creator : str) : Share :=
  mkShare (c_new_id c) (cs_description req)
    (hash_share_password (weak_env (c_policy c)) (c_rng c) <$> cs_password req)
    (cs_show_metadata req) (cs_show_download req) (cs_show_upload req) (cs_exp req) creator.

Lemma create_ok c req s r s' : create_share c req s = (Ok r, s') ->
  exists id adm a, cleared c s (cs_album_id req) id adm /\
    album_row (cs_album_id req) (metadata s) = Some a /\
    r = Created (c_new_id c) (fingerprint (new_share_of c req id)) /\
    albums (library s') = albums (library s) /\ user_store s' = (UserDb.read (Rd:=c_user_io c) id (user_store s)).2 /\
    metadata s' = <[cs_album_id req := MAlbum (with_shares
                     (<[c_new_id c := new_share_of c req id]> (ap_shares a)) a)]> (metadata s).
Proof.
  unfold create_share, then_, guarded, read_user, peek_users, lift.
  destruct (user_claims c s) as [claims|e] eqn:Hc; [|done]. cbn [map_err].
  destruct (user_claims_role _ _ _ Hc) as (id & adm & Hr & Hi). rewrite Hi. cbn [fst].
  unfold may_mutate, guard_mutate. cbn [read_only_mode view]. destruct (c_read_only c) eqn:Hro; [done|]. cbn [map_err].
  destruct (UserDb.read id (user_store s)) as [record st] eqn:Hrd. cbn [snd]. set (s1 := with_user_store st s).
  destruct (is_some_and _ _); [done|].
  destruct (visible_album_cases c id (cs_album_id req) s1) as [[e ->]|[-> Hdir]]; [done|].
  destruct (c_join c) as [[]|]; [|done]. cbn [map_err].
  pose proof (metadata_txn_cases c (@unwrapped) (create_and_insert_share c req id) s1) as Hx.
  destruct (metadata_txn _ _ _ s1) as [[r1|e] s2]; destruct Hx as (Hu & Hal & Hx); [|done].
  intros [= -> ->]. destruct Hx as (t & Hb & Ht). unfold create_and_insert_share in Hb.
  apply bind_Ok in Hb as (? & _ & Hb).
  destruct (album_row (cs_album_id req) (metadata s1)) as [a|] eqn:Ha; [|done].
  apply bind_Ok in Hb as (link & Hl & Hb). apply bind_Ok in Hb as (? & _ & [= <- <-]).
  assert (link = c_new_id c) as ->.
  { unfold array_string in Hl. destruct (str_len _ <=? 64); simplify_eq/=; done. }
  exists id, adm, a. split_and!; try done.
  - split; [by exists claims|done|exact Hdir].
  - by rewrite Hrd.
Qed.

(** A link that was just created: it carries the settings asked for, and opens, for
    whoever presents its password if it has one, until it expires and while its
    creator may share. *)
Theorem created_link_opens c req s link fp s' c' uuid :
  serve_share c (CreateCall req) s = (Ok (Created link fp), s') ->
  str_len (cs_album_id req) <= 64 -> c_index_io c' = healthy ->
  (forall p, cs_password req = Some p -> header (c_request c') (lit "x-share-password") = Some p) ->
  (cs_exp req <= 0 \/ Z.quot (c_now c') 1000 <= cs_exp req)%Z ->
  (forall id, creator_stopped_sharing (view c' s') (new_share_of c req id) = false) ->
  exists claims sh title,
    resolve_share_internal (view c' s') (c_now c') uuid (cs_album_id req) link (c_request c')
      = Ok (Some claims) /\
    role claims = RShare (new_resolved (cs_album_id req) title sh) /\ url sh = link /\
    show_metadata sh = cs_show_metadata req /\ show_download sh = cs_show_download req /\
    show_upload sh = cs_show_upload req.
Proof.
  cbn [serve_share]. intros Hc Hlen Hio Hpw Hexp Hstop.
  apply create_ok in Hc as (id & adm & a & _ & Ha & [= -> _] & _ & _ & Hm).
  set (stored := new_share_of c req id) in *. set (w := view c' s').
  assert (tree_db w = healthy) as Hdb by exact Hio.
  assert (RouterAuth.metadata w !! cs_album_id req
    = Some (MAlbum (with_shares (<[c_new_id c := stored]> (ap_shares a)) a))) as Hrow.
  { unfold w. cbn [view RouterAuth.metadata]. rewrite Hm. apply lookup_insert_eq. }
  assert (creator_stopped_sharing w stored = false) as Hst by apply Hstop. clearbody w.
  unfold resolve_share_internal, open_metadata. rewrite Hdb, Hrow.
  cbn [redb healthy fault map_err mbind result_bind ap_shares with_shares]. rewrite lookup_insert_eq.
  cbn [option_or_raise ok_or mbind result_bind]. rewrite Hst. subst stored.
  unfold validate_share_access. cbn [exp new_share_of].
  assert ((0 <? cs_exp req)%Z && (cs_exp req <? Z.quot (c_now c') 1000)%Z = false) as ->.
  { apply andb_false_iff. destruct Hexp; [left; apply Z.ltb_ge; lia|right; apply Z.ltb_ge; lia]. }
  unfold array_string. rewrite (proj2 (N.leb_le _ _) Hlen).
  cbn [password new_share_of]. destruct (cs_password req) as [p|] eqn:Hp; cbn [fmap option_fmap option_map].
  - rewrite (Hpw p eq_refl). rewrite verify_share_hashed. cbn. by eexists _, _, _.
  - cbn. by eexists _, _, _.
Qed.
(** The handlers that edit and delete, past their checks. *)
Lemma checked_txn_ok c id row body s r s' : checked_txn c id row body s = (Ok r, s') ->
  exists t, body (fate (Fates:=c_fates c) (ticks (index (library s)))) (metadata s) = Ok (r, t) /\
    metadata s' = t /\ user_store s' = user_store s /\ albums (library s') = albums (library s).
Proof.
  unfold checked_txn, then_, blocking, refreshed, lift, pure, then_.
  destruct (visible_album_cases c id row s) as [[e ->]|[-> _]]; [done|].
  destruct (c_join c) as [[]|]; [|done]. cbn [or_raise map_err].
  pose proof (metadata_txn_cases c (@raised) body s) as Hx.
  destruct (metadata_txn _ _ _ s) as [[r1|e] s2]; destruct Hx as (Hu & Hal & Hx); [|done].
  destruct Hx as (t & Hb & Ht). destruct (c_refreshed c) as [[]|]; [|done]. intros [= -> ->]. by exists t.
Qed.
Lemma edit_ok c req s r s' : edit_share c req s = (Ok r, s') ->
  exists id, checked_txn c id (es_album_id req) (replace_share c req id) s = (Ok r, s') /\
    exists claims adm, user_claims c s = Ok claims /\ role claims = RUser id adm.
Proof.
  unfold edit_share. destruct (guarded_flow c s (fun claims _ =>
    checked_txn c (caller_identity claims).1 (es_album_id req)
      (replace_share c req (caller_identity claims).1)))
    as [[e H]|(claims & id & adm & Hc & Hr & Hi & _ & H)]; unfold checked_txn in H at 1; rewrite H; [done|].
  rewrite Hi. intros Hk. exists id. split; [exact Hk|by eexists _, _].
Qed.
Lemma delete_ok c req s r s' : delete_share c req s = (Ok r, s') ->
  exists id adm, checked_txn c id (ds_album_id req) (remove_share req id adm) s = (Ok r, s') /\
    exists claims, user_claims c s = Ok claims /\ role claims = RUser id adm.
Proof.
  unfold delete_share, then_ at 1 2, guarded. destruct (user_claims c s) as [claims|e] eqn:Hc; [|done]. cbn [map_err].
  destruct (user_claims_role _ _ _ Hc) as (id & adm & Hr & Hi). rewrite Hi.
  destruct (may_mutate c s); [|done]. cbn [map_err]. intros Hk. exists id, adm. split; [exact Hk|by exists claims].
Qed.

(** Editing a share: the caller is its creator; the link, the creator and everything
    else of the album stay; the settings are the submitted ones; and the password is
    kept when none is submitted, removed when the empty one is, and otherwise the
    submitted one opens the share. *)
Theorem edit_spec c req s s' a key sh :
  serve_share c (EditCall req) s = (Ok Edited, s') ->
  album_row (es_album_id req) (metadata s) = Some a ->
  find_share (url (es_share req)) a = Some (key, sh) ->
  exists sh', metadata s' = <[es_album_id req := MAlbum (with_shares (<[key := sh']> (ap_shares a)) a)]> (metadata s) /\
    url sh' = key /\ created_by sh' = created_by sh /\
    (exists claims adm, user_claims c s = Ok claims /\ role claims = RUser (created_by sh) adm) /\
    share_description sh' = share_description (es_share req) /\ show_metadata sh' = show_metadata (es_share req) /\
    show_download sh' = show_download (es_share req) /\ show_upload sh' = show_upload (es_share req) /\
    exp sh' = exp (es_share req) /\
    match password (es_share req) with
    | None => password sh' = password sh
    | Some [] => password sh' = None
    | Some pw => exists h, password sh' = Some h /\ verify_share_password pw h = true
    end.
Proof.
  cbn [serve_share]. intros He Ha Hf. apply edit_ok in He as (id & Hk & claims & adm & Hc & Hr).
  apply checked_txn_ok in Hk as (t & Hb & Ht & _ & _). unfold replace_share in Hb.
  apply bind_Ok in Hb as (? & _ & Hb). rewrite Ha, Hf in Hb.
  destruct (str_eqb (created_by sh) id) eqn:Hcb; [|done]. cbn [negb] in Hb. apply str_eqb_eq in Hcb.
  apply bind_Ok in Hb as (? & _ & [= <-]). exists (edited c id (es_share req) key sh).
  split_and!; try done.
  - rewrite (edited_by _ _ _ _ _ Hcb). done.
  - exists claims, adm. by rewrite Hcb.
  - unfold edited. cbn [password]. destruct (password (es_share req)) as [[|n pw]|]; [done| |done].
    eexists. split; [done|]. apply verify_share_hashed.
Qed.

(** A share without a recorded creator cannot be edited by anybody. *)
Theorem ownerless_share_is_frozen c req s a key sh :
  album_row (es_album_id req) (metadata s) = Some a ->
  find_share (url (es_share req)) a = Some (key, sh) -> created_by sh = [] ->
  (forall claims adm, user_claims c s = Ok claims -> role claims <> RUser [] adm) ->
  is_ok (serve_share c (EditCall req) s).1 = false.
Proof.
  intros Ha Hf Hcb Hid. cbn [serve_share]. destruct (edit_share c req s) as [[r|e] s'] eqn:He; [|done].
  apply edit_ok in He as (id & Hk & claims & adm & Hc & Hr).
  apply checked_txn_ok in Hk as (t & Hb & _). unfold replace_share in Hb.
  apply bind_Ok in Hb as (? & _ & Hb). rewrite Ha, Hf, Hcb in Hb.
  destruct id as [|n id]; [by destruct (Hid claims adm Hc)|done].
Qed.

(** Deleting a share: the fingerprint's share is gone, nothing else of the table has
    changed, and a request with the deleted link is refused as one with a link that
    never was, for ever: until the same link is drawn again. *)
Theorem deleted_link_is_dead c req s s' a key sh c' uuid :
  serve_share c (DeleteCall req) s = (Ok Deleted, s') ->
  album_row (ds_album_id req) (metadata s) = Some a ->
  find_share (ds_share_id req) a = Some (key, sh) -> c_index_io c' = healthy ->
  (exists claims id adm, user_claims c s = Ok claims /\ role claims = RUser id adm /\
     (created_by sh = id \/ adm = true)) /\
  metadata s' = <[ds_album_id req := MAlbum (with_shares (delete key (ap_shares a)) a)]> (metadata s) /\
  resolve_share_internal (view c' s') (c_now c') uuid (ds_album_id req) key (c_request c')
    = fail NotFound (lit "Share '" ++ key ++ lit "' not found in album '" ++ ds_album_id req ++ lit "'").
Proof.
  cbn [serve_share]. intros He Ha Hf Hio. apply delete_ok in He as (id & adm & Hk & claims & Hc & Hr).
  apply checked_txn_ok in Hk as (t & Hb & Ht & _ & _). unfold remove_share in Hb.
  apply bind_Ok in Hb as (? & _ & Hb). rewrite Ha, Hf in Hb. apply bind_Ok in Hb as (a' & Hx & Hb).
  destruct (negb (str_eqb (created_by sh) id) && negb adm) eqn:Hcb; [done|]. injection Hx as <-.
  apply bind_Ok in Hb as (? & _ & [= <-]). split_and!; [|exact Ht|].
  - exists claims, id, adm. split_and!; [done|done|]. destruct (str_eqb (created_by sh) id) eqn:Heq;
      [left; by apply str_eqb_eq|right; by destruct adm].
  - set (w := view c' s'). assert (tree_db w = healthy) as Hdb by exact Hio.
    assert (RouterAuth.metadata w !! ds_album_id req
      = Some (MAlbum (with_shares (delete key (ap_shares a)) a))) as Hrow.
    { unfold w. cbn [view RouterAuth.metadata]. rewrite Ht. apply lookup_insert_eq. }
    clearbody w. unfold resolve_share_internal, open_metadata. rewrite Hdb, Hrow.
    cbn [redb healthy fault map_err mbind result_bind ap_shares with_shares]. by rewrite lookup_delete_eq.
Qed.

(** The link is revealed to its creator alone; a share of somebody else, a
    fingerprint of no share and an album without a row get one and the same answer. *)
Theorem reveal_spec c album_id fp s claims id adm :
  user_claims c s = Ok claims -> role claims = RUser id adm -> str_len album_id <= 64 ->
  (exists dir, get_dir_path_for_album album_id (albums (library s)) = Some dir /\
     visible_to (c_roots c) id dir = true) ->
  fate (Fates:=c_fates c) (ticks (index (library s))) = healthy ->
  (serve_share c (RevealCall album_id fp) s).1 =
    match (a ← album_row album_id (metadata s); find_share fp a) with
    | Some (token, sh) =>
        if str_eqb (created_by sh) id then Ok (Revealed token)
        else Err (Failed (new_error NotFound (lit "Share not found")))
    | None => Err (Failed (new_error NotFound (lit "Share not found")))
    end.
Proof.
  intros Hc Hr Hlen (dir & Hdir & Hv) Hf. cbn [serve_share].
  unfold get_share_token, then_, guarded, lift. rewrite Hc. cbn [map_err].
  unfold caller_identity. rewrite Hr. cbn [fst]. unfold array_string.
  rewrite (proj2 (N.leb_le _ _) Hlen). cbn [option_or_raise ok_or map_err].
  unfold visible_album. rewrite Hdir, Hv, Hf. cbn [redb healthy fault raised or_raise mbind result_bind map_err].
  destruct (album_row album_id (metadata s)) as [a|]; cbn [mbind option_bind]; [|done].
  destruct (find_share fp a) as [[token sh]|]; [|done]. by destruct (str_eqb _ _).
Qed.
End Life.

(** ** Witnesses: an album with one share of the signed-in administrator and one
    without a creator *)
Module ShareWitness.
Import (hints) ServerWitness.
Import (hints) HomeWitness.
Import (hints) PathWitness.
Import (hints) TokenWitness.
Definition owned (key creator : string) : Share :=
  mkShare (lit key) [] None true false false 0 (lit creator).
Definition album : AlbumPayload :=
  with_shares (<[lit "mine" := owned "mine" "alice"]> {[lit "old" := owned "old" ""]}) AuthWitness.album.
Definition server : Server :=
  with_library (mkLib (mkIndex ∅ ∅ ∅ {[ lit "A" := MAlbum album ]} 0)
                  (mkAlbums {[ PathWitness.p "/img/2024" := lit "A" ]} ∅)) ServerWitness.solo.
Definition ctx (headers : list (str * str)) : Ctx :=
  ServerWitness.ctx_at AuthWitness.now (AuthWitness.visit headers (Some AuthWitness.token)) (lit "jti") (Ok tt).
Definition order : CreateShare := mkCreateShare (lit "A") [] (Some (lit "pw")) false true false 0.
Definition edit (key : string) : ShareCall :=
  EditCall (mkEditShare (lit "A") (mkShare (lit key) [] (Some (lit "pw")) false false false 0 [])).
Definition removal : ShareCall := DeleteCall (mkDeleteShare (lit "A") (lit "mine")).
Definition after (call : ShareCall) : Server := (serve_share (ctx []) call server).2.

Lemma after_ok call r : (serve_share (ctx []) call server).1 = Ok r ->
  serve_share (ctx []) call server = (Ok r, after call).
Proof. unfold after. destruct (serve_share _ _ _) as [r' s']. cbn. by intros ->. Qed.
Lemma session : user_claims (ctx []) server = Ok AuthWitness.session.
Proof. vm_compute. reflexivity. Qed.
Lemma row : album_row (lit "A") (metadata server) = Some album.
Proof. reflexivity. Qed.
End ShareWitness.
Import (hints) ServerWitness.
Import (hints) HomeWitness.
Import (hints) PathWitness.
Import (hints) TokenWitness.

Lemma share_authority_witness :
  let s' := (serve_share (ShareWitness.ctx []) (CreateCall ShareWitness.order) ShareWitness.server).2 in
  metadata s' = metadata ShareWitness.server \/
  exists id adm, cleared (ShareWitness.ctx []) ShareWitness.server (lit "A") id adm /\
    within id adm (lit "A") (metadata ShareWitness.server) (metadata s').
Proof.
  refine (share_authority (ShareWitness.ctx []) (CreateCall ShareWitness.order) ShareWitness.server _).
  vm_compute. reflexivity.
Defined.

Lemma created_link_opens_witness : exists claims,
  resolve_share_internal
    (view (ShareWitness.ctx [(lit "x-share-password", lit "pw")])
       (ShareWitness.after (CreateCall ShareWitness.order)))
    AuthWitness.now [] (lit "A") (lit "new")
    (c_request (ShareWitness.ctx [(lit "x-share-password", lit "pw")])) = Ok (Some claims).
Proof.
  assert (exists fp, serve_share (ShareWitness.ctx []) (CreateCall ShareWitness.order) ShareWitness.server
    = (Ok (Created (lit "new") fp), ShareWitness.after (CreateCall ShareWitness.order))) as [fp Hc].
  { eexists. apply ShareWitness.after_ok. vm_compute. reflexivity. }
  destruct (created_link_opens (ShareWitness.ctx []) ShareWitness.order ShareWitness.server _ _ _
    (ShareWitness.ctx [(lit "x-share-password", lit "pw")]) [] Hc) as (claims & sh & title & H & _).
  - vm_compute. discriminate.
  - reflexivity.
  - intros p [= <-]. vm_compute. reflexivity.
  - left. vm_compute. discriminate.
  - intros id. unfold creator_stopped_sharing. destruct id as [|n id]; [reflexivity|].
    cbn [new_share_of created_by is_empty negb andb]. unfold user_record, UserDb.read.
    destruct (load_users _) as [[users|e] st] eqn:Hl; [|reflexivity].
    assert (users = AuthWitness.solo) as ->.
    { refine (load_users_reads (Rd:=healthy) _ _ _ _ AuthWitness.solo_reads _).
      etrans; [|exact Hl]. vm_compute. reflexivity. }
    cbn [mbind option_bind result_ok].
    destruct (AuthWitness.solo !! _) as [u|] eqn:Hu; [|reflexivity]. unfold AuthWitness.solo in Hu.
    apply lookup_singleton_Some in Hu as [_ <-]. reflexivity.
  - exists claims. exact H.
Defined.

Lemma edit_spec_witness : exists sh h,
  share_at (metadata (ShareWitness.after (ShareWitness.edit "mine"))) (lit "A") (lit "mine") = Some sh /\
  password sh = Some h /\ verify_share_password (lit "pw") h = true.
Proof.
  destruct (edit_spec (ShareWitness.ctx [])
    (mkEditShare (lit "A") (mkShare (lit "mine") [] (Some (lit "pw")) false false false 0 []))
    ShareWitness.server (ShareWitness.after (ShareWitness.edit "mine")) ShareWitness.album (lit "mine")
    (ShareWitness.owned "mine" "alice"))
    as (sh & Hm & _ & _ & _ & _ & _ & _ & _ & _ & h & Hp & Hv).
  - apply (ShareWitness.after_ok (ShareWitness.edit "mine")). vm_compute. reflexivity.
  - exact ShareWitness.row.
  - vm_compute. reflexivity.
  - exists sh, h. split; [|by split]. rewrite Hm. unfold share_at, album_row.
    rewrite lookup_insert_eq. cbn. apply lookup_insert_eq.
Defined.

Lemma ownerless_share_is_frozen_witness :
  is_ok (serve_share (ShareWitness.ctx []) (ShareWitness.edit "old") ShareWitness.server).1 = false.
Proof.
  refine (ownerless_share_is_frozen (ShareWitness.ctx [])
    (mkEditShare (lit "A") (mkShare (lit "old") [] (Some (lit "pw")) false false false 0 []))
    ShareWitness.server ShareWitness.album (lit "old") (ShareWitness.owned "old" "") ShareWitness.row _ eq_refl _).
  - vm_compute. reflexivity.
  - intros claims adm. rewrite ShareWitness.session. intros [= <-]. discriminate.
Defined.

Lemma deleted_link_is_dead_witness : exists e,
  resolve_share_internal (view (ShareWitness.ctx []) (ShareWitness.after ShareWitness.removal)) AuthWitness.now []
    (lit "A") (lit "mine") (c_request (ShareWitness.ctx [])) = Err e.
Proof.
  destruct (deleted_link_is_dead (ShareWitness.ctx []) (mkDeleteShare (lit "A") (lit "mine"))
    ShareWitness.server (ShareWitness.after ShareWitness.removal) ShareWitness.album (lit "mine")
    (ShareWitness.owned "mine" "alice") (ShareWitness.ctx []) []) as (_ & _ & H).
  - apply (ShareWitness.after_ok ShareWitness.removal). vm_compute. reflexivity.
  - exact ShareWitness.row.
  - vm_compute. reflexivity.
  - reflexivity.
  - eexists. exact H.
Defined.

Lemma reveal_spec_witness :
  (serve_share (ShareWitness.ctx []) (RevealCall (lit "A") (lit "mine")) ShareWitness.server).1
  = Ok (Revealed (lit "mine")).
Proof.
  refine (eq_trans (reveal_spec (ShareWitness.ctx []) (lit "A") (lit "mine") ShareWitness.server
    AuthWitness.session UserWitness.alice true ShareWitness.session eq_refl _ _ eq_refl) _).
  - vm_compute. discriminate.
  - exists (PathWitness.p "/img/2024"). split; vm_compute; reflexivity.
  - vm_compute. reflexivity.
Defined.
