(* ===== verification/DataPages.v ===== *)
(** * DataPages: what is served from a snapshot
      ([backend/src/router/get/get_data.rs], [get_metadata.rs], [get_img.rs],
      [process/transitor.rs], the row types of [model/response.rs])

    The rows of a page are composed from the asset tables as they are now; the
    snapshot says which and in what order.  A page runs on the blocking pool, so a
    panic in it becomes an error.  The rows are computed in parallel; the model
    goes through them in order, so of several failing rows it reports the first. *)

From S2P Require Import Snapshots.
From S2P Require Import Prelude Errors Redb Password UserStore Revocations Invites LoginThrottle.
From S2P Require Import Paths Formats Model MetadataRecord DirAlbum Tokens RouterAuth IndexStore.
From S2P Require Import DirAlbumStore Accounts.

(** ** Views ([transitor.rs]) *)
Definition resolve_show_download_and_metadata (o : option ResolvedShare) : bool * bool :=
  match o with
  | None => (true, true)
  | Some resolved => (show_download (share resolved), show_metadata (share resolved))
  end.

Definition asset_record_to_abstract_data (now : Z) (r : AssetRecord) : AbstractData :=
  let display_id := default (asset_id r) (content_hash r) in
  match kind r with
  | AImage =>
      Image (mkImage (new_object now display_id TImage)
        (img_set_path (Some (file_entry r)) (new_image_metadata (file_size r) 0 0 (rec_ext r))))
  | AVideo =>
      Video (mkVideo (new_object now display_id TVideo)
        (vid_set_path (Some (file_entry r)) (new_video_metadata (file_size r) 0 0 (rec_ext r))))
  | AAlbum =>
      Album (mkAlbum (new_object now (asset_id r) TAlbum)
        (mkAlbumMeta (asset_id r) None (rec_scan_time r) None None (rec_modified r) None 0 0 ∅
           (rec_path r) None (rec_trashed r)))
  end.

Definition lean_media_abstract_data (now : Z) (r : AssetRecord) (reduced : ReducedData) : AbstractData :=
  let d := asset_record_to_abstract_data now r in
  let d := set_album (rec_album r) (set_height (r_height reduced) (set_width (r_width reduced) d)) in
  match d with
  | Album _ => d
  | _ => set_pending (r_pending reduced) (update_update_at (r_update_at reduced) d)
  end.

Definition img_clear m :=
  mkImageMeta (img_size m) (img_width m) (img_height m) (img_ext m) (img_phash m) None ∅ None.
Definition vid_clear m :=
  mkVideoMeta (vid_size m) (vid_width m) (vid_height m) (vid_ext m) (vid_duration m) None ∅ None.
Definition clear_abstract_data_metadata (show_metadata : bool) (d : AbstractData) : AbstractData :=
  if show_metadata then d
  else
    let d := tag_mut (fun _ => ∅) d in
    match d with
    | Image i => Image (on_image_metadata img_clear i)
    | Video v => Video (on_video_metadata vid_clear v)
    | Album a => Album a
    end.

(** One row on the wire. *)
Record DataRow := mkDataRow {
  d_abstract : AbstractData; d_timestamp : Z; d_token : str; d_asset_id : str;
  d_cover_hash : option str
}.

Section Pages.
Context {Jc : JsonCodec} {Lh : LegacyHash} {Ca : Casing} {Cr : Crypto} {J : Jwt} {Tc : TokenCodec}.
Context {F : Fs} {Ch : Chrono} {St : Snapshots.Store}.

(** The claims of a row's token. *)
Definition row_claims (now : Z) (d : AbstractData) (ts : Z) (allow_original : bool) (asset_id : str)
    (cover : option str) (caller : str) (share : option ResolvedShare) : ClaimsAsset :=
  match d with
  | Album a =>
      new_asset now (default (default asset_id (Model.cover (alb_metadata a))) cover) asset_id ts false
        caller share
  | _ => new_asset now (Model.hash d) asset_id ts allow_original caller share
  end.
(** [DataBaseTimestampReturn::with_asset_id]; [Err] when the timestamp cannot be
    computed, which is a panic. *)
Definition row_with_asset_id (now random : Z) (key : str) (d : AbstractData) (ts : Z)
    (allow_original : bool) (asset_id : str) (cover : option str) (caller : str)
    (share : option ResolvedShare) : result str DataRow :=
  timestamp ← compute_timestamp now random priority_list d;
  Ok (mkDataRow d timestamp
        (encode_token key (row_claims now d ts allow_original asset_id cover caller share)) asset_id cover).
Definition abstract_data_to_timestamp_return (now random : Z) (key : str) (d : AbstractData) (ts : Z)
    (show_download show_metadata : bool) (asset_id : str) (cover : option str) (caller : str)
    (share : option ResolvedShare) : result str DataRow :=
  row ← row_with_asset_id now random key d ts show_download asset_id cover caller share;
  Ok (mkDataRow (clear_abstract_data_metadata show_metadata d) (d_timestamp row) (d_token row)
        asset_id (d_cover_hash row)).

(** *** Pages ([get_data.rs]) *)
(** [TREE.in_disk]'s read transactions: the metadata table's, the asset table's,
    and one for each cover that is looked up. *)
Definition metadata_io (c : Ctx) (ix : Index) : Redb := fate (Fates:=c_fates c) (ticks ix).
Definition asset_io (c : Ctx) (ix : Index) : Redb := fate (Fates:=c_fates c) (S (ticks ix)).
Definition at_transaction (n : nat) (ix : Index) : Index :=
  mkIndex (by_id ix) (by_path ix) (dupes ix) (payloads ix) n.

Definition cover_content_hash_from_data (c : Ctx) (d : AbstractData) (ix : Index) : option str :=
  match d with
  | Album a =>
      cover ← Model.cover (alb_metadata a);
      record ← mjoin (result_ok (IndexStore.get_asset_by_id (Fa:=c_fates c) cover ix).1);
      Some (default (asset_id record) (content_hash record))
  | _ => None
  end.

(** A row of the page; [Panicked] when something in it panics. *)
Definition read_asset_row (c : Ctx) (asset_id : str) (ix : Index) : app_result AssetRecord :=
  _ ← or_raise Database (lit "Failed to read ASSET_BY_ID for asset_id " ++ asset_id)
        (redb (Rd:=asset_io c ix) (Get asset_id));
  row ← option_or_raise Database (lit "No ASSET_BY_ID record for asset_id " ++ asset_id)
          (by_id ix !! asset_id);
  or_raise Database (lit "Failed to parse AssetRecord for asset_id " ++ asset_id)
    (ok_or (lit "invalid row") row).
Definition read_album_row (c : Ctx) (asset_id : str) (ix : Index) : app_result MetadataRecord :=
  _ ← or_raise Database (lit "Failed to read album payload for asset_id " ++ asset_id)
        (redb (Rd:=metadata_io c ix) (Get asset_id));
  option_or_raise Database (lit "Failed to retrieve album for asset_id " ++ asset_id)
    (payloads ix !! asset_id).
Definition data_row (c : Ctx) (random : str -> Z) (claims : ClaimsSnapshot) (ts : Z) (cow : MyCow)
    (ix : Index) (index : N) : result Stop DataRow :=
  let '(show_download, show_metadata) :=
    resolve_show_download_and_metadata (resolved_share_opt claims) in
  reduced ← match get_reduced cow index with
            | None => Err Panicked
            | Some r => map_err Failed
                (or_raise Database (lit "Failed to read snapshot entry for index " ++ show_N index) r)
            end;
  let asset_id := r_asset_id reduced in
  record ← map_err Failed (read_asset_row c asset_id ix);
  dc ← match kind record with
       | AAlbum =>
           payload ← map_err Failed (read_album_row c asset_id ix);
           let d := compose_abstract_data (c_now c) record (Some payload) in
           Ok (d, cover_content_hash_from_data c d
                    (at_transaction (2 + ticks ix + N.to_nat index) ix))
       | _ => Ok (lean_media_abstract_data (c_now c) record reduced, None)
       end;
  row ← map_err (fun _ => Panicked)
          (abstract_data_to_timestamp_return (c_now c) (random asset_id) (c_secret c) dc.1 ts
             show_download show_metadata asset_id dc.2 (caller claims) (resolved_share_opt claims));
  Ok (mkDataRow (d_abstract row) (r_date reduced) (d_token row) (d_asset_id row) (d_cover_hash row)).

Fixpoint data_rows (c : Ctx) (random : str -> Z) (claims : ClaimsSnapshot) (ts : Z) (cow : MyCow)
    (ix : Index) (indexes : list N) : result Stop (list DataRow) :=
  match indexes with
  | [] => Ok []
  | i :: rest =>
      row ← data_row c random claims ts cow ix i;
      rows ← data_rows c random claims ts cow ix rest;
      Ok (row :: rows)
  end.
Definition page (c : Ctx) (random : str -> Z) (claims : ClaimsSnapshot) (ts : Z) (start end_ : N)
    (sn : Snapshots) (ix : Index) : result Stop (list DataRow) :=
  _ ← map_err (fun _ => Panicked) (redb (Rd:=metadata_io c ix) BeginRead);
  _ ← map_err (fun _ => Panicked) (redb (Rd:=metadata_io c ix) OpenTable);
  cow ← map_err (fun e => Failed (into_app_error e)) (read_tree_snapshot ts sn);
  _ ← map_err Failed (or_raise Database (lit "Failed to begin read transaction")
                        (redb (Rd:=asset_io c ix) BeginRead));
  _ ← map_err Failed (or_raise Database (lit "Failed to open ASSET_BY_ID")
                        (redb (Rd:=asset_io c ix) OpenTable));
  len ← map_err (fun e => Failed (into_app_error e)) (cow_len cow);
  let end_ := N.min end_ len in
  if end_ <=? start then Ok [] else data_rows c random claims ts cow ix (range start end_).

(** [spawn_blocking]: a panic is a join error. *)
Definition joined {A} (r : result Stop A) : app_result A :=
  match r with
  | Ok a => Ok a
  | Err (Failed e) => Err e
  | Err Panicked => or_raise Internal (lit "Failed to join blocking task") (Err (lit "panic"))
  end.
Definition on_pool {A} (c : Ctx) (r : result Stop A) : app_result A :=
  _ ← or_raise Internal (lit "Failed to join blocking task") (c_join c); joined r.

Definition snapshot_claims (c : Ctx) (s : Server) : app_result (ClaimsSnapshot * ClaimsSession) :=
  map_err snd (guard_snapshot (view c s) (c_now c) (c_jti c) (c_request c)).
Definition get_data (c : Ctx) (random : str -> Z) (ts : Z) (start end_ : N) (sn : Snapshots) (s : Server)
  : app_result (list DataRow) :=
  guard ← snapshot_claims c s;
  on_pool c (page c random guard.1 ts start end_ sn (index (library s))).
Definition get_rows (c : Ctx) (index : N) (ts : Z) (sn : Snapshots) (s : Server) : app_result Row :=
  _ ← snapshot_claims c s;
  on_pool c (map_err (fun e => Failed (into_app_error e)) (read_row index ts sn)).
Definition get_scroll_bar {Cal : Calendar} (c : Ctx) (ts : Z) (sn : Snapshots) (s : Server)
  : app_result (list ScrollBarData) :=
  _ ← snapshot_claims c s;
  map_err into_app_error (read_scrollbar ts sn).

(** *** One asset ([get_metadata.rs]) *)
Definition load_metadata_record (c : Ctx) (asset_id : str) : Io (option MetadataRecord) := fun ix =>
  let Rd := fate (Fates:=c_fates c) (ticks ix) in
  (_ ← redb BeginRead; _ ← redb OpenTable; _ ← redb (Get asset_id); Ok (payloads ix !! asset_id), tick ix).
Definition compose_by_asset_id (c : Ctx) (asset_id : str) : Io (option AbstractData) :=
  and_then (IndexStore.get_asset_by_id (Fa:=c_fates c) asset_id) (fun record =>
    match record with
    | None => IndexStore.done None
    | Some record =>
        and_then (load_metadata_record c asset_id) (fun payload =>
          IndexStore.done (Some (compose_abstract_data (c_now c) record payload)))
    end).

Definition record_not_found {A} : app_result A := fail Errors.NotFound (lit "Record not found").
Definition metadata_of (c : Ctx) (guard : ClaimsSnapshot * ClaimsSession) (asset_id : str) (ix : Index)
  : app_result AbstractData :=
  let share_album := album_id <$> resolved_share_opt guard.1 in
  let '(_, show_metadata) := resolve_show_download_and_metadata (resolved_share_opt guard.1) in
  asset_id ← option_or_raise InvalidInput (lit "Invalid asset_id: " ++ asset_id) (array_string asset_id);
  found ← or_raise Database (lit "Failed to compose record") (compose_by_asset_id c asset_id ix).1;
  d ← option_or_raise Errors.NotFound (lit "Record not found") found;
  _ ← match share_album with
      | Some album =>
          if bool_decide (get_album d = Some album) then Ok tt else record_not_found
      | None =>
          match visibility_path d with
          | Some path =>
              let id := match role guard.2 with RUser id _ => id | RShare _ => [] end in
              if visible_to (c_roots c) id (components path) then Ok tt else record_not_found
          | None => Ok tt
          end
      end;
  Ok (clear_abstract_data_metadata show_metadata d).
Definition get_metadata (c : Ctx) (asset_id : str) (s : Server) : app_result AbstractData :=
  guard ← snapshot_claims c s;
  on_pool c (map_err Failed (metadata_of c guard asset_id (index (library s)))).

(** *** Originals ([get_img.rs]) *)
(** [Path::file_stem] of a file name. *)
Definition file_stem (name : str) : str :=
  match before_last_dot name with
  | Some (c :: stem) => c :: stem
  | _ => name
  end.
Definition original_claims (c : Ctx) (s : Server) : app_result unit :=
  _ ← map_err snd (guard_presenter (view c s) (c_now c) (c_jti c) (c_request c));
  map_err snd (guard_hash_original (view c s) (c_now c) (c_jti c) (c_request c)).
(** Up to the path that is opened; [file_path] is the end of the request's path. *)
Definition imported_file (c : Ctx) (file_path : list str) (s : Server) : app_result str :=
  _ ← original_claims c s;
  name ← option_or_raise InvalidInput (lit "Invalid file path: missing id") (last file_path);
  asset_id ← option_or_raise InvalidInput (lit "Invalid asset_id format") (array_string (file_stem name));
  record ← or_raise Database (lit "Failed to fetch asset record")
             (IndexStore.get_asset_by_id (Fa:=c_fates c) asset_id (index (library s))).1;
  record ← option_or_raise Errors.NotFound (lit "Asset not found") record;
  Ok (rec_path record).
End Pages.

(** ** What a row is *)
Definition is_album (d : AbstractData) : bool := match d with Album _ => true | _ => false end.
Definition is_album_row (r : AssetRecord) : bool := match kind r with AAlbum => true | _ => false end.

Section RowSpec.
Context {Jc : JsonCodec} {Lh : LegacyHash} {Ca : Casing} {Cr : Crypto} {J : Jwt} {Tc : TokenCodec}.
Context {F : Fs} {Ch : Chrono} {St : Snapshots.Store}.

Definition row_record (ix : Index) (r : ReducedData) : option AssetRecord :=
  mjoin (by_id ix !! r_asset_id r).

(** A row and the snapshot entry it was made from. *)
Definition row_of (c : Ctx) (claims : ClaimsSnapshot) (ts : Z) (ix : Index) (r : ReducedData)
    (row : DataRow) : Prop :=
  exists record d cover,
    row_record ix r = Some record /\ d_asset_id row = r_asset_id r /\ d_timestamp row = r_date r /\
    d_abstract row =
      clear_abstract_data_metadata
        (resolve_show_download_and_metadata (resolved_share_opt claims)).2 d /\
    d_token row = encode_token (c_secret c)
      (row_claims (c_now c) d ts
         (resolve_show_download_and_metadata (resolved_share_opt claims)).1 (r_asset_id r) cover
         (caller claims) (resolved_share_opt claims)) /\
    d = (if is_album_row record
         then compose_abstract_data (c_now c) record (payloads ix !! r_asset_id r)
         else lean_media_abstract_data (c_now c) record r).

(** The file name holds no past wall-clock time that the time zone skips or repeats. *)
Definition dated_name (now : Z) (path : str) : bool :=
  match (name ← file_name (components path);
         t ← file_name_time name;
         if (t <=? now)%Z then Some t else None) with
  | Some t => is_some (local_millis t)
  | None => true
  end.
Definition servable (c : Ctx) (ix : Index) (r : ReducedData) : Prop :=
  exists record, row_record ix r = Some record /\
    (if is_album_row record then is_Some (payloads ix !! r_asset_id r)
     else dated_name (c_now c) (rec_path record) = true).

Lemma lean_timestamp now random r reduced : is_album_row r = false ->
  is_ok (compute_timestamp now random priority_list (lean_media_abstract_data now r reduced))
  = dated_name now (rec_path r).
Proof.
  intros Hk. assert (exists d, lean_media_abstract_data now r reduced = d /\
    compute_timestamp now random priority_list d = timestamp_loop now random priority_list d /\
    exif_vec d = Some ∅ /\ path d = Some (file_entry r)) as (d & -> & -> & He & Hp).
  { eexists. split; [done|]. unfold is_album_row in Hk.
    unfold lean_media_abstract_data, asset_record_to_abstract_data. destruct (kind r); done. }
  unfold priority_list, dated_name. cbn [fmap list_fmap timestamp_loop]. unfold field_timestamp. eval_eqb.
  rewrite He, Hp. cbn [mbind option_bind]. rewrite lookup_empty. cbn [mbind option_bind].
  change (file (file_entry r)) with (rec_path r).
  destruct (file_name _) as [name|]; cbn [mbind option_bind]; [|done].
  destruct (file_name_time name) as [t|]; cbn [mbind option_bind]; [|done].
  destruct (t <=? now)%Z; [|done]. by destruct (local_millis t).
Qed.

Lemma compose_album now r p : kind r = AAlbum -> exists a, compose_abstract_data now r p = Album a.
Proof.
  intros Hk. unfold compose_abstract_data. rewrite Hk.
  destruct (option_filter _ _) as [[]|]; by eexists.
Qed.
Lemma data_row_ok {So : Sound St} c random claims ts cow rs ix i row : holds cow rs ->
  data_row c random claims ts cow ix i = Ok row ->
  exists r, rs !! N.to_nat i = Some r /\ row_of c claims ts ix r row.
Proof.
  intros Hc. unfold data_row, row_of. set (flags := resolve_show_download_and_metadata _).
  destruct flags as [dl md]. cbn [fst snd].
  intros (r & Hr & H)%bind_Ok.
  destruct (rs !! N.to_nat i) as [r'|] eqn:Hi.
  2:{ exfalso. destruct Hc as [->| ->]; unfold get_reduced, lookup_disk in Hr;
        rewrite ?store_ok, ?table_of_lookup, ?Hi in Hr; discriminate Hr. }
  rewrite (holds_reduced _ _ _ _ Hc Hi) in Hr. injection Hr as ->. exists r. split; [done|].
  apply bind_Ok in H as (record & Hrec%map_err_Ok & H).
  apply bind_Ok in H as ([d cover] & Hd & H).
  apply bind_Ok in H as (row' & Hrow%map_err_Ok & [= <-]).
  unfold abstract_data_to_timestamp_return in Hrow. apply bind_Ok in Hrow as (r0 & H0 & [= <-]).
  apply bind_Ok in H0 as (t & _ & [= <-]).
  exists record, d, cover. cbn [d_asset_id d_timestamp d_abstract d_token fst snd].
  split_and!; try done.
  - unfold read_asset_row in Hrec. apply bind_Ok in Hrec as (_ & _ & Hrec).
    apply bind_Ok in Hrec as (o & Ho & Hp). unfold row_record.
    destruct (by_id ix !! r_asset_id r) as [o'|]; [|discriminate Ho]. injection Ho as ->.
    destruct o; [|discriminate Hp]. by injection Hp as ->.
  - unfold is_album_row. destruct (kind record) eqn:Hk; try (by injection Hd as <- <-).
    apply bind_Ok in Hd as (p & Hp%map_err_Ok & [= <- <-]).
    unfold read_album_row in Hp. apply bind_Ok in Hp as (_ & _ & Hp).
    destruct (payloads ix !! r_asset_id r); [|discriminate Hp]. by injection Hp as ->.
Qed.

Lemma data_row_total {So : Sound St} c random claims ts cow rs ix i r : holds cow rs ->
  (forall n, fate (Fates:=c_fates c) n = healthy) -> rs !! N.to_nat i = Some r ->
  is_ok (data_row c random claims ts cow ix i) = true <-> servable c ix r.
Proof.
  intros Hc Hf Hi. unfold data_row, servable, row_record.
  destruct (resolve_show_download_and_metadata _) as [dl md].
  rewrite (holds_reduced _ _ _ _ Hc Hi). cbn [or_raise map_err mbind result_bind].
  unfold read_asset_row, asset_io, read_album_row, metadata_io. rewrite !Hf.
  cbn [redb fault healthy or_raise map_err mbind result_bind].
  destruct (by_id ix !! r_asset_id r) as [[record|]|];
    cbn [option_or_raise ok_or or_raise map_err mbind result_bind mjoin option_join];
    [|split; [done|by intros (? & ? & _)]..].
  split.
  - intros Hok. exists record. split; [done|]. unfold is_album_row.
    destruct (kind record) eqn:Hk; cbn [map_err mbind result_bind] in Hok.
    3:{ by destruct (payloads ix !! _). }
    all: rewrite <-(lean_timestamp _ (random (r_asset_id r)) record r) by (unfold is_album_row; by rewrite Hk).
    all: unfold abstract_data_to_timestamp_return, row_with_asset_id in Hok; cbn [fst snd] in Hok.
    all: by destruct (compute_timestamp _ _ _ _).
  - intros (record' & [= <-] & Hs). pose proof (lean_timestamp (c_now c) (random (r_asset_id r)) record r) as Hl.
    unfold is_album_row in *.
    destruct (kind record) eqn:Hk; cbn [map_err mbind result_bind].
    3:{ destruct Hs as [p Hp]. rewrite Hp. cbn [redb fault healthy option_or_raise or_raise ok_or map_err mbind result_bind fst snd].
        destruct (compose_album (c_now c) record (Some p) Hk) as [a Ha].
        unfold abstract_data_to_timestamp_return, row_with_asset_id. cbn [fst snd]. by rewrite Ha. }
    all: rewrite Hs in Hl; specialize (Hl eq_refl).
    all: unfold abstract_data_to_timestamp_return, row_with_asset_id; cbn [fst snd].
    all: by destruct (compute_timestamp _ _ _ _).
Qed.

Lemma data_rows_ok c random claims ts cow ix is_ rows :
  data_rows c random claims ts cow ix is_ = Ok rows <->
  Forall2 (fun i row => data_row c random claims ts cow ix i = Ok row) is_ rows.
Proof.
  revert rows. induction is_ as [|i is_ IH]; intros rows; cbn [data_rows].
  - split; [by intros [= <-]|]. by inversion 1.
  - split.
    + intros (row & Hrow & H)%bind_Ok. apply bind_Ok in H as (rest & Hrest%IH & [= <-]). by constructor.
    + inversion 1 as [|? row ? rest Hrow Hrest]; subst. rewrite Hrow. cbn.
      apply IH in Hrest. by rewrite Hrest.
Qed.
Lemma data_rows_total {So : Sound St} c random claims ts cow rs ix a n : holds cow rs ->
  (forall n, fate (Fates:=c_fates c) n = healthy) -> (a + n <= length rs)%nat ->
  is_ok (data_rows c random claims ts cow ix (N.of_nat <$> seq a n)) = true <->
  Forall (servable c ix) (take n (drop a rs)).
Proof.
  intros Hc Hf. revert a. induction n as [|n IH]; intros a Hn; [done|].
  cbn [seq fmap list_fmap data_rows].
  destruct (rs !! a) as [r|] eqn:Hr; [|apply lookup_ge_None in Hr; lia].
  rewrite (drop_S _ _ _ Hr). cbn [take]. rewrite Forall_cons, <-IH by lia.
  rewrite <-(data_row_total c random claims ts cow rs ix (N.of_nat a) r) by (done || by rewrite Nat2N.id).
  destruct (data_row _ _ _ _ _ _ _); cbn [mbind result_bind is_ok]; [|by split; [|intros []]].
  change (list_fmap nat N N.of_nat (seq (S a) n)) with (N.of_nat <$> seq (S a) n).
  destruct (data_rows _ _ _ _ _ _ _); cbn; by split; [|intros []].
Qed.

(** The part of a snapshot between two offsets. *)
Definition segment {A} (start end_ : N) (rs : list A) : list A :=
  take (N.to_nat (end_ - start)) (drop (N.to_nat start) rs).

Lemma segment_clamp {A} start end_ (rs : list A) :
  segment start (N.min end_ (N.of_nat (length rs))) rs = segment start end_ rs.
Proof.
  unfold segment. destruct (N.le_ge_cases end_ (N.of_nat (length rs))).
  - by rewrite N.min_l.
  - rewrite N.min_r by done. rewrite (take_ge _ (N.to_nat (end_ - start))) by (rewrite length_drop; lia).
    apply take_ge. rewrite length_drop. lia.
Qed.
Lemma segment_empty {A} start end_ (rs : list A) : end_ <= start -> segment start end_ rs = [].
Proof. intros H. unfold segment. by replace (end_ - start) with 0 by lia. Qed.

Lemma Forall2_segment {A B} (P : A -> B -> Prop) (rs : list A) a n (out : list B) :
  (a + n <= length rs)%nat ->
  Forall2 (fun i b => exists r, rs !! N.to_nat i = Some r /\ P r b) (N.of_nat <$> seq a n) out ->
  Forall2 P (take n (drop a rs)) out.
Proof.
  revert a out. induction n as [|n IH]; intros a out Hn H; cbn [seq fmap list_fmap take] in *.
  - inversion H. constructor.
  - inversion H as [|? b ? out' (r & Hr & Hp) Hrest]; subst. rewrite Nat2N.id in Hr.
    rewrite (drop_S _ _ _ Hr). constructor; [done|]. apply IH; [lia|done].
Qed.

Lemma page_rows {So : Sound St} c random claims ts start end_ sn ix cow rs out :
  read_tree_snapshot ts sn = Ok cow -> holds cow rs ->
  page c random claims ts start end_ sn ix = Ok out ->
  Forall2 (row_of c claims ts ix) (segment start end_ rs) out.
Proof.
  intros Hs Hc H. rewrite <-(segment_clamp start end_). unfold page in H. rewrite Hs in H.
  apply bind_Ok in H as (_ & _ & H). apply bind_Ok in H as (_ & _ & H).
  apply bind_Ok in H as (cow' & [= <-] & H). apply bind_Ok in H as (_ & _ & H).
  apply bind_Ok in H as (_ & _ & H). apply bind_Ok in H as (len & Hlen%map_err_Ok & H).
  rewrite (holds_len _ _ Hc) in Hlen. injection Hlen as <-.
  set (e := N.min end_ _) in *. assert (e <= N.of_nat (length rs)) as He by (subst e; lia).
  destruct (N.leb_spec e start) as [Hle|Hlt].
  - injection H as <-. by rewrite segment_empty.
  - unfold segment. apply Forall2_segment; [lia|]. apply data_rows_ok in H.
    unfold range in H. eapply Forall2_impl; [exact H|]. intros i row Hrow.
    by apply (data_row_ok c random claims ts cow rs).
Qed.

(** A page over a readable snapshot is exactly its entries between the two offsets
    (none of them when the range is empty or past the end), each composed from the
    asset tables of now; with the store answering it is served if and only if each
    of its entries can be, so one asset gone since the snapshot, or one photo named
    after a local time that does not exist, takes the page with it. *)
Theorem page_spec {So : Sound St} c random claims ts start end_ sn ix cow rs :
  read_tree_snapshot ts sn = Ok cow -> holds cow rs ->
  (forall out, page c random claims ts start end_ sn ix = Ok out ->
    Forall2 (row_of c claims ts ix) (segment start end_ rs) out) /\
  ((forall n, fate (Fates:=c_fates c) n = healthy) ->
    is_ok (page c random claims ts start end_ sn ix) = true <->
    Forall (servable c ix) (segment start end_ rs)).
Proof.
  intros Hs Hc. split; [intros out; by apply page_rows with cow|]. intros Hf.
  rewrite <-(segment_clamp start end_). unfold page, metadata_io, asset_io. rewrite Hs, !Hf.
  cbn [redb fault healthy or_raise map_err mbind result_bind]. rewrite (holds_len _ _ Hc).
  cbn [map_err mbind result_bind].
  destruct (N.leb_spec (N.min end_ (N.of_nat (length rs))) start) as [Hle|Hlt].
  - by rewrite segment_empty.
  - unfold range, segment. apply data_rows_total; [done..|lia].
Qed.
End RowSpec.

(** ** What the rows give away *)
Section Exposure.
Context {Jc : JsonCodec} {Lh : LegacyHash} {Ca : Casing} {Cr : Crypto} {J : Jwt} {Tc : TokenCodec}.
Context {F : Fs} {Ch : Chrono} {St : Snapshots.Store}.

(** A response that keeps the share's secrets: no path, album, tags or EXIF. *)
Definition stripped_view (d : AbstractData) : Prop :=
  path d = None /\ get_album d = None /\ tag d = ∅ /\ forall m, exif_vec d = Some m -> m = ∅.

Lemma cleared_view d :
  stripped_view (clear_abstract_data_metadata false d) /\
  description (object_of (clear_abstract_data_metadata false d)) = description (object_of d) /\
  rating (object_of (clear_abstract_data_metadata false d)) = rating (object_of d).
Proof. unfold stripped_view. destruct d; split_and!; try done; intros m Hm; by injection Hm as <-. Qed.

(** The row of a share that hides metadata names no path, album, tag, EXIF,
    description or rating of a photo or video. *)
Theorem hidden_rows {So : Sound St} c random claims ts start end_ sn ix cow rs out row share :
  read_tree_snapshot ts sn = Ok cow -> holds cow rs ->
  page c random claims ts start end_ sn ix = Ok out -> row ∈ out ->
  resolved_share_opt claims = Some share -> show_metadata (Model.share share) = false ->
  stripped_view (d_abstract row) /\
  (is_album (d_abstract row) = false ->
    description (object_of (d_abstract row)) = None /\ rating (object_of (d_abstract row)) = None).
Proof.
  intros Hs Hc Hp Hrow Hsh Hm.
  pose proof (page_rows c random claims ts start end_ sn ix cow rs out Hs Hc Hp) as Hall.
  apply list_elem_of_lookup in Hrow as [i Hi].
  destruct (Forall2_lookup_r _ _ _ _ _ Hall Hi) as (r & _ & Hr).
  destruct Hr as (record & d & cover & _ & _ & _ & -> & _ & Hd). rewrite Hsh. cbn [resolve_show_download_and_metadata snd].
  rewrite Hm. destruct (cleared_view d) as (H1 & H2 & H3). split; [done|]. rewrite H2, H3. subst d.
  unfold is_album_row, lean_media_abstract_data, asset_record_to_abstract_data.
  destruct (kind record) eqn:Hk; [done..|].
  destruct (compose_album (c_now c) record (payloads ix !! r_asset_id r) Hk) as [a ->]. done.
Qed.

Lemma asset_claims_kept c c' : asset_from_value (asset_to_value c) = Some c' ->
  allow_original c' = allow_original c /\ claims_asset_id c' = claims_asset_id c /\
  asset_caller c' = asset_caller c.
Proof.
  unfold asset_from_value, asset_to_value. struct. members.
  intros (h & _ & H)%bind_Some. apply bind_Some in H as (a & Ha & H).
  do 3 (apply bind_Some in H as (? & ? & H)). apply bind_Some in H as (t & _ & [= <-]).
  unfold as_array_string, array_string in Ha. cbn in Ha. destruct (_ <=? _); [|done].
  by injection Ha as <-.
Qed.
Lemma presented_token {Jl : JwtLaws J} w now req (c c' : ClaimsAsset) :
  extract_bearer_token req = Ok (encode_token (jwt_secret w) c) ->
  (now <= Z.of_N (asset_exp c) * 1000)%Z -> presents w now req c' ->
  allow_original c' = allow_original c /\ claims_asset_id c' = claims_asset_id c /\
  asset_caller c' = asset_caller c.
Proof.
  intros Ht He (token & Ht' & (_ & j & Hj & Hc)%decode_typed_ok). rewrite Ht in Ht'. injection Ht' as <-.
  destruct (claims_object c) as (f & Hf & Hexp). unfold encode_token in Hj. rewrite Hf in Hj.
  rewrite (jwt_fresh _ _ _ _ Hexp) in Hj by done. injection Hj as <-. rewrite <-Hf in Hc.
  by apply asset_claims_kept.
Qed.

(** The token of a row opens an original only where the page's caller may download
    it: not under a share without downloads, never for an album, only for the asset
    of that row, and only for the page's own caller. *)
Theorem row_token_scope {So : Sound St} {Jl : JwtLaws J} c random claims ts start end_ sn ix cow rs out row
    w now uuid req :
  read_tree_snapshot ts sn = Ok cow -> holds cow rs ->
  page c random claims ts start end_ sn ix = Ok out -> row ∈ out ->
  jwt_secret w = c_secret c -> extract_bearer_token req = Ok (d_token row) ->
  (now <= Z.of_N (expiry (c_now c) 300) * 1000)%Z ->
  guard_hash_original w now uuid req = Ok tt ->
  extract_serving_id_from_path req = Ok (d_asset_id row) /\
  is_album (d_abstract row) = false /\
  (forall share, resolved_share_opt claims = Some share -> show_download (Model.share share) = true) /\
  exists p, resolve_presenter w now uuid req = Ok p /\
    match role p with RUser id _ => id = caller claims | RShare _ => caller claims = [] end.
Proof.
  intros Hs Hc Hp Hrow Hkey Ht Hnow Hg.
  pose proof (page_rows c random claims ts start end_ sn ix cow rs out Hs Hc Hp) as Hall.
  apply list_elem_of_lookup in Hrow as [i Hi].
  destruct (Forall2_lookup_r _ _ _ _ _ Hall Hi) as (r & _ & Hr).
  destruct Hr as (record & d & cover & _ & Hid & _ & Hd & Htok & _).
  unfold guard_hash_original, bearer, decoded in Hg.
  apply bind_Ok in Hg as (token & Ht'%map_err_Ok & Hg). apply bind_Ok in Hg as (c' & Hc'%map_err_Ok & Hg).
  assert (presents w now req c') as Hpres by by exists token.
  rewrite Htok, <-Hkey in Ht.
  destruct (presented_token w now req _ c' Ht) as (Ho & Ha & Hcl); [|done|].
  { unfold row_claims. by destruct d. }
  destruct (allow_original c') eqn:Hao; [|done]. cbn [negb] in Hg.
  apply bind_Ok in Hg as (u & Hu%map_err_Ok & Hg). destruct (str_eqb u _) eqn:Heq; [|done].
  to_prop. subst u. cbn [negb] in Hg. apply bind_Ok in Hg as (p & Hpr%map_err_Ok & Hb).
  apply bind_presenter_ok in Hb. rewrite Hu, Ha, Hd. split; [by unfold row_claims; destruct d; cbn; rewrite Hid|].
  assert (is_album d = false /\ (resolve_show_download_and_metadata (resolved_share_opt claims)).1 = true)
    as [Hal Hdl] by by destruct d; cbn in Ho.
  split; [by destruct d; unfold clear_abstract_data_metadata; destruct (_.2)|]. split.
  - intros share Hshare. by rewrite Hshare in Hdl.
  - exists p. split; [done|]. unfold bound in Hb. rewrite Hcl in Hb.
    replace (asset_caller _) with (caller claims) in Hb by by destruct d.
    destruct (role p); [done|]. by destruct Hb.
Qed.

(** *** A single asset *)
Lemma get_asset_by_id_row {Fa : Fates} i ix record ix' :
  IndexStore.get_asset_by_id i ix = (Ok (Some record), ix') ->
  mjoin (by_id ix !! i) = Some record /\ ix' = tick ix.
Proof.
  unfold IndexStore.get_asset_by_id, reading, get_row. intros [= H <-]. split; [|done].
  apply bind_Ok in H as (_ & _ & H). apply bind_Ok in H as (_ & _ & H).
  apply bind_Ok in H as (_ & _ & H). destruct (by_id ix !! i) as [[?|]|]; simplify_eq/=; done.
Qed.
Definition in_scope (c : Ctx) (claims : ClaimsSnapshot) (d : AbstractData) : bool :=
  match resolved_share_opt claims with
  | Some share => bool_decide (get_album d = Some (album_id share))
  | None =>
      match visibility_path d with
      | Some path => visible_to (c_roots c) (caller claims) (components path)
      | None => true
      end
  end.

Lemma snapshot_bound c s claims p : snapshot_claims c s = Ok (claims, p) ->
  bound (caller claims) (resolved_share_opt claims) p.
Proof.
  unfold snapshot_claims, guard_snapshot. intros H%map_err_Ok.
  apply bind_Ok in H as (token & _ & H). apply bind_Ok in H as (c' & _ & H).
  destruct (_ ≫= _); [|done]. destruct (_ =? _)%Z; [|done]. cbn [negb] in H.
  apply bind_Ok in H as (p' & _ & H). apply bind_Ok in H as ([] & Hb & [= -> ->]).
  by apply bind_presenter_ok in Hb.
Qed.

(** The answer about one asset: its composition from the tables, cleared as the
    share asks, if it is in the share's album or at a path the caller may see; and
    one and the same 404 for an asset out of scope and for an id that is unused. *)
Theorem metadata_spec c i s claims p :
  snapshot_claims c s = Ok (claims, p) -> c_join c = Ok tt ->
  (forall n, fate (Fates:=c_fates c) n = healthy) -> str_len i <= 64 ->
  by_id (index (library s)) !! i <> Some None ->
  get_metadata c i s =
    match (record ← mjoin (by_id (index (library s)) !! i);
           let d := compose_abstract_data (c_now c) record (payloads (index (library s)) !! i) in
           if in_scope c claims d then Some d else None) with
    | Some d => Ok (clear_abstract_data_metadata
                      (resolve_show_download_and_metadata (resolved_share_opt claims)).2 d)
    | None => Err (new_error Errors.NotFound (lit "Record not found"))
    end.
Proof.
  intros Hg Hj Hf Hi Hrow. pose proof (snapshot_bound c s claims p Hg) as Hb.
  unfold get_metadata, on_pool, metadata_of. rewrite Hg, Hj.
  cbn [mbind result_bind or_raise map_err fst snd].
  destruct (resolve_show_download_and_metadata _) as [dl md] eqn:Hflags.
  unfold array_string. rewrite (proj2 (N.leb_le _ _) Hi). cbn [option_or_raise ok_or mbind result_bind].
  unfold compose_by_asset_id, IndexStore.get_asset_by_id, reading, get_row, and_then.
  rewrite !Hf. cbn [redb fault healthy context map_err mbind result_bind].
  destruct (by_id (index (library s)) !! i) as [[record|]|] eqn:Hr;
    cbn [mbind result_bind option_bind mjoin option_join IndexStore.done fst snd or_raise map_err ok_or option_or_raise];
    [|done..].
  unfold load_metadata_record. rewrite !Hf. cbn [redb fault healthy mbind result_bind tick payloads].
  cbn [IndexStore.done fst snd or_raise map_err ok_or option_or_raise mbind result_bind].
  set (d := compose_abstract_data _ _ _). unfold in_scope, bound in *.
  destruct (resolved_share_opt claims) as [share|]; cbn [fmap option_fmap option_map].
  - case_bool_decide; done.
  - destruct (visibility_path d) as [path|]; [|done].
    replace (match role p with RUser id _ => id | RShare _ => [] end) with (caller claims)
      by by destruct (role p); [|destruct Hb as [-> _]].
    by destruct (visible_to _ _ _).
Qed.

Lemma compose_by_asset_id_ok c i ix d : (compose_by_asset_id c i ix).1 = Ok (Some d) ->
  exists record, mjoin (by_id ix !! i) = Some record /\
    d = compose_abstract_data (c_now c) record (payloads ix !! i).
Proof.
  unfold compose_by_asset_id, and_then.
  destruct (IndexStore.get_asset_by_id i ix) as [[[record|]|] ix'] eqn:Hr; [|done..].
  apply get_asset_by_id_row in Hr as [Hr ->]. unfold load_metadata_record.
  destruct (_ ≫= _) as [payload|] eqn:Hp; [|done]. intros [= <-].
  apply bind_Ok in Hp as (_ & _ & Hp). apply bind_Ok in Hp as (_ & _ & Hp).
  apply bind_Ok in Hp as (_ & _ & [= <-]). by exists record.
Qed.

Lemma metadata_answer c i s claims p d :
  snapshot_claims c s = Ok (claims, p) -> get_metadata c i s = Ok d ->
  exists record, mjoin (by_id (index (library s)) !! i) = Some record /\
    let stored := compose_abstract_data (c_now c) record (payloads (index (library s)) !! i) in
    (forall share, resolved_share_opt claims = Some share -> get_album stored = Some (album_id share)) /\
    d = clear_abstract_data_metadata
          (resolve_show_download_and_metadata (resolved_share_opt claims)).2 stored.
Proof.
  intros Hg. unfold get_metadata, on_pool, metadata_of. rewrite Hg. cbn [mbind result_bind fst snd].
  destruct (resolve_show_download_and_metadata _) as [dl md].
  intros (_ & _ & H)%bind_Ok. unfold joined in H. destruct (map_err Failed _) as [d'|[e|]] eqn:Hd; [|done..].
  injection H as <-. apply map_err_Ok in Hd. apply bind_Ok in Hd as (j & Hj & Hd).
  unfold array_string in Hj. destruct (_ <=? _); [|done]. injection Hj as <-.
  apply bind_Ok in Hd as (found & Hfound%map_err_Ok & Hd). apply bind_Ok in Hd as (d0 & Hd0 & Hd).
  destruct found as [d1|]; [|done]. injection Hd0 as ->.
  apply bind_Ok in Hd as ([] & Hscope & [= <-]).
  apply compose_by_asset_id_ok in Hfound as (record & Hr & ->). exists record. split_and!; try done.
  intros share Hsh. rewrite Hsh in Hscope. cbn [fmap option_fmap option_map] in Hscope.
  by case_bool_decide.
Qed.

(** Hiding metadata leaves the description and the rating of an asset in the answer
    about it. *)
Theorem hidden_description_shown c i s claims p share d :
  snapshot_claims c s = Ok (claims, p) -> resolved_share_opt claims = Some share ->
  show_metadata (Model.share share) = false -> get_metadata c i s = Ok d ->
  stripped_view d /\
  exists record, mjoin (by_id (index (library s)) !! i) = Some record /\
    let stored := compose_abstract_data (c_now c) record (payloads (index (library s)) !! i) in
    get_album stored = Some (album_id share) /\
    description (object_of d) = description (object_of stored) /\
    rating (object_of d) = rating (object_of stored).
Proof.
  intros Hg Hsh Hm H. apply (metadata_answer c i s claims p) in H as (record & Hr & Ha & ->); [|done].
  rewrite Hsh. cbn [resolve_show_download_and_metadata snd]. rewrite Hm.
  destruct (cleared_view (compose_abstract_data (c_now c) record (payloads (index (library s)) !! i)))
    as (H1 & H2 & H3).
  split; [done|]. exists record. by split_and!; [|apply Ha|..].
Qed.

Definition shares_of (d : AbstractData) : gmap str Share :=
  match d with Album a => share_list (alb_metadata a) | _ => ∅ end.
Definition stored_shares (m : option MetadataRecord) : gmap str Share :=
  match m with Some (MAlbum a) => ap_shares a | _ => ∅ end.

Lemma compose_shares now r m : kind r = AAlbum ->
  shares_of (compose_abstract_data now r m) = stored_shares m.
Proof.
  intros Hk. unfold compose_abstract_data. rewrite Hk.
  destruct m as [[p|p|p]|]; cbn [option_filter matches_kind]; try done.
Qed.
Lemma cleared_shares flag d : shares_of (clear_abstract_data_metadata flag d) = shares_of d.
Proof. by destruct flag, d. Qed.

(** Whoever may see an album gets its stored share list with the answer about it
    and with its row in a page: the bearers, password hashes and creators of all
    its shares, the caller's own or not. *)
Theorem album_answers_carry_bearers {So : Sound St} c i s claims p record :
  snapshot_claims c s = Ok (claims, p) ->
  mjoin (by_id (index (library s)) !! i) = Some record -> kind record = AAlbum ->
  (forall d, get_metadata c i s = Ok d ->
     shares_of d = stored_shares (payloads (index (library s)) !! i)) /\
  (forall random ts start end_ sn cow rs out row,
     read_tree_snapshot ts sn = Ok cow -> holds cow rs ->
     page c random claims ts start end_ sn (index (library s)) = Ok out ->
     row ∈ out -> d_asset_id row = i ->
     shares_of (d_abstract row) = stored_shares (payloads (index (library s)) !! i)).
Proof.
  intros Hg Hrec Hk. split.
  - intros d H. apply (metadata_answer c i s claims p) in H as (record' & Hr' & _ & ->); [|done].
    rewrite cleared_shares, Hrec in *. injection Hr' as <-. by apply compose_shares.
  - intros random ts start end_ sn cow rs out row Hs Hc Hp Hrow Hid.
    pose proof (page_rows c random claims ts start end_ sn _ cow rs out Hs Hc Hp) as Hall.
    apply list_elem_of_lookup in Hrow as [n Hn].
    destruct (Forall2_lookup_r _ _ _ _ _ Hall Hn) as (r & _ & record' & d & cover & Hr & Ha & _ & -> & _ & ->).
    rewrite cleared_shares. rewrite Hid in Ha. unfold row_record in Hr. rewrite <-Ha, Hrec in Hr.
    injection Hr as <-. unfold is_album_row. rewrite Hk, <-Ha. by apply compose_shares.
Qed.
End Exposure.

Section Originals.
Context {Jc : JsonCodec} {Lh : LegacyHash} {Ca : Casing} {Cr : Crypto} {J : Jwt} {Tc : TokenCodec}.
Context {F : Fs}.

Lemma file_stem_of name i : before_last_dot name = Some i -> i <> [] -> file_stem name = i.
Proof. unfold file_stem. intros -> Hi. by destruct i. Qed.

(** The file opened for an original is the stored path of the asset that the
    presented token names, and the token allows originals. *)
Theorem original_of_token c file_path s path :
  imported_file c file_path s = Ok path ->
  last file_path = last (path_segments (c_request c)) ->
  exists (claims : ClaimsAsset),
    presents (view c s) (c_now c) (c_request c) claims /\ allow_original claims = true /\
    (claims_asset_id claims <> [] ->
     rec_path <$> mjoin (by_id (index (library s)) !! claims_asset_id claims) = Some path).
Proof.
  intros H Hlast. apply bind_Ok in H as ([] & Hg & H). unfold original_claims in Hg.
  apply bind_Ok in Hg as (p & _ & Hg%map_err_Ok).
  unfold guard_hash_original in Hg. apply bind_Ok in Hg as (token & Ht & Hg).
  apply bind_Ok in Hg as (claims & Hc & Hg).
  destruct (allow_original claims) eqn:Ho; [|done]. cbn [negb] in Hg.
  apply bind_Ok in Hg as (u & Hu%map_err_Ok & Hg). destruct (str_eqb u _) eqn:Heq; [|done].
  to_prop. subst u. exists claims. split.
  { apply (bearer_decoded _ _ _ (lit "Bearer token extraction failed")). by rewrite Ht. }
  split; [done|]. intros Hne.
  apply bind_Ok in H as (name & Hname & H). unfold extract_serving_id_from_path in Hu.
  rewrite <-Hlast in Hu. destruct (last file_path) as [name'|]; [|done]. injection Hname as ->.
  cbn [mbind option_bind] in Hu.
  destruct (before_last_dot name) as [i|] eqn:Hi; [|done]. injection Hu as ->.
  rewrite (file_stem_of _ _ Hi Hne) in H. apply bind_Ok in H as (j & Hj & H).
  unfold array_string in Hj. destruct (_ <=? _); [|done]. injection Hj as <-.
  apply bind_Ok in H as (found & Hf%map_err_Ok & H). apply bind_Ok in H as (record & Hr & [= <-]).
  destruct found; [|done]. injection Hr as ->.
  destruct (IndexStore.get_asset_by_id _ _) as [r ix'] eqn:Hget. cbn in Hf. subst r.
  apply get_asset_by_id_row in Hget as [-> _]. done.
Qed.
End Originals.

(** ** Witnesses: a snapshot of one photo, in the album of a share that hides
    metadata and downloads *)
Module PageWitness.
Import (hints) ServerWitness.
Import (hints) HomeWitness.
Import (hints) PathWitness.
Import (hints) TokenWitness.
Import (hints) SnapshotWitness.
Definition record (i path : string) : AssetRecord :=
  mkAsset (lit i) AImage (lit path) (Some (lit "h1")) 1 (lit "jpg") 0 0 false (Some (lit "A")).
Definition photo : MetadataRecord :=
  to_metadata_record (Image (mkImage
    (mkObject (lit "h1") TImage false None (Some (lit "at the lake")) {[ lit "private" ]} (Some 4) 0)
    (new_image_metadata 1 4 3 (lit "jpg")))).
Definition index_of (path : string) : Index :=
  mkIndex {[ lit "a" := Some (record "a" path) ]} ∅ ∅
    {[ lit "A" := MAlbum AuthWitness.album; lit "a" := photo ]} 0.
Definition rows : list ReducedData := [SnapshotWitness.row "a" 250].
Definition sn : Snapshots := (insert_snapshot 1000 rows SnapshotWitness.empty).2.
Definition share : ResolvedShare := mkResolved AuthWitness.open_share (lit "A") None.
Definition downloads : ResolvedShare :=
  mkResolved (mkShare (lit "link") [] (Some (lit "pw")) false true false 0 (lit "nobody")) (lit "A") None.
Definition claims_of (o : option ResolvedShare) : ClaimsSnapshot :=
  new_snapshot AuthWitness.now [] o 1000.
Definition request (headers : list (str * str)) (segments : list str) : Request :=
  mkRequest (header (AuthWitness.visit
      ([(lit "x-album-id", lit "A"); (lit "x-share-id", lit "link"); (lit "x-share-password", lit "pw")]
       ++ headers) None))
    None segments [(lit "timestamp", lit "1000")] (fun _ => None).
Definition bearer (token : str) : list (str * str) := [(lit "Authorization", lit "Bearer " ++ token)].
Definition ctx (req : Request) : Ctx := ServerWitness.ctx_at AuthWitness.now req (lit "jti") (Ok tt).
Definition server : Server :=
  with_library (mkLib (index_of "/img/a.jpg") (mkAlbums ∅ ∅)) ServerWitness.solo.
Definition guest : Ctx :=
  ctx (request (bearer (encode_token TokenWitness.key (claims_of (Some share)))) []).
Definition rows_at (Ch : Chrono) (o : option ResolvedShare) (path : string) : result Stop (list DataRow) :=
  page (Ch:=Ch) (ctx ServerWitness.visitor) (fun _ => 0%Z) (claims_of o) 1000 0 9 sn (index_of path).
Definition first_row (o : option ResolvedShare) : DataRow :=
  match rows_at IndexWitness.clock o "/img/a.jpg" with
  | Ok (row :: _) => row
  | _ => mkDataRow (Image (mkImage (new_object 0 [] TImage) (new_image_metadata 0 0 0 []))) 0 [] [] None
  end.
Definition reader : World := view (ctx ServerWitness.visitor) server.
Definition file_request (o : option ResolvedShare) : Request :=
  request (bearer (d_token (first_row o))) [lit "object"; lit "imported"; lit "a.jpg"].
(** The share's album, and a signed-in user who did not create the share. *)
Definition with_album : Server :=
  with_library (mkLib (mkIndex
      {[ lit "A" := Some (mkAsset (lit "A") AAlbum (lit "/img/2024") None 0 [] 0 0 false None) ]} ∅ ∅
      {[ lit "A" := MAlbum AuthWitness.album ]} 0) (mkAlbums ∅ ∅)) ServerWitness.solo.
Definition user_claims_ : ClaimsSnapshot := new_snapshot AuthWitness.now UserWitness.alice None 1000.
Definition user : Ctx :=
  ctx (mkRequest (header (AuthWitness.visit (bearer (encode_token TokenWitness.key user_claims_)) None))
         (Some AuthWitness.token) [] [(lit "timestamp", lit "1000")] (fun _ => None)).
End PageWitness.
Import (hints) ServerWitness.
Import (hints) HomeWitness.
Import (hints) PathWitness.
Import (hints) TokenWitness.
Import (hints) SnapshotWitness.

(** Berlin's skipped hour: the photo's page fails. *)
Lemma page_spec_witness :
  is_ok (PageWitness.rows_at IndexWitness.clock None "/img/a.jpg") = true /\
  is_ok (PageWitness.rows_at spring_forward None "/img/20240331_023000.jpg") = false.
Proof.
  split.
  - refine (proj2 (proj2 (page_spec (Ch:=IndexWitness.clock) (PageWitness.ctx ServerWitness.visitor) (fun _ => 0%Z)
      (PageWitness.claims_of None) 1000 0 9 PageWitness.sn _ (InMemory PageWitness.rows) PageWitness.rows eq_refl (or_introl eq_refl))
      (fun _ => eq_refl)) _).
    apply Forall_singleton. eexists. split; vm_compute; reflexivity.
  - apply not_true_is_false. intros Hok.
    pose proof (proj1 (proj2 (page_spec (Ch:=spring_forward) (PageWitness.ctx ServerWitness.visitor) (fun _ => 0%Z)
      (PageWitness.claims_of None) 1000 0 9 PageWitness.sn _ (InMemory PageWitness.rows) PageWitness.rows eq_refl (or_introl eq_refl))
      (fun _ => eq_refl)) Hok) as Hs.
    apply Forall_singleton in Hs as (record & Hr & Hd). vm_compute in Hr. injection Hr as <-.
    vm_compute in Hd. discriminate.
Defined.

Lemma hidden_rows_witness :
  path (d_abstract (PageWitness.first_row (Some PageWitness.share))) = None.
Proof.
  refine (proj1 (proj1 (hidden_rows (Ch:=IndexWitness.clock) (PageWitness.ctx ServerWitness.visitor) (fun _ => 0%Z)
    (PageWitness.claims_of (Some PageWitness.share)) 1000 0 9 PageWitness.sn
    (PageWitness.index_of "/img/a.jpg") (InMemory PageWitness.rows) PageWitness.rows
    [PageWitness.first_row (Some PageWitness.share)] (PageWitness.first_row (Some PageWitness.share))
    PageWitness.share eq_refl (or_introl eq_refl) _ _ eq_refl eq_refl))).
  - vm_compute. reflexivity.
  - apply list_elem_of_In. by left.
Defined.

Lemma row_token_scope_witness :
  extract_serving_id_from_path (PageWitness.file_request (Some PageWitness.downloads)) = Ok (lit "a").
Proof.
  refine (proj1 (row_token_scope (Ch:=IndexWitness.clock) (PageWitness.ctx ServerWitness.visitor) (fun _ => 0%Z)
    (PageWitness.claims_of (Some PageWitness.downloads)) 1000 0 9 PageWitness.sn
    (PageWitness.index_of "/img/a.jpg") (InMemory PageWitness.rows) PageWitness.rows
    [PageWitness.first_row (Some PageWitness.downloads)] (PageWitness.first_row (Some PageWitness.downloads))
    PageWitness.reader AuthWitness.now (lit "jti") (PageWitness.file_request (Some PageWitness.downloads))
    eq_refl (or_introl eq_refl) _ _ eq_refl _ _ _)).
  - vm_compute. reflexivity.
  - apply list_elem_of_In. by left.
  - vm_compute. reflexivity.
  - vm_compute. discriminate.
  - vm_compute. reflexivity.
Defined.

Lemma guest_claims : exists p, snapshot_claims PageWitness.guest PageWitness.server
  = Ok (PageWitness.claims_of (Some PageWitness.share), p).
Proof. eexists. vm_compute. reflexivity. Qed.

Lemma metadata_spec_witness :
  get_metadata PageWitness.guest (lit "b") PageWitness.server
  = Err (new_error Errors.NotFound (lit "Record not found")).
Proof.
  destruct guest_claims as [p Hp].
  refine (metadata_spec PageWitness.guest (lit "b") PageWitness.server _ p Hp eq_refl (fun _ => eq_refl) _ _);
    vm_compute; discriminate.
Defined.

Lemma hidden_description_shown_witness : exists d,
  get_metadata PageWitness.guest (lit "a") PageWitness.server = Ok d /\
  description (object_of d) = Some (lit "at the lake").
Proof.
  destruct guest_claims as [p Hp].
  destruct (get_metadata PageWitness.guest (lit "a") PageWitness.server) as [d|] eqn:Hd;
    [|vm_compute in Hd; discriminate].
  exists d. split; [reflexivity|].
  destruct (hidden_description_shown PageWitness.guest (lit "a") PageWitness.server _ p PageWitness.share d
    Hp eq_refl eq_refl Hd) as (_ & record & Hr & _ & -> & _).
  vm_compute in Hr. injection Hr as <-. vm_compute. reflexivity.
Defined.

Lemma original_of_token_witness : exists claims : ClaimsAsset,
  allow_original claims = true /\
  presents (view (PageWitness.ctx (PageWitness.file_request (Some PageWitness.downloads))) PageWitness.server)
    AuthWitness.now (PageWitness.file_request (Some PageWitness.downloads)) claims.
Proof.
  destruct (original_of_token (PageWitness.ctx (PageWitness.file_request (Some PageWitness.downloads)))
    [lit "a.jpg"] PageWitness.server (lit "/img/a.jpg")) as (claims & H1 & H2 & _).
  - vm_compute. reflexivity.
  - reflexivity.
  - exists claims. by split.
Defined.

Lemma user_snapshot : exists p, snapshot_claims PageWitness.user PageWitness.with_album
  = Ok (PageWitness.user_claims_, p).
Proof. eexists. vm_compute. reflexivity. Qed.

Lemma album_answers_carry_bearers_witness : exists d sh,
  get_metadata PageWitness.user (lit "A") PageWitness.with_album = Ok d /\
  shares_of d !! lit "link" = Some sh /\ password sh = Some (lit "pw") /\ created_by sh = lit "nobody".
Proof.
  destruct user_snapshot as [p Hp].
  destruct (get_metadata PageWitness.user (lit "A") PageWitness.with_album) as [d|] eqn:Hd;
    [|vm_compute in Hd; discriminate].
  exists d, AuthWitness.open_share. split; [reflexivity|]. split; [|by split].
  rewrite (proj1 (album_answers_carry_bearers (Ch:=IndexWitness.clock) PageWitness.user (lit "A")
    PageWitness.with_album _ p
    (mkAsset (lit "A") AAlbum (lit "/img/2024") None 0 [] 0 0 false None) Hp eq_refl eq_refl) d Hd).
  reflexivity.
Defined.
