(* ===== verification/Lists.v ===== *)
(** * Lists: tags, albums and the export
      ([backend/src/router/get/get_list.rs], [get_export.rs] and the readers of
      [backend/src/storage/db.rs])

    What the listing routes say about the whole library.  Tags are counted in
    parallel into a concurrent map whose enumeration has no order: the answer is
    a finite map.  The export is streamed; its rows are listed in key order. *)

From S2P Require Import Prelude Errors Redb Password UserStore Revocations Invites LoginThrottle.
From S2P Require Import Paths Formats Model MetadataRecord DirAlbum Tokens RouterAuth IndexStore.
From S2P Require Import DirAlbumStore Accounts UserDeletion Shares DataPages.

(** ** [storage/db.rs] *)
Definition share_visible_to (caller : str) (caller_is_admin : bool) (owner : str) : bool :=
  caller_is_admin || str_eqb caller owner.

Section Readers.
Context {F : Fs}.

Definition count_tags (tags : gset str) (counts : gmap str N) : gmap str N :=
  foldr (fun t m => <[t := default 0 (m !! t) + 1]> m) counts (elements tags).
Definition counted (cfg : Config) (caller : str) (d : AbstractData) : bool :=
  match visibility_path d with
  | Some path => visible_to cfg caller (components path)
  | None => true
  end.
Definition read_tags (cfg : Config) (caller : str) (tree : list DatabaseTimestamp) : gmap str N :=
  foldr (fun t m => let d := abstract_data t in
           if counted cfg caller d then count_tags (tag d) m else m) ∅ tree.

(** One row of [read_albums]: skipped, or its album. *)
Definition read_album (c : Ctx) (ix : Index) (key : str) : app_result (option AlbumCombined) :=
  _ ← or_raise Database (lit "Failed to read METADATA_TABLE row")
        (redb (Rd:=metadata_io c ix) (Get key));
  match payloads ix !! key with
  | Some (MAlbum payload) =>
      _ ← or_raise Database (lit "Failed to read ASSET_BY_ID row") (redb (Rd:=asset_io c ix) (Get key));
      match by_id ix !! key with
      | None => Ok None
      | Some row =>
          record ← or_raise Database (lit "Failed to deserialize AssetRecord for album")
                     (ok_or (lit "invalid row") row);
          Ok match compose_abstract_data (c_now c) record (Some (MAlbum payload)) with
             | Album a => Some a
             | _ => None
             end
      end
  | _ => Ok None
  end.
Fixpoint collect {A B} (f : A -> app_result (option B)) (l : list A) : app_result (list B) :=
  match l with
  | [] => Ok []
  | a :: l => b ← f a; bs ← collect f l; Ok (from_option (fun b => b :: bs) bs b)
  end.
Definition read_albums (c : Ctx) (ix : Index) : app_result (list AlbumCombined) :=
  _ ← or_raise Database (lit "Failed to begin read transaction") (redb (Rd:=metadata_io c ix) BeginRead);
  _ ← or_raise Database (lit "Failed to open METADATA_TABLE") (redb (Rd:=metadata_io c ix) OpenTable);
  _ ← or_raise Database (lit "Failed to open ASSET_BY_ID") (redb (Rd:=asset_io c ix) OpenTable);
  _ ← or_raise Database (lit "Failed to create iterator over METADATA_TABLE")
        (redb (Rd:=metadata_io c ix) Iter);
  collect (read_album c ix) (keys_of (payloads ix)).
End Readers.

(** ** [get_list.rs] *)
Record ShareInfo := mkShareInfo {
  si_fingerprint : str; si_description : str; si_has_password : bool; si_metadata : bool;
  si_download : bool; si_upload : bool; si_exp : Z
}.
Record AlbumInfo := mkAlbumInfo {
  ai_id : str; ai_name : option str; ai_shares : gmap str ShareInfo; ai_dir : option str;
  ai_root : option str; ai_owner : option str; ai_parent : option str
}.

Section Handlers.
Context {Jc : JsonCodec} {Lh : LegacyHash} {Ca : Casing} {Cr : Crypto} {J : Jwt} {Tc : TokenCodec}.
Context {F : Fs}.

Definition share_info (s : Share) : ShareInfo :=
  mkShareInfo (fingerprint s) (share_description s) (is_some (password s)) (show_metadata s)
    (show_download s) (show_upload s) (exp s).

(** A blocking task of these handlers; a failed one is converted by [?]. *)
Definition in_task {A} (c : Ctx) (r : app_result A) : app_result A :=
  _ ← map_err from_anyhow (c_join c); r.

Definition get_tags (c : Ctx) (tree : list DatabaseTimestamp) (s : Server) : app_result (gmap str N) :=
  claims ← user_claims c s;
  in_task c (Ok (read_tags (c_roots c) (caller_identity claims).1 tree)).

(** The path below a root, or the path itself. *)
Definition below (root : option Path) (dir : str) : option str :=
  root ← root; path_text <$> path_strip_prefix root (components dir).
Definition listed_shares (caller : str) (is_admin : bool) (shares : gmap str Share) : gmap str ShareInfo :=
  list_to_map ((fun kv => (fingerprint kv.2, share_info kv.2)) <$>
    base.filter (fun kv => share_visible_to caller is_admin (created_by kv.2) = true) (map_to_list shares)).
Definition album_info (c : Ctx) (caller : str) (is_admin : bool) (l : Library_) (a : AlbumCombined)
  : option AlbumInfo :=
  let m := alb_metadata a in
  let dir := components (dir_path m) in
  let classification := classify_path (c_roots c) dir in
  if match classification with
     | UsersRoot => true
     | Personal owner => negb (str_eqb owner caller)
     | _ => false
     end then None
  else
    let parent_album_id := get_parent_album_id dir (albums l) in
    let '(root, owner, shown) :=
      match classification with
      | Personal owner =>
          (Some (lit "personal"), Some owner,
           default (dir_path m) (below (get_resolved_users_home (c_roots c)) (dir_path m)))
      | Public =>
          (Some (lit "global"), None, default (dir_path m) (below (image_home (c_roots c)) (dir_path m)))
      | _ => (None, None, dir_path m)
      end in
    Some (mkAlbumInfo (id (alb_object a)) (title m) (listed_shares caller is_admin (share_list m))
            (Some shown) root owner parent_album_id).
Definition get_albums (c : Ctx) (s : Server) : app_result (list AlbumInfo) :=
  claims ← user_claims c s;
  let '(caller, is_admin) := caller_identity claims in
  in_task c
    (album_list ← map_err (add_context (lit "Failed to read albums")) (read_albums c (index (library s)));
     Ok (omap (album_info c caller is_admin (library s)) album_list)).

(** ** [get_export.rs] *)
Record ExportEntry := mkExport { ex_key : str; ex_value : AbstractData }.
Inductive ExportBody := IterationFailed | Exported (entries : list ExportEntry).

Definition relativize (cfg : Config) (p : str) : str :=
  match below (image_home cfg) p with
  | Some rel => rel
  | None => default [] (below (get_resolved_users_home cfg) p)
  end.
Definition censored_share (s : Share) : Share :=
  mkShare (fingerprint s) (share_description s) None (show_metadata s) (show_download s) (show_upload s)
    (exp s) (created_by s).
Definition censor_shares (shares : gmap str Share) : gmap str Share :=
  list_to_map ((fun kv => (fingerprint kv.2, censored_share kv.2)) <$> map_to_list shares).
Definition relative_entry (cfg : Config) (e : FileEntry) : FileEntry :=
  mkEntry (relativize cfg (file e)) (modified e) (scan_time e) (entry_trashed e).
Definition censor_for_export (cfg : Config) (d : AbstractData) : AbstractData :=
  match d with
  | Image i => Image (on_image_metadata (fun m => img_set_path (relative_entry cfg <$> img_path m) m) i)
  | Video v => Video (on_video_metadata (fun m => vid_set_path (relative_entry cfg <$> vid_path m) m) v)
  | Album a => Album (on_album_metadata (fun m =>
      mkAlbumMeta (alb_id m) (title m) (created_time m) (start_time m) (end_time m)
        (last_modified_time m) (cover m) (item_count m) (item_size m) (censor_shares (share_list m))
        (relativize cfg (dir_path m)) (custom_title m) (alb_trashed m)) a)
  end.
Definition export_row (c : Ctx) (ix : Index) (key : str) : option ExportEntry :=
  match (_ ← redb (Rd:=metadata_io c ix) (Get key); redb (Rd:=asset_io c ix) (Get key)) with
  | Ok _ =>
      value ← payloads ix !! key;
      record ← mjoin (by_id ix !! key);
      Some (mkExport key (censor_for_export (c_roots c)
              (compose_abstract_data (c_now c) record (Some value))))
  | Err _ => None
  end.
Definition get_export (c : Ctx) (s : Server) : app_result ExportBody :=
  let ix := index (library s) in
  _ ← admin_claims c s;
  _ ← map_err (fun _ => new_error Database (lit "Failed to begin read transaction"))
        (redb (Rd:=metadata_io c ix) BeginRead);
  _ ← map_err (fun _ => new_error Database (lit "Failed to open METADATA_TABLE"))
        (redb (Rd:=metadata_io c ix) OpenTable);
  _ ← map_err (fun _ => new_error Database (lit "Failed to open ASSET_BY_ID"))
        (redb (Rd:=asset_io c ix) OpenTable);
  Ok match redb (Rd:=metadata_io c ix) Iter with
     | Err _ => IterationFailed
     | Ok _ => Exported (omap (export_row c ix) (keys_of (payloads ix)))
     end.
End Handlers.

(** ** Tags *)
Section Counting.
Context {F : Fs}.

Lemma bump_all (l : list str) (m : gmap str N) t : NoDup l ->
  foldr (fun t m => <[t := default 0 (m !! t) + 1]> m) m l !! t
  = (if bool_decide (t ∈ l) then Some (default 0 (m !! t) + 1) else m !! t).
Proof.
  induction 1 as [|x l Hx _ IH]; cbn [foldr]; [by rewrite bool_decide_eq_false_2 by apply not_elem_of_nil|].
  destruct (decide (t = x)) as [->|Hne].
  - rewrite lookup_insert_eq, bool_decide_eq_true_2 by by left.
    rewrite (bool_decide_eq_false_2 _ Hx) in IH. by rewrite IH.
  - rewrite lookup_insert_ne, IH by done.
    rewrite (bool_decide_ext (t ∈ x :: l) (t ∈ l)); [done|]. rewrite elem_of_cons. naive_solver.
Qed.
Lemma count_tags_spec tags m t :
  count_tags tags m !! t
  = (if bool_decide (t ∈ tags) then Some (default 0 (m !! t) + 1) else m !! t).
Proof.
  unfold count_tags. rewrite bump_all by apply NoDup_elements.
  by rewrite (bool_decide_ext (t ∈ elements tags) (t ∈ tags)) by apply elem_of_elements.
Qed.

(** The items that count for a tag: those the caller may see that carry it. *)
Definition carriers (cfg : Config) (caller tag_ : str) (tree : list DatabaseTimestamp) : N :=
  N.of_nat (length (List.filter (fun t => counted cfg caller (abstract_data t) &&
                                          bool_decide (tag_ ∈ tag (abstract_data t))) tree)).

(** The tag list names exactly the tags that some item the caller may see carries,
    each with the number of those items; other users' personal items add nothing. *)
Theorem tags_spec cfg caller tree t :
  read_tags cfg caller tree !! t =
    if carriers cfg caller t tree =? 0 then None else Some (carriers cfg caller t tree).
Proof.
  unfold carriers. induction tree as [|x tree IH]; [done|]. cbn [read_tags foldr List.filter].
  fold (read_tags cfg caller tree). destruct (counted cfg caller (abstract_data x)); cbn [andb]; [|done].
  rewrite count_tags_spec, IH. destruct (bool_decide (t ∈ tag (abstract_data x))) eqn:Ht; [|done].
  cbn [length]. set (n := length _). rewrite (proj2 (N.eqb_neq (N.of_nat (S n)) 0)) by lia.
  f_equal. destruct (N.eqb_spec (N.of_nat n) 0) as [Hn|Hn]; cbn [default from_option id]; unfold default; cbn; lia.
Qed.
End Counting.

(** ** Albums *)
Section Listing.
Context {Jc : JsonCodec} {Lh : LegacyHash} {Ca : Casing} {Cr : Crypto} {J : Jwt} {Tc : TokenCodec}.
Context {F : Fs}.

Lemma collect_ok {A B} (f : A -> app_result (option B)) l bs : collect f l = Ok bs ->
  (forall b, b ∈ bs <-> exists a, a ∈ l /\ f a = Ok (Some b)) /\
  forall a, a ∈ l -> exists o, f a = Ok o.
Proof.
  revert bs. induction l as [|a l IH]; intros bs; cbn [collect].
  - intros [= <-]. split; [intros b; split; [by intros ?%elem_of_nil|by intros (? & ?%elem_of_nil & _)]|].
    by intros a ?%elem_of_nil.
  - intros (o & Ho & H)%bind_Ok. apply bind_Ok in H as (bs' & Hbs & [= <-]).
    destruct (IH _ Hbs) as [Hin Hall]. split.
    + intros b. setoid_rewrite elem_of_cons. destruct o as [b'|]; cbn [from_option].
      * rewrite elem_of_cons, Hin. split.
        -- intros [->|(a' & ? & ?)]; [exists a|exists a']; auto.
        -- intros (a' & [->|?] & Ha'); [left; congruence|right; eauto].
      * rewrite Hin. split; [intros (a' & ? & ?); eauto|].
        intros (a' & [->|?] & Ha'); [congruence|eauto].
    + intros a' [->|?]%elem_of_cons; eauto.
Qed.

(** An album of the library: its two rows. *)
Definition stored_album (ix : Index) (key : str) (payload : AlbumPayload) (record : AssetRecord) : Prop :=
  payloads ix !! key = Some (MAlbum payload) /\ by_id ix !! key = Some (Some record) /\
  kind record = AAlbum.

Lemma read_albums_ok c ix out : read_albums c ix = Ok out ->
  forall a, a ∈ out <-> exists key payload record, stored_album ix key payload record /\
    compose_abstract_data (c_now c) record (Some (MAlbum payload)) = Album a.
Proof.
  intros H a. do 4 apply bind_Ok in H as (_ & _ & H). apply collect_ok in H as [Hin Hall].
  rewrite Hin. unfold stored_album. split.
  - intros (key & _ & Hr). unfold read_album in Hr. apply bind_Ok in Hr as (_ & _ & Hr).
    destruct (payloads ix !! key) as [[?|?|payload]|] eqn:Hp; try done.
    apply bind_Ok in Hr as (_ & _ & Hr). destruct (by_id ix !! key) as [[record|]|] eqn:Hb; try done.
    cbn in Hr. injection Hr as Hr. exists key, payload, record.
    destruct (kind record) eqn:Hk.
    + exfalso. unfold compose_abstract_data in Hr. by rewrite Hk in Hr.
    + exfalso. unfold compose_abstract_data in Hr. by rewrite Hk in Hr.
    + split; [done|]. destruct (compose_album (c_now c) record (Some (MAlbum payload)) Hk) as [a' Ha'].
      rewrite Ha' in *. congruence.
  - intros (key & payload & record & (Hp & Hb & Hk) & Ha). exists key.
    assert (key ∈ keys_of (payloads ix)) as Hkey by (apply keys_of_spec; by eexists).
    split; [done|]. destruct (Hall _ Hkey) as [o Ho]. revert Ho. unfold read_album. rewrite Hp, Hb.
    intros (? & -> & Ho)%bind_Ok. apply bind_Ok in Ho as (? & -> & _). cbn. by rewrite Ha.
Qed.

Lemma visible_classification cfg caller dir :
  match classify_path cfg dir with
  | UsersRoot => true | Personal owner => negb (str_eqb owner caller) | _ => false
  end = negb (visible_to cfg caller dir).
Proof. unfold visible_to. by destruct (classify_path cfg dir). Qed.

Lemma listed_shares_spec caller adm shares fp :
  (forall si, listed_shares caller adm shares !! fp = Some si ->
     exists token sh, shares !! token = Some sh /\ fingerprint sh = fp /\ si = share_info sh /\
       (adm = true \/ created_by sh = caller)) /\
  ((exists token sh, shares !! token = Some sh /\ fingerprint sh = fp /\
      (adm = true \/ created_by sh = caller)) -> is_Some (listed_shares caller adm shares !! fp)).
Proof.
  assert (forall o, share_visible_to caller adm o = true <-> adm = true \/ o = caller) as Hv.
  { intros o. unfold share_visible_to. rewrite orb_true_iff, str_eqb_eq. naive_solver. }
  unfold listed_shares. split.
  - intros si H%elem_of_list_to_map_2. apply list_elem_of_fmap in H as ([token sh] & [= -> ->] & H).
    apply list_elem_of_filter in H as [Hvis Hin%elem_of_map_to_list]. exists token, sh.
    split_and!; try done. by apply Hv.
  - intros (token & sh & Hsh & <- & Hvis). set (l := _ <$> _).
    destruct (list_to_map (M:=gmap str ShareInfo) l !! fingerprint sh) as [si|] eqn:Hl; [by eexists|].
    apply not_elem_of_list_to_map in Hl. destruct Hl. apply list_elem_of_fmap.
    exists (fingerprint sh, share_info sh). split; [done|]. apply list_elem_of_fmap.
    exists (token, sh). split; [done|]. apply list_elem_of_filter.
    split; [by apply Hv|]. by apply elem_of_map_to_list.
Qed.

(** The album listing names exactly the albums whose directory the caller may see,
    and of each the shares the caller created — every share, for an administrator —
    by their fingerprints and without their secrets. *)
Theorem album_listing_spec c s claims out :
  user_claims c s = Ok claims -> get_albums c s = Ok out ->
  let '(caller, adm) := caller_identity claims in
  (forall info, info ∈ out -> exists key payload record,
     stored_album (index (library s)) key payload record /\
     visible_to (c_roots c) caller (components (rec_path record)) = true /\
     ai_name info = ap_title payload /\
     forall fp, (forall si, ai_shares info !! fp = Some si ->
         exists token sh, ap_shares payload !! token = Some sh /\ fingerprint sh = fp /\
           si = share_info sh /\ (adm = true \/ created_by sh = caller)) /\
       ((exists token sh, ap_shares payload !! token = Some sh /\ fingerprint sh = fp /\
           (adm = true \/ created_by sh = caller)) -> is_Some (ai_shares info !! fp))) /\
  (forall key payload record, stored_album (index (library s)) key payload record ->
     visible_to (c_roots c) caller (components (rec_path record)) = true ->
     exists info, info ∈ out /\ ai_name info = ap_title payload).
Proof.
  intros Hc. unfold get_albums, in_task. rewrite Hc. cbn [mbind result_bind].
  destruct (caller_identity claims) as [caller adm]. intros (_ & _ & H)%bind_Ok.
  apply bind_Ok in H as (l & Hl%map_err_Ok & [= <-]). pose proof (read_albums_ok c _ l Hl) as Hin.
  assert (forall key payload record a, stored_album (index (library s)) key payload record ->
    compose_abstract_data (c_now c) record (Some (MAlbum payload)) = Album a ->
    dir_path (alb_metadata a) = rec_path record /\ title (alb_metadata a) = ap_title payload /\
    share_list (alb_metadata a) = ap_shares payload) as Hfields.
  { intros key payload record a (_ & _ & Hk) Ha. unfold compose_abstract_data in Ha. rewrite Hk in Ha.
    by injection Ha as <-. }
  split.
  - intros info (a & Ha & Hi)%list_elem_of_omap.
    apply Hin in Ha as (key & payload & record & Hst & Hcomp). exists key, payload, record.
    destruct (Hfields _ _ _ _ Hst Hcomp) as (Hd & Ht & Hs).
    unfold album_info in Hi. rewrite visible_classification, Hd in Hi.
    destruct (visible_to _ _ _); [|done]. cbn [negb] in Hi.
    destruct (match classify_path _ _ with Personal _ => _ | _ => _ end) as [[root owner] shown].
    injection Hi as <-. cbn [ai_name ai_shares]. rewrite Ht, Hs. split_and!; try done.
    intros fp. apply listed_shares_spec.
  - intros key payload record Hst Hv.
    destruct (compose_album (c_now c) record (Some (MAlbum payload)) (proj2 (proj2 Hst))) as [a Ha].
    destruct (Hfields _ _ _ _ Hst Ha) as (Hd & Ht & Hs).
    assert (exists info, album_info c caller adm (library s) a = Some info /\ ai_name info = ap_title payload)
      as (info & Hi & Hn).
    { unfold album_info. rewrite visible_classification, Hd, Hv. cbn [negb].
      destruct (match classify_path _ _ with Personal _ => _ | _ => _ end) as [[root owner] shown].
      by eexists. }
    exists info. split; [|done]. apply list_elem_of_omap. exists a. split; [|done]. apply Hin. eauto.
Qed.
End Listing.

(** ** The export *)
Section Exporting.
Context {Jc : JsonCodec} {Lh : LegacyHash} {Ca : Casing} {Cr : Crypto} {J : Jwt} {Tc : TokenCodec}.
Context {F : Fs}.

(** [out] is [p] below one of the roots, or nothing. *)
Definition relative_to (cfg : Config) (p out : str) : Prop :=
  out = [] \/ exists root rel, (image_home cfg = Some root \/ users_home cfg = Some root) /\
    components p = root ++ rel /\ out = path_text rel.

Lemma below_Some root p out : below root p = Some out ->
  exists r rel, root = Some r /\ components p = r ++ rel /\ out = path_text rel.
Proof.
  unfold below. intros (r & -> & H)%bind_Some. apply fmap_Some in H as (rel & Hr & ->).
  apply path_strip_prefix_spec in Hr. by exists r, rel.
Qed.
Lemma relativize_spec cfg p : relative_to cfg p (relativize cfg p).
Proof.
  unfold relative_to, relativize, get_resolved_users_home.
  destruct (below (image_home cfg) p) as [out|] eqn:Hi.
  - apply below_Some in Hi as (r & rel & ? & ? & ->). right. exists r, rel. auto.
  - destruct (below (users_home cfg) p) as [out|] eqn:Hu; [|by left].
    apply below_Some in Hu as (r & rel & ? & ? & ->). right. exists r, rel. auto.
Qed.

Lemma censor_shares_spec shares fp sh : censor_shares shares !! fp = Some sh ->
  exists token st, shares !! token = Some st /\ fp = fingerprint st /\ sh = censored_share st.
Proof.
  intros H%elem_of_list_to_map_2. apply list_elem_of_fmap in H as ([token st] & [= -> ->] & H).
  apply elem_of_map_to_list in H. by exists token, st.
Qed.
Lemma censored_path cfg d path : visibility_path (censor_for_export cfg d) = Some path ->
  exists stored, visibility_path d = Some stored /\ relative_to cfg stored path.
Proof.
  destruct d as [i|v|a]; cbn.
  - destruct (img_path (img_metadata i)) as [e|]; [|done]. intros [= <-].
    eexists. split; [done|]. apply relativize_spec.
  - destruct (vid_path (vid_metadata v)) as [e|]; [|done]. intros [= <-].
    eexists. split; [done|]. apply relativize_spec.
  - intros [= <-]. eexists. split; [done|]. apply relativize_spec.
Qed.

(** The export is an administrator's, has one entry for each row that has both
    halves, and carries no bearer, no share password and no absolute path: shares
    stand under their fingerprints, and paths are relative to a root or empty. *)
Theorem export_spec c s body :
  (forall n, fate (Fates:=c_fates c) n = healthy) -> get_export c s = Ok body ->
  exists es, body = Exported es /\ is_ok (admin_claims c s) = true /\
    (forall key, (exists e, e ∈ es /\ ex_key e = key) <->
       is_Some (payloads (index (library s)) !! key) /\
       is_Some (mjoin (by_id (index (library s)) !! key))) /\
    forall e, e ∈ es ->
      (forall fp sh, shares_of (ex_value e) !! fp = Some sh ->
         url sh = fp /\ password sh = None /\
         exists token st, stored_shares (payloads (index (library s)) !! ex_key e) !! token = Some st /\
           fp = fingerprint st) /\
      (forall path, visibility_path (ex_value e) = Some path ->
         exists record, mjoin (by_id (index (library s)) !! ex_key e) = Some record /\
           relative_to (c_roots c) (rec_path record) path).
Proof.
  intros Hf. unfold get_export, metadata_io, asset_io. rewrite !Hf.
  cbn [redb fault healthy map_err mbind result_bind].
  destruct (admin_claims c s) as [claims|]; [|done]. intros [= <-]. eexists. split; [done|]. split; [done|].
  set (ix := index (library s)).
  assert (forall key e, export_row c ix key = Some e <-> exists value record,
    payloads ix !! key = Some value /\ mjoin (by_id ix !! key) = Some record /\
    e = mkExport key (censor_for_export (c_roots c) (compose_abstract_data (c_now c) record (Some value))))
    as Hrow.
  { intros key e. unfold export_row, metadata_io, asset_io. rewrite !Hf.
    cbn [redb fault healthy map_err mbind result_bind]. split.
    - intros (value & Hv & H)%bind_Some. apply bind_Some in H as (record & Hr & [= <-]). eauto.
    - intros (value & record & -> & Hr & ->). cbn. by rewrite Hr. }
  split.
  - intros key. setoid_rewrite list_elem_of_omap. split.
    + intros (e & (k & _ & H) & <-). apply Hrow in H as (value & record & Hv & Hr & ->).
      cbn [ex_key]. rewrite Hr. split; by eexists.
    + intros [[value Hv] [record Hr]]. eexists. split.
      * exists key. split; [apply keys_of_spec; by eexists|]. apply Hrow. eauto.
      * done.
  - intros e (key & _ & H)%list_elem_of_omap. apply Hrow in H as (value & record & Hv & Hr & ->).
    cbn [ex_key ex_value]. rewrite Hv. split.
    + intros fp sh Hsh.
      assert (censor_shares (stored_shares (Some value)) !! fp = Some sh) as Hc.
      { destruct (kind record) eqn:Hk.
        1,2: exfalso; unfold compose_abstract_data in Hsh; rewrite Hk in Hsh;
          destruct (option_filter _ _) as [[]|]; cbn in Hsh; by rewrite lookup_empty in Hsh.
        destruct (compose_album (c_now c) record (Some value) Hk) as [a Ha].
        rewrite <-(compose_shares (c_now c) record (Some value) Hk). by rewrite Ha in *. }
      apply censor_shares_spec in Hc as (token & st & Hst & -> & ->). split_and!; [done..|]. eauto.
    + intros path Hp. apply censored_path in Hp as (stored & Hs & Hrel). exists record.
      split; [done|]. replace (rec_path record) with stored; [done|].
      unfold compose_abstract_data in Hs.
      destruct (kind record), (option_filter _ _) as [[]|]; cbn in Hs; by injection Hs.
Qed.
End Exporting.

(** ** Witnesses: an album of two creators *)
Module ListWitness.
Import (hints) ServerWitness.
Import (hints) HomeWitness.
Import (hints) PathWitness.
Import (hints) TokenWitness.
Definition reader : Ctx := ShareWitness.ctx [].
Definition server : Server :=
  with_library (mkLib (mkIndex
      {[ lit "A" := Some (mkAsset (lit "A") AAlbum (lit "/img/2024") None 0 [] 0 0 false None) ]} ∅ ∅
      {[ lit "A" := MAlbum ShareWitness.album ]} 0) (mkAlbums ∅ ∅)) ServerWitness.solo.
End ListWitness.
Import (hints) ServerWitness.
Import (hints) HomeWitness.
Import (hints) PathWitness.
Import (hints) TokenWitness.

Lemma album_listing_spec_witness : exists infos info,
  get_albums ListWitness.reader ListWitness.server = Ok infos /\ info ∈ infos.
Proof.
  destruct (get_albums ListWitness.reader ListWitness.server) as [infos|] eqn:Hg;
    [|vm_compute in Hg; discriminate].
  destruct (user_claims ListWitness.reader ListWitness.server) as [claims|] eqn:Hc;
    [|vm_compute in Hc; discriminate].
  pose proof (album_listing_spec ListWitness.reader ListWitness.server claims infos Hc Hg) as H.
  vm_compute in Hc. injection Hc as <-. cbn [caller_identity role] in H.
  destruct (proj2 H (lit "A") ShareWitness.album
    (mkAsset (lit "A") AAlbum (lit "/img/2024") None 0 [] 0 0 false None)) as (info & Hi & _).
  - by split_and!.
  - vm_compute. reflexivity.
  - exists infos, info. by split.
Defined.

Lemma export_spec_witness : exists es,
  get_export ListWitness.reader ListWitness.server = Ok (Exported es).
Proof.
  destruct (get_export ListWitness.reader ListWitness.server) as [body|] eqn:Hg;
    [|vm_compute in Hg; discriminate].
  destruct (export_spec ListWitness.reader ListWitness.server body (fun _ => eq_refl) Hg) as (es & -> & _).
  by exists es.
Defined.
