(* ===== verification/Watcher.v ===== *)
(** * Watcher: file events, stale paths and the sweep
      ([backend/src/tasks/batcher/start_watcher.rs], [process/path.rs] and the sweep
      of [tasks/actor/album_index.rs])

    The file system is a map from path texts to identities, the one the intake
    looks at; [remove_file] may be refused.  Timers may fire at any time once their
    second is over.  Starting the watcher is I/O apart from its flag. *)

From S2P Require Import Snapshots.
From S2P Require Import Prelude Redb Password Priority Intake Paths Formats Model MetadataRecord DirAlbum.
From S2P Require Import IndexStore DirAlbumStore DataPages.

(** Whether an existing file can be removed. *)
Class Unlink := { can_unlink : str -> bool }.
Abbreviation Files := (gmap str Identity).

(** ** [process/path.rs] *)
Section Pruning.
Context {Un : Unlink} {Fa : Fates}.
(** The data directory and the configured roots. *)
Variable data_home : Path.
Variable cfg : Config.

Definition remove_file (p : str) (fs : Files) : Files := if can_unlink p then delete p fs else fs.
(** [Path::with_extension("xmp")]. *)
Definition with_xmp (p : str) : str :=
  match file_name (components p) with
  | Some name => path_text (push (pop (components p)) [Normal (file_stem name ++ lit ".xmp")])
  | None => p
  end.
Definition remove_asset_file (p : str) (fs : Files) : Files :=
  let fs := remove_file p fs in
  let sidecar := with_xmp p in
  if is_some (fs !! sidecar) then remove_file sidecar fs else fs.

Definition normalize_asset_path (p : str) : Path :=
  match components p with
  | RootDir :: _ => components p
  | _ => match get_resolved_image_home cfg with
         | Some home => push home (components p)
         | None => components p
         end
  end.

Definition compressed_path (d : AbstractData) : str :=
  match compressed_path_string d with
  | Some rel => path_text (push data_home (components rel))
  | None => []
  end.
Definition remove_compressed_thumbnail (d : AbstractData) (ix : Index) (fs : Files) : Files :=
  let other_refs := match (get_dupe_ids (hash d) ix).1 with Ok ids => length ids | Err _ => 0%nat end in
  if (1 <? other_refs)%nat then fs
  else if is_some (fs !! compressed_path d) then remove_file (compressed_path d) fs else fs.

(** The record, whether it still has its path, and the files. *)
Definition drop_path (d : AbstractData) (gone : FileEntry -> bool) (ix : Index) (fs : Files)
  : bool * AbstractData * Files :=
  match d with
  | Album _ => (false, d, fs)
  | _ =>
      let d := path_mut (fun e => if is_some_and gone e then None else e) d in
      if is_some (path d) then (true, d, fs) else (false, d, remove_compressed_thumbnail d ix fs)
  end.
Definition prune_asset_path (d : AbstractData) (target : str) (ix : Index) (fs : Files)
  : bool * AbstractData * Files :=
  drop_path d (fun e => bool_decide (components (file e) = components target)) ix (remove_asset_file target fs).
Definition prune_stale_asset_path (d : AbstractData) (ix : Index) (fs : Files) : bool * AbstractData * Files :=
  drop_path d (fun e => negb (is_some (fs !! path_text (normalize_asset_path (file e))))) ix fs.

(** ** [handle_removed_file] *)
Inductive RemovalAction := InsertRecord (d : AbstractData) | RemoveRecord (d : AbstractData).
Definition owner_of (removed : str) (tree : list DatabaseTimestamp) : option AbstractData :=
  abstract_data <$> List.find (fun t => is_some_and (fun e => str_eqb (file e) removed) (path (abstract_data t))) tree.
Definition handle_removed_file (removed : str) (tree : list DatabaseTimestamp) (ix : Index) (fs : Files)
  : option RemovalAction * Files :=
  match owner_of removed tree with
  | None => (None, fs)
  | Some d =>
      let '(has_path, d, fs) := prune_asset_path d removed ix fs in
      (Some (if has_path then InsertRecord d else RemoveRecord d), fs)
  end.

(** ** The sweep of an index job *)
Definition under (root : Path) (t : DatabaseTimestamp) : bool :=
  is_some_and (fun e => path_starts_with (normalize_asset_path (file e)) root) (path (abstract_data t)).
Fixpoint prune_all (ds : list AbstractData) (ix : Index) (fs : Files) : list AbstractData * Files :=
  match ds with
  | [] => ([], fs)
  | d :: ds =>
      let had_path := is_some (path d) in
      let '(has_path, d, fs) := prune_stale_asset_path d ix fs in
      let '(rest, fs) := prune_all ds ix fs in
      (if negb has_path && had_path then d :: rest else rest, fs)
  end.
Definition stale_album (root : Path) (fs : Files) (t : DatabaseTimestamp) : option (Path * str) :=
  match abstract_data t with
  | Album a =>
      let dir := components (dir_path (alb_metadata a)) in
      if negb (is_empty (dir_path (alb_metadata a))) && path_starts_with dir root
         && negb (is_some (fs !! path_text dir))
      then Some (dir, id (alb_object a)) else None
  | _ => None
  end.
(** What the sweep submits to the writer: the albums and the records to remove. *)
Definition sweep_stale_asset_paths (root : Path) (tree : list DatabaseTimestamp) (ix : Index) (fs : Files)
  : list (Path * str) * list AbstractData * Files :=
  let '(to_remove, fs) := prune_all (abstract_data <$> List.filter (under root) tree) ix fs in
  (omap (stale_album root fs) tree, to_remove, fs).
End Pruning.

Section Files.
Context {Un : Unlink} {Fa : Fates}.

Lemma remove_file_other f p fs : p <> f -> remove_file f fs !! p = fs !! p.
Proof. intros Hne. unfold remove_file. case_match; [|done]. by rewrite lookup_delete_ne. Qed.
Lemma remove_file_gone f fs : can_unlink f = true -> remove_file f fs !! f = None.
Proof. unfold remove_file. intros ->. apply lookup_delete_eq. Qed.
Lemma remove_file_none f p fs : fs !! p = None -> remove_file f fs !! p = None.
Proof. intros Hp. destruct (decide (p = f)) as [->|Hne]; [|by rewrite remove_file_other].
  unfold remove_file. case_match; [apply lookup_delete_eq|done]. Qed.

Lemma asset_file_other f p fs : p <> f -> p <> with_xmp f -> remove_asset_file f fs !! p = fs !! p.
Proof. intros H1 H2. unfold remove_asset_file. case_match; by rewrite ?remove_file_other. Qed.
Lemma asset_file_gone f fs : can_unlink f = true -> remove_asset_file f fs !! f = None.
Proof.
  intros Hf. unfold remove_asset_file. case_match; [apply remove_file_none|]; by apply remove_file_gone.
Qed.
Lemma sidecar_gone f fs : can_unlink (with_xmp f) = true -> remove_asset_file f fs !! with_xmp f = None.
Proof.
  intros Hf. unfold remove_asset_file. destruct (is_some _) eqn:Hs; [by apply remove_file_gone|].
  by destruct (remove_file f fs !! with_xmp f).
Qed.
Lemma thumbnail_other home ix d d' p fs : compressed_path home d = compressed_path home d' ->
  p <> compressed_path home d' -> remove_compressed_thumbnail home d ix fs !! p = fs !! p.
Proof.
  intros Hd Hne. unfold remove_compressed_thumbnail. rewrite Hd.
  repeat case_match; try done; by rewrite remove_file_other.
Qed.
Lemma thumbnail_none home ix d p fs : fs !! p = None -> remove_compressed_thumbnail home d ix fs !! p = None.
Proof. intros Hp. unfold remove_compressed_thumbnail. repeat case_match; try done; by apply remove_file_none. Qed.
End Files.

(** ** The watcher in front of the intake *)
Record Watch := mkWatch {
  intake : Intake;
  pool : gmap str N;                 (* DEBOUNCE_POOL: the last event of each path *)
  timers : list (str * N)            (* the tasks asleep, with the instant of their event *)
}.
Inductive WatchEvent :=
| Created (p : str) (now : N)        (* EventKind::Create and Modify *)
| Removed (p : str)
| Fire (n : nat) (now : N)           (* the [n]th sleeper wakes *)
| Inside (e : Event).                (* the users of the files, submitters and workers *)

Section Watching.
Context {Ca : Casing} {I : Infer} {Un : Unlink} {Fa : Fates}.
Variable workers : nat.
Variable data_home : Path.
Variable cfg : Config.
Variable enabled : bool.             (* fs_notify_watcher *)
Variable tree : list DatabaseTimestamp.
Variable ix : Index.

Definition under_root (p : str) : bool :=
  is_some_and (path_starts_with (components p)) (get_resolved_image_home cfg)
  || is_some_and (path_starts_with (components p)) (get_resolved_users_home cfg).
Definition submit_to_debounce_pool (p : str) (now : N) (w : Watch) : Watch :=
  mkWatch (intake w) (<[p := now]> (pool w)) (timers w ++ [(p, now)]).
(** The sleeper of an event, once awake. *)
Definition awake (p : str) (last : N) (w : Watch) : Watch :=
  if bool_decide (pool w !! p = Some last) then
    let submits := enabled && under_root p && is_some (disk (intake w) !! p) &&
                   match classify_media_file p with Formats.Index => true | _ => false end in
    mkWatch (if submits then begin_submit WatcherIndex p (intake w) else intake w)
      (delete p (pool w)) (timers w)
  else w.
(** The removal handler of [process_watcher_remove]; its submission to the writer
    is not part of this state. *)
Definition detach (i : IntakeItem) (s : Intake) : Intake :=
  set_disk (handle_removed_file data_home (i_path i) tree ix (disk s)).2 s.
Definition exec_inside (e : Event) (s : Intake) : option Intake :=
  match e with
  | EWork n =>
      match running s !! n with
      | Some (Working, i) =>
          if bool_decide (i_kind i = WatcherRemove) then work n (detach i s) else work n s
      | _ => work n s
      end
  | _ => exec workers e s
  end.
Definition exec_watch (e : WatchEvent) (w : Watch) : option Watch :=
  match e with
  | Created p now =>
      Some (if is_some (disk (intake w) !! p) && is_valid_media_file p
            then submit_to_debounce_pool p now w else w)
  | Removed p =>
      Some (if is_valid_media_file p
            then mkWatch (begin_submit WatcherRemove p (intake w)) (pool w) (timers w) else w)
  | Fire n now =>
      '(p, last) ← timers w !! n;
      if last + 1000 <=? now
      then Some (awake p last (mkWatch (intake w) (pool w) (replace_at n None (timers w)))) else None
  | Inside e => s ← exec_inside e (intake w); Some (mkWatch s (pool w) (timers w))
  end.
Fixpoint run_watch (es : list WatchEvent) (w : Watch) : option Watch :=
  match es with [] => Some w | e :: es => w' ← exec_watch e w; run_watch es w' end.

(** ** Removal *)
(** A handled removal always removes the record that owns the path, and leaves
    neither the path nor its sidecar on disk where they can be removed, whatever is
    there by now. *)
Theorem removal_spec removed fs d : owner_of removed tree = Some d ->
  exists d' fs', handle_removed_file data_home removed tree ix fs = (Some (RemoveRecord d'), fs') /\
    path d' = None /\ hash d' = hash d /\
    (can_unlink removed = true -> fs' !! removed = None) /\
    (can_unlink (with_xmp removed) = true -> fs' !! with_xmp removed = None) /\
    forall p, p <> removed -> p <> with_xmp removed -> p <> compressed_path data_home d -> fs' !! p = fs !! p.
Proof.
  intros Ho. unfold handle_removed_file. rewrite Ho. unfold owner_of in Ho.
  apply fmap_Some in Ho as (t & Ht & ->). apply List.find_some in Ht as [_ Ht].
  set (d := abstract_data t) in *. destruct (path d) as [e|] eqn:Hp; [|done]. cbn in Ht. to_prop.
  unfold prune_asset_path, drop_path.
  assert (path (path_mut (fun o => if is_some_and (fun e => bool_decide (components (file e) = components removed)) o
    then None else o) d) = None /\ hash (path_mut (fun o => if is_some_and (fun e =>
      bool_decide (components (file e) = components removed)) o then None else o) d) = hash d /\
    compressed_path data_home (path_mut (fun o => if is_some_and (fun e =>
      bool_decide (components (file e) = components removed)) o then None else o) d)
    = compressed_path data_home d) as (Hnone & Hh & Hc).
  { subst d. destruct (abstract_data t) as [i|v|a]; cbn in Hp |- *; [rewrite Hp..|done];
      cbn [is_some_and]; rewrite bool_decide_eq_true_2 by congruence; done. }
  destruct d as [i|v|a]; [..|done]; rewrite Hnone; cbn [is_some];
    (eexists _, _; split; [done|]; split; [done|]; split; [done|]).
  all: split_and!; intros; rewrite ?(thumbnail_other _ _ _ _ _ _ Hc), ?asset_file_other by done; try done.
  all: apply thumbnail_none; first [by apply asset_file_gone|by apply sidecar_gone].
Qed.

(** ** The sweep *)
Definition clear_path : AbstractData -> AbstractData := path_mut (fun _ => None).
(** The record's file is not there. *)
Definition missing (fs : Files) (d : AbstractData) : bool :=
  is_some_and (fun e => negb (is_some (fs !! path_text (normalize_asset_path cfg (file e))))) (path d).
(** No record's file lies where a thumbnail of one of them does. *)
Definition apart (ds : list AbstractData) : Prop := forall d d' e, d ∈ ds -> d' ∈ ds -> path d = Some e ->
  path_text (normalize_asset_path cfg (file e)) <> compressed_path data_home d'.

Lemma path_mut_keeps f d e : path d = Some e -> f (Some e) = Some e -> path_mut f d = d.
Proof.
  destruct d as [[o m]|[o m]|a]; [..|done]; unfold path, path_mut, on_image_metadata, on_video_metadata;
    cbn [img_metadata vid_metadata img_object vid_object]; intros He Hf; rewrite He, Hf;
    destruct m; cbn in He; by subst.
Qed.
Lemma path_mut_clears f d : f (path d) = None -> path_mut f d = clear_path d.
Proof.
  destruct d as [i|v|a]; [..|done]; unfold path, clear_path, path_mut, on_image_metadata, on_video_metadata;
    by intros ->.
Qed.
Lemma clear_path_spec d : path (clear_path d) = None /\
  compressed_path data_home (clear_path d) = compressed_path data_home d.
Proof. by destruct d. Qed.

Lemma prune_stale_spec d fs : is_Some (path d) -> exists fs',
  prune_stale_asset_path data_home cfg d ix fs
  = (negb (missing fs d), if missing fs d then clear_path d else d, fs') /\
  forall p, p <> compressed_path data_home d -> fs' !! p = fs !! p.
Proof.
  intros [e He]. unfold prune_stale_asset_path, drop_path, missing. rewrite He. cbn [is_some_and].
  set (gone := fun e => negb _).
  assert (forall b, gone e = b -> path_mut (fun o => if is_some_and gone o then None else o) d
    = if b then clear_path d else d) as Hmut.
  { intros [] Hb; [apply path_mut_clears; rewrite He; cbn; by rewrite Hb|].
    apply (path_mut_keeps _ _ e He). cbn. by rewrite Hb. }
  specialize (Hmut _ eq_refl). unfold gone in Hmut at 2. destruct (is_some (fs !! _)) eqn:Hex; cbn [negb] in *;
    destruct d as [i|v|a]; try done; rewrite Hmut; destruct (clear_path_spec (Image i)) as [Hc Hk] || destruct (clear_path_spec (Video v)) as [Hc Hk].
  1,2: rewrite He; cbn [is_some]; by eexists.
  all: rewrite Hc; cbn [is_some]; eexists; (split; [reflexivity|]); intros p Hp;
    by apply (thumbnail_other _ _ _ _ _ _ Hk).
Qed.

Lemma prune_all_spec ds fs : (forall d, d ∈ ds -> is_Some (path d)) -> apart ds ->
  exists fs', prune_all data_home cfg ds ix fs = (clear_path <$> List.filter (missing fs) ds, fs') /\
    forall p, (forall d, d ∈ ds -> p <> compressed_path data_home d) -> fs' !! p = fs !! p.
Proof.
  revert fs. induction ds as [|d ds IH]; intros fs Hpath Hapart; cbn [prune_all].
  - exists fs. by split.
  - destruct (prune_stale_spec d fs) as (fs1 & Hd & Hfs1); [apply Hpath; by left|]. rewrite Hd.
    destruct (IH fs1) as (fs2 & Hds & Hfs2); [intros; apply Hpath; by right|
      intros x y e Hx Hy; apply Hapart; by right|]. rewrite Hds. exists fs2. split.
    + f_equal. assert (List.filter (missing fs1) ds = List.filter (missing fs) ds) as ->.
      { apply List.filter_ext_in. intros x Hx%list_elem_of_In. unfold missing.
        destruct (path x) as [e|] eqn:He; [|done]. cbn. rewrite Hfs1; [done|].
        apply (Hapart x d); [by right|by left|done]. }
      destruct (Hpath d ltac:(by left)) as [e He]. rewrite He. cbn [List.filter is_some].
      by destruct (missing fs d).
    + intros p Hp. rewrite Hfs2, Hfs1; [done|apply Hp; by left|]. intros; apply Hp; by right.
Qed.

(** The sweep of a root removes exactly the records whose file lies under the root
    and is gone, with their path cleared, and the directory albums under it whose
    directory is gone; no file of the library is touched, only thumbnails. *)
Theorem sweep_spec root fs : apart (abstract_data <$> tree) ->
  exists albums removed fs', sweep_stale_asset_paths data_home cfg root tree ix fs = (albums, removed, fs') /\
  (forall r, r ∈ removed <-> exists t e, t ∈ tree /\ path (abstract_data t) = Some e /\
    path_starts_with (normalize_asset_path cfg (file e)) root = true /\
    fs !! path_text (normalize_asset_path cfg (file e)) = None /\ r = clear_path (abstract_data t)) /\
  (forall p, (forall t, t ∈ tree -> p <> compressed_path data_home (abstract_data t)) -> fs' !! p = fs !! p) /\
  forall dir i, (dir, i) ∈ albums <-> exists t a, t ∈ tree /\ abstract_data t = Album a /\
    dir_path (alb_metadata a) <> [] /\ components (dir_path (alb_metadata a)) = dir /\ id (alb_object a) = i /\
    path_starts_with dir root = true /\ fs' !! path_text dir = None.
Proof.
  intros Hapart. unfold sweep_stale_asset_paths.
  assert (Hin : forall t, t ∈ List.filter (under cfg root) tree <-> t ∈ tree /\ under cfg root t = true).
  { intros t. by rewrite !list_elem_of_In, List.filter_In. }
  destruct (prune_all_spec (abstract_data <$> List.filter (under cfg root) tree) fs) as (fs' & Hp & Hfs).
  { intros d (t & -> & [_ Ht]%Hin)%list_elem_of_fmap. unfold under in Ht. by destruct (path (abstract_data t)). }
  { intros d d' e (t & -> & [Ht _]%Hin)%list_elem_of_fmap (t' & -> & [Ht' _]%Hin)%list_elem_of_fmap.
    apply Hapart; apply list_elem_of_fmap; eauto. }
  rewrite Hp. eexists _, _, fs'. split; [done|]. split_and!.
  - intros r. rewrite list_elem_of_fmap. split.
    + intros (d & -> & Hd). apply list_elem_of_In, List.filter_In in Hd as [Hd%list_elem_of_In Hm].
      apply list_elem_of_fmap in Hd as (t & -> & [Ht Hu]%Hin).
      unfold under in Hu. unfold missing in Hm. destruct (path (abstract_data t)) as [e|] eqn:He; [|done].
      exists t, e. split_and!; try done. cbn in Hm. by destruct (fs !! _).
    + intros (t & e & Ht & He & Hroot & Hgone & ->). exists (abstract_data t). split; [done|].
      apply list_elem_of_In, List.filter_In. split.
      * apply list_elem_of_In, list_elem_of_fmap. exists t. split; [done|]. apply Hin. split; [done|].
        unfold under. by rewrite He.
      * unfold missing. rewrite He. cbn. by rewrite Hgone.
  - intros p Hne. apply Hfs. intros d (t & -> & [Ht _]%Hin)%list_elem_of_fmap. by apply Hne.
  - intros dir i. rewrite list_elem_of_omap. unfold stale_album. split.
    + intros (t & Ht & Ha). destruct (abstract_data t) as [|?|a] eqn:Hd; [done..|].
      destruct (_ && _) eqn:Hc; [|done]. injection Ha as <- <-. to_prop. exists t, a.
      split_and!; try done; [by destruct (dir_path _)|by destruct (fs' !! _)].
    + intros (t & a & Ht & Hd & Hne & <- & <- & Hroot & Hgone). exists t. split; [done|]. rewrite Hd, Hroot, Hgone.
      by destruct (dir_path (alb_metadata a)).
Qed.

(** ** Debouncing *)
Definition reachable_watch (w : Watch) : Prop := exists es, run_watch es (mkWatch initial ∅ []) = Some w.

Lemma exec_watch_timers w w' e : (forall p t, pool w !! p = Some t -> (p, t) ∈ timers w) ->
  exec_watch e w = Some w' -> forall p t, pool w' !! p = Some t -> (p, t) ∈ timers w'.
Proof.
  intros Hinv. destruct e as [q now|q|n now|e]; cbn [exec_watch].
  - intros [= <-] p t. case_match; [|apply Hinv]. cbn. rewrite lookup_insert_Some, elem_of_app.
    intros [[-> ->]|[_ Hp]]; [right; by left|left; by apply Hinv].
  - intros [= <-] p t. case_match; apply Hinv.
  - intros ([q last] & Hn & H)%bind_Some. destruct (_ <=? _); [|done]. injection H as <-. intros p t.
    unfold awake. cbn. pose proof (replace_perm _ _ _ Hn) as Hperm. case_bool_decide as Hq; cbn.
    + rewrite lookup_delete_Some. intros [Hne Hp]. apply Hinv in Hp. rewrite Hperm in Hp.
      by apply elem_of_cons in Hp as [[= -> ->]|].
    + intros Hp. pose proof Hp as Hp'. apply Hinv in Hp. rewrite Hperm in Hp.
      by apply elem_of_cons in Hp as [[= -> ->]|].
  - intros (s & _ & [= <-])%bind_Some. apply Hinv.
Qed.

(** No debounced change is forgotten: the last event of a path in the pool always
    has its sleeper, which submits the path when it wakes. *)
Theorem debounce_keeps_last w p t : reachable_watch w -> pool w !! p = Some t ->
  exists n, timers w !! n = Some (p, t) /\
    forall now, t + 1000 <= now -> exists w', exec_watch (Fire n now) w = Some w' /\ pool w' !! p = None /\
      (enabled = true -> under_root p = true -> is_Some (disk (intake w) !! p) ->
       classify_media_file p = Formats.Index -> intake w' = begin_submit WatcherIndex p (intake w)).
Proof.
  intros (es & Hr) Hp. assert ((p, t) ∈ timers w) as Hin.
  { revert p t Hp. cut (forall w0, (forall p t, pool w0 !! p = Some t -> (p, t) ∈ timers w0) ->
      run_watch es w0 = Some w -> forall p t, pool w !! p = Some t -> (p, t) ∈ timers w).
    { intros H. eapply H, Hr. intros p t. cbn. by rewrite lookup_empty. }
    clear Hr. induction es as [|e es IH]; intros w0 H0; cbn [run_watch]; [by intros [= <-]|].
    intros (w1 & He & Hr)%bind_Some. eapply IH; [|done]. by eapply exec_watch_timers. }
  apply list_elem_of_lookup in Hin as [n Hn]. exists n. split; [done|]. intros now Hnow. cbn [exec_watch].
  rewrite Hn. cbn [mbind option_bind]. rewrite (proj2 (N.leb_le _ _) Hnow). eexists. split; [done|].
  unfold awake. cbn [pool intake timers]. rewrite bool_decide_eq_true_2 by done. cbn. split; [apply lookup_delete_eq|].
  intros -> -> [x ->] ->. done.
Qed.

(** ** A file that is lost *)
(** A file is deleted and written again, as editors do: the removal is submitted at
    once, the new file only after a second. *)
Definition rewritten (p : str) (v1 v2 : Identity) (t : N) : list WatchEvent :=
  [Inside (ETouch p (Some v1)); Inside (ETouch p None); Removed p; Inside (ENumber 0); Inside (ESend 0);
   Inside (ETouch p (Some v2)); Created p t;
   Inside (ETake Watcher); Inside (EWork 0); Inside (EWork 0); Fire 0 (t + 1000)].

(** A worker that is quicker than the second handles the removal while the new file
    is there, and deletes it from the disk; the sleeper then finds no file, and
    nothing of it is left anywhere. *)
Theorem rewritten_file_is_deleted p v1 v2 t d : (0 < workers)%nat ->
  is_valid_media_file p = true -> can_unlink p = true -> owner_of p tree = Some d ->
  exists w, run_watch (rewritten p v1 v2 t) (mkWatch initial ∅ []) = Some w /\
    quiet (intake w) /\ timers w = [] /\ disk (intake w) !! p = None.
Proof.
  intros Hw Hv Hu Ho.
  assert (forall fs, (handle_removed_file data_home p tree ix fs).2 !! p = None) as Hgone.
  { intros fs. destruct (removal_spec p fs d Ho) as (d' & fs' & -> & _ & _ & H & _). by apply H. }
  set (f1 := partial_alter (fun _ => Some v1) p (∅ : Files)).
  set (f2 := partial_alter (fun _ => None) p f1). set (f3 := partial_alter (fun _ => Some v2) p f2).
  set (g := default 0 ((∅ : gmap str N) !! p) + 1). set (gs := <[p := g]> (∅ : gmap str N)).
  set (i := mkItem p Watcher WatcherRemove g (None, None)).
  set (l1 := fun p' : Priority => if decide (p' = Watcher) then [i] else []).
  set (l2 := fun p' : Priority => if decide (p' = Watcher) then [] else l1 p').
  set (fs := (handle_removed_file data_home p tree ix f3).2).
  assert (forall e es w w' r, exec_watch e w = Some w' -> run_watch es w' = r -> run_watch (e :: es) w = r)
    as step by (intros e es w w' r H <-; cbn [run_watch]; by rewrite H).
  exists (mkWatch (mkIntake ∅ ∅ [] [] l2 [] fs [(Processed, i)]) ∅ []).
  split; [unfold rewritten|split_and!; [by split|done|apply Hgone]].
  eapply step; [reflexivity|]. eapply step; [reflexivity|].
  eapply step; [unfold exec_watch; rewrite Hv; reflexivity|].
  eapply step; [reflexivity|]. eapply step; [reflexivity|]. eapply step; [reflexivity|].
  eapply (step _ _ _ (mkWatch (mkIntake gs ∅ [] [] l1 [] f3 []) {[p := t]} [(p, t)])).
  { unfold exec_watch. rewrite Hv. cbn [intake disk set_disk].
    replace (is_some _) with true by by rewrite lookup_partial_alter_eq. reflexivity. }
  eapply (step _ _ _ (mkWatch (mkIntake gs ∅ [] [] l2 [(Taken, i)] f3 []) {[p := t]} [(p, t)])).
  { unfold exec_watch. cbn [exec_inside exec intake lanes l1 decide_rel]. 
    change (l1 Watcher) with [i]. cbn [running length]. by rewrite (proj2 (Nat.ltb_lt _ _) Hw). }
  eapply (step _ _ _ (mkWatch (mkIntake gs ∅ [] [] l2 [(Working, i)] f3 []) {[p := t]} [(p, t)])).
  { unfold exec_watch. cbn [exec_inside intake running]. cbn -[bool_decide lookup]. 
    unfold work. cbn [running]. cbn -[is_superseded]. unfold is_superseded, current_generation. cbn [generations i_path i_generation i].
    rewrite bool_decide_eq_true_2 by apply lookup_insert_eq. done. }
  eapply (step _ _ _ (mkWatch (mkIntake ∅ ∅ [] [] l2 [] fs [(Processed, i)]) {[p := t]} [(p, t)])).
  { unfold exec_watch. cbn [exec_inside intake running lookup list_lookup].
    rewrite bool_decide_eq_true_2 by done. unfold work, finish, release, release_generation.
    cbn [detach set_disk running lookup list_lookup mbind option_bind coalesced i_kind i generations
      set_running i_path i_generation].
    rewrite bool_decide_eq_true_2 by apply lookup_insert_eq. subst gs. 
    unfold set_generations, record_outcome, complete. cbn [generations i_kind i]. rewrite delete_insert_eq by done.
    rewrite delete_empty. reflexivity. }
  eapply step; [|reflexivity]. unfold exec_watch. cbn [timers lookup list_lookup mbind option_bind].
  rewrite N.leb_refl. unfold awake. cbn [pool intake disk timers].
  rewrite bool_decide_eq_true_2 by apply lookup_singleton_eq. rewrite delete_singleton_eq.
  replace (is_some _) with false by (unfold fs; by rewrite Hgone). by rewrite andb_false_r.
Qed.
End Watching.

(** ** Witnesses: one indexed photo *)
Module WatchWitness.
#[export] Instance nothing : Infer := {| infer_get _ := Ok None |}.
#[export] Instance unlink : Unlink := {| can_unlink _ := true |}.
Definition row : DatabaseTimestamp := mkTimestamped (IndexWitness.a_photo "h1") 0 (lit "id1").
Definition tree : list DatabaseTimestamp := [row].
Definition ix : Index := index IndexWitness.one.
Definition home : Path := components (lit "/data").
Definition cfg : Config := PathWitness.cfg.
Definition img : str := lit "/img/a.jpg".
Definition v (n : N) : Identity := (Some n, Some n).
Definition present : Files := {[ img := v 1 ]}.
End WatchWitness.
Import (hints) WatchWitness.

Lemma removal_spec_witness : exists fs',
  (handle_removed_file WatchWitness.home WatchWitness.img WatchWitness.tree WatchWitness.ix WatchWitness.present).2
  = fs' /\ fs' !! WatchWitness.img = None.
Proof.
  destruct (removal_spec WatchWitness.home WatchWitness.tree WatchWitness.ix WatchWitness.img
    WatchWitness.present (IndexWitness.a_photo "h1") eq_refl) as (d' & fs' & -> & _ & _ & H & _).
  exists fs'. split; [reflexivity|exact (H eq_refl)].
Defined.

Lemma sweep_spec_witness : exists albums removed fs',
  sweep_stale_asset_paths WatchWitness.home WatchWitness.cfg (components (lit "/img")) WatchWitness.tree
    WatchWitness.ix ∅ = (albums, removed, fs') /\ clear_path (IndexWitness.a_photo "h1") ∈ removed.
Proof.
  destruct (sweep_spec WatchWitness.home WatchWitness.cfg WatchWitness.tree WatchWitness.ix
    (components (lit "/img")) ∅) as (albums & removed & fs' & H & Hr & _).
  - intros d d' e Hd Hd' He. cbn in Hd, Hd'.
    apply list_elem_of_singleton in Hd as ->. apply list_elem_of_singleton in Hd' as ->.
    injection He as <-. vm_compute. discriminate.
  - exists albums, removed, fs'. split; [exact H|]. apply Hr. exists WatchWitness.row. eexists.
    split; [by left|]. split; [reflexivity|]. by vm_compute.
Defined.

Lemma debounce_keeps_last_witness : exists n w' w,
  run_watch 1 WatchWitness.home WatchWitness.cfg true WatchWitness.tree WatchWitness.ix
    [Inside (ETouch WatchWitness.img (Some (WatchWitness.v 1))); Created WatchWitness.img 7]
    (mkWatch initial ∅ []) = Some w /\
  exec_watch 1 WatchWitness.home WatchWitness.cfg true WatchWitness.tree WatchWitness.ix (Fire n 2000) w = Some w' /\
  pool w' !! WatchWitness.img = None.
Proof.
  destruct (run_watch 1 WatchWitness.home WatchWitness.cfg true WatchWitness.tree WatchWitness.ix
    [Inside (ETouch WatchWitness.img (Some (WatchWitness.v 1))); Created WatchWitness.img 7]
    (mkWatch initial ∅ [])) as [w|] eqn:Hr; [|vm_compute in Hr; discriminate].
  destruct (debounce_keeps_last 1 WatchWitness.home WatchWitness.cfg true WatchWitness.tree WatchWitness.ix
    w WatchWitness.img 7) as (n & _ & H).
  - eexists. exact Hr.
  - vm_compute in Hr. injection Hr as <-. vm_compute. reflexivity.
  - destruct (H 2000 ltac:(lia)) as (w' & H1 & H2 & _). exists n, w', w. split; [reflexivity|].
    split; [exact H1|exact H2].
Defined.

Lemma rewritten_file_is_deleted_witness : exists w,
  run_watch 1 WatchWitness.home WatchWitness.cfg true WatchWitness.tree WatchWitness.ix
    (rewritten WatchWitness.img (WatchWitness.v 1) (WatchWitness.v 2) 7) (mkWatch initial ∅ []) = Some w /\
  disk (intake w) !! WatchWitness.img = None.
Proof.
  destruct (rewritten_file_is_deleted 1 WatchWitness.home WatchWitness.cfg true WatchWitness.tree WatchWitness.ix
    WatchWitness.img (WatchWitness.v 1) (WatchWitness.v 2) 7 (IndexWitness.a_photo "h1") ltac:(lia))
    as (w & H1 & _ & _ & H2).
  - vm_compute. reflexivity.
  - reflexivity.
  - reflexivity.
  - exists w. split; [exact H1|exact H2].
Defined.
