(* ===== verification/IndexJob.v ===== *)
(** * IndexJob: the album index job ([backend/src/tasks/actor/album_index.rs])

    Where a scan starts, and the life of a job: the status slot, the active job
    with its cancel flag and the tasks, as a transition system whose events are the
    sections between the locks.  The walk itself is a sequence of counted files;
    dropping the tables ([clear]) may fail.  The sweep is in [Watcher], the intake
    in [Intake]. *)

From S2P Require Import Prelude Errors Paths DirAlbumStore.

(** ** Where a scan starts *)
Section Roots.
(** [Path::is_dir] and [fs::canonicalize]. *)
Context {F : Fs}.
Variable is_dir : Path -> bool.

Definition no_such_dir {A} (p : str) : app_result A :=
  fail InvalidInput (lit "Path does not exist or is not a directory: " ++ p).
Fixpoint all_dirs (roots : list Path) : app_result unit :=
  match roots with
  | [] => Ok tt
  | r :: roots => if is_dir r then all_dirs roots else no_such_dir (path_text r)
  end.
Fixpoint trim_start_slashes (s : str) : str :=
  match s with c :: s' => if c =? 47 then trim_start_slashes s' else s | [] => [] end.

Definition resolve_scan_roots (users_root : option Path) (src : str) (image_root : Path) (root : option str)
  : app_result (list Path) :=
  let trimmed := trim src in
  let mode := default (lit "auto") root in
  let global_only := str_eqb mode (lit "global") in
  let personal_only := str_eqb mode (lit "personal") in
  if str_eqb trimmed (lit "/") || is_empty trimmed then
    let roots := (if negb personal_only then [image_root] else []) ++
                 (if negb global_only then option_list users_root else []) in
    if is_empty roots then fail InvalidInput (lit "Personal areas are disabled (users_home unset)")
    else _ ← all_dirs roots; Ok roots
  else
    let rel := trim_start_slashes trimmed in
    let candidate base := push base (components rel) in
    let probe base := if is_dir (candidate base) then Some [candidate base] else None in
    if personal_only then
      match users_root ≫= probe with Some roots => Ok roots | None => no_such_dir rel end
    else
      match probe image_root with
      | Some roots => Ok roots
      | None =>
          if global_only then no_such_dir (path_text (candidate image_root))
          else match users_root ≫= probe with
               | Some roots => Ok roots
               | None => no_such_dir (path_text (candidate image_root))
               end
      end.

Definition internal_subtree_roots (data_root : Path) : list Path :=
  (fun name => let p := push data_root [Normal (lit name)] in default p (canonicalize p))
    <$> ["object"; "db"]%string.
Definition is_inside_internal_subtree (p : Path) (internal_roots : list Path) : bool :=
  existsb (fun internal => bool_decide (p = internal) || path_starts_with p internal) internal_roots.

(** The checks of [index_album_with_root] up to the job. *)
Definition validated_roots (image_root users_root : option Path) (data_root : Path) (src : str)
    (root : option str) : app_result (list Path) :=
  _ ← match root with
      | None => Ok tt
      | Some r => if existsb (str_eqb r) (lit <$> ["global"; "personal"; "auto"]%string) then Ok tt
                  else fail InvalidInput (lit "Unknown scan root selector: " ++ r)
      end;
  image_root ← option_or_raise InvalidInput (lit "No imagePath configured to scan") image_root;
  scan_roots ← resolve_scan_roots users_root src image_root root;
  if existsb (fun r => is_inside_internal_subtree r (internal_subtree_roots data_root)) scan_roots
  then fail InvalidInput (lit "Cannot index Picasu internal data directories")
  else Ok scan_roots.
End Roots.

(** ** The job *)
Inductive AlbumIndexState := Idle | Running | Completed | Canceled | IndexFailed.
#[export] Instance AlbumIndexState_eq_dec : EqDecision AlbumIndexState.
Proof. solve_decision. Defined.
Record AlbumIndexStatus := mkStatus {
  st_state : AlbumIndexState; st_root : option str; scanned : N; matched : N; processed : N;
  failed : N; failed_paths : list str; started_at : option Z; finished_at : option Z;
  cancel_requested : bool
}.
Definition default_status : AlbumIndexStatus := mkStatus Idle None 0 0 0 0 [] None None false.

(** How far a job's task has come: its slot taken; registered as active; walking;
    its final state decided; that state written, the registration still there. *)
Inductive Phase :=
| Accepted (clear : bool) | Registered (clear : bool) | Walking | Decided (final : AlbumIndexState) | Settled.

Record Jobs := mkJobs {
  next_job_id : N;                    (* NEXT_JOB_ID *)
  slot_job : N; slot_status : AlbumIndexStatus;    (* INDEX_STATUS *)
  active : option N;                  (* ACTIVE_INDEX *)
  cancel_flags : gset N;              (* the cancel flags that are set *)
  phases : gmap N Phase
}.
Definition no_jobs : Jobs := mkJobs 1 0 default_status None ∅ ∅.

Definition set_status job st s := mkJobs (next_job_id s) job st (active s) (cancel_flags s) (phases s).
Definition set_phases ph s := mkJobs (next_job_id s) (slot_job s) (slot_status s) (active s) (cancel_flags s) ph.
Definition set_active a s := mkJobs (next_job_id s) (slot_job s) (slot_status s) a (cancel_flags s) (phases s).
Definition set_flag job s :=
  mkJobs (next_job_id s) (slot_job s) (slot_status s) (active s) ({[job]} ∪ cancel_flags s) (phases s).

(** [update_status]: only the job of the slot writes to it. *)
Definition update_status (job : N) (f : AlbumIndexStatus -> AlbumIndexStatus) (s : Jobs) : Jobs :=
  if slot_job s =? job then set_status job (f (slot_status s)) s else s.
Definition increment_scanned (st : AlbumIndexStatus) :=
  mkStatus (st_state st) (st_root st) (scanned st + 1) (matched st) (processed st) (failed st)
    (failed_paths st) (started_at st) (finished_at st) (cancel_requested st).
Definition increment_matched (st : AlbumIndexStatus) :=
  mkStatus (st_state st) (st_root st) (scanned st) (matched st + 1) (processed st) (failed st)
    (failed_paths st) (started_at st) (finished_at st) (cancel_requested st).
Definition note_file_processed (st : AlbumIndexStatus) :=
  mkStatus (st_state st) (st_root st) (scanned st) (matched st) (processed st + 1) (failed st)
    (failed_paths st) (started_at st) (finished_at st) (cancel_requested st).
Definition note_file_failed (p : option str) (st : AlbumIndexStatus) :=
  mkStatus (st_state st) (st_root st) (scanned st) (matched st) (processed st) (failed st + 1)
    (match p with
     | Some p => if (length (failed_paths st) <? 1000)%nat then failed_paths st ++ [p] else failed_paths st
     | None => failed_paths st
     end) (started_at st) (finished_at st) (cancel_requested st).
Definition request_cancel (st : AlbumIndexStatus) :=
  mkStatus (st_state st) (st_root st) (scanned st) (matched st) (processed st) (failed st)
    (failed_paths st) (started_at st) (finished_at st) true.
Definition settle (final : AlbumIndexState) (now : Z) (st : AlbumIndexStatus) :=
  mkStatus final (st_root st) (scanned st) (matched st) (processed st) (failed st)
    (failed_paths st) (started_at st) (Some now) (cancel_requested st).

Definition did_every_matched_file_fail (job : N) (s : Jobs) : bool :=
  let st := slot_status s in
  (slot_job s =? job) && (0 <? matched st) && (processed st =? 0) && (matched st <=? failed st).
Definition final_state (job : N) (s : Jobs) : AlbumIndexState :=
  if bool_decide (job ∈ cancel_flags s) then Canceled
  else if did_every_matched_file_fail job s then IndexFailed else Completed.

(** The slot: [Err] is the 409. *)
Definition accept (src : str) (clear : bool) (now : Z) (s : Jobs) : app_result unit * Jobs :=
  let job := next_job_id s in
  let s := mkJobs (job + 1) (slot_job s) (slot_status s) (active s) (cancel_flags s) (phases s) in
  if bool_decide (st_state (slot_status s) = Running)
  then (fail Conflict (lit "An index job is already running"), s)
  else (Ok tt, set_phases (<[job := Accepted clear]> (phases s))
                 (set_status job (mkStatus Running (Some src) 0 0 0 0 [] (Some now) None false) s)).
Definition cancel_album_index (s : Jobs) : app_result unit * Jobs :=
  match active s with
  | None => (fail NotFound (lit "No active index job"), s)
  | Some job =>
      let s := set_flag job s in
      (Ok tt, if (slot_job s =? job) && bool_decide (st_state (slot_status s) = Running)
              then set_status job (request_cancel (slot_status s)) s else s)
  end.

Inductive Note := Scanned | Matched | FileProcessed | FileFailed (p : option str).
Definition note (n : Note) : AlbumIndexStatus -> AlbumIndexStatus :=
  match n with
  | Scanned => increment_scanned | Matched => increment_matched | FileProcessed => note_file_processed
  | FileFailed p => note_file_failed p
  end.

Inductive JobEvent :=
| Accept (src : str) (clear : bool) (now : Z)
| Register (job : N)                 (* ACTIVE_INDEX is set *)
| Launch (job : N) (cleared : bool)  (* [clear], if asked for, succeeds or not; the task starts *)
| Count (job : N) (n : Note)
| Decide (job : N)                   (* the cancel flag and the counters are read *)
| Settle (job : N) (now : Z)         (* [finish_job]: the slot *)
| Unregister (job : N)               (* [finish_job]: ACTIVE_INDEX *)
| Cancel.

Definition exec_job (e : JobEvent) (s : Jobs) : option Jobs :=
  match e with
  | Accept src clear now => Some (accept src clear now s).2
  | Register job =>
      match phases s !! job with
      | Some (Accepted clear) =>
          Some (set_active (Some job) (set_phases (<[job := Registered clear]> (phases s)) s))
      | _ => None
      end
  | Launch job cleared =>
      match phases s !! job with
      | Some (Registered clear) =>
          Some (if clear && negb cleared then set_phases (delete job (phases s)) s
                else set_phases (<[job := Walking]> (phases s)) s)
      | _ => None
      end
  | Count job n => Some (update_status job (note n) s)
  | Decide job =>
      match phases s !! job with
      | Some Walking => Some (set_phases (<[job := Decided (final_state job s)]> (phases s)) s)
      | _ => None
      end
  | Settle job now =>
      match phases s !! job with
      | Some (Decided final) =>
          Some (set_phases (<[job := Settled]> (phases s)) (update_status job (settle final now) s))
      | _ => None
      end
  | Unregister job =>
      match phases s !! job with
      | Some Settled =>
          Some (set_phases (delete job (phases s))
                  (if bool_decide (active s = Some job) then set_active None s else s))
      | _ => None
      end
  | Cancel => Some (cancel_album_index s).2
  end.
Fixpoint run_jobs (es : list JobEvent) (s : Jobs) : option Jobs :=
  match es with [] => Some s | e :: es => s' ← exec_job e s; run_jobs es s' end.
Definition reachable_jobs (s : Jobs) : Prop := exists es, run_jobs es no_jobs = Some s.

(** ** The scan roots *)
Section RootFacts.
Context {F : Fs}.
Variable is_dir : Path -> bool.

Lemma all_dirs_ok roots : all_dirs is_dir roots = Ok tt <-> Forall (fun r => is_dir r = true) roots.
Proof.
  induction roots as [|r roots IH]; cbn [all_dirs]; [by split|]. rewrite Forall_cons, <-IH.
  destruct (is_dir r); [by split; [|intros []]|split; [done|by intros []]].
Qed.

Lemma probe_spec users_root (base : Path) (f : Path -> Path) roots :
  users_root = Some base \/ users_root = None ->
  users_root ≫= (fun b => if is_dir (f b) then Some [f b] else None) = Some roots ->
  users_root = Some base /\ roots = [f base] /\ is_dir (f base) = true.
Proof. intros [->| ->]; cbn; [|done]. destruct (is_dir (f base)) eqn:?; [by intros [= <-]|done]. Qed.

(** Whatever is asked, each root of a scan is an existing directory which is one of
    the configured roots or their join with the requested path, and a selector
    keeps to its own root. *)
Theorem scan_roots_spec users_root src image_root root roots :
  resolve_scan_roots is_dir users_root src image_root root = Ok roots ->
  roots <> [] /\ forall r, r ∈ roots -> is_dir r = true /\
    exists base, (base = image_root \/ users_root = Some base) /\
      (r = base \/ r = push base (components (trim_start_slashes (trim src)))) /\
      (root = Some (lit "global") -> base = image_root) /\
      (root = Some (lit "personal") -> users_root = Some base).
Proof.
  unfold resolve_scan_roots. set (rel := trim_start_slashes (trim src)).
  set (g := str_eqb _ (lit "global")). set (p := str_eqb _ (lit "personal")).
  assert (root = Some (lit "global") -> g = true /\ p = false) as Hg by (subst g p; by intros ->).
  assert (root = Some (lit "personal") -> p = true) as Hp by (subst p; by intros ->).
  clearbody g p. destruct (_ || _).
  - set (rs := _ ++ _). destruct (is_empty rs) eqn:He; [done|]. intros ([] & Hd & [= <-])%bind_Ok.
    apply all_dirs_ok in Hd. split; [by destruct rs|]. intros r Hr.
    split; [by eapply Forall_forall in Hd|]. exists r.
    subst rs. apply elem_of_app in Hr as [Hr|Hr].
    + destruct p; [by apply elem_of_nil in Hr|]. apply list_elem_of_singleton in Hr as ->.
      split_and!; [by left|by left|done|]. by intros ?%Hp.
    + destruct g; [by apply elem_of_nil in Hr|]. destruct users_root as [u|]; [|by apply elem_of_nil in Hr].
      apply list_elem_of_singleton in Hr as ->. split_and!; [by right|by left|by intros [? _]%Hg|done].
  - set (f base := push base (components rel)).
    assert (Hone : forall base roots', is_dir (f base) = true -> roots' = [f base] ->
      (base = image_root \/ users_root = Some base) ->
      (root = Some (lit "global") -> base = image_root) ->
      (root = Some (lit "personal") -> users_root = Some base) ->
      roots' <> [] /\ forall r, r ∈ roots' -> is_dir r = true /\
        exists base, (base = image_root \/ users_root = Some base) /\ (r = base \/ r = f base) /\
          (root = Some (lit "global") -> base = image_root) /\
          (root = Some (lit "personal") -> users_root = Some base)).
    { intros base ? Hd -> H1 H2 H3. split; [done|]. intros r ->%list_elem_of_singleton.
      split; [done|]. exists base. split_and!; [done|by right|done|done]. }
    assert (Husers : forall roots', users_root ≫= (fun b => if is_dir (f b) then Some [f b] else None) = Some roots' ->
      exists base, users_root = Some base /\ roots' = [f base] /\ is_dir (f base) = true).
    { intros roots' H. destruct users_root as [u|] eqn:Hu; [|done]. exists u.
      apply (probe_spec (Some u) u f); [by left|done]. }
    destruct p.
    + destruct (users_root ≫= _) as [rs|] eqn:Hr; [|done]. intros [= <-].
      destruct (Husers rs eq_refl) as (base & Hb & Hrs & Hd).
      apply (Hone base); [done|done|by right| |done]. by intros [_ ?]%Hg.
    + change (push image_root (components rel)) with (f image_root).
      destruct (is_dir (f image_root)) eqn:Hd.
      * intros [= <-]. apply (Hone image_root); [done|done|by left|done|]. by intros ?%Hp.
      * destruct g; [done|]. destruct (users_root ≫= _) as [rs|] eqn:Hr; [|done]. intros [= <-].
        destruct (Husers rs eq_refl) as (base & Hb & Hrs & Hd').
        apply (Hone base); [done|done|by right| |done]. by intros [? _]%Hg.
Qed.
End RootFacts.

(** The check against the data directories compares spellings: with the photos
    beside the data, [../data/object] names the object store and is accepted. *)
Example internal_dirs_can_be_scanned :
  let F := {| canonicalize p := Some p; exists_ _ := true |} in
  let dir s := components (lit s) in
  validated_roots (fun _ => true) (Some (dir "/srv/photos")) None (dir "/srv/data") (lit "../data/object") None
  = Ok [dir "/srv/photos/../data/object"] /\
  internal_subtree_roots (dir "/srv/data") = [dir "/srv/data/object"; dir "/srv/data/db"].
Proof. by vm_compute. Qed.

(** ** One job at a time *)
Definition live (p : Phase) : Prop := p <> Settled.
Record jobs_inv (s : Jobs) : Prop := {
  inv_ids : forall j p, phases s !! j = Some p -> j < next_job_id s;
  inv_slot : slot_job s < next_job_id s;
  inv_flags : forall j, active s = Some j -> j < next_job_id s;
  inv_live : forall j p, phases s !! j = Some p -> live p ->
    slot_job s = j /\ st_state (slot_status s) = Running;
  inv_failed : (length (failed_paths (slot_status s)) <= 1000)%nat
}.

Lemma update_status_phases job f s : phases (update_status job f s) = phases s.
Proof. unfold update_status. by destruct (_ =? _). Qed.
Lemma update_status_ids job f s :
  next_job_id (update_status job f s) = next_job_id s /\ slot_job (update_status job f s) = slot_job s /\
  active (update_status job f s) = active s /\ cancel_flags (update_status job f s) = cancel_flags s.
Proof. unfold update_status. destruct (slot_job s =? job) eqn:H; [|done]. by apply N.eqb_eq in H as <-. Qed.
Lemma update_status_hit job f s : slot_job s = job -> slot_status (update_status job f s) = f (slot_status s).
Proof. unfold update_status. intros ->. by rewrite N.eqb_refl. Qed.
Lemma note_state n st : st_state (note n st) = st_state st.
Proof. by destruct n. Qed.
Lemma note_failed_paths n st :
  (length (failed_paths st) <= 1000)%nat -> (length (failed_paths (note n st)) <= 1000)%nat.
Proof.
  intros H. destruct n as [| | |[p|]]; cbn [note note_file_failed failed_paths]; try done.
  destruct (Nat.ltb_spec (length (failed_paths st)) 1000); [|done].
  rewrite length_app. cbn [length]. lia.
Qed.

Lemma no_jobs_inv : jobs_inv no_jobs.
Proof. split; cbn; try done; lia. Qed.
Lemma exec_job_inv e s s' : jobs_inv s -> exec_job e s = Some s' -> jobs_inv s'.
Proof.
  intros [Hid Hslot Hact Hlive Hfail] He.
  destruct e as [src clear now|job|job cleared|job n|job|job now|job|]; cbn [exec_job] in He.
  - injection He as <-. unfold accept. cbn [slot_status].
    destruct (bool_decide _) eqn:Hrun; cbn; [|apply bool_decide_eq_false in Hrun].
    + split; cbn; try done; [|lia|].
      * intros j p Hj. specialize (Hid j p Hj). lia.
      * intros j Hj. specialize (Hact j Hj). lia.
    + split; cbn; [| |intros j Hj; specialize (Hact j Hj); lia| |lia].
      * intros j p [[<- _]|[_ Hj]]%lookup_insert_Some; [lia|]. specialize (Hid j p Hj). lia.
      * lia.
      * intros j p [[<- _]|[_ Hj]]%lookup_insert_Some Hp; [done|].
        by destruct (Hlive j p Hj Hp).
  - destruct (phases s !! job) as [[clear|clear| |final|]|] eqn:Hj; try done. injection He as <-.
    split; cbn; [|done| | |done].
    + intros k p [[<- _]|[_ Hk]]%lookup_insert_Some; eauto.
    + intros k [= <-]. eauto.
    + intros k p [[<- _]|[_ Hk]]%lookup_insert_Some Hp; eauto. by eapply Hlive.
  - destruct (phases s !! job) as [[clear|clear| |final|]|] eqn:Hj; try done. injection He as <-.
    destruct (clear && negb cleared); split; cbn; try done.
    + intros k p [_ Hk]%lookup_delete_Some; eauto.
    + intros k p [_ Hk]%lookup_delete_Some; eauto.
    + intros k p [[<- _]|[_ Hk]]%lookup_insert_Some; eauto.
    + intros k p [[<- _]|[_ Hk]]%lookup_insert_Some Hp; eauto. by eapply Hlive.
  - injection He as <-. destruct (update_status_ids job (note n) s) as (H1 & H2 & H3 & H4).
    split; rewrite ?update_status_phases, ?H1, ?H2, ?H3; try done.
    + intros j p Hj Hp. destruct (Hlive j p Hj Hp) as [Hs Hr]. split; [done|].
      unfold update_status. destruct (_ =? _); cbn; [by rewrite note_state|done].
    + unfold update_status. destruct (_ =? _); cbn; [by apply note_failed_paths|done].
  - destruct (phases s !! job) as [[clear|clear| |final|]|] eqn:Hj; try done. injection He as <-.
    split; cbn; [|done|done| |done].
    + intros k p [[<- _]|[_ Hk]]%lookup_insert_Some; eauto.
    + intros k p [[<- _]|[_ Hk]]%lookup_insert_Some Hp; eauto. by eapply Hlive.
  - destruct (phases s !! job) as [[clear|clear| |final|]|] eqn:Hj; try done. injection He as <-.
    destruct (Hlive job _ Hj) as [Hs Hr]; [done|].
    set (f := settle _ _). destruct (update_status_ids job f s) as (H1 & H2 & H3 & H4).
    split; cbn; rewrite ?H1, ?H2, ?H3; try done.
    + intros k p [[<- _]|[_ Hk]]%lookup_insert_Some; eauto.
    + intros k p [[<- <-]|[Hne Hk]]%lookup_insert_Some Hp; [done|].
      destruct (Hlive k p Hk Hp). congruence.
    + by rewrite update_status_hit.
  - destruct (phases s !! job) as [[clear|clear| |final|]|] eqn:Hj; try done. injection He as <-.
    destruct (bool_decide _); split; cbn; try done.
    all: intros k p [_ Hk]%lookup_delete_Some; eauto.
  - injection He as <-. unfold cancel_album_index. destruct (active s) as [job|] eqn:Ha; cbn; [|by split; rewrite ?Ha].
    destruct ((slot_job s =? job) && _) eqn:Hc; split; cbn; try done.
    + eauto.
    + by rewrite Ha.
    + apply andb_true_iff in Hc as [Hc%N.eqb_eq _]. rewrite <-Hc. done.
    + by rewrite Ha.
Qed.
Lemma run_jobs_inv es s s' : jobs_inv s -> run_jobs es s = Some s' -> jobs_inv s'.
Proof.
  revert s. induction es as [|e es IH]; cbn [run_jobs]; intros s Hs; [by intros [= <-]|].
  destruct (exec_job e s) as [s1|] eqn:He; [|done]. cbn. eauto using exec_job_inv.
Qed.
Lemma reachable_inv s : reachable_jobs s -> jobs_inv s.
Proof. intros [es Hes]. eauto using run_jobs_inv, no_jobs_inv. Qed.
Lemma run_jobs_app es es' s : run_jobs (es ++ es') s = (s1 ← run_jobs es s; run_jobs es' s1).
Proof. revert s. induction es as [|e es IH]; intros s; [done|]. cbn. destruct (exec_job e s); [apply IH|done]. Qed.

(** At most one index job is between its acceptance and its final state; while
    there is one the status is its own and says Running, and every further request
    is answered by a conflict which leaves the status as it is. *)
Theorem one_job_at_a_time s j p k q :
  reachable_jobs s -> phases s !! j = Some p -> live p ->
  slot_job s = j /\ st_state (slot_status s) = Running /\
  (phases s !! k = Some q -> live q -> k = j) /\
  forall src clear now, exists s',
    accept src clear now s = (fail Conflict (lit "An index job is already running"), s') /\
    slot_job s' = j /\ slot_status s' = slot_status s /\ phases s' = phases s.
Proof.
  intros Hinv%reachable_inv Hj Hp. destruct (inv_live s Hinv j p Hj Hp) as [Hs Hr].
  split_and!; [done|done| |].
  - intros Hk Hq. destruct (inv_live s Hinv k q Hk Hq). congruence.
  - intros src clear now. unfold accept. cbn [slot_status]. rewrite bool_decide_true by done.
    eexists. split; [done|]. by cbn.
Qed.

(** ** Clearing that fails *)
Definition stuck (s : Jobs) : Prop :=
  st_state (slot_status s) = Running /\ forall j p, phases s !! j = Some p -> p = Settled.
Lemma stuck_step e s s' : stuck s -> exec_job e s = Some s' -> stuck s'.
Proof.
  intros [Hr Hp] He. destruct e as [src clear now|job|job cleared|job n|job|job now|job|]; cbn [exec_job] in He.
  - injection He as <-. unfold accept. cbn [slot_status]. by rewrite bool_decide_true.
  - destruct (phases s !! job) as [p|] eqn:Hj; [|done]. by rewrite (Hp job p Hj) in He.
  - destruct (phases s !! job) as [p|] eqn:Hj; [|done]. by rewrite (Hp job p Hj) in He.
  - injection He as <-. split; [|by rewrite update_status_phases].
    unfold update_status. destruct (_ =? _); cbn; [by rewrite note_state|done].
  - destruct (phases s !! job) as [p|] eqn:Hj; [|done]. by rewrite (Hp job p Hj) in He.
  - destruct (phases s !! job) as [p|] eqn:Hj; [|done]. by rewrite (Hp job p Hj) in He.
  - destruct (phases s !! job) as [p|] eqn:Hj; [|done]. rewrite (Hp job p Hj) in He. injection He as <-.
    split; cbn; [by destruct (bool_decide _)|]. intros k q [_ Hk]%lookup_delete_Some. eauto.
  - injection He as <-. unfold cancel_album_index. destruct (active s); [|done]. cbn.
    by destruct (_ && _).
Qed.
Lemma stuck_run es s s' : stuck s -> run_jobs es s = Some s' -> stuck s'.
Proof.
  revert s. induction es as [|e es IH]; cbn [run_jobs]; intros s Hs; [by intros [= <-]|].
  destruct (exec_job e s) as [s1|] eqn:He; [|done]. cbn. eauto using stuck_step.
Qed.

(** When the tables of a clearing job cannot be dropped, the request is answered
    by the error but the slot keeps saying Running with no task behind it: whatever
    happens later, cancels included, every index request is a conflict. *)
Theorem failed_clear_blocks_indexing s j s1 es s2 :
  reachable_jobs s -> phases s !! j = Some (Registered true) ->
  exec_job (Launch j false) s = Some s1 -> run_jobs es s1 = Some s2 ->
  st_state (slot_status s2) = Running /\
  forall src clear now, (accept src clear now s2).1 = fail Conflict (lit "An index job is already running").
Proof.
  intros Hinv%reachable_inv Hj He Hrun. cbn [exec_job] in He. rewrite Hj in He. injection He as <-.
  destruct (inv_live s Hinv j _ Hj) as [Hs Hr]; [done|].
  assert (stuck s2) as [Hr2 _].
  { eapply stuck_run; [|exact Hrun]. split; [done|]. cbn. intros k p [Hne Hk]%lookup_delete_Some.
    destruct p; try done; destruct (inv_live s Hinv k _ Hk); congruence. }
  split; [done|]. intros src clear now. unfold accept. cbn [slot_status]. by rewrite bool_decide_true.
Qed.

(** ** Cancelling *)
Lemma flag_stays e s s' j : exec_job e s = Some s' -> j ∈ cancel_flags s -> j ∈ cancel_flags s'.
Proof.
  intros He Hj. destruct e as [src clear now|job|job cleared|job n|job|job now|job|]; cbn [exec_job] in He.
  - injection He as <-. unfold accept. cbn [slot_status]. by destruct (bool_decide _).
  - destruct (phases s !! job) as [[]|]; try done. by injection He as <-.
  - destruct (phases s !! job) as [[]|]; try done. injection He as <-. by destruct (_ && _).
  - injection He as <-. by destruct (update_status_ids job (note n) s) as (_ & _ & _ & ->).
  - destruct (phases s !! job) as [[]|]; try done. by injection He as <-.
  - destruct (phases s !! job) as [[]|]; try done. injection He as <-. cbn.
    by destruct (update_status_ids job (settle final now) s) as (_ & _ & _ & ->).
  - destruct (phases s !! job) as [[]|]; try done. injection He as <-. by destruct (bool_decide _).
  - injection He as <-. unfold cancel_album_index. destruct (active s) as [k|]; [|done]. cbn.
    destruct (_ && _); cbn; set_solver.
Qed.
Lemma flags_stay es s s' j : run_jobs es s = Some s' -> j ∈ cancel_flags s -> j ∈ cancel_flags s'.
Proof.
  revert s. induction es as [|e es IH]; cbn [run_jobs]; intros s; [by intros [= <-]|].
  destruct (exec_job e s) as [s1|] eqn:He; [|done]. cbn. eauto using flag_stays.
Qed.

(** Once its state is decided, a job keeps that state until it is settled. *)
Lemma decided_step e s s' j f : exec_job e s = Some s' -> phases s !! j = Some (Decided f) ->
  j < next_job_id s -> phases s' !! j = Some (Decided f) \/ exists now, e = Settle j now.
Proof.
  intros He Hj Hid. destruct e as [src clear now|job|job cleared|job n|job|job now|job|]; cbn [exec_job] in He.
  all: try (destruct (decide (job = j)) as [->|Hne]; [rewrite Hj in He; try done; by eauto|];
            destruct (phases s !! job) as [[]|]; try done).
  - injection He as <-. left. unfold accept. destruct (bool_decide _); [done|]. cbn.
    rewrite lookup_insert_ne by lia. done.
  - injection He as <-. left. cbn. by rewrite lookup_insert_ne.
  - injection He as <-. left. destruct (_ && _); cbn; [by rewrite lookup_delete_ne|by rewrite lookup_insert_ne].
  - injection He as <-. left. by rewrite update_status_phases.
  - injection He as <-. left. cbn. by rewrite lookup_insert_ne.
  - injection He as <-. left. cbn. by rewrite lookup_insert_ne.
  - injection He as <-. left. cbn. by rewrite lookup_delete_ne.
  - injection He as <-. left. unfold cancel_album_index. destruct (active s); [|done]. cbn. by destruct (_ && _).
Qed.

Lemma decided_run es s s' j f : jobs_inv s -> Forall (fun e => forall now, e <> Settle j now) es ->
  run_jobs es s = Some s' -> phases s !! j = Some (Decided f) -> phases s' !! j = Some (Decided f).
Proof.
  revert s. induction es as [|e es IH]; cbn [run_jobs]; intros s Hinv Hall; [by intros [= <-]|].
  apply Forall_cons in Hall as [Hne Hall]. destruct (exec_job e s) as [s1|] eqn:He; [|done]. cbn. intros Hr Hf.
  destruct (decided_step e s s1 j f He Hf) as [Hf1|[now ->]]; [by eapply inv_ids| |by destruct (Hne now)].
  exact (IH s1 (exec_job_inv _ _ _ Hinv He) Hall Hr Hf1).
Qed.

(** A cancel answered while a job is active and undecided is kept: whatever happens
    until the decision and from there until the job is settled, it ends Canceled, and
    settling it writes nothing but the state and the time. *)
Theorem cancel_is_kept s j es s1 es' s2 now s3 :
  reachable_jobs s -> active s = Some j ->
  run_jobs (es ++ [Decide j]) (cancel_album_index s).2 = Some s1 ->
  Forall (fun e => forall now, e <> Settle j now) es' -> run_jobs es' s1 = Some s2 ->
  exec_job (Settle j now) s2 = Some s3 ->
  (cancel_album_index s).1 = Ok tt /\ slot_job s3 = j /\
  slot_status s3 = settle Canceled now (slot_status s2).
Proof.
  intros [es0 Hes0] Ha Hrun Hall Hrun' He.
  assert (reachable_jobs s1) as Hinv1%reachable_inv.
  { exists (es0 ++ Cancel :: es ++ [Decide j]). rewrite run_jobs_app, Hes0. exact Hrun. }
  rewrite run_jobs_app in Hrun. destruct (run_jobs es _) as [s0|] eqn:Hr0; [|done]. cbn in Hrun.
  destruct (phases s0 !! j) as [[]|] eqn:Hj; try done. injection Hrun as <-.
  assert (j ∈ cancel_flags s0) as Hflag.
  { eapply flags_stay; [exact Hr0|]. unfold cancel_album_index. rewrite Ha. cbn.
    destruct (_ && _); cbn; set_solver. }
  assert (Hf : phases s2 !! j = Some (Decided Canceled)).
  { eapply decided_run; [done|exact Hall|exact Hrun'|]. cbn. rewrite lookup_insert_eq.
    unfold final_state. by rewrite bool_decide_true. }
  assert (Hinv2 : jobs_inv s2) by (eapply run_jobs_inv; [|exact Hrun']; exact Hinv1).
  destruct (inv_live s2 Hinv2 j _ Hf) as [Hs Hr]; [done|].
  cbn [exec_job] in He. rewrite Hf in He. injection He as <-.
  split; [unfold cancel_album_index; by rewrite Ha|]. cbn [slot_job slot_status set_phases].
  destruct (update_status_ids j (settle Canceled now) s2) as (_ & -> & _). by rewrite update_status_hit.
Qed.

(** ** Witnesses *)
Definition run_of (es : list JobEvent) : Jobs := default no_jobs (run_jobs es no_jobs).
Example a_job_runs :
  let s := run_of [Accept (lit "/") false 5; Register 1; Launch 1 true; Count 1 Scanned; Count 1 Matched;
                   Count 1 (FileFailed (Some (lit "a.jpg"))); Decide 1; Settle 1 9; Unregister 1] in
  st_state (slot_status s) = IndexFailed /\ failed_paths (slot_status s) = [lit "a.jpg"] /\ active s = None.
Proof. by vm_compute. Qed.

Lemma scan_roots_spec_witness :
  let F := {| canonicalize p := Some p; exists_ _ := true |} in
  let dir s := components (lit s) in
  [dir "/u/cats"] <> [] /\ forall r, r ∈ [dir "/u/cats"] -> bool_decide (r = dir "/u/cats") = true /\
    exists base, (base = dir "/i" \/ Some (dir "/u") = Some base) /\
      (r = base \/ r = push base (components (trim_start_slashes (trim (lit "/cats"))))) /\
      (None = Some (lit "global") -> base = dir "/i") /\
      (None = Some (lit "personal") -> Some (dir "/u") = Some base).
Proof.
  refine (scan_roots_spec (fun r => bool_decide (r = components (lit "/u/cats"))) (Some (components (lit "/u")))
    (lit "/cats") (components (lit "/i")) None [components (lit "/u/cats")] _).
  vm_compute. reflexivity.
Defined.

Lemma one_job_at_a_time_witness :
  let s := run_of [Accept (lit "/") true 5; Register 1] in
  slot_job s = 1 /\ st_state (slot_status s) = Running /\
  (phases s !! 1 = Some (Registered true) -> live (Registered true) -> 1 = 1) /\
  forall src clear now, exists s',
    accept src clear now s = (fail Conflict (lit "An index job is already running"), s') /\
    slot_job s' = 1 /\ slot_status s' = slot_status s /\ phases s' = phases s.
Proof.
  refine (one_job_at_a_time (run_of [Accept (lit "/") true 5; Register 1]) 1 (Registered true) 1 (Registered true)
    _ eq_refl _).
  - exists [Accept (lit "/") true 5; Register 1]. reflexivity.
  - discriminate.
Defined.

Lemma failed_clear_blocks_indexing_witness :
  let s := run_of [Accept (lit "/") true 5; Register 1; Launch 1 false; Cancel; Accept (lit "/") false 7] in
  st_state (slot_status s) = Running /\
  forall src clear now, (accept src clear now s).1 = fail Conflict (lit "An index job is already running").
Proof.
  refine (failed_clear_blocks_indexing (run_of [Accept (lit "/") true 5; Register 1]) 1
    (run_of [Accept (lit "/") true 5; Register 1; Launch 1 false]) [Cancel; Accept (lit "/") false 7] _
    _ eq_refl eq_refl eq_refl).
  exists [Accept (lit "/") true 5; Register 1]. reflexivity.
Defined.

(** A cancel that comes after the decision is answered and then overruled. *)
Example late_cancel_is_lost :
  let s := run_of [Accept (lit "/") false 5; Register 1; Launch 1 true; Decide 1] in
  (cancel_album_index s).1 = Ok tt /\
  let s := default no_jobs (run_jobs [Cancel; Settle 1 9] s) in
  st_state (slot_status s) = Completed /\ cancel_requested (slot_status s) = true.
Proof. by vm_compute. Qed.

Lemma cancel_is_kept_witness :
  let s2 := run_of [Accept (lit "/") false 5; Register 1; Launch 1 true; Cancel; Count 1 Scanned; Decide 1; Cancel] in
  let s3 := run_of [Accept (lit "/") false 5; Register 1; Launch 1 true; Cancel; Count 1 Scanned; Decide 1; Cancel; Settle 1 9] in
  (cancel_album_index (run_of [Accept (lit "/") false 5; Register 1; Launch 1 true])).1 = Ok tt /\
  slot_job s3 = 1 /\ slot_status s3 = settle Canceled 9 (slot_status s2).
Proof.
  refine (cancel_is_kept (run_of [Accept (lit "/") false 5; Register 1; Launch 1 true]) 1 [Count 1 Scanned]
    (run_of [Accept (lit "/") false 5; Register 1; Launch 1 true; Cancel; Count 1 Scanned; Decide 1]) [Cancel]
    (run_of [Accept (lit "/") false 5; Register 1; Launch 1 true; Cancel; Count 1 Scanned; Decide 1; Cancel]) 9 _
    _ eq_refl eq_refl _ eq_refl eq_refl).
  - exists [Accept (lit "/") false 5; Register 1; Launch 1 true]. reflexivity.
  - repeat constructor. discriminate.
Defined.
