(* ===== verification/Sanitize.v ===== *)
(** * Sanitize: tags, texts and file names from outside
      ([backend/src/process/sanitize.rs] and the naming part of
      [backend/src/router/post/post_upload.rs])

    Unicode normalization is third-party: [nfc] of the class [Nfc], whose laws are
    what its documentation and data promise.  How [Debug] prints characters and text
    in messages is the class [DebugFmt]. *)

From S2P Require Import Snapshots.
From S2P Require Import Prelude Errors Paths Formats DirAlbum RouterAuth DataPages DirAlbumStore.

Class Nfc := { nfc : str -> str }.
Class DebugFmt := { debug_char : N -> str; debug_str : str -> str }.

(** ** Text *)
Definition in_range (lo hi c : N) : bool := (lo <=? c) && (c <=? hi).
Definition is_valid_xml_char (c : N) : bool :=
  (c =? 9) || (c =? 10) || (c =? 13) || in_range 32 126 c || in_range 160 55295 c
  || in_range 57344 65533 c || in_range 65536 1114111 c.

Section Text.
Context {Nf : Nfc}.
Definition sanitize_tag (s : str) : str :=
  filter (fun c => is_valid_xml_char c && negb (c =? 10) && negb (c =? 13) = true) (nfc s).
Definition sanitize_text (s : str) : str := filter (fun c => is_valid_xml_char c = true) (nfc s).
End Text.

(** ** File names *)
Record FilenameSanitize := mkSanitize {
  sn_name : str; stripped : list N; normalized : bool; reserved : bool; changed : bool
}.

Definition is_forbidden_filename_char (c : N) : bool :=
  if existsb (N.eqb c) [0; 47; 92] then true
  else if existsb (N.eqb c) [60; 62; 58; 34; 124; 63; 42] then true
  else if in_range 64976 65007 c then true
  else if (N.land c 65535 =? 65534) || (N.land c 65535 =? 65535) then true
  else if existsb (N.eqb c) [8203; 8204; 8205; 8206; 8207] then true
  else if existsb (N.eqb c) [65279; 8288] then true
  else if in_range 8234 8238 c || in_range 8294 8297 c then true
  else if existsb (N.eqb c) [8260; 8725; 10744; 65295; 8726; 10741; 10745; 65340; 65372] then true
  else if is_control c then true
  else false.

Definition RESERVED_WINDOWS_NAMES : list str := lit <$> [
  "CON"; "PRN"; "AUX"; "NUL";
  "COM1"; "COM2"; "COM3"; "COM4"; "COM5"; "COM6"; "COM7"; "COM8"; "COM9"; "LPT1"; "LPT2"; "LPT3";
  "LPT4"; "LPT5"; "LPT6"; "LPT7"; "LPT8"; "LPT9"]%string.
Definition eq_ignore_ascii_case (a b : str) : bool :=
  str_eqb (to_ascii_lowercase a) (to_ascii_lowercase b).
Definition first_piece (name : str) : str := default name (head (split_on 46 name)).
Definition is_reserved_windows_name (name : str) : bool :=
  existsb (eq_ignore_ascii_case (first_piece name)) RESERVED_WINDOWS_NAMES.

Section FileNames.
Context {Nf : Nfc} {Df : DebugFmt}.

Definition sanitize_filename (name : str) (normalize_nfc : bool) : FilenameSanitize :=
  let stripped := filter (fun c => is_forbidden_filename_char c = true) name in
  let cleaned := trim (filter (fun c => is_forbidden_filename_char c = false) name) in
  let normalized := normalize_nfc && negb (str_eqb (nfc cleaned) cleaned) in
  let cleaned := if normalize_nfc then nfc cleaned else cleaned in
  let reserved := is_reserved_windows_name cleaned in
  let cleaned := if reserved then lit "_" ++ cleaned else cleaned in
  let cleaned := if is_empty cleaned || str_eqb cleaned (lit ".") || str_eqb cleaned (lit "..")
                 then [] else cleaned in
  mkSanitize cleaned stripped normalized reserved (negb (str_eqb cleaned name)).

(** [resolve_filename] of an upload: the stem of the stored file. *)
Fixpoint join_with (sep : str) (pieces : list str) : str :=
  match pieces with [] => [] | [p] => p | p :: pieces' => p ++ sep ++ join_with sep pieces' end.
Definition auto_rename_rejected_error (raw_filename : str) (s : FilenameSanitize) : AppError :=
  let reasons :=
    (if negb (is_empty (stripped s))
     then [lit "forbidden characters " ++ join_with (lit ", ") (debug_char <$> stripped s)] else []) ++
    (if reserved s then [lit "a reserved Windows device name"] else []) ++
    (if normalized s then [lit "Unicode normalization required"] else []) in
  new_error InvalidInput
    (lit "Filename " ++ debug_str raw_filename ++ lit " is not safe as-is (" ++ join_with (lit "; ") reasons
     ++ lit "). Set auto_rename=true to allow the server to rename it.").
Definition path_stem (p : Path) : option str := file_stem <$> file_name p.
Definition resolve_filename (raw_filename : str) (auto_rename normalize_nfc : bool) : app_result str :=
  let s := sanitize_filename raw_filename normalize_nfc in
  let stem := if is_empty (sn_name s) then [] else default [] (path_stem (components (sn_name s))) in
  if auto_rename then Ok (if is_empty stem then lit "upload" else stem)
  else if changed s || is_empty (sn_name s) then Err (auto_rename_rejected_error raw_filename s)
  else Ok stem.
End FileNames.

(** ** A free path *)
Definition pad3 (s : str) : str := repeat 48 (3 - length s)%nat ++ s.
Definition numbered (base : Path) (n : N) : Path :=
  let stem := default (lit "file") (path_stem base) in
  let ext := default [] (path_extension (path_text base)) in
  let dir := default [CurDir] (parent base) in
  push dir [Normal (stem ++ lit "-" ++ pad3 (show_N n) ++ if is_empty ext then [] else lit "." ++ ext)].
(** The first of the [fuel] numbers from [n] on that [free] accepts; halving the
    range keeps the search executable. *)
Fixpoint first_from (free : N -> bool) (fuel : positive) (n : N) : option N :=
  match fuel with
  | xH => if free n then Some n else None
  | xO half =>
      match first_from free half n with
      | Some m => Some m
      | None => first_from free half (n + Npos half)
      end
  | xI half =>
      if free n then Some n
      else match first_from free half (n + 1) with
           | Some m => Some m
           | None => first_from free half (n + 1 + Npos half)
           end
  end.
(** [1u32..u32::MAX] holds [u32::MAX - 1] numbers. *)
Definition find_unique_path (exists_at : Path -> bool) (base : Path) : app_result Path :=
  match first_from (fun n => negb (exists_at (numbered base n))) 4294967294 1 with
  | Some n => Ok (numbered base n)
  | None => fail IO (lit "Could not find a free filename for " ++ path_text base)
  end.

(** ** Facts *)
Lemma first_from_spec free fuel n :
  match first_from free fuel n with
  | Some m => n <= m /\ m < n + Npos fuel /\ free m = true /\ forall k, n <= k -> k < m -> free k = false
  | None => forall k, n <= k -> k < n + Npos fuel -> free k = false
  end.
Proof.
  revert n. induction fuel as [half IH|half IH|]; intros n; cbn [first_from].
  - destruct (free n) eqn:Hn; [split_and!; try done; lia|].
    specialize (IH (n + 1)) as IH1. destruct (first_from free half (n + 1)) as [m|].
    { destruct IH1 as (Hlo & Hhi & Hm & Hb). split_and!; [lia|lia|done|]. intros k Hk1 Hk2.
      destruct (decide (k = n)) as [->|]; [done|]. apply Hb; lia. }
    specialize (IH (n + 1 + Npos half)). destruct (first_from free half (n + 1 + Npos half)) as [m|].
    { destruct IH as (Hlo & Hhi & Hm & Hb). split_and!; [lia|lia|done|]. intros k Hk1 Hk2.
      destruct (decide (k = n)) as [->|]; [done|].
      destruct (decide (k < n + 1 + Npos half)); [apply IH1; lia|apply Hb; lia]. }
    intros k Hk1 Hk2. destruct (decide (k = n)) as [->|]; [done|].
    destruct (decide (k < n + 1 + Npos half)); [apply IH1; lia|apply IH; lia].
  - specialize (IH n) as IH1. destruct (first_from free half n) as [m|].
    { destruct IH1 as (Hlo & Hhi & Hm & Hb). split_and!; [lia|lia|done|]. intros; apply Hb; lia. }
    specialize (IH (n + Npos half)). destruct (first_from free half (n + Npos half)) as [m|].
    { destruct IH as (Hlo & Hhi & Hm & Hb). split_and!; [lia|lia|done|]. intros k Hk1 Hk2.
      destruct (decide (k < n + Npos half)); [apply IH1; lia|apply Hb; lia]. }
    intros k Hk1 Hk2. destruct (decide (k < n + Npos half)); [apply IH1; lia|apply IH; lia].
  - destruct (free n) eqn:Hn; [split_and!; try done; lia|]. intros k Hk1 Hk2.
    assert (k = n) as -> by lia. done.
Qed.

(** Numbers print injectively, padding included. *)
Definition decimal (acc : N) (s : str) : N := fold_left (fun a c => 10 * a + (c - 48)) s acc.
Lemma pretty_char_digit d : d < 10 -> Ascii.N_of_ascii (pretty_N_char d) = 48 + d.
Proof.
  intros Hd. destruct d as [|p]; [done|]. do 4 (destruct p as [p|p|]; try done; try lia).
Qed.
Lemma decimal_pretty_go x s : decimal 0 (lit (pretty_N_go x s)) = decimal x (lit s).
Proof.
  revert s. induction (N.lt_wf_0 x) as [x _ IH]; intros s.
  destruct (decide (x = 0)) as [->|]; [by rewrite pretty_N_go_0|].
  rewrite pretty_N_go_step by lia. rewrite IH by (apply N.div_lt; lia).
  unfold decimal, lit. cbn [String.list_ascii_of_string fmap list_fmap fold_left].
  rewrite pretty_char_digit by (apply N.mod_lt; lia).
  match goal with |- fold_left _ _ ?a = _ => replace a with x; [done|] end.
  rewrite (N.add_comm 48), N.add_sub. by apply N.div_mod.
Qed.
Lemma decimal_show n : decimal 0 (show_N n) = n.
Proof.
  unfold show_N, pretty, pretty_N. case_decide as Hn; [by subst|]. rewrite decimal_pretty_go. done.
Qed.
Lemma decimal_zeros k s : decimal 0 (repeat 48 k ++ s) = decimal 0 s.
Proof. induction k as [|k IH]; [done|]. exact IH. Qed.
Lemma pad3_inj m n : pad3 (show_N m) = pad3 (show_N n) -> m = n.
Proof. intros He%(f_equal (decimal 0)). unfold pad3 in He. by rewrite !decimal_zeros, !decimal_show in He. Qed.

Lemma push_name_inj dir a b : push dir [Normal a] = push dir [Normal b] -> a = b.
Proof. cbn. by intros [= ->]%app_inv_head. Qed.
Lemma numbered_inj base m n : numbered base m = numbered base n -> m = n.
Proof. unfold numbered. intros He%push_name_inj%app_inv_head%app_inv_head%app_inv_tail. by apply pad3_inj. Qed.

(** The found path is free and every smaller number is taken; and as long as fewer
    paths exist than there are numbers, one is found. *)
Theorem find_unique_path_spec exists_at base :
  (forall p, find_unique_path exists_at base = Ok p -> exists n, 1 <= n /\ n < u32_max /\
     p = numbered base n /\ exists_at p = false /\
     forall k, 1 <= k -> k < n -> exists_at (numbered base k) = true) /\
  (forall taken : gset Path, (forall p, exists_at p = true -> p ∈ taken) ->
     N.of_nat (size taken) < 4294967294 -> is_ok (find_unique_path exists_at base) = true).
Proof.
  unfold find_unique_path, u32_max.
  pose proof (first_from_spec (fun n => negb (exists_at (numbered base n))) 4294967294 1) as Hs.
  destruct (first_from _ _ _) as [n|].
  - destruct Hs as (Hlo & Hhi & Hn & Hb). split; [|done]. intros p [= <-]. exists n.
    split_and!; [done|lia|done|by apply negb_true_iff|]. intros k Hk1 Hk2. by apply negb_false_iff, Hb.
  - split; [done|]. intros taken Htaken Hsize. exfalso.
    set (count := N.to_nat 4294967294).
    assert (length ((fun k => numbered base (N.of_nat k)) <$> seq 1 count) <= size taken)%nat as Hle.
    { unfold size, set_size. cbn. apply submseteq_length, NoDup_submseteq.
      - apply NoDup_fmap; [|apply NoDup_seq]. intros x y Hxy%numbered_inj. lia.
      - intros p (k & -> & Hk%elem_of_seq)%list_elem_of_fmap. apply elem_of_elements, Htaken, negb_false_iff, Hs; lia. }
    rewrite length_fmap, length_seq in Hle. subst count. lia.
Qed.

(** ** What a sanitized name is *)
Definition allowed (c : N) : Prop := is_forbidden_filename_char c = false.
(** Promises of the normalization and of the data behind it: it is idempotent,
    leaves ASCII as it is, turns no other character into a forbidden one or into white space at an end,
    and leaves an underscore in front alone. *)
Class NfcLaws {Nf : Nfc} := {
  nfc_idem s : nfc (nfc s) = nfc s;
  nfc_allowed s : Forall allowed s -> Forall allowed (nfc s);
  nfc_trim s : trim s = s -> trim (nfc s) = nfc s;
  nfc_ascii s : Forall (fun c => c < 128) s -> nfc s = s;
  nfc_underscore s : nfc (95 :: s) = 95 :: nfc s
}.

Lemma trim_start_id s : trim_start s = s <-> forall c, head s = Some c -> is_whitespace c = false.
Proof.
  split.
  - destruct s as [|a s]; [done|]. intros H c [= <-]. by eapply trim_start_head.
  - destruct s as [|a s]; [done|]. intros H. apply trim_start_nonws. by apply H.
Qed.
Lemma trim_id s : trim s = s <->
  (forall c, head s = Some c -> is_whitespace c = false) /\ (forall c, last s = Some c -> is_whitespace c = false).
Proof.
  assert (Hend : forall t : str, (forall c, head (rev t) = Some c -> is_whitespace c = false) <->
                                 (forall c, last t = Some c -> is_whitespace c = false)).
  { intros t. assert (head (rev t) = last t) as ->; [|done].
    destruct t as [|x t _] using rev_ind; [done|]. by rewrite rev_unit, last_snoc. }
  unfold trim. split.
  - intros H. assert (forall c, head s = Some c -> is_whitespace c = false) as Hhead.
    { destruct (trim_start s) as [|a t] eqn:Ht; [cbn in H; by subst|].
      destruct (trim_start_suffix s) as [p Hp]. rewrite Ht in Hp.
      destruct (trim_start_suffix (rev (a :: t))) as [q Hq].
      apply (f_equal length) in H. apply (f_equal length) in Hq. rewrite length_rev in H.
      rewrite length_app, length_rev in Hq. assert (p = []) as ->.
      { apply length_zero_iff_nil. apply (f_equal length) in Hp. rewrite length_app in Hp. lia. }
      cbn in Hp. subst s. intros c [= <-]. by eapply trim_start_head. }
    split; [done|]. apply Hend, trim_start_id.
    apply trim_start_id in Hhead. rewrite Hhead in H.
    apply (f_equal (@rev N)) in H. by rewrite rev_involutive in H.
  - intros [H1 H2]. apply trim_start_id in H1. rewrite H1. pose proof (proj2 (trim_start_id _) (proj2 (Hend s) H2)) as H3.
    by rewrite H3, rev_involutive.
Qed.

Lemma filter_allowed_id s :
  Forall allowed s -> filter (fun c => is_forbidden_filename_char c = false) s = s.
Proof. induction 1 as [|c s Hc _ IH]; [done|]. rewrite filter_cons_True by done. by f_equal. Qed.
Lemma trim_allowed s : Forall allowed s -> Forall allowed (trim s).
Proof.
  assert (Hs : forall t, Forall allowed t -> Forall allowed (trim_start t)).
  { intros t Ht. destruct (trim_start_suffix t) as [p Hp]. rewrite Hp in Ht. by apply Forall_app in Ht as [_ ?]. }
  intros H. unfold trim. apply Forall_rev, Hs, Forall_rev, Hs, H.
Qed.
Lemma one_component s : s <> [] -> s <> lit "." -> s <> lit ".." -> 47 ∉ s -> components s = [Normal s].
Proof.
  intros H0 H1 H2 Hs. unfold components. rewrite split_on_none by done. cbn [mbind list_bind app].
  rewrite app_nil_r. destruct (starts_with _ s) eqn:Hst.
  { destruct s as [|c s]; [done|]. unfold lit in Hst. cbn in Hst. apply andb_true_iff in Hst as [<-%N.eqb_eq _].
    destruct Hs. by left. }
  unfold component_of. destruct (str_eqb s (lit ".")) eqn:E1; [by apply str_eqb_eq in E1|].
  destruct (str_eqb s (lit "..")) eqn:E2; [by apply str_eqb_eq in E2|]. by destruct s.
Qed.
Lemma allowed_no_slash s : Forall allowed s -> 47 ∉ s.
Proof. intros H Hin. eapply Forall_forall in H; [|exact Hin]. done. Qed.
Lemma underscore_not_reserved s : is_reserved_windows_name (95 :: s) = false.
Proof.
  unfold is_reserved_windows_name, first_piece. cbn [split_on]. change (95 =? 46) with false. cbv iota.
  destruct (split_on 46 s) as [|w ws]; cbn [default head].
  all: unfold RESERVED_WINDOWS_NAMES, eq_ignore_ascii_case; cbn; repeat (rewrite bool_decide_eq_false_2 by done); done.
Qed.

Record safe_name (s : str) : Prop := {
  safe_component : components s = [Normal s];
  safe_chars : Forall allowed s;
  safe_trim : trim s = s;
  safe_reserved : is_reserved_windows_name s = false
}.

(** *** What a portable name is, without the code's own tests *)
Definition control (c : N) : Prop := c < 0x20 \/ 0x7F <= c <= 0x9F.
(** The separators of both systems. *)
Definition separator (c : N) : Prop := c = 0x2F \/ c = 0x5C.
(** [< > : | ? *] and the double quote. *)
Definition windows_forbids (c : N) : Prop := c ∈ [0x3C; 0x3E; 0x3A; 0x7C; 0x3F; 0x2A; 0x22].
(** The code points that are no characters: 32 in one block, and the last two of every plane. *)
Definition noncharacter (c : N) : Prop := 0xFDD0 <= c <= 0xFDEF \/ 0xFFFE <= c mod 0x10000.
(** Zero-width characters, marks and changes of direction, the byte order mark. *)
Definition invisible (c : N) : Prop :=
  0x200B <= c <= 0x200F \/ 0x202A <= c <= 0x202E \/ 0x2066 <= c <= 0x2069 \/ c = 0x2060 \/ c = 0xFEFF.
(** Fraction slash, division slash, big and fullwidth solidus; set minus, reverse solidus
    operator, big and fullwidth reverse solidus; fullwidth vertical line. *)
Definition look_alike (c : N) : Prop :=
  c ∈ [0x2044; 0x2215; 0x29F8; 0xFF0F] \/ c ∈ [0x2216; 0x29F5; 0x29F9; 0xFF3C] \/ c = 0xFF5C.
Definition unsafe_char (c : N) : Prop :=
  control c \/ separator c \/ windows_forbids c \/ noncharacter c \/ invisible c \/ look_alike c.
(** A device of Windows, whatever the case and whatever follows a dot. *)
Definition device (base : str) : Prop :=
  base ∈ lit <$> ["con"; "prn"; "aux"; "nul"]%string \/
  exists port digit, port ∈ lit <$> ["com"; "lpt"]%string /\ 49 <= digit <= 57 /\ base = port ++ [digit].
Definition names_device (s : str) : Prop :=
  exists base rest, to_ascii_lowercase s = base ++ rest /\ device base /\ (rest = [] \/ head rest = Some 46).
Record portable_name (s : str) : Prop := {
  one_entry : components s = [Normal s];
  no_unsafe_char : forall c, c ∈ s -> ~ unsafe_char c;
  no_space_around : forall c, head s = Some c \/ last s = Some c -> is_whitespace c = false;
  no_device : ~ names_device s
}.

Lemma last_of_plane c : N.land c 65535 = 65534 \/ N.land c 65535 = 65535 <-> 0xFFFE <= c mod 0x10000.
Proof.
  change 65535 with (N.ones 16) at 1 2. rewrite !N.land_ones. change (2 ^ 16) with 0x10000.
  pose proof (N.mod_lt c 0x10000 ltac:(done)). lia.
Qed.
Lemma forbidden_iff c : is_forbidden_filename_char c = true <-> unsafe_char c.
Proof.
  transitivity (existsb (N.eqb c) [0; 47; 92] || existsb (N.eqb c) [60; 62; 58; 34; 124; 63; 42] || in_range 64976 65007 c ||
    ((N.land c 65535 =? 65534) || (N.land c 65535 =? 65535)) || existsb (N.eqb c) [8203; 8204; 8205; 8206; 8207] ||
    existsb (N.eqb c) [65279; 8288] || (in_range 8234 8238 c || in_range 8294 8297 c) ||
    existsb (N.eqb c) [8260; 8725; 10744; 65295; 8726; 10741; 10745; 65340; 65372] || is_control c = true).
  { unfold is_forbidden_filename_char.
    repeat match goal with |- context [if ?b then true else ?x] => change (if b then true else x) with (orb b x) end.
    by rewrite orb_false_r, !orb_assoc. }
  unfold unsafe_char, control, separator, windows_forbids, noncharacter, invisible, look_alike.
  unfold in_range, is_control. cbn [existsb]. rewrite !elem_of_cons, elem_of_nil, !orb_true_iff, !andb_true_iff, !N.eqb_eq, !N.leb_le, !N.ltb_lt, last_of_plane.
  split; intros H; repeat destruct H as [H|H]; try lia; tauto.
Qed.

Definition device_names : list str :=
  (lit <$> ["con"; "prn"; "aux"; "nul"]%string) ++
  ((fun d => lit "com" ++ [d]) <$> [49; 50; 51; 52; 53; 54; 55; 56; 57]) ++
  ((fun d => lit "lpt" ++ [d]) <$> [49; 50; 51; 52; 53; 54; 55; 56; 57]).
Lemma device_iff base : device base <-> base ∈ device_names.
Proof.
  unfold device, device_names. rewrite !elem_of_app, !list_elem_of_fmap. split.
  - intros [H|(port & d & Hp & Hd & ->)]; [by left|right].
    assert (d ∈ [49; 50; 51; 52; 53; 54; 55; 56; 57]) as Hin by (rewrite !elem_of_cons; lia).
    apply list_elem_of_fmap in Hp as (p & -> & Hp). rewrite !elem_of_cons, elem_of_nil in Hp.
    destruct Hp as [->|[->|[]]]; [left|right]; by exists d.
  - intros [H|[(d & -> & Hd)|(d & -> & Hd)]]; [by left|right..].
    + exists (lit "com"), d. split; [by left|]. split; [|done]. rewrite !elem_of_cons, elem_of_nil in Hd. lia.
    + exists (lit "lpt"), d. split; [by right; left|]. split; [|done]. rewrite !elem_of_cons, elem_of_nil in Hd. lia.
Qed.
Lemma device_names_reserved : device_names = to_ascii_lowercase <$> RESERVED_WINDOWS_NAMES.
Proof. by vm_compute. Qed.
Lemma device_names_no_dot base : base ∈ device_names -> 46 ∉ base.
Proof.
  intros H Hin. assert (forallb (forallb (fun c => negb (c =? 46))) device_names = true) as Hall by (by vm_compute).
  pose proof (proj1 (forallb_forall _ _) Hall base (proj1 (list_elem_of_In _ _) H)) as Hb.
  pose proof (proj1 (forallb_forall _ _) Hb 46 (proj1 (list_elem_of_In _ _) Hin)) as Hc. discriminate Hc.
Qed.
Lemma first_piece_spec s : exists rest, s = first_piece s ++ rest /\ (rest = [] \/ head rest = Some 46) /\ 46 ∉ first_piece s.
Proof.
  unfold first_piece. induction s as [|a s IH]; [exists []; split_and!; auto; apply not_elem_of_nil|].
  cbn [split_on]. destruct (a =? 46) eqn:Ha.
  - apply N.eqb_eq in Ha as ->. exists (46 :: s). split_and!; auto. apply not_elem_of_nil.
  - apply N.eqb_neq in Ha. destruct IH as (rest & Hs & Hr & Hd).
    assert (split_on 46 s <> []) as Hne by (destruct s; cbn [split_on]; [done|]; repeat case_match; done).
    destruct (split_on 46 s) as [|w ws]; [done|]. cbn in Hs, Hd |- *.
    exists rest. split_and!; [by f_equal|done|set_solver].
Qed.
Lemma dotted_unique (a b r t : str) : a ++ r = b ++ t -> 46 ∉ a -> 46 ∉ b ->
  (r = [] \/ head r = Some 46) -> (t = [] \/ head t = Some 46) -> a = b.
Proof.
  revert b. induction a as [|x a IH]; intros [|y b] H Ha Hb Hr Ht; [done|..].
  - cbn in H. subst r. destruct Hr as [|[= ->]]; [done|]. set_solver.
  - cbn in H. subst t. destruct Ht as [|[= ->]]; [done|]. set_solver.
  - injection H as -> H. f_equal. apply (IH b H); set_solver.
Qed.
Lemma lower_dot c : ascii_lower c = 46 <-> c = 46.
Proof. unfold ascii_lower. case_match; to_prop; [lia|done]. Qed.
Lemma lower_no_dot s : 46 ∉ s -> 46 ∉ to_ascii_lowercase s.
Proof. intros H (c & Hc & Hin)%list_elem_of_fmap. by rewrite <-(proj1 (lower_dot c)) in H. Qed.
Lemma lower_rest s : s = [] \/ head s = Some 46 -> to_ascii_lowercase s = [] \/ head (to_ascii_lowercase s) = Some 46.
Proof. destruct s as [|c s]; [by left|]. intros [|[= ->]]; [done|by right]. Qed.
Lemma reserved_iff s : is_reserved_windows_name s = true <-> names_device s.
Proof.
  unfold is_reserved_windows_name. rewrite existsb_exists. unfold eq_ignore_ascii_case.
  destruct (first_piece_spec s) as (rest & Hs & Hr & Hd). split.
  - intros (r & Hin%list_elem_of_In & He%str_eqb_eq).
    exists (to_ascii_lowercase (first_piece s)), (to_ascii_lowercase rest).
    split; [rewrite Hs at 1; apply fmap_app|]. split; [|by apply lower_rest].
    apply device_iff. rewrite device_names_reserved, He. by apply list_elem_of_fmap_2.
  - intros (base & t & Hl & Hb%device_iff & Ht).
    assert (base = to_ascii_lowercase (first_piece s)) as ->.
    { apply (dotted_unique _ _ t (to_ascii_lowercase rest)); [|by apply device_names_no_dot|by apply lower_no_dot|done|by apply lower_rest].
      rewrite <-Hl. rewrite Hs at 1. apply fmap_app. }
    rewrite device_names_reserved in Hb. apply list_elem_of_fmap in Hb as (r & He & Hin).
    exists r. split; [by apply list_elem_of_In|]. by apply str_eqb_eq.
Qed.
Lemma portable_iff s : portable_name s <-> safe_name s.
Proof.
  assert (Forall allowed s <-> forall c, c ∈ s -> ~ unsafe_char c) as Hc.
  { rewrite Forall_forall. split; intros H c Hin; specialize (H c Hin); unfold allowed in *.
    - rewrite <-forbidden_iff, H. done.
    - destruct (is_forbidden_filename_char c) eqn:E; [|done]. by apply forbidden_iff in E. }
  assert (trim s = s <-> forall c, head s = Some c \/ last s = Some c -> is_whitespace c = false) as Ht.
  { rewrite trim_id. split; [by intros [? ?] c [?|?]; auto|auto]. }
  assert (is_reserved_windows_name s = false <-> ~ names_device s) as Hr.
  { rewrite <-reserved_iff. by destruct (is_reserved_windows_name s). }
  split; intros []; split; tauto.
Qed.

Section FileNameFacts.
Context {Nf : Nfc} {Df : DebugFmt} {L : NfcLaws}.

(** The name before the test for a degenerate one. *)
Definition prepared (name : str) (b : bool) : str :=
  let cleaned := trim (filter (fun c => is_forbidden_filename_char c = false) name) in
  if b then nfc cleaned else cleaned.
Lemma prepared_allowed name b : Forall allowed (prepared name b).
Proof.
  assert (Forall allowed (trim (filter (fun c => is_forbidden_filename_char c = false) name))) as H.
  { apply trim_allowed, Forall_forall. intros c Hc. by apply list_elem_of_filter in Hc as [Hc _]. }
  unfold prepared. destruct b; [by apply nfc_allowed|done].
Qed.
Lemma prepared_trim name b : trim (prepared name b) = prepared name b.
Proof. unfold prepared. destruct b; [apply nfc_trim|]; apply trim_idemp. Qed.
Lemma prepared_id s b : Forall allowed s -> trim s = s -> (b = true -> nfc s = s) -> prepared s b = s.
Proof. intros Ha Ht Hn. unfold prepared. rewrite filter_allowed_id, Ht by done. destruct b; auto. Qed.

Definition kept (cleaned : str) : str :=
  let cleaned := if is_reserved_windows_name cleaned then lit "_" ++ cleaned else cleaned in
  if is_empty cleaned || str_eqb cleaned (lit ".") || str_eqb cleaned (lit "..") then [] else cleaned.
Lemma sanitize_name name b : sn_name (sanitize_filename name b) = kept (prepared name b).
Proof. by destruct b. Qed.

Lemma safe_name_ne s : safe_name s -> s <> [] /\ s <> lit "." /\ s <> lit "..".
Proof. intros [H _ _ _]. split_and!; intros ->; discriminate H. Qed.

Lemma kept_safe name b : kept (prepared name b) = [] \/ safe_name (kept (prepared name b)).
Proof.
  unfold kept. pose proof (prepared_allowed name b) as Ha. pose proof (prepared_trim name b) as Ht.
  set (c := prepared name b) in *. clearbody c.
  destruct (is_reserved_windows_name c) eqn:Hr; cbv zeta.
  - right. destruct c as [|x c]; [done|]. change (lit "_" ++ x :: c) with (95 :: x :: c).
    assert (Forall allowed (95 :: x :: c)) as Ha' by (by constructor).
    destruct (_ || _) eqn:Hd; [apply orb_true_iff in Hd as [[Hd|Hd]%orb_true_iff|Hd];
      [done|by apply str_eqb_eq in Hd|by apply str_eqb_eq in Hd]|].
    split; [by apply one_component, allowed_no_slash|done| |apply underscore_not_reserved].
    apply trim_id. apply trim_id in Ht as [_ Ht]. split; [by intros ? [= <-]|].
    intros y Hy. apply Ht. by rewrite last_cons_cons in Hy.
  - destruct (_ || _) eqn:Hd; [by left|right]. apply orb_false_iff in Hd as [[H0 H1]%orb_false_iff H2].
    split; [|done..]. apply one_component; [by destruct c| | |by apply allowed_no_slash].
    + by intros ->.
    + by intros ->.
Qed.
Lemma kept_normal name b : b = true -> nfc (kept (prepared name b)) = kept (prepared name b) \/ kept (prepared name b) = [].
Proof.
  intros ->. assert (nfc (prepared name true) = prepared name true) as Hn by apply nfc_idem.
  unfold kept. destruct (is_reserved_windows_name _); cbv zeta; destruct (_ || _ || _); auto.
  left. change (lit "_" ++ prepared name true) with (95 :: prepared name true). by rewrite nfc_underscore, Hn.
Qed.
Lemma kept_id s : safe_name s -> kept s = s.
Proof.
  intros Hs. destruct (safe_name_ne s Hs) as (H0 & H1 & H2). unfold kept. rewrite (safe_reserved s Hs).
  destruct (_ || _) eqn:Hd; [|done]. exfalso.
  apply orb_true_iff in Hd as [[Hd|Hd]%orb_true_iff|Hd]; [by destruct s|by apply str_eqb_eq in Hd|by apply str_eqb_eq in Hd].
Qed.

Lemma sanitized_safe name b : sn_name (sanitize_filename name b) = [] \/ safe_name (sn_name (sanitize_filename name b)).
Proof. rewrite sanitize_name. apply kept_safe. Qed.
Lemma sanitized_changed name b : changed (sanitize_filename name b) = false <-> sn_name (sanitize_filename name b) = name.
Proof.
  transitivity (str_eqb (sn_name (sanitize_filename name b)) name = true); [|apply str_eqb_eq].
  unfold sanitize_filename. cbn [changed sn_name]. apply negb_false_iff.
Qed.

(** C31: A sanitized name is either empty or portable: one path component, without control
    characters, separators, what Windows forbids, noncharacters, invisible characters and
    the look-alikes of separators, without white space at its ends, and not a device's
    name.  What was stripped are exactly the unsafe characters, a name that is portable
    (and normalized, where that is asked for) is kept as it is, sanitizing again changes
    nothing, and a change is reported exactly when there is one. *)
Theorem sanitize_filename_spec name b :
  let s := sn_name (sanitize_filename name b) in
  (s = [] \/ portable_name s) /\
  (forall c, c ∈ stripped (sanitize_filename name b) <-> c ∈ name /\ unsafe_char c) /\
  (portable_name name -> (b = true -> nfc name = name) -> s = name) /\
  sn_name (sanitize_filename s b) = s /\ changed (sanitize_filename s b) = false /\
  (changed (sanitize_filename name b) = false <-> s = name).
Proof.
  cbv zeta. rewrite sanitize_name.
  assert (sn_name (sanitize_filename (kept (prepared name b)) b) = kept (prepared name b)) as Hidem.
  { destruct (kept_safe name b) as [->|Hs]; [rewrite sanitize_name|].
    - unfold prepared. cbn. destruct b; [by rewrite nfc_ascii by constructor|done].
    - rewrite sanitize_name, prepared_id; [by apply kept_id|apply Hs|apply Hs|].
      intros Hb. destruct (kept_normal name b Hb) as [?|He]; [done|]. by apply safe_name_ne in Hs as []. }
  split_and!; [| | |done| |].
  - rewrite portable_iff. apply kept_safe.
  - intros c. cbn [stripped sanitize_filename]. rewrite list_elem_of_filter, forbidden_iff. tauto.
  - intros Hp%portable_iff Hn. rewrite prepared_id by (done || apply Hp). by apply kept_id.
  - unfold sanitize_filename at 1. cbn [changed]. apply negb_false_iff, str_eqb_eq. exact Hidem.
  - by rewrite sanitized_changed, sanitize_name.
Qed.
End FileNameFacts.

(** ** The names of uploaded files *)
Lemma before_last_dot_prefix s stem : before_last_dot s = Some stem -> exists tail, s = stem ++ tail.
Proof.
  revert stem. induction s as [|c s IH]; intros stem; cbn [before_last_dot]; [done|].
  destruct (before_last_dot s) as [q|]; [|destruct (c =? 46); [|done]; intros [= <-]; by eexists].
  intros [= <-]. destruct (IH q) as [tail ->]; [done|]. by exists tail.
Qed.
Section UploadNames.
Context {Nf : Nfc} {Df : DebugFmt} {L : NfcLaws}.

Lemma safe_stem s : safe_name s ->
  exists stem, path_stem (components s) = Some stem /\ stem <> [] /\ exists tail, s = stem ++ tail.
Proof.
  intros Hs. unfold path_stem. rewrite (safe_component s Hs). cbn. unfold file_stem.
  destruct (before_last_dot s) as [[|c t]|] eqn:Hb.
  - exists s. split; [done|]. split; [exact (proj1 (safe_name_ne s Hs))|]. exists []. by rewrite app_nil_r.
  - exists (c :: t). split; [done|]. split; [done|]. exact (before_last_dot_prefix s (c :: t) Hb).
  - exists s. split; [done|]. split; [exact (proj1 (safe_name_ne s Hs))|]. exists []. by rewrite app_nil_r.
Qed.

(** A stem with an extension is one name below the directory it is joined to. *)
Lemma stem_entry (stem tail : str) dir : stem <> [] -> Forall allowed stem -> (2 <= length tail)%nat -> 47 ∉ tail ->
  push dir (components (stem ++ tail)) = dir ++ [Normal (stem ++ tail)].
Proof.
  intros H0 Ha Ht Hs. rewrite one_component; [done| | | |].
  - by destruct stem.
  - intros H%(f_equal length). rewrite length_app in H. destruct stem; cbn in H; [done|lia].
  - intros H%(f_equal length). rewrite length_app in H. destruct stem; cbn in H; [done|lia].
  - apply allowed_no_slash in Ha. by rewrite not_elem_of_app.
Qed.
Lemma stem_of_name n stem : safe_name n -> path_stem (components n) = Some stem -> stem <> [] /\ Forall allowed stem.
Proof.
  intros Hn Hst. destruct (safe_stem n Hn) as (st & Hst' & H0 & tail & ->).
  rewrite Hst' in Hst. injection Hst as <-. split; [done|].
  pose proof (safe_chars _ Hn) as Hc. by apply Forall_app in Hc as [Hc _].
Qed.
Lemma resolved_stem raw auto b stem : resolve_filename raw auto b = Ok stem -> stem <> [] /\ Forall allowed stem.
Proof.
  unfold resolve_filename. destruct (sanitized_safe raw b) as [He|Hs].
  - rewrite He. cbn. destruct auto; [|by rewrite orb_true_r]. intros [= <-]. split; [done|]. repeat constructor.
  - destruct (safe_stem _ Hs) as (st & Hst & Hne & _). destruct (stem_of_name _ _ Hs Hst) as [H0 Ha].
    assert (is_empty (sn_name (sanitize_filename raw b)) = false) as ->
      by (apply safe_name_ne in Hs as [? _]; by destruct (sn_name _)).
    rewrite Hst. cbn [default]. destruct auto; [destruct st; [done|by intros [= <-]]|].
    destruct (_ || _); [done|by intros [= <-]].
Qed.

(** The stem of a stored upload: with renaming allowed there always is one, and a
    name that is kept as it was otherwise; whichever extension follows, the file
    lies directly in the target directory. *)
Theorem resolve_filename_spec raw auto b :
  (forall stem, resolve_filename raw auto b = Ok stem -> stem <> [] /\ Forall allowed stem /\
     forall ext dir, ext <> [] -> 47 ∉ ext ->
       push dir (components (stem ++ lit "." ++ ext)) = dir ++ [Normal (stem ++ lit "." ++ ext)]) /\
  is_ok (resolve_filename raw true b) = true /\
  (forall stem, resolve_filename raw false b = Ok stem <->
     sn_name (sanitize_filename raw b) = raw /\ raw <> [] /\ path_stem (components raw) = Some stem).
Proof.
  split_and!.
  - intros stem [H0 Ha]%resolved_stem. split_and!; [done..|]. intros ext dir He Hs. apply stem_entry; [done..| |].
    + rewrite length_app. destruct ext; [done|cbn; lia].
    + rewrite not_elem_of_app. split; [by intros ?%list_elem_of_singleton|done].
  - done.
  - intros stem. unfold resolve_filename. pose proof (sanitized_changed raw b) as Hch.
    destruct (sanitized_safe raw b) as [He|Hs].
    + rewrite He. cbn [is_empty]. rewrite orb_true_r. split; [done|]. intros (Heq & Hne & _). congruence.
    + destruct (safe_stem _ Hs) as (st & Hst & Hne & _).
      assert (is_empty (sn_name (sanitize_filename raw b)) = false) as ->
        by (apply safe_name_ne in Hs as [? _]; by destruct (sn_name _)).
      rewrite Hst, orb_false_r. cbn [default]. destruct (changed (sanitize_filename raw b)).
      * split; [done|]. intros (Heq & _). by apply (proj2 Hch) in Heq.
      * pose proof (proj1 Hch eq_refl) as Hraw. rewrite Hraw in Hst. rewrite Hst. split.
        -- intros [= <-]. split_and!; [done| |done]. rewrite <-Hraw. exact (proj1 (safe_name_ne _ Hs)).
        -- by intros (_ & _ & [= <-]).
Qed.
End UploadNames.

(** ** Tags and texts *)
(** A sanitized tag is one line of XML text and the sanitized text of the same input
    differs from it in line ends only; but the characters are dropped after the
    normalization, so a dropped character between a letter and its accent leaves a
    tag that is not normalized. *)
Theorem sanitize_tag_spec {Nf : Nfc} s :
  (forall c, c ∈ sanitize_tag s <-> c ∈ nfc s /\ is_valid_xml_char c = true /\ c <> 10 /\ c <> 13) /\
  sanitize_tag s = filter (fun c => c <> 10 /\ c <> 13) (sanitize_text s) /\
  (nfc (lit "e" ++ [1; 769]) = lit "e" ++ [1; 769] -> nfc (lit "e" ++ [769]) = [233] ->
   sanitize_tag (lit "e" ++ [1; 769]) = lit "e" ++ [769] /\
   sanitize_tag (sanitize_tag (lit "e" ++ [1; 769])) = [233]).
Proof.
  assert (Hb : forall c, is_valid_xml_char c && negb (c =? 10) && negb (c =? 13) = true <->
    is_valid_xml_char c = true /\ c <> 10 /\ c <> 13).
  { intros c. rewrite !andb_true_iff, !negb_true_iff, !N.eqb_neq. tauto. }
  split_and!.
  - intros c. unfold sanitize_tag. rewrite list_elem_of_filter, Hb. tauto.
  - unfold sanitize_tag, sanitize_text. rewrite list_filter_filter. apply list_filter_iff. intros c. rewrite Hb. tauto.
  - intros H1 H2. unfold sanitize_tag at 1 3. rewrite H1. split; [done|]. change (filter _ _) with (lit "e" ++ [769]).
    unfold sanitize_tag. rewrite H2. done.
Qed.

(** ** Witnesses: an acute accent composes with the letter before it *)
Module SanitizeWitness.
Fixpoint compose (s : str) : str :=
  match s with
  | [] => []
  | c :: s' =>
      match compose s' with
      | d :: t => if (c =? 101) && (d =? 769) then 233 :: t else c :: d :: t
      | [] => [c]
      end
  end.
#[export] Instance composing : Nfc := {| nfc := compose |}.
#[export] Instance plain_debug : DebugFmt := {| debug_char c := [c]; debug_str s := s |}.
End SanitizeWitness.
Import (hints) SanitizeWitness.
Import SanitizeWitness.

Lemma compose_case c s : compose (c :: s) = c :: compose s \/
  exists t, compose s = 769 :: t /\ c = 101 /\ compose (c :: s) = 233 :: t.
Proof.
  cbn. destruct (compose s) as [|d t]; [by left|].
  destruct (_ && _) eqn:H; [right; to_prop; subst; by exists t|by left].
Qed.
Lemma compose_plain c s : c <> 101 -> compose (c :: s) = c :: compose s.
Proof. intros Hc. destruct (compose_case c s) as [?|(t & _ & ? & _)]; done. Qed.
Lemma compose_ends s : head (compose s) = None /\ s = [] \/
  exists c d, head s = Some c /\ head (compose s) = Some d /\ (c = d \/ c = 101 /\ d = 233).
Proof.
  destruct s as [|c s]; [by left|]. right. exists c.
  destruct (compose_case c s) as [->|(t & _ & -> & ->)]; eexists; eauto.
Qed.
Lemma compose_last s : forall d, last (compose s) = Some d -> last s = Some d \/ d = 233.
Proof.
  induction s as [|c s IH]; [done|]. intros d. destruct (compose_case c s) as [->|(t & Ht & -> & ->)].
  - destruct (compose s) as [|e u] eqn:Hu.
    + intros [= <-]. destruct s as [|e' s']; [by left|].
      destruct (compose_ends (e' :: s')) as [[_ ?]|(? & ? & _ & He & _)]; [done|]. by rewrite Hu in He.
    + rewrite last_cons_cons. intros Hd. destruct (IH d Hd) as [Hl|]; [|by right]. left.
      destruct s; [done|]. by rewrite last_cons_cons.
  - destruct t as [|e t].
    + intros [= <-]. by right.
    + rewrite last_cons_cons. intros Hd. rewrite Ht, last_cons_cons in IH. destruct (IH d Hd) as [Hl|]; [|by right].
      left. destruct s; [done|]. by rewrite last_cons_cons.
Qed.
Lemma compose_idem s : compose (compose s) = compose s.
Proof.
  induction s as [|c s IH]; [done|]. destruct (compose_case c s) as [Hc|(t & Ht & -> & ->)].
  - rewrite Hc. destruct (compose_case c (compose s)) as [->|(t & Ht & -> & _)]; [by rewrite IH|].
    exfalso. rewrite IH in Ht. cbn in Hc. rewrite Ht in Hc. cbn in Hc. discriminate.
  - rewrite compose_plain by done. f_equal. rewrite Ht in IH. rewrite compose_plain in IH by done. by injection IH.
Qed.

#[export] Instance composing_laws : NfcLaws.
Proof.
  split; unfold nfc, composing.
  - apply compose_idem.
  - induction s as [|c s IH]; intros Hs; [done|]. apply Forall_cons in Hs as [Hc Hs]. specialize (IH Hs).
    destruct (compose_case c s) as [->|(t & Ht & _ & ->)]; [by constructor|].
    rewrite Ht in IH. apply Forall_cons in IH as [_ IH]. by constructor.
  - intros s [Hh Hl]%trim_id. apply trim_id. split.
    + intros c Hc. destruct (compose_ends s) as [[He _]|(x & y & Hx & Hy & Hxy)]; [congruence|].
      rewrite Hy in Hc. injection Hc as <-. destruct Hxy as [<-|[_ ->]]; [by apply Hh|done].
    + intros c Hc. destruct (compose_last s c Hc) as [?| ->]; [by apply Hl|done].
  - induction s as [|c s IH]; intros Hs; [done|]. apply Forall_cons in Hs as [Hc Hs].
    destruct (compose_case c s) as [->|(t & Ht & _ & _)]; [by rewrite IH|].
    rewrite IH in Ht by done. subst s. apply Forall_cons in Hs as [Hs _]. lia.
  - intros s. by apply compose_plain.
Qed.

Lemma find_unique_path_spec_witness :
  let base := components (lit "/p/a.jpg") in
  let taken := [numbered base 1; numbered base 2] in
  find_unique_path (fun p => bool_decide (p ∈ taken)) base = Ok (components (lit "/p/a-003.jpg")) /\
  is_ok (find_unique_path (fun p => bool_decide (p ∈ taken)) base) = true.
Proof.
  split; [by vm_compute|].
  refine (proj2 (find_unique_path_spec (fun p => bool_decide (p ∈ _)) (components (lit "/p/a.jpg")))
    (list_to_set [numbered (components (lit "/p/a.jpg")) 1; numbered (components (lit "/p/a.jpg")) 2]) _ _).
  - intros p Hp. apply bool_decide_eq_true in Hp. by apply elem_of_list_to_set.
  - vm_compute. reflexivity.
Defined.

Lemma sanitize_filename_spec_witness :
  portable_name (lit "_con.x.jpg") /\
  sn_name (sanitize_filename (lit " con?.x.jpg/") true) = lit "_con.x.jpg".
Proof.
  split; [|by vm_compute].
  destruct (sanitize_filename_spec (lit " con?.x.jpg/") true) as [[H|H] _]; [by vm_compute in H|exact H].
Defined.

Lemma resolve_filename_spec_witness :
  resolve_filename (lit "..\x.tar.gz") true true = Ok (lit "..x.tar") /\
  push [RootDir] (components (lit "..x.tar" ++ lit "." ++ lit "gz")) = [RootDir] ++ [Normal (lit "..x.tar.gz")].
Proof.
  split; [by vm_compute|].
  destruct (resolve_filename_spec (lit "..\x.tar.gz") true true) as (H & _ & _).
  destruct (H (lit "..x.tar")) as (_ & _ & Hp); [by vm_compute|].
  apply (Hp (lit "gz") [RootDir]); [done|].
  apply (bool_decide_eq_false_1 (47 ∈ lit "gz")). reflexivity.
Defined.

Lemma sanitize_tag_spec_witness : sanitize_tag (sanitize_tag (lit "e" ++ [1; 769])) <> sanitize_tag (lit "e" ++ [1; 769]).
Proof.
  destruct (sanitize_tag_spec (lit "e" ++ [1; 769])) as (_ & _ & H).
  destruct (H eq_refl eq_refl) as [-> ->]. discriminate.
Defined.
