(* ===== verification/Parity.v ===== *)
(** * Parity: the published API description and the gate that compares it with
      the mounted routes ([backend/src/spec_path.rs], [openapi_public.rs],
      [openapi_parity.rs])

    The gate behind [--check-openapi] reads the committed document, enumerates
    its operations, and compares them with the routes the web server mounts.  The
    mounted routes, the text of the document and the features of the build are
    arguments; sets without an order are finite sets. *)

From S2P Require Import Prelude Errors Redb Sanitize.

(** ** [spec_path.rs] *)
Record Segment := mkSegment { seg_prefix : str; seg_template : str }.
Record Scan := mkScan { segments : list Segment; trailing : str }.

(** [find] of one character: what lies before and after its first occurrence. *)
Fixpoint split_at (c : N) (s : str) : option (str * str) :=
  match s with
  | [] => None
  | a :: s' => if a =? c then Some ([], s')
               else match split_at c s' with Some (x, y) => Some (a :: x, y) | None => None end
  end.
Definition trim_end_matches (c : N) (s : str) : str :=
  reverse ((fix go (r : str) := match r with a :: r' => if a =? c then go r' else r | [] => [] end) (reverse s)).

(** [path_of]: everything before the query. *)
Definition path_of (uri : str) : str := match split_at 63 uri with Some (p, _) => p | None => uri end.

(** The loop of [scan]; each turn consumes a declaration, so the length is fuel enough. *)
Fixpoint scan_loop (fuel : nat) (rest : str) : Scan :=
  match fuel with
  | 0%nat => mkScan [] rest
  | S fuel' =>
      match split_at 60 rest with
      | None => mkScan [] rest
      | Some (prefix, after) =>
          match split_at 62 after with
          | None => mkScan [] rest
          | Some (binding, rest') =>
              let s := scan_loop fuel' rest' in
              mkScan (mkSegment prefix (trim_end_matches 46 binding) :: segments s) (trailing s)
          end
      end
  end.
Definition scan (path : str) : Scan := scan_loop (length path) path.

Definition to_spec_path (uri : str) : str :=
  let s := scan (path_of uri) in
  concat ((fun seg => seg_prefix seg ++ lit "{" ++ seg_template seg ++ lit "}") <$> segments s) ++ trailing s.

(** ** [openapi_public.rs] *)
Definition TEST_ONLY_PATH_PREFIX : str := lit "/get/test/".
Definition CONTRACT_EXCLUSION_PREFIXES : list str := [TEST_ONLY_PATH_PREFIX; lit "/assets"].
Definition is_test_only_path (path : str) : bool := starts_with TEST_ONLY_PATH_PREFIX path.

(** [get_mut] of a key, and what is done there. *)
Definition at_key (k : str) (g : Json -> Json) (j : Json) : Json :=
  match j with
  | JObj fields => JObj ((fun '(k', v) => (k', if str_eqb k' k then g v else v)) <$> fields)
  | _ => j
  end.
Definition retain (keep : str -> bool) (j : Json) : Json :=
  match j with JObj fields => JObj (List.filter (fun kv => keep kv.1) fields) | _ => j end.
Definition probe_schemas : list str := lit <$> ["TestRecordProbe"; "DupeGroupMember"; "FileEntry"]%string.
Definition strip_test_only_endpoints (spec : Json) : Json :=
  at_key (lit "components") (at_key (lit "schemas") (retain (fun k => negb (existsb (str_eqb k) probe_schemas))))
    (at_key (lit "paths") (retain (fun k => negb (is_test_only_path k))) spec).

Definition entry_le (a b : str * Json) : Prop := str_leb a.1 b.1 = true.
#[export] Instance entry_le_dec a b : Decision (entry_le a b).
Proof. unfold entry_le. apply _. Defined.
Fixpoint sort_object_keys (value : Json) : Json :=
  match value with
  | JObj map_ => JObj (merge_sort entry_le (map (fun '(k, v) => (k, sort_object_keys v)) map_))
  | JArr items => JArr (map sort_object_keys items)
  | _ => value
  end.
(** [public_json] up to its pretty-printing, of the document the build generates. *)
Definition public_json (generated : Json) : Json := sort_object_keys (strip_test_only_endpoints generated).

(** ** [openapi_parity.rs] *)
Definition FEATURE_MARKER : str := lit "x-picasu-feature".
Inductive Method := Get_ | Put_ | Post_ | Delete_ | Options_ | Head_ | Trace_ | Connect_ | Patch_.
Definition method_str (m : Method) : str :=
  lit match m with
      | Get_ => "GET" | Put_ => "PUT" | Post_ => "POST" | Delete_ => "DELETE" | Options_ => "OPTIONS"
      | Head_ => "HEAD" | Trace_ => "TRACE" | Connect_ => "CONNECT" | Patch_ => "PATCH"
      end.
#[export] Instance Method_eq_dec : EqDecision Method.
Proof. solve_decision. Defined.
Definition all_methods : list Method := [Get_; Put_; Post_; Delete_; Options_; Head_; Trace_; Connect_; Patch_].
Definition method_of (s : str) : Method := default Get_ (List.find (fun m => str_eqb (method_str m) s) all_methods).
Lemma method_of_str m : method_of (method_str m) = m.
Proof. by destruct m. Qed.
#[export] Instance Method_countable : Countable Method := inj_countable' method_str method_of method_of_str.

Abbreviation Operation := (Method * str)%type.
Abbreviation Excused := (Operation * str)%type.

Record RouteSetReport := mkReport {
  undocumented : list Operation;
  unmounted : list Operation;
  excused : list Excused;
  routes_in_contract : nat;
  operations_in_contract : nat;
  outside_the_contract : nat;
  outside_mounted : list Operation;
  outside_documented : list Operation
}.
Definition is_clean (r : RouteSetReport) : bool := is_empty (undocumented r) && is_empty (unmounted r).

(** [sort_by_key(sort_key)]: by the verb as printed, then by the path. *)
Definition sort_key (o : Operation) : str * str := (method_str o.1, o.2).
Definition op_leb (a b : Operation) : bool :=
  let (va, pa) := sort_key a in let (vb, pb) := sort_key b in
  if str_eqb va vb then str_leb pa pb else str_leb va vb.
Definition op_le (a b : Operation) : Prop := op_leb a b = true.
#[export] Instance op_le_dec a b : Decision (op_le a b).
Proof. unfold op_le. apply _. Defined.
Definition excused_le (a b : Excused) : Prop := op_le a.1 b.1.
#[export] Instance excused_le_dec a b : Decision (excused_le a b).
Proof. unfold excused_le. apply _. Defined.

Definition is_outside_contract (path : str) (excluded_prefixes : list str) : bool :=
  existsb (fun prefix => starts_with prefix path) excluded_prefixes.
Definition excused_by (marker : option str) (enabled_features : list str) : option str :=
  feature ← marker; if negb (existsb (str_eqb feature) enabled_features) then Some feature else None.

Definition compare_route_set (mounted : gset Operation) (documented : gmap Operation (option str))
    (enabled_features excluded_prefixes : list str) : RouteSetReport :=
  let outside (o : Operation) := is_outside_contract o.2 excluded_prefixes in
  let outside_mounted := merge_sort op_le (List.filter outside (elements mounted)) in
  let outside_documented := merge_sort op_le (List.filter outside (map_to_list documented).*1) in
  let inside_mounted := List.filter (fun o => negb (outside o)) (elements mounted) in
  let inside_documented := List.filter (fun kv => negb (outside kv.1)) (map_to_list documented) in
  let undocumented := List.filter (fun o => negb (is_some (documented !! o))) inside_mounted in
  let absent := List.filter (fun kv => negb (bool_decide (kv.1 ∈ mounted))) inside_documented in
  let unmounted := omap (fun kv => match excused_by kv.2 enabled_features with None => Some kv.1 | Some _ => None end) absent in
  let excused := omap (fun kv => f ← excused_by kv.2 enabled_features; Some (kv.1, f)) absent in
  mkReport (merge_sort op_le undocumented) (merge_sort op_le unmounted) (merge_sort excused_le excused)
    (length inside_mounted) (length inside_documented)
    (length outside_mounted + length outside_documented) outside_mounted outside_documented.

(** The report as text. *)
Definition newline : str := [10].
Definition show_operation (o : Operation) : str := method_str o.1 ++ lit " " ++ o.2.
Definition section_ (singular plural predicate : string) (operations : list Operation) : str :=
  let noun := if (length operations =? 1)%nat then singular else plural in
  join_with newline
    ((show_N (N.of_nat (length operations)) ++ lit " " ++ lit noun ++ lit " " ++ lit predicate ++ lit ":")
     :: ((fun o => lit "  " ++ show_operation o) <$> operations)).
Definition render (r : RouteSetReport) : str :=
  join_with (newline ++ newline)
    ((if is_clean r then [show_N (N.of_nat (routes_in_contract r)) ++ lit " routes matched to spec."] else []) ++
     (if is_empty (undocumented r) then []
      else [section_ "mounted route" "mounted routes" "missing from the spec" (undocumented r)]) ++
     (if is_empty (unmounted r) then []
      else [section_ "documented operation" "documented operations" "no route mounts" (unmounted r)]) ++
     (if is_empty (excused r) then []
      else [join_with newline (lit "Waived feature-gated operations:" ::
              ((fun '(o, f) => lit "  - " ++ show_operation o ++ lit " (feature: " ++ f ++ lit ")") <$> excused r))]) ++
     (if is_empty (outside_mounted r) && is_empty (outside_documented r) then []
      else [join_with newline (lit "Excluded from OpenAPI contract:" ::
              ((fun o => lit "  - mounted " ++ show_operation o) <$> outside_mounted r) ++
              ((fun o => lit "  - documented " ++ show_operation o) <$> outside_documented r))])).

(** ** Reading the document *)
Definition spec_method (key : str) : result str Method :=
  let k := to_ascii_lowercase key in
  if str_eqb k (lit "get") then Ok Get_ else if str_eqb k (lit "post") then Ok Post_
  else if str_eqb k (lit "put") then Ok Put_ else if str_eqb k (lit "delete") then Ok Delete_
  else if str_eqb k (lit "options") then Ok Options_ else if str_eqb k (lit "head") then Ok Head_
  else if str_eqb k (lit "patch") then Ok Patch_ else if str_eqb k (lit "trace") then Ok Trace_
  else Err (lit "the spec declares unsupported HTTP method `" ++ k ++ lit "`").
Definition PATH_ITEM_FIELDS : list str :=
  lit <$> ["summary"; "description"; "servers"; "parameters"; "$ref"]%string.
(** [Value::get] of a key. *)
Definition value_get (k : str) (j : Json) : option Json := fields ← as_object j; jget k fields.
Definition feature_of (path key : str) (operation : Json) : result str (option str) :=
  match value_get FEATURE_MARKER operation with
  | None | Some JNull => Ok None
  | Some (JStr (c :: feature)) => Ok (Some (c :: feature))
  | Some _ => Err (path ++ lit " " ++ key ++ lit ": `" ++ FEATURE_MARKER ++ lit "` must be a non-empty feature name")
  end.
Fixpoint item_operations (path : str) (item : list (str * Json)) (operations : gmap Operation (option str))
  : result str (gmap Operation (option str)) :=
  match item with
  | [] => Ok operations
  | (key, operation) :: item' =>
      if existsb (str_eqb key) PATH_ITEM_FIELDS then item_operations path item' operations
      else
        method ← map_err (fun error => path ++ lit ": " ++ error) (spec_method key);
        feature ← feature_of path key operation;
        item_operations path item' (<[(method, path) := feature]> operations)
  end.
Fixpoint paths_operations (paths : list (str * Json)) (operations : gmap Operation (option str))
  : result str (gmap Operation (option str)) :=
  match paths with
  | [] => Ok operations
  | (path, item) :: paths' =>
      item ← ok_or (lit "`" ++ path ++ lit "` is not a path item object") (as_object item);
      operations ← item_operations path item operations;
      paths_operations paths' operations
  end.
Definition documented_operations (spec : Json) : result str (gmap Operation (option str)) :=
  paths ← ok_or (lit "the document has no `paths` object") (value_get (lit "paths") spec ≫= as_object);
  paths_operations paths ∅.

Definition hint : str := newline ++ lit "Run `just openapi-gen` to (re)generate it, or pass the path to the spec to check.".
Section Gate.
Context {Jc : JsonCodec}.
(** [text] is what [read_to_string] answers for the path. *)
Definition read_spec (path : str) (text : result str str) : result str Json :=
  text ← map_err (fun error => lit "cannot read the OpenAPI document at " ++ path ++ lit ": " ++ error ++ hint) text;
  ok_or (lit "cannot parse the OpenAPI document at " ++ path ++ lit ": " ++ hint) (json_parse text).

Definition KNOWN_FEATURES : list str := lit <$> ["default"; "observe"; "embed-frontend"; "auto-open-browser"]%string.
Definition enabled_features (built_with : str -> bool) : list str := List.filter built_with KNOWN_FEATURES.
(** The routes of the built server, with the verb and URI each was mounted under. *)
Definition mounted_operations (routes : list (Method * str)) : gset Operation :=
  list_to_set ((fun '(m, uri) => (m, to_spec_path uri)) <$> routes).
Definition check (built_with : str -> bool) (routes : list (Method * str)) (path : str) (text : result str str)
  : result str RouteSetReport :=
  document ← read_spec path text;
  documented ← documented_operations document;
  Ok (compare_route_set (mounted_operations routes) documented (enabled_features built_with)
        CONTRACT_EXCLUSION_PREFIXES).
(** The exit status of [--check-openapi]. *)
Definition run (built_with : str -> bool) (routes : list (Method * str)) (path : str) (text : result str str) : Z :=
  match check built_with routes path text with
  | Err _ => 2
  | Ok report => if is_clean report then 0 else 1
  end.
End Gate.

(** ** The comparison *)
#[export] Instance op_le_total : Total op_le.
Proof.
  intros [m p] [m' p']. unfold op_le, op_leb. cbn. unfold str_eqb. repeat case_bool_decide; try congruence;
    apply str_leb_total.
Qed.
#[export] Instance excused_le_total : Total excused_le.
Proof. intros a b. apply op_le_total. Qed.

Lemma kept_elem {A} (f : A -> bool) l x : x ∈ List.filter f l <-> x ∈ l /\ f x = true.
Proof. by rewrite !list_elem_of_In, filter_In. Qed.
Lemma existsb_eqb s l : existsb (str_eqb s) l = bool_decide (s ∈ l).
Proof.
  apply eq_true_iff_eq. rewrite bool_decide_eq_true, existsb_exists. setoid_rewrite str_eqb_eq.
  setoid_rewrite <-list_elem_of_In. naive_solver.
Qed.
Lemma excused_by_some m enabled f : excused_by m enabled = Some f <-> m = Some f /\ f ∉ enabled.
Proof.
  unfold excused_by. destruct m as [g|]; cbn; [|naive_solver]. rewrite existsb_eqb. case_bool_decide; cbn; naive_solver.
Qed.
Lemma nil_iff {A} (l : list A) : is_empty l = true <-> forall x, x ∉ l.
Proof.
  destruct l as [|x l]; cbn; split; try done; [by intros _ ? ?%elem_of_nil|]. intros H. exfalso. apply (H x). by left.
Qed.

Section Compare.
Variables (mounted : gset Operation) (documented : gmap Operation (option str)) (enabled excluded : list str).
Let report := compare_route_set mounted documented enabled excluded.
Definition inside (o : Operation) : Prop := is_outside_contract o.2 excluded = false.

Lemma inside_documented_elem o m :
  (o, m) ∈ List.filter (fun kv => negb (is_outside_contract kv.1.2 excluded)) (map_to_list documented) <->
  documented !! o = Some m /\ inside o.
Proof. unfold inside. rewrite kept_elem, elem_of_map_to_list. cbn. by rewrite negb_true_iff. Qed.
Lemma undocumented_elem o : o ∈ undocumented report <-> o ∈ mounted /\ inside o /\ documented !! o = None.
Proof.
  unfold report, compare_route_set, inside. cbn [undocumented]. rewrite merge_sort_Permutation, !kept_elem, elem_of_elements.
  rewrite !negb_true_iff. destruct (documented !! o); cbn; naive_solver.
Qed.
Lemma unmounted_elem o : o ∈ unmounted report <-> exists m, documented !! o = Some m /\ inside o /\ o ∉ mounted /\
  forall f, m = Some f -> f ∈ enabled.
Proof.
  unfold report, compare_route_set. cbn [unmounted]. rewrite merge_sort_Permutation, list_elem_of_omap. split.
  - intros ([o' m] & Hin & Hx). cbn [fst snd] in Hx. destruct (excused_by m enabled) as [f|] eqn:He; [done|]. injection Hx as ->.
    apply kept_elem in Hin as [Hin Hm]. apply inside_documented_elem in Hin as [Hd Hi]. cbn in Hm.
    apply negb_true_iff, bool_decide_eq_false in Hm. exists m. split_and!; try done. intros f ->.
    destruct (decide (f ∈ enabled)); [done|]. by rewrite (proj2 (excused_by_some (Some f) enabled f)) in He.
  - intros (m & Hd & Hi & Hm & Hf). exists (o, m). split.
    + apply kept_elem. split; [by apply inside_documented_elem|]. by apply negb_true_iff, bool_decide_eq_false.
    + cbn [fst snd]. destruct (excused_by m enabled) as [f|] eqn:He; [|done]. apply excused_by_some in He as [-> Hn]. by destruct Hn; apply Hf.
Qed.
Lemma excused_elem o f : (o, f) ∈ excused report <-> documented !! o = Some (Some f) /\ inside o /\ o ∉ mounted /\ f ∉ enabled.
Proof.
  unfold report, compare_route_set. cbn [excused]. rewrite merge_sort_Permutation, list_elem_of_omap. split.
  - intros ([o' m] & Hin & Hx). cbn [fst snd] in Hx. apply bind_Some in Hx as (g & He & [= -> ->]).
    apply excused_by_some in He as [-> Hn]. apply kept_elem in Hin as [Hin Hm]. apply inside_documented_elem in Hin as [Hd Hi].
    by apply negb_true_iff, bool_decide_eq_false in Hm.
  - intros (Hd & Hi & Hm & Hn). exists (o, Some f). split.
    + apply kept_elem. split; [by apply inside_documented_elem|]. by apply negb_true_iff, bool_decide_eq_false.
    + cbn. by rewrite existsb_eqb, bool_decide_eq_false_2.
Qed.
(** The agreement the gate asks for. *)
Definition agree : Prop :=
  (forall o, o ∈ mounted -> inside o -> is_Some (documented !! o)) /\
  forall o m, documented !! o = Some m -> inside o -> o ∈ mounted \/ exists f, m = Some f /\ f ∉ enabled.
Lemma clean_agree : is_clean report = true <-> agree.
Proof.
  unfold is_clean, agree. rewrite andb_true_iff, !nil_iff. setoid_rewrite undocumented_elem. setoid_rewrite unmounted_elem. split.
  - intros [H1 H2]. split.
    + intros o Ho Hi. destruct (documented !! o) eqn:Hd; [by eexists|]. by destruct (H1 o).
    + intros o m Hd Hi. destruct (decide (o ∈ mounted)) as [|Hm]; [by left|]. right.
      destruct m as [f|]; [|destruct (H2 o); exists None; by split_and!]. exists f. split; [done|]. intros Hf.
      destruct (H2 o). exists (Some f). split_and!; try done. by intros ? [= <-].
  - intros [H1 H2]. split.
    + intros o (Ho & Hi & Hn). destruct (H1 o Ho Hi) as [? Hx]. by rewrite Hn in Hx.
    + intros o (m & Hd & Hi & Hm & Hf). destruct (H2 o m Hd Hi) as [|(f & -> & Hn)]; [done|]. by apply Hn, Hf.
Qed.
End Compare.

Lemma nodup_kept {A} (f : A -> bool) l : NoDup l -> NoDup (List.filter f l).
Proof. rewrite !NoDup_ListNoDup. apply List.NoDup_filter. Qed.
Lemma nodup_keys_kept {A B} (f : A * B -> bool) l : NoDup l.*1 -> NoDup (List.filter f l).*1.
Proof.
  induction l as [|kv l IH]; [done|]. cbn [fmap list_fmap]. intros [Ha Hl]%NoDup_cons. cbn [List.filter].
  destruct (f kv); [|by apply IH]. cbn [fmap list_fmap]. apply NoDup_cons. split; [|by apply IH].
  intros (kv' & He & [Hin _]%kept_elem)%list_elem_of_fmap. apply Ha. rewrite He. by apply list_elem_of_fmap_2.
Qed.
Lemma nodup_keys_omap {A B C} (f : A * B -> option C) (g : C -> A) l : (forall kv y, f kv = Some y -> g y = kv.1) ->
  NoDup l.*1 -> NoDup (g <$> omap f l).
Proof.
  intros Hg. induction l as [|kv l IH]; [done|]. cbn [fmap list_fmap]. intros [Ha Hl]%NoDup_cons. cbn [omap list_omap].
  destruct (f kv) as [y|] eqn:Hf; [|by apply IH]. cbn [fmap list_fmap]. apply NoDup_cons. split; [|by apply IH].
  rewrite (Hg _ _ Hf). intros (z & Hz & (kv' & Hin & Hf')%list_elem_of_omap)%list_elem_of_fmap. apply Ha.
  rewrite Hz, (Hg _ _ Hf'). by apply list_elem_of_fmap_2.
Qed.
Lemma kept_split {A} (f : A -> bool) l : (length (List.filter (fun x => negb (f x)) l) + length (List.filter f l))%nat = length l.
Proof. induction l as [|x l IH]; cbn; [done|]. destruct (f x); cbn; lia. Qed.
Lemma kept_keys {A B} (f : A -> bool) (l : list (A * B)) : length (List.filter f l.*1) = length (List.filter (fun kv => f kv.1) l).
Proof. induction l as [|[a b] l IH]; cbn; [done|]. destruct (f a); cbn; congruence. Qed.

(** The comparison reports exactly the drift: mounted routes of the contract that
    the document lacks, documented operations of the contract that are not
    mounted and not excused by a feature this build has off, and those that are
    excused; each list is in order, and none lists an operation twice. *)
Theorem drift_is_exact mounted documented enabled excluded :
  let r := compare_route_set mounted documented enabled excluded in
  let inside o := is_outside_contract o.2 excluded = false in
  (forall o, o ∈ undocumented r <-> o ∈ mounted /\ inside o /\ documented !! o = None) /\
  (forall o, o ∈ unmounted r <-> exists m, documented !! o = Some m /\ inside o /\ o ∉ mounted /\
     forall f, m = Some f -> f ∈ enabled) /\
  (forall o f, (o, f) ∈ excused r <-> documented !! o = Some (Some f) /\ inside o /\ o ∉ mounted /\ f ∉ enabled) /\
  Sorted op_le (undocumented r) /\ Sorted op_le (unmounted r) /\ Sorted excused_le (excused r) /\
  NoDup (undocumented r) /\ NoDup (unmounted r) /\ NoDup (excused r).*1 /\
  (routes_in_contract r + length (outside_mounted r))%nat = size mounted /\
  (operations_in_contract r + length (outside_documented r))%nat = size documented.
Proof.
  cbn zeta. split_and!; [apply undocumented_elem|apply unmounted_elem|apply excused_elem|apply Sorted_merge_sort, _..| | | | |].
  all: unfold compare_route_set; cbn [undocumented unmounted excused routes_in_contract operations_in_contract outside_mounted outside_documented].
  - rewrite merge_sort_Permutation. apply nodup_kept, nodup_kept, NoDup_elements.
  - rewrite merge_sort_Permutation, <-(list_fmap_id (omap _ _)). apply nodup_keys_omap.
    + intros kv y. by destruct (excused_by _ _); [|intros [= <-]].
    + apply nodup_keys_kept, nodup_keys_kept, NoDup_fst_map_to_list.
  - rewrite merge_sort_Permutation. apply (nodup_keys_omap _ fst).
    + intros kv y (f & _ & [= <-])%bind_Some. done.
    + apply nodup_keys_kept, nodup_keys_kept, NoDup_fst_map_to_list.
  - rewrite merge_sort_Permutation. apply kept_split.
  - rewrite merge_sort_Permutation, kept_keys. etransitivity; [apply (kept_split (fun kv => is_outside_contract kv.1.2 excluded))|].
    apply length_map_to_list.
Qed.

Section Gate.
Context {Jc : JsonCodec}.
(** The status of the gate is 0 exactly when the document can be read and
    enumerated and agrees with the mounted routes up to the operations a disabled
    feature excuses and the paths outside the contract; it is 2 exactly when the
    document cannot be read or enumerated, and 1 otherwise. *)
Theorem gate_status built_with routes path text :
  let mounted := mounted_operations routes in
  let inside (o : Operation) := is_outside_contract o.2 CONTRACT_EXCLUSION_PREFIXES = false in
  let enumerated ops := exists t doc, text = Ok t /\ json_parse t = Some doc /\ documented_operations doc = Ok ops in
  (run built_with routes path text = 0%Z <-> exists ops, enumerated ops /\
     (forall o, o ∈ mounted -> inside o -> is_Some (ops !! o)) /\
     forall o m, ops !! o = Some m -> inside o -> o ∈ mounted \/
       exists f, m = Some f /\ (f ∈ KNOWN_FEATURES -> built_with f = false)) /\
  (run built_with routes path text = 2%Z <-> forall ops, ~ enumerated ops) /\
  run built_with routes path text ∈ [0%Z; 1%Z; 2%Z].
Proof.
  cbn zeta. unfold run, check, read_spec.
  assert (forall f, f ∉ enabled_features built_with <-> (f ∈ KNOWN_FEATURES -> built_with f = false)) as Hen.
  { intros f. unfold enabled_features. rewrite kept_elem. destruct (built_with f); naive_solver. }
  destruct text as [t|e]; cbn [map_err mbind result_bind ok_or].
  2: { split_and!; [split; [done|by intros (? & (? & ? & ? & _) & _)]|split; [by intros _ ? (? & ? & ? & _)|done]|set_solver]. }
  destruct (json_parse t) as [doc|] eqn:Hp; cbn [ok_or mbind result_bind].
  2: { split_and!; [split; [done|intros (? & (? & ? & ? & Hx & _) & _); congruence]|
         split; [intros _ ? (? & ? & ? & Hx & _); congruence|done]|set_solver]. }
  destruct (documented_operations doc) as [ops|e] eqn:Hd; cbn [mbind result_bind].
  2: { split_and!; [split; [done|intros (? & (? & ? & ? & ? & ?) & _); congruence]|
         split; [intros _ ? (? & ? & ? & ? & ?); congruence|done]|set_solver]. }
  pose proof (clean_agree (mounted_operations routes) ops (enabled_features built_with) CONTRACT_EXCLUSION_PREFIXES) as Hc.
  destruct (is_clean _).
  - split_and!; [|split; [done|]|set_solver].
    + split; [intros _|done]. destruct (proj1 Hc eq_refl) as [H1 H2]. exists ops. split; [by exists t, doc|]. split; [exact H1|].
      intros o m Ho Hi. destruct (H2 o m Ho Hi) as [|(f & -> & Hf)]; [by left|]. right. exists f. split; [done|by apply Hen].
    + intros Hn. destruct (Hn ops). by exists t, doc.
  - split_and!; [|split; [done|]|set_solver].
    + split; [done|]. intros (ops' & (t' & doc' & [= <-] & Hp' & Hd') & H1 & H2). exfalso.
      assert (ops' = ops) as -> by congruence. assert (false = true) as ?; [|done]. apply Hc. split; [exact H1|].
      intros o m Ho Hi. destruct (H2 o m Ho Hi) as [|(f & -> & Hf)]; [by left|]. right. exists f. split; [done|by apply Hen].
    + intros Hn. destruct (Hn ops). by exists t, doc.
Qed.
End Gate.

(** ** The published document *)
Fixpoint sorted_json (j : Json) : bool :=
  match j with
  | JObj fields => bool_decide (Sorted entry_le fields) && bool_decide (NoDup fields.*1) && forallb (fun '(_, v) => sorted_json v) fields
  | JArr items => forallb sorted_json items
  | _ => true
  end.
#[export] Instance entry_le_total : Total entry_le.
Proof. intros a b. apply str_leb_total. Qed.
Lemma str_leb_antisym a b : str_leb a b = true -> str_leb b a = true -> a = b.
Proof.
  revert b. induction a as [|x a IH]; intros [|y b]; cbn; try done. intros H1 H2.
  destruct (N.lt_trichotomy x y) as [Hl|[->|Hl]].
  - rewrite (proj2 (N.ltb_ge y x)), (proj2 (N.eqb_neq y x)) in H2 by lia. done.
  - rewrite N.ltb_irrefl, N.eqb_refl in H1, H2. f_equal. by apply IH.
  - rewrite (proj2 (N.ltb_ge x y)), (proj2 (N.eqb_neq x y)) in H1 by lia. done.
Qed.
Lemma str_leb_trans a b c : str_leb a b = true -> str_leb b c = true -> str_leb a c = true.
Proof.
  revert b c. induction a as [|x a IH]; intros [|y b] [|z c]; cbn; try done.
  rewrite !orb_true_iff, !andb_true_iff, !N.ltb_lt, !N.eqb_eq. intros [?|[-> H1]] [?|[-> H2]]; try (left; lia).
  right. split; [done|]. by eapply IH.
Qed.
#[export] Instance entry_le_trans : Transitive entry_le.
Proof. intros a b c. apply str_leb_trans. Qed.
Lemma key_value_unique (l : list (str * Json)) k v v' : NoDup l.*1 -> (k, v) ∈ l -> (k, v') ∈ l -> v = v'.
Proof.
  intros Hn H1 H2. apply list_elem_of_lookup in H1 as [i Hi]. apply list_elem_of_lookup in H2 as [j Hj].
  assert (i = j) as ->; [|congruence]. apply (NoDup_lookup l.*1 i j k Hn); by rewrite list_lookup_fmap, ?Hi, ?Hj.
Qed.
Lemma sort_sorted l : Sorted entry_le l -> NoDup l.*1 -> merge_sort entry_le l = l.
Proof.
  intros Hs Hn. apply (Sorted_unique_strong entry_le); [|apply Sorted_merge_sort, _|done|apply merge_sort_Permutation].
  intros [k v] [k' v'] H1 H2 Hle Hge. rewrite merge_sort_Permutation in H1.
  assert (k = k') as -> by by apply str_leb_antisym. f_equal. by eapply key_value_unique.
Qed.
Lemma sort_keys_id j : sorted_json j = true -> sort_object_keys j = j.
Proof.
  induction j as [| | | | |l IH|f IH] using json_induction; cbn [sorted_json sort_object_keys]; try done.
  - intros H. f_equal. induction IH as [|x l Hx _ IH]; [done|]. cbn in *. apply andb_true_iff in H as [H1 H2].
    by rewrite Hx, IH.
  - intros [[Hs%bool_decide_eq_true Hn%bool_decide_eq_true]%andb_true_iff Hv]%andb_true_iff.
    assert (map (fun '(k, v) => (k, sort_object_keys v)) f = f) as ->.
    { clear Hs Hn. induction IH as [|[k v] f Hx _ IH]; [done|]. cbn in *. apply andb_true_iff in Hv as [H1 H2].
      by rewrite Hx, IH. }
    by rewrite sort_sorted.
Qed.

(** Stripping keeps an object's order and its other entries. *)
Lemma sorted_kept (f : str * Json -> bool) l : Sorted entry_le l -> Sorted entry_le (List.filter f l).
Proof.
  intros H%Sorted_StronglySorted; [|apply _]. apply StronglySorted_Sorted.
  induction H as [|x l _ IH Hx]; cbn; [constructor|]. destruct (f x); [|done]. constructor; [done|].
  rewrite Forall_forall in *. intros y [Hy _]%kept_elem. by apply Hx.
Qed.
Lemma retain_sorted keep j : sorted_json j = true -> sorted_json (retain keep j) = true.
Proof.
  destruct j; try done. cbn [sorted_json retain].
  intros [[Hs%bool_decide_eq_true Hn%bool_decide_eq_true]%andb_true_iff Hv]%andb_true_iff.
  rewrite !andb_true_iff, !bool_decide_eq_true. split_and!; [by apply sorted_kept|by apply nodup_keys_kept|].
  rewrite forallb_forall in *. intros kv [Hin _]%filter_In. by apply Hv.
Qed.
Lemma at_key_sorted k g j : (forall v, sorted_json v = true -> sorted_json (g v) = true) ->
  sorted_json j = true -> sorted_json (at_key k g j) = true.
Proof.
  intros Hg. destruct j as [| | | | | |f]; try done. cbn [sorted_json at_key].
  intros [[Hs%bool_decide_eq_true Hn%bool_decide_eq_true]%andb_true_iff Hv]%andb_true_iff.
  set (f' := _ <$> f). assert (f'.*1 = f.*1) as Hk by (unfold f'; clear; induction f as [|[] f IH]; cbn; congruence).
  rewrite !andb_true_iff, !bool_decide_eq_true, Hk. split_and!; [|done|].
  - revert Hk. generalize f'. clear -Hs. intros f' Hk. revert f Hs Hk.
    induction f' as [|kv f' IH]; intros [|kv0 f] Hs; try done. cbn. intros [= H1 H2]. apply Sorted_inv in Hs as [Hs Hd].
    constructor; [by apply (IH f)|]. destruct f' as [|kv1 f'], f as [|kv2 f]; try done. constructor.
    apply HdRel_inv in Hd. injection H2 as H2 _. unfold entry_le in *. by rewrite H1, H2.
  - unfold f'. clear f' Hk Hs Hn. induction f as [|[k' v] f IH]; [done|]. cbn in *. apply andb_true_iff in Hv as [H1 H2].
    rewrite IH by done. destruct (str_eqb k' k); [by rewrite Hg|by rewrite H1].
Qed.
Lemma strip_sorted j : sorted_json j = true -> sorted_json (strip_test_only_endpoints j) = true.
Proof.
  intros H. unfold strip_test_only_endpoints. apply at_key_sorted; [intros v Hv; apply at_key_sorted; [|done]|apply at_key_sorted; [|done]];
    intros w; apply retain_sorted.
Qed.
Lemma get_at_key k g j : value_get k (at_key k g j) = g <$> value_get k j.
Proof.
  destruct j as [| | | | | |f]; try done. unfold value_get. cbn. induction f as [|[k' v] f IH]; [done|]. cbn.
  destruct (str_eqb k' k) eqn:Hk; rewrite ?Hk; [done|apply IH].
Qed.
Lemma get_at_other k k' g j : k <> k' -> value_get k (at_key k' g j) = value_get k j.
Proof.
  intros Hne. destruct j as [| | | | | |f]; try done. unfold value_get. cbn. induction f as [|[k0 v] f IH]; [done|]. cbn.
  destruct (str_eqb k0 k) eqn:Hk; [|apply IH]. apply str_eqb_eq in Hk as ->.
  destruct (str_eqb k k') eqn:Hk'; [by apply str_eqb_eq in Hk'|done].
Qed.
Lemma stripped_paths j : value_get (lit "paths") (strip_test_only_endpoints j) =
  retain (fun k => negb (is_test_only_path k)) <$> value_get (lit "paths") j.
Proof. unfold strip_test_only_endpoints. rewrite get_at_other by (by vm_compute). apply get_at_key. Qed.

Lemma at_key_twice k g j : (forall v, g (g v) = g v) -> at_key k g (at_key k g j) = at_key k g j.
Proof.
  intros Hg. destruct j as [| | | | | |f]; try done. cbn. f_equal. induction f as [|[k' v] f IH]; [done|]. cbn. rewrite IH.
  destruct (str_eqb k' k); [by rewrite Hg|done].
Qed.
Lemma at_key_swap k k' g g' j : k <> k' -> at_key k g (at_key k' g' j) = at_key k' g' (at_key k g j).
Proof.
  intros Hne. destruct j as [| | | | | |f]; try done. cbn. f_equal. induction f as [|[k0 v] f IH]; [done|]. cbn. rewrite IH.
  destruct (str_eqb k0 k) eqn:Hk, (str_eqb k0 k') eqn:Hk'; try done. apply str_eqb_eq in Hk as <-. by apply str_eqb_eq in Hk' as <-.
Qed.
Lemma retain_twice keep j : retain keep (retain keep j) = retain keep j.
Proof.
  destruct j as [| | | | | |f]; try done. cbn. f_equal. induction f as [|kv f IH]; [done|]. cbn.
  destruct (keep kv.1) eqn:Hk; [|done]. cbn. by rewrite Hk, IH.
Qed.
Lemma strip_twice j : strip_test_only_endpoints (strip_test_only_endpoints j) = strip_test_only_endpoints j.
Proof.
  unfold strip_test_only_endpoints. rewrite (at_key_swap (lit "paths") (lit "components")) by (by vm_compute).
  rewrite at_key_twice by (intros v; apply at_key_twice; intros w; apply retain_twice).
  rewrite at_key_twice; [done|]. intros v. apply retain_twice.
Qed.

(** Two tables of operations, one without the probes. *)
Definition without_probes (ops ops' : gmap Operation (option str)) : Prop :=
  forall m p, ops' !! (m, p) = if is_test_only_path p then None else ops !! (m, p).
Lemma item_probe path item ops ops1 ops' : is_test_only_path path = true -> without_probes ops ops' ->
  item_operations path item ops = Ok ops1 -> without_probes ops1 ops'.
Proof.
  intros Hp. revert ops. induction item as [|[key op] item IH]; cbn [item_operations]; intros ops Hw H; [by injection H as <-|].
  destruct (existsb _ _); [by eapply IH|]. apply bind_Ok in H as (m & _ & (f & _ & H)%bind_Ok).
  apply (IH _ ltac:(idtac) H) || (eapply IH; [|exact H]). intros m' p'. rewrite Hw.
  destruct (is_test_only_path p') eqn:Hp'; [done|]. rewrite lookup_insert_ne; [done|]. intros [= <- <-]. congruence.
Qed.
Lemma item_kept path item ops ops1 ops' : is_test_only_path path = false -> without_probes ops ops' ->
  item_operations path item ops = Ok ops1 -> exists ops1', item_operations path item ops' = Ok ops1' /\ without_probes ops1 ops1'.
Proof.
  intros Hp. revert ops ops'. induction item as [|[key op] item IH]; cbn [item_operations]; intros ops ops' Hw H;
    [injection H as <-; by exists ops'|].
  destruct (existsb _ _); [by eapply IH|]. apply bind_Ok in H as (m & -> & (f & -> & H)%bind_Ok). cbn [mbind result_bind].
  eapply IH; [|exact H]. intros m' p'. destruct (decide ((m, path) = (m', p'))) as [[= <- <-]|Hne].
  - by rewrite !lookup_insert_eq, Hp.
  - by rewrite !lookup_insert_ne, Hw.
Qed.
Lemma paths_without_probes paths ops ops1 ops' : without_probes ops ops' -> paths_operations paths ops = Ok ops1 ->
  exists ops1', paths_operations (List.filter (fun kv => negb (is_test_only_path kv.1)) paths) ops' = Ok ops1' /\
    without_probes ops1 ops1'.
Proof.
  revert ops ops'. induction paths as [|[path item] paths IH]; cbn [paths_operations List.filter fst]; intros ops ops' Hw H;
    [injection H as <-; by exists ops'|].
  apply bind_Ok in H as (fields & Hf & (ops2 & Hi & H)%bind_Ok).
  destruct (is_test_only_path path) eqn:Hp; cbn [negb paths_operations].
  - eapply IH; [|exact H]. by eapply item_probe.
  - rewrite Hf. cbn [mbind result_bind]. destruct (item_kept _ _ _ _ _ Hp Hw Hi) as (ops2' & -> & Hw2).
    cbn [mbind result_bind]. by eapply IH.
Qed.

(** The published document is the generated one without the probes: it documents
    exactly the operations whose path is not a probe's, under the same features,
    its objects are in order, and publishing it again changes nothing. *)
Theorem artifact_documents_public_operations generated ops : sorted_json generated = true ->
  documented_operations generated = Ok ops ->
  (exists ops', documented_operations (public_json generated) = Ok ops' /\
     forall m p, ops' !! (m, p) = if is_test_only_path p then None else ops !! (m, p)) /\
  sorted_json (public_json generated) = true /\
  public_json (public_json generated) = public_json generated.
Proof.
  intros Hs Hd. pose proof (strip_sorted _ Hs) as Hs'. unfold public_json. rewrite (sort_keys_id _ Hs'). split_and!; [|done|].
  - unfold documented_operations in *. rewrite stripped_paths. apply bind_Ok in Hd as (paths & Hp & Hd).
    destruct (value_get (lit "paths") generated) as [[| | | | | |fields]|]; try done. injection Hp as ->.
    cbn [fmap option_fmap option_map mbind option_bind as_object retain ok_or result_bind].
    eapply (paths_without_probes paths ∅ ops ∅); [|exact Hd]. intros m p. rewrite lookup_empty.
    by destruct (is_test_only_path p).
  - by rewrite strip_twice, (sort_keys_id _ Hs').
Qed.

(** ** Mounted paths *)
(** A route's path as it is declared: texts, each followed by a parameter with its
    dots, and a last text. *)
Definition declared (pieces : list (str * str * nat)) (last : str) : str :=
  concat ((fun '(text, name, dots) => text ++ lit "<" ++ name ++ replicate dots 46 ++ lit ">") <$> pieces) ++ last.
Definition documented_as (pieces : list (str * str * nat)) (last : str) : str :=
  concat ((fun '(text, name, dots) => text ++ lit "{" ++ name ++ lit "}") <$> pieces) ++ last.
Definition literal (s : str) : Prop := 60 ∉ s /\ 63 ∉ s.
Definition parameter (s : str) : Prop := 62 ∉ s /\ 63 ∉ s /\ last s <> Some 46.

Lemma split_at_first c a b : c ∉ a -> split_at c (a ++ c :: b) = Some (a, b).
Proof.
  induction a as [|x a IH]; cbn; intros H; [by rewrite N.eqb_refl|].
  rewrite (proj2 (N.eqb_neq x c)) by set_solver. rewrite IH by set_solver. done.
Qed.
Lemma split_at_none c a : c ∉ a -> split_at c a = None.
Proof.
  induction a as [|x a IH]; cbn; intros H; [done|].
  rewrite (proj2 (N.eqb_neq x c)) by set_solver. rewrite IH by set_solver. done.
Qed.
Lemma trim_dots c s n : last s <> Some c -> trim_end_matches c (s ++ replicate n c) = s.
Proof.
  intros Hl. unfold trim_end_matches. rewrite reverse_app, reverse_replicate.
  set (go := fix go (r : str) := _). assert (forall r, go (replicate n c ++ r) = go r) as ->.
  { intros r. induction n as [|n IH]; [done|]. cbn. by rewrite N.eqb_refl. }
  destruct (reverse s) as [|x r] eqn:Hr.
  - by rewrite <-(reverse_involutive s), Hr.
  - assert (last s = Some x) as Hx.
    { rewrite <-(reverse_involutive s), Hr, reverse_cons. apply last_snoc. }
    assert (go (x :: r) = x :: r) as ->.
    { cbn. by rewrite (proj2 (N.eqb_neq x c)) by congruence. }
    by rewrite <-Hr, reverse_involutive.
Qed.
Lemma declared_cons text name dots pieces final :
  declared ((text, name, dots) :: pieces) final = text ++ 60 :: (name ++ replicate dots 46) ++ 62 :: declared pieces final.
Proof. unfold declared. cbn [fmap list_fmap concat]. change (lit "<") with [60]. change (lit ">") with [62]. by simplify_list_eq. Qed.
Lemma scan_declared pieces final fuel : Forall (fun '(text, name, _) => literal text /\ parameter name) pieces -> literal final ->
  (length pieces <= fuel)%nat ->
  scan_loop fuel (declared pieces final) =
  mkScan ((fun '(text, name, _) => mkSegment text name) <$> pieces) final.
Proof.
  intros Hp Hf. revert fuel. induction Hp as [|[[text name] dots] pieces [[Ht _] (Hn & _ & Hl)] _ IH]; intros fuel Hfuel.
  - destruct fuel; cbn; [done|]. by rewrite split_at_none by apply Hf.
  - destruct fuel as [|fuel]; [cbn in Hfuel; lia|]. rewrite declared_cons. cbn [scan_loop].
    rewrite split_at_first by done. rewrite split_at_first.
    2: { intros [?|[Hx _]%elem_of_replicate]%elem_of_app; [done|discriminate Hx]. }
    rewrite IH by (cbn in Hfuel; lia). cbn. by rewrite trim_dots.
Qed.

(** A mounted path is compared in the form the document spells it: each declared
    parameter, with or without dots, becomes the template of its name, the text
    between stays as it is, and a query is dropped. *)
Theorem to_spec_path_spec pieces final query :
  Forall (fun '(text, name, _) => literal text /\ parameter name) pieces -> literal final ->
  query = [] \/ head query = Some 63 ->
  to_spec_path (declared pieces final ++ query) = documented_as pieces final.
Proof.
  intros Hp Hf Hq. unfold to_spec_path.
  assert (63 ∉ declared pieces final) as Hno.
  { clear Hq. induction Hp as [|[[text name] dots] pieces [[_ Ht] (_ & Hn & _)] _ IH]; [apply Hf|]. rewrite declared_cons.
    rewrite !elem_of_app, !elem_of_cons, !elem_of_app. rewrite elem_of_cons.
    intros [?|[?|[[?|[Hx _]%elem_of_replicate]|[?|?]]]]; try done; discriminate Hx. }
  assert (path_of (declared pieces final ++ query) = declared pieces final) as ->.
  { unfold path_of. destruct query as [|c query].
    - by rewrite app_nil_r, split_at_none.
    - destruct Hq as [?|[= ->]]; [done|]. by rewrite split_at_first. }
  unfold scan. rewrite scan_declared; [|done..|].
  - cbn [segments trailing]. unfold documented_as. f_equal. f_equal. rewrite <-list_fmap_compose. apply list_fmap_ext.
    by intros _ [[text name] dots] _.
  - clear. induction pieces as [|[[text name] dots] pieces IH]; [apply Nat.le_0_l|]. rewrite declared_cons, !length_app. cbn. rewrite !length_app. cbn. lia.
Qed.

(** ** Witnesses: one mounted route, one probe, one operation behind a feature *)
Module ParityWitness.
Definition operation : Json := JObj [].
Definition document : Json :=
  JObj [(lit "components", JObj [(lit "schemas", JObj [(lit "FileEntry", JNull); (lit "Photo", JNull)])]);
        (lit "paths", JObj
          [(lit "/albums/view/{path}", JObj [(lit "get", operation); (lit "summary", JStr (lit "s"))]);
           (lit "/get/test/{id}", JObj [(lit "get", operation)]);
           (lit "/{file}", JObj [(lit "get", JObj [(FEATURE_MARKER, JStr (lit "embed-frontend"))])])])].
Definition routes : list (Method * str) :=
  [(Get_, lit "/albums/view/<path..>?<page>"); (Get_, lit "/assets/<path..>")].
Definition codec : JsonCodec := {| json_parse _ := Some document; json_print _ := [] |}.
Definition text : result str str := Ok (lit "{}").
Definition pieces : list (str * str * nat) := [(lit "/albums/view/", lit "path", 2%nat)].
End ParityWitness.

Example gate_answers :
  run (Jc:=ParityWitness.codec) (fun _ => false) ParityWitness.routes (lit "openapi.json") ParityWitness.text = 0%Z /\
  run (Jc:=ParityWitness.codec) (fun _ => true) ParityWitness.routes (lit "openapi.json") ParityWitness.text = 1%Z /\
  run (Jc:=ParityWitness.codec) (fun _ => true) ParityWitness.routes (lit "openapi.json") (Err (lit "no such file")) = 2%Z.
Proof. by vm_compute. Qed.

Lemma artifact_documents_public_operations_witness : exists ops ops',
  documented_operations ParityWitness.document = Ok ops /\
  documented_operations (public_json ParityWitness.document) = Ok ops' /\
  ops' !! (Get_, lit "/albums/view/{path}") = ops !! (Get_, lit "/albums/view/{path}").
Proof.
  assert (is_ok (documented_operations ParityWitness.document) = true) as Hok by (vm_compute; reflexivity).
  assert (sorted_json ParityWitness.document = true) as Hs by (vm_compute; reflexivity).
  revert Hok Hs. generalize ParityWitness.document. intros document Hok Hs.
  destruct (documented_operations document) as [ops|e] eqn:Hd; [|discriminate].
  destruct (artifact_documents_public_operations document ops Hs Hd) as ((ops' & Hd' & Hl) & _).
  exists ops, ops'. split; [reflexivity|]. split; [exact Hd'|]. exact (Hl Get_ (lit "/albums/view/{path}")).
Defined.
Lemma to_spec_path_spec_witness :
  to_spec_path (lit "/albums/view/<path..>?<page>") = lit "/albums/view/{path}".
Proof.
  refine (to_spec_path_spec ParityWitness.pieces [] (lit "?<page>") _ _ _).
  - repeat constructor; apply (bool_decide_unpack _); vm_compute; exact I.
  - split; apply (bool_decide_unpack _); vm_compute; exact I.
  - right. reflexivity.
Defined.
