(* ===== verification/FileTree.v ===== *)
(** * FileTree: the files and directories the handlers work on

    What [std::fs] and [std::path] do, as far as the handlers use it: a tree of
    directories and regular files, without symbolic links.  A path is resolved
    component by component against the tree, relative ones from the working
    directory; every directory on the way must exist.  Each call may fail as the
    oracle of its running number says; a failed call changes nothing, except that a
    failed [remove_dir_all] may have removed any part of the directory. *)

From S2P Require Import Prelude Errors Paths Formats DirAlbum DataPages.

Inductive Node := Folder | Plain (bytes : list N).
#[export] Instance Node_eq_dec : EqDecision Node.
Proof. solve_decision. Defined.

Record Files := mkFiles { nodes : gmap Path Node; cwd : Path; calls : nat }.
Definition set_nodes n t := mkFiles n (cwd t) (calls t).
Definition called t := mkFiles (nodes t) (cwd t) (S (calls t)).

Inductive IoError := NotFound | OtherIo (why : str).
#[export] Instance IoError_eq_dec : EqDecision IoError.
Proof. solve_decision. Defined.
Definition io_text (e : IoError) : str :=
  match e with NotFound => lit "No such file or directory (os error 2)" | OtherIo why => why end.
Abbreviation io_result := (result IoError).

(** The outcome of the calls: the error of each that fails, and the entries a failed
    removal of a directory got to. *)
Class IoFaults := { io_fault : nat -> option str; got_removed : nat -> Path -> bool }.
#[global] Instance io_healthy : IoFaults | 100 := {| io_fault _ := None; got_removed _ _ := false |}.

Definition is_folder (nodes : gmap Path Node) (p : Path) : bool :=
  match nodes !! p with Some Folder => true | _ => false end.
(** Where a path leads, seen from the directory [at_]. *)
Fixpoint walk (nodes : gmap Path Node) (at_ p : Path) : option Path :=
  match p with
  | [] => Some at_
  | RootDir :: p' => walk nodes [RootDir] p'
  | CurDir :: p' => if is_folder nodes at_ then walk nodes at_ p' else None
  | ParentDir :: p' => if is_folder nodes at_ then walk nodes (pop at_) p' else None
  | Normal n :: p' => if is_folder nodes at_ then walk nodes (at_ ++ [Normal n]) p' else None
  end.
Definition resolve (p : Path) (t : Files) : option Path := walk (nodes t) (cwd t) p.
Definition node_at (p : Path) (t : Files) : option Node := q ← resolve p t; nodes t !! q.

(** [Path::exists], [is_dir] and [fs::canonicalize]; the empty path leads nowhere. *)
Definition exists_in (t : Files) (p : Path) : bool := negb (is_empty p) && is_some (node_at p t).
Definition is_dir (t : Files) (p : Path) : bool := negb (is_empty p) && bool_decide (node_at p t = Some Folder).
Definition fs_of (t : Files) : Fs := {|
  canonicalize p := if is_empty p then None else q ← resolve p t; if is_some (nodes t !! q) then Some q else None;
  exists_ p := exists_in t p
|}.

Section Calls.
Context {Io : IoFaults}.
Definition Call (A : Type) : Type := Files -> io_result A * Files.
(** One call: the oracle first, then the call itself. *)
Definition call {A} (body : Files -> io_result A * Files) : Call A := fun t =>
  match io_fault (calls t) with
  | Some why => (Err (OtherIo why), called t)
  | None => let '(r, t') := body t in (r, called t')
  end.

Definition read (p : Path) : Call (list N) :=
  call (fun t => match node_at p t with
    | Some (Plain bytes) => (Ok bytes, t)
    | Some Folder => (Err (OtherIo (lit "Is a directory (os error 21)")), t)
    | None => (Err NotFound, t)
    end).
Definition write (p : Path) (bytes : list N) : Call unit :=
  call (fun t => match resolve p t with
    | Some q =>
        if is_folder (nodes t) q then (Err (OtherIo (lit "Is a directory (os error 21)")), t)
        else (Ok tt, set_nodes (<[q := Plain bytes]> (nodes t)) t)
    | None => (Err NotFound, t)
    end).
Definition remove_file (p : Path) : Call unit :=
  call (fun t => match resolve p t with
    | Some q =>
        match nodes t !! q with
        | Some (Plain _) => (Ok tt, set_nodes (delete q (nodes t)) t)
        | Some Folder => (Err (OtherIo (lit "Is a directory (os error 21)")), t)
        | None => (Err NotFound, t)
        end
    | None => (Err NotFound, t)
    end).
Definition create_dir (p : Path) : Call unit :=
  call (fun t => match resolve p t with
    | Some q =>
        match nodes t !! q with
        | Some _ => (Err (OtherIo (lit "File exists (os error 17)")), t)
        | None => (Ok tt, set_nodes (<[q := Folder]> (nodes t)) t)
        end
    | None => (Err NotFound, t)
    end).

(** [create_dir_all] makes the missing directories from the top. *)
Fixpoint make_all (above : Path) (below : Path) (ns : gmap Path Node) : io_result unit * gmap Path Node :=
  match below with
  | [] => (if is_folder ns above then Ok tt else Err (OtherIo (lit "File exists (os error 17)")), ns)
  | c :: below' =>
      match ns !! above with
      | Some Folder =>
          let next := default above (walk ns above [c]) in
          make_all next below' (if is_some (ns !! next) then ns else <[next := Folder]> ns)
      | _ => (Err (OtherIo (lit "Not a directory (os error 20)")), ns)
      end
  end.
Definition create_dir_all (p : Path) : Call unit :=
  call (fun t =>
    let '(start, rest) := match p with RootDir :: p' => ([RootDir], p') | _ => (cwd t, p) end in
    let '(r, ns) := make_all start rest (nodes t) in (r, set_nodes ns t)).

Definition below (p q : Path) : bool := path_starts_with q p.
Definition remove_dir_all (p : Path) : Call unit := fun t =>
  match resolve p t with
  | Some q =>
      match nodes t !! q, io_fault (calls t) with
      | Some Folder, None =>
          (Ok tt, called (set_nodes (filter (fun kv => below q kv.1 = false) (nodes t)) t))
      | Some Folder, Some why =>
          (Err (OtherIo why),
           called (set_nodes (filter (fun kv => below q kv.1 && got_removed (calls t) kv.1 = false) (nodes t)) t))
      | Some (Plain _), _ => (Err (OtherIo (lit "Not a directory (os error 20)")), called t)
      | None, _ => (Err NotFound, called t)
      end
  | None => (Err NotFound, called t)
  end.

(** What lies at and below [src] is found at and below [dst], and what was at [dst] is gone. *)
Definition moved_key (src dst k : Path) : Path :=
  match path_strip_prefix src k with Some rel => dst ++ rel | None => k end.
Definition relocate (src dst : Path) (ns : gmap Path Node) : gmap Path Node :=
  list_to_map (prod_map (moved_key src dst) (fun v => v) <$>
    map_to_list (filter (fun kv => below dst kv.1 = false) ns)).
Definition is_occupied (q : Path) (ns : gmap Path Node) : bool :=
  existsb (fun k => below q k && negb (bool_decide (k = q))) (map_to_list ns).*1.
Definition rename (src dst : Path) : Call unit :=
  call (fun t => match resolve src t, resolve dst t with
    | Some s, Some d =>
        match nodes t !! s, nodes t !! d with
        | None, _ => (Err NotFound, t)
        | Some _, o =>
            if bool_decide (s = d) then (Ok tt, t)
            else if below s d then (Err (OtherIo (lit "Invalid argument (os error 22)")), t)
            else match nodes t !! s, o with
              | Some Folder, Some (Plain _) => (Err (OtherIo (lit "Not a directory (os error 20)")), t)
              | Some (Plain _), Some Folder => (Err (OtherIo (lit "Is a directory (os error 21)")), t)
              | Some Folder, Some Folder =>
                  if is_occupied d (nodes t) then (Err (OtherIo (lit "Directory not empty (os error 39)")), t)
                  else (Ok tt, set_nodes (relocate s d (nodes t)) t)
              | _, _ => (Ok tt, set_nodes (relocate s d (nodes t)) t)
              end
        end
    | _, _ => (Err NotFound, t)
    end).
End Calls.

(** [Path::with_extension("xmp")]. *)
Definition with_extension_xmp (p : Path) : Path :=
  match file_name p with
  | Some name => pop p ++ [Normal (file_stem name ++ lit ".xmp")]
  | None => p
  end.

(** ** The tree *)
(** Every entry lies in a directory, under its canonical name. *)
Record tree_ok (t : Files) : Prop := {
  tree_root : nodes t !! [RootDir] = Some Folder;
  tree_cwd : is_folder (nodes t) (cwd t) = true;
  tree_keys : forall k v, nodes t !! k = Some v -> exists names, k = RootDir :: (Normal <$> names);
  tree_parent : forall names n v, nodes t !! (RootDir :: (Normal <$> names) ++ [Normal n]) = Some v ->
    is_folder (nodes t) (RootDir :: (Normal <$> names)) = true
}.
Definition place (p : Path) : Prop := exists names, p = RootDir :: (Normal <$> names).

Lemma place_snoc p n : place p -> place (p ++ [Normal n]).
Proof. intros [names ->]. exists (names ++ [n]). by rewrite fmap_app. Qed.
Lemma place_pop p : place p -> place (pop p).
Proof.
  intros [names ->]. destruct names as [|n names _] using rev_ind; [by exists []|].
  rewrite fmap_app, app_comm_cons. change (Normal <$> [n]) with [Normal n].
  rewrite pop_snoc by done. by exists names.
Qed.
Lemma place_clean p : place p -> clean p /\ head p = Some RootDir.
Proof.
  intros [names ->]. split; [|done]. constructor; [done|]. apply Forall_fmap, Forall_true. done.
Qed.
Lemma walk_place ns p at_ q : place at_ -> walk ns at_ p = Some q -> place q.
Proof.
  revert at_. induction p as [|[] p IH]; intros at_ Hat; cbn [walk]; [by intros [= <-]|..].
  - apply IH. by exists [].
  - destruct (is_folder ns at_); [by apply IH|done].
  - destruct (is_folder ns at_); [by apply IH, place_pop|done].
  - destruct (is_folder ns at_); [by apply IH, place_snoc|done].
Qed.
Lemma is_folder_spec ns p : is_folder ns p = true <-> ns !! p = Some Folder.
Proof. unfold is_folder. by destruct (ns !! p) as [[]|]. Qed.
Lemma cwd_place t : tree_ok t -> place (cwd t).
Proof. intros H. pose proof (tree_cwd t H) as Hc%is_folder_spec. by apply (tree_keys t H) in Hc. Qed.
Lemma resolve_place t p q : tree_ok t -> resolve p t = Some q -> place q.
Proof. intros H. apply walk_place, cwd_place, H. Qed.

(** A canonical path whose entry exists resolves to itself. *)
Lemma walk_app ns p1 p2 at_ :
  walk ns at_ (p1 ++ p2) = (q ← walk ns at_ p1; walk ns q p2).
Proof. revert at_. induction p1 as [|[] p1 IH]; intros at_; cbn [walk app]; try done; try destruct (is_folder ns at_); auto. Qed.
Lemma resolve_parent t names n : tree_ok t -> is_folder (nodes t) (RootDir :: (Normal <$> names)) = true ->
  resolve (RootDir :: (Normal <$> names)) t = Some (RootDir :: (Normal <$> names)) ->
  resolve (RootDir :: (Normal <$> names ++ [n])) t = Some (RootDir :: (Normal <$> names ++ [n])).
Proof.
  intros _ Hf Hr. rewrite fmap_app, app_comm_cons. unfold resolve. rewrite walk_app.
  unfold resolve in Hr. rewrite Hr. cbn. by rewrite Hf.
Qed.
Lemma resolve_folder t names : tree_ok t -> is_folder (nodes t) (RootDir :: (Normal <$> names)) = true ->
  resolve (RootDir :: (Normal <$> names)) t = Some (RootDir :: (Normal <$> names)).
Proof.
  intros Ht. induction names as [|n names IH] using rev_ind; [done|]. intros Hf.
  assert (is_folder (nodes t) (RootDir :: (Normal <$> names)) = true) as Hp.
  { apply is_folder_spec in Hf. rewrite fmap_app in Hf. eapply (tree_parent t Ht); exact Hf. }
  apply resolve_parent; auto.
Qed.
Lemma resolve_entry t k v : tree_ok t -> nodes t !! k = Some v -> resolve k t = Some k.
Proof.
  intros Ht Hk. destruct (tree_keys t Ht k v Hk) as [names ->].
  destruct names as [|n names _] using rev_ind; [done|]. apply resolve_parent; [done|..].
  - eapply (tree_parent t Ht). rewrite fmap_app in Hk. exact Hk.
  - apply resolve_folder; [done|]. eapply (tree_parent t Ht). rewrite fmap_app in Hk. exact Hk.
Qed.

(** The tree gives the file system the path rules ask for. *)
Lemma fs_of_laws t : tree_ok t -> @FsLaws (fs_of t).
Proof.
  intros Ht. assert (H : forall p q, canonicalize (Fs:=fs_of t) p = Some q -> place q /\ exists_in t p = true).
  { intros p q Hc. cbn in Hc. unfold exists_in, node_at. destruct p as [|x p]; [done|]. cbn [is_empty negb andb] in *.
    destruct (resolve (x :: p) t) as [r|] eqn:Hr; cbn in Hc |- *; [|done].
    destruct (nodes t !! r); [|done]. injection Hc as <-. split; [by eapply resolve_place|done]. }
  split; intros p q [Hp He]%H; [..|done]; by apply place_clean.
Qed.

(** ** Renaming *)
Lemma below_spec p q : below p q = true <-> exists rest, q = p ++ rest.
Proof. unfold below. apply path_starts_with_spec. Qed.
Lemma below_app p r : below p (p ++ r) = true.
Proof. apply below_spec. by exists r. Qed.
Lemma below_refl p : below p p = true.
Proof. rewrite <-(app_nil_r p) at 2. apply below_app. Qed.
Lemma moved_key_in src dst r : moved_key src dst (src ++ r) = dst ++ r.
Proof. unfold moved_key. by rewrite path_app_prefix. Qed.
Lemma moved_key_out src dst k : below src k = false -> moved_key src dst k = k.
Proof.
  unfold moved_key, below, path_starts_with. by destruct (path_strip_prefix src k).
Qed.
Lemma below_case p k : (exists r, k = p ++ r) \/ below p k = false.
Proof. destruct (below p k) eqn:H; [left; by apply below_spec|by right]. Qed.

Lemma relocate_spec src dst ns k v : relocate src dst ns !! k = Some v <->
  exists k0, ns !! k0 = Some v /\ below dst k0 = false /\ moved_key src dst k0 = k.
Proof.
  unfold relocate. set (l := _ <$> _). assert (NoDup l.*1) as Hnd.
  { subst l. assert (forall m : list (Path * Node), (prod_map (moved_key src dst) (fun v => v) <$> m).*1
      = moved_key src dst <$> m.*1) as -> by (intros m; rewrite <-!list_fmap_compose; by apply list_fmap_ext).
    apply NoDup_fmap_2_strong; [|apply NoDup_fst_map_to_list].
    assert (Hin : forall x, x ∈ (map_to_list (filter (fun kv => below dst kv.1 = false) ns)).*1 -> below dst x = false).
    { intros x ([k' v'] & -> & Hx)%list_elem_of_fmap. by apply elem_of_map_to_list, map_lookup_filter_Some in Hx as [_ ?]. }
    intros x y Hx%Hin Hy%Hin. destruct (below_case src x) as [[r ->]|Hx'], (below_case src y) as [[r' ->]|Hy'];
      rewrite ?moved_key_in, ?moved_key_out by done; [by intros ->%app_inv_head|..|done].
    - intros <-. by rewrite below_app in Hy.
    - intros ->. by rewrite below_app in Hx. }
  rewrite <-elem_of_list_to_map by done. subst l. rewrite list_elem_of_fmap. split.
  - intros ([k0 v0] & [= -> ->] & Hin). apply elem_of_map_to_list, map_lookup_filter_Some in Hin as [H1 H2]. by exists k0.
  - intros (k0 & H1 & H2 & <-). exists (k0, v). split; [done|]. by apply elem_of_map_to_list, map_lookup_filter_Some.
Qed.

(** Renaming a regular file: it is at the new place, not at the old one, and
    everything else is where it was. *)
Lemma relocate_leaf src dst ns v :
  src <> dst -> ns !! src = Some v ->
  (forall k, below src k = true -> is_Some (ns !! k) -> k = src) ->
  (forall k, below dst k = true -> is_Some (ns !! k) -> k = dst) ->
  relocate src dst ns = <[dst := v]> (delete src ns).
Proof.
  intros Hne Hsrc Hs Hd. apply map_eq. intros k. apply option_eq. intros w. rewrite relocate_spec.
  rewrite lookup_insert_Some, lookup_delete_Some. split.
  - intros (k0 & Hk0 & Hb & <-). destruct (below_case src k0) as [[r ->]|Ho].
    + assert (src ++ r = src) as He by (apply Hs; [apply below_app|by eexists]).
      rewrite He in Hk0. rewrite moved_key_in. left. assert (r = []) as ->.
      { apply (f_equal length) in He. rewrite length_app in He. apply length_zero_iff_nil. lia. }
      rewrite app_nil_r. split; congruence.
    + rewrite moved_key_out by done. right. split_and!; [|..|done].
      * intros <-. by rewrite below_refl in Hb.
      * intros <-. by rewrite below_refl in Ho.
  - intros [[<- <-]|(Hkd & Hks & Hk)].
    + exists src. split_and!; [done| |].
      * destruct (below dst src) eqn:Hb; [|done]. destruct Hne. apply Hd; [done|by eexists].
      * rewrite <-(app_nil_r src) at 2. by rewrite moved_key_in, app_nil_r.
    + exists k. split_and!; [done| |].
      * destruct (below dst k) eqn:Hb; [|done]. destruct Hkd. symmetry. apply Hd; [done|by eexists].
      * apply moved_key_out. destruct (below src k) eqn:Hb; [|done]. destruct Hks. symmetry. apply Hs; [done|by eexists].
Qed.

(** ** What one entry changes *)
Definition same_folders (ns ns' : gmap Path Node) : Prop := forall p, is_folder ns p = is_folder ns' p.
Lemma walk_ext ns ns' at_ p : same_folders ns ns' -> walk ns at_ p = walk ns' at_ p.
Proof.
  intros H. revert at_. induction p as [|[] p IH]; intros at_; cbn [walk]; rewrite ?(H at_); auto;
    by destruct (is_folder ns' at_).
Qed.
Lemma folders_put ns k b : is_folder ns k = false -> same_folders ns (<[k := Plain b]> ns).
Proof.
  intros Hk p. unfold is_folder in *. destruct (decide (p = k)) as [->|]; [|by rewrite lookup_insert_ne].
  by rewrite lookup_insert_eq.
Qed.
Lemma folders_drop ns k : is_folder ns k = false -> same_folders ns (delete k ns).
Proof.
  intros Hk p. unfold is_folder in *. destruct (decide (p = k)) as [->|]; [|by rewrite lookup_delete_ne].
  by rewrite lookup_delete_eq.
Qed.
Lemma same_folders_trans a b c : same_folders a b -> same_folders b c -> same_folders a c.
Proof. intros H1 H2 p. by rewrite H1, H2. Qed.
Lemma same_folders_sym a b : same_folders a b -> same_folders b a.
Proof. intros H p. by rewrite H. Qed.

Lemma resolve_snoc p n t q : resolve (p ++ [Normal n]) t = Some q <->
  exists d, resolve p t = Some d /\ is_folder (nodes t) d = true /\ q = d ++ [Normal n].
Proof.
  unfold resolve. rewrite walk_app. destruct (walk (nodes t) (cwd t) p) as [d|]; cbn.
  - destruct (is_folder (nodes t) d) eqn:Hd; split.
    + intros [= <-]. by exists d.
    + by intros (? & [= <-] & _ & ->).
    + done.
    + intros (? & [= <-] & ? & _). congruence.
  - split; [done|]. by intros (? & ? & _).
Qed.

Lemma tree_ok_ext t t' : tree_ok t -> cwd t' = cwd t -> same_folders (nodes t) (nodes t') ->
  (forall k v, nodes t' !! k = Some v -> is_some (nodes t !! k) = true \/
     exists q n, k = q ++ [Normal n] /\ is_folder (nodes t) q = true) -> tree_ok t'.
Proof.
  intros Ht Hc Hf Hk. split.
  - apply is_folder_spec. rewrite <-Hf. apply is_folder_spec, Ht.
  - rewrite Hc, <-Hf. apply Ht.
  - intros k v Hv. destruct (Hk k v Hv) as [Ho|(q & n & -> & Hq)].
    + destruct (nodes t !! k) as [v0|] eqn:Hk0; [|done]. by apply (tree_keys t Ht) in Hk0.
    + apply is_folder_spec, (tree_keys t Ht) in Hq. by apply place_snoc.
  - intros names n v Hv. destruct (Hk _ v Hv) as [Ho|(q & m & He & Hq)].
    + destruct (nodes t !! _) as [v0|] eqn:Hk0; [|done]. rewrite <-Hf. by eapply (tree_parent t Ht).
    + rewrite app_comm_cons in He. apply app_inj_tail in He as [<- _]. by rewrite <-Hf.
Qed.
Lemma tree_ok_put t q n b : tree_ok t -> is_folder (nodes t) q = true ->
  is_folder (nodes t) (q ++ [Normal n]) = false -> tree_ok (set_nodes (<[q ++ [Normal n] := Plain b]> (nodes t)) t).
Proof.
  intros Ht Hq Hn. apply (tree_ok_ext t); [done|done|by apply folders_put|]. cbn.
  intros k v [[<- _]|[_ Hk]]%lookup_insert_Some; [right; eauto|left; by rewrite Hk].
Qed.
Lemma tree_ok_drop t k : tree_ok t -> is_folder (nodes t) k = false -> tree_ok (set_nodes (delete k (nodes t)) t).
Proof.
  intros Ht Hn. apply (tree_ok_ext t); [done|done|by apply folders_drop|]. cbn.
  intros j v [_ Hj]%lookup_delete_Some. left. by rewrite Hj.
Qed.
Lemma tree_ok_called t : tree_ok t -> tree_ok (called t).
Proof. intros []. by split. Qed.

(** Nothing lies below a path that is no directory. *)
Lemma leaf_alone t k k' : tree_ok t -> place k -> is_folder (nodes t) k = false ->
  below k k' = true -> is_Some (nodes t !! k') -> k' = k.
Proof.
  intros Ht [ks Hks] Hk [r ->]%below_spec [v Hv]. revert v Hv.
  induction r as [|c r IH] using rev_ind; intros v Hv; [by rewrite app_nil_r|].
  exfalso. rewrite app_assoc in Hv. destruct (tree_keys t Ht _ v Hv) as [names He].
  destruct names as [|n names _] using rev_ind.
  - rewrite Hks in He. cbn in He. injection He as He. by apply app_nil in He as [_ He].
  - rewrite fmap_app, app_comm_cons in He. apply app_inj_tail in He as [He ->].
    assert (is_folder (nodes t) (k ++ r) = true) as Hf.
    { rewrite He. eapply (tree_parent t Ht). rewrite He in Hv. exact Hv. }
    apply is_folder_spec in Hf. destruct r as [|y r']; [rewrite app_nil_r in Hf; apply is_folder_spec in Hf; congruence|].
    specialize (IH Folder Hf). rewrite <-(app_nil_r k) in IH at 2. by apply app_inv_head in IH.
Qed.

(** Renaming a file onto another place of a file, entry by entry. *)
Lemma rename_leaf {Io : IoFaults} t src dst qs d n b : tree_ok t -> io_fault (calls t) = None ->
  resolve src t = Some qs -> resolve dst t = Some (d ++ [Normal n]) -> is_folder (nodes t) d = true ->
  qs <> d ++ [Normal n] -> nodes t !! qs = Some (Plain b) -> is_folder (nodes t) (d ++ [Normal n]) = false ->
  rename src dst t = (Ok tt, called (set_nodes (<[d ++ [Normal n] := Plain b]> (delete qs (nodes t))) t)).
Proof.
  intros Ht Hio Hs Hd Hfd Hne Hsrc Hdst. unfold rename, call. rewrite Hio, Hs, Hd, Hsrc.
  assert (is_folder (nodes t) qs = false) as Hqs by (unfold is_folder; by rewrite Hsrc).
  pose proof (resolve_place t src qs Ht Hs) as Hps. pose proof (resolve_place t dst _ Ht Hd) as Hpd.
  rewrite bool_decide_false by done.
  assert (relocate qs (d ++ [Normal n]) (nodes t) = <[d ++ [Normal n] := Plain b]> (delete qs (nodes t))) as Hrel.
  { apply relocate_leaf; [done|done|..]; intros k; by apply leaf_alone. }
  destruct (below qs (d ++ [Normal n])) eqn:Hb.
  - exfalso. apply below_spec in Hb as [r He]. destruct r as [|c r _] using rev_ind; [by rewrite app_nil_r in He|].
    rewrite app_assoc in He. apply app_inj_tail in He as [-> _].
    assert (qs ++ r = qs) as He.
    { apply (leaf_alone t); [done..|apply below_app|]. apply is_folder_spec in Hfd. by eexists. }
    congruence.
  - destruct (nodes t !! (d ++ [Normal n])) as [[|w]|] eqn:Hqd; [|by rewrite Hrel..].
    unfold is_folder in Hdst. by rewrite Hqd in Hdst.
Qed.

(** ** New directories *)
Lemma tree_ok_mkdir t q n : tree_ok t -> is_folder (nodes t) q = true -> nodes t !! (q ++ [Normal n]) = None ->
  tree_ok (set_nodes (<[q ++ [Normal n] := Folder]> (nodes t)) t).
Proof.
  intros Ht Hq Hn.
  assert (Hf : forall p, is_folder (nodes t) p = true -> is_folder (<[q ++ [Normal n] := Folder]> (nodes t)) p = true).
  { intros p Hp. apply is_folder_spec, lookup_insert_Some. apply is_folder_spec in Hp. right. split; [congruence|done]. }
  pose proof Hq as Hplace. apply is_folder_spec, (tree_keys t Ht) in Hplace as [names ->]. split.
  - apply is_folder_spec, Hf, is_folder_spec, Ht.
  - by apply Hf, Ht.
  - cbn. intros k v [[<- _]|[_ Hk]]%lookup_insert_Some; [|by apply (tree_keys t Ht) in Hk].
    exists (names ++ [n]). by rewrite fmap_app.
  - cbn. intros ms m v [[He _]|[_ Hk]]%lookup_insert_Some; apply Hf; [|by apply (tree_parent t Ht) in Hk].
    rewrite !app_comm_cons in He. apply app_inj_tail in He as [<- _]. exact Hq.
Qed.

(** Directories are added, and nothing else. *)
Record grown (ns ns' : gmap Path Node) : Prop := {
  grown_kept : forall k v, ns !! k = Some v -> ns' !! k = Some v;
  grown_files : forall k b, ns' !! k = Some (Plain b) -> ns !! k = Some (Plain b)
}.
#[export] Instance grown_preorder : PreOrder grown.
Proof. split; [by split|]. intros a b c [H1 H2] [H3 H4]. split; auto. Qed.
Lemma grown_mkdir ns q : ns !! q = None -> grown ns (<[q := Folder]> ns).
Proof.
  intros Hq. split; [|by intros k b [[_ ?]|[_ ?]]%lookup_insert_Some].
  intros k v Hk. apply lookup_insert_Some. right. split; [congruence|done].
Qed.

(** The only entry that can be missing next to a directory has a name in it. *)
Lemma missing_next t above c : tree_ok t -> is_folder (nodes t) above = true ->
  nodes t !! default above (walk (nodes t) above [c]) = None ->
  exists n, c = Normal n /\ default above (walk (nodes t) above [c]) = above ++ [Normal n].
Proof.
  intros Ht Ha Hnx. pose proof Ha as Ha'. apply is_folder_spec in Ha'.
  destruct c; cbn [walk] in *; rewrite ?Ha in *; cbn [default] in *; unfold id in *.
  - rewrite (tree_root t Ht) in Hnx. done.
  - congruence.
  - exfalso. destruct (tree_keys t Ht _ _ Ha') as [names ->].
    destruct names as [|m names _] using rev_ind; [change (pop _) with [RootDir] in Hnx; by rewrite (tree_root t Ht) in Hnx|].
    rewrite fmap_app, app_comm_cons in *. change (Normal <$> [m]) with [Normal m] in *. rewrite pop_snoc in Hnx by done.
    apply (tree_parent t Ht), is_folder_spec in Ha'. congruence.
  - by eexists.
Qed.
Lemma make_all_grows t above rest r ns : tree_ok t -> is_folder (nodes t) above = true ->
  make_all above rest (nodes t) = (r, ns) -> tree_ok (set_nodes ns t) /\ grown (nodes t) ns.
Proof.
  revert t above. induction rest as [|c rest IH]; intros t above Ht Ha; cbn [make_all].
  { intros [= _ <-]. destruct t. by split. }
  pose proof Ha as Ha'. apply is_folder_spec in Ha'. rewrite Ha'. set (nx := default above _). intros Hm.
  destruct (nodes t !! nx) as [v|] eqn:Hnx; cbn [is_some] in Hm.
  - destruct v as [|b].
    + apply (IH t nx); [done| |done]. by apply is_folder_spec.
    + destruct rest as [|c' rest]; cbn [make_all] in Hm; rewrite ?Hnx in Hm; injection Hm as _ <-; destruct t; by split.
  - destruct (missing_next t above c) as (n & -> & Hn); [done..|]. fold nx in Hn.
    rewrite Hn in *. destruct (IH (set_nodes (<[above ++ [Normal n] := Folder]> (nodes t)) t) (above ++ [Normal n])) as [H1 H2].
    + by apply tree_ok_mkdir.
    + apply is_folder_spec. by apply lookup_insert_eq.
    + exact Hm.
    + split; [exact H1|]. etransitivity; [by apply grown_mkdir|exact H2].
Qed.
Lemma create_dir_all_grows {Io : IoFaults} p t r t' : tree_ok t -> create_dir_all p t = (r, t') ->
  tree_ok t' /\ cwd t' = cwd t /\ grown (nodes t) (nodes t').
Proof.
  intros Ht. unfold create_dir_all, call. destruct (io_fault (calls t)).
  { intros [= _ <-]. split; [by apply tree_ok_called|done]. }
  set (s := match p with RootDir :: p' => ([RootDir], p') | _ => (cwd t, p) end).
  assert (is_folder (nodes t) s.1 = true) as Hs.
  { assert (is_folder (nodes t) [RootDir] = true) by apply is_folder_spec, Ht. pose proof (tree_cwd t Ht).
    subst s. by destruct p as [|[] p]. }
  destruct s as [start rest]. destruct (make_all start rest (nodes t)) as [rm ns] eqn:Hm.
  apply make_all_grows in Hm as [H1 H2]; [|done..]. intros [= _ <-]. split; [by apply tree_ok_called|done].
Qed.
(** A path leads where it did when no directory is lost. *)
Lemma resolve_kept p t t' q : cwd t' = cwd t ->
  (forall f, is_folder (nodes t) f = true -> is_folder (nodes t') f = true) -> resolve p t = Some q -> resolve p t' = Some q.
Proof.
  unfold resolve. intros -> Hf. generalize (cwd t). induction p as [|[] p IH]; intros a; cbn [walk]; try done; [auto|..];
    (destruct (is_folder (nodes t) a) eqn:Ha; [rewrite (Hf _ Ha); auto|done]).
Qed.

(** ** One call at a time *)
Lemma resolve_same_folders p t t' : cwd t' = cwd t -> same_folders (nodes t) (nodes t') -> resolve p t' = resolve p t.
Proof. intros Hc H. unfold resolve. rewrite Hc. symmetry. by apply walk_ext. Qed.
Section Calls.
Context {Io_ : IoFaults}.

Lemma write_cases p bytes t r t' : write p bytes t = (r, t') ->
  (nodes t' = nodes t /\ cwd t' = cwd t /\ is_ok r = false) \/
  exists q, resolve p t = Some q /\ is_folder (nodes t) q = false /\ r = Ok tt /\
    t' = called (set_nodes (<[q := Plain bytes]> (nodes t)) t).
Proof.
  unfold write, call. destruct (io_fault (calls t)); [intros [= <- <-]; by left|].
  destruct (resolve p t) as [q|] eqn:Hq; [|intros [= <- <-]; by left].
  destruct (is_folder (nodes t) q) eqn:Hf; intros [= <- <-]; [by left|]. right. by exists q.
Qed.
Lemma remove_cases p t r t' : remove_file p t = (r, t') ->
  (nodes t' = nodes t /\ cwd t' = cwd t) \/
  exists q b, resolve p t = Some q /\ nodes t !! q = Some (Plain b) /\
    t' = called (set_nodes (delete q (nodes t)) t).
Proof.
  unfold remove_file, call. destruct (io_fault (calls t)); [intros [= <- <-]; by left|].
  destruct (resolve p t) as [q|] eqn:Hq; [|intros [= <- <-]; by left].
  destruct (nodes t !! q) as [[|b]|] eqn:Hb; intros [= <- <-]; [by left| |by left]. right. by exists q, b.
Qed.
Lemma tree_ok_same t t' : nodes t' = nodes t -> cwd t' = cwd t -> tree_ok t -> tree_ok t'.
Proof. intros Hn Hc []. by split; rewrite ?Hn, ?Hc. Qed.
(** A name in a directory resolves to an entry of the directory. *)
Lemma resolve_name dir n t q : resolve (dir ++ [Normal n]) t = Some q ->
  exists d, q = d ++ [Normal n] /\ is_folder (nodes t) d = true.
Proof. intros (d & _ & Hf & ->)%resolve_snoc. by exists d. Qed.

(** Renaming a file to a path where nothing is. *)
Lemma rename_to_free src dir n t qs b r t' : tree_ok t ->
  resolve src t = Some qs -> nodes t !! qs = Some (Plain b) -> exists_in t (dir ++ [Normal n]) = false ->
  rename src (dir ++ [Normal n]) t = (r, t') ->
  (nodes t' = nodes t /\ cwd t' = cwd t /\ is_ok r = false) \/
  exists q, resolve (dir ++ [Normal n]) t = Some q /\ nodes t !! q = None /\ r = Ok tt /\
    t' = called (set_nodes (<[q := Plain b]> (delete qs (nodes t))) t).
Proof.
  intros Ht Hs Hb Hfree Hren. destruct (io_fault (calls t)) as [why|] eqn:Hio.
  { unfold rename, call in Hren. rewrite Hio in Hren. injection Hren as <- <-. by left. }
  destruct (resolve (dir ++ [Normal n]) t) as [q|] eqn:Hq.
  - assert (nodes t !! q = None) as Hn.
    { unfold exists_in, node_at in Hfree. rewrite Hq in Hfree. cbn in Hfree.
      destruct (nodes t !! q); [|done]. by destruct dir. }
    destruct (resolve_name _ _ _ _ Hq) as (d & -> & Hf).
    erewrite rename_leaf in Hren; [|done..| | |].
    + injection Hren as <- <-. right. by eexists.
    + intros ->. congruence.
    + exact Hb.
    + unfold is_folder. by rewrite Hn.
  - unfold rename, call in Hren. rewrite Hio, Hs, Hq in Hren. injection Hren as <- <-. by left.
Qed.
(** Renaming a file to a name: what is there, if it is a file, gives way. *)
Lemma rename_plain src dir n t qs b r t' : tree_ok t -> resolve src t = Some qs -> nodes t !! qs = Some (Plain b) ->
  rename src (dir ++ [Normal n]) t = (r, t') ->
  (nodes t' = nodes t /\ cwd t' = cwd t) \/
  exists d, resolve (dir ++ [Normal n]) t = Some (d ++ [Normal n]) /\ is_folder (nodes t) d = true /\
    is_folder (nodes t) (d ++ [Normal n]) = false /\ qs <> d ++ [Normal n] /\
    t' = called (set_nodes (<[d ++ [Normal n] := Plain b]> (delete qs (nodes t))) t).
Proof.
  intros Ht Hs Hb Hren. destruct (io_fault (calls t)) as [why|] eqn:Hio.
  { unfold rename, call in Hren. rewrite Hio in Hren. injection Hren as _ <-. by left. }
  destruct (resolve (dir ++ [Normal n]) t) as [q|] eqn:Hq.
  2:{ unfold rename, call in Hren. rewrite Hio, Hs, Hq in Hren. injection Hren as _ <-. by left. }
  destruct (resolve_name _ _ _ _ Hq) as (d & -> & Hf). destruct (decide (qs = d ++ [Normal n])) as [->|Hne].
  { unfold rename, call in Hren. rewrite Hio, Hs, Hq, Hb, bool_decide_true in Hren by done. injection Hren as _ <-. by left. }
  destruct (is_folder (nodes t) (d ++ [Normal n])) eqn:Hd.
  - apply is_folder_spec in Hd. unfold rename, call in Hren. rewrite Hio, Hs, Hq, Hb, Hd, bool_decide_false in Hren by done.
    left. destruct (below qs _); injection Hren as _ <-; done.
  - erewrite rename_leaf in Hren; [|done..]. injection Hren as _ <-. right. by exists d.
Qed.
End Calls.

(** *** Which entries a step may have changed *)
(** Outside [own] the files are what they were; no directory is lost. *)
Record framed (own : Path -> Prop) (t t' : Files) : Prop := {
  framed_ok : tree_ok t';
  framed_cwd : cwd t' = cwd t;
  framed_folders : forall f, is_folder (nodes t) f = true -> is_folder (nodes t') f = true;
  framed_files : forall k b, ~ own k -> nodes t' !! k = Some (Plain b) <-> nodes t !! k = Some (Plain b)
}.
(** As a step: from a tree to a tree. *)
Definition frames (own : Path -> Prop) (t t' : Files) : Prop := tree_ok t -> framed own t t'.
#[export] Instance frames_preorder own : PreOrder (frames own).
Proof.
  split; [by intros t Ht; split|]. intros a b c H1 H2 Ht. destruct (H1 Ht) as [O1 C1 F1 K1]. destruct (H2 O1) as [O2 C2 F2 K2].
  split; [done|congruence|auto|]. intros k v Hk. by rewrite (K2 k v Hk), (K1 k v Hk).
Qed.
Lemma frames_same own t t' : nodes t' = nodes t -> cwd t' = cwd t -> frames own t t'.
Proof. intros Hn Hc Ht. split; [by apply (tree_ok_same t)|done|..]; intros; by rewrite Hn in *. Qed.
Lemma frames_weaken (own own' : Path -> Prop) t t' : (forall k, own k -> own' k) -> frames own t t' -> frames own' t t'.
Proof. intros Hw H Ht. destruct (H Ht) as [? ? ? Hk]. split; [done..|]. intros k b Hn. apply Hk. eauto. Qed.
Lemma frames_grown {Io : IoFaults} own p t : frames own t (create_dir_all p t).2.
Proof.
  intros Ht. destruct (create_dir_all p t) as [r t'] eqn:H. apply create_dir_all_grows in H as (Ho & Hc & Hg); [|done]. cbn.
  split; [done|done|..].
  - intros f Hf. apply is_folder_spec, (grown_kept _ _ Hg), is_folder_spec, Hf.
  - intros k b _. split; [apply (grown_files _ _ Hg)|apply (grown_kept _ _ Hg)].
Qed.
Lemma frames_put own t d n b : is_folder (nodes t) d = true -> is_folder (nodes t) (d ++ [Normal n]) = false ->
  own (d ++ [Normal n]) -> frames own t (called (set_nodes (<[d ++ [Normal n] := Plain b]> (nodes t)) t)).
Proof.
  intros Hd Hn Hown Ht. split; [by apply tree_ok_called, tree_ok_put|done|..]; cbn.
  - intros f. by rewrite <-(folders_put (nodes t) (d ++ [Normal n]) b Hn f).
  - intros k c Hk. rewrite lookup_insert_ne; [done|]. by intros <-.
Qed.
Lemma frames_drop own t q b : nodes t !! q = Some (Plain b) -> own q ->
  frames own t (called (set_nodes (delete q (nodes t)) t)).
Proof.
  intros Hq Hown Ht. assert (is_folder (nodes t) q = false) as Hf by (unfold is_folder; by rewrite Hq).
  split; [by apply tree_ok_called, tree_ok_drop|done|..]; cbn.
  - intros f. by rewrite <-(folders_drop (nodes t) q Hf f).
  - intros k c Hk. rewrite lookup_delete_ne; [done|]. by intros ->.
Qed.

Section Framed.
Context {Io_ : IoFaults}.
Variable own : Path -> Prop.
Lemma frames_write dir n bytes t : (forall q, resolve (dir ++ [Normal n]) t = Some q -> own q) ->
  frames own t (write (dir ++ [Normal n]) bytes t).2.
Proof.
  intros Hown. destruct (write _ bytes t) as [r t'] eqn:H. cbn.
  apply write_cases in H as [(Hn & Hc & _)|(q & Hq & Hf & _ & ->)]; [by apply frames_same|].
  destruct (resolve_name _ _ _ _ Hq) as (d & -> & Hd). by apply frames_put; [..|apply Hown].
Qed.
Lemma frames_remove p t : (forall q, resolve p t = Some q -> own q) -> frames own t (remove_file p t).2.
Proof.
  intros Hown. destruct (remove_file p t) as [r t'] eqn:H. cbn.
  apply remove_cases in H as [[Hn Hc]|(q & b & Hq & Hb & ->)]; [by apply frames_same|]. eapply frames_drop; [done|by apply Hown].
Qed.
Lemma frames_rename src dir n t qs b : resolve src t = Some qs -> nodes t !! qs = Some (Plain b) -> own qs ->
  (forall q, resolve (dir ++ [Normal n]) t = Some q -> own q) -> frames own t (rename src (dir ++ [Normal n]) t).2.
Proof.
  intros Hs Hb Hqs Hown Ht. destruct (rename src _ t) as [r t'] eqn:H. cbn.
  destruct (rename_plain _ _ _ _ _ _ _ _ Ht Hs Hb H) as [[Hn Hc]|(d & Hq & Hd & Hf & Hne & ->)]; [by apply frames_same|].
  assert (is_folder (nodes t) qs = false) as Hfs by (unfold is_folder; by rewrite Hb).
  pose proof (frames_drop own t qs b Hb Hqs) as H1. pose proof (folders_drop (nodes t) qs Hfs) as Hsf.
  assert (frames own (called (set_nodes (delete qs (nodes t)) t))
    (called (set_nodes (<[d ++ [Normal n] := Plain b]> (delete qs (nodes t))) (called (set_nodes (delete qs (nodes t)) t))))) as H2.
  { apply frames_put; [exact (eq_trans (eq_sym (Hsf d)) Hd)|exact (eq_trans (eq_sym (Hsf (d ++ [Normal n]))) Hf)|by apply Hown]. }
  destruct (transitivity H1 H2 Ht) as [O ? ? ?]. split; [by eapply tree_ok_same; [..|exact O]|done..].
Qed.
End Framed.

(** *** Names below a settled directory *)
Definition plain_name (s : str) : Prop := s <> [] /\ s <> lit "." /\ s <> lit ".." /\ 47 ∉ s.
Lemma walk_normals ns names : forall at_ q, walk ns at_ (Normal <$> names) = Some q -> q = at_ ++ (Normal <$> names).
Proof.
  induction names as [|n names IH]; intros at_ q; cbn; [intros [= <-]; by rewrite app_nil_r|].
  destruct (is_folder ns at_); [|done]. intros ->%IH. by rewrite <-app_assoc.
Qed.
Lemma resolve_normals names t q : resolve (RootDir :: (Normal <$> names)) t = Some q -> q = RootDir :: (Normal <$> names).
Proof. unfold resolve. cbn [walk]. by intros ->%walk_normals. Qed.

(** ** A concrete tree is checked entry by entry *)
Definition names_of (p : Path) : list str := omap (fun c => match c with Normal s => Some s | _ => None end) p.
Definition tree_okb (t : Files) : bool :=
  is_folder (nodes t) [RootDir] && is_folder (nodes t) (cwd t) &&
  forallb (fun kv : Path * Node => bool_decide (kv.1 = RootDir :: (Normal <$> names_of kv.1)) && is_folder (nodes t) (pop kv.1))
    (map_to_list (nodes t)).
Lemma tree_okb_ok t : tree_okb t = true -> tree_ok t.
Proof.
  unfold tree_okb. intros [[Hr Hc]%andb_true_iff Hall]%andb_true_iff. rewrite forallb_forall in Hall.
  assert (Hkey : forall k v, nodes t !! k = Some v -> k = RootDir :: (Normal <$> names_of k) /\ is_folder (nodes t) (pop k) = true).
  { intros k v Hk. specialize (Hall (k, v)). apply andb_true_iff in Hall as [H1 H2].
    - by apply bool_decide_eq_true in H1.
    - by apply list_elem_of_In, elem_of_map_to_list. }
  split; [by apply is_folder_spec|done|..].
  - intros k v [Hk _]%Hkey. by exists (names_of k).
  - intros names n v [_ Hk]%Hkey. by rewrite app_comm_cons, pop_snoc in Hk.
Qed.
