(* ===== verification/Xmp.v ===== *)
(** * Xmp: what is written into sidecars and read back
      ([backend/src/process/xmp.rs], [xmp_write.rs])

    Packets are parsed, changed and serialized by the third-party [xmpkit]: the class
    [XmpKit], whose laws say what its documentation promises about reading a property
    after setting it and about a packet parsed again.  The decoding of the managed
    fields and their encoding are this program's. *)

From S2P Require Import Prelude Errors Redb UserStore Paths Formats Model MetadataRecord DirAlbum IndexStore.
From S2P Require Import DirAlbumStore Tokens RouterAuth Accounts Snapshots.
From S2P Require Import DataPages FileTree Sanitize.

(** ** UTF-8 *)
Definition utf8_bytes (c : N) : list N :=
  if c <? 128 then [c]
  else if c <? 2048 then [192 + c / 64; 128 + c mod 64]
  else if c <? 65536 then [224 + c / 4096; 128 + c / 64 mod 64; 128 + c mod 64]
  else [240 + c / 262144; 128 + c / 4096 mod 64; 128 + c / 64 mod 64; 128 + c mod 64].
Definition utf8_encode (s : str) : list N := s ≫= utf8_bytes.
Definition is_scalar (c : N) : bool := (c <? 55296) || in_range 57344 1114111 c.
Definition continuation (b : N) : option N := if in_range 128 191 b then Some (b - 128) else None.
(** [str::from_utf8]: shortest forms of scalar values only. *)
Fixpoint utf8_decode (bytes : list N) : option str :=
  match bytes with
  | [] => Some []
  | b :: rest =>
      if b <? 128 then cons b <$> utf8_decode rest
      else if in_range 194 223 b then
        match rest with
        | b1 :: rest =>
            x1 ← continuation b1; cons ((b - 192) * 64 + x1) <$> utf8_decode rest
        | _ => None
        end
      else if in_range 224 239 b then
        match rest with
        | b1 :: b2 :: rest =>
            x1 ← continuation b1; x2 ← continuation b2;
            let c := (b - 224) * 4096 + x1 * 64 + x2 in
            if (2048 <=? c) && is_scalar c then cons c <$> utf8_decode rest else None
        | _ => None
        end
      else if in_range 240 244 b then
        match rest with
        | b1 :: b2 :: b3 :: rest =>
            x1 ← continuation b1; x2 ← continuation b2; x3 ← continuation b3;
            let c := (b - 240) * 262144 + x1 * 4096 + x2 * 64 + x3 in
            if (65536 <=? c) && is_scalar c then cons c <$> utf8_decode rest else None
        | _ => None
        end
      else None
  end.

Lemma cont_ok x : x < 64 -> continuation (128 + x) = Some x.
Proof.
  intros Hx. unfold continuation, in_range. rewrite !(proj2 (N.leb_le _ _)) by lia. cbn [andb]. f_equal. lia.
Qed.
Lemma mod64 x : x mod 64 < 64.
Proof. by apply N.mod_lt. Qed.
Lemma utf8_char c rest : is_scalar c = true -> utf8_decode (utf8_bytes c ++ rest) = cons c <$> utf8_decode rest.
Proof.
  intros Hc. assert (c <= 1114111) as Hmax.
  { unfold is_scalar, in_range in Hc. apply orb_true_iff in Hc as [Hc|Hc]; [apply N.ltb_lt in Hc; lia|].
    apply andb_true_iff in Hc as [_ Hc]. by apply N.leb_le. }
  unfold utf8_bytes.
  destruct (N.ltb_spec c 128); [cbn [utf8_decode app]; by rewrite (proj2 (N.ltb_lt c 128))|].
  pose proof (N.div_mod c 64 ltac:(done)) as D1. pose proof (mod64 c) as M1.
  pose proof (N.div_mod (c / 64) 64 ltac:(done)) as D2. pose proof (mod64 (c / 64)) as M2.
  pose proof (N.div_mod (c / 4096) 64 ltac:(done)) as D3. pose proof (mod64 (c / 4096)) as M3.
  assert (c / 64 / 64 = c / 4096) as E1 by (rewrite N.Div0.div_div; done).
  assert (c / 4096 / 64 = c / 262144) as E2 by (rewrite N.Div0.div_div; done).
  rewrite E1 in D2. rewrite E2 in D3. clear E1 E2.
  set (r1 := c mod 64) in *. set (r2 := (c / 64) mod 64) in *. set (r3 := (c / 4096) mod 64) in *.
  set (q1 := c / 64) in *. set (q2 := c / 4096) in *. set (q3 := c / 262144) in *.
  clearbody r1 r2 r3 q1 q2 q3.
  destruct (N.ltb_spec c 2048); [|destruct (N.ltb_spec c 65536)]; cbn [utf8_decode app].
  - rewrite (proj2 (N.ltb_ge _ 128)) by lia. unfold in_range. rewrite !(proj2 (N.leb_le _ _)) by lia. cbn [andb].
    rewrite cont_ok by done. cbn [mbind option_bind]. do 2 f_equal. lia.
  - rewrite (proj2 (N.ltb_ge _ 128)) by lia. unfold in_range at 1. rewrite (proj2 (N.leb_gt _ 223)), andb_false_r by lia.
    unfold in_range at 1. rewrite !(proj2 (N.leb_le _ _)) by lia. cbn [andb].
    rewrite !cont_ok by done. cbn [mbind option_bind].
    assert ((224 + q2 - 224) * 4096 + r2 * 64 + r1 = c) as -> by lia.
    by rewrite (proj2 (N.leb_le 2048 c)), Hc.
  - rewrite (proj2 (N.ltb_ge _ 128)) by lia. unfold in_range at 1. rewrite (proj2 (N.leb_gt _ 223)), andb_false_r by lia.
    unfold in_range at 1. rewrite (proj2 (N.leb_gt _ 239)), andb_false_r by lia.
    unfold in_range at 1. rewrite !(proj2 (N.leb_le _ _)) by lia. cbn [andb].
    rewrite !cont_ok by done. cbn [mbind option_bind].
    assert ((240 + q3 - 240) * 262144 + r3 * 4096 + r2 * 64 + r1 = c) as -> by lia.
    by rewrite (proj2 (N.leb_le 65536 c)), Hc.
Qed.
Lemma utf8_roundtrip s : Forall (fun c => is_scalar c = true) s -> utf8_decode (utf8_encode s) = Some s.
Proof.
  induction 1 as [|c s Hc _ IH]; [done|]. unfold utf8_encode. cbn [mbind list_bind].
  rewrite utf8_char by done. fold (utf8_encode s). by rewrite IH.
Qed.

(** ** Packets *)
Inductive XmpValue :=
| XString (s : str) | XArray (items : list XmpValue) | XBoolean (b : bool) | XInteger (z : Z)
| XOther (what : str).           (* the variants the program never looks into *)

Class XmpKit := {
  XmpMeta : Type;
  xmp_new : XmpMeta;
  xmp_parse : str -> result str XmpMeta;
  serialize_packet : XmpMeta -> result str str;
  get_property : XmpMeta -> str -> str -> option XmpValue;
  set_property : XmpMeta -> str -> str -> XmpValue -> result str XmpMeta;
  delete_property : XmpMeta -> str -> str -> result str XmpMeta;
  has_property : XmpMeta -> str -> str -> bool;
  set_localized_text : XmpMeta -> str -> str -> str -> str -> str -> result str XmpMeta;
  embedded : Path -> list N -> option XmpMeta;   (* [XmpFile::open] and [get_xmp] of a file with these bytes *)
  ns_dc : str; ns_xmp : str
}.
Definition NS_PICASU : str := lit "http://picasu.app/xmp/1.0/".

Definition parse_i32 (s : str) : option Z :=
  z ← parse_i64 s; if ((-2147483648 <=? z) && (z <=? 2147483647))%Z then Some z else None.

(** *** Reading ([xmp.rs]) *)
Definition tag_item (v : XmpValue) : option str :=
  match v with
  | XString s => let s := trim s in if is_empty s then None else Some s
  | _ => None
  end.
Definition tags_from_subject (value : option XmpValue) : gset str :=
  match value with
  | Some (XArray items) => list_to_set (omap tag_item items)
  | Some (XString s) => list_to_set (omap (fun p => tag_item (XString p)) (split_on 44 s))
  | _ => ∅
  end.
Definition text_from_property (value : option XmpValue) : option str :=
  text ← match value with
         | Some (XArray (XString s :: _)) => Some s
         | Some (XString s) => Some s
         | _ => None
         end;
  let trimmed := trim text in
  if is_empty trimmed then None else Some trimmed.
Definition rating_from_property (value : option XmpValue) : option N :=
  match value with
  | Some (XString raw) =>
      z ← parse_i32 (trim raw);
      if ((0 <=? z) && (z <=? 255))%Z then option_filter (fun r => r <=? 5) (Some (Z.to_N z)) else None
  | _ => None
  end.
Definition trashed_from_property (value : option XmpValue) : bool :=
  match value with
  | Some (XBoolean b) => b
  | Some (XString raw) =>
      let raw := trim raw in eq_ignore_ascii_case raw (lit "true") || str_eqb raw (lit "1")
  | Some (XInteger z) => negb (z =? 0)%Z
  | _ => false
  end.
Definition empty_xmp : XmpData := mkXmp ∅ None None None false.

Section Xmp.
Context {Xk : XmpKit}.

Definition normalize (m : XmpMeta) : XmpData :=
  mkXmp (tags_from_subject (get_property m ns_dc (lit "subject")))
    (text_from_property (get_property m ns_dc (lit "description")))
    (rating_from_property (get_property m ns_xmp (lit "Rating")))
    (text_from_property (get_property m ns_dc (lit "title")))
    (trashed_from_property (get_property m NS_PICASU (lit "Trashed"))).
Definition extract_xmp_data_from_packet (bytes : list N) : XmpData :=
  match utf8_decode bytes with
  | Some text => match xmp_parse text with Ok m => normalize m | Err _ => empty_xmp end
  | None => empty_xmp
  end.
Definition discover_sidecar (t : Files) (p : Path) : option Path :=
  let sidecar := with_extension_xmp p in if exists_in t sidecar then Some sidecar else None.
Definition extract_xmp_data_from_file {Io : IoFaults} (p : Path) (t : Files) : XmpData * Files :=
  match discover_sidecar t p with
  | Some sidecar =>
      let '(r, t) := read sidecar t in
      (match r with Ok bytes => extract_xmp_data_from_packet bytes | Err _ => empty_xmp end, t)
  | None =>
      let '(r, t) := read p t in
      (match (bytes ← result_ok r; embedded p bytes) with Some m => normalize m | None => empty_xmp end, t)
  end.

(** *** Writing ([xmp_write.rs]) *)
Inductive TitleEdit := Unmanaged | SetTitle (title : option str).
Definition sanitize_value (s : str) : str := filter (fun c => is_valid_xml_char c = true) s.
Definition xmp_error_to_io {A} (r : result str A) : io_result A :=
  map_err (fun e => OtherIo (lit "xmpkit: " ++ e)) r.
Definition subjects (tags : gset str) : list str :=
  merge_sort text_le (filter (fun t => is_empty t = false) (sanitize_value <$> elements tags)).
Definition set_or_remove_alt (namespace property : str) (value : option str) (m : XmpMeta)
  : io_result XmpMeta :=
  m ← xmp_error_to_io (delete_property m namespace property);
  match option_filter (fun v => negb (is_empty v)) (sanitize_value <$> value) with
  | Some v => xmp_error_to_io (set_localized_text m namespace property [] (lit "x-default") v)
  | None => Ok m
  end.
Definition apply_managed_fields (tags : gset str) (description : option str) (rating : option N)
    (title : TitleEdit) (trashed : bool) (m : XmpMeta) : io_result XmpMeta :=
  let subject := subjects tags in
  m ← xmp_error_to_io (if is_empty subject then delete_property m ns_dc (lit "subject")
                       else set_property m ns_dc (lit "subject") (XArray (XString <$> subject)));
  m ← set_or_remove_alt ns_dc (lit "description") description m;
  m ← match title with Unmanaged => Ok m | SetTitle v => set_or_remove_alt ns_dc (lit "title") v m end;
  m ← xmp_error_to_io (match rating with
                       | Some r => set_property m ns_xmp (lit "Rating") (XString (show_N r))
                       | None => delete_property m ns_xmp (lit "Rating")
                       end);
  if trashed then xmp_error_to_io (set_property m NS_PICASU (lit "Trashed") (XBoolean true))
  else if has_property m NS_PICASU (lit "Trashed")
       then xmp_error_to_io (delete_property m NS_PICASU (lit "Trashed"))
       else Ok m.

(** The sidecar of an item, and what is done with its title. *)
Definition albuminfo (dir : str) : Path := push (components dir) [Normal (lit ".albuminfo.xmp")].
Definition sidecar_path (d : AbstractData) : option Path :=
  match d with
  | Album a => Some (albuminfo (dir_path (alb_metadata a)))
  | _ => (fun e => with_extension_xmp (components (file e))) <$> path d
  end.
Definition title_edit (d : AbstractData) : TitleEdit :=
  match d with Album a => SetTitle (custom_title (alb_metadata a)) | _ => Unmanaged end.
Definition new_content (d : AbstractData) (old : XmpMeta) : io_result (list N) :=
  m ← apply_managed_fields (tag d) (get_description d) (get_rating d) (title_edit d) (is_trashed d) old;
  utf8_encode <$> xmp_error_to_io (serialize_packet m).
(** [load_sidecar], of what reading the file answered. *)
Definition loaded (r : io_result (list N)) : io_result XmpMeta :=
  match r with
  | Ok bytes =>
      match utf8_decode bytes with
      | Some text => match xmp_parse text with Ok m => Ok m | Err _ => Ok xmp_new end
      | None => Ok xmp_new
      end
  | Err NotFound => Ok xmp_new
  | Err e => Err e
  end.

Context {Io : IoFaults}.
Definition tmp_name (target : Path) : Path :=
  push (default [CurDir] (parent target))
    [Normal (lit "." ++ default (lit "xmp") (file_name target) ++ lit ".tmp")].
(** [write_sidecar_content] and [write_bytes_atomically]. *)
Definition write_bytes_atomically (target : Path) (bytes : list N) : Call unit := fun t =>
  match write (tmp_name target) bytes t with
  | (Ok _, t) => rename (tmp_name target) target t
  | (Err e, t) => (Err e, t)
  end.
Definition write_sidecar_for (d : AbstractData) : Call unit := fun t =>
  match sidecar_path d with
  | None => (Ok tt, t)
  | Some sidecar =>
      let '(r, t) := read sidecar t in
      match (m ← loaded r; new_content d m) with
      | Ok content => write_bytes_atomically sidecar content t
      | Err e => (Err e, t)
      end
  end.
End Xmp.

(** ** Writing through a temporary file *)
Definition tmp_of (n : str) : str := lit "." ++ n ++ lit ".tmp".
Lemma tmp_of_ne n : tmp_of n <> n.
Proof. intros H%(f_equal length). unfold tmp_of in H. rewrite !length_app in H. cbn in H. lia. Qed.
Lemma tmp_name_snoc dir n : tmp_name (dir ++ [Normal n]) = dir ++ [Normal (tmp_of n)].
Proof. unfold tmp_name, parent, file_name. rewrite rev_unit. cbn. by rewrite rev_involutive. Qed.

Section Atomic.
Context {Io : IoFaults}.

Lemma write_snoc t dir n bytes r t' : tree_ok t -> write (dir ++ [Normal n]) bytes t = (r, t') ->
  match r with
  | Ok _ => exists d, resolve dir t = Some d /\ is_folder (nodes t) d = true /\
      is_folder (nodes t) (d ++ [Normal n]) = false /\
      t' = called (set_nodes (<[d ++ [Normal n] := Plain bytes]> (nodes t)) t)
  | Err _ => t' = called t
  end.
Proof.
  intros Ht. unfold write, call. destruct (io_fault (calls t)); [by intros [= <- <-]|].
  destruct (resolve (dir ++ [Normal n]) t) as [q|] eqn:Hq; [|by intros [= <- <-]].
  apply resolve_snoc in Hq as (d & Hd & Hf & ->).
  destruct (is_folder (nodes t) (d ++ [Normal n])) eqn:Hn; intros [= <- <-]; [done|]. by exists d.
Qed.

Lemma atomically_spec t dir n bytes r t' : tree_ok t ->
  write_bytes_atomically (dir ++ [Normal n]) bytes t = (r, t') ->
  match r with
  | Ok _ => exists d, resolve dir t = Some d /\ is_folder (nodes t) d = true /\
      is_folder (nodes t) (d ++ [Normal n]) = false /\ is_folder (nodes t) (d ++ [Normal (tmp_of n)]) = false /\
      nodes t' = <[d ++ [Normal n] := Plain bytes]> (delete (d ++ [Normal (tmp_of n)]) (nodes t))
  | Err _ => nodes t' = nodes t \/ exists d, resolve dir t = Some d /\ is_folder (nodes t) d = true /\
      is_folder (nodes t) (d ++ [Normal (tmp_of n)]) = false /\
      nodes t' = <[d ++ [Normal (tmp_of n)] := Plain bytes]> (nodes t)
  end /\ cwd t' = cwd t.
Proof.
  intros Ht. unfold write_bytes_atomically. rewrite tmp_name_snoc.
  destruct (write _ _ t) as [w t1] eqn:Hw. pose proof (write_snoc _ _ _ _ _ _ Ht Hw) as Hw'.
  destruct w as [[]|e]; [|intros [= <- <-]; subst t1; by split; [left|]].
  destruct Hw' as (d & Hd & Hf & Hn & ->). set (t1 := called _).
  assert (tree_ok t1) as Ht1 by (apply tree_ok_called, tree_ok_put; done).
  assert (same_folders (nodes t) (nodes t1)) as Hsame by (by apply folders_put).
  assert (Hres : forall p, resolve p t1 = resolve p t) by (intros p; symmetry; by apply walk_ext).
  assert (resolve (dir ++ [Normal (tmp_of n)]) t1 = Some (d ++ [Normal (tmp_of n)])) as Hsrc.
  { rewrite Hres. apply resolve_snoc. eauto. }
  assert (resolve (dir ++ [Normal n]) t1 = Some (d ++ [Normal n])) as Hdst.
  { rewrite Hres. apply resolve_snoc. eauto. }
  assert (d ++ [Normal (tmp_of n)] <> d ++ [Normal n]) as Hne.
  { intros [= []%tmp_of_ne]%app_inv_head. }
  assert (nodes t1 !! (d ++ [Normal (tmp_of n)]) = Some (Plain bytes)) as Hplain by apply lookup_insert_eq.
  destruct (io_fault (calls t1)) as [why|] eqn:Hio.
  { unfold rename, call. rewrite Hio. intros [= <- <-]. split; [|done]. right. exists d. by split_and!. }
  destruct (is_folder (nodes t1) (d ++ [Normal n])) eqn:Htgt.
  - unfold rename, call. rewrite Hio, Hsrc, Hdst, Hplain, bool_decide_false by done.
    apply is_folder_spec in Htgt. rewrite Htgt. destruct (below _ _); intros [= <- <-];
      (split; [|done]; right; exists d; by split_and!).
  - rewrite (rename_leaf t1 _ _ _ d n bytes Ht1 Hio Hsrc Hdst); [|by rewrite <-Hsame|done..].
    intros [= <- <-]. split; [|done]. exists d. split_and!; [done|done|by rewrite Hsame|done|].
    cbn. by rewrite delete_insert_eq.
Qed.

Lemma atomically_ok t dir n bytes d : tree_ok t -> io_fault (calls t) = None -> io_fault (S (calls t)) = None ->
  resolve dir t = Some d -> is_folder (nodes t) d = true -> is_folder (nodes t) (d ++ [Normal n]) = false ->
  is_folder (nodes t) (d ++ [Normal (tmp_of n)]) = false ->
  exists t', write_bytes_atomically (dir ++ [Normal n]) bytes t = (Ok tt, t') /\ calls t' = S (S (calls t)).
Proof.
  intros Ht Hio Hio' Hd Hf Hn Hm. unfold write_bytes_atomically. rewrite tmp_name_snoc.
  assert (resolve (dir ++ [Normal (tmp_of n)]) t = Some (d ++ [Normal (tmp_of n)])) as Hsrc by (apply resolve_snoc; eauto).
  unfold write, call. rewrite Hio, Hsrc, Hm.
  set (t1 := called _). assert (tree_ok t1) as Ht1 by (apply tree_ok_called, tree_ok_put; done).
  assert (same_folders (nodes t) (nodes t1)) as Hsame by (by apply folders_put).
  assert (Hres : forall p, resolve p t1 = resolve p t) by (intros p; symmetry; by apply walk_ext).
  rewrite (rename_leaf t1 _ _ (d ++ [Normal (tmp_of n)]) d n bytes Ht1); rewrite ?Hres; try done.
  - by eexists.
  - apply resolve_snoc; eauto.
  - by rewrite <-Hsame.
  - intros [= []%tmp_of_ne]%app_inv_head.
  - apply lookup_insert_eq.
  - by rewrite <-Hsame.
Qed.
End Atomic.

(** ** Reading back what was written *)
(** Text an XML parser gives back up to white space at its ends. *)
Definition printable (s : str) : Prop := Forall (fun c => is_valid_xml_char c = true) s /\ 13 ∉ s /\ trim s <> [].
Definition same_trim (s s' : str) : Prop := trim s' = trim s.
Inductive printable_value : XmpValue -> Prop :=
| pv_string s : printable s -> printable_value (XString s)
| pv_array l : l <> [] -> Forall printable l -> printable_value (XArray (XString <$> l))
| pv_boolean b : printable_value (XBoolean b).
Inductive rereads : XmpValue -> XmpValue -> Prop :=
| rr_string s s' : same_trim s s' -> rereads (XString s) (XString s')
| rr_array l l' : Forall2 same_trim l l' -> rereads (XArray (XString <$> l)) (XArray (XString <$> l'))
| rr_boolean b : rereads (XBoolean b) (XBoolean b)
| rr_boolean_text : rereads (XBoolean true) (XString (lit "True")).

Class XmpKitLaws {Xk : XmpKit} := {
  ns_distinct : ns_dc <> ns_xmp /\ ns_dc <> NS_PICASU /\ ns_xmp <> NS_PICASU;
  set_get m n p v m' n' p' : set_property m n p v = Ok m' ->
    get_property m' n' p' = if decide ((n', p') = (n, p)) then Some v else get_property m n' p';
  delete_get m n p m' n' p' : delete_property m n p = Ok m' ->
    get_property m' n' p' = if decide ((n', p') = (n, p)) then None else get_property m n' p';
  localized_get m n p v m' n' p' : get_property m n p = None ->
    set_localized_text m n p [] (lit "x-default") v = Ok m' ->
    get_property m' n' p' = if decide ((n', p') = (n, p)) then Some (XArray [XString v]) else get_property m n' p';
  has_get m n p : has_property m n p = is_some (get_property m n p);
  reparse m text : serialize_packet m = Ok text ->
    Forall (fun c => is_scalar c = true) text /\ exists m', xmp_parse text = Ok m' /\
      forall n p, match get_property m n p with
                  | None => get_property m' n p = None
                  | Some v => printable_value v -> exists v', get_property m' n p = Some v' /\ rereads v v'
                  end
}.

Section ReadBack.
Context {Xk : XmpKit} {L : XmpKitLaws}.

(** Text is fit for the round trip when what is left of it after dropping the
    characters XML forbids is empty or printable. *)
Definition fit (s : str) : Prop := sanitize_value s = [] \/ printable (sanitize_value s).
Definition stored_text (o : option str) : option str :=
  option_filter (fun v => negb (is_empty v)) (sanitize_value <$> o).

Lemma xmp_error_Ok {A} (r : result str A) a : xmp_error_to_io r = Ok a -> r = Ok a.
Proof. by destruct r; intros [= ->]. Qed.

Lemma alt_get n p value m m' n' p' : set_or_remove_alt n p value m = Ok m' ->
  get_property m' n' p' =
    if decide ((n', p') = (n, p)) then (fun v => XArray [XString v]) <$> stored_text value else get_property m n' p'.
Proof.
  unfold set_or_remove_alt. intros (m1 & H1%xmp_error_Ok & H2)%bind_Ok. fold (stored_text value) in H2.
  destruct (stored_text value) as [v|].
  - apply xmp_error_Ok in H2. rewrite (localized_get m1 n p v m' n' p'); [|by rewrite (delete_get _ _ _ _ _ _ H1), decide_True|done].
    destruct (decide _); [done|]. rewrite (delete_get _ _ _ _ _ _ H1). by rewrite decide_False.
  - injection H2 as <-. by rewrite (delete_get _ _ _ _ _ _ H1).
Qed.

(** What the managed properties are after an edit; every other property is kept. *)
Definition managed (d : AbstractData) (n p : str) : option (option XmpValue) :=
  if decide ((n, p) = (ns_dc, lit "subject")) then
    Some (if is_empty (subjects (tag d)) then None else Some (XArray (XString <$> subjects (tag d))))
  else if decide ((n, p) = (ns_dc, lit "description")) then
    Some ((fun v => XArray [XString v]) <$> stored_text (get_description d))
  else if decide ((n, p) = (ns_dc, lit "title")) then
    match title_edit d with SetTitle v => Some ((fun v => XArray [XString v]) <$> stored_text v) | Unmanaged => None end
  else if decide ((n, p) = (ns_xmp, lit "Rating")) then Some ((fun r => XString (show_N r)) <$> get_rating d)
  else if decide ((n, p) = (NS_PICASU, lit "Trashed")) then Some (if is_trashed d then Some (XBoolean true) else None)
  else None.

Lemma managed_get d old new n p :
  apply_managed_fields (tag d) (get_description d) (get_rating d) (title_edit d) (is_trashed d) old = Ok new ->
  get_property new n p = default (get_property old n p) (managed d n p).
Proof.
  destruct ns_distinct as (Hd1 & Hd2 & Hd3). unfold apply_managed_fields.
  intros (m1 & H1%xmp_error_Ok & (m2 & H2 & (m3 & H3 & (m4 & H4%xmp_error_Ok & H5)%bind_Ok)%bind_Ok)%bind_Ok)%bind_Ok.
  assert (G1 : forall n p, get_property m1 n p = if decide ((n, p) = (ns_dc, lit "subject")) then
    (if is_empty (subjects (tag d)) then None else Some (XArray (XString <$> subjects (tag d)))) else get_property old n p).
  { intros n' p'. destruct (is_empty _); [by rewrite (delete_get _ _ _ _ _ _ H1)|by rewrite (set_get _ _ _ _ _ _ _ H1)]. }
  assert (G3 : forall n p, get_property m3 n p = match title_edit d with
    | SetTitle v => if decide ((n, p) = (ns_dc, lit "title")) then (fun v => XArray [XString v]) <$> stored_text v
                    else get_property m2 n p
    | Unmanaged => get_property m2 n p end).
  { intros n' p'. destruct (title_edit d); [by injection H3 as ->|]. by apply alt_get. }
  assert (G4 : forall n p, get_property m4 n p = if decide ((n, p) = (ns_xmp, lit "Rating")) then
    (fun r => XString (show_N r)) <$> get_rating d else get_property m3 n p).
  { intros n' p'. destruct (get_rating d); [by rewrite (set_get _ _ _ _ _ _ _ H4)|by rewrite (delete_get _ _ _ _ _ _ H4)]. }
  assert (get_property new n p = if decide ((n, p) = (NS_PICASU, lit "Trashed")) then
    (if is_trashed d then Some (XBoolean true) else None) else get_property m4 n p) as ->.
  { destruct (is_trashed d); [apply xmp_error_Ok in H5; by rewrite (set_get _ _ _ _ _ _ _ H5)|].
    destruct (has_property m4 _ _) eqn:Hh.
    - apply xmp_error_Ok in H5. by rewrite (delete_get _ _ _ _ _ _ H5).
    - injection H5 as ->. destruct (decide _) as [[= -> ->]|]; [|done]. rewrite has_get in Hh.
      by destruct (get_property new _ _). }
  unfold managed. rewrite G4, G3, (alt_get _ _ _ _ _ n p H2), G1.
  repeat (destruct (decide _) as [[= ? ?]|?]; try congruence); subst; try done;
    destruct (title_edit d); try done; try congruence.
Qed.

Lemma trim_nonempty s : printable s -> is_empty (trim s) = false.
Proof. intros (_ & _ & H). by destruct (trim s). Qed.
Lemma reread_alt v v' : printable v -> rereads (XArray [XString v]) v' -> text_from_property (Some v') = Some (trim v).
Proof.
  intros Hv Hr. inversion Hr as [|l l' Hl He|b He|He]; subst; try done.
  destruct l as [|x [|y l]]; try done. injection He as ->. inversion Hl as [|? y ? l2 Hy Hn]; subst.
  inversion Hn; subst. unfold text_from_property. cbn [fmap list_fmap mbind option_bind].
  unfold same_trim in Hy. by rewrite Hy, trim_nonempty.
Qed.
Lemma reread_tags l v' : Forall printable l -> l <> [] -> rereads (XArray (XString <$> l)) v' ->
  tags_from_subject (Some v') = list_to_set (trim <$> l).
Proof.
  intros Hp Hne Hr. inversion Hr as [s s' Hs He|k l' Hl He|b He|He]; subst; try done.
  assert (k = l) as ->.
  { clear -He. revert l He. induction k as [|x k IH]; intros [|y l] He; try done.
    injection He as -> He. f_equal. by apply IH. }
  cbn [tags_from_subject]. f_equal. clear Hne Hr He. revert Hp. induction Hl as [|x y l l' Hxy Hl IH]; intros Hp; [done|].
  apply Forall_cons in Hp as [Hx Hp]. cbn [fmap list_fmap omap list_omap tag_item]. unfold same_trim in Hxy.
  by rewrite Hxy, trim_nonempty, IH.
Qed.
Lemma reread_rating r v' : r <= 5 -> rereads (XString (show_N r)) v' -> rating_from_property (Some v') = Some r.
Proof.
  intros Hr Hv. inversion Hv as [s s' Hs He|k l' Hl He|b He|He]; subst; try done.
  unfold rating_from_property. unfold same_trim in Hs. rewrite Hs.
  destruct r as [|p]; [by vm_compute|]. do 3 (destruct p as [p|p|]; [..|by vm_compute]; try lia).
Qed.
Lemma show_printable r : r <= 5 -> printable (show_N r).
Proof.
  intros Hr. assert (r = 0 \/ r = 1 \/ r = 2 \/ r = 3 \/ r = 4 \/ r = 5) as Hcase by lia.
  destruct_or! Hcase; subst r; (split_and!; [by repeat constructor| |by vm_compute]);
    apply (bool_decide_eq_false_1 _); by vm_compute.
Qed.
Lemma subjects_spec tags s : s ∈ subjects tags <-> exists t, t ∈ tags /\ sanitize_value t = s /\ s <> [].
Proof.
  unfold subjects. rewrite merge_sort_Permutation, list_elem_of_filter, list_elem_of_fmap. split.
  - intros (Hs & t & -> & Ht%elem_of_elements). exists t. split_and!; [done|done|]. by destruct (sanitize_value t).
  - intros (t & Ht & <- & Hne). split; [by destruct (sanitize_value t)|]. exists t. by rewrite elem_of_elements.
Qed.

(** The items of a record that are written. *)
Definition title_of (d : AbstractData) : option str :=
  match d with Album a => custom_title (alb_metadata a) | _ => None end.
Record fit_record (d : AbstractData) : Prop := {
  fit_tags : forall t, t ∈ tag d -> fit t;
  fit_description : forall s, get_description d = Some s -> fit s;
  fit_title : forall s, title_of d = Some s -> fit s;
  fit_rating : forall r, get_rating d = Some r -> r <= 5
}.
Lemma stored_fit o s : (forall x, o = Some x -> fit x) -> stored_text o = Some s -> printable s.
Proof.
  intros Hf. unfold stored_text. destruct o as [x|]; [|done]. cbn.
  destruct (is_empty (sanitize_value x)) eqn:He; [done|]. intros [= <-].
  destruct (Hf x eq_refl) as [H|H]; [by rewrite H in He|done].
Qed.

Lemma read_back d old bytes : fit_record d -> new_content d old = Ok bytes ->
  let x := extract_xmp_data_from_packet bytes in
  x_tags x = list_to_set (trim <$> subjects (tag d)) /\
  x_description x = trim <$> stored_text (get_description d) /\
  x_rating x = get_rating d /\ x_trashed x = is_trashed d /\
  (is_album d = true -> x_title x = trim <$> stored_text (title_of d)).
Proof.
  intros [Ft Fd Fti Fr]. unfold new_content. intros (m & Hm & Hs)%bind_Ok.
  destruct (serialize_packet m) as [text|] eqn:Hser; [|done]. injection Hs as <-.
  destruct (reparse m text Hser) as (Hsc & m' & Hparse & Hre).
  unfold extract_xmp_data_from_packet. rewrite utf8_roundtrip, Hparse by done. cbv zeta. unfold normalize.
  cbn [x_tags x_description x_rating x_trashed x_title].
  pose proof (fun n p => managed_get d old m n p Hm) as G.
  assert (Halt : forall p o, (forall x, o = Some x -> fit x) ->
    get_property m ns_dc p = (fun v => XArray [XString v]) <$> stored_text o ->
    text_from_property (get_property m' ns_dc p) = trim <$> stored_text o).
  { intros p o Hf Hg. specialize (Hre ns_dc p). rewrite Hg in Hre.
    destruct (stored_text o) as [v|] eqn:Hv; cbn in Hre |- *; [|by rewrite Hre].
    assert (printable v) as Hp by (by eapply stored_fit).
    destruct (Hre (pv_array [v] ltac:(done) ltac:(by constructor))) as (v' & -> & Hv'). by apply reread_alt. }
  split_and!.
  - specialize (Hre ns_dc (lit "subject")). rewrite G in Hre. unfold managed in Hre.
    rewrite decide_True in Hre by done. cbn [default] in Hre.
    assert (Forall printable (subjects (tag d))) as Hp.
    { apply Forall_forall. intros s (t & Ht & <- & Hne)%subjects_spec. by destruct (Ft t Ht). }
    destruct (subjects (tag d)) as [|s l] eqn:Hsub; cbn [is_empty] in Hre; [by rewrite Hre|].
    destruct (Hre (pv_array (s :: l) ltac:(done) Hp)) as (v' & -> & Hv'). by apply reread_tags.
  - apply Halt; [done|]. rewrite G. unfold managed. rewrite decide_False by done. by rewrite decide_True.
  - specialize (Hre ns_xmp (lit "Rating")). rewrite G in Hre. unfold managed in Hre.
    destruct ns_distinct as (Hd1 & Hd2 & Hd3).
    rewrite !(decide_False (P := (ns_xmp, _) = (ns_dc, _))) in Hre by (intros [= ?]; congruence).
    rewrite decide_True in Hre by done. cbn [default] in Hre.
    destruct (get_rating d) as [r|] eqn:Hr; cbn [fmap option_fmap option_map] in Hre; [|by rewrite Hre].
    destruct (Hre (pv_string _ (show_printable r (Fr r eq_refl)))) as (v' & -> & Hv').
    apply reread_rating; [by apply Fr|done].
  - specialize (Hre NS_PICASU (lit "Trashed")). rewrite G in Hre. unfold managed in Hre.
    destruct ns_distinct as (Hd1 & Hd2 & Hd3).
    rewrite !(decide_False (P := (NS_PICASU, _) = (ns_dc, _))) in Hre by (intros [= ?]; congruence).
    rewrite (decide_False (P := (NS_PICASU, _) = (ns_xmp, _))) in Hre by (intros [= ?]; congruence).
    rewrite decide_True in Hre by done. cbn [default] in Hre.
    destruct (is_trashed d); [|by rewrite Hre].
    destruct (Hre (pv_boolean true)) as (v' & -> & Hv'). inversion Hv' as [| ? l' ? He| |]; subst; done.
  - intros Hal. apply Halt; [done|]. rewrite G. unfold managed. rewrite !(decide_False (P := (ns_dc, lit "title") = _)) by done.
    rewrite decide_True by done. by destruct d.
Qed.

(** An edit of a sidecar sets exactly the managed properties and leaves every other
    property of the packet, of whatever namespace, as it was; an unreadable packet is
    replaced by one that holds the managed properties alone. *)
Theorem managed_fields_spec d r old bytes : loaded r = Ok old -> new_content d old = Ok bytes ->
  exists new, serialize_packet new = Ok (default [] (utf8_decode bytes)) /\
  (forall n p, get_property new n p = default (get_property old n p) (managed d n p)) /\
  (forall raw, r = Ok raw -> utf8_decode raw = None -> old = xmp_new).
Proof.
  intros Hl. unfold new_content. intros (m & Hm & Hs)%bind_Ok.
  destruct (serialize_packet m) as [text|] eqn:Hser; [|done]. injection Hs as <-.
  destruct (reparse m text Hser) as (Hsc & _). exists m. split_and!.
  - by rewrite utf8_roundtrip.
  - intros n p. by apply managed_get.
  - intros raw -> Hraw. cbn in Hl. rewrite Hraw in Hl. by injection Hl.
Qed.

(** Texts the sidecar keeps to the letter, and records made of them. *)
Definition clean_text (s : str) : Prop := printable s /\ trim s = s.
Lemma clean_sanitize s : clean_text s -> sanitize_value s = s.
Proof.
  intros [(Hv & _ & _) _]. unfold sanitize_value. induction Hv as [|c s Hc _ IH]; [done|].
  rewrite filter_cons_True by done. by f_equal.
Qed.
Lemma clean_fit s : clean_text s -> fit s.
Proof. intros H. right. rewrite clean_sanitize by done. apply H. Qed.
Record clean_record (d : AbstractData) : Prop := {
  clean_tags : forall t, t ∈ tag d -> clean_text t;
  clean_description : forall s, get_description d = Some s -> clean_text s;
  clean_title : forall s, title_of d = Some s -> clean_text s;
  clean_rating : forall r, get_rating d = Some r -> r <= 5
}.
Lemma clean_fit_record d : clean_record d -> fit_record d.
Proof. intros []. split; eauto using clean_fit. Qed.
Lemma clean_stored o : (forall s, o = Some s -> clean_text s) -> trim <$> stored_text o = o.
Proof.
  intros H. destruct o as [s|]; [|done]. unfold stored_text. cbn. specialize (H s eq_refl) as Hs.
  rewrite clean_sanitize by done. destruct Hs as [(_ & _ & Hne) Ht]. rewrite Ht in Hne.
  destruct s; [done|]. cbn [is_empty negb fmap option_fmap option_map]. by rewrite Ht.
Qed.
(** A record whose texts are printable without blanks at their ends is read back
    from its sidecar as it was, whatever the sidecar held before. *)
Theorem sidecar_roundtrip d old bytes : clean_record d -> new_content d old = Ok bytes ->
  let x := extract_xmp_data_from_packet bytes in
  x_tags x = tag d /\ x_description x = get_description d /\ x_rating x = get_rating d /\
  x_trashed x = is_trashed d /\ (is_album d = true -> x_title x = title_of d).
Proof.
  intros Hc Hn. destruct (read_back d old bytes (clean_fit_record d Hc) Hn) as (H1 & H2 & H3 & H4 & H5).
  cbv zeta. rewrite H1, H2, H3, H4. destruct Hc as [Ct Cd Cti Cr]. split_and!; try done.
  - apply set_eq. intros t. rewrite elem_of_list_to_set, list_elem_of_fmap. split.
    + intros (s & -> & (t0 & Ht & <- & _)%subjects_spec). specialize (Ct t0 Ht) as Hc.
      rewrite clean_sanitize by done. by destruct Hc as [_ ->].
    + intros Ht. specialize (Ct t Ht) as Hc. exists t. destruct Hc as [Hp Htr]. split; [done|].
      apply subjects_spec. exists t. split_and!; [done|by apply clean_sanitize|].
      destruct Hp as (_ & _ & Hne). rewrite Htr in Hne. done.
  - by apply clean_stored.
  - intros Ha. rewrite H5 by done. by apply clean_stored.
Qed.

(** The editors keep blanks at the ends of tags and descriptions, the reader drops
    them: what the index says after such an edit is not what the next scan reads. *)
Theorem padded_text_is_reread_trimmed d old bytes s t : fit_record d -> new_content d old = Ok bytes ->
  (get_description d = Some s -> sanitize_value s = s -> trim s <> s ->
   x_description (extract_xmp_data_from_packet bytes) <> get_description d) /\
  (t ∈ tag d -> trim t <> t -> t ∉ x_tags (extract_xmp_data_from_packet bytes)).
Proof.
  intros Hf Hn. destruct (read_back d old bytes Hf Hn) as (H1 & H2 & _). cbv zeta in *. rewrite H1, H2. split.
  - intros -> Hs Ht. unfold stored_text. cbn. rewrite Hs. destruct (negb (is_empty s)); cbn; congruence.
  - intros _ Ht. rewrite elem_of_list_to_set, list_elem_of_fmap. intros (x & -> & _). by rewrite trim_idemp in Ht.
Qed.
End ReadBack.

(** ** Witnesses: packets as finite maps *)
Module XmpWitness.
Abbreviation value := (str + list str + bool)%type.
Definition show_value (v : value) : XmpValue :=
  match v with inl (inl s) => XString s | inl (inr l) => XArray (XString <$> l) | inr b => XBoolean b end.
Fixpoint strings (l : list XmpValue) : option (list str) :=
  match l with [] => Some [] | XString s :: l => cons s <$> strings l | _ => None end.
Definition read_value (v : XmpValue) : option value :=
  match v with
  | XString s => Some (inl (inl s)) | XArray l => inl ∘ inr <$> strings l | XBoolean b => Some (inr b) | _ => None
  end.
Abbreviation packet := (gmap (str * str) value).
Fixpoint bits (p : positive) : str := match p with xH => [] | xO p => 48 :: bits p | xI p => 49 :: bits p end.
Fixpoint unbits (s : str) : positive :=
  match s with [] => xH | c :: s => if c =? 48 then xO (unbits s) else xI (unbits s) end.
#[export] Instance kit : XmpKit := {|
  XmpMeta := packet; xmp_new := ∅;
  xmp_parse s := ok_or (lit "no packet") (decode (unbits s));
  serialize_packet m := Ok (bits (encode m));
  get_property m n p := show_value <$> m !! (n, p);
  set_property m n p v := v ← ok_or (lit "unsupported") (read_value v); Ok (<[(n, p) := v]> m);
  delete_property m n p := Ok (delete (n, p) m);
  has_property m n p := is_some (m !! (n, p));
  set_localized_text m n p _ _ v := Ok (<[(n, p) := inl (inr [v])]> m);
  embedded _ _ := None; ns_dc := lit "http://purl.org/dc/elements/1.1/"; ns_xmp := lit "http://ns.adobe.com/xap/1.0/"
|}.
Lemma unbits_bits p : unbits (bits p) = p.
Proof. induction p; cbn; congruence. Qed.
Lemma bits_scalar p : Forall (fun c => is_scalar c = true) (bits p).
Proof. induction p; cbn; by constructor. Qed.
Lemma strings_spec l ss : strings l = Some ss -> l = XString <$> ss.
Proof.
  revert ss. induction l as [|[] l IH]; intros ss; cbn; try done; [by intros [= <-]|].
  destruct (strings l) as [k|]; [|done]. intros [= <-]. cbn. by rewrite (IH k).
Qed.
Lemma read_show v w : read_value v = Some w -> show_value w = v.
Proof.
  destruct v as [s|l|b|z|w']; cbn; try (by intros [= <-]).
  destruct (strings l) as [ss|] eqn:Hs; [|done]. intros [= <-]. cbn. by apply strings_spec in Hs as ->.
Qed.
Lemma get_insert (m : packet) n p w n' p' :
  show_value <$> (<[(n, p) := w]> m : packet) !! (n', p') =
  if decide ((n', p') = (n, p)) then Some (show_value w) else show_value <$> m !! (n', p').
Proof.
  destruct (decide ((n', p') = (n, p))) as [[= -> ->]|Hne]; [by rewrite lookup_insert_eq|].
  by rewrite lookup_insert_ne.
Qed.
#[export] Instance kit_laws : XmpKitLaws.
Proof.
  split; cbn.
  - by split_and!.
  - intros m n p v m' n' p' H. destruct (read_value v) as [w|] eqn:Hw; [|done]. injection H as <-.
    rewrite <-(read_show v w Hw). apply (get_insert m n p w n' p').
  - intros m n p m' n' p' [= <-]. destruct (decide _) as [[= -> ->]|Hne]; [by rewrite lookup_delete_eq|].
    by rewrite lookup_delete_ne.
  - intros m n p v m' n' p' _ [= <-]. apply (get_insert m n p (inl (inr [v])) n' p').
  - intros m n p. by destruct (m !! (n, p)).
  - intros m text [= <-]. split; [apply bits_scalar|]. exists m. rewrite unbits_bits, decode_encode. split; [done|].
    intros n p. destruct (m !! (n, p)) as [v|]; cbn; [|done]. intros _. exists (show_value v). split; [done|].
    destruct v as [[s|l]|b]; cbn; constructor; [done|]. induction l; by constructor.
Qed.
Definition photo (description : string) : AbstractData :=
  Image (mkImage (mkObject (lit "h") TImage false None (Some (lit description)) {[ lit "cat"; lit "b" ]} (Some 4) 0)
    (mkImageMeta 1 1 1 (lit "jpg") None None ∅ (Some (mkEntry (lit "/p/a.jpg") 0 0 true)))).
End XmpWitness.
Import (hints) XmpWitness.

Definition written (d : AbstractData) : list N :=
  match new_content d xmp_new with Ok bytes => bytes | Err _ => [] end.
Lemma written_ok d : is_ok (new_content d xmp_new) = true -> new_content d xmp_new = Ok (written d).
Proof. unfold written. by destruct (new_content d xmp_new). Qed.
Lemma photo_written s : s = "hi"%string \/ s = "a b"%string \/ s = " a"%string ->
  new_content (XmpWitness.photo s) xmp_new = Ok (written (XmpWitness.photo s)).
Proof. intros [->|[->| ->]]; apply written_ok; by vm_compute. Qed.
Lemma managed_fields_spec_witness : exists new,
  serialize_packet new = Ok (default [] (utf8_decode (written (XmpWitness.photo "hi")))) /\
  get_property new ns_xmp (lit "Rating") = Some (XString (lit "4")).
Proof.
  destruct (managed_fields_spec (XmpWitness.photo "hi") (Err NotFound) xmp_new (written (XmpWitness.photo "hi")) eq_refl
    (photo_written "hi" (or_introl eq_refl)))
    as (new & H1 & H2 & _).
  exists new. split; [exact H1|]. etrans; [apply H2|]. by vm_compute.
Defined.

Lemma clean_by_computation s :
  forallb is_valid_xml_char s && negb (existsb (N.eqb 13) s) && negb (is_empty s) && str_eqb (trim s) s = true ->
  clean_text s.
Proof.
  intros [[[H1 H2]%andb_true_iff H3]%andb_true_iff H4]%andb_true_iff. apply str_eqb_eq in H4.
  split; [|done]. split_and!.
  - apply Forall_forall. intros c Hc. eapply forallb_forall in H1; [exact H1|by apply list_elem_of_In].
  - intros Hin. apply negb_true_iff in H2. assert (existsb (N.eqb 13) s = true) as Hx; [|congruence].
    apply existsb_exists. exists 13. split; [by apply list_elem_of_In|done].
  - rewrite H4. by destruct s.
Qed.
Lemma photo_clean : clean_record (XmpWitness.photo "a b").
Proof.
  split; cbn.
  - intros t [ ->%elem_of_singleton| ->%elem_of_singleton]%elem_of_union; by apply clean_by_computation.
  - intros s [= <-]. by apply clean_by_computation.
  - done.
  - intros r [= <-]. done.
Qed.
Lemma sidecar_roundtrip_witness :
  let x := extract_xmp_data_from_packet (written (XmpWitness.photo "a b")) in
  x_tags x = {[ lit "cat"; lit "b" ]} /\ x_description x = Some (lit "a b") /\ x_rating x = Some 4 /\ x_trashed x = true.
Proof.
  destruct (sidecar_roundtrip (XmpWitness.photo "a b") xmp_new (written (XmpWitness.photo "a b"))
    photo_clean (photo_written "a b" (or_intror (or_introl eq_refl)))) as (H1 & H2 & H3 & H4 & _).
  split; [exact H1|]. split; [exact H2|]. split; [exact H3|exact H4].
Defined.

Lemma padded_fit : fit_record (XmpWitness.photo " a").
Proof.
  split; cbn.
  - intros t [ ->%elem_of_singleton| ->%elem_of_singleton]%elem_of_union; by apply clean_fit, clean_by_computation.
  - intros s [= <-]. right. change (sanitize_value _) with (lit " a"). split_and!; [by repeat constructor| |done].
    apply (bool_decide_eq_false_1 (13 ∈ lit " a")). reflexivity.
  - done.
  - intros r [= <-]. done.
Qed.
Lemma padded_text_is_reread_trimmed_witness :
  x_description (extract_xmp_data_from_packet (written (XmpWitness.photo " a"))) <> Some (lit " a").
Proof.
  destruct (padded_text_is_reread_trimmed (XmpWitness.photo " a") xmp_new (written (XmpWitness.photo " a"))
    (lit " a") [] padded_fit (photo_written " a" (or_intror (or_intror eq_refl)))) as [H _].
  apply H; [reflexivity|reflexivity|discriminate].
Defined.
