(* ===== verification/SidecarEdit.v ===== *)
(** * SidecarEdit: first the sidecars, then the index
      ([backend/src/process/sidecar_edit.rs])

    Every metadata edit writes the sidecars of all its items before it stores any of
    their rows, and puts back what it wrote when one of the writes fails.  The rows'
    store is a parameter, as in the code; the writer is [Xmp]'s. *)

From S2P Require Import Prelude Errors Redb UserStore Paths Formats Model MetadataRecord DirAlbum IndexStore.
From S2P Require Import DirAlbumStore Tokens RouterAuth Accounts Snapshots.
From S2P Require Import DataPages FileTree Sanitize Xmp.

Record EditedItem := mkEdited { ed_id : str; ed_data : AbstractData }.
(** The bytes a sidecar held before the request wrote it. *)
Record SidecarBackup := mkBackup { b_path : Path; previous : option (list N) }.

Section Edit.
Context {Xk : XmpKit} {Io : IoFaults}.

Definition capture (item : EditedItem) (t : Files) : app_result (option SidecarBackup) * Files :=
  match sidecar_path (ed_data item) with
  | None => (Ok None, t)
  | Some p =>
      match read p t with
      | (Ok bytes, t) => (Ok (Some (mkBackup p (Some bytes))), t)
      | (Err NotFound, t) => (Ok (Some (mkBackup p None)), t)
      | (Err e, t) =>
          (Err (add_context (lit "the previous " ++ path_text p ++ lit " could not be read, so the edit of asset "
                  ++ ed_id item ++ lit " cannot be written safely") (from_err IO (io_text e))), t)
      end
  end.
Definition restore (b : SidecarBackup) : Call unit := fun t =>
  match previous b with
  | Some bytes => write_bytes_atomically (b_path b) bytes t
  | None =>
      match remove_file (b_path b) t with
      | (Err NotFound, t) => (Ok tt, t)
      | other => other
      end
  end.
(** A failure is only logged. *)
Definition rollback (applied : list SidecarBackup) (t : Files) : Files :=
  foldr (fun b t => (restore b t).2) t applied.

(** The first loop, up to the rollback: the outcome and what was applied. *)
Fixpoint write_all (write : AbstractData -> Call unit) (items : list EditedItem)
    (applied : list SidecarBackup) (t : Files) : app_result unit * list SidecarBackup * Files :=
  match items with
  | [] => (Ok tt, applied, t)
  | item :: items' =>
      match capture item t with
      | (Err e, t) => (Err e, applied, t)
      | (Ok None, t) => write_all write items' applied t
      | (Ok (Some backup), t) =>
          match write (ed_data item) t with
          | (Err e, t) =>
              (Err (add_context (lit "the edit of asset " ++ ed_id item ++ lit " was not written to "
                      ++ path_text (b_path backup) ++ lit " and has not been stored") (from_err IO (io_text e))),
               applied, t)
          | (Ok _, t) => write_all write items' (applied ++ [backup]) t
          end
      end
  end.

Section Store.
Context {S : Type}.
Variable store : str -> AbstractData -> S -> app_result unit * S.
Fixpoint store_all (items : list EditedItem) (s : S) : app_result unit * S :=
  match items with
  | [] => (Ok tt, s)
  | item :: items' =>
      match store (ed_id item) (ed_data item) s with
      | (Ok _, s) => store_all items' s
      | (Err e, s) => (Err e, s)
      end
  end.
Definition commit_with (write : AbstractData -> Call unit) (items : list EditedItem) (t : Files) (s : S)
  : app_result unit * Files * S :=
  match write_all write items [] t with
  | (Err e, applied, t) => (Err e, rollback applied t, s)
  | (Ok _, _, t) => let '(r, s) := store_all items s in (r, t, s)
  end.
Definition commit_metadata_edits := commit_with write_sidecar_for.
End Store.
End Edit.

(** ** The files during an edit *)
Definition is_tmp (k : Path) : Prop := exists d m, k = d ++ [Normal (tmp_of m)].
(** Equal but for temporary files. *)
Definition alike (ns ns' : gmap Path Node) : Prop := forall k, ~ is_tmp k -> ns !! k = ns' !! k.
#[export] Instance alike_equiv : Equivalence alike.
Proof.
  split; [by intros ns k|by intros a b H k Hk; rewrite H|by intros a b c H1 H2 k Hk; rewrite H1, H2].
Qed.
Lemma xmp_not_tmp d n : ~ is_tmp (d ++ [Normal (n ++ lit ".xmp")]).
Proof.
  intros (d' & m & He). apply app_inj_tail in He as [_ He]. injection He as He.
  apply (f_equal (fun s => rev s !! 2%nat)) in He. unfold tmp_of in He. rewrite (app_assoc (lit ".") m) in He.
  by rewrite !rev_app_distr in He.
Qed.
(** An item that has a file has its name. *)
Definition named (d : AbstractData) : Prop := forall e, path d = Some e -> is_Some (file_name (components (file e))).
Lemma sidecar_shape d p : named d -> sidecar_path d = Some p -> exists dir n, p = dir ++ [Normal (n ++ lit ".xmp")].
Proof.
  intros Hn. destruct d as [i|v|a]; cbn [sidecar_path].
  1,2: destruct (path _) as [e|] eqn:He; [|done]; intros [= <-]; destruct (Hn e He) as [name Hf];
       unfold with_extension_xmp; rewrite Hf; eauto.
  intros [= <-]. exists (components (dir_path (alb_metadata a))), (lit ".albuminfo"). done.
Qed.

Section Undo.
Context {Xk : XmpKit} {Io : IoFaults}.

Lemma read_called p t r t' : read p t = (r, t') -> t' = called t /\
  match r with
  | Ok bytes => node_at p t = Some (Plain bytes)
  | Err NotFound => node_at p t = None
  | Err _ => True
  end.
Proof.
  unfold read, call. destruct (io_fault _); [by intros [= <- <-]|].
  destruct (node_at p t) as [[]|]; by intros [= <- <-].
Qed.

Lemma atomically_tree t dir n bytes r t' : tree_ok t -> write_bytes_atomically (dir ++ [Normal n]) bytes t = (r, t') ->
  tree_ok t' /\ same_folders (nodes t) (nodes t') /\ cwd t' = cwd t.
Proof.
  intros Ht Hw. destruct (atomically_spec _ _ _ _ _ _ Ht Hw) as [Hspec Hcwd].
  assert (same_folders (nodes t) (nodes t') /\ forall k v, nodes t' !! k = Some v -> is_some (nodes t !! k) = true \/
     exists q n, k = q ++ [Normal n] /\ is_folder (nodes t) q = true) as [Hf Hk];
    [|split_and!; [by eapply tree_ok_ext|done|done]].
  destruct r.
  - destruct Hspec as (q & Hq & Hfq & Hn & Htmp & ->). split.
    + eapply same_folders_trans; [by apply folders_drop|]. apply folders_put.
      by rewrite <-(folders_drop _ (q ++ [Normal (tmp_of n)]) Htmp).
    + intros k v [[<- _]|[_ [_ Hk]%lookup_delete_Some]]%lookup_insert_Some; [right; eauto|left; by rewrite Hk].
  - destruct Hspec as [->|(q & Hq & Hfq & Htmp & ->)].
    + split; [by intros p|]. intros k v Hk. left. by rewrite Hk.
    + split; [by apply folders_put|].
      intros k v [[<- _]|[_ Hk]]%lookup_insert_Some; [right; eauto|left; by rewrite Hk].
Qed.
Lemma write_sidecar_spec d dir n t r t' : tree_ok t -> sidecar_path d = Some (dir ++ [Normal n]) ->
  write_sidecar_for d t = (r, t') ->
  match r with
  | Ok _ => exists q old bytes, resolve dir t = Some q /\ is_folder (nodes t) q = true /\
      is_folder (nodes t) (q ++ [Normal n]) = false /\ is_folder (nodes t) (q ++ [Normal (tmp_of n)]) = false /\
      new_content d old = Ok bytes /\
      nodes t' = <[q ++ [Normal n] := Plain bytes]> (delete (q ++ [Normal (tmp_of n)]) (nodes t))
  | Err _ => nodes t' = nodes t \/ exists q bytes, resolve dir t = Some q /\ is_folder (nodes t) q = true /\
      is_folder (nodes t) (q ++ [Normal (tmp_of n)]) = false /\
      nodes t' = <[q ++ [Normal (tmp_of n)] := Plain bytes]> (nodes t)
  end /\ cwd t' = cwd t.
Proof.
  intros Ht Hp. unfold write_sidecar_for. rewrite Hp.
  destruct (read _ t) as [rd t0] eqn:Hrd. apply read_called in Hrd as [-> _].
  destruct (m ← loaded rd; new_content d m) as [content|e] eqn:Hc; [|intros [= <- <-]; by split; [left|]].
  apply bind_Ok in Hc as (old & _ & Hc). intros Hw.
  destruct (atomically_spec _ _ _ _ _ _ (tree_ok_called _ Ht) Hw) as [Hspec Hcwd]. split; [|done]. destruct r.
  - destruct Hspec as (q & H1 & H2 & H3 & H4 & H5). by exists q, old, content.
  - destruct Hspec as [H|(q & H1 & H2 & H3 & H4)]; [by left|]. right. by exists q, content.
Qed.

Lemma write_sidecar_tree d dir n t r t' : tree_ok t -> sidecar_path d = Some (dir ++ [Normal n]) ->
  write_sidecar_for d t = (r, t') -> tree_ok t' /\ same_folders (nodes t) (nodes t') /\ cwd t' = cwd t.
Proof.
  intros Ht Hp. unfold write_sidecar_for. rewrite Hp. destruct (read _ t) as [rd t0] eqn:Hrd.
  apply read_called in Hrd as [-> _]. apply tree_ok_called in Ht. destruct (m ← loaded rd; new_content d m) as [content|e].
  - apply (atomically_tree (called t) dir n content r t' Ht).
  - intros [= <- <-]. by split.
Qed.

(** From here on no call fails. *)
Definition calm (n : nat) : Prop := forall m, (n <= m)%nat -> io_fault m = None.
(** The same files, up to temporary ones, in the same directories. *)
Record near (t t' : Files) : Prop := {
  near_tree : tree_ok t';
  near_alike : alike (nodes t) (nodes t');
  near_folders : same_folders (nodes t) (nodes t');
  near_cwd : cwd t' = cwd t
}.
Lemma near_trans a b c : near a b -> near b c -> near a c.
Proof.
  intros [? A1 F1 C1] [? A2 F2 C2]. split; [done|by etransitivity|by eapply same_folders_trans|congruence].
Qed.
Lemma near_sym t t' : tree_ok t -> near t t' -> near t' t.
Proof. intros H []. split; [done|by symmetry|by apply same_folders_sym|done]. Qed.
Lemma near_called t : tree_ok t -> near t (called t).
Proof. intros H. split; [by apply tree_ok_called|done|by intros p|done]. Qed.
Lemma near_resolve t t' p : near t t' -> resolve p t' = resolve p t.
Proof. intros []. unfold resolve. rewrite near_cwd0. symmetry. by apply walk_ext. Qed.

(** Putting back one sidecar that was written undoes the write. *)
Lemma restore_undoes d dir m t old t0 t1 :
  let n := m ++ lit ".xmp" in
  tree_ok t -> sidecar_path d = Some (dir ++ [Normal n]) ->
  node_at (dir ++ [Normal n]) t = Plain <$> old ->
  write_sidecar_for d t = (Ok tt, t0) -> near t0 t1 -> calm (calls t1) ->
  near t (restore (mkBackup (dir ++ [Normal n]) old) t1).2 /\
  calm (calls (restore (mkBackup (dir ++ [Normal n]) old) t1).2).
Proof.
  intros n Ht Hp Hold Hw Hn Hcalm.
  destruct (write_sidecar_spec _ _ _ _ _ _ Ht Hp Hw) as [(q & o & bytes & Hq & Hfq & Hfn & Hft & _ & H0) Hcwd0].
  destruct (write_sidecar_tree _ _ _ _ _ _ Ht Hp Hw) as (Ht0 & Hf0 & _).
  assert (resolve (dir ++ [Normal n]) t = Some (q ++ [Normal n])) as Hres by (apply resolve_snoc; eauto).
  unfold node_at in Hold. rewrite Hres in Hold. cbn in Hold.
  assert (same_folders (nodes t) (nodes t1)) as Hf1 by (eapply same_folders_trans; [done|apply Hn]).
  assert (cwd t1 = cwd t) as Hc1 by (by rewrite (near_cwd _ _ Hn)).
  assert (Hr1 : forall p, resolve p t1 = resolve p t).
  { intros p. unfold resolve. rewrite Hc1. symmetry. by apply walk_ext. }
  assert (Hk : forall k, ~ is_tmp k -> k <> q ++ [Normal n] -> nodes t !! k = nodes t1 !! k).
  { intros k Hk Hne. rewrite <-(near_alike _ _ Hn k Hk), H0, lookup_insert_ne by done.
    rewrite lookup_delete_ne; [done|]. intros <-. apply Hk. by exists q, n. }
  unfold restore. cbn [previous b_path]. destruct old as [b|]; cbn in Hold.
  - destruct (atomically_ok t1 dir n b q) as (t2 & Hw2 & Hc2).
    { apply Hn. } { apply Hcalm; lia. } { apply Hcalm; lia. } { by rewrite Hr1. }
    { by rewrite <-Hf1. } { by rewrite <-Hf1. } { by rewrite <-Hf1. }
    rewrite Hw2. cbn. destruct (atomically_spec _ _ _ _ _ _ (near_tree _ _ Hn) Hw2) as [(q' & Hq' & _ & _ & _ & H2) _].
    rewrite Hr1, Hq in Hq'. injection Hq' as <-.
    destruct (atomically_tree _ _ _ _ _ _ (near_tree _ _ Hn) Hw2) as (Ht2 & Hf2 & Hcwd2).
    split; [|intros j Hj; apply Hcalm; lia].
    split; [done| |by eapply same_folders_trans|congruence].
    intros k Hkt. rewrite H2. destruct (decide (k = q ++ [Normal n])) as [->|Hne]; [by rewrite lookup_insert_eq|].
    rewrite lookup_insert_ne, lookup_delete_ne by (first [done|intros <-; apply Hkt; by exists q, n]). by apply Hk.
  - assert (nodes t1 !! (q ++ [Normal n]) = Some (Plain bytes)) as Hthere.
    { rewrite <-(near_alike _ _ Hn) by apply xmp_not_tmp. rewrite H0. by apply lookup_insert_eq. }
    unfold remove_file, call. rewrite (Hcalm (calls t1)) by done. rewrite Hr1, Hres, Hthere.
    assert (is_folder (nodes t1) (q ++ [Normal n]) = false) as Hfl by (unfold is_folder; by rewrite Hthere).
    split; [|intros j Hj; apply Hcalm; cbn in Hj; lia].
    split; [by apply tree_ok_called, tree_ok_drop; [apply Hn|]| |eapply same_folders_trans; [done|by apply folders_drop]|done].
    intros k Hkt. cbn. destruct (decide (k = q ++ [Normal n])) as [->|Hne]; [by rewrite lookup_delete_eq|].
    rewrite lookup_delete_ne by done. by apply Hk.
Qed.

(** What the writes applied so far can be undone to. *)
Definition undoable (t0 : Files) (applied : list SidecarBackup) (t : Files) : Prop :=
  forall t1, near t t1 -> calm (calls t1) -> near t0 (rollback applied t1).

Lemma capture_spec item t dir n r t' : sidecar_path (ed_data item) = Some (dir ++ [Normal n]) -> capture item t = (r, t') ->
  t' = called t /\
  match r with
  | Ok o => exists old, o = Some (mkBackup (dir ++ [Normal n]) old) /\ node_at (dir ++ [Normal n]) t = Plain <$> old
  | Err e => Errors.kind e = IO
  end.
Proof.
  intros Hp. unfold capture. rewrite Hp. destruct (read _ t) as [rd t1] eqn:Hrd.
  apply read_called in Hrd as [-> Hrd]. destruct rd as [b|[|why]]; intros [= <- <-]; split; try done; eauto.
Qed.
Lemma undo_step item dir m t old t2 t3 applied t0 :
  let n := m ++ lit ".xmp" in
  tree_ok t -> undoable t0 applied t -> sidecar_path (ed_data item) = Some (dir ++ [Normal n]) ->
  node_at (dir ++ [Normal n]) t = Plain <$> old -> t2 = called t -> write_sidecar_for (ed_data item) t2 = (Ok tt, t3) ->
  undoable t0 (applied ++ [mkBackup (dir ++ [Normal n]) old]) t3.
Proof.
  intros n Ht Hu Hp Hold -> Hw t1 Hn Hc. unfold rollback. rewrite foldr_app. cbn [foldr].
  destruct (restore_undoes (ed_data item) dir m (called t) old t3 t1) as [Hr1 Hr2]; try done; [by apply tree_ok_called|].
  apply Hu; [|done]. eapply near_trans; [by apply near_called|done].
Qed.
Lemma write_err_near d dir m t e t' : let n := m ++ lit ".xmp" in
  tree_ok t -> sidecar_path d = Some (dir ++ [Normal n]) -> write_sidecar_for d t = (Err e, t') -> near t t'.
Proof.
  intros n Ht Hp Hw. destruct (write_sidecar_tree _ _ _ _ _ _ Ht Hp Hw) as (H1 & H2 & H3). split; try done.
  destruct (write_sidecar_spec _ _ _ _ _ _ Ht Hp Hw) as [[->|(q & bytes & _ & _ & _ & ->)] _]; [done|].
  intros k Hk. rewrite lookup_insert_ne; [done|]. intros <-. apply Hk. by exists q, n.
Qed.

Lemma write_all_undoable items applied t t0 r applied' t' :
  tree_ok t -> Forall (fun i => named (ed_data i)) items -> undoable t0 applied t ->
  write_all write_sidecar_for items applied t = (r, applied', t') ->
  undoable t0 applied' t' /\ tree_ok t' /\ forall e, r = Err e -> Errors.kind e = IO.
Proof.
  intros Ht Hnm. revert applied t Ht. induction Hnm as [|item items Hi _ IH]; intros applied t Ht Hu; cbn [write_all].
  { by intros [= <- <- <-]. }
  destruct (capture item t) as [c t2] eqn:Hcap. destruct (sidecar_path (ed_data item)) as [p|] eqn:Hp.
  2: { unfold capture in Hcap. rewrite Hp in Hcap. injection Hcap as <- <-. by apply IH. }
  destruct (sidecar_shape _ _ Hi Hp) as (dir & m & ->). destruct (capture_spec _ _ _ _ _ _ Hp Hcap) as [-> Hc].
  assert (tree_ok (called t)) as Htc by (by apply tree_ok_called).
  assert (Hcu : forall t', near (called t) t' -> undoable t0 applied t').
  { intros t'' Hn t1 Hn1 Hc1. apply Hu; [|done]. eapply near_trans; [by apply near_called|]. by eapply near_trans. }
  destruct c as [o|e].
  - destruct Hc as (old & -> & Hold). destruct (write_sidecar_for _ (called t)) as [[[]|e] t3] eqn:Hw.
    + apply IH; [by destruct (write_sidecar_tree _ _ _ _ _ _ Htc Hp Hw)|]. by apply (undo_step item dir m t old (called t) t3).
    + pose proof (write_err_near _ _ _ _ _ _ Htc Hp Hw) as Hn. intros [= <- <- <-]. split_and!.
      * by apply Hcu.
      * apply Hn.
      * by intros ? [= <-].
  - intros [= <- <- <-]. split_and!; [|done|by intros ? [= <-]]. apply Hcu. by split.
Qed.

(** C26: An edit one of whose sidecars cannot be read or written answers a server-side
    input/output error, stores nothing, and, when the calls that put the others back
    succeed, leaves every file, whether it existed before or not, as it was;
    temporary files aside. *)
Theorem failed_edit_undone {S} (store : str -> AbstractData -> S -> app_result unit * S) items t s e applied t1 :
  tree_ok t -> Forall (fun i => named (ed_data i)) items ->
  write_all write_sidecar_for items [] t = (Err e, applied, t1) -> calm (calls t1) ->
  commit_metadata_edits store items t s = (Err e, rollback applied t1, s) /\ Errors.kind e = IO /\
  alike (nodes t) (nodes (rollback applied t1)).
Proof.
  intros Ht Hn Hw Hc. unfold commit_metadata_edits, commit_with. rewrite Hw.
  assert (undoable t [] t) as Hu0 by (by intros t2 Hn2 _).
  destruct (write_all_undoable items [] t t _ _ _ Ht Hn Hu0 Hw) as (Hu & Ht1 & He).
  split; [done|]. split; [by apply He|]. apply Hu; [by split|done].
Qed.

(** *** What a stored edit left in the files *)
Lemma write_all_step item items applied t applied' t' : tree_ok t -> named (ed_data item) ->
  write_all write_sidecar_for (item :: items) applied t = (Ok tt, applied', t') ->
  exists applied1 t1, write_all write_sidecar_for items applied1 t1 = (Ok tt, applied', t') /\ tree_ok t1 /\
    same_folders (nodes t) (nodes t1) /\ cwd t1 = cwd t /\
    match sidecar_path (ed_data item) with
    | None => nodes t1 = nodes t
    | Some p => exists q m old bytes, resolve p t = Some (q ++ [Normal (m ++ lit ".xmp")]) /\
        new_content (ed_data item) old = Ok bytes /\
        nodes t1 = <[q ++ [Normal (m ++ lit ".xmp")] := Plain bytes]>
          (delete (q ++ [Normal (tmp_of (m ++ lit ".xmp"))]) (nodes t))
    end.
Proof.
  intros Ht Hi. cbn [write_all].
  destruct (capture item t) as [c t2] eqn:Hcap. destruct (sidecar_path (ed_data item)) as [p|] eqn:Hp.
  2: { unfold capture in Hcap. rewrite Hp in Hcap. injection Hcap as <- <-. intros H. by exists applied, t. }
  destruct (sidecar_shape _ _ Hi Hp) as (dir & m & ->). destruct (capture_spec _ _ _ _ _ _ Hp Hcap) as [-> Hc].
  destruct c as [o|e]; [|done]. destruct Hc as (old & -> & Hold).
  destruct (write_sidecar_for _ (called t)) as [[[]|e] t3] eqn:Hw; [|done]. intros H.
  eexists _, t3. split; [exact H|]. apply tree_ok_called in Ht as Htc.
  destruct (write_sidecar_tree _ _ _ _ _ _ Htc Hp Hw) as (H1 & H2 & H3).
  destruct (write_sidecar_spec _ _ _ _ _ _ Htc Hp Hw) as [(q & o & bytes & Hq & Hf & _ & _ & Hn & H4) _].
  split_and!; try done. exists q, m, o, bytes. split_and!; [|done|done]. apply resolve_snoc. by exists q.
Qed.
Lemma resolve_same t t' p : same_folders (nodes t) (nodes t') -> cwd t' = cwd t -> resolve p t' = resolve p t.
Proof. intros Hf Hc. unfold resolve. rewrite Hc. symmetry. by apply walk_ext. Qed.
Lemma write_all_folders items applied t applied' t' : tree_ok t -> Forall (fun i => named (ed_data i)) items ->
  write_all write_sidecar_for items applied t = (Ok tt, applied', t') ->
  same_folders (nodes t) (nodes t') /\ cwd t' = cwd t.
Proof.
  intros Ht Hn. revert applied t Ht. induction Hn as [|item items Hi _ IH]; intros applied t Ht Hw; [by injection Hw as _ <-|].
  destruct (write_all_step _ _ _ _ _ _ Ht Hi Hw) as (applied1 & t1 & Hw1 & Ht1 & Hf & Hc & _).
  destruct (IH applied1 t1 Ht1 Hw1) as [H1 H2]. split; [by eapply same_folders_trans|congruence].
Qed.
Lemma write_all_keeps items applied t applied' t' p bytes :
  tree_ok t -> Forall (fun i => named (ed_data i)) items -> ~ is_tmp p ->
  (forall i p', i ∈ items -> sidecar_path (ed_data i) = Some p' -> resolve p' t <> Some p) ->
  nodes t !! p = Some (Plain bytes) -> write_all write_sidecar_for items applied t = (Ok tt, applied', t') ->
  nodes t' !! p = Some (Plain bytes).
Proof.
  intros Ht Hn Htmp. revert applied t Ht. induction Hn as [|item items Hi _ IH]; intros applied t Ht Hother Hb Hw.
  { by injection Hw as _ <-. }
  destruct (write_all_step _ _ _ _ _ _ Ht Hi Hw) as (applied1 & t1 & Hw1 & Ht1 & Hf & Hc & Hs).
  apply (IH applied1 t1); [done|..|done].
  - intros i p' Hin Hp'. rewrite (resolve_same t t1) by done. apply (Hother i); [by right|done].
  - destruct (sidecar_path (ed_data item)) as [p'|] eqn:Hp'; [|by rewrite Hs].
    destruct Hs as (q & m & old & b & Hq & _ & ->).
    rewrite lookup_insert_ne by (intros <-; by apply (Hother item p'); [left|..]).
    rewrite lookup_delete_ne; [done|]. intros <-. apply Htmp. by exists q, (m ++ lit ".xmp").
Qed.

(** A row is stored only when the sidecars of all the request's items were written:
    if the edit succeeded, or changed the store at all, each item's sidecar holds the
    item's managed properties, unless a later item of the same request has the same
    sidecar. *)
Theorem stored_edit_is_in_its_sidecar {S} (store : str -> AbstractData -> S -> app_result unit * S)
    pre item post t s r t' s' p :
  tree_ok t -> Forall (fun i => named (ed_data i)) (pre ++ item :: post) ->
  commit_metadata_edits store (pre ++ item :: post) t s = (r, t', s') -> r = Ok tt \/ s' <> s ->
  sidecar_path (ed_data item) = Some p ->
  (forall i p', i ∈ post -> sidecar_path (ed_data i) = Some p' -> resolve p' t <> resolve p t) ->
  exists old bytes, new_content (ed_data item) old = Ok bytes /\ node_at p t' = Some (Plain bytes).
Proof.
  intros Ht Hn. unfold commit_metadata_edits, commit_with.
  destruct (write_all write_sidecar_for (pre ++ item :: post) [] t) as [[[[]|e] applied] t1] eqn:Hw.
  2: { intros [= <- _ <-] [H|H]; [done|by destruct H]. }
  destruct (store_all store (pre ++ item :: post) s) as [r1 s1]. intros [= _ <- _] _ Hp. clear r s s' r1 s1.
  revert Hw. generalize (@nil SidecarBackup). revert t Ht.
  induction pre as [|i pre IH]; intros t Ht l Hw Hother.
  - apply Forall_cons in Hn as [Hi Hn].
    destruct (write_all_step _ _ _ _ _ _ Ht Hi Hw) as (applied1 & t2 & Hw2 & Ht2 & Hf & Hc & Hs).
    rewrite Hp in Hs. destruct Hs as (q & m & old & b & Hq & Hnew & Hs). exists old, b. split; [done|].
    destruct (write_all_folders _ _ _ _ _ Ht2 Hn Hw2) as [Hf' Hc'].
    unfold node_at. rewrite (resolve_same t2 t1), (resolve_same t t2), Hq by done. cbn.
    apply (write_all_keeps post applied1 t2 applied t1); try done; [apply xmp_not_tmp| |by rewrite Hs, lookup_insert_eq].
    intros j p' Hj Hp' He. apply (Hother j p' Hj Hp'). by rewrite Hq, <-(resolve_same t t2).
  - cbn in Hn, Hw. apply Forall_cons in Hn as [Hi Hn].
    destruct (write_all_step _ _ _ _ _ _ Ht Hi Hw) as (applied1 & t2 & Hw2 & Ht2 & Hf & Hc & _).
    apply (IH Hn t2 Ht2 applied1 Hw2). intros j p' Hj Hp'. rewrite !(resolve_same t t2) by done. by apply (Hother j).
Qed.
End Undo.

(** ** Witnesses *)
Import (hints) XmpWitness.
Module EditWitness.
Definition place_of (names : list string) : Path := RootDir :: (Normal ∘ lit <$> names).
Definition dirs : Files := mkFiles {[ [RootDir] := Folder; place_of ["p"] := Folder ]} [RootDir] 0.
Definition tree : Files := set_nodes (<[place_of ["p"; "a.xmp"] := Plain [1; 2]]> (nodes dirs)) dirs.
Lemma dirs_ok : tree_ok dirs.
Proof.
  split; [done|done|..].
  - intros k v. unfold dirs. cbn [nodes]. rewrite lookup_insert_Some, lookup_singleton_Some.
    intros [[<- _]|(_ & <- & _)]; [by exists []|by exists [lit "p"]].
  - intros names n v. unfold dirs. cbn [nodes]. rewrite lookup_insert_Some, lookup_singleton_Some.
    intros [[He _]|(_ & He & _)].
    + injection He as He. symmetry in He. by apply app_nil in He as [_ He].
    + destruct names as [|m names]; [done|]. injection He as _ He. symmetry in He. by apply app_nil in He as [_ He].
Qed.
Lemma tree_is_ok : tree_ok tree.
Proof. by apply (tree_ok_put dirs (place_of ["p"]) (lit "a.xmp")); [apply dirs_ok|..]. Qed.
Definition at_path (p : string) : AbstractData :=
  Image (mkImage (mkObject (lit "h") TImage false None (Some (lit "d")) {[ lit "cat" ]} (Some 4) 0)
    (mkImageMeta 1 1 1 (lit "jpg") None None ∅ (Some (mkEntry (lit p) 0 0 true)))).
(** The second item's directory does not exist. *)
Definition edited (second : string) : list EditedItem :=
  [mkEdited (lit "1") (at_path "/p/a.jpg"); mkEdited (lit "2") (at_path second)].
Lemma edited_named second : is_some (file_name (components (lit second))) = true ->
  Forall (fun i => named (ed_data i)) (edited second).
Proof.
  intros H. repeat constructor; intros e [= <-]; cbn; [by eexists|]. destruct (file_name _); [by eexists|done].
Qed.
Definition count (id : str) (d : AbstractData) (s : nat) : app_result unit * nat := (Ok tt, S s).
Abbreviation failed_run := (write_all write_sidecar_for (edited "/q/b.jpg") [] tree).
Lemma run_failed : exists e, failed_run = (Err e, failed_run.1.2, failed_run.2).
Proof.
  assert (is_ok failed_run.1.1 = false) as H by (by vm_compute).
  destruct failed_run as [[[[]|e] a] t]; [done|by exists e].
Qed.
Abbreviation good_run := (commit_metadata_edits count (edited "/p/b.jpg") tree 0%nat).
Lemma run_succeeded : good_run = (Ok tt, good_run.1.2, 2%nat).
Proof.
  assert (is_ok good_run.1.1 && (good_run.2 =? 2)%nat = true) as H by (by vm_compute).
  destruct good_run as [[[[]|e] t] n]; [|done]. cbn in *. by apply Nat.eqb_eq in H as ->.
Qed.
End EditWitness.

Lemma failed_edit_undone_witness : exists e t',
  commit_metadata_edits EditWitness.count (EditWitness.edited "/q/b.jpg") EditWitness.tree 0%nat = (Err e, t', 0%nat) /\
  nodes t' !! EditWitness.place_of ["p"; "a.xmp"] = Some (Plain [1; 2]).
Proof.
  destruct EditWitness.run_failed as [e He].
  destruct (failed_edit_undone EditWitness.count (EditWitness.edited "/q/b.jpg") EditWitness.tree 0%nat e _ _
    EditWitness.tree_is_ok (EditWitness.edited_named "/q/b.jpg" eq_refl) He) as (H1 & _ & H3); [by intros m _|].
  exists e. eexists. split; [exact H1|]. etrans; [symmetry; apply H3|reflexivity].
  apply (xmp_not_tmp (EditWitness.place_of ["p"]) (lit "a")).
Defined.
Lemma stored_edit_is_in_its_sidecar_witness : exists old bytes,
  new_content (EditWitness.at_path "/p/a.jpg") old = Ok bytes /\
  node_at (EditWitness.place_of ["p"; "a.xmp"]) EditWitness.good_run.1.2 = Some (Plain bytes).
Proof.
  refine (stored_edit_is_in_its_sidecar EditWitness.count [] (mkEdited (lit "1") (EditWitness.at_path "/p/a.jpg"))
    [mkEdited (lit "2") (EditWitness.at_path "/p/b.jpg")] EditWitness.tree 0%nat (Ok tt) _ 2%nat _
    EditWitness.tree_is_ok (EditWitness.edited_named "/p/b.jpg" eq_refl) EditWitness.run_succeeded (or_introl eq_refl) eq_refl _).
  intros i p' ->%list_elem_of_singleton [= <-]. by vm_compute.
Defined.
