(* ===== verification/Desk.v ===== *)
(** * Desk: the state the editing handlers work on, and the tree update
      ([backend/src/tasks/batcher/update_tree.rs], [tasks/actor/album.rs])

    A handler that edits assets works on the server of [Accounts], the file tree,
    the in-memory tree and the intake of album updates.  Its file access rules are
    asked of the file tree as it is when the handler asks.  The tree update runs
    the pending album self-updates; it is modelled up to its end when it runs
    ([c_refreshed]), and not at all when the executor could not run it. *)

From S2P Require Import Snapshots.
From S2P Require Import Prelude Errors Redb Password UserStore Revocations Invites LoginThrottle.
From S2P Require Import Paths Formats Model MetadataRecord AlbumUpdate DirAlbum Tokens RouterAuth IndexStore.
From S2P Require Import DirAlbumStore Accounts DataPages FileTree.

Record Desk := mkDesk {
  server : Server;
  files : Files;
  memory : Tree;
  submits : list str    (* album ids handed to the intake, in order *)
}.
Definition with_server s d := mkDesk s (files d) (memory d) (submits d).
Definition with_files t d := mkDesk (server d) t (memory d) (submits d).
Definition with_memory m d := mkDesk (server d) (files d) m (submits d).
Definition submit i d := mkDesk (server d) (files d) (memory d) (submits d ++ [i]).
Definition the_index (d : Desk) : Index := index (library (server d)).
Definition the_albums (d : Desk) : Albums := albums (library (server d)).
Definition with_index ix d := with_server (with_library (mkLib ix (the_albums d)) (server d)) d.
Definition with_albums a d := with_server (with_library (mkLib (the_index d) a) (server d)) d.

(** What a handler's calls meet outside: the random timestamps of records without
    one, the drawn identifiers, and whether the intake takes an album. *)
Class Outside := {
  random_time : str -> Z;
  drawn : nat -> str;
  taken : str -> result str unit
}.

(** ** Handlers over the desk *)
Definition Work (A : Type) : Type := Desk -> result Stop A * Desk.
Definition answer {A} (a : A) : Work A := fun d => (Ok a, d).
Definition next {A B} (m : Work A) (k : A -> Work B) : Work B := fun d =>
  match m d with (Ok a, d') => k a d' | (Err e, d') => (Err e, d') end.
Declare Scope work_scope.
Delimit Scope work_scope with work.
Notation "'let!' x ':=' m 'in' k" := (next m (fun x => k))
  (at level 200, x pattern, m at level 100, k at level 200) : work_scope.
Open Scope work_scope.

Definition hoist {A} (r : app_result A) : Work A := fun d => (map_err Failed r, d).
Definition refuse {A} (k : ErrorKind) (msg : str) : Work A := hoist (fail k msg).
(** Look at the state. *)
Definition asks {A} (f : Desk -> app_result A) : Work A := fun d => (map_err Failed (f d), d).
Definition on_server {A} (m : Api A) : Work A := fun d =>
  let '(r, s) := m (server d) in (r, with_server s d).
Definition on_tables {A} (m : Io A) (k : result str A -> app_result A) : Work A := fun d =>
  let '(r, ix) := m (the_index d) in (map_err Failed (k r), with_index ix d).
(** A file call whose outcome the handler looks at. *)
Definition on_files {A} (m : Call A) : Work (io_result A) := fun d =>
  let '(r, t) := m (files d) in (Ok r, with_files t d).
(** The closure of [spawn_blocking]: a panic in it is a join error. *)
Definition on_pool_ {A} (c : Ctx) (msg : str) (m : Work A) : Work A := fun d =>
  match or_raise Internal msg (c_join c) with
  | Err e => (Err (Failed e), d)
  | Ok _ =>
      let '(r, d) := m d in
      (match r with
       | Err Panicked => map_err Failed (or_raise Internal msg (Err (lit "panic")))
       | _ => r
       end, d)
  end.
Abbreviation in_pool c := (on_pool_ c (lit "Failed to join blocking task")).
Fixpoint for_each {A} (l : list A) (f : A -> Work unit) : Work unit :=
  match l with [] => answer tt | x :: l' => let! _ := f x in for_each l' f end.

Section Desk.
Context {Jc : JsonCodec} {Lh : LegacyHash} {Ca : Casing} {Cr : Crypto} {J : Jwt} {Tc : TokenCodec}.
Context {Io_ : IoFaults} {Ch : Chrono} {O : Outside}.

Definition caller_of (c : Ctx) : Work str :=
  let! claims := asks (fun d => user_claims c (server d)) in
  let! _ := asks (fun d => may_mutate c (server d)) in
  answer (caller_identity claims).1.

(** [write_gate] on the files as they are; every denial gets the same message. *)
Definition gate (c : Ctx) (caller : str) (source dest : option Path) (msg : string) : Work unit :=
  asks (fun d => map_err (fun _ => new_error PermissionDenied (lit msg))
                   (write_gate (F:=fs_of (files d)) (c_roots c) caller source dest)).
Definition gate_data (c : Ctx) (caller : str) (msg : string) (a : AbstractData) : Work unit :=
  match visibility_path a with
  | Some p => gate c caller (Some (components p)) None msg
  | None => answer tt
  end.

(** ** [album_task] ([actor/album.rs]) *)
(** The album's row composed, when its record and its payload are an album's. *)
Definition album_view (now : Z) (i : str) (ix : Index) : option AlbumCombined :=
  match by_id ix !! i, payloads ix !! i with
  | Some (Some record), Some (MAlbum p) =>
      match compose_abstract_data now record (Some (MAlbum p)) with Album a => Some a | _ => None end
  | _, _ => None
  end.
Definition alb_set_pending (b : bool) (a : AlbumCombined) : AlbumCombined :=
  mkAlbum (mkObject (id (alb_object a)) (obj_type (alb_object a)) b (thumbhash (alb_object a))
    (description (alb_object a)) (tags (alb_object a)) (rating (alb_object a)) (update_at (alb_object a)))
    (alb_metadata a).
(** The media of the tree that say they are in the album. *)
Definition members_of (i : str) (tree : list DatabaseTimestamp) : list str :=
  omap (fun t => match abstract_data t with
                 | Album _ => None
                 | d => if bool_decide (get_album d = Some i) then Some (ts_asset_id t) else None
                 end) tree.
Definition set_rec_album (o : option str) (r : AssetRecord) : AssetRecord :=
  mkAsset (asset_id r) (kind r) (rec_path r) (content_hash r) (file_size r) (rec_ext r)
    (rec_modified r) (rec_scan_time r) (rec_trashed r) o.
Fixpoint clear_members {Rd : Redb} (i : str) (ids : list str) (t : gmap str (option AssetRecord))
  : result str (gmap str (option AssetRecord)) :=
  match ids with
  | [] => Ok t
  | m :: ids' =>
      _ ← redb (Get m);
      match t !! m with
      | Some (Some r) =>
          if bool_decide (rec_album r = Some i)
          then _ ← redb (Insert m); clear_members i ids' (<[m := Some (set_rec_album None r)]> t)
          else clear_members i ids' t
      | _ => clear_members i ids' t
      end
  end.
Definition album_txn {Rd : Redb} (now : Z) (tree : list DatabaseTimestamp) (i : str) (ix : Index)
  : result str Index :=
  _ ← context "begin_write failed (album)" (redb BeginWrite);
  _ ← redb OpenTable;
  _ ← redb (Get i);
  ix ← match album_view now i ix with
       | Some a =>
           let a := alb_set_pending false (self_update now tree (alb_set_pending true a)) in
           _ ← redb (Insert i);
           Ok (set_payloads (<[i := to_metadata_record (Album a)]> (payloads ix)) ix)
       | None => t ← clear_members i (members_of i tree) (by_id ix); Ok (set_by_id t ix)
       end;
  _ ← context "commit failed (album)" (redb Commit);
  Ok ix.
Definition run_album_task {Fa : Fates} (now : Z) (tree : list DatabaseTimestamp) (i : str) : Io unit := fun ix =>
  match album_txn (Rd:=fate (ticks ix)) now tree i ix with
  | Ok ix' => (Ok tt, tick ix')
  | Err e => (Err e, tick ix)
  end.
Definition album_task (c : Ctx) : list DatabaseTimestamp -> str -> Io unit :=
  run_album_task (Fa:=c_fates c) (c_now c).

(** ** [UpdateTreeTask] *)
Definition update_tree_task (c : Ctx) : Desk -> result str unit * Desk := fun d =>
  let '(r, ix) := refresh_tree_cache (Fa:=c_fates c) (c_now c) random_time (the_index d) (memory d) in
  let d := with_index ix d in
  match r with Ok m => (Ok tt, with_memory m d) | Err e => (Err e, d) end.
Definition run_album_tasks (c : Ctx) (pending : list str) (d : Desk) : Desk :=
  foldl (fun d i => with_index (album_task c (in_memory (memory d)) i (the_index d)).2 d) d pending.
Definition update_tree (c : Ctx) : Desk -> result str unit * Desk := fun d =>
  match update_tree_task c d with
  | (Err e, d) => (Err e, d)
  | (Ok _, d) =>
      let '(pending, a) := drain_pending_album_updates (the_albums d) in
      let d := with_albums a d in
      if is_empty pending then (Ok tt, d) else update_tree_task c (run_album_tasks c pending d)
  end.
(** [execute_batch_waiting(UpdateTreeTask)]. *)
Definition tree_updated (c : Ctx) (msg : string) : Work unit := fun d =>
  match c_refreshed c with
  | Err e => (map_err Failed (or_raise Internal (lit msg) (Err e)), d)
  | Ok _ => let '(r, d) := update_tree c d in (map_err Failed (or_raise Internal (lit msg) r), d)
  end.
(** [execute_batch_waiting(FlushTreeTask)] for the given lists. *)
Definition flush (c : Ctx) (inserts removes : list AbstractData) : Desk -> result str unit * Desk := fun d =>
  match c_refreshed c with
  | Err e => (Err e, d)
  | Ok _ =>
      match flush_tables (Fa:=c_fates c) (F:=fs_of (files d)) (c_now c) drawn inserts removes (library (server d)) with
      | Ok l => (Ok tt, with_server (with_library l (server d)) d)
      | Err l => (Err (lit "panicked"), with_server (with_library l (server d)) d)
      end
  end.
(** Its outcome is dropped where the handler only drains. *)
Definition drain_flush (c : Ctx) : Work unit := fun d => (Ok tt, (flush c [] [] d).2).
End Desk.

(** ** Steps that only read *)
Lemma refresh_tables {Fa : Fates} {Ch : Chrono} now random ix t r ix' : refresh_tree_cache now random ix t = (r, ix') -> same_tables ix ix'.
Proof. unfold refresh_tree_cache, build_from_asset_tables. split_matches; by intros [= _ <-]. Qed.
(** Nothing but the transaction counter moved. *)
Definition idle (d d' : Desk) : Prop := exists n, d' = with_index (at_transaction n (the_index d)) d.
Lemma idle_refl d : idle d d.
Proof. exists (ticks (the_index d)). by destruct d as [[? ? ? [[] ?] ? ? ?] ? ? ?]. Qed.
Lemma idle_trans a b c : idle a b -> idle b c -> idle a c.
Proof. intros [n ->] [m ->]. by exists m. Qed.
#[export] Instance idle_preorder : PreOrder idle.
Proof. split; [exact idle_refl|exact idle_trans]. Qed.
Lemma idle_index n d : idle d (with_index (at_transaction n (the_index d)) d).
Proof. by exists n. Qed.

(** The rows of an asset, as a view. *)
Definition view_of (c : Ctx) (ix : Index) (i : str) : option AbstractData :=
  match by_id ix !! i with
  | Some (Some r) => Some (compose_abstract_data (c_now c) r (payloads ix !! i))
  | _ => None
  end.
Lemma view_of_at c n ix i : view_of c (at_transaction n ix) i = view_of c ix i.
Proof. done. Qed.
Lemma compose_visibility now r m : visibility_path (compose_abstract_data now r m) = Some (rec_path r).
Proof.
  unfold compose_abstract_data. destruct (kind r); [destruct (option_filter _ m) as [[]|]; done..|].
  by destruct (option_filter _ m) as [[]|].
Qed.

Section Reading.
Context {Jc : JsonCodec} {Lh : LegacyHash} {Ca : Casing} {Cr : Crypto} {J : Jwt} {Tc : TokenCodec}.

Lemma next_Ok {A B} (m : Work A) (k : A -> Work B) d b d' :
  next m k d = (Ok b, d') -> exists a d1, m d = (Ok a, d1) /\ k a d1 = (Ok b, d').
Proof. unfold next. destruct (m d) as [[a|e] d1]; [|done]. eauto. Qed.
Lemma next_cases {A B} (m : Work A) (k : A -> Work B) d r d' : next m k d = (r, d') ->
  (exists a d1, m d = (Ok a, d1) /\ k a d1 = (r, d')) \/ (exists e, m d = (Err e, d') /\ r = Err e).
Proof. unfold next. destruct (m d) as [[a|e] d1]; [eauto|intros [= <- <-]; eauto]. Qed.
Lemma hoist_idle {A} (r : app_result A) d : (hoist r d).2 = d.
Proof. done. Qed.

Lemma get_asset_by_id_view {Fa : Fates} i ix : exists n r,
  IndexStore.get_asset_by_id i ix = (r, at_transaction n ix) /\
  (forall o, r = Ok o -> o = mjoin (by_id ix !! i) /\ by_id ix !! i <> Some None).
Proof.
  unfold IndexStore.get_asset_by_id, reading, tick. eexists _, _. split; [reflexivity|].
  intros o (? & _ & (? & _ & (? & _ & H)%bind_Ok)%bind_Ok)%bind_Ok. destruct (by_id ix !! i) as [[r|]|]; try done;
    by injection H as <-.
Qed.
Lemma compose_by_asset_id_view c i ix : exists n r,
  compose_by_asset_id c i ix = (r, at_transaction n ix) /\ forall o, r = Ok o -> o = view_of c ix i.
Proof.
  unfold compose_by_asset_id, and_then.
  destruct (get_asset_by_id_view (Fa:=c_fates c) i ix) as (n & r & -> & Hr).
  destruct r as [o|e]; [|exists n, (Err e); by split]. destruct (Hr o eq_refl) as [-> Hne]. unfold view_of.
  destruct (by_id ix !! i) as [[record|]|]; try done; cbn [mjoin option_join]; [|exists n, (Ok None); split; [done|by intros ? [= <-]]].
  unfold load_metadata_record, tick. cbn.
  destruct (redb BeginRead); cbn; [|by eexists _, _]. destruct (redb OpenTable); cbn; [|by eexists _, _].
  destruct (redb (Get i)); cbn; [|by eexists _, _]. eexists _, _. split; [reflexivity|]. by intros ? [= <-].
Qed.

Definition may_write (c : Ctx) (caller : str) (d : Desk) (r : AssetRecord) : Prop :=
  visible_to (F:=fs_of (files d)) (c_roots c) caller (components (rec_path r)) = true.
Lemma write_gate_source {F : Fs} cfg caller p : write_gate cfg caller (Some p) None = Ok tt -> visible_to cfg caller p = true.
Proof. unfold write_gate. cbn. apply gate_side_visible. Qed.
Lemma write_gate_both {F : Fs} cfg caller s e : write_gate cfg caller (Some s) (Some e) = Ok tt ->
  visible_to cfg caller s = true /\ visible_to cfg caller e = true.
Proof.
  unfold write_gate. destruct (match classify_path cfg s with Personal _ => _ | _ => _ end); [done|]. cbn.
  intros (x & H1 & H2)%bind_Ok. destruct x. by rewrite gate_side_visible in H1, H2.
Qed.
Lemma gate_data_spec c caller msg a d r d' : gate_data c caller msg a d = (r, d') ->
  d' = d /\ (r = Ok tt -> forall p, visibility_path a = Some p ->
             visible_to (F:=fs_of (files d)) (c_roots c) caller (components p) = true).
Proof.
  unfold gate_data. destruct (visibility_path a) as [p|]; [|by intros [= <- <-]].
  unfold gate, asks. intros [= <- <-]. split; [done|]. intros Hg q [= <-].
  apply (write_gate_source (F:=fs_of (files d))). destruct (write_gate _ _ _ _) as [[]|]; [done|done].
Qed.
Lemma idle_view c d d' i : idle d d' -> view_of c (the_index d') i = view_of c (the_index d) i.
Proof. by intros [n ->]. Qed.
Lemma idle_records d d' : idle d d' -> by_id (the_index d') = by_id (the_index d).
Proof. by intros [n ->]. Qed.
Lemma idle_files d d' : idle d d' -> files d' = files d.
Proof. by intros [n ->]. Qed.
Lemma in_pool_cases {A} c msg (m : Work A) d r d' : on_pool_ c msg m d = (r, d') ->
  (d' = d /\ is_ok r = false) \/ exists r0, m d = (r0, d') /\ is_ok r = is_ok r0 /\ forall a, r = Ok a -> r0 = Ok a.
Proof.
  unfold on_pool_. destruct (or_raise _ _ (c_join c)); [|intros [= <- <-]; by left].
  destruct (m d) as [r0 d1]. intros [= <- <-]. right. exists r0. split; [done|]. by destruct r0 as [|[]].
Qed.
Lemma caller_of_cases c d r d' : caller_of c d = (r, d') -> d' = d /\ forall caller, r = Ok caller ->
  exists claims, user_claims c (server d) = Ok claims /\ may_mutate c (server d) = Ok tt /\ caller = (caller_identity claims).1.
Proof.
  unfold caller_of, next, asks, answer. destruct (user_claims c (server d)) as [claims|]; [|by intros [= <- <-]]. cbn.
  destruct (may_mutate c (server d)) as [[]|]; cbn; intros [= <- <-]; [|done]. split; [done|]. intros ? [= <-]. by exists claims.
Qed.
Lemma with_files_id d : with_files (files d) d = d.
Proof. by destruct d. Qed.
End Reading.
