(* ===== verification/Cascade.v ===== *)
(** * Cascade: the follow-ups of the writer, beside the writer
      ([cascade_loop], [handle_cascade] of [backend/src/tasks/queue/writer.rs],
      [run_cpu] of [tasks/queue/bridge.rs], [batcher/update_expire.rs] and
      [batcher/expire_check.rs])

    The cascade task takes the entries of [Writer] one by one and works through
    their stages: the tree is rebuilt, the albums marked since the last time
    recompute their statistics, the tree is rebuilt again, the expiry bookkeeping
    moves on and expired query results are swept.  A stage is one step of the
    world, so that the writer may write between any two of them.  A panic inside
    [run_cpu] leaves the closure of [rayon::spawn] on a pool without a panic
    handler, which aborts the process; a panic outside ends the cascade task. *)

From S2P Require Import Snapshots.
From S2P Require Import Prelude Errors Redb Paths Model MetadataRecord AlbumUpdate DirAlbum IndexStore Writer Desk.

(** The tables with the album caches, the tree, and the caches of query results;
    their version is [VERSION_COUNT_TIMESTAMP], which the tree shares. *)
Record Live := mkLive { lib : Library_; mem : list DatabaseTimestamp; caches : Snapshots }.
Definition with_lib (b : Library_) (l : Live) : Live := mkLive b (mem l) (caches l).
Definition with_caches (s : Snapshots) (l : Live) : Live := mkLive (lib l) (mem l) s.

(** Where the cascade task stands in an entry; [Updating []] is the second rebuild. *)
Inductive Stage :=
| Rebuild | DrainPending | Updating (pending : list str) | Bookkeeping | Sweeping | Finished.
(** How a stage ends: with the next one, with the process, or with the task. *)
Inductive After := Goes (st : Stage) (l : Live) | Aborts | Dies (l : Live).

Definition first_stage (c : CascadeOp) : Stage :=
  match c with UpdateTreeChain => Rebuild | ExpireRound => Sweeping | Noop => Finished end.

(** [run_cpu]; the closures of the cascade return [Ok] or panic. *)
Definition run_cpu (st : Stage) (r : option Live) : After :=
  match r with Some l => Goes st l | None => Aborts end.

Section Stages.
Context {Fa : Fates} {Ch : Chrono} {St : Store} {Ou : Outside}.

Definition refresh (now : Z) (l : Live) : option Live :=
  match refresh_tree_cache now random_time (index (lib l)) (mkTree (mem l) (Snapshots.version (caches l))) with
  | (Ok t, ix) =>
      Some (mkLive (mkLib ix (albums (lib l))) (in_memory t) (store_version (IndexStore.version t) (caches l)))
  | (Err _, _) => None
  end.

(** The transaction of [update_expire_task]; every failure panics. *)
Definition expire_txn (last_timestamp now : Z) : result str unit :=
  _ ← store SBeginWrite; _ ← store SOpen;
  _ ← store (SInsert (as_usize last_timestamp)); _ ← store (SInsert (as_usize now));
  store SCommit.
(** [expire_check_task], whose transaction must begin, list the tables and commit. *)
Definition expire_round (now : Z) (order : list Z) (s : Snapshots) : option Snapshots :=
  if is_ok (store SBeginWrite) && is_ok (store SIter)
  then s' ← expire_check_task now order s; if is_ok (store SCommit) then Some s' else None
  else None.

(** One stage; [now] is the clock when it runs and [order] the order of the
    sweep's visits. *)
Definition stage_step (now : Z) (order : list Z) (st : Stage) (l : Live) : After :=
  match st with
  | Rebuild => run_cpu DrainPending (refresh now l)
  | DrainPending =>
      let '(pending, a) := drain_pending_album_updates (albums (lib l)) in
      Goes (if is_empty pending then Bookkeeping else Updating pending) (with_lib (mkLib (index (lib l)) a) l)
  | Updating (i :: rest) =>
      Goes (Updating rest)
        (with_lib (mkLib (run_album_task now (mem l) i (index (lib l))).2 (albums (lib l))) l)
  | Updating [] => run_cpu Bookkeeping (refresh now l)
  | Bookkeeping =>
      let last_timestamp := Snapshots.version (caches l) in
      if (0 <? last_timestamp)%Z && negb (is_ok (expire_txn last_timestamp now))
      then Dies (with_caches (store_version now (caches l)) l)
      else let '(due, s) := update_expire_task now (caches l) in
           Goes (if due then Sweeping else Finished) (with_caches s l)
  | Sweeping => run_cpu Finished (s ← expire_round now order (caches l); Some (with_caches s l))
  | Finished => Goes Finished l
  end.

(** [handle_cascade] when nothing comes between; [clock] is read at each stage. *)
Fixpoint stages (fuel : nat) (clock : Stage -> Z) (order : list Z) (st : Stage) (l : Live) : After :=
  match fuel with
  | O => Goes st l
  | S fuel' =>
      match st with
      | Finished => Goes Finished l
      | _ => match stage_step (clock st) order st l with
             | Goes st' l' => stages fuel' clock order st' l'
             | ended => ended
             end
      end
  end.
(** The stages of an entry: one for each marked album, and five others at most. *)
Definition handle_cascade (clock : Stage -> Z) (order : list Z) (c : CascadeOp) (l : Live) : After :=
  stages (5 + size (pending_updates (albums (lib l)))) clock order (first_stage c) l.
End Stages.

(** ** Writer, cascade and stores together *)
Inductive Condition := Running | CascadeGone | WriterGone | ProcessDown.
Record World := mkWorld { sys : Sys; live : Live; stage : Stage; condition : Condition }.

(** An event of the protocol, with the clock and the identifiers drawn should it
    be one that writes, or a stage of the cascade. *)
Inductive Happens :=
| Protocol (e : Event) (now : Z) (draws : nat -> str)
| Chain (now : Z) (order : list Z).

Definition finished (st : Stage) : bool := match st with Finished => true | _ => false end.

(** The protocol's part: an entry is done when its stages are, and without the
    cascade task its channel is closed, so that queueing only logs. *)
Definition protocol_step (w : World) (e : Event) : option Sys :=
  match e, condition w with
  | ECascadeDone, Running => if finished (stage w) then exec e (sys w) else None
  | ECascadeStart, Running => exec e (sys w)
  | (ECascadeDone | ECascadeStart), _ => None
  | EQueue, CascadeGone =>
      match phase (sys w) with
      | ToQueue seq _ merged => Some (with_phase (ToComplete seq merged) (sys w))
      | _ => None
      end
  | _, _ => exec e (sys w)
  end.

Section World.
Context {Fa : Fates} {F : Fs} {Ch : Chrono} {St : Store} {Ou : Outside}.

(** What the writer does to the tables with the batch it takes. *)
Definition write_batch (now : Z) (draws : nat -> str) (b : list Msg) (l : Library_) : flow :=
  match b with
  | [(_, op)] => handle_op now draws op l
  | _ => merged_flush now draws b.*2 l
  end.
Definition taken_batch (s s' : Sys) : option (list Msg) :=
  if (length (batches s) <? length (batches s'))%nat then last (batches s') else None.
Definition stage_after (e : Event) (s' : Sys) (st : Stage) : Stage :=
  match e, cascading s' with ECascadeStart, Some (_, c) => first_stage c | _, _ => st end.

(** Nothing is said about a process that is down, or that has lost its writer. *)
Definition happen (h : Happens) (w : World) : option World :=
  match h, condition w with
  | _, (WriterGone | ProcessDown) => None
  | Chain now order, Running =>
      match cascading (sys w) with
      | None => None
      | Some _ =>
          if finished (stage w) then None
          else Some match stage_step now order (stage w) (live w) with
                    | Goes st l => mkWorld (sys w) l st Running
                    | Aborts => mkWorld (sys w) (live w) (stage w) ProcessDown
                    | Dies l => mkWorld (sys w) l (stage w) CascadeGone
                    end
      end
  | Chain _ _, CascadeGone => None
  | Protocol e now draws, cond =>
      s' ← protocol_step w e;
      let st := stage_after e s' (stage w) in
      Some match taken_batch (sys w) s' with
           | None => mkWorld s' (live w) st cond
           | Some b =>
               match write_batch now draws b (lib (live w)) with
               | Ok l => mkWorld s' (with_lib l (live w)) st cond
               | Err l => mkWorld (sys w) (with_lib l (live w)) st WriterGone
               end
           end
  end.
Fixpoint run_world (hs : list Happens) (w : World) : option World :=
  match hs with [] => Some w | h :: hs' => w' ← happen h w; run_world hs' w' end.
Definition start_world (l : Live) : World := mkWorld Writer.start l Finished Running.
Definition reachable_world (w : World) : Prop := exists l hs, run_world hs (start_world l) = Some w.
End World.

(** ** What the tree shows *)
(** The rows are those of the tables, composed at [now], newest first. *)
Definition tree_shows {Ch : Chrono} {Ou : Outside} (now : Z) (ix : Index) (rows : list DatabaseTimestamp) : Prop :=
  Sorted tree_le rows /\ length rows = length (records ix) /\
  forall row, row ∈ rows <-> exists i r, by_id ix !! i = Some (Some r) /\
    with_asset_id now (random_time (asset_id r))
      (compose_abstract_data now r (payloads ix !! asset_id r)) priority_list (asset_id r) = Ok row.

(** The operations whose follow-up rebuilds the tree, and those that change the
    tables without one. *)
Definition rebuilds (op : WriteOp) : bool := match op with Flush _ _ | UpdateTree => true | _ => false end.
Definition sweeps (op : WriteOp) : bool := match op with SweepDirAlbums _ | PruneUsersRoot _ => true | _ => false end.
(** The last of these operations is of the first kind. *)
Definition settled (ms : list Msg) : bool :=
  fold_left (fun b (m : Msg) => if rebuilds m.2 then true else if sweeps m.2 then false else b) ms false.

Definition is_chain (c : CascadeOp) : bool := match c with UpdateTreeChain => true | _ => false end.
(** The follow-ups not begun, and those not finished. *)
Definition queued (s : Sys) : list CascadeOp :=
  (cascade_inbox s).*2 ++ match phase s with ToQueue _ c _ => [c] | _ => [] end.
Definition owed (s : Sys) : list CascadeOp :=
  match cascading s with Some (_, c) => [c] | None => [] end ++ queued s.
Definition rebuilding (st : Stage) : bool := match st with Rebuild | Updating _ => true | _ => false end.
Definition awaits (w : World) : Prop :=
  UpdateTreeChain ∈ queued (sys w) \/ is_Some (cascading (sys w)) /\ rebuilding (stage w) = true.

Lemma settled_quiet ms ms' : Forall (fun m => rebuilds m.2 = false) ms' -> settled (ms ++ ms') = true -> settled ms = true.
Proof.
  unfold settled. rewrite fold_left_app. generalize (fold_left (fun b (m : Msg) =>
    if rebuilds m.2 then true else if sweeps m.2 then false else b) ms false) as b.
  intros b Hq. revert b. induction Hq as [|m ms' Hm _ IH]; cbn; [done|]. intros b. rewrite Hm.
  destruct (sweeps m.2); [|apply IH]. intros H. exfalso. by apply (IH false) in H.
Qed.
Lemma settled_snoc ms q op : settled (ms ++ [(q, op)]) = rebuilds op || negb (sweeps op) && settled ms.
Proof. unfold settled. rewrite fold_left_app. cbn. by destruct (rebuilds op), (sweeps op). Qed.

(** Each follow-up that is owed rebuilds exactly when its batch asks for it. *)
Definition wants (b : list Msg) : bool := existsb (fun m : Msg => rebuilds m.2) b.
Lemma wants_run l run rest : leading_flushes l = (run, rest) -> Forall (fun m => is_flush m.2 = true) run.
Proof.
  revert run. induction l as [|m l IH]; cbn; intros run; [by intros [= <- <-]|].
  destruct (is_flush m.2) eqn:Hm; [|by intros [= <- <-]].
  destruct (leading_flushes l) as [run' rest']. intros [= <- <-]. constructor; [done|]. by apply IH.
Qed.
Lemma flush_rebuilds op : is_flush op = true -> rebuilds op = true.
Proof. by destruct op. Qed.
Lemma chain_rebuilds op : is_chain (cascade_of op) = rebuilds op.
Proof. by destruct op. Qed.

Definition owed_ok (s : Sys) : Prop :=
  is_chain <$> owed s = wants <$> drop (cascaded s) (batches s) /\ (cascaded s <= length (batches s))%nat.
Lemma owed_wrote s ph batch rest c q m :
  owed_ok s -> (phase s = Receiving \/ phase s = PopSingle) -> ph = ToQueue q c m -> is_chain c = wants batch ->
  owed_ok (wrote batch rest ph s).
Proof.
  intros [Ho Hc] Hph -> Hw. unfold owed_ok, owed, queued, wrote in *. cbn. split; [|rewrite length_app; lia].
  rewrite drop_app_le, !fmap_app by done. rewrite !fmap_app in Ho. rewrite app_assoc.
  assert (match phase s with ToQueue _ c _ => [c] | _ => [] end = []) as Hn by (by destruct Hph as [-> | ->]).
  rewrite Hn in Ho. cbn in Ho. rewrite app_nil_r in Ho. rewrite Ho. cbn. by rewrite Hw.
Qed.
Lemma owed_same s s' : owed_ok s -> owed s' = owed s -> batches s' = batches s -> cascaded s' = cascaded s -> owed_ok s'.
Proof. unfold owed_ok. by intros [Ho Hc] -> -> ->. Qed.
Lemma owed_done s q c : owed_ok s -> cascading s = Some (q, c) ->
  owed_ok (mkSys (next_seq s) (tasks s) (inbox s) (pending_ops s) (phase s) (completed s) (cascade_inbox s)
    None q (sent s) (batches s) (S (cascaded s))).
Proof.
  intros [Ho Hc] Hb. unfold owed_ok, owed, queued in *. cbn. rewrite Hb in Ho. cbn in Ho.
  destruct (drop (cascaded s) (batches s)) as [|b bs] eqn:Hd; [done|]. injection Ho as _ Ho.
  assert (is_Some (batches s !! cascaded s)) as [b' Hb'] by (by rewrite <-(Nat.add_0_r (cascaded s)), <-lookup_drop, Hd).
  apply lookup_lt_Some in Hb'. split; [|lia]. rewrite Ho. replace (S (cascaded s)) with (cascaded s + 1)%nat by lia.
  by rewrite <-drop_drop, Hd.
Qed.
Lemma owed_exec e s s' : owed_ok s -> exec e s = Some s' -> owed_ok s'.
Proof.
  intros Ho He. destruct e; cbn [exec] in He; repeat (case_match; simplify_eq/=); try exact Ho;
    try (by eapply owed_done).
  all: try (apply (owed_same s); [done| |done|done]; unfold owed, queued; cbn;
    by repeat match goal with H : _ = ?x |- context [?x] => fail 1 | H : ?x = _ |- context [?x] => rewrite H; clear H end;
    rewrite ?fmap_app, ?app_nil_r).
  - eapply owed_wrote; [done|by left|done|]. unfold wants. cbn. by rewrite flush_rebuilds.
  - eapply owed_wrote; [done|by right|done|]. unfold wants. cbn. by rewrite chain_rebuilds, orb_false_r.
  - apply (owed_same s); [done| |done|done]. unfold owed, queued. cbn. rewrite H, H0. by destruct p.
Qed.

(** What an event does to the batches and to the follow-ups. *)
Inductive effect (e : Event) (s s' : Sys) : Prop :=
| effect_none : e <> ECascadeStart -> e <> ECascadeDone -> batches s' = batches s ->
    cascading s' = cascading s -> queued s' = queued s -> effect e s s'
| effect_start q c : e = ECascadeStart -> batches s' = batches s ->
    cascading s = None -> cascading s' = Some (q, c) -> queued s = c :: queued s' -> effect e s s'
| effect_done : e = ECascadeDone -> batches s' = batches s ->
    cascading s' = None -> queued s' = queued s -> effect e s s'
| effect_write b q c m : e <> ECascadeStart -> e <> ECascadeDone -> batches s' = batches s ++ [b] ->
    cascading s' = cascading s -> queued s' = queued s ++ [c] -> phase s' = ToQueue q c m ->
    c = UpdateTreeChain \/ (exists op, b = [(q, op)] /\ c = cascade_of op) -> effect e s s'.
Lemma exec_effect e s s' : exec e s = Some s' -> effect e s s'.
Proof.
  intros He. destruct e; cbn [exec] in He; repeat (case_match; simplify_eq/=); try (by apply effect_none).
  all: try (apply effect_none; [done..|]; unfold queued; cbn; rewrite ?fmap_app;
    by repeat match goal with H : phase _ = _ |- _ => rewrite H; clear H end; rewrite ?app_nil_r).
  - eapply effect_write; try done; [|by left]. unfold queued. cbn. rewrite H. by rewrite app_nil_r.
  - eapply effect_write; try done; [|right; by exists w]. unfold queued. cbn. rewrite H. by rewrite app_nil_r.
  - destruct p as [q c]. eapply effect_start; try done. unfold queued. by rewrite H0.
  - by eapply effect_done.
Qed.
Lemma taken_none s s' : batches s' = batches s -> taken_batch s s' = None.
Proof. unfold taken_batch. intros ->. by rewrite Nat.ltb_irrefl. Qed.
Lemma taken_some s s' b : batches s' = batches s ++ [b] -> taken_batch s s' = Some b.
Proof.
  unfold taken_batch. intros ->. rewrite last_snoc.
  rewrite (proj2 (Nat.ltb_lt _ _)); [done|]. rewrite length_app. cbn. lia.
Qed.

Section Follow.
Context {Fa : Fates} {F : Fs} {Ch : Chrono} {St : Store} {Ou : Outside}.

(** The tree is what a rebuild made of the tables as they are. *)
Definition rebuilt_from (at_ : Z) (from : Index) (l : Live) : Prop :=
  same_tables from (index (lib l)) /\
  exists t t', (refresh_tree_cache at_ random_time from t).1 = Ok t' /\ mem l = in_memory t'.
Definition fresh (l : Live) : Prop := exists at_ from, rebuilt_from at_ from l.

(** The cascade's entry and its stage belong together. *)
Definition stage_fits (w : World) : Prop :=
  match cascading (sys w) with
  | Some (_, UpdateTreeChain) => True
  | Some (_, ExpireRound) => stage w = Sweeping \/ stage w = Finished
  | _ => stage w = Finished
  end.

Record tracked (w : World) : Prop := {
  tr_sys : reachable_sys (sys w);
  tr_owed : owed_ok (sys w);
  tr_fits : stage_fits w;
  tr_fresh : settled (concat (batches (sys w))) = true -> fresh (live w) \/ awaits w
}.

Lemma tree_shows_same now a b rows : same_tables a b -> tree_shows now a rows -> tree_shows now b rows.
Proof. unfold tree_shows, records. by intros (<- & _ & _ & <-). Qed.
Lemma fresh_same l l' : same_tables (index (lib l)) (index (lib l')) -> mem l' = mem l -> fresh l -> fresh l'.
Proof.
  intros Hs Hm (at_ & from & Hf & t & t' & Ht & Hmem). exists at_, from. split; [|by exists t, t'; rewrite Hm].
  destruct Hf as (F1 & F2 & F3 & F4), Hs as (S1 & S2 & S3 & S4). split_and!; congruence.
Qed.
(** When its reads were answered, the tree it left shows those tables. *)
Lemma rebuilt_shows at_ from l : rebuilt_from at_ from l -> refresh_reads from -> tree_shows at_ (index (lib l)) (mem l).
Proof.
  intros (Hs & t & t' & Ht & Hm) Hr. destruct (refresh_tree_cache at_ random_time from t) as [r ix] eqn:Hc.
  cbn in Ht. subst r. apply refresh_tree_rows in Hc as (_ & Hs' & Hl & Hin); [|done].
  rewrite Hm. by apply (tree_shows_same _ from).
Qed.
Lemma refresh_fresh now l l' : refresh now l = Some l' -> fresh l' /\ same_tables (index (lib l)) (index (lib l')).
Proof.
  unfold refresh. intros H. destruct (refresh_tree_cache _ _ _ _) as [[t|e] ix] eqn:Hr; [|done]. injection H as <-.
  pose proof (refresh_tables _ _ _ _ _ _ Hr) as Hsame. split; [|done].
  exists now, (index (lib l)). split; [done|]. eexists _, t. by rewrite Hr.
Qed.

(** What one stage does to the tree's agreement with the tables. *)
Lemma stage_step_fresh now order st l st' l' : stage_step now order st l = Goes st' l' ->
  (rebuilding st = true \/ fresh l) -> finished st = false -> rebuilding st' = true \/ fresh l'.
Proof.
  intros H Hf Hn. destruct st as [| |[|i rest]| | |]; cbn [stage_step] in H; try done.
  - unfold run_cpu in H. destruct (refresh now l) as [l1|] eqn:Hr; [|done]. injection H as <- <-.
    right. by eapply refresh_fresh.
  - cbn in H. injection H as <- <-. destruct Hf as [|Hf]; [done|]. right. by apply (fresh_same l).
  - unfold run_cpu in H. destruct (refresh now l) as [l1|] eqn:Hr; [|done]. injection H as <- <-.
    right. by eapply refresh_fresh.
  - injection H as <- <-. by left.
  - right. destruct Hf as [|Hf]; [done|]. destruct (_ && _); [done|].
    destruct (update_expire_task _ _) as [due s]. injection H as _ <-. by apply (fresh_same l).
  - right. destruct Hf as [|Hf]; [done|]. destruct (_ ≫= _) as [l1|] eqn:He; [|done]. injection H as _ <-.
    apply bind_Some in He as (s & _ & [= <-]). by apply (fresh_same l).
Qed.
Lemma stage_step_fits now order st l st' l' : stage_step now order st l = Goes st' l' ->
  st = Sweeping \/ st = Finished -> st' = Finished.
Proof.
  intros H [->| ->]; cbn in H; [|by injection H as <- _]. destruct (_ ≫= _); [|done]. by injection H as <- _.
Qed.

Lemma protocol_running w e s' : condition w = Running -> protocol_step w e = Some s' ->
  exec e (sys w) = Some s' /\ (e = ECascadeDone -> stage w = Finished).
Proof.
  intros Hc. unfold protocol_step. rewrite Hc. destruct e; try by split.
  by destruct (stage w).
Qed.
Lemma write_quiet now draws q op l l' : rebuilds op = false -> sweeps op = false ->
  write_batch now draws [(q, op)] l = Ok l' -> l' = l.
Proof. destruct op; try done; intros _ _ H; cbn in H; congruence. Qed.

Lemma tracked_protocol e now draws w w' : tracked w -> condition w = Running ->
  happen (Protocol e now draws) w = Some w' -> condition w' = Running -> tracked w'.
Proof.
  intros [Hr Ho Hs Hf] Hc H Hc'. unfold happen in H. rewrite Hc in H.
  apply bind_Some in H as (s' & Hp & H). apply protocol_running in Hp as [He Hdone]; [|done].
  assert (reachable_sys s') as Hr'.
  { destruct Hr as [es Hr]. exists (es ++ [e]). by rewrite run_app, Hr; cbn; rewrite He. }
  pose proof (owed_exec _ _ _ Ho He) as Ho'. apply exec_effect in He as Heff.
  unfold stage_fits, awaits in *.
  destruct Heff as [Hne1 Hne2 Hb Hcs Hq|q c -> Hb Hn Hcs Hq| -> Hb Hcs Hq|b q c m Hne1 Hne2 Hb Hcs Hq Hph Hop].
  - rewrite (taken_none _ _ Hb) in H. injection H as <-.
    assert (stage_after e s' (stage w) = stage w) as Hst by (by destruct e).
    split; [done|done| |]; unfold stage_fits, awaits; cbn [sys live stage]; rewrite ?Hcs, ?Hst, ?Hb, ?Hq; done.
  - rewrite (taken_none _ _ Hb) in H. injection H as <-.
    split; [done|done| |]; unfold stage_fits, awaits; cbn [sys live stage]; unfold stage_after; rewrite ?Hcs, ?Hb.
    + destruct c; [done|by left|done].
    + intros Hset. destruct (Hf Hset) as [|[Hin|[[? Hx] _]]]; [by left| |congruence]. rewrite Hq in Hin.
      apply elem_of_cons in Hin as [<-|]; [|by right; left]. right; right. by split.
  - rewrite (taken_none _ _ Hb) in H. injection H as <-. cbn [stage_after]. rewrite Hdone in * by done.
    split; [done|done| |]; unfold stage_fits, awaits; cbn [sys live stage]; rewrite ?Hcs, ?Hb; [done|].
    intros Hset. destruct (Hf Hset) as [|[|[_ ?]]]; [by left|right; left; by rewrite Hq|done].
  - rewrite (taken_some _ _ _ Hb) in H. assert (stage_after e s' (stage w) = stage w) as Hst by (by destruct e).
    destruct (write_batch _ _ _ _) as [l|l] eqn:Hw; injection H as <-; [|done].
    split; [done|done| |]; unfold stage_fits, awaits; cbn [sys live stage with_lib]; rewrite ?Hcs, ?Hst, ?Hb, ?Hq; [done|].
    rewrite elem_of_app, list_elem_of_singleton. destruct Hop as [->|(op & -> & ->)]; [by right; left; right|].
    rewrite concat_app. cbn [concat]. rewrite app_nil_r, settled_snoc, <-chain_rebuilds.
    destruct (cascade_of op) eqn:Hop; [by right; left; right|..]; cbn [is_chain orb]; intros [Hsw Hset]%andb_true_iff.
    all: apply write_quiet in Hw as ->; [|by rewrite <-chain_rebuilds, Hop|by destruct (sweeps op)].
    all: destruct (Hf Hset) as [|[|]]; [by left|right; left; by left|by right; right].
Qed.
Lemma tracked_chain now order w w' : tracked w -> condition w = Running ->
  happen (Chain now order) w = Some w' -> condition w' = Running -> tracked w'.
Proof.
  intros [Hr Ho Hs Hf] Hc H Hc'. unfold happen in H. rewrite Hc in H.
  destruct (cascading (sys w)) as [[q c]|] eqn:Hcs; [|done]. destruct (finished (stage w)) eqn:Hfin; [done|].
  injection H as <-. destruct (stage_step _ _ _ _) as [st l| |l] eqn:Hst; [|done..].
  split; [done|done| |]; unfold stage_fits, awaits in *; cbn [sys live stage]; rewrite Hcs in *.
  - destruct c; [done|right; by eapply stage_step_fits|]. rewrite Hs in Hfin. done.
  - intros Hset. destruct (Hf Hset) as [Hfr|[Hin|[_ Hre]]]; [| |].
    + destruct (stage_step_fresh _ _ _ _ _ _ Hst (or_intror Hfr) Hfin); [right; right; by split|by left].
    + by right; left.
    + destruct (stage_step_fresh _ _ _ _ _ _ Hst (or_introl Hre) Hfin); [right; right; by split|by left].
Qed.
Lemma running_before h w w' : happen h w = Some w' -> condition w' = Running -> condition w = Running.
Proof.
  unfold happen. destruct (condition w) eqn:Hc; try by destruct h. intros H. destruct h; [|done].
  apply bind_Some in H as (s' & _ & H). destruct (taken_batch _ _); [destruct (write_batch _ _ _ _)|]; by injection H as <-.
Qed.
Lemma tracked_reachable w : reachable_world w -> condition w = Running -> tracked w.
Proof.
  intros (l & hs & Hrun). assert (tracked (start_world l)) as H0.
  { split; [by exists []|by split|done|done]. }
  revert H0 Hrun. generalize (start_world l). induction hs as [|h hs IH]; cbn; intros w0 H0 Hrun Hc; [by injection Hrun as <-|].
  apply bind_Some in Hrun as (w1 & Hh & Hrun). apply (IH w1); [|done|done].
  assert (condition w1 = Running) as Hc1.
  { revert w1 Hh Hrun. clear IH. intros w1 _. revert w1. induction hs as [|h' hs IH]; cbn; intros w1 Hrun; [by injection Hrun as ->|].
    apply bind_Some in Hrun as (w2 & Hh & Hrun). eapply running_before; eauto. }
  pose proof (running_before _ _ _ Hh Hc1). destruct h; [by eapply tracked_protocol|by eapply tracked_chain].
Qed.

(** Follow-ups of batches without a rebuild leave nothing to wait for. *)
Lemma nothing_awaited w : tracked w ->
  Forall (fun b => wants b = false) (drop (cascaded (sys w)) (batches (sys w))) -> ~ awaits w.
Proof.
  intros [_ [Ho _] Hs _] Hq Hw.
  assert (Forall (fun c => is_chain c = false) (owed (sys w))) as Hno.
  { apply Forall_fmap with (f := is_chain) (P := fun b => b = false). rewrite Ho. by apply Forall_fmap. }
  unfold owed in Hno. apply Forall_app in Hno as [Hcur Hqueue]. destruct Hw as [Hin|[[[q c] Hc] Hre]].
  - by eapply Forall_forall in Hqueue; [|exact Hin].
  - rewrite Hc in Hcur. apply Forall_cons in Hcur as [Hcur _]. unfold stage_fits in Hs. rewrite Hc in Hs.
    destruct c; [done|destruct Hs as [Hs|Hs]; by rewrite Hs in Hre|by rewrite Hs in Hre].
Qed.

(** C6: A barrier that returns while the writer and the cascade task run leaves a tree
    rebuilt from the tables as they are: unless a flush or a rebuild was sent after the
    barrier looked, and provided the last such operation was not followed by a directory
    sweep, and whatever else the writer and the cascade were doing in between.  If the
    reads of that rebuild were answered, the tree has exactly one row for each record,
    composed with its payload, newest first; a rebuild whose reads fail may leave fewer
    rows, or none. *)
Theorem barrier_sees_its_work w w' t before seq target now draws :
  reachable_world w -> condition w = Running ->
  tasks (sys w) !! t = Some (HalfChecked before seq target) ->
  happen (Protocol (ECheckCascade t) now draws) w = Some w' -> tasks (sys w') !! t = None ->
  (forall j m, (before <= j)%nat -> sent (sys w) !! j = Some m -> rebuilds m.2 = false) ->
  settled (sent (sys w)) = true ->
  exists built from, rebuilt_from built from (live w') /\
    (refresh_reads from -> tree_shows built (index (lib (live w'))) (mem (live w'))).
Proof.
  intros Hr Hc Ht Hh Hgone Hafter Hset. pose proof (tracked_reachable _ Hr Hc) as Htr.
  unfold happen in Hh. rewrite Hc in Hh. apply bind_Some in Hh as (s' & Hp & Hh).
  apply protocol_running in Hp as [He _]; [|done].
  assert (taken_batch (sys w) s' = None) as Hnone.
  { apply taken_none. cbn [exec] in He. rewrite Ht in He. destruct (_ <=? _); by injection He as <-. }
  rewrite Hnone in Hh. injection Hh as <-. cbn [live sys] in *.
  destruct (barrier_waited _ _ _ _ _ _ (tr_sys _ Htr) Ht He Hgone) as (_ & _ & Hlen & _).
  pose proof (inv_reachable _ (tr_sys _ Htr)) as HI. pose proof (inv_fifo _ HI) as Hfifo.
  assert (sent (sys w) = concat (take (cascaded (sys w)) (batches (sys w))) ++
    concat (drop (cascaded (sys w)) (batches (sys w))) ++ pending_ops (sys w) ++ inbox (sys w)) as Hall.
  { by rewrite app_assoc, <-concat_app, take_drop. }
  assert (Forall (fun m => rebuilds m.2 = false)
    (concat (drop (cascaded (sys w)) (batches (sys w))) ++ pending_ops (sys w) ++ inbox (sys w))) as Hrest.
  { apply Forall_lookup. intros k m Hk.
    apply (Hafter (length (concat (take (cascaded (sys w)) (batches (sys w)))) + k)%nat); [lia|].
    rewrite Hall, lookup_app_r by lia. by replace (_ + k - _)%nat with k by lia. }
  rewrite Hfifo in Hset. apply Forall_app in Hrest as [Hdrop Hrest].
  apply settled_quiet in Hset; [|done].
  destruct (tr_fresh _ Htr Hset) as [(built & from & Hf)|Ha]; [exists built, from; split; [exact Hf|]; by apply rebuilt_shows|]. exfalso. revert Ha. apply nothing_awaited; [done|].
  apply Forall_lookup. intros k b Hb. unfold wants. destruct (existsb _ b) eqn:Hx; [|done]. exfalso.
  apply existsb_exists in Hx as (m & Hm & Hreb). rewrite Forall_forall in Hdrop.
  assert (m ∈ concat (drop (cascaded (sys w)) (batches (sys w)))) as Hin.
  { apply list_elem_of_In, in_concat. exists b. split; [|done]. apply list_elem_of_In. by eapply list_elem_of_lookup_2. }
  specialize (Hdrop _ Hin). cbn in Hdrop. congruence.
Qed.
End Follow.

(** ** A follow-up with nothing in between *)
Section Whole.
Context {Fa : Fates} {Ch : Chrono} {St : Store} {So : Sound St} {Ou : Outside}.
Hypothesis healthy : forall n op, fault (Redb:=fate n) op = None.
Hypothesis no_gaps : forall t, local_millis t <> None.

Lemma row_composed now r d i : is_Some (result_ok (with_asset_id now r d priority_list i)).
Proof.
  unfold with_asset_id. destruct (compute_timestamp now r priority_list d) as [t|e] eqn:Ht; [by eexists|].
  destruct (proj1 (compute_timestamp_panics now r priority_list d
    ltac:(repeat constructor; apply (bool_decide_unpack _); vm_compute; exact I)))
    as (? & ? & dt & _ & _ & _ & Hn); [by rewrite Ht|]. by apply no_gaps in Hn.
Qed.
Lemma rows_composed now random payload_of rs : exists rows, tree_rows now random priority_list payload_of rs = Ok rows.
Proof.
  induction rs as [|r rs [rows IH]]; cbn [tree_rows]; [by eexists|].
  destruct (row_composed now (random (asset_id r)) (compose_abstract_data now r (payload_of (asset_id r))) (asset_id r))
    as [row Hrow].
  destruct (with_asset_id _ _ _ _ _) as [row'|]; [|done]. cbn [mbind result_bind]. rewrite IH. by eexists.
Qed.
Lemma refresh_works now l : exists l', refresh now l = Some l' /\ albums (lib l') = albums (lib l) /\
  same_tables (index (lib l)) (index (lib l')) /\ tree_shows now (index (lib l)) (mem l') /\
  caches l' = store_version now (caches l).
Proof.
  destruct (refresh_tree_cache now random_time (index (lib l)) (mkTree (mem l) (Snapshots.version (caches l))))
    as [[t|e] ix] eqn:Hr.
  - exists (mkLive (mkLib ix (albums (lib l))) (in_memory t) (store_version (IndexStore.version t) (caches l))).
    destruct (refresh_tree_spec _ _ _ _ _ _ (fun n => conj (healthy n _) (conj (healthy n _) (fun k => healthy n _)))
      (fun n => healthy n _) Hr) as (Hv & Hs & Hl & Hin).
    unfold refresh. rewrite Hr. split_and!; try done; [by apply (refresh_tables _ _ _ _ _ _ Hr)|cbn; by rewrite Hv].
  - exfalso. revert Hr. unfold refresh_tree_cache, build_from_asset_tables. unfold redb. rewrite !healthy.
    cbn [context map_err mbind result_bind].
    destruct (rows_composed now random_time (fun i => match (match fault (Redb:=fate (S (ticks (index (lib l))))) (Get i) with
      Some e => Err e | None => Ok tt end) with Ok _ => payloads (index (lib l)) !! i | Err _ => None end)
      (records (index (lib l)))) as [rows Hrows].
    by rewrite Hrows.
Qed.

(** One album's self-update. *)
Definition updated_album (now : Z) (rows : list DatabaseTimestamp) (a : AlbumCombined) : MetadataRecord :=
  to_metadata_record (Album (alb_set_pending false (self_update now rows (alb_set_pending true a)))).
Lemma clear_members_works (Rd : Redb) i ids t : (forall op, fault (Redb:=Rd) op = None) ->
  exists t', clear_members i ids t = Ok t' /\ forall k, k ∉ ids -> t' !! k = t !! k.
Proof.
  intros Hh. revert t. induction ids as [|m ids IH]; intros t; cbn [clear_members]; [by eexists|].
  rewrite !redb_ok by done. cbn [mbind result_bind]. assert (forall t, exists t', clear_members i ids t = Ok t' /\
    forall k, k ∉ m :: ids -> t' !! k = t !! k) as IH'.
  { intros t0. destruct (IH t0) as (t' & Ht & Hk). exists t'. split; [done|]. intros k Hn. apply Hk. set_solver. }
  destruct (t !! m) as [[r|]|] eqn:Hm; try apply IH'. case_bool_decide; [|apply IH'].
  destruct (IH' (<[m:=Some (set_rec_album None r)]> t)) as (t' & Ht & Hk).
  exists t'. split; [done|]. intros k Hn. rewrite Hk by done. rewrite lookup_insert_ne; [done|set_solver].
Qed.
Lemma album_works now rows i ix : exists ix', run_album_task now rows i ix = (Ok tt, ix') /\
  (forall a, album_view now i ix = Some a -> payloads ix' = <[i := updated_album now rows a]> (payloads ix)) /\
  (album_view now i ix = None -> payloads ix' = payloads ix) /\
  forall k, k ∉ members_of i rows -> by_id ix' !! k = by_id ix !! k.
Proof.
  unfold run_album_task, album_txn. rewrite !redb_ok by apply healthy. cbn [context map_err mbind result_bind].
  destruct (album_view now i ix) as [a|].
  - cbn. eexists. split; [reflexivity|]. split_and!; [by intros ? [= <-]|done|done].
  - destruct (clear_members_works (fate (ticks ix)) i (members_of i rows) (by_id ix) (healthy _)) as (t' & -> & Hk).
    cbn. eexists. split; [reflexivity|]. by split_and!.
Qed.

(** The self-updates one after another. *)
Fixpoint album_jobs (clock : Stage -> Z) (rows : list DatabaseTimestamp) (pending : list str) (ix : Index) : Index :=
  match pending with
  | [] => ix
  | i :: rest => album_jobs clock rows rest (run_album_task (clock (Updating (i :: rest))) rows i ix).2
  end.
Lemma view_same now i a b : by_id a !! i = by_id b !! i -> payloads a !! i = payloads b !! i ->
  album_view now i a = album_view now i b.
Proof. unfold album_view. by intros -> ->. Qed.
Lemma album_jobs_effect clock rows pending ix : NoDup pending ->
  (forall i, i ∉ pending -> payloads (album_jobs clock rows pending ix) !! i = payloads ix !! i) /\
  forall i, i ∈ pending -> exists now, forall a, (forall j, i ∉ members_of j rows) -> album_view now i ix = Some a ->
    payloads (album_jobs clock rows pending ix) !! i = Some (updated_album now rows a).
Proof.
  intros Hnd. revert ix. induction Hnd as [|j pending Hj Hnd IH]; intros ix; cbn [album_jobs];
    [by split; [|intros i ?%elem_of_nil]|].
  set (now := clock (Updating (j :: pending))). destruct (album_works now rows j ix) as (ix1 & -> & Hsome & Hnone & Hrest).
  cbn [snd]. destruct (IH ix1) as [IH1 IH2].
  assert (forall i, i <> j -> payloads ix1 !! i = payloads ix !! i) as Hother.
  { intros i Hi. destruct (album_view now j ix) as [a|]; [|by rewrite Hnone].
    rewrite (Hsome a eq_refl). by rewrite lookup_insert_ne. }
  split.
  - intros i Hi%not_elem_of_cons. destruct Hi as [Hij Hi]. by rewrite IH1, Hother.
  - intros i [->|Hi]%elem_of_cons.
    + exists now. intros a _ Ha. rewrite IH1, (Hsome a Ha) by done. by rewrite lookup_insert_eq.
    + assert (i <> j) as Hij by (by intros ->). destruct (IH2 i Hi) as [at_ Hat]. exists at_. intros a Hm Ha. apply Hat; [done|].
      rewrite <-Ha. apply view_same; [by apply Hrest|by apply Hother].
Qed.
Lemma album_not_member built now ix rows i j a : consistent ix -> tree_shows built ix rows ->
  album_view now i ix = Some a -> i ∉ members_of j rows.
Proof.
  intros Hok (_ & _ & Hrows) Hv Hin. unfold members_of in Hin.
  apply list_elem_of_omap in Hin as (row & Hrow & Hm). apply Hrows in Hrow as (i' & r & Hi & Hw).
  unfold with_asset_id in Hw. destruct (compute_timestamp _ _ _ _); [|done]. injection Hw as <-. cbn in Hm.
  destruct (ok_rows _ _ _ _ Hok _ _ Hi) as (_ & r' & [= <-] & Hid & _).
  assert (kind r = AAlbum -> False) as Hkind.
  { intros Hk. revert Hm. unfold compose_abstract_data. rewrite Hk. by destruct (option_filter _ _) as [[]|]. }
  assert (i' = i) as ->.
  { rewrite <-Hid. destruct (compose_abstract_data _ _ _) as [?|?|?]; [case_bool_decide; [by injection Hm|done]..|done]. }
  revert Hv. unfold album_view. rewrite Hi.
  destruct (payloads ix !! i) as [[?|?|p]|]; try done. unfold compose_abstract_data.
  destruct (kind r); [done|done|by destruct Hkind].
Qed.
Lemma stages_updating n clock order pending l :
  stages (length pending + n) clock order (Updating pending) l =
  stages n clock order (Updating [])
    (with_lib (mkLib (album_jobs clock (mem l) pending (index (lib l))) (albums (lib l))) l).
Proof.
  revert l. induction pending as [|i pending IH]; intros l; [by destruct l as [[] ? ?]|].
  cbn [length Nat.add stages stage_step]. by rewrite IH.
Qed.

Lemma expire_txn_works last now : expire_txn last now = Ok tt.
Proof. unfold expire_txn. by rewrite !store_ok. Qed.
Lemma sweep_works now order s : is_Some (expire_table s) -> is_Some (expire_check_task now order s).
Proof.
  revert s. induction order as [|ts order IH]; intros s Hs; cbn [expire_check_task]; [by eexists|].
  assert (exists s', sweep_table now s ts = Some s' /\ is_Some (expire_table s')) as (s' & -> & Hs'); [|by apply IH].
  unfold sweep_table. destruct (query_disk s !! ts); [|by eexists]. destruct (_ <? _)%Z; [|by eexists].
  destruct Hs as [t ->]. cbn. destruct (expired_check now ts t) as [[] t']; by eexists.
Qed.
Lemma stages_finished n clock order l : stages n clock order Finished l = Goes Finished l.
Proof. by destruct n. Qed.
Lemma stages_go n clock order st l st' l' : stage_step (clock st) order st l = Goes st' l' ->
  stages (S n) clock order st l = stages n clock order st' l'.
Proof.
  intros H. destruct st; cbn [stages]; rewrite ?H; try done. cbn in H. injection H as <- <-. by rewrite stages_finished.
Qed.
Lemma bookkeeping_works n clock order l : exists s,
  stages (S (S n)) clock order Bookkeeping l = Goes Finished (with_caches s l).
Proof.
  cbn [stages stage_step]. rewrite expire_txn_works. rewrite andb_false_r.
  unfold update_expire_task. destruct (0 <? Snapshots.version (caches l))%Z; [|cbn; by eexists].
  cbn [stages stage_step caches with_caches]. unfold expire_round. rewrite !store_ok. cbn [is_ok andb].
  set (s := with_expire _ _ _).
  destruct (sweep_works (clock Sweeping) order s ltac:(by eexists)) as [s' Hs'].
  rewrite Hs'. cbn [mbind option_bind run_cpu]. rewrite stages_finished. by exists s'.
Qed.

Lemma healthy_chain clock order l : consistent (index (lib l)) ->
  exists l' rows, handle_cascade clock order UpdateTreeChain l = Goes Finished l' /\
    tree_shows (clock Rebuild) (index (lib l)) rows /\
    pending_updates (albums (lib l')) = ∅ /\ cache (albums (lib l')) = cache (albums (lib l)) /\
    (exists built, tree_shows built (index (lib l')) (mem l')) /\
    (forall i, i ∈ pending_updates (albums (lib l)) -> exists now, forall a,
       album_view now i (index (lib l)) = Some a ->
       payloads (index (lib l')) !! i = Some (updated_album now rows a)) /\
    forall i, i ∉ pending_updates (albums (lib l)) -> payloads (index (lib l')) !! i = payloads (index (lib l)) !! i.
Proof.
  intros Hok. unfold handle_cascade. destruct (refresh_works (clock Rebuild) l) as (l1 & Hr1 & Ha1 & Hs1 & Ht1 & _).
  set (pending := elements (pending_updates (albums (lib l)))).
  assert (size (pending_updates (albums (lib l))) = length pending) as -> by done.
  replace (5 + length pending)%nat with (S (S (length pending + 3))) by lia.
  cbn [first_stage stages stage_step]. rewrite Hr1. cbn [run_cpu stage_step drain_pending_album_updates].
  rewrite Ha1. fold pending. set (l2 := with_lib (mkLib (index (lib l1)) (mkAlbums (cache (albums (lib l))) ∅)) l1).
  assert (forall i, i ∈ pending_updates (albums (lib l)) <-> i ∈ pending) as Hp by (intros i; unfold pending; by rewrite elem_of_elements).
  pose proof Hs1 as (Hid & _ & _ & Hpay).
  destruct (decide (pending = [])) as [Hnil|Hne].
  - rewrite Hnil. cbn [is_empty length Nat.add]. destruct (bookkeeping_works 1 clock order l2) as [s ->].
    exists (with_caches s l2), (mem l1). cbn -[updated_album]. split_and!; try done.
    + exists (clock Rebuild). by apply (tree_shows_same _ (index (lib l))).
    + intros i Hi. exfalso. apply Hp in Hi. rewrite Hnil in Hi. by apply elem_of_nil in Hi.
    + intros i _. by rewrite Hpay.
  - assert (is_empty pending = false) as -> by by destruct pending. rewrite stages_updating.
    set (l3 := with_lib _ l2). destruct (refresh_works (clock (Updating [])) l3) as (l4 & Hr4 & Ha4 & Hs4 & Ht4 & _).
    rewrite (stages_go 2 _ _ _ _ Bookkeeping l4) by (cbn [stage_step]; by rewrite Hr4). destruct (bookkeeping_works 0 clock order l4) as [s ->].
    exists (with_caches s l4), (mem l1).
    destruct (album_jobs_effect clock (mem l1) pending (index (lib l1)) (NoDup_elements _)) as [Hrest Heach].
    pose proof (tree_shows_same _ _ _ _ Hs4 Ht4) as Hshows. destruct Hs4 as (_ & _ & _ & Hpay4).
    cbn [with_caches lib mem albums]. rewrite Ha4, <-Hpay4. split_and!; try done; [by eexists| |].
    + intros i [now Hnow]%Hp%Heach. exists now. intros a Ha. apply Hnow.
      * intros j. by eapply album_not_member.
      * rewrite <-Ha. by apply view_same; [rewrite Hid|rewrite Hpay].
    + intros i Hi. change (index (lib l3)) with (album_jobs clock (mem l1) pending (index (lib l1))).
      rewrite Hrest; [by rewrite Hpay|by rewrite <-Hp].
Qed.
End Whole.

(** Each stage leaves less to do, so that the fuel is never used up. *)
Definition left_to_do (st : Stage) (l : Live) : nat :=
  match st with
  | Rebuild => 5 + size (pending_updates (albums (lib l)))
  | DrainPending => 4 + size (pending_updates (albums (lib l)))
  | Updating pending => 3 + length pending
  | Bookkeeping => 2
  | Sweeping => 1
  | Finished => 0
  end.
Definition ended (a : After) : Prop := match a with Goes st _ => st = Finished | Aborts | Dies _ => True end.
Lemma stage_step_less `{Fa : Fates, Ch : Chrono, St : Store, Ou : Outside} now order st l st' l' :
  stage_step now order st l = Goes st' l' -> st <> Finished -> (left_to_do st' l' < left_to_do st l)%nat.
Proof.
  intros H Hn. destruct st as [| |[|i rest]| | |]; cbn [stage_step] in H; try done.
  - unfold run_cpu, refresh in H. destruct (refresh_tree_cache _ _ _ _) as [[t|e] ix]; [|done].
    injection H as <- <-. cbn. lia.
  - cbn in H. injection H as <- <-. destruct (is_empty _); cbn; [lia|]. unfold size, set_size. cbn. lia.
  - unfold run_cpu in H. destruct (refresh now l); [|done]. injection H as <- <-. cbn. lia.
  - injection H as <- <-. cbn. lia.
  - destruct (_ && _); [done|]. destruct (update_expire_task _ _) as [due s]. injection H as <- _. destruct due; cbn; lia.
  - unfold run_cpu in H. destruct (_ ≫= _); [|done]. injection H as <- _. cbn. lia.
Qed.
Lemma stages_end `{Fa : Fates, Ch : Chrono, St : Store, Ou : Outside} n clock order st l :
  (left_to_do st l <= n)%nat -> ended (stages n clock order st l).
Proof.
  revert st l. induction n as [|n IH]; intros st l Hn; cbn [stages].
  - destruct st; cbn in Hn; (done || lia).
  - assert (st = Finished \/ st <> Finished) as [->|Hne] by (destruct st; auto); [done|].
    destruct (stage_step (clock st) order st l) as [st' l'| |l'] eqn:Hs; [|by destruct st..].
    pose proof (stage_step_less _ _ _ _ _ _ Hs Hne). destruct st; (done || apply IH; lia).
Qed.

(** C7: A follow-up that nothing interrupts comes to its end whatever fails: its stages are
    never cut short, it finishes or a panic ends it.  When no call on either store fails,
    the tables are consistent and every local time the clock is asked for exists, the
    follow-up of a flush finishes: the albums marked since the last one are all served,
    each album that is one has the payload its self-update computes from the tree just
    rebuilt, no other payload changes, and the final tree shows the final tables. *)
Theorem chain_spec {Fa : Fates} {Ch : Chrono} {St : Store} {Ou : Outside} clock order l :
  (forall c, ended (handle_cascade clock order c l)) /\
  ((forall n op, fault (Redb:=fate n) op = None) -> Sound St -> (forall t, local_millis t <> None) ->
   consistent (index (lib l)) ->
   exists l' rows, handle_cascade clock order UpdateTreeChain l = Goes Finished l' /\
    tree_shows (clock Rebuild) (index (lib l)) rows /\
    pending_updates (albums (lib l')) = ∅ /\ cache (albums (lib l')) = cache (albums (lib l)) /\
    (exists built, tree_shows built (index (lib l')) (mem l')) /\
    (forall i, i ∈ pending_updates (albums (lib l)) -> exists now, forall a,
       album_view now i (index (lib l)) = Some a ->
       payloads (index (lib l')) !! i = Some (updated_album now rows a)) /\
    forall i, i ∉ pending_updates (albums (lib l)) -> payloads (index (lib l')) !! i = payloads (index (lib l)) !! i).
Proof.
  split; [|intros H1 H2 H3; by apply healthy_chain].
  intros c. unfold handle_cascade. apply stages_end. destruct c; cbn [first_stage left_to_do]; lia.
Qed.

(** ** A cascade task that is gone *)
Section Gone.
Context {Fa : Fates} {F : Fs} {Ch : Chrono} {St : Store} {Ou : Outside}.

Definition waits (t before : nat) (seq target : N) (s : Sys) : Prop :=
  tasks s !! t = Some (Waiting before seq target) \/ tasks s !! t = Some (HalfChecked before seq target).
Definition dropped (t : nat) (h : Happens) : bool :=
  match h with Protocol (EDrop t') _ _ => bool_decide (t' = t) | _ => false end.
Definition lost (w : World) : Prop := condition w = CascadeGone \/ condition w = WriterGone.

Lemma waits_with t before seq target s ts : waits t before seq target s -> ts !! t = tasks s !! t ->
  waits t before seq target (with_tasks ts s).
Proof. unfold waits. cbn. by intros H ->. Qed.
Lemma exec_keeps_waiting e s s' t before seq target : exec e s = Some s' ->
  e <> ECascadeDone -> e <> EDrop t -> waits t before seq target s -> cascade_completed s < target ->
  waits t before seq target s' /\ cascade_completed s' = cascade_completed s.
Proof.
  intros He Hd Hdrop Hw Hlt.
  destruct e as [t'|t'|t'|t'|t'|t'| | | | | | |]; cbn [exec] in He; try done.
  1-6: destruct (decide (t' = t)) as [->|Hne]; [|
    repeat (case_match; simplify_eq/=); (split; [|done]);
      (destruct Hw as [Hw|Hw]; [left|right]; cbn; by rewrite ?lookup_insert_ne, ?lookup_delete_ne)].
  all: try (repeat (case_match; simplify_eq/=); by split).
  all: destruct Hw as [Hw|Hw]; rewrite Hw in He; try done; try (by destruct Hdrop).
  - case_match; [|done]. injection He as <-. split; [|done]. right. cbn. by rewrite lookup_insert_eq.
  - destruct (target <=? cascade_completed s) eqn:Hle; [to_prop; lia|]. injection He as <-.
    split; [|done]. left. cbn. by rewrite lookup_insert_eq.
Qed.
Lemma lost_keeps_waiting h w w' t before seq target : happen h w = Some w' -> lost w -> dropped t h = false ->
  waits t before seq target (sys w) -> cascade_completed (sys w) < target ->
  lost w' /\ waits t before seq target (sys w') /\ cascade_completed (sys w') = cascade_completed (sys w).
Proof.
  intros H [Hc|Hc] Hd Hw Hlt; unfold happen in H; rewrite Hc in H; destruct h as [e now draws|]; try done.
  apply bind_Some in H as (s' & Hp & H).
  assert (waits t before seq target s' /\ cascade_completed s' = cascade_completed (sys w)) as [Hw' Hcc].
  { unfold protocol_step in Hp. rewrite Hc in Hp.
    assert (e <> EDrop t) as Hne by (intros ->; cbn in Hd; by rewrite bool_decide_eq_true_2 in Hd).
    destruct e; try done; try (by eapply exec_keeps_waiting).
    destruct (phase (sys w)); try done. injection Hp as <-. by split. }
  destruct (taken_batch _ _); [destruct (write_batch _ _ _ _)|]; injection H as <-; unfold lost; cbn; auto.
Qed.

(** When the disk refuses the expiry bookkeeping, the cascade task ends for good:
    the [expect]s run in the task itself.  From then on no barrier whose number is
    not yet reached returns, whatever the writer and the other tasks do, unless
    its caller gives up. *)
Theorem failed_bookkeeping_hangs_barriers w entry now order :
  condition w = Running -> cascading (sys w) = Some entry -> stage w = Bookkeeping ->
  (0 < Snapshots.version (caches (live w)))%Z ->
  is_ok (expire_txn (Snapshots.version (caches (live w))) now) = false ->
  exists w1, happen (Chain now order) w = Some w1 /\ sys w1 = sys w /\ condition w1 = CascadeGone /\
    forall hs w' t before seq target, run_world hs w1 = Some w' ->
      waits t before seq target (sys w) -> cascade_completed (sys w) < target ->
      Forall (fun h => dropped t h = false) hs -> waits t before seq target (sys w').
Proof.
  intros Hc He Hs Hv Hf. unfold happen. rewrite Hc, He, Hs. cbn [finished stage_step].
  rewrite (proj2 (Z.ltb_lt _ _) Hv), Hf. cbn [negb andb]. eexists. split; [reflexivity|]. split; [done|]. split; [done|].
  set (w1 := mkWorld _ _ _ _). intros hs w' t before seq target Hrun Hw Hlt Hhs.
  assert (lost w1) as Hlost by by left.
  change (sys w) with (sys w1) in Hw, Hlt. revert Hlost Hw Hlt Hrun. generalize w1 as w2. clear -Hhs.
  induction Hhs as [|h hs Hh _ IH]; cbn; intros w2 Hlost Hw Hlt Hrun; [by injection Hrun as <-|].
  apply bind_Some in Hrun as (w3 & Hhap & Hrun).
  destruct (lost_keeps_waiting _ _ _ _ _ _ _ Hhap Hlost Hh Hw Hlt) as (Hl3 & Hw3 & Hcc).
  apply (IH w3); [done|done|by rewrite Hcc|done].
Qed.
End Gone.

(** ** Witnesses *)
Module CascadeWitness.
#[export] Instance outside : Outside := {|
  random_time _ := 0%Z; drawn n := lit (pretty n); taken _ := Ok tt |}.
#[export] Instance nothing_there : Fs := {| exists_ _ := false; canonicalize _ := None |}.
Definition no_space : Store := {| sfault op := match op with SCommit => Some (lit "no space") | _ => None end;
  pick_tree ks := head ks; pick_query ks := head ks |}.
Definition draws (n : nat) : str := lit (pretty n).
Definition at_ (now : Z) (es : list Event) : list Happens := (fun e => Protocol e now draws) <$> es.
(** A message goes through the writer alone, from its submitter to its entry. *)
Definition written (t : nat) (op : WriteOp) : list Event :=
  [ETake t op; ESend t; ERecv; EMerge] ++ (if is_flush op then [] else [EPop]) ++ [EQueue; EComplete] ++
  (if is_flush op then [EPop] else []).
Definition followed (now : Z) (n : nat) : list Happens :=
  at_ now [ECascadeStart] ++ ((fun k => Chain (now + Z.of_nat k)%Z []) <$> seq 0 n) ++ at_ now [ECascadeDone].
Definition barrier_of (t : nat) : list Event :=
  [ETake t Barrier; ESend t; EReadSeq t; ERecv; EMerge; EPop; EQueue; EComplete].

Definition no_caches : Snapshots := mkSnapshots ∅ ∅ ∅ ∅ None 0 0.
Definition empty_server : Live := mkLive (mkLib (mkIndex ∅ ∅ ∅ ∅ 0) (mkAlbums ∅ ∅)) [] no_caches.
(** A server whose tables hold one directory album, its tree not built yet. *)
Definition album_id : str := lit "id1".
Definition an_album : AbstractData :=
  Album (mkAlbum (mkObject album_id TAlbum false None None ∅ None 0)
    (default_album album_id (lit "/img/2024") false)).
Definition album_row : AssetRecord :=
  mkAsset album_id AAlbum (lit "/img/2024") None 0 [] 0 0 false None.
Definition one_album : Live :=
  mkLive (mkLib (mkIndex {[ album_id := Some album_row ]} {[ lit "/img/2024" := album_id ]} ∅
                   {[ album_id := to_metadata_record an_album ]} 0)
            (mkAlbums {[ components (lit "/img/2024") := album_id ]} {[ album_id ]})) [] no_caches.
Definition go {Ch : Chrono} {St : Store} (l : Live) (hs : list Happens) : option World :=
  run_world (Fa:=all_healthy) hs (start_world l).
Definition rebuilt : list Happens := at_ 1000 (written 1 UpdateTree) ++ followed 1000 6.
Definition swept_away : list Happens := rebuilt ++
  at_ 2000 (written 1 (SweepDirAlbums [(lit "/img/2024", album_id)])) ++ followed 2000 0 ++
  at_ 3000 (barrier_of 2) ++ followed 3000 0 ++ at_ 4000 [ECheckWriter 2].
(** What the barrier of task 2 finds when it looks: whether it returns, the
    records of the tables, the rows of the tree. *)
Definition barrier_finds {Ch : Chrono} {St : Store} (w : option World) : option (bool * nat * list str) :=
  w ← w; w' ← happen (Fa:=all_healthy) (Protocol (ECheckCascade 2) 4000 draws) w;
  Some (negb (is_some (tasks (sys w') !! 2%nat)), length (records (index (lib (live w')))), ts_asset_id <$> mem (live w')).

(** A start: the tables as they are, the rebuild [run] submits, its first stage. *)
Definition started (ch : Chrono) (b : Library_) : option World :=
  go (Ch:=ch) (St:=SnapshotWitness.st) (mkLive b [] no_caches)
    (at_ 20000000 (written 1 UpdateTree ++ [ECascadeStart]) ++ [Chain 20000000 []]).
Definition upload_of (d : AbstractData) (ch : Chrono) : option World :=
  go (Ch:=ch) (St:=SnapshotWitness.st) empty_server
    (at_ 20000000 (written 1 (Flush [d] []) ++ [ECascadeStart]) ++ [Chain 20000000 []]).
Definition stands (w : option World) : option (Condition * nat) :=
  w ← w; Some (condition w, length (records (index (lib (live w))))).

(** A server at work when the disk of the expiry bookkeeping fills up. *)
Definition until_bookkeeping : list Happens :=
  at_ 1000 (written 1 UpdateTree ++ [ECascadeStart]) ++ [Chain 1000 []; Chain 1001 []; Chain 1002 []; Chain 1003 []] ++
  at_ 2000 [ETake 2 Barrier; ESend 2; EReadSeq 2].
Definition filling : World := default (start_world one_album)
  (go (Ch:=IndexWitness.clock) (St:=no_space) one_album until_bookkeeping).
Definition after_failure : list Happens :=
  at_ 3000 [ERecv; EMerge; EPop; EQueue; EComplete; ECheckWriter 2; ECheckCascade 2; ECheckWriter 2; ECheckCascade 2].
(** One photograph flushed, followed up, and waited for. *)
Definition until_barrier : list Happens :=
  at_ 1000 (written 1 (Flush [IndexWitness.a_photo "h1"] [])) ++ followed 1000 4 ++
  at_ 3000 (barrier_of 2) ++ followed 3000 0 ++ at_ 4000 [ECheckWriter 2].
Definition waiting : World := default (start_world empty_server)
  (go (Ch:=IndexWitness.clock) (St:=SnapshotWitness.st) empty_server until_barrier).
End CascadeWitness.
Import CascadeWitness.
Import (hints) CascadeWitness.

(** A barrier after a directory sweep returns without the tree having noticed:
    sweeping has no follow-up.  The album of a removed directory is gone from the
    tables, all work is done, and the tree still lists it. *)
Theorem swept_album_stays_listed :
  barrier_finds (Ch:=IndexWitness.clock) (St:=SnapshotWitness.st)
    (go (Ch:=IndexWitness.clock) (St:=SnapshotWitness.st) one_album swept_away) = Some (true, 0%nat, [album_id]).
Proof. vm_compute. reflexivity. Qed.

(** A photograph whose name spells a wall-clock time the server's time zone skips
    takes the process down with the first rebuild after it is stored, and every
    later start with its first rebuild. *)
Theorem gap_name_downs_server :
  stands (upload_of gap_photo spring_forward) = Some (ProcessDown, 1%nat) /\
  stands (w ← upload_of gap_photo spring_forward; started spring_forward (lib (live w))) = Some (ProcessDown, 1%nat) /\
  stands (upload_of gap_photo IndexWitness.clock) = Some (Running, 1%nat).
Proof. by vm_compute. Qed.

Lemma reached_by {Ch : Chrono} {St : Store} l hs : is_some (go l hs) = true ->
  reachable_world (Fa:=all_healthy) (default (start_world l) (go l hs)).
Proof. intros H. exists l, hs. unfold go in *. by destruct (run_world _ _). Qed.

Lemma barrier_sees_its_work_witness : exists w' built,
  happen (Fa:=all_healthy) (Ch:=IndexWitness.clock) (St:=SnapshotWitness.st)
    (Protocol (ECheckCascade 2) 4000 draws) waiting = Some w' /\
  tree_shows (Ch:=IndexWitness.clock) built (index (lib (live w'))) (mem (live w')).
Proof.
  destruct (happen (Fa:=all_healthy) (Ch:=IndexWitness.clock) (St:=SnapshotWitness.st)
    (Protocol (ECheckCascade 2) 4000 draws) waiting) as [w'|] eqn:Hh; [|by vm_compute in Hh].
  destruct (barrier_sees_its_work (Fa:=all_healthy) (Ch:=IndexWitness.clock) (St:=SnapshotWitness.st)
    waiting w' 2 1 2 2 4000 draws) as (built & from & _ & Hb).
  - apply reached_by. vm_compute. reflexivity.
  - vm_compute. reflexivity.
  - vm_compute. reflexivity.
  - exact Hh.
  - apply (f_equal (fun o => w ← o; Some (tasks (sys w) !! 2%nat))) in Hh. vm_compute in Hh.
    injection Hh as Hh. symmetry. exact Hh.
  - intros [|[|j]] m Hj Hm; [lia|vm_compute in Hm; injection Hm as <-; reflexivity|vm_compute in Hm; discriminate].
  - vm_compute. reflexivity.
  - exists w', built. split; [reflexivity|]. apply Hb. split_and!; [apply healthy_reads..|reflexivity].
Defined.

(** A stored photograph and an album that has vanished since it was marked. *)
Definition marked : Live :=
  mkLive (mkLib (index IndexWitness.one) (mkAlbums ∅ {[ lit "gone" ]})) [] no_caches.
Lemma chain_spec_witness : exists l',
  handle_cascade (Fa:=all_healthy) (Ch:=IndexWitness.clock) (St:=SnapshotWitness.st) (fun _ => 1000%Z) []
    UpdateTreeChain marked = Goes Finished l' /\ pending_updates (albums (lib l')) = ∅ /\
  exists built, tree_shows (Ch:=IndexWitness.clock) built (index (lib l')) (mem l').
Proof.
  destruct (proj2 (chain_spec (Fa:=all_healthy) (Ch:=IndexWitness.clock) (St:=SnapshotWitness.st) (fun _ => 1000%Z) [] marked)
    (fun n op => eq_refl) SnapshotWitness.sound (fun t (H : Some t = None) => match H with end) IndexStore.one_ok)
    as (l' & rows & H & _ & Hp & _ & Hs & _).
  exists l'. split; [exact H|]. split; [exact Hp|exact Hs].
Defined.

Lemma failed_bookkeeping_hangs_barriers_witness : exists w1 w',
  happen (Fa:=all_healthy) (Ch:=IndexWitness.clock) (St:=no_space) (Chain 5000 []) filling = Some w1 /\
  run_world (Fa:=all_healthy) (Ch:=IndexWitness.clock) (St:=no_space) after_failure w1 = Some w' /\
  waits 2 1 2 2 (sys w').
Proof.
  destruct (failed_bookkeeping_hangs_barriers (Fa:=all_healthy) (Ch:=IndexWitness.clock) (St:=no_space)
    filling (1, UpdateTreeChain) 5000 []) as (w1 & H1 & _ & _ & Hw); [vm_compute; reflexivity..|].
  exists w1. destruct (run_world (Fa:=all_healthy) (Ch:=IndexWitness.clock) (St:=no_space) after_failure w1)
    as [w'|] eqn:Hr.
  - exists w'. split; [exact H1|]. split; [reflexivity|]. apply (Hw after_failure w' 2%nat 1%nat 2 2 Hr).
    + left. vm_compute. reflexivity.
    + vm_compute. reflexivity.
    + repeat constructor.
  - exfalso. assert (is_some (w1 ← happen (Fa:=all_healthy) (Ch:=IndexWitness.clock) (St:=no_space) (Chain 5000 []) filling;
      run_world (Fa:=all_healthy) (Ch:=IndexWitness.clock) (St:=no_space) after_failure w1) = true) as Hs
      by (vm_compute; reflexivity).
    rewrite H1 in Hs. cbn [mbind option_bind] in Hs. rewrite Hr in Hs. discriminate.
Defined.
