(* ===== verification/MetadataEdits.v ===== *)
(** * MetadataEdits: tags, descriptions, ratings, the trash flag, album titles and covers
      ([backend/src/router/put/edit_tag.rs], [edit_description.rs], [edit_rating.rs],
      [edit_flags.rs], [edit_album.rs], and the row store of [process/transitor.rs])

    An edit names assets by their place in a snapshot.  It composes each of them from
    the tables as they are now, asks the write gate, writes all sidecars and only then
    the rows, and rebuilds the in-memory tree. *)

From S2P Require Import Snapshots.
From S2P Require Import Prelude Errors Redb Password UserStore Revocations Invites LoginThrottle.
From S2P Require Import Paths Formats Model MetadataRecord AlbumUpdate DirAlbum Tokens RouterAuth IndexStore.
From S2P Require Import DirAlbumStore Accounts Lists DataPages FileTree Sanitize Xmp SidecarEdit Desk.
Open Scope work_scope.

Record EditTagsData := mkTagsEdit {
  et_indices : list N; et_add : list str; et_remove : list str; et_timestamp : Z
}.
Record SetUserDefinedDescription := mkDescriptionEdit {
  ed_index : N; ed_description : option str; ed_timestamp : Z
}.
Record EditRatingData := mkRatingEdit { er_indices : list N; er_rating : option N; er_timestamp : Z }.
Record EditFlagsData := mkFlagsEdit { ef_indices : list N; ef_timestamp : Z; ef_trashed : option bool }.
Record SetAlbumCover := mkCoverEdit { sc_album : str; sc_cover : str }.
Record SetAlbumTitle := mkTitleEdit { st_album : str; st_title : option str }.

(** ** [transitor.rs] *)
(** [store_metadata_record]: one transaction. *)
Definition set_rec_trashed (b : bool) (r : AssetRecord) : AssetRecord :=
  mkAsset (asset_id r) (kind r) (rec_path r) (content_hash r) (file_size r) (rec_ext r)
    (rec_modified r) (rec_scan_time r) b (rec_album r).
Definition stored {Rd : Redb} (i : str) (d : AbstractData) (trash : option bool) (ix : Index) : result str Index :=
  _ ← redb BeginWrite;
  _ ← redb OpenTable;
  _ ← redb (Insert i);
  let ix := set_payloads (<[i := to_metadata_record d]> (payloads ix)) ix in
  ix ← match trash with
       | Some b =>
           _ ← redb (Get i);
           match by_id ix !! i with
           | Some row =>
               r ← ok_or (lit "invalid row") row;
               _ ← redb (Insert i);
               Ok (set_by_id (<[i := Some (set_rec_trashed b r)]> (by_id ix)) ix)
           | None => Ok ix
           end
       | None => Ok ix
       end;
  _ ← redb Commit;
  Ok ix.
Definition store_metadata_record (c : Ctx) (i : str) (d : AbstractData) (trash : option bool) : Io unit := fun ix =>
  match stored (Rd:=fate (Fates:=c_fates c) (ticks ix)) i d trash ix with
  | Ok ix' => (Ok tt, tick ix')
  | Err e => (Err e, tick ix)
  end.

Section Edits.
Context {Jc : JsonCodec} {Lh : LegacyHash} {Ca : Casing} {Cr : Crypto} {J : Jwt} {Tc : TokenCodec}.
Context {St : Snapshots.Store} {Xk : XmpKit} {Nf : Nfc} {Uc : Uppercase}.
Context {Io_ : IoFaults} {Ch : Chrono} {O : Outside}.

Definition snapshot_error_text (e : SnapshotReadError) : str :=
  match e with
  | Snapshots.NotFound ts => lit "tree snapshot " ++ show_Z ts ++ lit " not found"
  | Storage m => lit "tree snapshot storage failure: " ++ m
  end.
(** [None] is a panic. *)
Definition index_to_asset_id (cow : MyCow) (index : N) : option (result str str) :=
  match map_err snapshot_error_text (cow_len cow) with
  | Err e => Some (Err e)
  | Ok len => if len <=? index then Some (Err (lit "Index out of bounds: " ++ show_N index)) else get_asset_id cow index
  end.

(** ** The common steps *)
Definition open_snapshot (ts : Z) (sn : Snapshots) : Work MyCow :=
  hoist (map_err into_app_error (read_tree_snapshot ts sn)).
Definition asset_at (cow : MyCow) (index : N) : Work str :=
  match index_to_asset_id cow index with
  | Some r => hoist (or_raise Database (lit "Failed to get asset_id for index " ++ show_N index) r)
  | None => fun d => (Err Panicked, d)
  end.
Definition composed (c : Ctx) (msg : string) (i : str) : Work (option AbstractData) :=
  on_tables (compose_by_asset_id c i) (or_raise Database (lit msg)).
Definition half_usize : N := 9223372036854775807.
(** The item at one index: composed, gated and changed; [None] when its record is gone. *)
Definition edited_item (c : Ctx) (caller : str) (cow : MyCow) (msg : string) (change : AbstractData -> AbstractData)
    (index : N) : Work (option EditedItem) :=
  let! i := asset_at cow index in
  let! found := composed c msg i in
  match found with
  | None => answer None
  | Some a => let! _ := gate_data c caller "Asset not writable" a in answer (Some (mkEdited i (change a)))
  end.
Fixpoint edited_items (c : Ctx) (caller : str) (cow : MyCow) (bounded : bool) (change : AbstractData -> AbstractData)
    (indices : list N) : Work (list EditedItem) :=
  match indices with
  | [] => answer []
  | index :: indices' =>
      if bounded && (half_usize <? index) then refuse InvalidInput (lit "Index out of bounds")
      else
        let! item := edited_item c caller cow "Failed to get data" change index in
        let! items := edited_items c caller cow bounded change indices' in
        answer (option_list item ++ items)
  end.
Definition row_store (c : Ctx) (trash : option bool) (i : str) (d : AbstractData) (ix : Index) : app_result unit * Index :=
  let '(r, ix) := store_metadata_record c i d trash ix in (or_raise Database (lit "Failed to store metadata") r, ix).
Definition committed (c : Ctx) (trash : option bool) (items : list EditedItem) : Work unit := fun d =>
  let '(r, t, ix) := commit_metadata_edits (row_store c trash) items (files d) (the_index d) in
  (map_err Failed r, with_index ix (with_files t d)).
Definition refresh (c : Ctx) : Work unit := let! _ := drain_flush c in tree_updated c "Failed to update tree".

(** ** Tags *)
Definition edit_tags (add remove : list str) (s : gset str) : gset str :=
  let s := foldl (fun s t => let clean := sanitize_tag t in if is_empty clean then s else {[ clean ]} ∪ s) s add in
  foldl (fun s t => s ∖ {[ sanitize_tag t ]}) s remove.
Definition tag_body (c : Ctx) (sn : Snapshots) (caller : str) (req : EditTagsData) : Work unit :=
  let! cow := open_snapshot (et_timestamp req) sn in
  let! items := edited_items c caller cow true (tag_mut (edit_tags (et_add req) (et_remove req))) (et_indices req) in
  committed c None items.
Definition edit_tag (c : Ctx) (sn : Snapshots) (req : EditTagsData) : Work (gmap str N) :=
  let! caller := caller_of c in
  if (et_timestamp req <? 0)%Z then refuse InvalidInput (lit "Invalid timestamp")
  else
    let! _ := in_pool c (tag_body c sn caller req) in
    let! _ := refresh c in
    asks (fun d => Ok (read_tags (F:=fs_of (files d)) (c_roots c) caller (in_memory (memory d)))).

(** ** Descriptions *)
Definition description_body (c : Ctx) (sn : Snapshots) (caller : str) (req : SetUserDefinedDescription) : Work unit :=
  let! cow := open_snapshot (ed_timestamp req) sn in
  let! item := edited_item c caller cow "Failed to get data from table"
                 (set_description (sanitize_text <$> ed_description req)) (ed_index req) in
  match item with Some item => committed c None [item] | None => answer tt end.
Definition set_user_defined_description (c : Ctx) (sn : Snapshots) (req : SetUserDefinedDescription) : Work unit :=
  let! caller := caller_of c in
  if (ed_timestamp req <? 0)%Z then refuse InvalidInput (lit "Invalid timestamp")
  else if half_usize <? ed_index req then refuse InvalidInput (lit "Index out of bounds")
  else let! _ := in_pool c (description_body c sn caller req) in refresh c.

(** ** Ratings *)
Definition rating_body (c : Ctx) (sn : Snapshots) (caller : str) (req : EditRatingData) : Work unit :=
  let! cow := open_snapshot (er_timestamp req) sn in
  let! items := edited_items c caller cow true (set_rating (er_rating req)) (er_indices req) in
  committed c None items.
Definition edit_rating (c : Ctx) (sn : Snapshots) (req : EditRatingData) : Work unit :=
  let! caller := caller_of c in
  if (er_timestamp req <? 0)%Z then refuse InvalidInput (lit "Invalid timestamp")
  else match option_filter (fun r => 5 <? r) (er_rating req) with
       | Some r => refuse InvalidInput ((lit "rating must be 0" ++ [8211]) ++ lit "5, got " ++ show_N r)
       | None => let! _ := in_pool c (rating_body c sn caller req) in refresh c
       end.

(** ** The trash flag *)
Definition affected (trash : option bool) (items : list EditedItem) : gset str :=
  match trash with Some _ => list_to_set (omap (fun i => get_album (ed_data i)) items) | None => ∅ end.
Definition flags_body (c : Ctx) (sn : Snapshots) (caller : str) (req : EditFlagsData) : Work (gset str) :=
  let! cow := open_snapshot (ef_timestamp req) sn in
  let! items := edited_items c caller cow false
                  (match ef_trashed req with Some b => set_trashed b | None => fun a => a end) (ef_indices req) in
  let! _ := committed c (ef_trashed req) (match ef_trashed req with Some _ => items | None => [] end) in
  answer (affected (ef_trashed req) items).
Definition edit_flags (c : Ctx) (sn : Snapshots) (req : EditFlagsData) : Work unit :=
  let! caller := caller_of c in
  let! albums := in_pool c (flags_body c sn caller req) in
  let! _ := refresh c in
  for_each (elements albums) (fun i d => (Ok tt, if is_ok (taken i) then submit i d else d)).

(** ** Albums ([edit_album.rs]) *)
(** The record and payload of an album, read inside a transaction. *)
Definition record_of {Rd : Redb} (get_msg : string) (i : str) (ix : Index) : app_result AssetRecord :=
  _ ← or_raise Database (lit get_msg) (redb (Get i));
  row ← option_or_raise Errors.NotFound (lit "Album not found") (by_id ix !! i);
  or_raise Database (lit "Failed to deserialize AssetRecord") (ok_or (lit "invalid row") row).
Definition not_an_album {A} : app_result A := fail InvalidInput (lit "Expected Album but got different type").
Definition album_in {Rd : Redb} (now : Z) (i : str) (record : AssetRecord) (ix : Index) : app_result AlbumCombined :=
  if negb (bool_decide (kind record = AAlbum)) then not_an_album
  else
    _ ← or_raise Database (lit "Failed to get album") (redb (Get i));
    match compose_abstract_data now record (payloads ix !! i) with
    | Album a => Ok a
    | _ => not_an_album
    end.
(** A write transaction over the index of which one body runs; its files stay
    written whatever becomes of the transaction. *)
Definition album_write {A} (c : Ctx) (body : Redb -> Index -> Files -> app_result (A * Index) * Files) : Work A := fun d =>
  let ix := the_index d in
  let Rd := fate (Fates:=c_fates c) (ticks ix) in
  match (_ ← or_raise Database (lit "Failed to begin transaction") (redb BeginWrite);
         _ ← or_raise Database (lit "Failed to open data table") (redb OpenTable);
         or_raise Database (lit "Failed to open ASSET_BY_ID") (redb OpenTable)) with
  | Err e => (Err (Failed e), with_index (tick ix) d)
  | Ok _ =>
      let '(r, t) := body Rd ix (files d) in
      match (a_ix ← r; _ ← or_raise Database (lit "Failed to commit transaction") (redb Commit); Ok a_ix) with
      | Ok (a, ix') => (Ok a, with_index (tick ix') (with_files t d))
      | Err e => (Err (Failed e), with_index (tick ix) (with_files t d))
      end
  end.
Definition payload_store {Rd : Redb} (i : str) (d : AbstractData) (ix : Index) : app_result unit * Index :=
  match or_raise Database (lit "Failed to update album") (redb (Insert i)) with
  | Ok _ => (Ok tt, set_payloads (<[i := to_metadata_record d]> (payloads ix)) ix)
  | Err e => (Err e, ix)
  end.
Definition update_album (c : Ctx) (i : str) (mutate : AlbumCombined -> AlbumCombined) : Work unit :=
  album_write c (fun Rd ix t =>
    match (record ← record_of "Failed to get album" i ix; album_in (c_now c) i record ix) with
    | Err e => (Err e, t)
    | Ok a =>
        let '(r, t, ix) := commit_metadata_edits payload_store [mkEdited i (Album (mutate a))] t ix in
        (_ ← r; Ok (tt, ix), t)
    end).

Definition cover_body (c : Ctx) (caller : str) (req : SetAlbumCover) : Work unit :=
  album_write c (fun Rd ix t =>
    ((record ← record_of "Failed to get asset record" (sc_album req) ix;
      a ← album_in (c_now c) (sc_album req) record ix;
      let missing := new_error Errors.NotFound (lit "Cover image not found") in
      cover_record ← map_err (fun _ => missing) (record_of "Failed to get asset record" (sc_cover req) ix);
      _ ← or_raise Database (lit "Failed to get cover image") (redb (Get (sc_cover req)));
      cover_payload ← ok_or missing (payloads ix !! sc_cover req);
      let cover_data := compose_abstract_data (c_now c) cover_record (Some cover_payload) in
      _ ← map_err (fun _ => new_error PermissionDenied (lit "Cover or album not writable"))
            (write_gate (F:=fs_of t) (c_roots c) caller (Some (components (rec_path cover_record)))
               (Some (components (rec_path record))));
      _ ← or_raise Database (lit "Failed to update album") (redb (Insert (sc_album req)));
      Ok (tt, set_payloads (<[sc_album req := to_metadata_record (Album (set_cover cover_data (sc_cover req) a))]>
                (payloads ix)) ix)), t)).
Definition set_album_cover (c : Ctx) (req : SetAlbumCover) : Work unit :=
  let! caller := caller_of c in
  let! _ := in_pool c (cover_body c caller req) in
  tree_updated c "Failed to update tree".

Definition set_titles (title : option str) (a : AlbumCombined) : AlbumCombined :=
  let m := alb_metadata a in
  mkAlbum (alb_object a)
    (mkAlbumMeta (alb_id m) (Some (default (derive_default_title (dir_path m)) title)) (created_time m) (start_time m)
       (end_time m) (last_modified_time m) (cover m) (item_count m) (item_size m) (share_list m) (dir_path m)
       title (alb_trashed m)).
(** The gate in front of a new title: a read transaction of its own. *)
Definition title_gate (c : Ctx) (caller : str) (i : str) : Work unit := fun d =>
  let ix := the_index d in
  let Rd := fate (Fates:=c_fates c) (ticks ix) in
  let r := (_ ← or_raise Database (lit "Failed to begin transaction") (redb BeginRead);
            _ ← or_raise Database (lit "Failed to open ASSET_BY_ID") (redb OpenTable);
            record ← record_of "Failed to get album" i ix;
            if negb (bool_decide (kind record = AAlbum)) then not_an_album
            else if is_empty (rec_path record) then Ok tt
            else map_err (fun _ => new_error PermissionDenied (lit "Album not writable"))
                   (write_gate (F:=fs_of (files d)) (c_roots c) caller (Some (components (rec_path record))) None)) in
  (map_err Failed r, with_index (tick ix) d).
Definition title_body (c : Ctx) (caller : str) (req : SetAlbumTitle) : Work unit :=
  let! _ := title_gate c caller (st_album req) in
  update_album c (st_album req) (set_titles (st_title req)).
Definition set_album_title (c : Ctx) (req : SetAlbumTitle) : Work unit :=
  let! caller := caller_of c in
  let! _ := in_pool c (title_body c caller req) in
  tree_updated c "Failed to update tree".

(** ** The six edits *)
Inductive EditCall :=
| TagCall (req : EditTagsData) | DescriptionCall (req : SetUserDefinedDescription)
| RatingCall (req : EditRatingData) | FlagsCall (req : EditFlagsData)
| CoverCall (req : SetAlbumCover) | TitleCall (req : SetAlbumTitle).
Definition edit_body (c : Ctx) (sn : Snapshots) (caller : str) (call : EditCall) : Work unit :=
  match call with
  | TagCall req => tag_body c sn caller req
  | DescriptionCall req => description_body c sn caller req
  | RatingCall req => rating_body c sn caller req
  | FlagsCall req => let! _ := flags_body c sn caller req in answer tt
  | CoverCall req => cover_body c caller req
  | TitleCall req => title_body c caller req
  end.
Definition serve_edit (c : Ctx) (sn : Snapshots) (call : EditCall) : Work unit :=
  match call with
  | TagCall req => let! _ := edit_tag c sn req in answer tt
  | DescriptionCall req => set_user_defined_description c sn req
  | RatingCall req => edit_rating c sn req
  | FlagsCall req => edit_flags c sn req
  | CoverCall req => set_album_cover c req
  | TitleCall req => set_album_title c req
  end.
End Edits.

(** ** What an edit needs *)
Definition edited_indices (call : EditCall) : list N :=
  match call with
  | TagCall r => et_indices r | DescriptionCall r => [ed_index r] | RatingCall r => er_indices r
  | FlagsCall r => ef_indices r | CoverCall _ | TitleCall _ => []
  end.
Definition edit_timestamp (call : EditCall) : Z :=
  match call with
  | TagCall r => et_timestamp r | DescriptionCall r => ed_timestamp r | RatingCall r => er_timestamp r
  | FlagsCall r => ef_timestamp r | CoverCall _ | TitleCall _ => 0
  end.
Section Needs.
Context {Jc : JsonCodec} {Lh : LegacyHash} {Ca : Casing} {Cr : Crypto} {J : Jwt} {Tc : TokenCodec}.
Context {St : Snapshots.Store} {Xk : XmpKit} {Nf : Nfc} {Uc : Uppercase}.
Context {Io_ : IoFaults} {Ch : Chrono} {O : Outside}.

(** The assets a request names. *)
Definition named_by (sn : Snapshots) (call : EditCall) (i : str) : Prop :=
  match call with
  | CoverCall r => i = sc_album r \/ i = sc_cover r
  | TitleCall r => i = st_album r
  | _ => exists cow index, read_tree_snapshot (edit_timestamp call) sn = Ok cow /\
      index ∈ edited_indices call /\ index_to_asset_id cow index = Some (Ok i)
  end.



Lemma edited_item_spec c caller cow msg change index d r d' : edited_item c caller cow msg change index d = (r, d') ->
  idle d d' /\ forall o, r = Ok o -> exists i, index_to_asset_id cow index = Some (Ok i) /\
    o = (fun a => mkEdited i (change a)) <$> view_of c (the_index d) i /\
    forall rec, by_id (the_index d) !! i = Some (Some rec) -> may_write c caller d rec.
Proof.
  unfold edited_item. intros [(i & d1 & H1 & H)|(e & H & ->)]%next_cases.
  2: { split; [|done]. unfold asset_at in H. destruct (index_to_asset_id cow index) as [[]|]; injection H as _ <-; done. }
  assert (index_to_asset_id cow index = Some (Ok i) /\ d1 = d) as [Hi ->].
  { unfold asset_at in H1. destruct (index_to_asset_id cow index) as [[j|]|]; try done. by injection H1 as -> <-. }
  apply next_cases in H as [(o & d2 & H2 & H)|(e & H & ->)].
  2: { split; [|done]. unfold composed, on_tables in H.
       destruct (compose_by_asset_id_view c i (the_index d)) as (n & r0 & He & _). rewrite He in H. injection H as _ <-.
       apply idle_index. }
  unfold composed, on_tables in H2. destruct (compose_by_asset_id_view c i (the_index d)) as (n & r0 & He & Hr).
  rewrite He in H2. injection H2 as Ho <-. assert (o = view_of c (the_index d) i) as ->.
  { destruct r0 as [o'|]; [|done]. injection Ho as ->. by apply Hr. }
  destruct (view_of c (the_index d) i) as [a|] eqn:Hv.
  2: { injection H as <- <-. split; [apply idle_index|]. intros o [= <-]. exists i. rewrite Hv. split_and!; [done..|].
       intros rec Hrec. unfold view_of in Hv. by rewrite Hrec in Hv. }
  apply next_cases in H as [(u & d3 & H3 & H)|(e & H & ->)].
  - apply gate_data_spec in H3 as [-> H3]. injection H as <- <-. split; [apply idle_index|]. intros o [= <-]. exists i.
    rewrite Hv. split_and!; [done..|]. intros rec Hrec. unfold view_of in Hv. rewrite Hrec in Hv. injection Hv as <-.
    unfold may_write. apply H3; [by destruct u|]. apply compose_visibility.
  - apply gate_data_spec in H as [-> _]. split; [apply idle_index|done].
Qed.


(** What the first pass collected: the named assets that have a record, each with
    its edited view, and all of them writable by the caller. *)
Record collected (c : Ctx) (caller : str) (cow : MyCow) (change : AbstractData -> AbstractData)
    (indices : list N) (d : Desk) (items : list EditedItem) : Prop := {
  col_items : forall i, i ∈ indices -> exists id, index_to_asset_id cow i = Some (Ok id) /\
    (forall a, view_of c (the_index d) id = Some a -> mkEdited id (change a) ∈ items) /\
    (forall rec, by_id (the_index d) !! id = Some (Some rec) -> may_write c caller d rec);
  col_only : forall item, item ∈ items -> exists i a, i ∈ indices /\ index_to_asset_id cow i = Some (Ok (ed_id item)) /\
    view_of c (the_index d) (ed_id item) = Some a /\ ed_data item = change a
}.
Lemma edited_items_spec c caller cow bounded change indices d r d' :
  edited_items c caller cow bounded change indices d = (r, d') ->
  idle d d' /\ forall items, r = Ok items -> collected c caller cow change indices d items.
Proof.
  revert d r d'. induction indices as [|index indices IH]; intros d r d'; cbn [edited_items].
  { intros [= <- <-]. split; [done|]. intros ? [= <-]. by split; intros ? ?%elem_of_nil. }
  destruct (bounded && (half_usize <? index)); [by intros [= <- <-]|].
  intros [(o & d1 & H1 & H)|(e & H & ->)]%next_cases; [|apply edited_item_spec in H as [Hi _]; done].
  apply edited_item_spec in H1 as [Hidle1 Ho]. destruct (Ho o eq_refl) as (id & Hid & Hoe & Hw). clear Ho.
  apply next_cases in H as [(items & d2 & H2 & H)|(e & H & ->)]; [|apply IH in H as [Hi _]; split; [by etransitivity|done]].
  apply IH in H2 as [Hidle2 Hits]. destruct (Hits items eq_refl) as [Hall Honly]. clear Hits.
  injection H as <- <-. split; [by etransitivity|]. intros ? [= <-]. split.
  - intros i [->|Hin]%elem_of_cons.
    + exists id. split_and!; [done| |done]. intros a Ha. apply elem_of_app. left. rewrite Hoe, Ha. by left.
    + destruct (Hall i Hin) as (j & Hj & Hja & Hjw). exists j. split_and!; [done|..].
      * intros a Ha. apply elem_of_app. right. apply Hja. by rewrite (idle_view _ _ _ _ Hidle1).
      * intros rec Hrec. unfold may_write. rewrite <-(idle_files _ _ Hidle1). apply Hjw. by rewrite (idle_records _ _ Hidle1).
  - intros item [Hin|Hin]%elem_of_app.
    + destruct (view_of c (the_index d) id) as [a|] eqn:Ha; subst o; cbn in Hin; [|by apply elem_of_nil in Hin].
      apply list_elem_of_singleton in Hin as ->. exists index, a. split_and!; [by left|done..].
    + destruct (Honly item Hin) as (i & a & Hi & Hid' & Ha & Hd). exists i, a. split_and!; [by right|done| |done].
      by rewrite <-(idle_view _ _ _ _ Hidle1).
Qed.

Lemma edited_item_collected c caller cow msg change index d r d' : edited_item c caller cow msg change index d = (r, d') ->
  idle d d' /\ forall o, r = Ok o -> collected c caller cow change [index] d (option_list o).
Proof.
  intros [Hidle Ho]%edited_item_spec. split; [done|]. intros o ->. destruct (Ho o eq_refl) as (id & Hid & -> & Hw). split.
  - intros i ->%list_elem_of_singleton. exists id. split_and!; [done| |done]. intros a ->. by left.
  - intros item. destruct (view_of c (the_index d) id) as [a|] eqn:Ha; cbn; [|by intros ?%elem_of_nil].
    intros ->%list_elem_of_singleton. exists index, a. split_and!; [by left|done..].
Qed.

(** The assets of a request that have a record are writable; the title of an album
    whose record has no path is not gated. *)
Definition granted (c : Ctx) (sn : Snapshots) (call : EditCall) (d : Desk) (caller : str) : Prop :=
  forall i rec, named_by sn call i -> by_id (the_index d) !! i = Some (Some rec) ->
    may_write c caller d rec \/ (rec_path rec = [] /\ exists r, call = TitleCall r).
Lemma collected_granted c sn call d caller cow change items :
  read_tree_snapshot (edit_timestamp call) sn = Ok cow ->
  match call with CoverCall _ | TitleCall _ => False | _ => True end ->
  collected c caller cow change (edited_indices call) d items -> granted c sn call d caller.
Proof.
  intros Hcow Hcall [Hall _] i rec Hn Hrec. left.
  assert (exists cow index, read_tree_snapshot (edit_timestamp call) sn = Ok cow /\
      index ∈ edited_indices call /\ index_to_asset_id cow index = Some (Ok i)) as (cow' & index & Hc & Hin & Hi) by (by destruct call).
  rewrite Hcow in Hc. injection Hc as <-. destruct (Hall index Hin) as (j & Hj & _ & Hw). rewrite Hi in Hj.
  injection Hj as <-. by apply Hw.
Qed.

(** How the bodies that go over a snapshot begin. *)
Lemma open_snapshot_spec ts sn d r d' : open_snapshot ts sn d = (r, d') ->
  d' = d /\ forall cow, r = Ok cow -> read_tree_snapshot ts sn = Ok cow.
Proof.
  unfold open_snapshot, hoist. intros [= <- <-]. split; [done|]. intros cow.
  destruct (read_tree_snapshot ts sn); [by intros [= ->]|done].
Qed.
Definition needs {A} (c : Ctx) (sn : Snapshots) (call : EditCall) (caller : str) (d : Desk) (r : result Stop A) (d' : Desk) : Prop :=
  granted c sn call d caller \/ (idle d d' /\ is_ok r = false).
Lemma snapshot_body_needs {A B} c sn call caller d r d' change (collect : MyCow -> Work A) (items_of : A -> list EditedItem)
    (k : MyCow -> A -> Work B) :
  match call with CoverCall _ | TitleCall _ => False | _ => True end ->
  (forall cow d r d', collect cow d = (r, d') -> idle d d' /\ forall a, r = Ok a ->
     collected c caller cow change (edited_indices call) d (items_of a)) ->
  (let! cow := open_snapshot (edit_timestamp call) sn in let! a := collect cow in k cow a) d = (r, d') ->
  needs c sn call caller d r d'.
Proof.
  intros Hcall Hcol [(cow & d1 & H1 & H)|(e & H & ->)]%next_cases.
  2: { apply open_snapshot_spec in H as [-> _]. right. by split. }
  apply open_snapshot_spec in H1 as [-> Hcow]. apply next_cases in H as [(a & d2 & H2 & H)|(e & H & ->)].
  - left. eapply collected_granted; [by apply Hcow|done|]. by apply (Hcol cow d (Ok a) d2).
  - right. split; [|done]. by apply Hcol in H as [H _].
Qed.

Lemma album_write_cases {A} c (body : Redb -> Index -> Files -> app_result (A * Index) * Files) d r d' :
  album_write c body d = (r, d') ->
  (idle d d' /\ is_ok r = false) \/
  exists r0 t, body (fate (Fates:=c_fates c) (ticks (the_index d))) (the_index d) (files d) = (r0, t) /\
    files d' = t /\
    match r0 with
    | Ok (a, ix') => d' = with_index (tick ix') (with_files t d) /\ r = Ok a \/
        d' = with_index (tick (the_index d)) (with_files t d) /\ is_ok r = false
    | Err _ => d' = with_index (tick (the_index d)) (with_files t d) /\ is_ok r = false
    end.
Proof.
  unfold album_write. set (Rd := fate _).
  destruct (_ ← or_raise _ _ (redb BeginWrite); _); [|intros [= <- <-]; left; split; [apply idle_index|done]].
  intros H. right. destruct (body Rd _ _) as [r0 t] eqn:Hb. exists r0, t. split; [done|].
  destruct r0 as [[b ix']|e]; cbn in H.
  - destruct (or_raise _ _ (redb Commit)); injection H as <- <-; (split; [done|]); [left|right]; done.
  - injection H as <- <-. done.
Qed.
Lemma record_of_Ok {Rd : Redb} msg i ix record : record_of msg i ix = Ok record -> by_id ix !! i = Some (Some record).
Proof.
  unfold record_of. intros (? & _ & (row & H1 & H2)%bind_Ok)%bind_Ok. destruct (by_id ix !! i) as [o|]; [|done].
  injection H1 as ->. destruct row; [|done]. by injection H2 as ->.
Qed.

Lemma cover_body_needs c sn caller req d r d' : cover_body c caller req d = (r, d') ->
  needs c sn (CoverCall req) caller d r d'.
Proof.
  unfold cover_body. intros [H|(r0 & t & Hb & Ht & H)]%album_write_cases; [by right|]. injection Hb as Hr0 <-.
  rewrite with_files_id in H. destruct r0 as [[u ix']|e].
  - left. clear H. set (Rd := fate _) in Hr0.
    apply bind_Ok in Hr0 as (record & Hrec%record_of_Ok & (a & _ & H)%bind_Ok).
    apply bind_Ok in H as (cr & Hcr & (? & _ & (cp & _ & (? & Hg & _)%bind_Ok)%bind_Ok)%bind_Ok).
    destruct (record_of _ (sc_cover req) _) as [cr'|] eqn:Hcr'; [|done]. injection Hcr as ->. apply record_of_Ok in Hcr'.
    destruct (write_gate _ _ _ _) as [[]|] eqn:Hw; [|done]. apply write_gate_both in Hw as [Hw1 Hw2].
    intros i rec [->| ->] Hi; left; unfold may_write; congruence.
  - right. destruct H as [-> ->]. split; [apply idle_index|done].
Qed.
Lemma title_gate_spec c sn caller req d r d' : title_gate c caller (st_album req) d = (r, d') ->
  idle d d' /\ (r = Ok tt -> granted c sn (TitleCall req) d caller).
Proof.
  unfold title_gate. intros [= <- <-]. split; [apply idle_index|]. intros H.
  set (Rd := fate _) in H. destruct (_ ← _; _) eqn:Hr in H; [|done]. clear H.
  apply bind_Ok in Hr as (? & _ & (? & _ & (record & Hrec%record_of_Ok & H)%bind_Ok)%bind_Ok).
  destruct (negb _); [done|]. intros i rec -> Hi. assert (rec = record) as -> by congruence.
  destruct (is_empty (rec_path record)) eqn:He; [right|left].
  - split; [by destruct (rec_path record)|by exists req].
  - destruct (write_gate _ _ _ _) as [[]|] eqn:Hw; [|done]. by apply write_gate_source in Hw.
Qed.
Lemma flags_body_needs c sn caller req d r d' : flags_body c sn caller req d = (r, d') -> needs c sn (FlagsCall req) caller d r d'.
Proof.
  set (change := match ef_trashed req with Some b => set_trashed b | None => fun a => a end).
  apply (snapshot_body_needs c sn (FlagsCall req) caller d r d' change
    (fun cow => edited_items c caller cow false change (ef_indices req)) (fun items => items)
    (fun _ items => let! _ := committed c (ef_trashed req) (match ef_trashed req with Some _ => items | None => [] end) in
                    answer (affected (ef_trashed req) items))); [done|]. intros *. apply edited_items_spec.
Qed.
Lemma edit_body_needs c sn caller call d r d' : edit_body c sn caller call d = (r, d') -> needs c sn call caller d r d'.
Proof.
  destruct call as [req|req|req|req|req|req]; cbn [edit_body].
  - apply (snapshot_body_needs c sn (TagCall req) caller d r d' (tag_mut (edit_tags (et_add req) (et_remove req)))
      (fun cow => edited_items c caller cow true (tag_mut (edit_tags (et_add req) (et_remove req))) (et_indices req))
      (fun items => items) (fun _ items => committed c None items)); [done|]. intros *. apply edited_items_spec.
  - apply (snapshot_body_needs c sn (DescriptionCall req) caller d r d' (set_description (sanitize_text <$> ed_description req))
      (fun cow => edited_item c caller cow "Failed to get data from table" (set_description (sanitize_text <$> ed_description req)) (ed_index req))
      option_list (fun _ item => match item with Some item => committed c None [item] | None => answer tt end)); [done|].
    intros *. apply edited_item_collected.
  - apply (snapshot_body_needs c sn (RatingCall req) caller d r d' (set_rating (er_rating req))
      (fun cow => edited_items c caller cow true (set_rating (er_rating req)) (er_indices req))
      (fun items => items) (fun _ items => committed c None items)); [done|]. intros *. apply edited_items_spec.
  - intros [(a & d1 & H & H2)|(e & H & ->)]%next_cases; apply (flags_body_needs c sn) in H.
    + injection H2 as <- <-. destruct H as [H|[_ H]]; [by left|done].
    + destruct H as [H|[H _]]; [by left|by right].
  - apply cover_body_needs.
  - unfold title_body. intros [(u & d1 & H1 & H)|(e & H & ->)]%next_cases.
    + apply (title_gate_spec c sn) in H1 as [_ Hg]. left. apply Hg. by destruct u.
    + apply (title_gate_spec c sn) in H as [Hi _]. right. by split.
Qed.


Lemma discarded {A} (m : Work A) d r d' : (let! _ := m in answer tt) d = (r, d') -> exists r0, m d = (r0, d').
Proof. intros [(a & d1 & H & [= <- <-])|(e & H & ->)]%next_cases; eauto. Qed.
Lemma from_caller {B} c sn call (k : str -> Work B) d r d' :
  (forall caller r d', k caller d = (r, d') -> granted c sn call d caller \/ idle d d') ->
  (let! caller := caller_of c in k caller) d = (r, d') ->
  idle d d' \/ exists claims, user_claims c (server d) = Ok claims /\ may_mutate c (server d) = Ok tt /\
    granted c sn call d (caller_identity claims).1.
Proof.
  intros Hk [(caller & d1 & H1 & H)|(e & H & ->)]%next_cases.
  - apply caller_of_cases in H1 as [-> Hc]. destruct (Hc caller eq_refl) as (claims & H1 & H2 & ->).
    destruct (Hk _ _ _ H) as [Hg|Hi]; [right; by exists claims|by left].
  - apply caller_of_cases in H as [-> _]. by left.
Qed.
Lemma through_pool {A B} c sn call caller msg (m : Work A) (rest : A -> Work B) d r d' :
  (forall r d', m d = (r, d') -> needs c sn call caller d r d') ->
  (let! a := on_pool_ c msg m in rest a) d = (r, d') -> granted c sn call d caller \/ idle d d'.
Proof.
  intros Hm [(a & d1 & H1 & H)|(e & H & ->)]%next_cases.
  - left. apply in_pool_cases in H1 as [[_ Hn]|(r0 & H1 & Hok & _)]; [done|].
    destruct (Hm _ _ H1) as [Hg|[_ Hn]]; [done|by rewrite Hn in Hok].
  - apply in_pool_cases in H as [[-> _]|(r0 & H & _)]; [by right|]. destruct (Hm _ _ H) as [Hg|[Hi _]]; [by left|by right].
Qed.
Lemma tag_checks c sn req d caller r d' :
  (if (et_timestamp req <? 0)%Z then refuse InvalidInput (lit "Invalid timestamp")
   else
    let! _ := in_pool c (tag_body c sn caller req) in
    let! _ := refresh c in
    asks (fun d => Ok (read_tags (F:=fs_of (files d)) (c_roots c) caller (in_memory (memory d))))) d = (r, d') ->
  granted c sn (TagCall req) d caller \/ idle d d'.
Proof.
  destruct (et_timestamp req <? 0)%Z; [intros [= _ <-]; by right|]. apply through_pool.
  intros r1 d1. apply (edit_body_needs c sn caller (TagCall req)).
Qed.
Lemma description_checks c sn req d caller r d' :
  (if (ed_timestamp req <? 0)%Z then refuse InvalidInput (lit "Invalid timestamp")
   else if half_usize <? ed_index req then refuse InvalidInput (lit "Index out of bounds")
   else let! _ := in_pool c (description_body c sn caller req) in refresh c) d = (r, d') ->
  granted c sn (DescriptionCall req) d caller \/ idle d d'.
Proof.
  destruct (ed_timestamp req <? 0)%Z; [intros [= _ <-]; by right|].
  destruct (half_usize <? ed_index req); [intros [= _ <-]; by right|]. apply through_pool.
  intros r1 d1. apply (edit_body_needs c sn caller (DescriptionCall req)).
Qed.
Lemma rating_checks c sn req d caller r d' :
  (if (er_timestamp req <? 0)%Z then refuse InvalidInput (lit "Invalid timestamp")
   else match option_filter (fun r => 5 <? r) (er_rating req) with
        | Some r => refuse InvalidInput ((lit "rating must be 0" ++ [8211]) ++ lit "5, got " ++ show_N r)
        | None => let! _ := in_pool c (rating_body c sn caller req) in refresh c
        end) d = (r, d') ->
  granted c sn (RatingCall req) d caller \/ idle d d'.
Proof.
  destruct (er_timestamp req <? 0)%Z; [intros [= _ <-]; by right|].
  destruct (option_filter _ _); [intros [= _ <-]; by right|]. apply through_pool.
  intros r1 d1. apply (edit_body_needs c sn caller (RatingCall req)).
Qed.

(** C15: Whatever an edit request of any of the six kinds does to the tables, the files,
    the tree or the intake, it does for a signed-in user on a server that may be
    edited, and every asset the request names that exists is one the caller may
    write: one asset out of reach and nothing happens at all.  The one exception is
    the title of an album whose record has no path. *)
Theorem edit_needs_write_access c sn call d r d' : serve_edit c sn call d = (r, d') ->
  idle d d' \/ exists claims, user_claims c (server d) = Ok claims /\ may_mutate c (server d) = Ok tt /\
    granted c sn call d (caller_identity claims).1.
Proof.
  destruct call as [req|req|req|req|req|req]; cbn [serve_edit].
  - intros [r0 H]%discarded. apply (from_caller c sn _ _ d r0 d' (tag_checks c sn req d) H).
  - apply from_caller. apply description_checks.
  - apply from_caller. apply rating_checks.
  - apply from_caller. intros caller r0 d0. apply through_pool. intros r1 d1. apply flags_body_needs.
  - apply from_caller. intros caller r0 d0. apply through_pool. intros r1 d1. apply cover_body_needs.
  - apply from_caller. intros caller r0 d0. apply through_pool. intros r1 d1. apply (edit_body_needs c sn caller (TitleCall req)).
Qed.

(** ** What a successful edit of assets leaves *)
Definition change_of (call : EditCall) : AbstractData -> AbstractData :=
  match call with
  | TagCall req => tag_mut (edit_tags (et_add req) (et_remove req))
  | DescriptionCall req => set_description (sanitize_text <$> ed_description req)
  | RatingCall req => set_rating (er_rating req)
  | FlagsCall req => match ef_trashed req with Some b => set_trashed b | None => fun a => a end
  | CoverCall _ | TitleCall _ => fun a => a
  end.
Definition trash_of (call : EditCall) : option bool := match call with FlagsCall req => ef_trashed req | _ => None end.
Definition marked (trash : option bool) (r : AssetRecord) : AssetRecord :=
  match trash with Some b => set_rec_trashed b r | None => r end.
Lemma recompose_change now call r m :
  let d := change_of call (compose_abstract_data now r m) in
  compose_abstract_data now (marked (trash_of call) r) (Some (to_metadata_record d)) = d.
Proof.
  destruct call as [req|req|req|[l t [b|]]|req|req]; cbn [change_of trash_of marked ef_trashed]; destruct r as [i k p h z x mo sc tr al];
    destruct k; cbn; destruct m as [[[[]]|[[]]|[[]]]|]; reflexivity.
Qed.

Definition ids_of (items : list EditedItem) : list str := ed_id <$> items.
(** The rows after the items were stored one by one; equal ids carry equal data. *)
Lemma store_all_rows c trash F items ix ix' : Forall (fun it => F (ed_id it) = Some (ed_data it)) items ->
  store_all (row_store c trash) items ix = (Ok tt, ix') ->
  by_path ix' = by_path ix /\ dupes ix' = dupes ix /\
  (forall i, payloads ix' !! i = if decide (i ∈ ids_of items) then to_metadata_record <$> F i else payloads ix !! i) /\
  (forall i, by_id ix' !! i = if decide (i ∈ ids_of items) then fmap (M:=option) (marked trash) <$> by_id ix !! i else by_id ix !! i).
Proof.
  intros HF. revert ix. induction HF as [|item items Hi _ IH]; intros ix; cbn [store_all].
  { intros [= <-]. split_and!; [done..|]; intros i; by rewrite decide_False by apply not_elem_of_nil. }
  unfold row_store at 1, store_metadata_record. set (Rd := fate _).
  destruct (stored _ _ _ ix) as [ix1|] eqn:Hs; [|done]. cbn. intros H. destruct (IH _ H) as (H1 & H2 & H3 & H4). clear IH H.
  unfold stored in Hs. apply bind_Ok in Hs as (? & _ & (? & _ & (? & _ & (ix2 & Hix2 & (? & _ & Hs)%bind_Ok)%bind_Ok)%bind_Ok)%bind_Ok).
  injection Hs as <-.
  assert (by_path ix2 = by_path ix /\ dupes ix2 = dupes ix /\ payloads ix2 = <[ed_id item := to_metadata_record (ed_data item)]> (payloads ix) /\
    forall i, by_id ix2 !! i = if decide (i = ed_id item) then fmap (M:=option) (marked trash) <$> by_id ix !! i else by_id ix !! i) as (G1 & G2 & G3 & G4).
  { destruct trash as [b|].
    - apply bind_Ok in Hix2 as (? & _ & Hix2). cbn in Hix2. destruct (by_id ix !! ed_id item) as [row|] eqn:Hrow.
      + apply bind_Ok in Hix2 as (r & Hr & (? & _ & Hix2)%bind_Ok). injection Hix2 as <-. split_and!; try done. intros i. cbn.
        destruct (decide (i = ed_id item)) as [->|]; [|by rewrite lookup_insert_ne]. rewrite lookup_insert_eq, Hrow.
        destruct row; [|done]. by injection Hr as ->.
      + injection Hix2 as <-. split_and!; try done. intros i. cbn. destruct (decide _) as [->|]; [by rewrite Hrow|done].
    - injection Hix2 as <-. split_and!; try done. intros i. cbn. destruct (decide _); [|done].
      by destruct (by_id ix !! i) as [[]|]. }
  change (ids_of (item :: items)) with (ed_id item :: ids_of items).
  cbn in H1, H2, H3, H4. split_and!; [congruence..| |]; intros i.
  - rewrite H3, G3. destruct (decide (i ∈ ids_of items)) as [Hin|Hout].
    + rewrite decide_True by set_solver. done.
    + destruct (decide (i = ed_id item)) as [->|Hne].
      * rewrite decide_True by set_solver. rewrite lookup_insert_eq. by rewrite Hi.
      * rewrite decide_False by set_solver. by rewrite lookup_insert_ne.
  - rewrite H4, !G4. destruct (decide (i ∈ ids_of items)) as [Hin|Hout].
    + rewrite (decide_True (P:=i ∈ _ :: _)) by set_solver. destruct (decide (i = ed_id item)) as [->|]; [|done].
      destruct (by_id ix !! ed_id item) as [[r|]|]; [|done..]. cbn. by destruct trash.
    + destruct (decide (i = ed_id item)) as [->|Hne].
      * by rewrite decide_True by set_solver.
      * by rewrite decide_False by set_solver.
Qed.

Definition over_snapshot (call : EditCall) : bool := match call with CoverCall _ | TitleCall _ => false | _ => true end.
Lemma commit_ok {Tb} (store : str -> AbstractData -> Tb -> app_result unit * Tb) items t ix t' ix' :
  commit_metadata_edits store items t ix = (Ok tt, t', ix') -> store_all store items ix = (Ok tt, ix').
Proof.
  unfold commit_metadata_edits, commit_with. destruct (write_all _ _ _ _) as [[[|] applied] t1]; [|done].
  destruct (store_all store items ix) as [r s]. by intros [= -> _ ->].
Qed.
Lemma committed_ok c trash items d d' : committed c trash items d = (Ok tt, d') ->
  store_all (row_store c trash) items (the_index d) = (Ok tt, the_index d').
Proof.
  unfold committed. destruct (commit_metadata_edits _ items (files d) (the_index d)) as [[r t] ix] eqn:Hc.
  intros [= Hr <-]. destruct r as [[]|]; [|done]. by apply commit_ok in Hc.
Qed.

(** Every body over a snapshot collects the named assets, then commits them. *)
Lemma snapshot_body_ok c sn caller call d d' : over_snapshot call = true ->
  edit_body c sn caller call d = (Ok tt, d') ->
  exists cow items d1, read_tree_snapshot (edit_timestamp call) sn = Ok cow /\ idle d d1 /\
    collected c caller cow (change_of call) (edited_indices call) d items /\
    store_all (row_store c (trash_of call))
      (match call with FlagsCall req => if ef_trashed req then items else [] | _ => items end) (the_index d1) = (Ok tt, the_index d').
Proof.
  destruct call as [req|req|req|req|req|req]; try done; intros _; cbn [edit_body].
  1,3: intros (cow & d0 & H1 & (items & d1 & [H2 H3]%edited_items_spec & H4%committed_ok)%next_Ok)%next_Ok;
    apply open_snapshot_spec in H1 as [-> H1]; exists cow, items, d1; split_and!; auto.
  - intros (cow & d0 & H1 & (item & d1 & [H2 H3]%edited_item_collected & H4)%next_Ok)%next_Ok.
    apply open_snapshot_spec in H1 as [-> H1]. exists cow, (option_list item), d1. split_and!; auto.
    destruct item as [item|]; [by apply committed_ok in H4|]. by injection H4 as <-.
  - intros (alb & d2 & (cow & d0 & H1 & (items & d1 & [H2 H3]%edited_items_spec & H4)%next_Ok)%next_Ok & [= ->])%next_Ok.
    apply next_Ok in H4 as ([] & d3 & H4%committed_ok & [= _ ->]).
    apply open_snapshot_spec in H1 as [-> H1]. exists cow, items, d1. split_and!; auto.
Qed.

(** C16: A successful edit of tags, description, rating or trash flag is, for each asset
    the request names, the edit of its view and nothing else: composing its rows
    again gives the edited view, whichever of them the edit is stored in; all other
    rows of the four tables are as they were. *)
Theorem edit_changes_exactly c sn caller call d d' : over_snapshot call = true ->
  edit_body c sn caller call d = (Ok tt, d') ->
  (forall i, named_by sn call i -> view_of c (the_index d') i = change_of call <$> view_of c (the_index d) i) /\
  (forall i, ~ named_by sn call i -> by_id (the_index d') !! i = by_id (the_index d) !! i /\
     payloads (the_index d') !! i = payloads (the_index d) !! i) /\
  by_path (the_index d') = by_path (the_index d) /\ dupes (the_index d') = dupes (the_index d).
Proof.
  intros Hover Hb. destruct (snapshot_body_ok c sn caller call d d' Hover Hb) as (cow & items & d1 & Hcow & Hidle & [Hall Honly] & Hst).
  assert (Hnamed : forall i, named_by sn call i <-> exists index, index ∈ edited_indices call /\ index_to_asset_id cow index = Some (Ok i)).
  { assert (forall i, named_by sn call i <-> exists cow' index, read_tree_snapshot (edit_timestamp call) sn = Ok cow' /\
      index ∈ edited_indices call /\ index_to_asset_id cow' index = Some (Ok i)) as Hn by (by destruct call).
    intros i. rewrite Hn, Hcow. split; [intros (? & ? & [= <-] & ?); eauto|intros (? & ?); eauto]. }
  assert (Hno : match call with FlagsCall req => if ef_trashed req then items else [] | _ => items end = items \/
     (match call with FlagsCall req => if ef_trashed req then items else [] | _ => items end = [] /\ change_of call = fun a => a)).
  { destruct call as [req|req|req|[l t [b|]]|req|req]; cbn; auto. }
  destruct Hidle as [n ->]. destruct Hno as [Hno|[Hno Hid]]; rewrite Hno in Hst.
  2: { injection Hst as Hst. unfold view_of. rewrite <-Hst, Hid. split_and!; try done. intros i _.
       unfold the_index at 1 2. cbn. destruct (by_id _ !! i) as [[]|]; done. }
  assert (Forall (fun it => change_of call <$> view_of c (the_index d) (ed_id it) = Some (ed_data it)) items) as HF.
  { apply Forall_forall. intros it Hit. destruct (Honly it Hit) as (i & a & _ & _ & -> & ->). done. }
  destruct (store_all_rows c (trash_of call) (fun i => change_of call <$> view_of c (the_index d) i) items _ _ HF Hst)
    as (H1 & H2 & H3 & H4).
  assert (Hin : forall i, i ∈ ids_of items <-> named_by sn call i /\ is_Some (view_of c (the_index d) i)).
  { intros i. rewrite Hnamed. unfold ids_of. rewrite list_elem_of_fmap. split.
    - intros (it & -> & Hit). destruct (Honly it Hit) as (index & a & H5 & H6 & H7 & _). split; [eauto|by eexists].
    - intros [(index & H5 & H6) [a Ha]]. destruct (Hall index H5) as (j & Hj & Hja & _). rewrite H6 in Hj. injection Hj as <-.
      eexists. split; [|by apply Hja]. done. }
  split_and!; [| |done|done].
  - intros i Hi. unfold view_of at 1. rewrite H3, H4. unfold the_index at 1 2 3. cbn.
    destruct (decide (i ∈ ids_of items)) as [Hd|Hd].
    + apply Hin in Hd as [_ [a Ha]]. unfold view_of in Ha |- *.
      change (by_id (index (library (server d)))) with (by_id (the_index d)).
      destruct (by_id (the_index d) !! i) as [[r|]|]; [|done..]. cbn. f_equal. apply recompose_change.
    + assert (view_of c (the_index d) i = None) as Hv.
      { destruct (view_of c (the_index d) i) eqn:He; [|done]. destruct Hd. apply Hin. split; [done|by eexists]. }
      rewrite Hv. cbn. unfold view_of in Hv. change (by_id (index (library (server d)))) with (by_id (the_index d)).
      by destruct (by_id (the_index d) !! i) as [[]|].
  - intros i Hi. rewrite H3, H4. rewrite !decide_False by (intros [Hc _]%Hin; done). done.
Qed.

(** ** Albums *)
(** The change of an album edit, from the views of the album and of the cover. *)
Definition album_change (call : EditCall) (view : str -> option AbstractData) (a : AlbumCombined) : option AlbumCombined :=
  match call with
  | TitleCall req => Some (set_titles (st_title req) a)
  | CoverCall req => (fun cv => set_cover cv (sc_cover req) a) <$> view (sc_cover req)
  | _ => None
  end.
Definition edited_album (call : EditCall) : str :=
  match call with TitleCall req => st_album req | CoverCall req => sc_album req | _ => [] end.
Lemma recompose_album now call view r m a a' : compose_abstract_data now r m = Album a -> album_change call view a = Some a' ->
  compose_abstract_data now r (Some (to_metadata_record (Album a'))) = Album a'.
Proof.
  destruct r as [i k p h z x mo sc tr al]. destruct k; cbn; destruct m as [[[[]]|[[]]|[[]]]|]; cbn; try discriminate;
    intros [= <-]; destruct call as [req|req|req|req|req|req]; cbn; try discriminate;
    try (intros [= <-]; reflexivity); (destruct (view _); [|discriminate]); intros [= <-]; reflexivity.
Qed.
Lemma album_in_Ok {Rd : Redb} now i record ix a : album_in now i record ix = Ok a ->
  compose_abstract_data now record (payloads ix !! i) = Album a.
Proof.
  unfold album_in. destruct (negb _); [done|]. intros (? & _ & H)%bind_Ok.
  destruct (compose_abstract_data _ _ _); [done..|]. by injection H as ->.
Qed.
Record album_edited (c : Ctx) (call : EditCall) (ix ix' : Index) (a a' : AlbumCombined) : Prop := {
  ae_before : view_of c ix (edited_album call) = Some (Album a);
  ae_change : album_change call (view_of c ix) a = Some a';
  ae_after : view_of c ix' (edited_album call) = Some (Album a');
  ae_records : by_id ix' = by_id ix;
  ae_payloads : forall i, i <> edited_album call -> payloads ix' !! i = payloads ix !! i;
  ae_others : by_path ix' = by_path ix /\ dupes ix' = dupes ix
}.
Lemma put_album_edited c call n ix record a a' :
  by_id ix !! edited_album call = Some (Some record) ->
  compose_abstract_data (c_now c) record (payloads ix !! edited_album call) = Album a ->
  album_change call (view_of c ix) a = Some a' ->
  album_edited c call ix (at_transaction n (set_payloads (<[edited_album call := to_metadata_record (Album a')]> (payloads ix)) ix)) a a'.
Proof.
  intros Hr Ha Hc. split; cbn; try done.
  - unfold view_of. rewrite Hr. by f_equal.
  - unfold view_of. cbn. rewrite Hr, lookup_insert_eq. f_equal. by eapply recompose_album.
  - intros i Hi. by rewrite lookup_insert_ne.
Qed.

(** A new title or cover is the change of the album's view and nothing else; when the
    edit fails, at whatever call, the tables are as they were.  A new cover is in no
    sidecar. *)
Theorem album_edit_spec c sn caller call d r d' : over_snapshot call = false ->
  edit_body c sn caller call d = (r, d') ->
  match r with
  | Ok _ => exists a a', album_edited c call (the_index d) (the_index d') a a'
  | Err _ => exists n, the_index d' = at_transaction n (the_index d)
  end /\ (forall req, call = CoverCall req -> files d' = files d).
Proof.
  destruct call as [req|req|req|req|req|req]; try done; intros _; cbn [edit_body].
  - unfold cover_body. intros [[[n ->] Hr]|(r0 & t & Hb & Ht & H)]%album_write_cases.
    { split; [|done]. destruct r; [done|by exists n]. }
    injection Hb as Hr0 <-. split; [|by intros _ _]. destruct r0 as [[u ix']|e].
    + destruct H as [[-> ->]|[-> Hr]]; [|destruct r; [done|by eexists]]. set (Rd := fate _) in Hr0.
      apply bind_Ok in Hr0 as (record & Hrec%record_of_Ok & (a & Ha%album_in_Ok & H)%bind_Ok).
      apply bind_Ok in H as (cr & Hcr & (? & _ & (cp & Hcp & (? & _ & (? & _ & H)%bind_Ok)%bind_Ok)%bind_Ok)%bind_Ok).
      destruct (record_of _ (sc_cover req) _) as [cr'|] eqn:Hcr'; [|done]. injection Hcr as ->. apply record_of_Ok in Hcr'.
      injection H as <- <-. exists a, (set_cover (compose_abstract_data (c_now c) cr (Some cp)) (sc_cover req) a).
      apply (put_album_edited c (CoverCall req) (S (ticks (the_index d))) (the_index d) record a
        (set_cover (compose_abstract_data (c_now c) cr (Some cp)) (sc_cover req) a) Hrec Ha).
      cbn. unfold view_of. rewrite Hcr'. destruct (payloads _ !! sc_cover req); [|done]. by injection Hcp as ->.
    + destruct H as [-> Hr]. destruct r; [done|by eexists].
  - unfold title_body. intros H. split; [|done]. apply next_cases in H as [(u & d1 & H1 & H)|(e & H & ->)].
    2: { apply (title_gate_spec c sn) in H as [[n ->] _]. by exists n. }
    apply (title_gate_spec c sn) in H1 as [[n ->] _].
    unfold update_album in H. apply album_write_cases in H as [[[m ->] Hr]|(r0 & t & Hb & Ht & H)].
    { destruct r; [done|by exists m]. }
    set (Rd := fate _) in Hb. cbn [the_index with_index] in *.
    destruct (record ← record_of _ _ _; album_in _ _ record _) as [a|] eqn:Ha.
    2: { injection Hb as <- <-. destruct H as [-> Hr]. destruct r; [done|by eexists]. }
    apply bind_Ok in Ha as (record & Hrec%record_of_Ok & Ha%album_in_Ok).
    destruct (commit_metadata_edits _ _ _ _) as [[r1 t1] ix1] eqn:Hcm. injection Hb as <- <-.
    destruct r1 as [[]|e]; cbn in H; [|destruct H as [-> Hr]; destruct r; [done|by eexists]].
    destruct H as [[-> ->]|[-> Hr]]; [|destruct r; [done|by eexists]].
    apply commit_ok in Hcm. cbn [store_all] in Hcm. unfold payload_store in Hcm.
    destruct (or_raise _ _ _); [|done]. injection Hcm as <-. exists a, (set_titles (st_title req) a).
    by apply (put_album_edited c (TitleCall req) (S n) (the_index d) record a (set_titles (st_title req) a) Hrec Ha).
Qed.
End Needs.

(** ** Witnesses *)
Import (hints) ServerWitness.
Import (hints) HomeWitness.
Import (hints) TokenWitness.
Import (hints) SnapshotWitness.
Import (hints) XmpWitness.
Module DeskWitness.
#[export] Instance outside : Outside := {|
  random_time _ := 0%Z; drawn n := lit (pretty n); taken _ := Ok tt |}.
#[export] Instance plain_nfc : Nfc := {| nfc s := s |}.
Definition album_record : AssetRecord :=
  mkAsset (lit "A") AAlbum (lit "/p") None 0 [] 0 0 false None.
Definition tables : Index :=
  mkIndex {[ lit "a" := Some (PageWitness.record "a" "/p/a.jpg"); lit "A" := Some album_record ]}
    {[ lit "/p/a.jpg" := lit "a"; lit "/p" := lit "A" ]} {[ lit "h1" := Some [lit "a"] ]}
    {[ lit "A" := MAlbum AuthWitness.album; lit "a" := PageWitness.photo ]} 0.
Definition server : Server := with_library (mkLib tables (mkAlbums ∅ ∅)) ServerWitness.solo.
Definition desk : Desk := mkDesk server EditWitness.tree (mkTree [] 0) [].
Definition ctx : Ctx := 
  ServerWitness.ctx_at AuthWitness.now (AuthWitness.visit [] (Some AuthWitness.token)) (lit "jti") (Ok tt).
Definition tagging : EditCall := TagCall (mkTagsEdit [0] [lit "new"] [lit "private"] 1000).
Definition titling : EditCall := TitleCall (mkTitleEdit (lit "A") (Some (lit "Lake"))).
Definition edit (call : EditCall) : result Stop unit * Desk :=
  edit_body ctx PageWitness.sn (lit "alice") call desk.
Lemma edit_accepted call : is_ok (edit call).1 = true -> edit call = (Ok tt, (edit call).2).
Proof. by destruct (edit call) as [[[]|] d]. Qed.
End DeskWitness.
Import (hints) DeskWitness.

Lemma edit_changes_exactly_witness :
  view_of DeskWitness.ctx (the_index (DeskWitness.edit DeskWitness.tagging).2) (lit "a") =
  tag_mut (edit_tags [lit "new"] [lit "private"]) <$> view_of DeskWitness.ctx DeskWitness.tables (lit "a").
Proof.
  refine (proj1 (edit_changes_exactly DeskWitness.ctx PageWitness.sn (lit "alice") DeskWitness.tagging
    DeskWitness.desk (DeskWitness.edit DeskWitness.tagging).2 eq_refl (DeskWitness.edit_accepted DeskWitness.tagging _)) (lit "a") _).
  - vm_compute. reflexivity.
  - exists (InMemory PageWitness.rows), 0. split_and!; [vm_compute; reflexivity|by left|reflexivity].
Defined.
Lemma album_edit_spec_witness : exists a a',
  album_edited DeskWitness.ctx DeskWitness.titling DeskWitness.tables (the_index (DeskWitness.edit DeskWitness.titling).2) a a'.
Proof.
  refine (proj1 (album_edit_spec DeskWitness.ctx PageWitness.sn (lit "alice") DeskWitness.titling
    DeskWitness.desk (Ok tt) (DeskWitness.edit DeskWitness.titling).2 eq_refl (DeskWitness.edit_accepted DeskWitness.titling _))).
  vm_compute. reflexivity.
Defined.
Lemma edit_needs_write_access_witness :
  let run := serve_edit (Ch:=IndexWitness.clock) DeskWitness.ctx PageWitness.sn DeskWitness.tagging DeskWitness.desk in
  idle DeskWitness.desk run.2 \/ exists claims, user_claims DeskWitness.ctx (server DeskWitness.desk) = Ok claims /\
    may_mutate DeskWitness.ctx (server DeskWitness.desk) = Ok tt /\
    granted DeskWitness.ctx PageWitness.sn DeskWitness.tagging DeskWitness.desk (caller_identity claims).1.
Proof.
  intros run. refine (edit_needs_write_access (Ch:=IndexWitness.clock) DeskWitness.ctx PageWitness.sn DeskWitness.tagging
    DeskWitness.desk run.1 run.2 _). apply surjective_pairing.
Defined.
