(* ===== verification/Deletion.v ===== *)
(** * Deletion: removing assets and albums with their files
      ([delete_data] of [backend/src/router/delete.rs])

    The first pass looks every record up and asks the write gate; the second removes
    the files, sidecars and thumbnails; then the descendants of deleted albums go, with
    their directory, and the rows are flushed out.  Failures of file calls are only
    logged.  Removals of the three phases are effects on the file tree in the order of
    the code. *)

From S2P Require Import Snapshots.
From S2P Require Import Prelude Errors Redb Password UserStore Revocations Invites LoginThrottle.
From S2P Require Import Paths Formats Model MetadataRecord AlbumUpdate DirAlbum Tokens RouterAuth IndexStore.
From S2P Require Import DirAlbumStore Accounts DataPages FileTree Xmp SidecarEdit Desk.
Open Scope work_scope.

Record DeleteList := mkDeleteList { del_asset_ids : list str; del_timestamp : Z }.

Section Deletion.
Context {Jc : JsonCodec} {Lh : LegacyHash} {Ca : Casing} {Cr : Crypto} {J : Jwt} {Tc : TokenCodec}.
Context {Io_ : IoFaults} {Ch : Chrono} {O : Outside}.
Variable data_home : Path.

(** A call whose failure is only logged. *)
Definition attempt {A} (m : Call A) (t : Files) : Files := (m t).2.
(** A file and its sidecar. *)
Definition remove_original (p : Path) (t : Files) : Files :=
  let t := attempt (remove_file p) t in
  let sidecar := with_extension_xmp p in
  if exists_in t sidecar then attempt (remove_file sidecar) t else t.
(** [compressed_path]; a media hash of fewer than two bytes is a panic. *)
Definition compressed_path (a : AbstractData) : option Path :=
  match compressed_path_string a with
  | None => Some []
  | Some rel => if str_len (hash a) <? 2 then None else Some (push data_home (components rel))
  end.

(** *** [process_deletes] *)
(** The record and its view, inside the read transaction of the first pass. *)
Definition deleted_view (c : Ctx) (Rd : Redb) (i : str) (ix : Index) : app_result AbstractData :=
  _ ← option_or_raise InvalidInput (lit "Invalid asset_id format: " ++ i) (array_string i);
  _ ← or_raise Database (lit "Failed to look up asset " ++ i) (redb (Get i));
  row ← option_or_raise Errors.NotFound (lit "Asset not found: " ++ i) (by_id ix !! i);
  record ← or_raise Database (lit "Failed to deserialize AssetRecord for " ++ i) (ok_or (lit "invalid row") row);
  _ ← or_raise Database (lit "Failed to look up metadata for " ++ i) (redb (Get i));
  Ok (compose_abstract_data (c_now c) record (payloads ix !! i)).
Definition affected_albums (a : AbstractData) : list str :=
  match a with Album alb => [id (alb_object alb)] | _ => option_list (get_album a) end.
Definition evict (a : AbstractData) (al : Albums) : Albums :=
  match a with
  | Album alb => if is_empty (dir_path (alb_metadata alb)) then al else evict_dir_album (components (dir_path (alb_metadata alb))) al
  | _ => al
  end.
Fixpoint first_pass (c : Ctx) (Rd : Redb) (caller : str) (ids : list str) : Work (list AbstractData) :=
  match ids with
  | [] => answer []
  | i :: ids' =>
      let! a := asks (fun d => deleted_view c Rd i (the_index d)) in
      let! _ := gate_data c caller "Asset not writable" a in
      let! _ := (fun d => (Ok tt, with_albums (evict a (the_albums d)) d)) in
      let! rest := first_pass c Rd caller ids' in
      answer (a :: rest)
  end.
(** The files of one validated asset; the thumbnail stays while another asset has the
    same content. *)
Definition remove_files (c : Ctx) (a : AbstractData) : Work unit := fun d =>
  let d := match path a with Some e => with_files (remove_original (components (file e)) (files d)) d | None => d end in
  let '(r, ix) := get_dupe_ids (Fa:=c_fates c) (hash a) (the_index d) in
  let d := with_index ix d in
  let other_refs := match r with Ok ids => length ids | Err _ => 0%nat end in
  if (1 <? other_refs)%nat then (Ok tt, d)
  else match compressed_path a with
       | None => (Err Panicked, d)
       | Some thumb => (Ok tt, if exists_in (files d) thumb then with_files (attempt (remove_file thumb) (files d)) d else d)
       end.
Definition process_deletes (c : Ctx) (caller : str) (ids : list str) : Work (list AbstractData) := fun d =>
  let Rd := fate (Fates:=c_fates c) (ticks (the_index d)) in
  let d := with_index (tick (the_index d)) d in
  (let! _ := hoist (_ ← or_raise Database (lit "Failed to begin read transaction") (redb BeginRead);
                    _ ← or_raise Database (lit "Failed to open METADATA_TABLE") (redb OpenTable);
                    or_raise Database (lit "Failed to open ASSET_BY_ID") (redb OpenTable)) in
   let! collected := first_pass c Rd caller ids in
   let! _ := for_each collected (remove_files c) in
   answer collected) d.

(** *** [cleanup_album_descendants] *)
Definition remove_descendant (c : Ctx) (r : AssetRecord) (d : Desk) : Desk :=
  let p := components (rec_path r) in
  let d := with_files (remove_original p (files d)) d in
  let d := with_index (remove_asset (Fa:=c_fates c) r (the_index d)).2 d in
  if bool_decide (kind r = AAlbum) then with_albums (evict_dir_album p (the_albums d)) d else d.
Definition cleanup_album (c : Ctx) (a : AbstractData) (d : Desk) : Desk :=
  match a with
  | Album alb =>
      let dir := dir_path (alb_metadata alb) in
      if is_empty dir then d
      else
        let '(r, ix) := get_assets_under_path (Fa:=c_fates c) dir (the_index d) in
        let d := with_index ix d in
        let d := match r with
                 | Ok descendants =>
                     let d := foldl (fun d r => remove_descendant c r d) d descendants in
                     if is_empty descendants then d
                     else (flush c [] (asset_record_to_abstract_data (c_now c) <$> descendants) d).2
                 | Err _ => d
                 end in
        with_files (attempt (remove_dir_all (components dir)) (files d)) d
  | _ => d
  end.
Definition cleanup_album_descendants (c : Ctx) (removed : list AbstractData) : Work unit := fun d =>
  (Ok tt, foldl (fun d a => cleanup_album c a d) d removed).

(** *** [delete_data] *)
Definition flushed (c : Ctx) (msg : string) (inserts removes : list AbstractData) : Work unit := fun d =>
  let '(r, d) := flush c inserts removes d in (map_err Failed (or_raise Internal (lit msg) r), d).
Definition submitted (i : str) : Work unit := fun d =>
  match taken i with
  | Ok _ => (Ok tt, submit i d)
  | Err e => (Err (Failed (new_error Internal (lit "Failed to update affected album: " ++ e))), d)
  end.
Definition delete_data (c : Ctx) (req : DeleteList) : Work unit :=
  let! caller := caller_of c in
  if is_empty (del_asset_ids req) then refuse InvalidInput (lit "assetIds must not be empty")
  else
    let! removed := in_pool c (process_deletes c caller (del_asset_ids req)) in
    let! _ := in_pool c (cleanup_album_descendants c removed) in
    let! _ := if is_empty removed then answer tt else flushed c "Failed to execute flush tree task" [] removed in
    let! _ := tree_updated c "Failed to execute update tree task" in
    for_each (removed ≫= affected_albums) submitted.
End Deletion.

(** ** Removing files *)
Section Erasing.
Context {Io_ : IoFaults}.

Lemma remove_file_cases p t r t' : remove_file p t = (r, t') -> cwd t' = cwd t /\ calls t' = S (calls t) /\
  (nodes t' = nodes t \/ exists q b, resolve p t = Some q /\ nodes t !! q = Some (Plain b) /\ nodes t' = delete q (nodes t)) /\
  (io_fault (calls t) = None -> forall q b, resolve p t = Some q -> nodes t' !! q <> Some (Plain b)).
Proof.
  unfold remove_file, call. destruct (io_fault (calls t)); [intros [= <- <-]; by split_and!; [..|left|]|].
  destruct (resolve p t) as [q|] eqn:Hq; [|intros [= <- <-]; by split_and!; [..|left|]].
  destruct (nodes t !! q) as [[|b]|] eqn:Hn; intros [= <- <-]; split_and!; try done.
  - by left.
  - intros _ q' b [= <-]. cbn. by rewrite Hn.
  - right. by exists q, b.
  - intros _ q' b' [= <-]. cbn. by rewrite lookup_delete_eq.
  - by left.
  - intros _ q' b [= <-]. cbn. by rewrite Hn.
Qed.

(** Nothing changed but files at some of the paths, which are gone. *)
Record erases (P : Path -> Prop) (t t' : Files) : Prop := {
  er_tree : tree_ok t -> tree_ok t';
  er_folders : same_folders (nodes t) (nodes t');
  er_cwd : cwd t' = cwd t;
  er_calls : (calls t <= calls t')%nat;
  er_nodes : forall k, nodes t' !! k = nodes t !! k \/ (nodes t' !! k = None /\ exists p, P p /\ resolve p t = Some k)
}.
Lemma erases_refl P t : erases P t t.
Proof. split; auto. by intros p. Qed.
Lemma erases_resolve P t t' p : erases P t t' -> resolve p t' = resolve p t.
Proof. intros []. by apply resolve_same. Qed.
Lemma erases_trans (P : Path -> Prop) a b c : erases P a b -> erases P b c -> erases P a c.
Proof.
  intros H1 H2. pose proof (fun p => erases_resolve _ _ _ p H1) as Hr. destruct H1, H2. split; auto.
  - by eapply same_folders_trans.
  - congruence.
  - lia.
  - intros k. destruct (er_nodes1 k) as [->|(-> & p & Hp & Hk)]; [done|]. right. split; [done|].
    exists p. split; [done|]. by rewrite <-Hr.
Qed.
Lemma erases_mono (P Q : Path -> Prop) t t' : (forall p, P p -> Q p) -> erases P t t' -> erases Q t t'.
Proof.
  intros H []. split; auto. intros k. destruct (er_nodes0 k) as [?|(? & p & ? & ?)]; [by left|]. right. eauto.
Qed.
Lemma remove_file_erases p t : erases (eq p) t (attempt (remove_file p) t).
Proof.
  unfold attempt. destruct (remove_file p t) as [r t'] eqn:H. cbn.
  destruct (remove_file_cases _ _ _ _ H) as (Hc & Hk & Hn & _).
  assert (same_folders (nodes t) (nodes t')) as Hf.
  { destruct Hn as [->|(q & b & _ & Hq & ->)]; [by intros ?|]. apply folders_drop. unfold is_folder. by rewrite Hq. }
  split; try done.
  - intros Ht. eapply tree_ok_ext; [done|done|done|]. intros k v Hkv. left.
    destruct Hn as [Hn|(q & b & _ & Hq & Hn)]; rewrite Hn in Hkv; [by rewrite Hkv|].
    apply lookup_delete_Some in Hkv as [_ Hkv]. by rewrite Hkv.
  - lia.
  - intros k. destruct Hn as [->|(q & b & Hr & Hq & ->)]; [by left|].
    destruct (decide (k = q)) as [->|]; [|left; by rewrite lookup_delete_ne]. right. rewrite lookup_delete_eq. eauto.
Qed.

Definition pair_of (p q : Path) : Prop := q = p \/ q = with_extension_xmp p.
Lemma remove_original_erases p t : erases (pair_of p) t (remove_original p t).
Proof.
  unfold remove_original. set (t1 := attempt (remove_file p) t).
  assert (erases (pair_of p) t t1) as H1 by (eapply erases_mono; [|apply remove_file_erases]; by intros q <-; left).
  destruct (exists_in t1 _); [|done]. eapply erases_trans; [exact H1|].
  eapply erases_mono; [|apply remove_file_erases]. by intros q <-; right.
Qed.
(** What is not there is not there later either. *)
Lemma erases_absent P t t' p b : erases P t t' -> (forall q, resolve p t = Some q -> nodes t !! q <> Some (Plain b)) ->
  node_at p t' <> Some (Plain b).
Proof.
  intros H Ha. unfold node_at. rewrite (erases_resolve _ _ _ p H). destruct (resolve p t) as [q|]; [|done]. cbn.
  destruct (er_nodes _ _ _ H q) as [->|[-> _]]; [by apply Ha|done].
Qed.
Lemma removed_is_gone p t b : io_fault (calls t) = None -> node_at p (attempt (remove_file p) t) <> Some (Plain b).
Proof.
  intros Hio. unfold attempt. pose proof (remove_file_erases p t) as He. unfold attempt in He.
  destruct (remove_file p t) as [r t'] eqn:H. cbn in *. destruct (remove_file_cases _ _ _ _ H) as (_ & _ & _ & Hg).
  unfold node_at. rewrite (erases_resolve _ _ _ p He). destruct (resolve p t) as [q|] eqn:Hq; [|done]. cbn. by apply Hg.
Qed.
Lemma remove_original_gone p q t b : calm (calls t) -> pair_of p q -> q <> [] -> node_at q (remove_original p t) <> Some (Plain b).
Proof.
  intros Hc Hq Hne. unfold remove_original. set (t1 := attempt (remove_file p) t).
  pose proof (remove_file_erases p t) as H1. fold t1 in H1.
  assert (io_fault (calls t) = None) as H0 by (by apply Hc).
  assert (io_fault (calls t1) = None) as H0' by (apply Hc, H1).
  destruct Hq as [->| ->].
  - pose proof (removed_is_gone p t b H0) as Hg. fold t1 in Hg. destruct (exists_in t1 _); [|done].
    eapply erases_absent; [apply remove_file_erases|]. intros q Hq Hb. apply Hg. unfold node_at. rewrite Hq. exact Hb.
  - destruct (exists_in t1 _) eqn:He; [by apply removed_is_gone|]. unfold exists_in in He.
    intros Hn. rewrite Hn in He. by destruct (with_extension_xmp p).
Qed.
End Erasing.

(** ** The first pass *)
Section FirstPass.
Context {Jc : JsonCodec} {Lh : LegacyHash} {Ca : Casing} {Cr : Crypto} {J : Jwt} {Tc : TokenCodec}.
Context {Io_ : IoFaults} {Ch : Chrono} {O : Outside}.

(** Nothing changed but that the cache lost some directories the caller may write. *)
Definition evicted (c : Ctx) (caller : str) (d d' : Desk) : Prop :=
  exists n dirs, d' = with_albums (foldr evict_dir_album (the_albums d) dirs) (with_index (at_transaction n (the_index d)) d) /\
    Forall (fun dir => visible_to (F:=fs_of (files d)) (c_roots c) caller dir = true) dirs.
Lemma evicted_refl c caller d : evicted c caller d d.
Proof. exists (ticks (the_index d)), []. split; [|by constructor]. by destruct d as [[? ? ? [[] ?] ? ? ?] ? ? ?]. Qed.
Lemma evicted_trans c caller a b d : evicted c caller a b -> evicted c caller b d -> evicted c caller a d.
Proof.
  intros (n & l & -> & Hl) (m & k & -> & Hk). exists m, (k ++ l). split; [|by apply Forall_app].
  rewrite foldr_app. done.
Qed.
Lemma evicted_files c caller d d' : evicted c caller d d' -> files d' = files d.
Proof. by intros (n & l & -> & _). Qed.
Lemma evicted_records c caller d d' : evicted c caller d d' -> by_id (the_index d') = by_id (the_index d).
Proof. by intros (n & l & -> & _). Qed.

(** The validated assets: each named record with its view, all writable. *)
Definition validated (c : Ctx) (caller : str) (d : Desk) (i : str) (a : AbstractData) : Prop :=
  exists rec m, by_id (the_index d) !! i = Some (Some rec) /\ may_write c caller d rec /\
    a = compose_abstract_data (c_now c) rec m.
Lemma compose_kind now r m : is_album (compose_abstract_data now r m) = bool_decide (kind r = AAlbum).
Proof.
  unfold compose_abstract_data. destruct (kind r); rewrite ?bool_decide_eq_true_2, ?bool_decide_eq_false_2 by done;
    by destruct (option_filter _ m) as [[]|].
Qed.
Lemma deleted_view_Ok c Rd i ix a : deleted_view c Rd i ix = Ok a -> exists rec m,
  by_id ix !! i = Some (Some rec) /\ a = compose_abstract_data (c_now c) rec m.
Proof.
  unfold deleted_view. intros (? & _ & (? & _ & (row & Hrow & (rec & Hrec & (? & _ & H)%bind_Ok)%bind_Ok)%bind_Ok)%bind_Ok)%bind_Ok.
  destruct (by_id ix !! i) as [o|]; [|done]. injection Hrow as ->. destruct row; [|done]. injection Hrec as ->.
  injection H as <-. by eexists _, _.
Qed.
Lemma first_pass_spec c Rd caller ids d r d' : first_pass c Rd caller ids d = (r, d') ->
  evicted c caller d d' /\ forall l, r = Ok l -> Forall2 (validated c caller d) ids l.
Proof.
  revert d r d'. induction ids as [|i ids IH]; intros d r d'; cbn [first_pass].
  { intros [= <- <-]. split; [apply evicted_refl|]. by intros ? [= <-]. }
  intros [(a & d1 & H1 & H)|(e & H & ->)]%next_cases.
  2: { injection H as _ <-. split; [apply evicted_refl|done]. }
  injection H1 as Ha <-. destruct (deleted_view c Rd i (the_index d)) as [a'|] eqn:Hv; [|done]. injection Ha as ->.
  apply deleted_view_Ok in Hv as (rec & m & Hrec & ->).
  apply next_cases in H as [(u & d2 & H2 & H)|(e & H & ->)].
  2: { apply gate_data_spec in H as [-> _]. split; [apply evicted_refl|done]. }
  apply gate_data_spec in H2 as [-> Hg]. destruct u.
  assert (may_write c caller d rec) as Hw by (unfold may_write; apply Hg; [done|apply compose_visibility]).
  set (a := compose_abstract_data _ _ _) in *. cbn [next] in H.
  set (d3 := with_albums _ d) in H. assert (evicted c caller d d3) as He3.
  { exists (ticks (the_index d)).
    assert (exists dirs, evict a (the_albums d) = foldr evict_dir_album (the_albums d) dirs /\
      Forall (fun dir => visible_to (F:=fs_of (files d)) (c_roots c) caller dir = true) dirs) as (dirs & Hd & Hall).
    { unfold evict. destruct a as [i'|v|alb] eqn:Hae; [by exists []..|]. destruct (is_empty _); [by exists []|].
      exists [components (dir_path (alb_metadata alb))]. split; [done|]. constructor; [|done].
      by apply Hg. }
    exists dirs. split; [|done]. unfold d3. rewrite Hd. by destruct d as [[? ? ? [[] ?] ? ? ?] ? ? ?]. }
  apply next_cases in H as [(rest & d4 & H4 & H)|(e & H & ->)].
  - apply IH in H4 as [He4 Hl]. injection H as <- <-. split; [by eapply evicted_trans|]. intros ? [= <-].
    constructor; [by exists rec, m|].
    eapply Forall2_impl; [by apply Hl|]. intros j b (rec' & m' & Hr' & Hw' & ->).
    exists rec', m'. split_and!; [by rewrite <-(evicted_records _ _ _ _ He3)| |done].
    unfold may_write in *. by rewrite <-(evicted_files _ _ _ _ He3).
  - apply IH in H as [He4 _]. split; [by eapply evicted_trans|done].
Qed.
End FirstPass.

(** ** The whole request *)
Section Request.
Context {Jc : JsonCodec} {Lh : LegacyHash} {Ca : Casing} {Cr : Crypto} {J : Jwt} {Tc : TokenCodec}.
Context {Io_ : IoFaults} {Ch : Chrono} {O : Outside}.
Variable data_home : Path.

(** The paths the second pass removes for an asset. *)
Definition doomed (a : AbstractData) (p : Path) : Prop :=
  (exists e, path a = Some e /\ pair_of (components (file e)) p) \/ compressed_path data_home a = Some p.
Lemma remove_files_erases c a d r d' : remove_files data_home c a d = (r, d') ->
  erases (doomed a) (files d) (files d') /\
  (calm (calls (files d)) -> forall e q b, path a = Some e -> pair_of (components (file e)) q -> q <> [] ->
     node_at q (files d') <> Some (Plain b)).
Proof.
  unfold remove_files. set (d1 := match path a with Some e => _ | None => d end).
  assert (erases (doomed a) (files d) (files d1) /\ (calm (calls (files d)) -> forall e q b, path a = Some e ->
    pair_of (components (file e)) q -> q <> [] -> node_at q (files d1) <> Some (Plain b))) as [H1 G1].
  { unfold d1. destruct (path a) as [e|] eqn:Hp.
    - split; [|intros Hc e' q b [= <-]; by apply remove_original_gone]. eapply erases_mono; [|apply remove_original_erases].
      intros p Hpp. left. by exists e.
    - split; [apply erases_refl|by intros _ e q b]. }
  clearbody d1.
  assert (Hkeep : forall t', erases (doomed a) (files d1) t' -> erases (doomed a) (files d) t' /\
    (calm (calls (files d)) -> forall e q b, path a = Some e -> pair_of (components (file e)) q -> q <> [] ->
      node_at q t' <> Some (Plain b))).
  { intros t' H2. split; [by eapply erases_trans|]. intros Hc e q b He Hq Hne. eapply erases_absent; [exact H2|].
    intros k Hk Hb. apply (G1 Hc e q b He Hq Hne). unfold node_at. rewrite Hk. exact Hb. }
  destruct (get_dupe_ids _ _) as [r0 ix]. destruct (1 <? _)%nat; [intros [= <- <-]; apply Hkeep, erases_refl|].
  destruct (compressed_path data_home a) as [thumb|] eqn:Ht; [|intros [= <- <-]; apply Hkeep, erases_refl].
  intros [= <- <-]. apply Hkeep. destruct (exists_in _ thumb); [|apply erases_refl].
  eapply erases_mono; [|apply remove_file_erases]. intros p <-. by right.
Qed.
Lemma remove_all_erases c l d r d' : for_each l (remove_files data_home c) d = (r, d') ->
  erases (fun p => exists a, a ∈ l /\ doomed a p) (files d) (files d') /\
  (r = Ok tt -> calm (calls (files d)) -> forall a e q b, a ∈ l -> path a = Some e -> pair_of (components (file e)) q -> q <> [] ->
     node_at q (files d') <> Some (Plain b)).
Proof.
  revert d r d'. induction l as [|a l IH]; intros d r d'; cbn [for_each].
  { intros [= <- <-]. split; [apply erases_refl|]. by intros _ _ a e q b ?%elem_of_nil. }
  intros [(u & d1 & [H1 G1]%remove_files_erases & H)|(e & [H1 _]%remove_files_erases & ->)]%next_cases.
  - apply IH in H as [H2 G2]. assert (erases (fun p => exists a', a' ∈ a :: l /\ doomed a' p) (files d1) (files d')) as H2'.
    { eapply erases_mono; [|exact H2]. intros p (a' & Ha' & Hp). exists a'. split; [by right|done]. }
    split.
    + eapply erases_trans; [|exact H2']. eapply erases_mono; [|exact H1]. intros p Hp. exists a. split; [by left|done].
    + intros Hr Hc a' e q b [->|Hin]%elem_of_cons He Hq Hne.
      * eapply erases_absent; [exact H2'|]. intros k Hk Hb. apply (G1 Hc e q b He Hq Hne). unfold node_at. by rewrite Hk.
      * eapply G2; try done. intros m Hm. apply Hc. pose proof (er_calls _ _ _ H1). lia.
  - split; [|done]. eapply erases_mono; [|exact H1]. intros p Hp. exists a. split; [by left|done].
Qed.

Lemma process_deletes_spec c caller ids d r d' : process_deletes data_home c caller ids d = (r, d') ->
  (evicted c caller d d' /\ is_ok r = false) \/
  exists l d1 r1, evicted c caller d d1 /\ Forall2 (validated c caller d) ids l /\
    for_each l (remove_files data_home c) d1 = (r1, d') /\ match r1 with Ok _ => r = Ok l | Err e => r = Err e end.
Proof.
  unfold process_deletes. set (Rd := fate _). set (d0 := with_index _ d).
  assert (evicted c caller d d0) as H0.
  { exists (S (ticks (the_index d))), []. split; [|by constructor]. by destruct d as [[? ? ? [[] ?] ? ? ?] ? ? ?]. }
  intros [(u & d1 & H1 & H)|(e & H & ->)]%next_cases.
  2: { injection H as _ <-. by left. }
  injection H1 as _ <-. apply next_cases in H as [(l & d2 & [H2 Hl]%first_pass_spec & H)|(e & [H _]%first_pass_spec & ->)].
  2: { left. split; [by apply (evicted_trans _ _ _ d0)|done]. }
  right. exists l, d2. specialize (Hl l eq_refl).
  assert (Forall2 (validated c caller d) ids l) as Hl'.
  { eapply Forall2_impl; [exact Hl|]. intros i a (rec & m & Hr & Hw & ->). exists rec, m. by split_and!. }
  apply next_cases in H as [(u' & d3 & H3 & [= <- <-])|(e & H3 & ->)].
  - exists (Ok u'). split_and!; [by apply (evicted_trans _ _ _ d0)|done|done|done].
  - exists (Err e). split_and!; [by apply (evicted_trans _ _ _ d0)|done|done|done].
Qed.

(** C17: A request that deletes anything at all comes from a signed-in user on a server
    that may be edited, names existing records only, and may write every one of them:
    one that it may not write and no file, row, tree or intake is touched.  What a
    refused request can still do is drop directories it may write from the album
    cache. *)
Theorem delete_needs_write_access c req d r d' : delete_data data_home c req d = (r, d') ->
  (exists caller, evicted c caller d d') \/
  exists claims, user_claims c (server d) = Ok claims /\ may_mutate c (server d) = Ok tt /\
    forall i, i ∈ del_asset_ids req -> exists rec, by_id (the_index d) !! i = Some (Some rec) /\
      may_write c (caller_identity claims).1 d rec.
Proof.
  unfold delete_data. intros [(caller & d1 & H1 & H)|(e & H & ->)]%next_cases.
  2: { apply caller_of_cases in H as [-> _]. left. exists []. apply evicted_refl. }
  apply caller_of_cases in H1 as [-> Hc]. destruct (Hc caller eq_refl) as (claims & H1 & H2 & ->).
  set (caller := (caller_identity claims).1) in *.
  destruct (is_empty (del_asset_ids req)); [injection H as _ <-; left; exists []; apply evicted_refl|].
  assert (Hpool : forall r1 d1, in_pool c (process_deletes data_home c caller (del_asset_ids req)) d = (r1, d1) ->
    (evicted c caller d d1 /\ is_ok r1 = false) \/ exists l, Forall2 (validated c caller d) (del_asset_ids req) l).
  { intros r1 d1 [[-> Hn]|(r0 & H0 & Hok & _)]%in_pool_cases; [left; split; [apply evicted_refl|done]|].
    apply process_deletes_spec in H0 as [[He Hn]|(l & ? & ? & _ & Hl & _)]; [left; split; [done|congruence]|eauto]. }
  assert (Hval : forall l, Forall2 (validated c caller d) (del_asset_ids req) l ->
    forall i, i ∈ del_asset_ids req -> exists rec, by_id (the_index d) !! i = Some (Some rec) /\ may_write c caller d rec).
  { intros l Hl i Hi. apply list_elem_of_lookup in Hi as [n Hn]. eapply Forall2_lookup_l in Hl as (a & _ & rec & m & H3 & H4 & _); eauto. }
  apply next_cases in H as [(l & d1 & H3 & _)|(e & H3 & ->)].
  - destruct (Hpool _ _ H3) as [[_ Hn]|[l' Hl]]; [done|]. right. exists claims. split_and!; eauto.
  - destruct (Hpool _ _ H3) as [[He _]|[l' Hl]]; [left; eauto|]. right. exists claims. split_and!; eauto.
Qed.

Definition keeps_files {A} (m : Work A) : Prop := forall d r d', m d = (r, d') -> files d' = files d.
Lemma keeps_next {A B} (m : Work A) (k : A -> Work B) : keeps_files m -> (forall a, keeps_files (k a)) -> keeps_files (next m k).
Proof.
  intros Hm Hk d r d' [(a & d1 & H1%Hm & H2)|(e & H1%Hm & ->)]%next_cases; [|done]. apply Hk in H2. congruence.
Qed.
Lemma keeps_flushed c msg ins rem : keeps_files (flushed c msg ins rem).
Proof.
  intros d r d'. unfold flushed, flush. destruct (c_refreshed c); [|by intros [= _ <-]].
  destruct (flush_tables _ _ _ _ _); by intros [= _ <-].
Qed.
Lemma update_tree_task_files c d r d' : update_tree_task c d = (r, d') -> files d' = files d.
Proof.
  unfold update_tree_task. destruct (refresh_tree_cache _ _ _ _) as [[m|e] ix]; by intros [= _ <-].
Qed.
Lemma run_album_tasks_files c l d : files (run_album_tasks c l d) = files d.
Proof. unfold run_album_tasks. revert d. induction l as [|i l IH]; intros d; [done|]. cbn. by rewrite IH. Qed.
Lemma keeps_tree_updated c msg : keeps_files (tree_updated c msg).
Proof.
  intros d r d'. unfold tree_updated. destruct (c_refreshed c); [|by intros [= _ <-]].
  destruct (update_tree c d) as [r0 d0] eqn:Hu. intros [= _ <-]. unfold update_tree in Hu.
  destruct (update_tree_task c d) as [[u|e] d1] eqn:H1; apply update_tree_task_files in H1; [|by injection Hu as _ <-].
  destruct (drain_pending_album_updates _) as [pending al]. destruct (is_empty pending); [by injection Hu as _ <-|].
  apply update_tree_task_files in Hu. rewrite Hu, run_album_tasks_files. done.
Qed.
Lemma keeps_for_each {A} (l : list A) (f : A -> Work unit) : (forall a, keeps_files (f a)) -> keeps_files (for_each l f).
Proof. intros Hf. induction l as [|a l IH]; [by intros d r d' [= _ <-]|]. by apply keeps_next. Qed.
Lemma keeps_submitted i : keeps_files (submitted i).
Proof. intros d r d'. unfold submitted. destruct (taken i); by intros [= _ <-]. Qed.

Lemma cleanup_media c l d : Forall (fun a => is_album a = false) l -> foldl (fun d a => cleanup_album c a d) d l = d.
Proof. intros H. revert d. induction H as [|a l Ha _ IH]; intros d; [done|]. cbn. destruct a; [apply IH..|done]. Qed.
Lemma compose_path now r m : kind r <> AAlbum -> path (compose_abstract_data now r m) = Some (file_entry r).
Proof.
  intros Hk. unfold compose_abstract_data. destruct (kind r); [..|done]; by destruct (option_filter _ m) as [[]|].
Qed.

(** *** Their rows *)
Lemma compose_hash now r m h : kind r <> AAlbum -> content_hash r = Some h -> hash (compose_abstract_data now r m) = h.
Proof.
  intros Hk Hh. unfold compose_abstract_data, display_id. rewrite Hh. destruct (kind r); [..|done];
    by destruct (option_filter _ m) as [[]|].
Qed.
(** What is left of the tables when rows were only taken away. *)
Definition thinned (ix ix' : Index) : Prop :=
  consistent ix' /\ by_id ix' ⊆ by_id ix /\ by_path ix' ⊆ by_path ix.
Definition gone (i : str) (r : AssetRecord) (ix : Index) : Prop :=
  by_id ix !! i = None /\ by_path ix !! rec_path r = None /\ payloads ix !! i = None.
Lemma thinned_gone ix ix' i r : consistent ix -> by_id ix !! i = Some (Some r) -> thinned ix ix' ->
  by_id ix' !! i = None -> gone i r ix'.
Proof.
  intros Hok Hi (Hok' & Hs & Hp) Hn. split_and!; [done| |].
  - destruct (by_path ix' !! rec_path r) as [j|] eqn:Hj; [|done].
    apply (ok_rows _ _ _ _ Hok) in Hi as (_ & r' & [= <-] & _ & Hir). pose proof (lookup_weaken _ _ _ _ Hj Hp) as Hj'.
    rewrite Hir in Hj'. injection Hj' as ->. apply (ok_paths _ _ _ _ Hok') in Hj as (r' & Hj & _). congruence.
  - destruct (payloads ix' !! i) eqn:Hm; [|done]. destruct (ok_payloads _ _ _ _ Hok' i); [by rewrite Hm|congruence].
Qed.
Definition media_view (c : Ctx) (ix : Index) (a : AbstractData) (i : str) (r : AssetRecord) : Prop :=
  by_id ix !! i = Some (Some r) /\ kind r <> AAlbum /\ rec_path r <> [] /\ is_Some (content_hash r) /\
  exists m, a = compose_abstract_data (c_now c) r m.
Lemma removes_thin {F : Fs} c ix l : consistent ix -> forall b, thinned ix (index b) ->
  Forall (fun a => exists i r, media_view c ix a i r) l ->
  exists b', flush_removes (Fa:=all_healthy) l b = Ok b' /\ thinned ix (index b') /\
    (forall i, by_id (index b) !! i = None -> by_id (index b') !! i = None) /\
    forall a i r, a ∈ l -> media_view c ix a i r -> by_id (index b') !! i = None.
Proof.
  intros Hok. induction l as [|a l IH]; intros b Hb Hl; cbn [flush_removes].
  { exists b. split_and!; [done..|]. by intros a i r ?%elem_of_nil. }
  apply Forall_cons in Hl as [(i & r & Hv) Hl]. destruct Hv as (Hi & Hk & Hp & [h Hh] & m & ->).
  set (a := compose_abstract_data _ r m). assert (flush_path a = rec_path r) as Hfp.
  { unfold flush_path, a. by rewrite compose_path. }
  pose proof (compose_hash (c_now c) r m h Hk Hh) as Hha. fold a in Hha. destruct Hb as (Hok1 & Hs1 & Hp1).
  assert (Hpath : by_path ix !! rec_path r = Some i).
  { by apply (ok_rows _ _ _ _ Hok) in Hi as (_ & r' & [= <-] & _ & ?). }
  assert (exists b1, flush_remove (Fa:=all_healthy) a b = Ok b1 /\ thinned ix (index b1) /\ by_id (index b1) !! i = None /\
    forall j, by_id (index b) !! j = None -> by_id (index b1) !! j = None) as (b1 & -> & Hb1 & Hi1 & Hkeep).
  { destruct (by_path (index b) !! rec_path r) as [j|] eqn:Hj.
    - pose proof (lookup_weaken _ _ _ _ Hj Hp1) as Hj'. rewrite Hpath in Hj'. injection Hj' as <-.
      destruct (ok_paths _ _ _ _ Hok1 _ _ Hj) as (r' & Hr' & _). pose proof (lookup_weaken _ _ _ _ Hr' Hs1) as Hr''.
      rewrite Hi in Hr''. injection Hr'' as <-.
      destruct (flush_remove_spec a b i r Hok1) as (b1 & -> & H1 & H2 & H3 & H4 & _); [by rewrite Hfp|by rewrite Hfp|done|by rewrite Hh, Hha|].
      exists b1. split_and!; [done| |by rewrite H2, lookup_delete_eq|].
      + split_and!; [done| |]; [rewrite H2|rewrite H3]; (etrans; [apply delete_subseteq|done]).
      + intros k Hk'. rewrite H2. apply lookup_delete_None. by right.
    - eexists. split; [apply flush_remove_healthy; [done|by rewrite Hfp]|]. rewrite Hfp, Hj. cbn.
      split_and!; [by split_and!| |done]. destruct (by_id (index b) !! i) as [o|] eqn:Ho; [|done].
      pose proof (lookup_weaken _ _ _ _ Ho Hs1) as Ho'. rewrite Hi in Ho'. injection Ho' as <-.
      apply (ok_rows _ _ _ _ Hok1) in Ho as (_ & r' & [= <-] & _ & ?). congruence. }
  destruct (IH b1 Hb1 Hl) as (b' & Hf & Hb' & Hk' & Hg). exists b'. split_and!; [exact Hf|done|by eauto|].
  intros a' i' r' [->|Hin]%elem_of_cons Hv; [|by eapply Hg]. destruct Hv as (Hi' & Hka & _ & _ & m' & Ha').
  apply Hk'. assert (rec_path r' = rec_path r) as Hpp.
  { rewrite <-Hfp, Ha'. unfold flush_path. by rewrite compose_path. }
  apply (ok_rows _ _ _ _ Hok) in Hi' as (_ & r'' & [= <-] & _ & Hi'). rewrite Hpp, Hpath in Hi'. by injection Hi' as <-.
Qed.

(** The tree update takes no row away that is not there already, and brings none back. *)
Lemma clear_members_gone {Rd : Redb} i ids t t' : clear_members i ids t = Ok t' -> forall k, t !! k = None -> t' !! k = None.
Proof.
  revert t. induction ids as [|m ids IH]; intros t; cbn [clear_members]; [by intros [= <-]|].
  intros (_ & _ & H)%bind_Ok k Hk. destruct (t !! m) as [[r|]|] eqn:Hm; [|by eapply IH..].
  destruct (bool_decide _); [|by eapply IH]. apply bind_Ok in H as (_ & _ & H). eapply IH; [exact H|].
  rewrite lookup_insert_ne; [done|]. congruence.
Qed.
Definition as_gone (i : str) (ix ix' : Index) : Prop :=
  by_path ix' = by_path ix /\ (by_id ix !! i = None -> payloads ix !! i = None -> by_id ix' !! i = None /\ payloads ix' !! i = None).
#[local] Instance as_gone_preorder i : PreOrder (as_gone i).
Proof. split; [by intros ix; split|]. intros a b d [H1 H2] [H3 H4]. split; [congruence|]. intros A B. destruct (H2 A B). auto. Qed.
Lemma as_gone_same i ix ix' : same_tables ix ix' -> as_gone i ix ix'.
Proof. intros (H1 & H2 & _ & H4). split; [done|]. by rewrite H1, H4. Qed.
Lemma album_task_gone i c tree j ix : as_gone i ix (album_task c tree j ix).2.
Proof.
  unfold album_task, run_album_task. destruct (album_txn _ tree j ix) as [ix'|e] eqn:Ht; [|by split].
  unfold album_txn in Ht. apply bind_Ok in Ht as (_ & _ & (_ & _ & (_ & _ & (ix1 & Ht & (_ & _ & [= <-])%bind_Ok)%bind_Ok)%bind_Ok)%bind_Ok).
  destruct (album_view (c_now c) j ix) as [a|] eqn:Hv.
  - apply bind_Ok in Ht as (_ & _ & [= <-]). split; [done|]. cbn. intros Hi Hp. split; [done|].
    rewrite lookup_insert_ne; [done|]. intros ->. unfold album_view in Hv. by rewrite Hi in Hv.
  - apply bind_Ok in Ht as (t & Ht & [= <-]). split; [done|]. cbn. intros Hi Hp. split; [exact (clear_members_gone _ _ _ _ Ht i Hi)|done].
Qed.
Lemma tree_updated_gone i c msg d r d' : tree_updated c msg d = (r, d') -> as_gone i (the_index d) (the_index d').
Proof.
  assert (Ht : forall d0, as_gone i (the_index d0) (the_index (update_tree_task c d0).2)).
  { intros d0. unfold update_tree_task. destruct (refresh_tree_cache _ _ _ _) as [r0 ix] eqn:Hr.
    apply refresh_tables in Hr. apply (as_gone_same i) in Hr. by destruct r0. }
  unfold tree_updated. destruct (c_refreshed c); [|by intros [= _ <-]].
  destruct (update_tree c d) as [r0 d0] eqn:Hu. intros [= _ <-]. unfold update_tree in Hu. pose proof (Ht d) as H1.
  destruct (update_tree_task c d) as [[u|e] d1]; cbn [snd] in H1; [|by injection Hu as _ <-].
  destruct (drain_pending_album_updates _) as [pending al]. destruct (is_empty pending); [by injection Hu as _ <-|].
  assert (Hrun : forall l d2, as_gone i (the_index d2) (the_index (run_album_tasks c l d2))).
  { unfold run_album_tasks. induction l as [|j l IH]; intros d2; [done|]. cbn [foldl]. etrans; [|apply IH]. apply album_task_gone. }
  pose proof (Ht (run_album_tasks c pending (with_albums al d1))) as H2. rewrite Hu in H2. cbn [snd] in H2.
  etrans; [exact H1|]. etrans; [|exact H2]. apply (Hrun pending (with_albums al d1)).
Qed.

Lemma dupe_ids_same {Fa : Fates} h ix r ix' : get_dupe_ids h ix = (r, ix') -> same_tables ix ix'.
Proof. unfold get_dupe_ids, reading. by intros [= _ <-]. Qed.
Lemma remove_all_same c l d r d' : for_each l (remove_files data_home c) d = (r, d') -> same_tables (the_index d) (the_index d').
Proof.
  revert d. induction l as [|a l IH]; intros d; cbn [for_each]; [by intros [= _ <-]|].
  assert (Hone : forall r0 d0, remove_files data_home c a d = (r0, d0) -> same_tables (the_index d) (the_index d0)).
  { intros r0 d0. unfold remove_files. set (d1 := match path a with Some e => _ | None => d end).
    assert (the_index d = the_index d1) as -> by (unfold d1; by destruct (path a)).
    destruct (get_dupe_ids _ _) as [r1 ix] eqn:Hg. apply dupe_ids_same in Hg. destruct (1 <? _)%nat; [by intros [= _ <-]|].
    destruct (compressed_path data_home a); [|by intros [= _ <-]]. intros [= _ <-]. by destruct (exists_in _ _). }
  intros [(u & d1 & H1%Hone & H%IH)|(e & H1%Hone & _)]%next_cases; [|done].
  destruct H1 as (A1 & A2 & A3 & A4), H as (B1 & B2 & B3 & B4). split_and!; congruence.
Qed.

Definition indexed_media (c : Ctx) (req : DeleteList) (d : Desk) : Prop :=
  forall i rec, i ∈ del_asset_ids req -> by_id (the_index d) !! i = Some (Some rec) ->
    rec_path rec <> [] /\ is_Some (content_hash rec).
Lemma deleted_rows_gone c req d d' : delete_data data_home c req d = (Ok tt, d') ->
  (forall i rec, i ∈ del_asset_ids req -> by_id (the_index d) !! i = Some (Some rec) -> kind rec <> AAlbum) ->
  c_fates c = all_healthy -> consistent (the_index d) -> indexed_media c req d ->
  forall i rec, i ∈ del_asset_ids req -> by_id (the_index d) !! i = Some (Some rec) -> gone i rec (the_index d').
Proof.
  intros H Hmedia Hfate Hok Hix i rec Hi Hrec. unfold delete_data in H.
  apply next_cases in H as [(caller & d1 & [-> _]%caller_of_cases & H)|(? & _ & [=])].
  destruct (is_empty (del_asset_ids req)); [done|].
  apply next_cases in H as [(l & d1 & H1 & H)|(? & _ & [=])].
  apply in_pool_cases in H1 as [[_ ?]|(r0 & H1 & _ & Hr)]; [done|]. rewrite (Hr l eq_refl) in H1. clear Hr r0.
  apply process_deletes_spec in H1 as [[_ ?]|(l' & d2 & r2 & He & Hl & Hrun & Hr2)]; [done|].
  destruct r2 as [[]|]; [|done]. injection Hr2 as <-.
  assert (same_tables (the_index d) (the_index d1)) as Hsame.
  { destruct He as (n & dirs & -> & _). exact (remove_all_same _ _ _ _ _ Hrun). }
  assert (Hview : forall k a, del_asset_ids req !! k = Some i -> l !! k = Some a -> media_view c (the_index d) a i rec).
  { intros k a Hk Ha. destruct (Forall2_lookup_lr _ _ _ _ _ _ Hl Hk Ha) as (rec' & m & Hrec' & _ & ->).
    rewrite Hrec in Hrec'. injection Hrec' as <-. destruct (Hix i rec Hi Hrec). split_and!; eauto. }
  assert (Forall (fun a => is_album a = false) l /\ Forall (fun a => exists i r, media_view c (the_index d) a i r) l) as [Hal Hall].
  { split; apply Forall_lookup; intros k a Ha; destruct (Forall2_lookup_r _ _ _ _ _ Hl Ha) as (j & Hj & rec' & m & Hrec' & _ & ->);
      apply list_elem_of_lookup_2 in Hj.
    - rewrite compose_kind. apply bool_decide_eq_false_2. by eapply Hmedia.
    - exists j, rec'. destruct (Hix j rec' Hj Hrec'). split_and!; eauto. }
  apply list_elem_of_lookup in Hi as [k Hk]. destruct (Forall2_lookup_l _ _ _ _ _ Hl Hk) as (a & Ha & _).
  specialize (Hview k a Hk Ha). apply list_elem_of_lookup_2 in Ha.
  apply next_cases in H as [([] & d3 & H3 & H)|(? & _ & [=])].
  assert (d3 = d1) as ->.
  { apply in_pool_cases in H3 as [[_ ?]|(r3 & H3 & _)]; [done|]. unfold cleanup_album_descendants in H3.
    rewrite cleanup_media in H3 by done. by injection H3 as _ <-. }
  apply next_cases in H as [([] & d4 & H4 & H)|(? & _ & [=])].
  assert (gone i rec (the_index d4)) as Hg.
  { destruct l as [|a0 l0]; [by apply elem_of_nil in Ha|]. cbn [is_empty] in H4. revert Hall Ha H4. generalize (a0 :: l0). clear -Hfate Hok Hsame Hview Hrec.
    intros l Hall Ha. unfold flushed, flush. destruct (c_refreshed c); [|done]. rewrite Hfate. unfold flush_tables. cbn [flush_inserts mbind result_bind].
    assert (thinned (the_index d) (the_index d1)) as Hthin.
    { destruct Hsame as (S1 & S2 & S3 & S4). unfold thinned. by rewrite <-S1, <-S2, <-S3, <-S4. }
    destruct (removes_thin (F:=fs_of (files d1)) c (the_index d) l Hok (library (server d1)) Hthin Hall) as (b' & -> & Hb' & _ & Hgone).
    intros [= <-]. eapply thinned_gone; [done|done|exact Hb'|]. by eapply Hgone. }
  apply next_cases in H as [([] & d5 & H5%(tree_updated_gone i) & H)|(? & _ & [=])].
  destruct Hg as (G1 & G2 & G3), H5 as [T1 T2]. destruct (T2 G1 G3) as [T3 T4]. rewrite <-T1 in G2.
  assert (the_index d' = the_index d5) as ->; [|by split_and!].
  clear -H. revert d5 H. induction (l ≫= affected_albums) as [|j js IH]; intros d5; cbn [for_each]; [by intros [= <-]|].
  intros [([] & d6 & H6 & H)|(? & _ & [=])]%next_cases. unfold submitted in H6. destruct (taken j); [|done]. injection H6 as <-.
  exact (IH _ H).
Qed.

(** C18: Deleting photos and videos erases nothing but their files, their sidecars and
    their thumbnails; when it answers success and no file call failed, the files and
    sidecars of all of them are gone; and when it answers success, the index answered every
    access, its tables were consistent and the assets were stored with their paths and
    content, their rows, their paths and their payloads are gone from the tables. *)
Theorem media_deletion_erases c req d r d' : delete_data data_home c req d = (r, d') ->
  (forall i rec, i ∈ del_asset_ids req -> by_id (the_index d) !! i = Some (Some rec) -> kind rec <> AAlbum) ->
  erases (fun p => exists i rec m, i ∈ del_asset_ids req /\ by_id (the_index d) !! i = Some (Some rec) /\
            doomed (compose_abstract_data (c_now c) rec m) p) (files d) (files d') /\
  (r = Ok tt -> calm (calls (files d)) -> forall i rec q b, i ∈ del_asset_ids req ->
     by_id (the_index d) !! i = Some (Some rec) -> pair_of (components (rec_path rec)) q -> q <> [] ->
     node_at q (files d') <> Some (Plain b)) /\
  (r = Ok tt -> c_fates c = all_healthy -> consistent (the_index d) -> indexed_media c req d ->
   forall i rec, i ∈ del_asset_ids req -> by_id (the_index d) !! i = Some (Some rec) -> gone i rec (the_index d')).
Proof.
  intros H Hmedia. refine ((fun AB C => conj (proj1 AB) (conj (proj2 AB) C)) _ _); [|intros ->; by apply deleted_rows_gone].
  set (P := fun p => _). unfold delete_data in H.
  apply next_cases in H as [(caller & d1 & H1 & H)|(e & H & ->)].
  2: { apply caller_of_cases in H as [-> _]. split; [apply erases_refl|done]. }
  apply caller_of_cases in H1 as [-> _].
  destruct (is_empty (del_asset_ids req)); [injection H as <- <-; split; [apply erases_refl|done]|].
  assert (Hbody : forall r1 d1, in_pool c (process_deletes data_home c caller (del_asset_ids req)) d = (r1, d1) ->
    erases P (files d) (files d1) /\ forall l, r1 = Ok l -> Forall (fun a => is_album a = false) l /\
      (calm (calls (files d)) -> forall i rec q b, i ∈ del_asset_ids req ->
        by_id (the_index d) !! i = Some (Some rec) -> pair_of (components (rec_path rec)) q -> q <> [] ->
        node_at q (files d1) <> Some (Plain b))).
  { intros r1 d1 [[-> Hn]|(r0 & H0 & _ & Hok)]%in_pool_cases; [split; [apply erases_refl|by intros l ->]|].
    apply process_deletes_spec in H0 as [[He Hn]|(l & d2 & r2 & He & Hl & Hrun & Hr)].
    { rewrite (evicted_files _ _ _ _ He). split; [apply erases_refl|]. intros l ->. specialize (Hok l eq_refl). by subst r0. }
    apply remove_all_erases in Hrun as [Her Hgone]. rewrite (evicted_files _ _ _ _ He) in Her, Hgone. split.
    - eapply erases_mono; [|exact Her]. intros p (a & Ha & Hp). apply list_elem_of_lookup in Ha as [n Hn].
      destruct (Forall2_lookup_r _ _ _ _ _ Hl Hn) as (i & Hi & rec & m & Hrec & _ & ->).
      exists i, rec, m. split_and!; [by eapply list_elem_of_lookup_2|done|done].
    - intros l' ->. specialize (Hok l' eq_refl). subst r0. destruct r2 as [[]|]; [|done]. injection Hr as ->. split.
      + apply Forall_lookup. intros n a Ha. destruct (Forall2_lookup_r _ _ _ _ _ Hl Ha) as (i & Hi & rec & m & Hrec & _ & ->).
        rewrite compose_kind. apply bool_decide_eq_false_2. eapply Hmedia; [|exact Hrec]. by eapply list_elem_of_lookup_2.
      + intros Hc i rec q b Hi Hrec Hq Hne. apply list_elem_of_lookup in Hi as [n Hi].
        destruct (Forall2_lookup_l _ _ _ _ _ Hl Hi) as (a & Ha & rec' & m & Hrec' & _ & ->).
        rewrite Hrec in Hrec'. injection Hrec' as <-. eapply (Hgone eq_refl Hc _ (file_entry rec) q b); [by eapply list_elem_of_lookup_2| |done|done].
        apply compose_path. eapply Hmedia; [|exact Hrec]. by eapply list_elem_of_lookup_2. }
  apply next_cases in H as [(l & d1 & H1 & H)|(e & H1 & ->)].
  2: { destruct (Hbody _ _ H1) as [He _]. by split. }
  destruct (Hbody _ _ H1) as [He Hl]. destruct (Hl l eq_refl) as [Hm Hg]. clear Hbody Hl.
  assert (files d' = files d1) as Hf; [|rewrite Hf; split; [done|by intros _]].
  revert H. generalize d1 r d'. fold (keeps_files (next (in_pool c (cleanup_album_descendants c l)) (fun _ =>
    let! _ := if is_empty l then answer tt else flushed c "Failed to execute flush tree task" [] l in
    let! _ := tree_updated c "Failed to execute update tree task" in for_each (l ≫= affected_albums) submitted))).
  apply keeps_next.
  - intros d2 r2 d3 [[-> _]|(r0 & H0 & _)]%in_pool_cases; [done|]. unfold cleanup_album_descendants in H0.
    rewrite cleanup_media in H0 by done. by injection H0 as _ <-.
  - intros _. apply keeps_next; [destruct (is_empty l); [by intros ? ? ? [= _ <-]|apply keeps_flushed]|].
    intros _. apply keeps_next; [apply keeps_tree_updated|]. intros _. apply keeps_for_each, keeps_submitted.
Qed.
End Request.

(** ** What deletion leaves behind *)
Import (hints) ServerWitness.
Import (hints) HomeWitness.
Import (hints) TokenWitness.
Module DeletionWitness.
#[export] Instance outside : Outside := {|
  random_time _ := 0%Z; drawn n := lit (pretty n); taken _ := Ok tt |}.
Definition data_home : Path := EditWitness.place_of ["data"].
Definition record (k : AssetKind) (i p h : string) : AssetRecord :=
  mkAsset (lit i) k (lit p) (if bool_decide (k = AAlbum) then None else Some (lit h)) 1 (lit "jpg") 0 0 false None.
Definition tables : Index :=
  mkIndex {[ lit "a" := Some (record AImage "a" "/p/a.jpg" "h1"); lit "b" := Some (record AImage "b" "/p/b.jpg" "h1");
             lit "v" := Some (record AVideo "v" "/p/v.mp4" "h2"); lit "A" := Some (record AAlbum "A" "/p" "") ]}
    {[ lit "/p/a.jpg" := lit "a"; lit "/p/b.jpg" := lit "b"; lit "/p/v.mp4" := lit "v"; lit "/p" := lit "A" ]}
    {[ lit "h1" := Some [lit "a"; lit "b"]; lit "h2" := Some [lit "v"] ]} ∅ 0.
Definition thumb (dir name : string) : Path := EditWitness.place_of ["data"; "object"; "compressed"; dir; name].
Definition tree : Files := mkFiles (list_to_map
  ([([RootDir], Folder); (EditWitness.place_of ["p"], Folder); (EditWitness.place_of ["data"], Folder);
    (EditWitness.place_of ["data"; "object"], Folder); (EditWitness.place_of ["data"; "object"; "compressed"], Folder);
    (EditWitness.place_of ["data"; "object"; "compressed"; "h1"], Folder);
    (EditWitness.place_of ["data"; "object"; "compressed"; "h2"], Folder);
    (EditWitness.place_of ["p"; "a.jpg"], Plain [1]); (EditWitness.place_of ["p"; "b.jpg"], Plain [1]);
    (EditWitness.place_of ["p"; "v.mp4"], Plain [2]); (EditWitness.place_of ["p"; "b.xmp"], Plain [3]);
    (thumb "h1" "h1.jpg", Plain [4]); (thumb "h2" "h2.mp4", Plain [5]); (thumb "h2" "h2.jpg", Plain [6])])) [RootDir] 0.
Definition album_cache : Albums := mkAlbums {[ EditWitness.place_of ["p"] := lit "A" ]} ∅.
Definition desk : Desk :=
  mkDesk (with_library (mkLib tables album_cache) ServerWitness.solo) tree (mkTree [] 0) [].
Definition ctx : Ctx :=
  ServerWitness.ctx_at AuthWitness.now (AuthWitness.visit [] (Some AuthWitness.token)) (lit "jti") (Ok tt).
Definition delete (ids : list string) : result Stop unit * Desk :=
  delete_data (Ch:=IndexWitness.clock) data_home ctx (mkDeleteList (lit <$> ids) 0) desk.
End DeletionWitness.
Import (hints) DeletionWitness.

(** Duplicates deleted in one request leave their thumbnail: when the first is
    counted the second still has its row, and when the second is counted so has the
    first.  Deleted one after the other they do not. *)
Theorem duplicates_leave_thumbnail :
  let both := DeletionWitness.delete ["a"; "b"] in
  both.1 = Ok tt /\ by_id (the_index both.2) !! lit "a" = None /\ by_id (the_index both.2) !! lit "b" = None /\
  exists_in (files both.2) (EditWitness.place_of ["p"; "a.jpg"]) = false /\
  exists_in (files both.2) (EditWitness.place_of ["p"; "b.jpg"]) = false /\
  exists_in (files both.2) (DeletionWitness.thumb "h1" "h1.jpg") = true /\
  let one := DeletionWitness.delete ["a"] in
  let other := delete_data (Ch:=IndexWitness.clock) DeletionWitness.data_home DeletionWitness.ctx
                 (mkDeleteList [lit "b"] 0) one.2 in
  other.1 = Ok tt /\ exists_in (files other.2) (DeletionWitness.thumb "h1" "h1.jpg") = false.
Proof. vm_compute. done. Qed.

(** A deleted video leaves its still image: only the compressed video is removed. *)
Theorem video_leaves_still :
  let run := DeletionWitness.delete ["v"] in
  run.1 = Ok tt /\ exists_in (files run.2) (EditWitness.place_of ["p"; "v.mp4"]) = false /\
  exists_in (files run.2) (DeletionWitness.thumb "h2" "h2.mp4") = false /\
  exists_in (files run.2) (DeletionWitness.thumb "h2" "h2.jpg") = true.
Proof. vm_compute. done. Qed.

(** A refused deletion that names an album before the record that is refused still
    takes the album out of the cache, where shares and listings look albums up. *)
Theorem refused_deletion_hides_album :
  let run := DeletionWitness.delete ["A"; "missing"] in
  is_ok run.1 = false /\ bool_decide (nodes (files run.2) = nodes DeletionWitness.tree) = true /\
  get_dir_path_for_album (lit "A") DeletionWitness.album_cache = Some (EditWitness.place_of ["p"]) /\
  get_dir_path_for_album (lit "A") (the_albums run.2) = None.
Proof. vm_compute. done. Qed.

Lemma delete_needs_write_access_witness :
  let run := DeletionWitness.delete ["a"; "v"] in
  (exists caller, evicted DeletionWitness.ctx caller DeletionWitness.desk run.2) \/
  exists claims, user_claims DeletionWitness.ctx (server DeletionWitness.desk) = Ok claims /\
    may_mutate DeletionWitness.ctx (server DeletionWitness.desk) = Ok tt /\
    forall i, i ∈ [lit "a"; lit "v"] -> exists rec, by_id DeletionWitness.tables !! i = Some (Some rec) /\
      may_write DeletionWitness.ctx (caller_identity claims).1 DeletionWitness.desk rec.
Proof.
  intros run. refine (delete_needs_write_access (Ch:=IndexWitness.clock) DeletionWitness.data_home DeletionWitness.ctx
    (mkDeleteList [lit "a"; lit "v"] 0) DeletionWitness.desk run.1 run.2 _). apply surjective_pairing.
Defined.
Lemma media_deletion_erases_witness :
  node_at (EditWitness.place_of ["p"; "b.xmp"]) (files (DeletionWitness.delete ["b"]).2) <> Some (Plain [3]).
Proof.
  refine (proj1 (proj2 (media_deletion_erases (Ch:=IndexWitness.clock) DeletionWitness.data_home DeletionWitness.ctx
    (mkDeleteList [lit "b"] 0) DeletionWitness.desk (DeletionWitness.delete ["b"]).1 (DeletionWitness.delete ["b"]).2
    (surjective_pairing _) _)) _ _ (lit "b") (DeletionWitness.record AImage "b" "/p/b.jpg" "h1") _ [3] _ _ _ _).
  - intros i rec ->%list_elem_of_singleton [= <-]. done.
  - vm_compute. reflexivity.
  - by intros m _.
  - by left.
  - reflexivity.
  - by right.
  - done.
Defined.
