(* ===== verification/Thumbnails.v ===== *)
(** * Thumbnails: rotating an image and replacing a thumbnail
      ([backend/src/process/thumbnail.rs], parts of [process/misc.rs],
      [router/put/rotate_image.rs], [router/put/regenerate_thumbnail.rs])

    Decoding, scaling, rotating and encoding pictures are a library's: a class of
    operations on decoded pictures and file contents.  What the handlers do with the
    files, the record and its album is modelled.  Thumbnail sizes are computed on
    32-bit integers that wrap, as in the release profile. *)

From S2P Require Import Snapshots.
From S2P Require Import Prelude Errors Redb Password UserStore Revocations Invites LoginThrottle.
From S2P Require Import Paths Formats Model MetadataRecord AlbumUpdate DirAlbum Tokens RouterAuth IndexStore.
From S2P Require Import DirAlbumStore Accounts DataPages FileTree Sanitize Xmp SidecarEdit Desk Deletion.
Open Scope work_scope.

(** ** Sizes *)
Definition wrap32 (n : N) : N := n mod 4294967296.
Definition small_width_height (width height target : N) : N * N :=
  if target <? N.min width height then
    if width <? height then (target, wrap32 (height * target) / width)
    else (wrap32 (width * target) / height, target)
  else (width, height).

(** The pictures of the [image] crate, and the two hashes of a picture. *)
Class Pictures := {
  Picture : Type;
  open_picture : list N -> result str Picture;        (* [image::open], by extension *)
  from_memory : list N -> result str Picture;         (* [image::load_from_memory] *)
  rotate270 : Picture -> Picture;
  jpeg_of : Picture -> N -> N -> result str (list N); (* scaled exactly, encoded *)
  generate_thumbhash : Picture -> list N;
  generate_phash : Picture -> list N
}.

Record RegenerateThumbnailForm := mkRegenerate { rg_asset_id : str; rg_frame : list N }.

Section Thumbnails.
Context {Jc : JsonCodec} {Lh : LegacyHash} {Ca : Casing} {Cr : Crypto} {J : Jwt} {Tc : TokenCodec}.
Context {Io_ : IoFaults} {Ch : Chrono} {O : Outside} {Pi : Pictures}.
Variable data_home : Path.
Variable process_id : N.

(** *** Writing through a temporary sibling; [seq] is the drawn sequence number *)
Definition temp_path (dest : Path) (seq : N) : Path :=
  pop dest ++ [Normal (lit "." ++ default (lit "thumbnail") (file_name dest) ++ lit "." ++ show_N process_id
                       ++ lit "." ++ show_N seq ++ lit ".tmp")].
(** An encoder that fails has created its file. *)
Definition write_atomically (dest : Path) (seq : N) (content : result str (list N)) (t : Files) : result str unit * Files :=
  let temp := temp_path dest seq in
  match write temp (match content with Ok b => b | Err _ => [] end) t with
  | (Err e, t) => (Err (io_text e), attempt (remove_file temp) t)
  | (Ok _, t) =>
      match content with
      | Err e => (Err e, attempt (remove_file temp) t)
      | Ok _ =>
          match rename temp dest t with
          | (Ok _, t) => (Ok tt, t)
          | (Err e, t) => (Err (lit "failed to move JPEG thumbnail into place at " ++ path_text dest),
                           attempt (remove_file temp) t)
          end
      end
  end.
Definition generate_thumbnail_for_image (a : AbstractData) (p : Picture) (seq : N) (t : Files) : result str unit * Files :=
  let '(w, h) := small_width_height (width a) (height a) 720 in
  match compressed_path data_home a with
  | None => (Err (lit "panicked"), t)
  | Some dest =>
      match parent dest with
      | None => (Err (lit "failed to determine parent directory of " ++ path_text dest), t)
      | Some dir =>
          match create_dir_all dir t with
          | (Err _, t) => (Err (lit "failed to create directory tree " ++ path_text dir), t)
          | (Ok _, t) =>
              let '(r, t) := write_atomically dest seq (jpeg_of p w h) t in
              (map_err (fun _ => lit "failed to save JPEG thumbnail to " ++ path_text dest) r, t)
          end
      end
  end.

(** ** The record *)
Definition lookup_abstract_data_by_asset_id (c : Ctx) (i : str) : Io (option AbstractData) :=
  and_then (IndexStore.get_asset_by_id (Fa:=c_fates c) i) (fun record =>
    match record with
    | None => IndexStore.done None
    | Some record => fun ix =>
        let Rd := fate (Fates:=c_fates c) (ticks ix) in
        (_ ← context "Failed to begin read transaction" (redb BeginRead);
         _ ← context "Failed to open METADATA_TABLE" (redb OpenTable);
         _ ← redb (Get i);
         Ok (Some (compose_abstract_data (c_now c) record (payloads ix !! i))), tick ix)
    end).
(** Looked up and gated. *)
Definition writable_asset (c : Ctx) (caller : str) (i : str) : Work AbstractData :=
  let! found := on_tables (lookup_abstract_data_by_asset_id c i) (or_raise Database (lit "Failed to fetch DB record")) in
  let! a := hoist (option_or_raise Errors.NotFound (lit "Asset not found") found) in
  let! _ := gate_data c caller "Asset not writable" a in
  answer a.
Definition hashed (now : Z) (p : Picture) (a : AbstractData) : AbstractData :=
  update_update_at now (set_phash (generate_phash p) (set_thumbhash (generate_thumbhash p) a)).

(** ** [rotate_image] *)
(** The album of the image, with its update time bumped, as the handler flushes it. *)
Definition touched_albums (c : Ctx) (a : AbstractData) : Desk -> list AbstractData * Desk := fun d =>
  match get_album a with
  | None => ([], d)
  | Some i =>
      let '(r, ix) := lookup_abstract_data_by_asset_id c i (the_index d) in
      (match r with Ok (Some album) => [update_update_at (c_now c) album] | _ => [] end, with_index ix d)
  end.
Definition rotate_body (c : Ctx) (seq : N) (caller : str) (i : str) : Work (list AbstractData) :=
  let! a := writable_asset c caller i in
  match a with
  | Image _ =>
      let compressed := compressed_path data_home a in
      let load_failed e := new_error IO (lit "Failed to load compressed image: " ++
                             path_text (default [] compressed) ++ lit " (" ++ e ++ lit ")") in
      match compressed with
      | None => fun d => (Err Panicked, d)
      | Some path =>
          let! bytes := on_files (read path) in
          let! p := hoist (b ← map_err (fun e => load_failed (io_text e)) bytes; map_err load_failed (open_picture b)) in
          let p := rotate270 p in
          let a := swap_width_height a in
          let! _ := (fun d => let '(r, t) := generate_thumbnail_for_image a p seq (files d) in
                              (map_err Failed (or_raise Internal (lit "Failed to generate thumbnail for rotated image") r),
                               with_files t d)) in
          let a := hashed (c_now c) p a in
          fun d => let '(albums, d) := touched_albums c a d in (Ok (a :: albums), d)
      end
  | _ => refuse InvalidInput (lit "Only images can be rotated")
  end.
Abbreviation spawned c := (on_pool_ c (lit "Failed to spawn blocking task")).
Definition rotate_image (c : Ctx) (seq : N) (i : str) : Work unit :=
  let! caller := caller_of c in
  let! _ := hoist (option_or_raise InvalidInput (lit "Invalid asset_id length or format") (array_string i)) in
  if is_empty i || (64 <? str_len i) then refuse InvalidInput (lit "Invalid asset_id")
  else
    let! rows := spawned c (rotate_body c seq caller i) in
    flushed c "Failed to execute FlushTreeTask" rows [].

(** ** [regenerate_thumbnail_with_frame] *)
Definition id_char (ch : N) : bool :=
  in_range 48 57 ch || in_range 65 90 ch || in_range 97 122 ch || (ch =? 45) || (ch =? 95).
Definition frame_path (i : str) : Path :=
  push data_home (components (lit "object/compressed/" ++ take 2 i ++ lit "/" ++ i ++ lit ".jpg")).
(** [generate_dynamic_image]: the original of an image, the still of anything else. *)
Definition still_path (a : AbstractData) : option Path :=
  match a with
  | Image _ => Some (components (source_path_string a))
  | _ => if str_len (hash a) <? 2 then None else Some (push data_home (components (thumbnail_path a)))
  end.
Definition rehash_body (c : Ctx) (i : str) : Work AbstractData :=
  let! found := on_tables (lookup_abstract_data_by_asset_id c i) (or_raise Database (lit "Failed to fetch DB record")) in
  let! a := hoist (option_or_raise Errors.NotFound (lit "Asset not found") found) in
  match still_path a with
  | None => fun d => (Err Panicked, d)
  | Some p =>
      let! bytes := on_files (read p) in
      let! picture := hoist (or_raise Internal (lit "Failed to decode DynamicImage")
                               (b ← map_err io_text bytes; from_memory b)) in
      answer (hashed (c_now c) picture a)
  end.
Definition regenerate_thumbnail_with_frame (c : Ctx) (form : app_result RegenerateThumbnailForm) : Work unit :=
  let! caller := caller_of c in
  let! form := hoist form in
  let i := rg_asset_id form in
  if is_empty i then refuse InvalidInput (lit "Invalid asset_id")
  else
    let! _ := hoist (option_or_raise InvalidInput (lit "Invalid asset_id length or format") (array_string i)) in
    if (str_len i <? 2) || negb (forallb id_char i) then refuse InvalidInput (lit "Invalid asset_id")
    else
      let! _ := spawned c (writable_asset c caller i) in
      let dest := frame_path i in
      let! made := on_files (create_dir_all (default [] (parent dest))) in
      let! _ := hoist (or_raise IO (lit "Failed to create thumbnail directory") (map_err io_text made)) in
      let! copied := on_files (write dest (rg_frame form)) in
      let! _ := hoist (or_raise IO (lit "Failed to copy frame file") (map_err io_text copied)) in
      let! a := spawned c (rehash_body c i) in
      flushed c "Failed to execute FlushTreeTask" [a] [].
End Thumbnails.

(** ** Sizes *)
Lemma scaled a b t : 0 < b -> b <= a -> t < b -> a * t < 4294967296 ->
  let q := wrap32 (a * t) / b in t <= q /\ q <= a /\ q * b <= a * t < (q + 1) * b.
Proof.
  intros Hb Hba Htb Ho. unfold wrap32. rewrite N.mod_small by done. cbv zeta.
  pose proof (N.div_mod (a * t) b ltac:(lia)) as Hd. pose proof (N.mod_lt (a * t) b ltac:(lia)) as Hm.
  generalize dependent (a * t / b). intros q Hd. generalize dependent ((a * t) mod b). intros m Hd Hm.
  split_and!; nia.
Qed.

(** A thumbnail's short side is the target, or the picture's if that is smaller; it is
    never larger than the picture, never empty, and its long side is the proportional
    one rounded down, as long as the long side times the target fits in 32 bits. *)
Theorem small_width_height_spec w h t w' h' : 0 < w -> 0 < h -> 0 < t -> N.max w h * t < 4294967296 ->
  small_width_height w h t = (w', h') ->
  N.min w' h' = N.min t (N.min w h) /\ w' <= w /\ h' <= h /\ 0 < w' /\ 0 < h' /\
  (w < h -> h' * w <= h * w' < (h' + 1) * w) /\ (h <= w -> w' * h <= w * h' < (w' + 1) * h).
Proof.
  intros Hw Hh Ht Ho He.
  unfold small_width_height in He. destruct (N.ltb_spec t (N.min w h)) as [Hlt|Hge].
  - destruct (N.ltb_spec w h) as [Hwh|Hwh]; injection He as <- <-.
    + destruct (scaled h w t) as (H1 & H2 & H3 & H4); [lia..|]. cbv zeta in *. split_and!; try lia; try done.
    + destruct (scaled w h t) as (H1 & H2 & H3 & H4); [lia..|]. cbv zeta in *. split_and!; try lia; try done.
  - injection He as <- <-. split_and!; try lia; try done; nia.
Qed.
Lemma small_width_height_spec_witness : small_width_height 4000 3000 720 = (960, 720) /\ N.min 960 720 = N.min 720 (N.min 4000 3000).
Proof.
  split; [reflexivity|].
  exact (proj1 (small_width_height_spec 4000 3000 720 960 720 eq_refl eq_refl eq_refl eq_refl eq_refl)).
Defined.

(** Beyond 32 bits the product wraps: the thumbnail of a picture of 1000 by 5965233
    is to have no height. *)
Theorem long_picture_has_empty_thumbnail : small_width_height 1000 5965233 720 = (720, 0).
Proof. reflexivity. Qed.

(** ** Who may *)
Section Access.
Context {Jc : JsonCodec} {Lh : LegacyHash} {Ca : Casing} {Cr : Crypto} {J : Jwt} {Tc : TokenCodec}.
Context {Io_ : IoFaults} {Ch : Chrono} {O : Outside} {Pi : Pictures}.
Variable data_home : Path.
Variable process_id : N.

Lemma lookup_view c i ix : exists n r,
  lookup_abstract_data_by_asset_id c i ix = (r, at_transaction n ix) /\ forall o, r = Ok o -> o = view_of c ix i.
Proof.
  unfold lookup_abstract_data_by_asset_id, and_then.
  destruct (get_asset_by_id_view (Fa:=c_fates c) i ix) as (n & r & -> & Hr).
  destruct r as [o|e]; [|exists n, (Err e); by split]. destruct (Hr o eq_refl) as [-> Hne]. unfold view_of.
  destruct (by_id ix !! i) as [[record|]|]; try done; cbn [mjoin option_join]; [|exists n, (Ok None); split; [done|by intros ? [= <-]]].
  unfold tick. eexists _, _. split; [reflexivity|]. intros o (? & _ & (? & _ & (? & _ & H)%bind_Ok)%bind_Ok)%bind_Ok.
  by injection H as <-.
Qed.
Lemma writable_asset_spec c caller i d r d' : writable_asset c caller i d = (r, d') ->
  idle d d' /\ forall a, r = Ok a -> view_of c (the_index d) i = Some a /\
    exists rec, by_id (the_index d) !! i = Some (Some rec) /\ may_write c caller d rec.
Proof.
  unfold writable_asset. intros H. apply next_cases in H as [(o & d1 & H1 & H)|(e & H & ->)]; unfold on_tables in *;
    destruct (lookup_view c i (the_index d)) as (n & r0 & He & Hr); rewrite He in *.
  2: { injection H as _ <-. split; [apply idle_index|done]. }
  destruct r0 as [o'|]; [|done]. injection H1 as -> <-. rewrite (Hr o eq_refl) in H. clear Hr He.
  destruct (view_of c (the_index d) i) as [a|] eqn:Hv; [|injection H as <- <-; split; [apply idle_index|done]].
  unfold view_of in Hv. destruct (by_id (the_index d) !! i) as [[rec|]|] eqn:Hrec; try done.
  apply next_cases in H as [(a' & d1 & H1 & H)|(e & [=] & _)]. injection H1 as <- <-.
  apply next_cases in H as [(u & d1 & [-> Hg]%gate_data_spec & H)|(e & [-> _]%gate_data_spec & ->)].
  - injection H as <- <-. split; [apply idle_index|]. intros ? [= <-]. split; [done|]. exists rec. split; [done|].
    unfold may_write. apply Hg; [by destruct u|]. injection Hv as <-. apply compose_visibility.
  - split; [apply idle_index|done].
Qed.

(** Rotating an image and replacing a thumbnail touch files, tables or tree only for a
    signed-in user who may write the asset, on a server that may be edited. *)
Theorem picture_needs_write_access c i seq form d r d' :
  rotate_image data_home process_id c seq i d = (r, d') \/
  (regenerate_thumbnail_with_frame data_home c form d = (r, d') /\ rg_asset_id <$> form = Ok i) ->
  idle d d' \/ exists claims rec, user_claims c (server d) = Ok claims /\ may_mutate c (server d) = Ok tt /\
    by_id (the_index d) !! i = Some (Some rec) /\ may_write c (caller_identity claims).1 d rec.
Proof.
  assert (Hcaller : forall (k : str -> Work unit), (forall caller, k caller d = (r, d') -> idle d d' \/ exists rec,
      by_id (the_index d) !! i = Some (Some rec) /\ may_write c caller d rec) ->
    next (caller_of c) k d = (r, d') -> idle d d' \/ exists claims rec, user_claims c (server d) = Ok claims /\
      may_mutate c (server d) = Ok tt /\ by_id (the_index d) !! i = Some (Some rec) /\ may_write c (caller_identity claims).1 d rec).
  { intros k Hk [(caller & d1 & [-> Hc]%caller_of_cases & H)|(e & [-> _]%caller_of_cases & ->)]%next_cases; [|by left].
    destruct (Hc caller eq_refl) as (claims & H1 & H2 & ->). destruct (Hk _ H) as [?|(rec & H3 & H4)]; [by left|].
    right. by exists claims, rec. }
  intros [H|[H Hi]]; revert H; apply Hcaller; intros caller H.
  - apply next_cases in H as [(u & d1 & [= _ <-] & H)|(e & [= _ <-] & _)]; [|by left].
    destruct (is_empty i || (64 <? str_len i)); [injection H as _ <-; by left|].
    assert (Hb : forall r0 d0, rotate_body data_home process_id c seq caller i d = (r0, d0) ->
      (idle d d0 /\ is_ok r0 = false) \/ exists rec, by_id (the_index d) !! i = Some (Some rec) /\ may_write c caller d rec).
    { intros r0 d0 [(a & d1 & [_ Hw]%writable_asset_spec & _)|(e & [Hd _]%writable_asset_spec & ->)]%next_cases;
        [right; by destruct (Hw a eq_refl)|by left]. }
    apply next_cases in H as [(l & d1 & [[_ H]|(r0 & H & Hok & _)]%in_pool_cases & _)|(e & [[-> _]|(r0 & H & _)]%in_pool_cases & _)];
      [done| |by left|].
    + destruct (Hb _ _ H) as [[_ Hn]|Hr]; [by rewrite Hn in Hok|by right].
    + destruct (Hb _ _ H) as [[Hd _]|Hr]; [by left|by right].
  - apply next_cases in H as [(f & d1 & H1 & H)|(e & [= _ <-] & _)]; [|by left]. injection H1 as Hf <-.
    destruct form as [f'|]; [|done]. injection Hf as ->. cbn in Hi. injection Hi as <-. cbv zeta in H.
    destruct (is_empty (rg_asset_id f)); [injection H as _ <-; by left|].
    apply next_cases in H as [(u & d1 & [= _ <-] & H)|(e & [= _ <-] & _)]; [|by left].
    destruct (_ || _); [injection H as _ <-; by left|].
    apply next_cases in H as [(a & d1 & [[_ H]|(r0 & [_ Hw]%writable_asset_spec & Hok & Hr)]%in_pool_cases & _)
                             |(e & [[-> _]|(r0 & [Hd _]%writable_asset_spec & _)]%in_pool_cases & _)]; [done| |by left|by left].
    right. by destruct (Hw a (Hr a eq_refl)) as [_ ?].
Qed.
End Access.

(** ** What they leave behind *)
Import (hints) ServerWitness.
Import (hints) HomeWitness.
Import (hints) TokenWitness.
Import (hints) DeletionWitness.
Module PictureWitness.
#[export] Instance raw_pictures : Pictures := {|
  Picture := list N; open_picture b := Ok b; from_memory b := Ok b; rotate270 p := rev p; jpeg_of p _ _ := Ok p;
  generate_thumbhash p := p; generate_phash p := p |}.
Definition record (k : AssetKind) (i p h : string) (album : option str) : AssetRecord :=
  mkAsset (lit i) k (lit p) (if bool_decide (k = AAlbum) then None else Some (lit h)) 1 (lit "jpg") 0 0 false album.
Definition tables : Index :=
  mkIndex {[ lit "a1" := Some (record AImage "a1" "/p/a.jpg" "h1" (Some (lit "A")));
             lit "v1" := Some (record AVideo "v1" "/p/v.mp4" "h2" None); lit "A" := Some (record AAlbum "A" "/p" "" None) ]}
    {[ lit "/p/a.jpg" := lit "a1"; lit "/p/v.mp4" := lit "v1"; lit "/p" := lit "A" ]}
    {[ lit "h1" := Some [lit "a1"]; lit "h2" := Some [lit "v1"] ]} {[ lit "A" := MAlbum AuthWitness.album ]} 0.
Definition tree : Files := set_nodes (<[DeletionWitness.thumb "h1" "h1.jpg" := Plain [1; 2]]> (nodes DeletionWitness.tree))
  DeletionWitness.tree.
Definition desk : Desk :=
  mkDesk (with_library (mkLib tables DeletionWitness.album_cache) ServerWitness.solo) tree (mkTree [] 0) [].
Definition rotate : result Stop unit * Desk := rotate_image DeletionWitness.data_home 7 DeletionWitness.ctx 0 (lit "a1") desk.
Definition reframe : result Stop unit * Desk :=
  regenerate_thumbnail_with_frame DeletionWitness.data_home DeletionWitness.ctx (Ok (mkRegenerate (lit "v1") [9])) desk.
End PictureWitness.
Import (hints) PictureWitness.

(** Rotating an image of an album stores the album a second time: under a fresh
    identifier, with an empty path, with the whole payload, shares included. *)
Theorem rotation_adds_phantom_album :
  PictureWitness.rotate.1 = Ok tt /\
  node_at (DeletionWitness.thumb "h1" "h1.jpg") (files PictureWitness.rotate.2) = Some (Plain [2; 1]) /\
  by_path PictureWitness.tables !! [] = None /\
  exists i, by_path (the_index PictureWitness.rotate.2) !! [] = Some i /\ by_id PictureWitness.tables !! i = None /\
    (exists rec, by_id (the_index PictureWitness.rotate.2) !! i = Some (Some rec) /\ kind rec = AAlbum /\ rec_path rec = []) /\
    (ap_shares <$> match payloads (the_index PictureWitness.rotate.2) !! i with Some (MAlbum p) => Some p | _ => None end)
      = Some (ap_shares AuthWitness.album).
Proof.
  split_and!; [vm_compute; reflexivity..|].
  exists (default [] (by_path (the_index PictureWitness.rotate.2) !! [])). split_and!; [vm_compute; reflexivity..| |vm_compute; reflexivity].
  eexists. split; [vm_compute; reflexivity|]. split; reflexivity.
Qed.
(** A new frame is written under the asset's identifier; thumbnails are served under
    the content hash, and the stored hash is computed from the old still. *)
Theorem new_frame_is_not_shown :
  PictureWitness.reframe.1 = Ok tt /\
  node_at (DeletionWitness.thumb "v1" "v1.jpg") (files PictureWitness.reframe.2) = Some (Plain [9]) /\
  node_at (DeletionWitness.thumb "h2" "h2.jpg") (files PictureWitness.reframe.2) = Some (Plain [6]) /\
  (view_of DeletionWitness.ctx (the_index PictureWitness.reframe.2) (lit "v1") ≫= get_thumbhash) = Some [6].
Proof. vm_compute. done. Qed.

Lemma picture_needs_write_access_witness :
  idle PictureWitness.desk PictureWitness.rotate.2 \/ exists claims rec,
    user_claims DeletionWitness.ctx (server PictureWitness.desk) = Ok claims /\
    may_mutate DeletionWitness.ctx (server PictureWitness.desk) = Ok tt /\
    by_id PictureWitness.tables !! lit "a1" = Some (Some rec) /\
    may_write DeletionWitness.ctx (caller_identity claims).1 PictureWitness.desk rec.
Proof.
  refine (picture_needs_write_access DeletionWitness.data_home 7 DeletionWitness.ctx (lit "a1") 0
    (Ok (mkRegenerate [] [])) PictureWitness.desk PictureWitness.rotate.1 PictureWitness.rotate.2 (or_introl _)).
  apply surjective_pairing.
Defined.
