(* ===== verification/Config.v ===== *)
(** * Config: the configuration, its file and its overrides
    ([backend/src/model/config.rs], [backend/src/auth/secret_key.rs])

    The configuration of the process: the fields with their defaults, the TOML file
    they are kept in, the environment variables that override them, start-up, and the
    update an administrator asks for.  Paths are the texts they are written as.  The
    TOML printer and parser are parameters; a document is what the code reads of one,
    its sections with their scalars.  The signing key drawn from the system's
    generator is an argument.  What is only logged is left out, and so is the mode of
    the secrets file. *)

From S2P Require Import Prelude RateLimit Errors Paths Formats DirAlbumStore DataPages RouterAuth FileTree Xmp.
Import Bucket.

(** ** Fields and defaults *)
Definition u16_max : N := 65535.
Definition default_true : bool := true.
Definition default_upload_folder : str := lit "uploads".
Definition default_max_upload_size : str := lit "100MiB".
Definition default_address : str := lit "0.0.0.0".
Definition default_port : N := 5673.
Definition default_login_ip_window_secs : N := LOGIN_IP_WINDOW_SECS.
Definition default_login_ip_max_failures : N := LOGIN_IP_MAX_FAILURES.
Definition default_login_ip_base_ban_secs : N := LOGIN_IP_BASE_BAN_SECS.
Definition default_login_ip_max_ban_secs : N := LOGIN_IP_MAX_BAN_SECS.
Definition default_login_ip_long_window_secs : N := LOGIN_IP_LONG_WINDOW_SECS.
Definition default_login_ip_long_max_failures : N := LOGIN_IP_LONG_MAX_FAILURES.
Definition default_login_ip_long_base_ban_secs : N := LOGIN_IP_LONG_BASE_BAN_SECS.
Definition default_login_ip_long_max_ban_secs : N := LOGIN_IP_LONG_MAX_BAN_SECS.
Definition default_login_user_long_window_secs : N := LOGIN_USER_LONG_WINDOW_SECS.
Definition default_login_user_long_max_failures : N := LOGIN_USER_LONG_MAX_FAILURES.
Definition default_login_user_long_base_ban_secs : N := LOGIN_USER_LONG_BASE_BAN_SECS.
Definition default_login_user_long_max_ban_secs : N := LOGIN_USER_LONG_MAX_BAN_SECS.

Record AppConfig := mkApp {
  ac_address : str; ac_port : N; ac_data_home : option str; ac_image_home : option str;
  ac_users_home : option str; ac_upload_folder : str; ac_max_upload_size : str; ac_read_only_mode : bool;
  ac_fs_notify_watcher : bool; ac_normalize_upload_filenames : bool; ac_validate_upload_content : bool;
  ac_use_client_timestamp_info : bool; ac_allow_registration : bool; ac_trivial_passwords : bool;
  ac_bootstrap_admin : bool; ac_trust_proxy_forwarded_for : bool; ac_login_ip_window_secs : N;
  ac_login_ip_max_failures : N; ac_login_ip_base_ban_secs : N; ac_login_ip_max_ban_secs : N;
  ac_login_ip_long_window_secs : N; ac_login_ip_long_max_failures : N; ac_login_ip_long_base_ban_secs : N;
  ac_login_ip_long_max_ban_secs : N; ac_login_user_long_window_secs : N; ac_login_user_long_max_failures : N;
  ac_login_user_long_base_ban_secs : N; ac_login_user_long_max_ban_secs : N; ac_auth_key : option str;
  ac_web_root : option str
}.
(** The fields in a row; the record is decided by them. *)
Definition app_fields (c : AppConfig) :=
  (ac_address c, ac_port c, ac_data_home c, ac_image_home c, ac_users_home c, ac_upload_folder c,
   ac_max_upload_size c, ac_read_only_mode c, ac_fs_notify_watcher c, ac_normalize_upload_filenames c,
   ac_validate_upload_content c, ac_use_client_timestamp_info c, ac_allow_registration c,
   ac_trivial_passwords c, ac_bootstrap_admin c, ac_trust_proxy_forwarded_for c, ac_login_ip_window_secs c,
   ac_login_ip_max_failures c, ac_login_ip_base_ban_secs c, ac_login_ip_max_ban_secs c,
   ac_login_ip_long_window_secs c, ac_login_ip_long_max_failures c, ac_login_ip_long_base_ban_secs c,
   ac_login_ip_long_max_ban_secs c, ac_login_user_long_window_secs c, ac_login_user_long_max_failures c,
   ac_login_user_long_base_ban_secs c, ac_login_user_long_max_ban_secs c, ac_auth_key c, ac_web_root c).
#[export] Instance AppConfig_eq_dec : EqDecision AppConfig.
Proof.
  refine (fun a b => cast_if (decide (app_fields a = app_fields b))); [|congruence].
  match goal with H : app_fields _ = _ |- _ => revert H end. destruct a, b. intros [=]. by subst.
Defined.
Definition default_app_config : AppConfig := {|
  ac_address := default_address; ac_port := default_port; ac_data_home := None; ac_image_home := None;
  ac_users_home := None; ac_upload_folder := default_upload_folder;
  ac_max_upload_size := default_max_upload_size; ac_read_only_mode := false;
  ac_fs_notify_watcher := default_true; ac_normalize_upload_filenames := default_true;
  ac_validate_upload_content := default_true; ac_use_client_timestamp_info := false;
  ac_allow_registration := false; ac_trivial_passwords := false; ac_bootstrap_admin := false;
  ac_trust_proxy_forwarded_for := false; ac_login_ip_window_secs := default_login_ip_window_secs;
  ac_login_ip_max_failures := default_login_ip_max_failures;
  ac_login_ip_base_ban_secs := default_login_ip_base_ban_secs;
  ac_login_ip_max_ban_secs := default_login_ip_max_ban_secs;
  ac_login_ip_long_window_secs := default_login_ip_long_window_secs;
  ac_login_ip_long_max_failures := default_login_ip_long_max_failures;
  ac_login_ip_long_base_ban_secs := default_login_ip_long_base_ban_secs;
  ac_login_ip_long_max_ban_secs := default_login_ip_long_max_ban_secs;
  ac_login_user_long_window_secs := default_login_user_long_window_secs;
  ac_login_user_long_max_failures := default_login_user_long_max_failures;
  ac_login_user_long_base_ban_secs := default_login_user_long_base_ban_secs;
  ac_login_user_long_max_ban_secs := default_login_user_long_max_ban_secs; ac_auth_key := None;
  ac_web_root := None |}.
Definition set_auth_key (k : option str) (c : AppConfig) : AppConfig := {|
  ac_address := ac_address c; ac_port := ac_port c; ac_data_home := ac_data_home c;
  ac_image_home := ac_image_home c; ac_users_home := ac_users_home c; ac_upload_folder := ac_upload_folder c;
  ac_max_upload_size := ac_max_upload_size c; ac_read_only_mode := ac_read_only_mode c;
  ac_fs_notify_watcher := ac_fs_notify_watcher c;
  ac_normalize_upload_filenames := ac_normalize_upload_filenames c;
  ac_validate_upload_content := ac_validate_upload_content c;
  ac_use_client_timestamp_info := ac_use_client_timestamp_info c;
  ac_allow_registration := ac_allow_registration c; ac_trivial_passwords := ac_trivial_passwords c;
  ac_bootstrap_admin := ac_bootstrap_admin c; ac_trust_proxy_forwarded_for := ac_trust_proxy_forwarded_for c;
  ac_login_ip_window_secs := ac_login_ip_window_secs c; ac_login_ip_max_failures := ac_login_ip_max_failures c;
  ac_login_ip_base_ban_secs := ac_login_ip_base_ban_secs c;
  ac_login_ip_max_ban_secs := ac_login_ip_max_ban_secs c;
  ac_login_ip_long_window_secs := ac_login_ip_long_window_secs c;
  ac_login_ip_long_max_failures := ac_login_ip_long_max_failures c;
  ac_login_ip_long_base_ban_secs := ac_login_ip_long_base_ban_secs c;
  ac_login_ip_long_max_ban_secs := ac_login_ip_long_max_ban_secs c;
  ac_login_user_long_window_secs := ac_login_user_long_window_secs c;
  ac_login_user_long_max_failures := ac_login_user_long_max_failures c;
  ac_login_user_long_base_ban_secs := ac_login_user_long_base_ban_secs c;
  ac_login_user_long_max_ban_secs := ac_login_user_long_max_ban_secs c; ac_auth_key := k;
  ac_web_root := ac_web_root c |}.
Definition set_users_home (p : option str) (c : AppConfig) : AppConfig := {|
  ac_address := ac_address c; ac_port := ac_port c; ac_data_home := ac_data_home c;
  ac_image_home := ac_image_home c; ac_users_home := p; ac_upload_folder := ac_upload_folder c;
  ac_max_upload_size := ac_max_upload_size c; ac_read_only_mode := ac_read_only_mode c;
  ac_fs_notify_watcher := ac_fs_notify_watcher c;
  ac_normalize_upload_filenames := ac_normalize_upload_filenames c;
  ac_validate_upload_content := ac_validate_upload_content c;
  ac_use_client_timestamp_info := ac_use_client_timestamp_info c;
  ac_allow_registration := ac_allow_registration c; ac_trivial_passwords := ac_trivial_passwords c;
  ac_bootstrap_admin := ac_bootstrap_admin c; ac_trust_proxy_forwarded_for := ac_trust_proxy_forwarded_for c;
  ac_login_ip_window_secs := ac_login_ip_window_secs c; ac_login_ip_max_failures := ac_login_ip_max_failures c;
  ac_login_ip_base_ban_secs := ac_login_ip_base_ban_secs c;
  ac_login_ip_max_ban_secs := ac_login_ip_max_ban_secs c;
  ac_login_ip_long_window_secs := ac_login_ip_long_window_secs c;
  ac_login_ip_long_max_failures := ac_login_ip_long_max_failures c;
  ac_login_ip_long_base_ban_secs := ac_login_ip_long_base_ban_secs c;
  ac_login_ip_long_max_ban_secs := ac_login_ip_long_max_ban_secs c;
  ac_login_user_long_window_secs := ac_login_user_long_window_secs c;
  ac_login_user_long_max_failures := ac_login_user_long_max_failures c;
  ac_login_user_long_base_ban_secs := ac_login_user_long_base_ban_secs c;
  ac_login_user_long_max_ban_secs := ac_login_user_long_max_ban_secs c; ac_auth_key := ac_auth_key c;
  ac_web_root := ac_web_root c |}.
Definition set_web_root (p : option str) (c : AppConfig) : AppConfig := {|
  ac_address := ac_address c; ac_port := ac_port c; ac_data_home := ac_data_home c;
  ac_image_home := ac_image_home c; ac_users_home := ac_users_home c; ac_upload_folder := ac_upload_folder c;
  ac_max_upload_size := ac_max_upload_size c; ac_read_only_mode := ac_read_only_mode c;
  ac_fs_notify_watcher := ac_fs_notify_watcher c;
  ac_normalize_upload_filenames := ac_normalize_upload_filenames c;
  ac_validate_upload_content := ac_validate_upload_content c;
  ac_use_client_timestamp_info := ac_use_client_timestamp_info c;
  ac_allow_registration := ac_allow_registration c; ac_trivial_passwords := ac_trivial_passwords c;
  ac_bootstrap_admin := ac_bootstrap_admin c; ac_trust_proxy_forwarded_for := ac_trust_proxy_forwarded_for c;
  ac_login_ip_window_secs := ac_login_ip_window_secs c; ac_login_ip_max_failures := ac_login_ip_max_failures c;
  ac_login_ip_base_ban_secs := ac_login_ip_base_ban_secs c;
  ac_login_ip_max_ban_secs := ac_login_ip_max_ban_secs c;
  ac_login_ip_long_window_secs := ac_login_ip_long_window_secs c;
  ac_login_ip_long_max_failures := ac_login_ip_long_max_failures c;
  ac_login_ip_long_base_ban_secs := ac_login_ip_long_base_ban_secs c;
  ac_login_ip_long_max_ban_secs := ac_login_ip_long_max_ban_secs c;
  ac_login_user_long_window_secs := ac_login_user_long_window_secs c;
  ac_login_user_long_max_failures := ac_login_user_long_max_failures c;
  ac_login_user_long_base_ban_secs := ac_login_user_long_base_ban_secs c;
  ac_login_user_long_max_ban_secs := ac_login_user_long_max_ban_secs c; ac_auth_key := ac_auth_key c;
  ac_web_root := p |}.

(** ** The file *)
Record TomlServer := mkTomlServer {
  ts_address : str; ts_port : N; ts_max_upload_size : str; ts_trust_proxy_forwarded_for : bool;
  ts_login_ip_window_secs : N; ts_login_ip_max_failures : N; ts_login_ip_base_ban_secs : N;
  ts_login_ip_max_ban_secs : N; ts_login_ip_long_window_secs : N; ts_login_ip_long_max_failures : N;
  ts_login_ip_long_base_ban_secs : N; ts_login_ip_long_max_ban_secs : N; ts_login_user_long_window_secs : N;
  ts_login_user_long_max_failures : N; ts_login_user_long_base_ban_secs : N;
  ts_login_user_long_max_ban_secs : N
}.
Definition default_toml_server : TomlServer := {|
  ts_address := default_address; ts_port := default_port; ts_max_upload_size := default_max_upload_size;
  ts_trust_proxy_forwarded_for := false; ts_login_ip_window_secs := default_login_ip_window_secs;
  ts_login_ip_max_failures := default_login_ip_max_failures;
  ts_login_ip_base_ban_secs := default_login_ip_base_ban_secs;
  ts_login_ip_max_ban_secs := default_login_ip_max_ban_secs;
  ts_login_ip_long_window_secs := default_login_ip_long_window_secs;
  ts_login_ip_long_max_failures := default_login_ip_long_max_failures;
  ts_login_ip_long_base_ban_secs := default_login_ip_long_base_ban_secs;
  ts_login_ip_long_max_ban_secs := default_login_ip_long_max_ban_secs;
  ts_login_user_long_window_secs := default_login_user_long_window_secs;
  ts_login_user_long_max_failures := default_login_user_long_max_failures;
  ts_login_user_long_base_ban_secs := default_login_user_long_base_ban_secs;
  ts_login_user_long_max_ban_secs := default_login_user_long_max_ban_secs |}.
Record TomlGallery := mkTomlGallery {
  tg_data_home : option str; tg_image_home : option str; tg_users_home : option str; tg_upload_folder : str;
  tg_read_only_mode : bool; tg_fs_notify_watcher : bool; tg_normalize_upload_filenames : bool;
  tg_validate_upload_content : bool; tg_use_client_timestamp_info : bool; tg_allow_registration : bool;
  tg_trivial_passwords : bool; tg_bootstrap_admin : bool; tg_web_root : option str
}.
Definition default_toml_gallery : TomlGallery := {|
  tg_data_home := None; tg_image_home := None; tg_users_home := None; tg_upload_folder := default_upload_folder;
  tg_read_only_mode := false; tg_fs_notify_watcher := default_true;
  tg_normalize_upload_filenames := default_true; tg_validate_upload_content := default_true;
  tg_use_client_timestamp_info := false; tg_allow_registration := false; tg_trivial_passwords := false;
  tg_bootstrap_admin := false; tg_web_root := None |}.
Record TomlFile := mkTomlFile { tf_server : TomlServer; tf_gallery : TomlGallery }.
Definition app_config_of (t : TomlFile) : AppConfig :=
  let s := tf_server t in
  let g := tf_gallery t in {|
    ac_address := ts_address s; ac_port := ts_port s; ac_data_home := tg_data_home g;
    ac_image_home := tg_image_home g; ac_users_home := tg_users_home g; ac_upload_folder := tg_upload_folder g;
    ac_max_upload_size := ts_max_upload_size s; ac_read_only_mode := tg_read_only_mode g;
    ac_fs_notify_watcher := tg_fs_notify_watcher g;
    ac_normalize_upload_filenames := tg_normalize_upload_filenames g;
    ac_validate_upload_content := tg_validate_upload_content g;
    ac_use_client_timestamp_info := tg_use_client_timestamp_info g;
    ac_allow_registration := tg_allow_registration g; ac_trivial_passwords := tg_trivial_passwords g;
    ac_bootstrap_admin := tg_bootstrap_admin g; ac_trust_proxy_forwarded_for := ts_trust_proxy_forwarded_for s;
    ac_login_ip_window_secs := ts_login_ip_window_secs s;
    ac_login_ip_max_failures := ts_login_ip_max_failures s;
    ac_login_ip_base_ban_secs := ts_login_ip_base_ban_secs s;
    ac_login_ip_max_ban_secs := ts_login_ip_max_ban_secs s;
    ac_login_ip_long_window_secs := ts_login_ip_long_window_secs s;
    ac_login_ip_long_max_failures := ts_login_ip_long_max_failures s;
    ac_login_ip_long_base_ban_secs := ts_login_ip_long_base_ban_secs s;
    ac_login_ip_long_max_ban_secs := ts_login_ip_long_max_ban_secs s;
    ac_login_user_long_window_secs := ts_login_user_long_window_secs s;
    ac_login_user_long_max_failures := ts_login_user_long_max_failures s;
    ac_login_user_long_base_ban_secs := ts_login_user_long_base_ban_secs s;
    ac_login_user_long_max_ban_secs := ts_login_user_long_max_ban_secs s; ac_auth_key := None;
    ac_web_root := tg_web_root g |}.
Definition toml_file_of (c : AppConfig) : TomlFile := mkTomlFile
  {|
    ts_address := ac_address c; ts_port := ac_port c; ts_max_upload_size := ac_max_upload_size c;
    ts_trust_proxy_forwarded_for := ac_trust_proxy_forwarded_for c;
    ts_login_ip_window_secs := ac_login_ip_window_secs c;
    ts_login_ip_max_failures := ac_login_ip_max_failures c;
    ts_login_ip_base_ban_secs := ac_login_ip_base_ban_secs c;
    ts_login_ip_max_ban_secs := ac_login_ip_max_ban_secs c;
    ts_login_ip_long_window_secs := ac_login_ip_long_window_secs c;
    ts_login_ip_long_max_failures := ac_login_ip_long_max_failures c;
    ts_login_ip_long_base_ban_secs := ac_login_ip_long_base_ban_secs c;
    ts_login_ip_long_max_ban_secs := ac_login_ip_long_max_ban_secs c;
    ts_login_user_long_window_secs := ac_login_user_long_window_secs c;
    ts_login_user_long_max_failures := ac_login_user_long_max_failures c;
    ts_login_user_long_base_ban_secs := ac_login_user_long_base_ban_secs c;
    ts_login_user_long_max_ban_secs := ac_login_user_long_max_ban_secs c |}
  {|
    tg_data_home := ac_data_home c; tg_image_home := ac_image_home c; tg_users_home := ac_users_home c;
    tg_upload_folder := ac_upload_folder c; tg_read_only_mode := ac_read_only_mode c;
    tg_fs_notify_watcher := ac_fs_notify_watcher c;
    tg_normalize_upload_filenames := ac_normalize_upload_filenames c;
    tg_validate_upload_content := ac_validate_upload_content c;
    tg_use_client_timestamp_info := ac_use_client_timestamp_info c;
    tg_allow_registration := ac_allow_registration c; tg_trivial_passwords := ac_trivial_passwords c;
    tg_bootstrap_admin := ac_bootstrap_admin c; tg_web_root := ac_web_root c |}.

(** A TOML document as [serde] walks it: named sections of scalars; [TOther] is any
    other value. *)
Inductive TomlValue := TText (s : str) | TInt (z : Z) | TBool (b : bool) | TOther.
Inductive TomlItem := Scalar (v : TomlValue) | Section_ (fields : list (str * TomlValue)).
Abbreviation Table_ := (list (str * TomlValue)).
Abbreviation Doc := (list (str * TomlItem)).
Fixpoint tget {A} (key : str) (t : list (str * A)) : option A :=
  match t with
  | (k, v) :: t' => if str_eqb k key then Some v else tget key t'
  | [] => None
  end.
Definition read_text (v : TomlValue) : option str := match v with TText s => Some s | _ => None end.
Definition read_bool (v : TomlValue) : option bool := match v with TBool b => Some b | _ => None end.
Definition read_path (v : TomlValue) : option (option str) := match v with TText s => Some (Some s) | _ => None end.
Definition read_uint (bound : N) (v : TomlValue) : option N :=
  match v with
  | TInt z => if (0 <=? z)%Z && (z <=? Z.of_N bound)%Z then Some (Z.to_N z) else None
  | _ => None
  end.
Definition field {A} (rd : TomlValue -> option A) (key : string) (missing : A) (t : Table_) : option A :=
  match tget (lit key) t with Some v => rd v | None => Some missing end.
Definition entry (key : string) (v : TomlValue) : Table_ := [(lit key, v)].
Definition optional (key : string) (o : option str) : Table_ :=
  match o with Some s => entry key (TText s) | None => [] end.

Definition read_toml_server (t : Table_) : option TomlServer :=
  x_address ← field (read_text) "address" default_address t;
  x_port ← field (read_uint u16_max) "port" default_port t;
  x_max_upload_size ← field (read_text) "max_upload_size" default_max_upload_size t;
  x_trust_proxy_forwarded_for ← field (read_bool) "trust_proxy_forwarded_for" false t;
  x_login_ip_window_secs ← field (read_uint u64_max) "login_ip_window_secs" default_login_ip_window_secs t;
  x_login_ip_max_failures ← field (read_uint u32_max) "login_ip_max_failures" default_login_ip_max_failures t;
  x_login_ip_base_ban_secs ← field (read_uint u64_max) "login_ip_base_ban_secs" default_login_ip_base_ban_secs t;
  x_login_ip_max_ban_secs ← field (read_uint u64_max) "login_ip_max_ban_secs" default_login_ip_max_ban_secs t;
  x_login_ip_long_window_secs ← field (read_uint u64_max) "login_ip_long_window_secs" default_login_ip_long_window_secs t;
  x_login_ip_long_max_failures ← field (read_uint u32_max) "login_ip_long_max_failures" default_login_ip_long_max_failures t;
  x_login_ip_long_base_ban_secs ← field (read_uint u64_max) "login_ip_long_base_ban_secs" default_login_ip_long_base_ban_secs t;
  x_login_ip_long_max_ban_secs ← field (read_uint u64_max) "login_ip_long_max_ban_secs" default_login_ip_long_max_ban_secs t;
  x_login_user_long_window_secs ← field (read_uint u64_max) "login_user_long_window_secs" default_login_user_long_window_secs t;
  x_login_user_long_max_failures ← field (read_uint u32_max) "login_user_long_max_failures" default_login_user_long_max_failures t;
  x_login_user_long_base_ban_secs ← field (read_uint u64_max) "login_user_long_base_ban_secs" default_login_user_long_base_ban_secs t;
  x_login_user_long_max_ban_secs ← field (read_uint u64_max) "login_user_long_max_ban_secs" default_login_user_long_max_ban_secs t;
  Some (mkTomlServer x_address x_port x_max_upload_size x_trust_proxy_forwarded_for x_login_ip_window_secs x_login_ip_max_failures x_login_ip_base_ban_secs x_login_ip_max_ban_secs x_login_ip_long_window_secs x_login_ip_long_max_failures x_login_ip_long_base_ban_secs x_login_ip_long_max_ban_secs x_login_user_long_window_secs x_login_user_long_max_failures x_login_user_long_base_ban_secs x_login_user_long_max_ban_secs).
Definition read_toml_gallery (t : Table_) : option TomlGallery :=
  x_data_home ← field (read_path) "data_home" None t;
  x_image_home ← field (read_path) "image_home" None t;
  x_users_home ← field (read_path) "users_home" None t;
  x_upload_folder ← field (read_text) "upload_folder" default_upload_folder t;
  x_read_only_mode ← field (read_bool) "read_only_mode" false t;
  x_fs_notify_watcher ← field (read_bool) "fs_notify_watcher" default_true t;
  x_normalize_upload_filenames ← field (read_bool) "normalize_upload_filenames" default_true t;
  x_validate_upload_content ← field (read_bool) "validate_upload_content" default_true t;
  x_use_client_timestamp_info ← field (read_bool) "use_client_timestamp_info" false t;
  x_allow_registration ← field (read_bool) "allow_registration" false t;
  x_trivial_passwords ← field (read_bool) "trivial_passwords" false t;
  x_bootstrap_admin ← field (read_bool) "bootstrap_admin" false t;
  x_web_root ← field (read_path) "web_root" None t;
  Some (mkTomlGallery x_data_home x_image_home x_users_home x_upload_folder x_read_only_mode x_fs_notify_watcher x_normalize_upload_filenames x_validate_upload_content x_use_client_timestamp_info x_allow_registration x_trivial_passwords x_bootstrap_admin x_web_root).
(** Unknown sections and keys are ignored; a section must be a table. *)
Definition section {A} (rd : Table_ -> option A) (key : string) (missing : A) (d : Doc) : option A :=
  match tget (lit key) d with
  | Some (Section_ t) => rd t
  | Some (Scalar _) => None
  | None => Some missing
  end.
Definition read_toml_file (d : Doc) : option TomlFile :=
  server ← section read_toml_server "server" default_toml_server d;
  gallery ← section read_toml_gallery "gallery" default_toml_gallery d;
  _ ← section (fun _ => Some tt) "secrets" tt d;
  Some (mkTomlFile server gallery).
Definition server_entries (x : TomlServer) : list (str * TomlValue) :=
  entry "address" (TText (ts_address x)) ++ entry "port" (TInt (Z.of_N (ts_port x))) ++ entry "max_upload_size"
  (TText (ts_max_upload_size x)) ++ entry "trust_proxy_forwarded_for" (TBool (ts_trust_proxy_forwarded_for x))
  ++ entry "login_ip_window_secs" (TInt (Z.of_N (ts_login_ip_window_secs x))) ++ entry "login_ip_max_failures"
  (TInt (Z.of_N (ts_login_ip_max_failures x))) ++ entry "login_ip_base_ban_secs" (TInt (Z.of_N
  (ts_login_ip_base_ban_secs x))) ++ entry "login_ip_max_ban_secs" (TInt (Z.of_N (ts_login_ip_max_ban_secs x)))
  ++ entry "login_ip_long_window_secs" (TInt (Z.of_N (ts_login_ip_long_window_secs x))) ++ entry
  "login_ip_long_max_failures" (TInt (Z.of_N (ts_login_ip_long_max_failures x))) ++ entry
  "login_ip_long_base_ban_secs" (TInt (Z.of_N (ts_login_ip_long_base_ban_secs x))) ++ entry
  "login_ip_long_max_ban_secs" (TInt (Z.of_N (ts_login_ip_long_max_ban_secs x))) ++ entry
  "login_user_long_window_secs" (TInt (Z.of_N (ts_login_user_long_window_secs x))) ++ entry
  "login_user_long_max_failures" (TInt (Z.of_N (ts_login_user_long_max_failures x))) ++ entry
  "login_user_long_base_ban_secs" (TInt (Z.of_N (ts_login_user_long_base_ban_secs x))) ++ entry
  "login_user_long_max_ban_secs" (TInt (Z.of_N (ts_login_user_long_max_ban_secs x))).
Definition gallery_entries (x : TomlGallery) : list (str * TomlValue) :=
  optional "data_home" (tg_data_home x) ++ optional "image_home" (tg_image_home x) ++ optional "users_home"
  (tg_users_home x) ++ entry "upload_folder" (TText (tg_upload_folder x)) ++ entry "read_only_mode" (TBool
  (tg_read_only_mode x)) ++ entry "fs_notify_watcher" (TBool (tg_fs_notify_watcher x)) ++ entry
  "normalize_upload_filenames" (TBool (tg_normalize_upload_filenames x)) ++ entry "validate_upload_content"
  (TBool (tg_validate_upload_content x)) ++ entry "use_client_timestamp_info" (TBool
  (tg_use_client_timestamp_info x)) ++ entry "allow_registration" (TBool (tg_allow_registration x)) ++ entry
  "trivial_passwords" (TBool (tg_trivial_passwords x)) ++ entry "bootstrap_admin" (TBool (tg_bootstrap_admin x))
  ++ optional "web_root" (tg_web_root x).
Definition doc_of (t : TomlFile) : Doc :=
  [(lit "server", Section_ (server_entries (tf_server t))); (lit "gallery", Section_ (gallery_entries (tf_gallery t)));
   (lit "secrets", Section_ [])].

(** [toml::from_str] and [toml::to_string_pretty]: what is printed is text, and is read
    back as it was; nothing is an empty document. *)
Class Toml := { from_toml : str -> option Doc; to_toml : Doc -> option str }.
Class TomlLaws `{Toml} := {
  toml_back d s : to_toml d = Some s -> from_toml s = Some d;
  toml_text d s : to_toml d = Some s -> Forall (fun c => is_scalar c = true) s;
  toml_empty : from_toml [] = Some []
}.

Section Files.
Context {Io : IoFaults} {Jc : JsonCodec} {To : Toml}.

Definition has_legacy_password_key (content : str) : bool :=
  is_some (d ← from_toml content;
           s ← tget (lit "secrets") d;
           p ← match s with Section_ t => tget (lit "password") t | Scalar _ => None end;
           s ← read_text p;
           if is_empty s then None else Some tt).
Definition parsed (raw : str) : option TomlFile := d ← from_toml raw; read_toml_file d.
Definition loaded_config (raw : str) : AppConfig := from_option app_config_of default_app_config (parsed raw).

Definition read_to_string (p : Path) (t : Files) : option str * Files :=
  let '(r, t) := read p t in (bytes ← result_ok r; utf8_decode bytes, t).

(** ** The signing key's file *)
Definition SecretsDoc : Type := option str.
Definition read_key (j : Json) : option SecretsDoc :=
  match j with JNull => Some None | JStr k => Some (Some k) | _ => None end.
Definition secrets_of_json (j : Json) : option SecretsDoc :=
  match j with
  | JObj f => match jget (lit "authKey") f with Some v => read_key v | None => Some None end
  | JArr [] => Some None
  | JArr [v] => read_key v
  | _ => None
  end.
Definition secrets_json (d : SecretsDoc) : Json :=
  JObj (match d with Some k => [(lit "authKey", JStr k)] | None => [] end).
Definition secrets_file (data_home : str) : Path :=
  push (components data_home) [Normal (lit "auth"); Normal (lit "secrets.json")].
Definition load_secret_key_from (p : Path) (t : Files) : result str (option str) * Files :=
  match read p t with
  | (Err NotFound, t) => (Ok None, t)
  | (Err _, t) => (Err (lit "failed to read secrets file " ++ path_text p), t)
  | (Ok bytes, t) =>
      (match text ← utf8_decode bytes; j ← json_parse text; secrets_of_json j with
       | Some d => Ok (option_filter (fun k => negb (is_empty (trim k))) d)
       | None => Err (lit "failed to parse secrets file " ++ path_text p)
       end, t)
  end.
Definition secrets_tmp (p : Path) : Path :=
  match file_name p with
  | Some name => pop p ++ [Normal (file_stem name ++ lit ".tmp")]
  | None => p
  end.
Definition store_secret_key_to (p : Path) (key : str) (t : Files) : result str unit * Files :=
  match (match parent p with Some dir => create_dir_all dir t | None => (Ok tt, t) end) with
  | (Err _, t) => (Err (lit "failed to create secrets dir " ++ path_text (pop p)), t)
  | (Ok _, t) =>
      let tmp := secrets_tmp p in
      match write tmp (utf8_encode (json_print (secrets_json (Some key)))) t with
      | (Err _, t) => (Err (lit "failed to write secrets file " ++ path_text tmp), t)
      | (Ok _, t) =>
          match rename tmp p t with
          | (Err _, t) => (Err (lit "failed to move secrets file " ++ path_text p ++ lit " into place"), t)
          | (Ok _, t) => (Ok tt, t)
          end
      end
  end.
End Files.

(** ** The process *)
(** The environment, as the process was given it; [os_standard] is the platform's
    directory for configuration or data. *)
Class Environment := { env : string -> option str; os_standard : string -> option str }.

Record Machine := mkMachine {
  disk : Files;
  config_dir : option str;               (* CONFIG_DIR *)
  data_path : option str;                (* DATA_PATH *)
  app_config : option AppConfig;         (* APP_CONFIG *)
  fallback_key : option str              (* FALLBACK_SECRET_KEY *)
}.
Definition with_disk t m := mkMachine t (config_dir m) (data_path m) (app_config m) (fallback_key m).
Definition with_config_dir d m := mkMachine (disk m) d (data_path m) (app_config m) (fallback_key m).
Definition with_data_path d m := mkMachine (disk m) (config_dir m) d (app_config m) (fallback_key m).
Definition with_app_config c m := mkMachine (disk m) (config_dir m) (data_path m) c (fallback_key m).
Definition with_fallback k m := mkMachine (disk m) (config_dir m) (data_path m) (app_config m) k.

(** An error as it is shown, or a panic. *)
Inductive Fault := Raised (e : str) | Panics.

(** [PathBuf::join] of a plain name. *)
Definition join_str (base : str) (name : string) : str :=
  if is_empty base || bool_decide (last base = Some 47) then base ++ lit name else base ++ lit "/" ++ lit name.
Fixpoint trim_start_of (c : N) (s : str) : str :=
  match s with x :: s' => if x =? c then trim_start_of c s' else s | [] => [] end.
Definition trim_matches (c : N) (s : str) : str := rev (trim_start_of c (rev (trim_start_of c s))).
Definition non_empty (s : str) : option str := if is_empty s then None else Some s.

(** [str::parse] of an unsigned integer and of a truth value. *)
Definition parse_uint (bound : N) (s : str) : option N :=
  let digits := match s with 43 :: s' => s' | _ => s end in
  if is_empty digits then None
  else z ← parse_digits 0 digits; if (z <=? Z.of_N bound)%Z then Some (Z.to_N z) else None.
Definition parse_bool (s : str) : option bool :=
  if str_eqb s (lit "true") then Some true else if str_eqb s (lit "false") then Some false else None.

Definition login_throttle_schedules (c : AppConfig) : list (string * (N * N * N * N)) := [
  ("login_ip_window_secs/login_ip_max_failures/login_ip_base_ban_secs/login_ip_max_ban_secs",
   (ac_login_ip_window_secs c, ac_login_ip_max_failures c, ac_login_ip_base_ban_secs c, ac_login_ip_max_ban_secs c));
  ("login_ip_long_window_secs/login_ip_long_max_failures/login_ip_long_base_ban_secs/login_ip_long_max_ban_secs",
   (ac_login_ip_long_window_secs c, ac_login_ip_long_max_failures c, ac_login_ip_long_base_ban_secs c, ac_login_ip_long_max_ban_secs c));
  ("login_user_long_window_secs/login_user_long_max_failures/login_user_long_base_ban_secs/login_user_long_max_ban_secs",
   (ac_login_user_long_window_secs c, ac_login_user_long_max_failures c, ac_login_user_long_base_ban_secs c, ac_login_user_long_max_ban_secs c))
].
Definition validate_login_throttle (c : AppConfig) : result str unit :=
  foldr (fun '(knobs, (window, max_failures, base, cap)) rest =>
    match new window max_failures base cap with
    | Ok _ => rest
    | Err e => Err (lit "invalid login throttle config [server] " ++ lit knobs ++ lit ": " ++ e)
    end) (Ok tt) (login_throttle_schedules c).

(** ** Overrides by the environment *)
Section Overrides.
Variable get : string -> option str.
Definition set_str (var : string) (current : option str) : option str :=
  match v ← get var; non_empty (trim v) with Some v => Some v | None => current end.
Definition set_parse {A} (parse : str -> option A) (var : string) (current : A) : A :=
  default current (v ← get var; parse v).
Definition apply_env_overrides_with (c : AppConfig) : AppConfig := {|
  ac_address := default (ac_address c) (get "PICASU_ADDRESS");
  ac_port := set_parse (parse_uint u16_max) "PICASU_PORT" (ac_port c);
  ac_data_home := set_str "PICASU_DATA_HOME" (ac_data_home c);
  ac_image_home := set_str "PICASU_IMAGE_HOME" (ac_image_home c);
  ac_users_home := set_str "PICASU_USERS_HOME" (ac_users_home c);
  ac_upload_folder := default (ac_upload_folder c) (v ← get "PICASU_UPLOAD_FOLDER"; non_empty (trim v));
  ac_max_upload_size := default (ac_max_upload_size c) (v ← get "PICASU_MAX_UPLOAD_SIZE"; non_empty (trim v));
  ac_read_only_mode := set_parse (parse_bool) "PICASU_READ_ONLY_MODE" (ac_read_only_mode c);
  ac_fs_notify_watcher := set_parse (parse_bool) "PICASU_FS_NOTIFY_WATCHER" (ac_fs_notify_watcher c);
  ac_normalize_upload_filenames := ac_normalize_upload_filenames c;
  ac_validate_upload_content := ac_validate_upload_content c;
  ac_use_client_timestamp_info := ac_use_client_timestamp_info c;
  ac_allow_registration := set_parse (parse_bool) "PICASU_ALLOW_REGISTRATION" (ac_allow_registration c);
  ac_trivial_passwords := set_parse (parse_bool) "PICASU_TRIVIAL_PASSWORDS" (ac_trivial_passwords c);
  ac_bootstrap_admin := set_parse (parse_bool) "PICASU_BOOTSTRAP_ADMIN" (ac_bootstrap_admin c);
  ac_trust_proxy_forwarded_for := set_parse (parse_bool) "PICASU_TRUST_PROXY_FORWARDED_FOR" (ac_trust_proxy_forwarded_for c);
  ac_login_ip_window_secs := set_parse (parse_uint u64_max) "PICASU_LOGIN_IP_WINDOW_SECS" (ac_login_ip_window_secs c);
  ac_login_ip_max_failures := set_parse (parse_uint u32_max) "PICASU_LOGIN_IP_MAX_FAILURES" (ac_login_ip_max_failures c);
  ac_login_ip_base_ban_secs := set_parse (parse_uint u64_max) "PICASU_LOGIN_IP_BASE_BAN_SECS" (ac_login_ip_base_ban_secs c);
  ac_login_ip_max_ban_secs := set_parse (parse_uint u64_max) "PICASU_LOGIN_IP_MAX_BAN_SECS" (ac_login_ip_max_ban_secs c);
  ac_login_ip_long_window_secs := set_parse (parse_uint u64_max) "PICASU_LOGIN_IP_LONG_WINDOW_SECS" (ac_login_ip_long_window_secs c);
  ac_login_ip_long_max_failures := set_parse (parse_uint u32_max) "PICASU_LOGIN_IP_LONG_MAX_FAILURES" (ac_login_ip_long_max_failures c);
  ac_login_ip_long_base_ban_secs := set_parse (parse_uint u64_max) "PICASU_LOGIN_IP_LONG_BASE_BAN_SECS" (ac_login_ip_long_base_ban_secs c);
  ac_login_ip_long_max_ban_secs := set_parse (parse_uint u64_max) "PICASU_LOGIN_IP_LONG_MAX_BAN_SECS" (ac_login_ip_long_max_ban_secs c);
  ac_login_user_long_window_secs := set_parse (parse_uint u64_max) "PICASU_LOGIN_USER_LONG_WINDOW_SECS" (ac_login_user_long_window_secs c);
  ac_login_user_long_max_failures := set_parse (parse_uint u32_max) "PICASU_LOGIN_USER_LONG_MAX_FAILURES" (ac_login_user_long_max_failures c);
  ac_login_user_long_base_ban_secs := set_parse (parse_uint u64_max) "PICASU_LOGIN_USER_LONG_BASE_BAN_SECS" (ac_login_user_long_base_ban_secs c);
  ac_login_user_long_max_ban_secs := set_parse (parse_uint u64_max) "PICASU_LOGIN_USER_LONG_MAX_BAN_SECS" (ac_login_user_long_max_ban_secs c);
  ac_auth_key := match get "PICASU_AUTH_KEY" with Some v => non_empty (trim v) | None => ac_auth_key c end;
  ac_web_root := set_str "PICASU_WEB_ROOT" (ac_web_root c) |}.
End Overrides.

Section Process.
Context {Io : IoFaults} {Jc : JsonCodec} {To : Toml} {En : Environment}.
Definition apply_env_overrides (c : AppConfig) : AppConfig := apply_env_overrides_with env c.

(** ** Where the files are *)
Definition root_host (var kind : string) (m : Machine) : Host :=
  mkHost (env var) (exists_in (disk m) [Normal (lit "config.toml")]) (components <$> os_standard kind).
Definition resolve_root (var kind : string) (m : Machine) : str * Machine :=
  match resolve_root_source (root_host var kind m) with
  | Env dir => (default [] (env var), with_disk (create_dir_all dir (disk m)).2 m)
  | OsStandard dir =>
      let text := default [] (os_standard kind) in
      if exists_in (disk m) dir then (text, m)
      else let '(r, t) := create_dir_all dir (disk m) in (if is_ok r then text else lit ".", with_disk t m)
  | LegacyCwd | Undetermined => (lit ".", m)
  end.
Definition get_config_dir (m : Machine) : str * Machine :=
  match config_dir m with
  | Some dir => (dir, m)
  | None => let '(dir, m) := resolve_root "PICASU_CONFIG_HOME" "config" m in (dir, with_config_dir (Some dir) m)
  end.
Definition get_data_path (m : Machine) : str * Machine :=
  match data_path m with
  | Some dir => (dir, m)
  | None => let '(dir, m) := resolve_root "PICASU_DATA_HOME" "data" m in (dir, with_data_path (Some dir) m)
  end.
Definition config_file (dir : str) : Path := push (components dir) [Normal (lit "config.toml")].
Definition data_home_of (c : AppConfig) (m : Machine) : str * Machine :=
  match ac_data_home c with Some dir => (dir, m) | None => get_data_path m end.

Definition save_update (c : AppConfig) (m : Machine) : result str unit * Machine :=
  let '(dir, m) := get_config_dir m in
  match to_toml (doc_of (toml_file_of c)) with
  | None => (Err (lit "Failed to serialize configuration to TOML"), m)
  | Some pretty =>
      let '(r, t) := write (config_file dir) (utf8_encode pretty) (disk m) in
      (map_err (fun _ => lit "Failed to write configuration to " ++ path_text (config_file dir)) r, with_disk t m)
  end.

(** ** Start-up *)
Section Launch.
Variable data_root : str.
Definition launch_config : AppConfig :=
  let data_home := data_root in {|
    ac_address := ac_address default_app_config; ac_port := ac_port default_app_config;
    ac_data_home := Some data_home;
    ac_image_home := Some (default (join_str data_home "images") (env "PICASU_IMAGE_HOME"));
    ac_users_home := Some (default (join_str data_home "users") (env "PICASU_USERS_HOME"));
    ac_upload_folder := ac_upload_folder default_app_config;
    ac_max_upload_size := ac_max_upload_size default_app_config;
    ac_read_only_mode := ac_read_only_mode default_app_config;
    ac_fs_notify_watcher := ac_fs_notify_watcher default_app_config;
    ac_normalize_upload_filenames := ac_normalize_upload_filenames default_app_config;
    ac_validate_upload_content := ac_validate_upload_content default_app_config;
    ac_use_client_timestamp_info := ac_use_client_timestamp_info default_app_config;
    ac_allow_registration := ac_allow_registration default_app_config;
    ac_trivial_passwords := ac_trivial_passwords default_app_config;
    ac_bootstrap_admin := ac_bootstrap_admin default_app_config;
    ac_trust_proxy_forwarded_for := ac_trust_proxy_forwarded_for default_app_config;
    ac_login_ip_window_secs := ac_login_ip_window_secs default_app_config;
    ac_login_ip_max_failures := ac_login_ip_max_failures default_app_config;
    ac_login_ip_base_ban_secs := ac_login_ip_base_ban_secs default_app_config;
    ac_login_ip_max_ban_secs := ac_login_ip_max_ban_secs default_app_config;
    ac_login_ip_long_window_secs := ac_login_ip_long_window_secs default_app_config;
    ac_login_ip_long_max_failures := ac_login_ip_long_max_failures default_app_config;
    ac_login_ip_long_base_ban_secs := ac_login_ip_long_base_ban_secs default_app_config;
    ac_login_ip_long_max_ban_secs := ac_login_ip_long_max_ban_secs default_app_config;
    ac_login_user_long_window_secs := ac_login_user_long_window_secs default_app_config;
    ac_login_user_long_max_failures := ac_login_user_long_max_failures default_app_config;
    ac_login_user_long_base_ban_secs := ac_login_user_long_base_ban_secs default_app_config;
    ac_login_user_long_max_ban_secs := ac_login_user_long_max_ban_secs default_app_config;
    ac_auth_key := ac_auth_key default_app_config;
    ac_web_root := Some (default (join_str data_home "www") (env "PICASU_WEB_ROOT")) |}.
End Launch.
Definition first_launch (dir : str) (m : Machine) : Machine :=
  let '(data_home, m) := resolve_root "PICASU_DATA_HOME" "data" m in
  let m := match parent (config_file dir) with
           | Some p => with_disk (create_dir_all p (disk m)).2 m
           | None => m
           end in
  (save_update (launch_config data_home) m).2.
Definition stored_key (c : AppConfig) (m : Machine) : option str * Machine :=
  let '(data_home, m) := data_home_of c m in
  let '(r, t) := load_secret_key_from (secrets_file data_home) (disk m) in
  (default None (result_ok r), with_disk t m).
(** The configuration before it is checked: the file's, with the key of the secrets
    file, under the environment; and whether the users' root had to be filled in. *)
Definition prepared (m : Machine) : AppConfig * bool * Machine :=
  let '(dir, m) := get_config_dir m in
  let path := config_file dir in
  let m := if exists_in (disk m) path then m else first_launch dir m in
  let '(raw, t) := read_to_string path (disk m) in
  let m := with_disk t m in
  let c := loaded_config (default [] raw) in
  let '(key, m) := stored_key c m in
  let c := set_auth_key key c in
  let m := if bool_decide (c = default_app_config) && exists_in (disk m) path then (save_update c m).2 else m in
  let c := apply_env_overrides c in
  match ac_users_home c with
  | Some _ => (c, false, m)
  | None => let '(data_home, m) := data_home_of c m in (set_users_home (Some (join_str data_home "users")) c, true, m)
  end.
Definition validate_users_home (t : Files) (c : AppConfig) : result str unit :=
  if is_some_and (fun p => is_empty (trim p)) (ac_users_home c) then Err (lit "users_home must not be empty")
  else validate_path_roots (F:=fs_of t) (components <$> ac_image_home c) (components <$> ac_users_home c).

(** [fresh] is the key drawn when none is stored. *)
Definition fallback_init (fresh : str) (m : Machine) : Machine := with_fallback (Some (default fresh (fallback_key m))) m.
Definition installed (fresh : str) (c : AppConfig) (m : Machine) : result Fault unit * Machine :=
  let '(c, m) := match ac_web_root c with
                 | Some _ => (c, m)
                 | None => let '(data_home, m) := data_home_of c m in (set_web_root (Some (join_str data_home "www")) c, m)
                 end in
  let '(data_home, m) := data_home_of c m in
  let m := with_data_path (Some (default data_home (data_path m))) m in
  let '(c, m) := match k ← ac_auth_key c; non_empty k with
                 | Some _ => (c, m)
                 | None => (set_auth_key None c, fallback_init fresh m)
                 end in
  match app_config m with
  | Some _ => (Err Panics, m)
  | None => (Ok tt, with_app_config (Some c) m)
  end.
Definition init (fresh : str) (m : Machine) : result Fault unit * Machine :=
  let '(c, backfilled, m) := prepared m in
  match validate_login_throttle c with
  | Err e => (Err (Raised e), m)
  | Ok _ =>
      match validate_users_home (disk m) c with
      | Err e => (Err (Raised e), m)
      | Ok _ => installed fresh c (if backfilled : bool then (save_update c m).2 else m)
      end
  end.

(** ** The running process *)
Definition get_jwt_secret_key (c : AppConfig) (fresh : str) (m : Machine) : str * Machine :=
  match ac_auth_key c with
  | Some key => (key, m)
  | None => let m := fallback_init fresh m in (default [] (fallback_key m), m)
  end.
Definition cleaned (c : AppConfig) : AppConfig := {|
  ac_address := ac_address c; ac_port := ac_port c; ac_data_home := ac_data_home c;
  ac_image_home := (p ← ac_image_home c; non_empty (trim_matches 34 (trim p)));
  ac_users_home := ac_users_home c; ac_upload_folder := trim (ac_upload_folder c);
  ac_max_upload_size := ac_max_upload_size c; ac_read_only_mode := ac_read_only_mode c;
  ac_fs_notify_watcher := ac_fs_notify_watcher c;
  ac_normalize_upload_filenames := ac_normalize_upload_filenames c;
  ac_validate_upload_content := ac_validate_upload_content c;
  ac_use_client_timestamp_info := ac_use_client_timestamp_info c;
  ac_allow_registration := ac_allow_registration c; ac_trivial_passwords := ac_trivial_passwords c;
  ac_bootstrap_admin := ac_bootstrap_admin c; ac_trust_proxy_forwarded_for := ac_trust_proxy_forwarded_for c;
  ac_login_ip_window_secs := ac_login_ip_window_secs c; ac_login_ip_max_failures := ac_login_ip_max_failures c;
  ac_login_ip_base_ban_secs := ac_login_ip_base_ban_secs c;
  ac_login_ip_max_ban_secs := ac_login_ip_max_ban_secs c;
  ac_login_ip_long_window_secs := ac_login_ip_long_window_secs c;
  ac_login_ip_long_max_failures := ac_login_ip_long_max_failures c;
  ac_login_ip_long_base_ban_secs := ac_login_ip_long_base_ban_secs c;
  ac_login_ip_long_max_ban_secs := ac_login_ip_long_max_ban_secs c;
  ac_login_user_long_window_secs := ac_login_user_long_window_secs c;
  ac_login_user_long_max_failures := ac_login_user_long_max_failures c;
  ac_login_user_long_base_ban_secs := ac_login_user_long_base_ban_secs c;
  ac_login_user_long_max_ban_secs := ac_login_user_long_max_ban_secs c;
  ac_auth_key := (k ← ac_auth_key c; non_empty k); ac_web_root := ac_web_root c |}.
Definition update (fresh : str) (c : AppConfig) (m : Machine) : result Fault unit * Machine :=
  let c := cleaned c in
  match save_update c m with
  | (Err _, m) => (Err (Raised (lit "Failed to save configuration to file")), m)
  | (Ok _, m) =>
      match app_config m with
      | None => (Err Panics, m)
      | Some _ =>
          let m := if is_some (ac_auth_key c) then m else fallback_init fresh m in
          (Ok tt, with_app_config (Some c) m)
      end
  end.

(** The key's file of the running process. *)
Definition secrets_file_path (m : Machine) : Path * Machine :=
  let '(data_home, m) := get_data_path m in (secrets_file data_home, m).
Definition load_secret_key (m : Machine) : result str (option str) * Machine :=
  let '(p, m) := secrets_file_path m in
  let '(r, t) := load_secret_key_from p (disk m) in (r, with_disk t m).
Definition store_secret_key (key : str) (m : Machine) : result str unit * Machine :=
  let '(p, m) := secrets_file_path m in
  let '(r, t) := store_secret_key_to p key (disk m) in (r, with_disk t m).

(** ** The offline commands *)
Definition config_path_readonly (m : Machine) : Path :=
  push (resolve_root_path (root_host "PICASU_CONFIG_HOME" "config" m)) [Normal (lit "config.toml")].
Definition read_config_file (m : Machine) : option TomlFile :=
  raw ← (read_to_string (config_path_readonly m) (disk m)).1; parsed raw.
Definition configured_data_home (m : Machine) : option str :=
  t ← read_config_file m; home ← tg_data_home (tf_gallery t); non_empty home.
Definition configured_trivial_passwords (m : Machine) : option bool :=
  t ← read_config_file m; Some (tg_trivial_passwords (tf_gallery t)).
End Process.

(** ** What is saved is read back *)
Definition fits (c : AppConfig) : Prop :=
  ac_port c <= u16_max /\
  Forall (fun t => let '(_, (window, max_failures, base, cap)) := t in
            window <= u64_max /\ max_failures <= u32_max /\ base <= u64_max /\ cap <= u64_max)
    (login_throttle_schedules c).

Lemma read_uint_back bound n : n <= bound -> read_uint bound (TInt (Z.of_N n)) = Some n.
Proof.
  intros H. unfold read_uint. rewrite (proj2 (Z.leb_le 0 (Z.of_N n))) by lia.
  rewrite (proj2 (Z.leb_le (Z.of_N n) (Z.of_N bound))) by lia. cbn [andb]. by rewrite N2Z.id.
Qed.

(** The keys are compared by computation; numbers and bounds stay folded. *)
Ltac read_fields := cbv -[read_uint Z.of_N u16_max u32_max u64_max]; rewrite ?read_uint_back by done.

Lemma server_back c : fits c -> read_toml_server (server_entries (tf_server (toml_file_of c))) = Some (tf_server (toml_file_of c)).
Proof.
  intros [Hp Hs]. unfold login_throttle_schedules in Hs. rewrite !Forall_cons in Hs.
  destruct Hs as ((? & ? & ? & ?) & (? & ? & ? & ?) & (? & ? & ? & ?) & _). destruct c. by read_fields.
Qed.
Lemma gallery_back x : read_toml_gallery (gallery_entries x) = Some x.
Proof. by destruct x as [[] [] [] ? ? ? ? ? ? ? ? ? []]. Qed.
Lemma doc_back c : fits c -> read_toml_file (doc_of (toml_file_of c)) = Some (toml_file_of c).
Proof.
  intros H. unfold read_toml_file, section, doc_of. cbn [tget].
  change (str_eqb (lit "server") (lit "server")) with true. change (str_eqb (lit "server") (lit "gallery")) with false.
  change (str_eqb (lit "gallery") (lit "gallery")) with true. change (str_eqb (lit "server") (lit "secrets")) with false.
  change (str_eqb (lit "gallery") (lit "secrets")) with false. change (str_eqb (lit "secrets") (lit "secrets")) with true.
  cbv iota. rewrite server_back by done. cbn [mbind option_bind]. by rewrite gallery_back.
Qed.
Lemma app_config_back c : app_config_of (toml_file_of c) = set_auth_key None c.
Proof. done. Qed.

Section Saving.
Context {Io : IoFaults} {Jc : JsonCodec} {To : Toml} {Tl : TomlLaws} {En : Environment}.

(** A file that was written holds what was written. *)
Lemma written_holds p bytes t t' : write p bytes t = (Ok tt, t') -> node_at p t' = Some (Plain bytes).
Proof.
  unfold write, call. destruct (io_fault (calls t)); [done|]. destruct (resolve p t) as [q|] eqn:Hq; [|done].
  destruct (is_folder (nodes t) q) eqn:Hf; [done|]. intros [= <-]. unfold node_at.
  assert (resolve p (called (set_nodes (<[q := Plain bytes]> (nodes t)) t)) = Some q) as ->.
  { unfold resolve in *. cbn. by rewrite <-(walk_ext _ _ _ _ (folders_put _ _ bytes Hf)). }
  cbn. apply lookup_insert_eq.
Qed.

(** A file that was renamed is found under its new name. *)
Lemma renamed_holds t t' src dir n b : tree_ok t -> node_at src t = Some (Plain b) ->
  rename src (dir ++ [Normal n]) t = (Ok tt, t') -> node_at (dir ++ [Normal n]) t' = Some (Plain b).
Proof.
  intros Ht Hsrc H. unfold node_at in Hsrc. destruct (resolve src t) as [qs|] eqn:Hqs; [|done]. cbn in Hsrc.
  destruct (io_fault (calls t)) as [why|] eqn:Hio; [unfold rename, call in H; by rewrite Hio in H|].
  destruct (resolve (dir ++ [Normal n]) t) as [qd|] eqn:Hqd; [|unfold rename, call in H; by rewrite Hio, Hqs, Hqd in H].
  pose proof Hqd as (d & Hd & Hfd & ->)%resolve_snoc.
  destruct (decide (qs = d ++ [Normal n])) as [->|Hne].
  - unfold rename, call in H. rewrite Hio, Hqs, Hqd, Hsrc, bool_decide_true in H by done. injection H as <-.
    unfold node_at. change (resolve _ (called t)) with (resolve (dir ++ [Normal n]) t). by rewrite Hqd.
  - assert (is_folder (nodes t) (d ++ [Normal n]) = false) as Hfile.
    { apply not_true_iff_false. intros Hf%is_folder_spec. unfold rename, call in H.
      rewrite Hio, Hqs, Hqd, Hsrc, Hf, bool_decide_false in H by done. by destruct (below _ _). }
    rewrite (rename_leaf _ _ _ qs d n b) in H by done. injection H as <-. unfold node_at.
    assert (same_folders (nodes t) (<[d ++ [Normal n] := Plain b]> (delete qs (nodes t)))) as Hsame.
    { assert (same_folders (nodes t) (delete qs (nodes t))) as Hdrop
        by (apply folders_drop; unfold is_folder; by rewrite Hsrc).
      eapply same_folders_trans; [exact Hdrop|]. apply folders_put. by rewrite <-Hdrop. }
    unfold resolve in *. cbn. rewrite <-(walk_ext _ _ _ _ Hsame), Hqd. cbn. apply lookup_insert_eq.
Qed.
Lemma write_tree_ok dir n bytes t t' : tree_ok t -> write (dir ++ [Normal n]) bytes t = (Ok tt, t') -> tree_ok t'.
Proof.
  intros Ht. unfold write, call. destruct (io_fault (calls t)); [done|].
  destruct (resolve _ t) as [q|] eqn:Hq; [|done]. apply resolve_snoc in Hq as (d & Hd & Hf & ->).
  destruct (is_folder (nodes t) (d ++ [Normal n])) eqn:Hfile; [done|]. intros [= <-].
  by apply tree_ok_called, tree_ok_put.
Qed.

(** The key that was stored is the key that is loaded. *)
Lemma stored_back {Jl : JsonLaws} dir n key t t' : tree_ok t -> trim key <> [] ->
  Forall (fun x => is_scalar x = true) (json_print (secrets_json (Some key))) ->
  store_secret_key_to (dir ++ [Normal n]) key t = (Ok tt, t') -> io_fault (calls t') = None ->
  (load_secret_key_from (dir ++ [Normal n]) t').1 = Ok (Some key).
Proof.
  intros Ht Hkey Htext H Hio. unfold store_secret_key_to, secrets_tmp, parent, file_name in H.
  rewrite rev_unit in H. cbn in H. rewrite rev_involutive in H.
  destruct (create_dir_all dir t) as [[[]|] t1] eqn:Hc; [|done]. apply create_dir_all_grows in Hc as (Ht1 & _ & _); [|done].
  unfold pop, parent in H. rewrite rev_unit in H. cbn in H. rewrite rev_involutive in H.
  destruct (write _ _ t1) as [[[]|] t2] eqn:Hw; [|done]. pose proof (written_holds _ _ _ _ Hw) as Hat.
  apply write_tree_ok in Hw as Ht2; [|done]. destruct (rename _ _ t2) as [[[]|] t3] eqn:Hr; [|done]. injection H as <-.
  pose proof (renamed_holds _ _ _ _ _ _ Ht2 Hat Hr) as Hp.
  unfold load_secret_key_from, read, call. rewrite Hio, Hp. cbn.
  rewrite utf8_roundtrip by done. cbn [mbind option_bind]. rewrite json_parse_print. cbn [mbind option_bind].
  change (secrets_of_json (secrets_json (Some key))) with (Some (Some key)). unfold option_filter. cbn [fst].
  by destruct (trim key).
Qed.

(** The running configuration and the keys are not touched by the file's calls, and the
    data's place is left alone or taken from the environment. *)
Definition same_process (m m' : Machine) : Prop :=
  app_config m' = app_config m /\ fallback_key m' = fallback_key m /\
  (data_path m' = data_path m \/ forall v, env "PICASU_DATA_HOME" = Some v -> data_path m' = Some v).
#[export] Instance same_preorder : PreOrder same_process.
Proof.
  split; [by intros m; split_and!; [..|left]|]. intros a b c (H1 & H2 & H3) (H4 & H5 & H6). split_and!; [congruence..|].
  destruct H6 as [H6|H6]; [|by right]. destruct H3 as [H3|H3]; [left; congruence|]. right. intros v Hv. rewrite H6. by apply H3.
Qed.
Lemma same_refl m t d : same_process m (with_config_dir d (with_disk t m)).
Proof. split_and!; [done|done|by left]. Qed.
Lemma resolve_root_same var kind m : exists t, (resolve_root var kind m).2 = with_disk t m.
Proof.
  unfold resolve_root. destruct (resolve_root_source _); try (by exists (disk m); destruct m); [by eexists|].
  destruct (exists_in _ _); [by exists (disk m); destruct m|]. destruct (create_dir_all _ _). by eexists.
Qed.
Lemma resolve_root_process var kind m : same_process m (resolve_root var kind m).2.
Proof. destruct (resolve_root_same var kind m) as [t ->]. split_and!; [done|done|by left]. Qed.
Lemma resolve_root_env var kind m v : env var = Some v -> (resolve_root var kind m).1 = v.
Proof. intros H. unfold resolve_root, resolve_root_source, root_host. cbn [env_var]. by rewrite H. Qed.
Lemma get_config_dir_same m : same_process m (get_config_dir m).2.
Proof.
  unfold get_config_dir. destruct (config_dir m); [done|].
  destruct (resolve_root_same "PICASU_CONFIG_HOME" "config" m) as [t H]. destruct (resolve_root _ _ m). cbn in *. subst.
  apply same_refl.
Qed.
Lemma get_data_path_same m : same_process m (get_data_path m).2.
Proof.
  unfold get_data_path. destruct (data_path m); [done|].
  destruct (resolve_root_same "PICASU_DATA_HOME" "data" m) as [t H].
  pose proof (resolve_root_env "PICASU_DATA_HOME" "data" m) as Hv. destruct (resolve_root _ _ m). cbn in *. subst.
  split_and!; [done|done|]. right. intros v Hv'. cbn. by rewrite (Hv v).
Qed.
Lemma data_home_same c m : same_process m (data_home_of c m).2.
Proof. unfold data_home_of. destruct (ac_data_home c); [done|apply get_data_path_same]. Qed.
Lemma save_update_same c m r m' : save_update c m = (r, m') -> same_process m m'.
Proof.
  unfold save_update. pose proof (get_config_dir_same m) as H. destruct (get_config_dir m) as [dir m1].
  destruct (to_toml _); [|by intros [= _ <-]]. destruct (write _ _ _) as [r1 t]. by intros [= _ <-].
Qed.

Lemma saved_back c m m' : fits c -> save_update c m = (Ok tt, m') ->
  exists bytes, node_at (config_file (get_config_dir m).1) (disk m') = Some (Plain bytes) /\
    loaded_config <$> utf8_decode bytes = Some (set_auth_key None c).
Proof.
  intros Hc. unfold save_update. destruct (get_config_dir m) as [dir m1] eqn:Hd.
  destruct (to_toml _) as [s|] eqn:Hs; [|done]. destruct (write _ _ _) as [[[]|] t] eqn:Hw; [|done].
  intros [= <-]. exists (utf8_encode s). split.
  - cbn. by eapply written_holds.
  - rewrite utf8_roundtrip by (by eapply toml_text). cbn. f_equal. unfold loaded_config, parsed.
    rewrite (toml_back _ _ Hs). cbn [mbind option_bind]. by rewrite doc_back.
Qed.

(** A configuration whose numbers fit their types is read back from the file as it was
    saved, but for the signing key, which the file never holds. *)
Theorem config_roundtrip c m m' : fits c -> save_update c m = (Ok tt, m') ->
  exists bytes, node_at (config_file (get_config_dir m).1) (disk m') = Some (Plain bytes) /\
    loaded_config <$> utf8_decode bytes = Some (set_auth_key None c) /\
    (forall k, save_update (set_auth_key k c) m = (Ok tt, m')).
Proof.
  intros Hc Hs. destruct (saved_back c m m' Hc Hs) as (bytes & Hb & Hl). exists bytes. split_and!; [done..|].
  intros k. rewrite <-Hs. unfold save_update.
  by change (toml_file_of (set_auth_key k c)) with (toml_file_of c).
Qed.

(** ** Start-up *)
Definition sound_schedule (t : N * N * N * N) : Prop :=
  let '(window, max_failures, base, cap) := t in 0 < window /\ 0 < max_failures /\ 0 < base /\ base <= cap.
Lemma new_sound window max base cap b : new window max base cap = Ok b -> sound_schedule (window, max, base, cap).
Proof.
  unfold new, sound_schedule. destruct (N.eqb_spec window 0); [done|]. destruct (N.eqb_spec max 0); [done|].
  destruct (N.eqb_spec base 0); [done|]. destruct (N.ltb_spec cap base); [done|]. intros _. lia.
Qed.
Lemma throttle_sound c : validate_login_throttle c = Ok tt -> Forall (fun t => sound_schedule t.2) (login_throttle_schedules c).
Proof.
  unfold validate_login_throttle. induction (login_throttle_schedules c) as [|[k [[[w m] b] cap]] l IH]; [by constructor|].
  cbn [foldr]. destruct (new w m b cap) eqn:Hn; [|done]. intros H. constructor; [by eapply new_sound|by apply IH].
Qed.
Definition apart (t : Files) (a b : option str) : Prop := forall p q, a = Some p -> b = Some q ->
  let i := canonicalize_if_exists (F:=fs_of t) (components p) in
  let u := canonicalize_if_exists (F:=fs_of t) (components q) in
  path_starts_with i u = false /\ path_starts_with u i = false.
Lemma roots_apart t c : validate_users_home t c = Ok tt ->
  (forall home, ac_users_home c = Some home -> trim home <> []) /\ apart t (ac_image_home c) (ac_users_home c).
Proof.
  unfold validate_users_home, apart. destruct (is_some_and _ _) eqn:Hb; [done|]. intros H. split.
  - intros home Hh He. rewrite Hh in Hb. cbn in Hb. by rewrite He in Hb.
  - intros p q Hp Hq. rewrite Hp, Hq in H. cbn in H. destruct (_ || _ || _) eqn:Ho; [done|].
    by apply orb_false_iff in Ho as [[_ ?]%orb_false_iff ?].
Qed.
Lemma first_launch_same dir m : same_process m (first_launch dir m).
Proof.
  unfold first_launch. pose proof (resolve_root_process "PICASU_DATA_HOME" "data" m) as H.
  destruct (resolve_root _ _ m) as [home m1]. cbn in H. destruct (parent _) as [p|].
  - destruct (save_update (launch_config home) _) as [r m2] eqn:Hs. apply save_update_same in Hs.
    etrans; [exact H|exact Hs].
  - destruct (save_update _ m1) as [r m2] eqn:Hs. etrans; [exact H|by eapply save_update_same].
Qed.
Lemma stored_key_same c m : same_process m (stored_key c m).2.
Proof.
  unfold stored_key. pose proof (data_home_same c m) as H. destruct (data_home_of c m) as [home m1].
  by destruct (load_secret_key_from _ _).
Qed.
Lemma prepared_same m : same_process m (prepared m).2 /\ is_some (ac_users_home (prepared m).1.1) = true.
Proof.
  unfold prepared. pose proof (get_config_dir_same m) as H1. destruct (get_config_dir m) as [dir m1].
  set (m2 := if exists_in _ _ then m1 else _).
  assert (H2 : same_process m m2).
  { unfold m2. destruct (exists_in _ _); [done|]. etrans; [exact H1|apply first_launch_same]. }
  destruct (read_to_string _ _) as [raw t]. cbv zeta.
  pose proof (stored_key_same (loaded_config (default [] raw)) (with_disk t m2)) as H3.
  destruct (stored_key _ _) as [key m3]. set (c := set_auth_key key _).
  set (m4 := if bool_decide _ && _ then _ else m3).
  assert (H4 : same_process m m4).
  { etrans; [exact H2|]. etrans; [exact H3|]. unfold m4. destruct (_ && _); [|done].
    destruct (save_update c m3) as [r m5] eqn:Hs. by eapply save_update_same. }
  destruct (ac_users_home _) as [home|] eqn:Hh; [split; [exact H4|by cbn [fst]; rewrite Hh]|].
  pose proof (data_home_same (apply_env_overrides c) m4) as H5. destruct (data_home_of _ m4) as [home m5].
  split; [by etrans|done].
Qed.

(** C27: A start that succeeds leaves a configuration that is sound: every throttle
    schedule can ban, the users' root is set and lies neither in nor around the image
    root, the bundle's and the data's place are known, and the key that signs the
    sessions is fixed and is the configured one unless that is empty; a start that fails
    installs nothing. *)
Theorem init_safe fresh m r m' : init fresh m = (r, m') ->
  match r with
  | Ok _ => exists c c0, c0 = (prepared m).1.1 /\ app_config m = None /\ app_config m' = Some c /\
      Forall (fun t => sound_schedule t.2) (login_throttle_schedules c) /\
      (exists home, ac_users_home c = Some home /\ trim home <> []) /\
      apart (disk (prepared m).2) (ac_image_home c) (ac_users_home c) /\
      is_some (ac_web_root c) = true /\ is_some (data_path m') = true /\
      exists key, (forall other, get_jwt_secret_key c other m' = (key, m')) /\
        match ac_auth_key c0 with
        | Some ((_ :: _) as k) => key = k
        | _ => key = default fresh (fallback_key m)
        end
  | Err _ => app_config m' = app_config m
  end.
Proof.
  unfold init. destruct (prepared_same m) as [Hp Hu]. destruct (prepared m) as [[c0 b] m0]. cbn [fst snd] in *.
  pose proof (proj1 Hp) as Ha.
  destruct (validate_login_throttle c0) as [[]|e] eqn:Ht; [|by intros [= <- <-]].
  destruct (validate_users_home _ c0) as [[]|e] eqn:Hr; [|by intros [= <- <-]].
  apply throttle_sound in Ht. apply roots_apart in Hr as [Hh Hap].
  destruct (ac_users_home c0) as [home|] eqn:Hhome; [|done].
  set (m1 := if b : bool then _ else m0).
  assert (H1 : same_process m m1).
  { unfold m1. destruct b; [|done]. destruct (save_update c0 m0) as [r1 m2] eqn:Hs.
    etrans; [exact Hp|by eapply save_update_same]. }
  unfold installed. set (w := match ac_web_root c0 with Some _ => _ | None => _ end).
  assert (Hw : same_process m1 w.2 /\ is_some (ac_web_root w.1) = true /\ login_throttle_schedules w.1 = login_throttle_schedules c0
    /\ ac_users_home w.1 = Some home /\ ac_image_home w.1 = ac_image_home c0 /\ ac_auth_key w.1 = ac_auth_key c0).
  { unfold w. destruct (ac_web_root c0) as [?|] eqn:He; [cbn; by rewrite He|].
    pose proof (data_home_same c0 m1) as Hd. by destruct (data_home_of c0 m1). }
  destruct w as [c m2]. cbn in Hw. destruct Hw as (Hw & Hweb & Hls & Hus & Him & Hk).
  pose proof (data_home_same c m2) as Hd. destruct (data_home_of c m2) as [dh m3]. cbn in Hd.
  assert (H3 : same_process m m3) by (etrans; [exact H1|]; etrans; [exact Hw|exact Hd]). destruct H3 as (H3a & H3f & _).
  destruct (k ← ac_auth_key c; non_empty k) as [k|] eqn:Hkey.
  - cbn. rewrite H3a. destruct (app_config m) eqn:Hm; intros [= <- <-]; [done|].
    exists c, c0. rewrite Hls, Hus, Him. split_and!; try done.
    + exists home. auto.
    + destruct (ac_auth_key c) as [k'|] eqn:Hac; [|done]. exists k'. split; [intros; unfold get_jwt_secret_key; by rewrite Hac|].
      rewrite <-Hk. by destruct k'.
  - cbn. rewrite H3a. destruct (app_config m) eqn:Hm; intros [= <- <-]; [done|].
    exists (set_auth_key None c), c0. split_and!; try done.
    + change (Forall (fun t => sound_schedule t.2) (login_throttle_schedules c)). by rewrite Hls.
    + exists home. auto.
    + cbn. by rewrite Him, Hus.
    + exists (default fresh (fallback_key m)). split; [intros; unfold get_jwt_secret_key; cbn; by rewrite H3f|].
      rewrite <-Hk. destruct (ac_auth_key c) as [[]|]; done.
Qed.
End Saving.

(** ** Concrete runs *)
Module ConfigWitness.
(** A value printed as the bits of its number. *)
Fixpoint bits (p : positive) : str :=
  match p with xH => [49] | xO p => 48 :: bits p | xI p => 49 :: bits p end.
Fixpoint of_bits (s : str) : option positive :=
  match s with
  | [] => None
  | [c] => if c =? 49 then Some xH else None
  | c :: s' => p ← of_bits s'; if c =? 49 then Some (xI p) else if c =? 48 then Some (xO p) else None
  end.
Lemma of_bits_bits p : of_bits (bits p) = Some p.
Proof.
  induction p as [p IH|p IH|]; cbn [bits]; [| |done]; (destruct (bits p) as [|n l] eqn:Hb; [by destruct p|]).
  - change (of_bits (49 :: n :: l)) with (q ← of_bits (n :: l); Some (xI q)). by rewrite IH.
  - change (of_bits (48 :: n :: l)) with (q ← of_bits (n :: l); Some (xO q)). by rewrite IH.
Qed.
Lemma bits_text p : Forall (fun c => is_scalar c = true) (bits p).
Proof. induction p; cbn; repeat constructor; done. Qed.

Definition value_sum (v : TomlValue) : str + (Z + option bool) :=
  match v with TText s => inl s | TInt z => inr (inl z) | TBool b => inr (inr (Some b)) | TOther => inr (inr None) end.
Definition sum_value (x : str + (Z + option bool)) : TomlValue :=
  match x with inl s => TText s | inr (inl z) => TInt z | inr (inr (Some b)) => TBool b | inr (inr None) => TOther end.
#[export] Instance TomlValue_eq_dec : EqDecision TomlValue.
Proof. solve_decision. Defined.
#[export] Instance TomlValue_countable : Countable TomlValue.
Proof. apply (inj_countable' value_sum sum_value). by intros []. Defined.
#[export] Instance TomlItem_eq_dec : EqDecision TomlItem.
Proof. solve_decision. Defined.
Definition item_sum (i : TomlItem) : TomlValue + list (str * TomlValue) :=
  match i with Scalar v => inl v | Section_ t => inr t end.
Definition sum_item (x : TomlValue + list (str * TomlValue)) : TomlItem :=
  match x with inl v => Scalar v | inr t => Section_ t end.
#[export] Instance TomlItem_countable : Countable TomlItem.
Proof. apply (inj_countable' item_sum sum_item). by intros []. Defined.

#[export] Instance toml_bits : Toml := {|
  from_toml s := if is_empty s then Some [] else p ← of_bits s; decode p;
  to_toml d := Some (bits (encode d))
|}.
#[export] Instance toml_bits_laws : TomlLaws.
Proof.
  split; cbn.
  - intros d s [= <-]. destruct (bits (encode d)) as [|c s] eqn:Hb; [by destruct (encode d)|].
    cbn [is_empty]. rewrite <-Hb, of_bits_bits. cbn. apply decode_encode.
  - intros d s [= <-]. apply bits_text.
  - done.
Qed.
Definition json_bits : JsonCodec := {|
  json_parse s := p ← of_bits s; decode p;
  json_print v := bits (encode v)
|}.
Lemma json_bits_laws : @JsonLaws json_bits.
Proof. split. intros v. cbn. rewrite of_bits_bits. apply decode_encode. Qed.

(** A host that keeps everything under [/p], and what else its environment sets. *)
Definition at_home (more : list (string * str)) : Environment := {|
  env var := snd <$> (list_find (fun kv => kv.1 = var)
                        (more ++ [("PICASU_CONFIG_HOME"%string, lit "/p"); ("PICASU_DATA_HOME"%string, lit "/p/data")])
                      ≫= fun x => Some x.2);
  os_standard _ := None
|}.
Definition at_ (s : string) : Path := components (lit s).
Definition empty_disk : Files := mkFiles {[ [RootDir] := Folder ]} [RootDir] 0.
Definition stopped (t : Files) : Machine := mkMachine t None None None None.
Definition boot (more : list (string * str)) (fresh : string) (t : Files) : result Fault unit * Machine :=
  init (Jc:=json_bits) (En:=at_home more) (lit fresh) (stopped t).
(** A start, and what the process is then configured with. *)
Definition after (more : list (string * str)) (t : Files) : Machine := (boot more "fallback" t).2.
Definition running (m : Machine) : AppConfig := default default_app_config (app_config m).
(** A host whose file is empty. *)
Definition bare_disk : Files :=
  mkFiles {[ [RootDir] := Folder; at_ "/p" := Folder; at_ "/p/config.toml" := Plain [] ]} [RootDir] 0.
Definition parse_at (t : Files) : option Doc :=
  match node_at (at_ "/p/config.toml") t with Some (Plain b) => s ← utf8_decode b; from_toml s | _ => None end.
Lemma ran {E M} (x : result E unit * M) : x.1 = Ok tt -> x = (Ok tt, x.2).
Proof. destruct x as [r m]. cbn. by intros ->. Qed.
Lemma booted : boot [] "fallback" empty_disk = (Ok tt, after [] empty_disk).
Proof. unfold after. refine (ran _ _). by vm_compute. Qed.
Lemma saved : save_update (En:=at_home []) default_app_config (stopped bare_disk)
            = (Ok tt, (save_update (En:=at_home []) default_app_config (stopped bare_disk)).2).
Proof. refine (ran _ _). by vm_compute. Qed.
End ConfigWitness.
Import (hints) ConfigWitness.

(** Any later write of the configuration makes an override of the environment last:
    weak passwords, allowed for one run by the environment, stay allowed. *)
Theorem override_persisted :
  let m1 := ConfigWitness.after [("PICASU_TRIVIAL_PASSWORDS"%string, lit "true")] ConfigWitness.empty_disk in
  let m2 := (update (En:=ConfigWitness.at_home []) (lit "k") (ConfigWitness.running m1) m1).2 in
  ac_trivial_passwords (ConfigWitness.running (ConfigWitness.after [] (disk m1))) = false /\
  ac_trivial_passwords (ConfigWitness.running (ConfigWitness.after [] (disk m2))) = true.
Proof. vm_compute. by split. Qed.

(** The key's file is read below the data home of the file and written below the one
    in force: a key rotated while the environment moves the data home is lost at the
    next start, and the old one is back. *)
Theorem rotated_key_lost :
  let moved := [("PICASU_DATA_HOME"%string, lit "/q")] in
  let t0 := disk (ConfigWitness.after [] ConfigWitness.empty_disk) in
  let t1 := disk (store_secret_key (Jc:=ConfigWitness.json_bits) (En:=ConfigWitness.at_home []) (lit "old") (ConfigWitness.after [] t0)).2 in
  let rotated := store_secret_key (Jc:=ConfigWitness.json_bits) (En:=ConfigWitness.at_home moved) (lit "new") (ConfigWitness.after moved t1) in
  ac_auth_key (ConfigWitness.running (ConfigWitness.after moved t1)) = Some (lit "old") /\
  rotated.1 = Ok tt /\
  ac_auth_key (ConfigWitness.running (ConfigWitness.after moved (disk rotated.2))) = Some (lit "old").
Proof. vm_compute. by split_and!. Qed.

(** A file without the key is reported as one that forbids weak passwords, not as one
    that says nothing. *)
Theorem absent_key_is_reported : exists t,
  ConfigWitness.parse_at t = Some [] /\
  configured_trivial_passwords (En:=ConfigWitness.at_home []) (ConfigWitness.stopped t) = Some false.
Proof. exists ConfigWitness.bare_disk. vm_compute. by split. Qed.

(** A number is parsed as it stands: blanks around it make it no number. *)
Theorem padded_override_is_dropped get c :
  get "PICASU_PORT"%string = Some (lit " 80") -> ac_port (apply_env_overrides_with get c) = ac_port c.
Proof. intros H. unfold apply_env_overrides_with, set_parse. cbn [ac_port]. by rewrite H. Qed.

Lemma config_roundtrip_witness :
  let m := ConfigWitness.stopped ConfigWitness.bare_disk in
  exists bytes, node_at (config_file (lit "/p")) (disk (save_update (En:=ConfigWitness.at_home []) default_app_config m).2)
                  = Some (Plain bytes) /\
    loaded_config <$> utf8_decode bytes = Some default_app_config.
Proof.
  assert (fits default_app_config) as Hf by (split; [by vm_compute|repeat constructor; by vm_compute]).
  destruct (config_roundtrip (En:=ConfigWitness.at_home []) default_app_config (ConfigWitness.stopped ConfigWitness.bare_disk) _
    Hf ConfigWitness.saved) as (bytes & H1 & H2 & _).
  exists bytes. split; [exact H1|exact H2].
Defined.

Lemma init_safe_witness : exists c home,
  app_config (ConfigWitness.after [] ConfigWitness.empty_disk) = Some c /\ ac_users_home c = Some home /\ trim home <> [].
Proof.
  destruct (init_safe (Jc:=ConfigWitness.json_bits) (En:=ConfigWitness.at_home []) (lit "fallback") (ConfigWitness.stopped ConfigWitness.empty_disk)
    (Ok tt) (ConfigWitness.after [] ConfigWitness.empty_disk)) as (c & _ & _ & _ & Hc & _ & (home & Hh & Ht) & _).
  - exact ConfigWitness.booted.
  - exists c, home. auto.
Defined.
