(* ===== verification/Pipeline.v ===== *)
(** * Pipeline: from a media file to its record
    ([backend/src/workflow/mod.rs], [process/index.rs], [process/misc.rs],
    [process/video.rs], [process/exif.rs], [process/hash.rs] and [tasks/actor/open_file.rs],
    [hash.rs], [deduplicate.rs], [index.rs], [video.rs])

    A file is opened, hashed, given a record, described and handed to the serial
    writer; a video is then transcoded and handed over again.  What decodes pictures
    and reads EXIF data is a library's and the external programs ([ffprobe],
    [ffmpeg]) are functions of their arguments and the files.  Errors are kept as the
    chain of their messages, the outermost first.  The bridges to the pools hand a
    stage's result over; their shutdown is left out. *)

From S2P Require Import Snapshots.
From S2P Require Import Prelude Errors Redb Password UserStore Revocations Invites LoginThrottle.
From S2P Require Import Paths Formats Model MetadataRecord AlbumUpdate DirAlbum Tokens RouterAuth IndexStore.
From S2P Require Import DirAlbumStore Accounts DataPages FileTree Sanitize Xmp SidecarEdit Desk Deletion Thumbnails Config.

(** ** What lies outside *)
Class Decoders {Pi : Pictures} := {
  picture_width : Picture -> N;
  picture_height : Picture -> N;
  rotate90 : Picture -> Picture;
  rotate180 : Picture -> Picture;
  primary_fields : list N -> option (list (str * str))   (* EXIF of the primary image, printed *)
}.
(** Programs: the error when they cannot be started, else what they exit with ([None] when
    a signal ends them) and print, and what they write to the file of their last argument
    ([ffmpeg]). *)
Record Ran := mkRan { status : option Z; stdout : list N; stderr : list N }.
Definition succeeded (r : Ran) : bool := bool_decide (status r = Some 0%Z).
Class Programs := {
  ffprobe : list str -> Files -> result str Ran;
  ffmpeg : list str -> Files -> result str (Ran * option (list N))
}.
(** Floating point numbers: a printed duration in seconds, and 25 MB spread over it. *)
Class Doubles := {
  Double : Type;
  parse_f64 : str -> option Double;
  is_positive : Double -> bool;
  bitrate_for : Double -> N
}.
Class Stats := { modified_millis : Path -> N; folder_size : N }.

(** ** Errors *)
Definition Chain : Type := list str.
Definition bail {A} (msg : str) : result Chain A := Err [msg].
Definition with_context {A} (msg : str) (r : result Chain A) : result Chain A := map_err (cons msg) r.
(** [{:#}] *)
Fixpoint chain_text (e : Chain) : str :=
  match e with [] => [] | [m] => m | m :: e => m ++ lit ": " ++ chain_text e end.
Definition io_chain {A} (r : io_result A) : result Chain A := map_err (fun e => [io_text e]) r.

(** ** UTF-8 read leniently ([String::from_utf8_lossy]) *)
(** The length of the longest beginning that may still grow to a character. *)
Definition bad_prefix (bytes : list N) : nat :=
  match bytes with
  | a :: b :: rest =>
      let second := if in_range 225 236 a || in_range 238 239 a || in_range 241 243 a then in_range 128 191 b
                    else if a =? 224 then in_range 160 191 b
                    else if a =? 237 then in_range 128 159 b
                    else if a =? 240 then in_range 144 191 b
                    else if a =? 244 then in_range 128 143 b
                    else false in
      if second then
        match rest with
        | c :: _ => if in_range 240 244 a && in_range 128 191 c then 3%nat else 2%nat
        | [] => 2%nat
        end
      else 1%nat
  | _ => 1%nat
  end.
Definition one_char (bytes : list N) : option (N * nat) :=
  let try n := match utf8_decode (take n bytes) with Some [c] => Some (c, length (take n bytes)) | _ => None end in
  match try 1%nat with
  | Some r => Some r
  | None => match try 2%nat with
            | Some r => Some r
            | None => match try 3%nat with Some r => Some r | None => try 4%nat end
            end
  end.
Fixpoint from_utf8_lossy (fuel : nat) (bytes : list N) : str :=
  match fuel, bytes with
  | S fuel, _ :: _ =>
      match one_char bytes with
      | Some (c, n) => c :: from_utf8_lossy fuel (drop n bytes)
      | None => 65533 :: from_utf8_lossy fuel (drop (bad_prefix bytes) bytes)
      end
  | _, _ => []
  end.
Definition lossy (bytes : list N) : str := from_utf8_lossy (length bytes) bytes.
(** The text of [Utf8Error]; [at_] bytes were read before. *)
Fixpoint utf8_error (fuel : nat) (at_ : N) (bytes : list N) : str :=
  match fuel, bytes with
  | S fuel, lead :: _ =>
      match one_char bytes with
      | Some (_, n) => utf8_error fuel (at_ + N.of_nat n) (drop n bytes)
      | None =>
          let n := bad_prefix bytes in
          if in_range 194 244 lead && (n =? length bytes)%nat
          then lit "incomplete utf-8 byte sequence from index " ++ show_N at_
          else lit "invalid utf-8 sequence of " ++ show_N (N.of_nat n) ++ lit " bytes from index " ++ show_N at_
      end
  | _, _ => []
  end.
(** The text of [ParseIntError], for a text that is not empty. *)
Definition parse_int_error (s : str) : str :=
  let digits := match s with 43 :: s' => s' | _ => s end in
  if negb (is_empty digits) && forallb (in_range 48 57) digits
  then lit "number too large to fit in target type" else lit "invalid digit found in string".

(** ** Describing a file *)
Definition rotated_right : str := lit "row 0 at right and column 0 at top".
Definition rotated_around : str := lit "row 0 at bottom and column 0 at right".
Definition rotated_left : str := lit "row 0 at left and column 0 at bottom".
Definition SHOULD_SWAP_WIDTH_HEIGHT_ROTATION : list str := lit <$> ["90"; "-90"; "270"; "-270"]%string.
Definition exif_field (k : string) (a : AbstractData) : option str := m ← exif_vec a; m !! lit k.
Definition fix_image_width_height (a : AbstractData) : AbstractData :=
  match exif_field "Orientation" a with
  | Some o => if str_eqb o rotated_right || str_eqb o rotated_left then swap_width_height a else a
  | None => a
  end.
Definition fix_video_width_height (a : AbstractData) : AbstractData :=
  match exif_field "rotation" a with
  | Some r => if bool_decide (trim r ∈ SHOULD_SWAP_WIDTH_HEIGHT_ROTATION) then swap_width_height a else a
  | None => a
  end.
(** What a sidecar or an embedded packet adds to a record; it never lifts the marker of
    the trash. *)
Definition take_xmp (x : XmpData) (a : AbstractData) : AbstractData :=
  let a := tag_mut (fun tags => tags ∪ x_tags x) a in
  let a := match get_description a with None => set_description (x_description x) a | Some _ => a end in
  let a := match get_rating a with None => set_rating (x_rating x) a | Some _ => a end in
  if x_trashed x then set_trashed true a else a.
Definition source_path (a : AbstractData) : Path := components (source_path_string a).
Definition fields_map (fields : list (str * str)) : gmap str str :=
  foldl (fun m kv => <[kv.1 := kv.2]> m) ∅ fields.
(** The matches of [(.*?)=(.*?)\n]: the lines that end and hold an equals sign. *)
Fixpoint split_first (sep : N) (s : str) : option (str * str) :=
  match s with
  | [] => None
  | c :: s => if c =? sep then Some ([], s) else kv ← split_first sep s; Some (c :: kv.1, kv.2)
  end.
Definition probe_pairs (text : str) : list (str * str) := omap (split_first 61) (removelast (split_on 10 text)).

Section Pipeline.
Context {Io_ : IoFaults} {Xk : XmpKit} {Pi : Pictures} {De : Decoders} {Pg : Programs} {Df : DebugFmt} {Db : Doubles} {Ss : Stats}.
Context {Tc : TokenCodec}.
Variable data_home : Path.
Variable process_id seq : N.

Definition generate_exif_for_image (a : AbstractData) (t : Files) : gmap str str * Files :=
  let '(r, t) := read (source_path a) t in
  (default ∅ (bytes ← result_ok r; fields ← primary_fields bytes; Some (fields_map fields)), t).
Definition generate_exif_for_video (a : AbstractData) (t : Files) : result Chain (gmap str str) :=
  let p := source_path_string a in
  match ffprobe [lit "-v"; lit "error"; lit "-show_format"; lit "-show_streams"; p] t with
  | Err e => Err [lit "failed to spawn ffprobe for " ++ p; e]
  | Ok out =>
      if succeeded out then
        match utf8_decode (stdout out) with
        | Some text => Ok (fields_map (probe_pairs text))
        | None => Err [lit "failed to convert ffprobe stdout to UTF" ++ 8209 :: lit "8 for " ++ p;
                       utf8_error (length (stdout out)) 0 (stdout out)]
        end
      else bail (lit "ffprobe exited with status " ++ show_Z (default (-1)%Z (status out)) ++ lit " for " ++ p)
  end.

(** The thumbnail's file; a hash shorter than two bytes would be a panic. *)
Definition thumbnail_file (a : AbstractData) : option Path :=
  if str_len (hash a) <? 2 then None else Some (push data_home (components (thumbnail_path a))).
Definition decode_image (p : Path) (t : Files) : result Chain Picture * Files :=
  let '(r, t) := read p t in
  (bytes ← with_context (lit "failed to read file into memory: " ++ path_text p) (io_chain r);
   match from_memory bytes with
   | Ok picture => Ok picture
   | Err _ => bail (lit "all decoders failed for file: " ++ path_text p)
   end, t).
Definition generate_dynamic_image (a : AbstractData) (t : Files) : result Chain Picture * Files :=
  match (if is_image a then Some (source_path a) else thumbnail_file a) with
  | None => (bail (lit "panicked"), t)
  | Some p => let '(r, t) := decode_image p t in (with_context (lit "failed to decode image: " ++ path_text p) r, t)
  end.
Definition fix_image_orientation (a : AbstractData) (p : Picture) : Picture :=
  match exif_field "Orientation" a with
  | Some o => if str_eqb o rotated_right then rotate90 p
              else if str_eqb o rotated_around then rotate180 p
              else if str_eqb o rotated_left then rotate270 p else p
  | None => p
  end.
Definition with_hashes (p : Picture) (a : AbstractData) : AbstractData :=
  set_phash (generate_phash p) (set_thumbhash (generate_thumbhash p) a).

(** A record that a step leaves unfinished keeps what was found before. *)
Definition process_image_info (a : AbstractData) (t : Files) : result Chain unit * AbstractData * Files :=
  let '(exif, t) := generate_exif_for_image a t in
  let a := exif_vec_mut (fun _ => exif) a in
  let '(x, t) := extract_xmp_data_from_file (source_path a) t in
  let a := take_xmp x a in
  match generate_dynamic_image a t with
  | (Err e, t) => (Err (lit "failed to decode image into DynamicImage" :: e), a, t)
  | (Ok p, t) =>
      let a := fix_image_width_height (set_height (picture_height p) (set_width (picture_width p) a)) in
      let p := fix_image_orientation a p in
      let a := with_hashes p a in
      let '(r, t) := generate_thumbnail_for_image data_home process_id a p seq t in
      (with_context (lit "failed to generate JPEG thumbnail for image") (map_err (fun e => [e]) r), a, t)
  end.

(** *** Video *)
Definition video_width_height (info : string) (p : str) (t : Files) : result Chain N :=
  match ffprobe [lit "-v"; lit "error"; lit "-select_streams"; lit "v:0"; lit "-show_entries"; lit "stream=" ++ lit info;
                 lit "-of"; lit "csv=p=0"; p] t with
  | Err e => Err [lit "failed to run ffprobe"; e]
  | Ok out =>
      let trimmed := trim (lossy (stdout out)) in
      if is_empty trimmed then bail (lit "ffprobe returned empty output for " ++ lit info ++ lit " of " ++ debug_str p)
      else match parse_uint u32_max trimmed with
           | Some n => Ok n
           | None => Err [lit "ffprobe returned non-numeric " ++ lit info ++ lit ": " ++ trimmed; parse_int_error trimmed]
           end
  end.
Definition generate_video_width_height (a : AbstractData) (t : Files) : result Chain (N * N) :=
  let source := source_path_string a in
  w ← with_context (lit "failed to obtain video width for " ++ debug_str source) (video_width_height "width" source t);
  h ← with_context (lit "failed to obtain video height for " ++ debug_str source) (video_width_height "height" source t);
  Ok (w, h).
Definition video_duration (p : str) (t : Files) : result Chain Double :=
  match ffprobe [lit "-v"; lit "error"; lit "-show_entries"; lit "format=duration"; lit "-of"; lit "csv=p=0"; p] t with
  | Err e => bail e
  | Ok out =>
      let trimmed := trim (lossy (stdout out)) in
      if is_empty trimmed then bail (lit "ffprobe returned empty output for " ++ debug_str p)
      else ok_or [lit "invalid float literal"] (parse_f64 trimmed)
  end.
Definition silent : list str := lit <$> ["-v"; "quiet"; "-hide_banner"; "-nostats"; "-nostdin"]%string.
(** A program that cannot write its output fails. *)
Definition run_ffmpeg (args : list str) (target : str) (not_started : string) (failed : str) (t : Files) : result Chain unit * Files :=
  match ffmpeg (silent ++ args ++ [target]) t with
  | Err e => (Err [lit not_started; e], t)
  | Ok (ran, out) =>
      let '(r, t) := match out with Some bytes => write (components target) bytes t | None => (Ok tt, t) end in
      (if succeeded ran && is_ok r then Ok tt else bail (failed ++ lit ": " ++ lossy (stderr ran)), t)
  end.
Definition generate_thumbnail_for_video (a : AbstractData) (t : Files) : result Chain unit * Files :=
  let '(w, h) := small_width_height (width a) (height a) 1280 in
  match thumbnail_file a with
  | None => (bail (lit "panicked"), t)
  | Some thumbnail =>
      match create_dir_all (pop thumbnail) t with
      | (Err e, t) => (Err [lit "failed to create parent directory for video thumbnail"; io_text e], t)
      | (Ok _, t) =>
          run_ffmpeg [lit "-y"; lit "-i"; source_path_string a; lit "-ss"; lit "0"; lit "-vframes"; lit "1"; lit "-vf";
                      lit "scale=" ++ show_N w ++ lit ":" ++ show_N h] (path_text thumbnail)
            "failed to execute ffmpeg for video thumbnail" (lit "ffmpeg thumbnail extraction failed") t
      end
  end.
Definition process_video_info (a : AbstractData) (t : Files) : result Chain unit * AbstractData * Files :=
  match generate_exif_for_video a t with
  | Err e => (Err (lit "failed to extract video metadata via ffprobe" :: e), a, t)
  | Ok exif =>
      let a := exif_vec_mut (fun _ => exif) a in
      let '(x, t) := extract_xmp_data_from_file (source_path a) t in
      let a := take_xmp x a in
      match generate_video_width_height a t with
      | Err e => (Err (lit "failed to obtain video width/height" :: e), a, t)
      | Ok (w, h) =>
          let a := fix_video_width_height (set_height h (set_width w a)) in
          match generate_thumbnail_for_video a t with
          | (Err e, t) => (Err (lit "failed to generate video thumbnail via ffmpeg" :: e), a, t)
          | (Ok _, t) =>
              match generate_dynamic_image a t with
              | (Err e, t) => (Err (lit "failed to decode first video frame into DynamicImage" :: e), a, t)
              | (Ok p, t) => (Ok tt, with_hashes p a, t)
              end
          end
      end
  end.
Definition process_media_info (a : AbstractData) (t : Files) : result Chain unit * AbstractData * Files :=
  if is_image a then process_image_info a t else process_video_info a t.

(** 25 MB, in bits. *)
Definition TARGET_SIZE_BITS : N := 209715200.
Definition metadata_of (p : Path) : Call (N * N) :=
  call (fun t => match node_at p t with
    | Some (Plain bytes) => (Ok (N.of_nat (length bytes), modified_millis p), t)
    | Some Folder => (Ok (folder_size, modified_millis p), t)
    | None => (Err NotFound, t)
    end).
Definition copy (source target : Path) : Call unit := fun t =>
  match read source t with
  | (Err e, t) => (Err e, t)
  | (Ok bytes, t) => write target bytes t
  end.
Definition generate_compressed_video (a : AbstractData) (t : Files) : result Chain unit * Files :=
  let source := source_path_string a in
  match compressed_path data_home a with
  | None => (bail (lit "panicked"), t)
  | Some target =>
      match video_duration source t with
      | Err e => (Err e, t)
      | Ok duration =>
          let bitrate := if is_positive duration then bitrate_for duration else 2000000 in
          match metadata_of (components source) t with
          | (Err e, t) => (Err [lit "failed to read source video metadata"; io_text e], t)
          | (Ok (size, _), t) =>
              if size <? TARGET_SIZE_BITS / 8 then
                let '(r, t) := copy (components source) target t in
                (with_context (lit "failed to copy small video to compressed path") (io_chain r), t)
              else
                run_ffmpeg [lit "-y"; lit "-i"; source; lit "-b:v"; show_N bitrate; lit "-maxrate"; show_N bitrate;
                            lit "-bufsize"; show_N ((bitrate * 2) mod 18446744073709551616); lit "-vf";
                            lit "scale='min(1920,iw)':min'(1080,ih)':force_original_aspect_ratio=decrease";
                            lit "-c:v"; lit "libx264"; lit "-preset"; lit "medium"; lit "-c:a"; lit "aac";
                            lit "-b:a"; lit "128k"; lit "-movflags"; lit "+faststart"] (path_text target)
                  "failed to execute ffmpeg" (lit "ffmpeg compression failed for " ++ source) t
          end
      end
  end.

(** ** The stages *)
Definition OPEN_FAIL_RETRY : nat := 3.
Definition OPEN_RETRY_DELAY_MS : N := 100.
Definition open_file (p : Path) : Call unit :=
  call (fun t => match node_at p t with Some _ => (Ok tt, t) | None => (Err NotFound, t) end).
(** [retries] more attempts may follow; the delays slept so far are kept. *)
Fixpoint open_attempts (retries : nat) (delay : N) (p : Path) (t : Files) : result Chain unit * list N * Files :=
  match open_file p t with
  | (Ok _, t) => (Ok tt, [], t)
  | (Err e, t) =>
      match retries with
      | O => (Err [lit "Failed to open file " ++ path_text p ++ lit " after 4 attempts"; io_text e], [], t)
      | S retries =>
          let '(r, slept, t) := open_attempts retries (delay * 2) p t in (r, delay :: slept, t)
      end
  end.
Definition open_file_task (p : Path) (t : Files) : result Chain unit * Files :=
  let '(r, _, t) := open_attempts OPEN_FAIL_RETRY OPEN_RETRY_DELAY_MS p t in (r, t).
Definition hash_task (p : Path) (t : Files) : result Chain str * Files :=
  let '(r, t) := read p t in
  (map_err (fun e => [lit "Failed to read file"; io_text e]) (bytes ← r; Ok (blake3_hex bytes)), t).

Record IndexOutcome := mkOutcome { data : AbstractData; outcome : result Chain unit }.
Definition index_task (a : AbstractData) (t : Files) : IndexOutcome * Files :=
  match path a with
  | None => (mkOutcome a (bail (lit "record has no path for hash: " ++ hash a)), t)
  | Some entry =>
      if negb (str_eqb (ext_type a) (lit "image") || str_eqb (ext_type a) (lit "video"))
      then (mkOutcome a (bail (lit "unsupported file type: " ++ ext_type a)), t)
      else
        let was_image := is_image a in
        match process_media_info a t with
        | (Err e, a, t) =>
            let a := set_pending true a in
            (mkOutcome a (bail (lit "failed to process " ++ ext_type a ++ lit " metadata pipeline. Hash: " ++ hash a ++
                                lit ", Path: " ++ file entry ++ lit ": " ++ chain_text e)), t)
        | (Ok _, a, t) => (mkOutcome (if was_image then a else set_pending true a) (Ok tt), t)
        end
  end.
Definition video_task (a : AbstractData) (t : Files) : AbstractData * result Chain unit * Files :=
  match generate_compressed_video a t with
  | (Ok _, t) => (set_pending false a, Ok tt, t)
  | (Err e, t) => (a, Err ((lit "video_task: video compression failed for hash: " ++ hash a) :: e), t)
  end.

(** [AbstractData::new]. *)
Definition fresh_record (now : Z) (p : Path) (h : str) (t : Files) : result Chain AbstractData * Files :=
  match path_extension (path_text p) with
  | None => (bail (lit "File has no extension: " ++ path_text p), t)
  | Some _ =>
      let '(stat, t) := metadata_of p t in
      (map_err (fun e => [e]) (new_abstract_data now (map_err io_text stat) (path_text p) h), t)
  end.
(** The rebuild's way: identity is known. *)
Definition index_media_file (now : Z) (p : Path) (h : str) (album : option str) (t : Files) : result Chain AbstractData * Files :=
  match fresh_record now p h t with
  | (Err e, t) => (Err e, t)
  | (Ok a, t) =>
      let a := match album with Some i => set_album (Some i) a | None => a end in
      match process_media_info a t with
      | (Err e, _, t) => (Err ((lit "metadata pipeline failed for " ++ path_text p) :: e), t)
      | (Ok _, a, t) => (Ok (if is_video a then set_pending true a else a), t)
      end
  end.
End Pipeline.

(** ** One file through all stages *)
(** The tables and albums, the files, and what the writer was handed. *)
Record Mill := mkMill { library : Library_; disk : Files; handed : list AbstractData }.
Definition with_library l m := mkMill l (disk m) (handed m).
Definition with_disk t m := mkMill (library m) t (handed m).
Definition hand d m := mkMill (library m) (disk m) (handed m ++ [d]).
Definition Stage (A : Type) : Type := Mill -> result Chain A * Mill.
Definition stage_bind {A B} (x : Stage A) (k : A -> Stage B) : Stage B := fun m =>
  match x m with (Ok a, m) => k a m | (Err e, m) => (Err e, m) end.
Notation "'let~' x := m 'in' k" := (stage_bind m (fun x => k))
  (at level 200, x pattern, m at level 100, k at level 200).
Definition pure {A} (r : result Chain A) : Stage A := fun m => (r, m).
Definition on_disk {A} (f : Files -> result Chain A * Files) : Stage A := fun m =>
  let '(r, t) := f (disk m) in (r, with_disk t m).

(** The albums' sidecars as they lie on the disk. *)
Definition albuminfo_on `{XmpKit} (t : Files) : Sidecars := {|
  read_albuminfo dir := match node_at (push dir [Normal (lit ".albuminfo.xmp")]) t with
                        | Some (Plain bytes) => extract_xmp_data_from_packet bytes
                        | _ => empty_xmp
                        end
|}.
(** Whether the writer takes the next operation. *)
Class Channel := { takes : nat -> result Chain unit }.

Section Workflow.
Context {Io_ : IoFaults} {Xk : XmpKit} {Pi : Pictures} {De : Decoders} {Pg : Programs} {Df : DebugFmt} {Db : Doubles} {Ss : Stats}.
Context {Tc : TokenCodec} {Fa : Fates} {Uc : Uppercase} {Nk : Nfkc} {Chn : Channel}.
Variable cfg : Paths.Config.
Variable data_home : Path.
Variable process_id seq : N.
Variable now : Z.
Variable draws : nat -> str.

Definition album_of (dir : Path) : Stage str := fun m =>
  let '(r, l) := create_dir_album (X:=albuminfo_on (disk m)) now (draws (ticks (index (library m)))) dir (library m) in
  (map_err (fun e => [e]) r, with_library l m).
(** Every level below the root; the deepest album that could be had. *)
Fixpoint ensure_levels (current : Path) (levels : Path) (deepest : option str) : Stage (option str) :=
  match levels with
  | [] => pure (Ok deepest)
  | level :: levels => fun m =>
      let current := current ++ [level] in
      let '(r, m) := album_of current m in
      ensure_levels current levels (match r with Ok i => Some i | Err _ => deepest end) m
  end.
Definition ensure_dir_albums (p : Path) : Stage (option str) :=
  match parent p with
  | None => pure (Ok None)
  | Some dir =>
      let under root := option_filter (fun r => path_starts_with dir r) root in
      match (match under (get_resolved_image_home cfg) with
             | Some root => Some root
             | None => under (get_resolved_users_home cfg)
             end) with
      | None => pure (Ok None)
      | Some root =>
          if bool_decide (dir = root) then pure (Ok None)
          else match path_strip_prefix root dir with
               | None => pure (Ok None)
               | Some relative => ensure_levels root relative None
               end
      end
  end.

Definition resolve_index_path (src : Path) : result Chain Path :=
  p ← (if is_absolute src then Ok (clean_components src)
       else match get_resolved_image_home cfg with
            | None => bail (lit "IMAGE_HOME not configured")
            | Some root => Ok (clean_components (push root src))
            end);
  let under root := is_some_and (fun r => path_starts_with p r) root in
  if negb (under (get_resolved_image_home cfg)) && negb (under (get_resolved_users_home cfg))
  then bail (lit "path outside configured roots")
  else Ok p.

Definition deduplicate_task (p : Path) (h : str) (album : option str) : Stage (option AbstractData) :=
  let~ a := on_disk (fresh_record now p h) in
  match album with
  | Some i => pure (Ok (Some (set_album (Some i) a)))
  | None =>
      match parent p with
      | None => pure (Ok (Some a))
      | Some dir => fun m =>
          let '(r, m) := album_of dir m in
          (Ok (Some (match r with Ok i => set_album (Some i) a | Err _ => a end)), m)
      end
  end.
Definition stage_index (a : AbstractData) : Stage IndexOutcome := fun m =>
  let '(o, t) := index_task data_home process_id seq a (disk m) in (Ok o, with_disk t m).
Definition stage_video (a : AbstractData) : Stage (AbstractData * result Chain unit) := fun m =>
  let '(a, r, t) := video_task data_home a (disk m) in (Ok (a, r), with_disk t m).
Definition submit_flush_insert (a : AbstractData) : Stage unit := fun m =>
  match takes (length (handed m)) with
  | Ok _ => (Ok tt, hand a m)
  | Err e => (bail (lit "writer submit failed: " ++ chain_text e), m)
  end.
Definition dir_album_of (p : Path) : Stage (option str) := fun m =>
  match (dir ← parent p; get_album_id_for_dir dir (albums (library m))) with
  | Some i => (Ok (Some i), m)
  | None => ensure_dir_albums p m
  end.
Definition process_file (p : Path) : Stage unit :=
  let~ album := dir_album_of p in
  let~ _ := on_disk (open_file_task p) in
  let~ h := on_disk (hash_task p) in
  let~ found := deduplicate_task p h album in
  match found with
  | None => pure (Ok tt)
  | Some a =>
      let~ o := stage_index a in
      let a := data o in
      if is_video a && is_ok (outcome o) then
        let~ _ := submit_flush_insert a in
        let~ v := stage_video a in
        let~ _ := submit_flush_insert v.1 in
        pure v.2
      else
        let~ _ := submit_flush_insert a in
        pure (outcome o)
  end.
Definition index_image (src : Path) : Stage unit :=
  let~ p := pure (resolve_index_path src) in process_file p.
End Workflow.

(** ** What a step leaves alone *)
(** The facts of a file that its description does not touch. *)
Definition facts (a : AbstractData) : str * str * bool * option (str * Z * Z) * option str * N * str * bool :=
  (hash a, ext_type a, is_image a, (fun e => (file e, modified e, scan_time e)) <$> path a, get_album a, size_of a, ext_of a,
   get_pending a).
Ltac by_cases a := destruct a as [[? []]|[? []]|[? []]]; cbn; try done.
Lemma facts_exif f a : facts (exif_vec_mut f a) = facts a. Proof. by_cases a. Qed.
Lemma facts_width w a : facts (set_width w a) = facts a. Proof. by_cases a. Qed.
Lemma facts_height h a : facts (set_height h a) = facts a. Proof. by_cases a. Qed.
Lemma facts_swap a : facts (swap_width_height a) = facts a. Proof. by_cases a. Qed.
Lemma facts_fix_image a : facts (fix_image_width_height a) = facts a.
Proof. unfold fix_image_width_height. repeat case_match; (done || apply facts_swap). Qed.
Lemma facts_fix_video a : facts (fix_video_width_height a) = facts a.
Proof. unfold fix_video_width_height. repeat case_match; (done || apply facts_swap). Qed.
Lemma facts_hashes `{Pictures} p a : facts (with_hashes p a) = facts a. Proof. by_cases a. Qed.
Lemma facts_trashed b a : facts (set_trashed b a) = facts a.
Proof. by destruct a as [[? [? ? ? ? ? ? ? [e|]]]|[? [? ? ? ? ? ? ? [e|]]]|[? []]]. Qed.
Lemma facts_xmp x a : facts (take_xmp x a) = facts a.
Proof.
  unfold take_xmp. set (a1 := tag_mut _ a). assert (facts a1 = facts a) as <- by (by_cases a).
  set (a2 := match get_description a1 with None => _ | Some _ => _ end).
  assert (facts a2 = facts a1) as <- by (unfold a2; case_match; [done|]; by destruct a1).
  set (a3 := match get_rating a2 with None => _ | Some _ => _ end).
  assert (facts a3 = facts a2) as <- by (unfold a3; case_match; [done|]; by destruct a2).
  destruct (x_trashed x); [apply facts_trashed|done].
Qed.
#[export] Hint Rewrite facts_exif facts_width facts_height facts_fix_image facts_fix_video @facts_hashes facts_xmp : pipeline.

(** What the user wrote about an asset. *)
Definition notes (a : AbstractData) : gset str * option str * option N * bool := (tag a, get_description a, get_rating a, is_trashed a).
Definition notes_of (x : XmpData) : gset str * option str * option N * bool := (x_tags x, x_description x, x_rating x, x_trashed x).
Lemma notes_exif f a : notes (exif_vec_mut f a) = notes a. Proof. by_cases a. Qed.
Lemma notes_width w a : notes (set_width w a) = notes a. Proof. by_cases a. Qed.
Lemma notes_height h a : notes (set_height h a) = notes a. Proof. by_cases a. Qed.
Lemma notes_swap a : notes (swap_width_height a) = notes a. Proof. by_cases a. Qed.
Lemma notes_fix_image a : notes (fix_image_width_height a) = notes a.
Proof. unfold fix_image_width_height. repeat case_match; (done || apply notes_swap). Qed.
Lemma notes_fix_video a : notes (fix_video_width_height a) = notes a.
Proof. unfold fix_video_width_height. repeat case_match; (done || apply notes_swap). Qed.
Lemma notes_hashes `{Pictures} p a : notes (with_hashes p a) = notes a. Proof. by_cases a. Qed.
Lemma notes_pending b a : notes (set_pending b a) = notes a. Proof. by_cases a. Qed.
Lemma notes_album i a : notes (set_album i a) = notes a. Proof. by_cases a. Qed.
#[export] Hint Rewrite notes_exif notes_width notes_height notes_fix_image notes_fix_video @notes_hashes notes_pending notes_album : pipeline.
(** A record that nobody has written about, of a file that has its path. *)
Definition blank (a : AbstractData) : Prop := notes a = (∅, None, None, false) /\ is_some (path a) = true.
Lemma notes_xmp x a : blank a -> notes (take_xmp x a) = notes_of x.
Proof.
  unfold blank, notes, notes_of, take_xmp. intros [Hn Hp].
  destruct a as [[[] [? ? ? ? ? ? ? [e|]]]|[[] [? ? ? ? ? ? ? [e|]]]|[[] []]]; try done; cbn in *;
    injection Hn as -> -> -> Ht; cbn; rewrite ?union_empty_l_L; destruct (x_trashed x); cbn; congruence.
Qed.

(** Calls that only look. *)
Definition calm (t t' : Files) : Prop := nodes t' = nodes t /\ cwd t' = cwd t.
#[export] Instance calm_preorder : PreOrder calm.
Proof. split; [by split|]. intros a b c [? ?] [? ?]. split; congruence. Qed.
Lemma calm_node t t' p : calm t t' -> node_at p t' = node_at p t.
Proof. intros [Hn Hc]. unfold node_at, resolve. by rewrite Hn, Hc. Qed.

Section Looking.
Context {Io_ : IoFaults} {Xk : XmpKit} {Ss : Stats} {Tc : TokenCodec}.
Lemma calm_called t : calm t (called t). Proof. by split. Qed.
Lemma calm_call {A} (body : Files -> io_result A * Files) t : (forall t, (body t).2 = t) -> calm t (call body t).2.
Proof.
  intros Hb. unfold call. destruct (io_fault _); [apply calm_called|]. specialize (Hb t).
  destruct (body t) as [r t']. cbn in *. subst. apply calm_called.
Qed.
Lemma calm_read p t : calm t (read p t).2.
Proof. apply calm_call. intros t'. by repeat case_match. Qed.
Lemma calm_open p t : calm t (open_file p t).2.
Proof. apply calm_call. intros t'. by repeat case_match. Qed.
Lemma calm_metadata p t : calm t (metadata_of p t).2.
Proof. apply calm_call. intros t'. by repeat case_match. Qed.
Lemma calm_attempts n delay p t : calm t (open_attempts n delay p t).2.
Proof.
  revert delay t. induction n as [|n IH]; intros delay t; cbn; pose proof (calm_open p t) as H;
    destruct (open_file p t) as [[?|e] t1]; try exact H.
  specialize (IH (delay * 2) t1). destruct (open_attempts n (delay * 2) p t1) as [[r slept] t2]. cbn in *. by etrans.
Qed.
Lemma calm_open_task p t : calm t (open_file_task p t).2.
Proof.
  unfold open_file_task. pose proof (calm_attempts OPEN_FAIL_RETRY OPEN_RETRY_DELAY_MS p t) as H.
  by destruct (open_attempts _ _ p t) as [[r slept] t'].
Qed.
Lemma read_content p t r t' : read p t = (r, t') ->
  match r with Ok bytes => node_at p t = Some (Plain bytes) | Err _ => io_fault (calls t) = None -> forall b, node_at p t <> Some (Plain b) end.
Proof.
  unfold read, call. destruct (io_fault (calls t)); [by intros [= <- <-]|].
  destruct (node_at p t) as [[|bytes]|]; by intros [= <- <-].
Qed.
Lemma hash_task_spec p t r t' : hash_task p t = (r, t') ->
  calm t t' /\ match r with Ok h => exists bytes, node_at p t = Some (Plain bytes) /\ h = blake3_hex bytes | Err _ => True end.
Proof.
  unfold hash_task. pose proof (calm_read p t) as Hc. destruct (read p t) as [r0 t0] eqn:Hr. intros [= <- <-].
  split; [exact Hc|]. apply read_content in Hr. destruct r0 as [bytes|e]; cbn; [by exists bytes|done].
Qed.

(** What the reader of packets finds for a file, all calls being answered. *)
Definition xmp_at (p : Path) (t : Files) : XmpData :=
  match discover_sidecar t p with
  | Some sidecar => match node_at sidecar t with Some (Plain bytes) => extract_xmp_data_from_packet bytes | _ => empty_xmp end
  | None => match node_at p t with
            | Some (Plain bytes) => match embedded p bytes with Some m => normalize m | None => empty_xmp end
            | _ => empty_xmp
            end
  end.
(** Some call on a file fails. *)
Definition file_call_fails : Prop := exists n, io_fault n <> None.
Lemma calm_xmp p t t' : calm t t' -> xmp_at p t' = xmp_at p t.
Proof.
  intros H. unfold xmp_at, discover_sidecar, exists_in. rewrite (calm_node t t') by done.
  case_match; by rewrite (calm_node t t').
Qed.
(** A record carries what its packet says, or, when a call failed on the way, nothing. *)
Definition noted (x : XmpData) (a : AbstractData) : Prop :=
  notes a = notes_of x \/ notes a = notes_of empty_xmp /\ file_call_fails.
Lemma noted_xmp p t x a : blank a -> x = xmp_at p t \/ x = empty_xmp /\ file_call_fails ->
  noted (xmp_at p t) (take_xmp x a).
Proof. intros Hb Hx. unfold noted. rewrite notes_xmp by done. by destruct Hx as [->|[-> ?]]; [left|right]. Qed.
Lemma noted_same x a a' : notes a' = notes a -> noted x a -> noted x a'.
Proof. unfold noted. by intros ->. Qed.
Lemma unread (t : Files) (P : Prop) : (io_fault (calls t) = None -> P) -> P \/ file_call_fails.
Proof. intros H. destruct (io_fault (calls t)) eqn:He; [right; exists (calls t); congruence|left; auto]. Qed.
Lemma extract_spec p t x t' : extract_xmp_data_from_file p t = (x, t') ->
  calm t t' /\ (x = xmp_at p t \/ x = empty_xmp /\ file_call_fails).
Proof.
  unfold extract_xmp_data_from_file, xmp_at. destruct (discover_sidecar t p) as [sidecar|].
  - pose proof (calm_read sidecar t) as Hc. destruct (read sidecar t) as [r t0] eqn:Hr. intros [= <- <-].
    split; [exact Hc|]. apply read_content in Hr. destruct r as [bytes|e]; [left; by rewrite Hr|].
    apply unread in Hr as [Hr|Hr]; [left|by right]. by destruct (node_at sidecar t) as [[|b]|]; [|by edestruct Hr|].
  - pose proof (calm_read p t) as Hc. destruct (read p t) as [r t0] eqn:Hr. intros [= <- <-].
    split; [exact Hc|]. apply read_content in Hr. destruct r as [bytes|e]; [left; by rewrite Hr|].
    apply unread in Hr as [Hr|Hr]; [left|by right]. by destruct (node_at p t) as [[|b]|]; [|by edestruct Hr|].
Qed.

(** A new record. *)
Lemma fresh_spec now p h t r t' : fresh_record now p h t = (r, t') ->
  calm t t' /\ match r with
  | Ok a => blank a /\ hash a = h /\ flush_path a = path_text p /\ get_pending a = false /\
            source_path_string a = path_text p /\ is_album a = false
  | Err _ => True
  end.
Proof.
  unfold fresh_record. destruct (path_extension (path_text p)) as [e|] eqn:He; [|by intros [= <- <-]].
  pose proof (calm_metadata p t) as Hc. destruct (metadata_of p t) as [stat t0]. intros [= <- <-]. split; [exact Hc|].
  unfold new_abstract_data. rewrite He. destruct stat as [[size millis]|e']; [|done]. cbn.
  unfold determine_type. case_bool_decide; (split; [done|]); by split_and!.
Qed.
End Looking.

Section Describing.
Context {Io_ : IoFaults} {Xk : XmpKit} {Pi : Pictures} {De : Decoders} {Pg : Programs} {Df : DebugFmt} {Db : Doubles} {Ss : Stats}.
Variable data_home : Path.
Variable process_id seq : N.
Lemma process_image_facts a t r a' t' : process_image_info data_home process_id seq a t = (r, a', t') -> facts a' = facts a.
Proof.
  unfold process_image_info. destruct (generate_exif_for_image a t) as [exif t1].
  destruct (extract_xmp_data_from_file _ t1) as [x t2]. destruct (generate_dynamic_image _ _ t2) as [[p|e] t3].
  - destruct (generate_thumbnail_for_image _ _ _ _ _ t3) as [r4 t4]. intros [= _ <- _]. by autorewrite with pipeline.
  - intros [= _ <- _]. by autorewrite with pipeline.
Qed.
Lemma process_video_facts a t r a' t' : process_video_info data_home a t = (r, a', t') -> facts a' = facts a.
Proof.
  unfold process_video_info. destruct (generate_exif_for_video a t) as [exif|e]; [|by intros [= _ <- _]].
  destruct (extract_xmp_data_from_file _ t) as [x t2]. destruct (generate_video_width_height _ t2) as [[w h]|e];
    [|intros [= _ <- _]; by autorewrite with pipeline].
  destruct (generate_thumbnail_for_video _ _ t2) as [[[]|e] t3]; [|intros [= _ <- _]; by autorewrite with pipeline].
  destruct (generate_dynamic_image _ _ t3) as [[p|e] t4]; intros [= _ <- _]; by autorewrite with pipeline.
Qed.
Lemma process_media_facts a t r a' t' : process_media_info data_home process_id seq a t = (r, a', t') -> facts a' = facts a.
Proof. unfold process_media_info. case_match; [apply process_image_facts|apply process_video_facts]. Qed.

(** An image, and any file that is described to the end, carries what its packet says. *)
Lemma process_media_notes a t r a' t' : blank a ->
  process_media_info data_home process_id seq a t = (r, a', t') -> is_image a = true \/ r = Ok tt ->
  noted (xmp_at (source_path a) t) a'.
Proof.
  intros Hb. assert (forall f, blank (exif_vec_mut f a)) as Hbe.
  { intros f. unfold blank. rewrite notes_exif. destruct Hb as [-> Hp]. split; [done|]. by destruct a. }
  assert (forall f, source_path (exif_vec_mut f a) = source_path a) as Hse by (intros f; by destruct a).
  unfold process_media_info. destruct (is_image a) eqn:Hi.
  - unfold process_image_info, generate_exif_for_image. pose proof (calm_read (source_path a) t) as Hc.
    destruct (read _ t) as [r0 t1]. cbv zeta. rewrite Hse.
    destruct (extract_xmp_data_from_file _ t1) as [x t2] eqn:Hx. apply extract_spec in Hx as [_ Hx].
    rewrite (calm_xmp _ t t1) in Hx by exact Hc. intros H _.
    destruct (generate_dynamic_image _ _ t2) as [[p|e] t3].
    + destruct (generate_thumbnail_for_image _ _ _ _ _ t3) as [r4 t4]. injection H as _ <- _.
      eapply noted_same; [|by apply noted_xmp; [apply Hbe|exact Hx]]. by autorewrite with pipeline.
    + injection H as _ <- _. by apply noted_xmp; [apply Hbe|].
  - intros H [?| ->]; [done|]. unfold process_video_info in H. destruct (generate_exif_for_video a t) as [exif|e]; [|done].
    cbv zeta in H. rewrite Hse in H. destruct (extract_xmp_data_from_file _ t) as [x t2] eqn:Hx.
    apply extract_spec in Hx as [_ Hx].
    destruct (generate_video_width_height _ t2) as [[w h]|e]; [|done].
    destruct (generate_thumbnail_for_video _ _ t2) as [[[]|e] t3]; [|done].
    destruct (generate_dynamic_image _ _ t3) as [[p|e] t4]; [|done]. injection H as <- _.
    eapply noted_same; [|by apply noted_xmp; [apply Hbe|exact Hx]]. by autorewrite with pipeline.
Qed.

Lemma index_task_spec a t o t' : index_task data_home process_id seq a t = (o, t') -> is_some (path a) = true -> is_album a = false ->
  get_pending a = false ->
  hash (data o) = hash a /\ flush_path (data o) = flush_path a /\ get_album (data o) = get_album a /\
  is_video (data o) = is_video a /\
  get_pending (data o) = match outcome o with Ok _ => is_video a | Err _ => true end.
Proof.
  unfold index_task. destruct (path a) as [entry|] eqn:Hp; [|done]. intros H _ Ha Hn.
  assert (str_eqb (ext_type a) (lit "image") || str_eqb (ext_type a) (lit "video") = true) as Hext by (by destruct a).
  rewrite Hext in H. cbn [negb] in H. destruct (process_media_info _ _ _ a t) as [[r a'] t1] eqn:Hm.
  apply process_media_facts in Hm as Hf. unfold facts in Hf. injection Hf as F1 F2 F3 F4 F5 _ _ F8.
  assert (is_video a' = is_video a) as Fv by (destruct a, a'; cbn in *; done).
  assert (flush_path a' = flush_path a) as Ff.
  { unfold flush_path. destruct (path a) as [e|], (path a') as [e'|]; cbn in *; congruence. }
  assert (Hset : forall b, hash (set_pending b a') = hash a' /\ flush_path (set_pending b a') = flush_path a' /\
    get_album (set_pending b a') = get_album a' /\ is_video (set_pending b a') = is_video a' /\ get_pending (set_pending b a') = b)
    by (intros b; by destruct a').
  destruct r as [[]|e]; injection H as <- <-; cbn [data outcome bail].
  - destruct (is_image a) eqn:Hi.
    + split_and!; try congruence. rewrite F8, Hn. by destruct a.
    + destruct (Hset true) as (H1 & H2 & H3 & H4 & H5). split_and!; try congruence. rewrite H5. by destruct a.
  - destruct (Hset true) as (H1 & H2 & H3 & H4 & H5). split_and!; congruence.
Qed.
End Describing.

(** ** What a run does to the files *)
(** The data directory is an absolute path of names. *)
Definition settled_home (home : Path) : Prop := exists names, Forall plain_name names /\ home = RootDir :: (Normal <$> names).
(** The directory of thumbnails and transcoded videos. *)
Definition derived_dir (home : Path) : Path := home ++ [Normal (lit "object"); Normal (lit "compressed")].
Definition derived (home k : Path) : Prop := below (derived_dir home) k = true.
(** A digest is printed in hexadecimal. *)
Definition digest (h : str) : Prop := Forall (fun c => in_range 48 57 c || in_range 97 102 c = true) h.
Class HexDigests {Tc : TokenCodec} := { blake3_digest : forall bytes, digest (blake3_hex bytes) }.

Lemma joined_pieces n ns : 47 ∉ n -> Forall (fun s => 47 ∉ s) ns ->
  split_on 47 (n ++ mjoin ((fun s => lit "/" ++ s) <$> ns)) = n :: ns.
Proof.
  intros Hn Hns. revert n Hn. induction Hns as [|m ns Hm _ IH]; intros n Hn; cbn [fmap list_fmap].
  - change (mjoin []) with (@nil N). rewrite app_nil_r. by apply split_on_none.
  - change (mjoin ((lit "/" ++ m) :: ?l)) with (47 :: m ++ mjoin l). rewrite split_on_first by done. by rewrite IH.
Qed.
Lemma plain_components names : Forall plain_name names -> names ≫= component_of = Normal <$> names.
Proof.
  induction 1 as [|n names (H0 & H1 & H2 & _) _ IH]; [done|]. cbn. rewrite IH. unfold component_of.
  destruct n; [done|]. destruct (str_eqb _ (lit ".")) eqn:E1; [by apply str_eqb_eq in E1|].
  destruct (str_eqb _ (lit "..")) eqn:E2; [by apply str_eqb_eq in E2|]. done.
Qed.
Lemma text_components names : names <> [] -> Forall plain_name names ->
  components (path_text (RootDir :: (Normal <$> names))) = RootDir :: (Normal <$> names).
Proof.
  intros Hne Hp. assert (path_text (RootDir :: (Normal <$> names)) = [] ++ mjoin ((fun s => lit "/" ++ s) <$> names)) as ->.
  { destruct names as [|n names]; [done|]. cbn [app]. change (path_text _) with
      (mjoin ((fun c => lit "/" ++ component_text c) <$> (Normal <$> (n :: names)))). by rewrite <-list_fmap_compose. }
  unfold components. rewrite joined_pieces; [|by apply not_elem_of_nil|eapply Forall_impl; [exact Hp|by intros x (_ & _ & _ & ?)]].
  destruct names as [|n names]; [done|]. by rewrite plain_components.
Qed.
Lemma digest_slash h : digest h -> 47 ∉ h.
Proof. intros H Hin. eapply Forall_forall in H; [|exact Hin]. done. Qed.
Lemma digest_plain h tail : digest h -> h <> [] -> 47 ∉ tail -> plain_name (h ++ tail).
Proof.
  intros H Hne Ht. destruct h as [|c h]; [done|]. apply Forall_cons in H as Hc. destruct Hc as [Hc _].
  split_and!; [done|by intros [= -> _]..|]. apply not_elem_of_app. by split; [apply digest_slash|].
Qed.
Lemma derived_words : plain_name (lit "object") /\ plain_name (lit "compressed").
Proof. by split; split_and!; [..|apply (bool_decide_unpack _)| | | |apply (bool_decide_unpack _)]. Qed.
Lemma relative_components h ext : digest h -> (str_len h <? 2) = false -> 47 ∉ ext ->
  components (compressed_relative h ext) = Normal <$> [lit "object"; lit "compressed"; take 2 h; h ++ ext] /\
  plain_name (take 2 h) /\ plain_name (h ++ ext).
Proof.
  intros Hd Hlen He. assert (h <> []) as Hne by (by intros ->).
  assert (plain_name (take 2 h)) as H1.
  { rewrite <-(app_nil_r (take 2 h)). apply digest_plain; [by apply Forall_take|by destruct h|by apply not_elem_of_nil]. }
  assert (plain_name (h ++ ext)) as H2 by (by apply digest_plain). split; [|done].
  assert (compressed_relative h ext = lit "object" ++ mjoin ((fun s => lit "/" ++ s) <$> [lit "compressed"; take 2 h; h ++ ext])) as ->.
  { unfold compressed_relative. change (lit "object/compressed/") with (lit "object" ++ lit "/" ++ lit "compressed" ++ lit "/").
    cbn. by rewrite app_nil_r. }
  unfold components. rewrite joined_pieces.
  - change (starts_with _ _) with false. change (str_eqb (lit "object") (lit ".")) with false.
    rewrite plain_components; [done|]. destruct derived_words. eauto using Forall_cons, Forall_nil_2.
  - by apply (bool_decide_unpack _).
  - destruct H1 as (_ & _ & _ & ?), H2 as (_ & _ & _ & ?). repeat constructor; [by apply (bool_decide_unpack _)|done..].
Qed.

Section Derived.
Context {Io_ : IoFaults} {Xk : XmpKit} {Pi : Pictures} {De : Decoders} {Pg : Programs} {Df : DebugFmt} {Db : Doubles} {Ss : Stats}.
Variable data_home : Path.
Variable process_id seq : N.
Context (Hhome : settled_home data_home).

(** A name in the directory of a hash: it leads into the derived files only. *)
Definition derived_name (p : Path) : Prop := exists dir n names, p = dir ++ [Normal n] /\ dir = RootDir :: (Normal <$> names) /\
  derived data_home dir /\ Forall plain_name names /\ plain_name n.
Lemma derived_path h ext : digest h -> (str_len h <? 2) = false -> 47 ∉ ext ->
  derived_name (push data_home (components (compressed_relative h ext))).
Proof.
  intros Hd Hl He. destruct (relative_components h ext) as (-> & H1 & H2); [done..|]. destruct Hhome as (names & Hn & Hh).
  exists (RootDir :: (Normal <$> names ++ [lit "object"; lit "compressed"; take 2 h])), (h ++ ext),
    (names ++ [lit "object"; lit "compressed"; take 2 h]). split_and!; [|done| | |done].
  - change (push ?a ?b) with (a ++ b). rewrite Hh, fmap_app. cbn. by rewrite <-app_assoc.
  - unfold derived, derived_dir. apply below_spec. exists [Normal (take 2 h)]. rewrite Hh, fmap_app. cbn. by rewrite <-app_assoc.
  - apply Forall_app. split; [done|]. destruct derived_words. eauto using Forall_cons, Forall_nil_2.
Qed.
Abbreviation kept := (frames (derived data_home)).
Lemma derived_below p : derived_name p -> exists dir n, p = dir ++ [Normal n] /\ parent p = Some dir /\ pop p = dir /\
  forall m t q, resolve (dir ++ [Normal m]) t = Some q -> derived data_home q.
Proof.
  intros (dir & n & names & -> & Hd & Hder & _). exists dir, n.
  assert (parent (dir ++ [Normal n]) = Some dir) as Hp by (unfold parent; rewrite rev_app_distr; cbn; by rewrite rev_involutive).
  split_and!; [done|done|unfold pop; by rewrite Hp|]. intros m t q Hq.
  assert (q = dir ++ [Normal m]) as ->.
  { rewrite Hd in Hq |- *. change ([Normal m]) with (Normal <$> [m]) in *. rewrite <-app_comm_cons, <-fmap_app in *.
    by apply resolve_normals in Hq. }
  unfold derived in *. apply below_spec in Hder as [r ->]. apply below_spec. exists (r ++ [Normal m]). by rewrite app_assoc.
Qed.
Lemma kept_calm t t' : calm t t' -> kept t t'.
Proof. intros [Hn Hc]. by apply frames_same. Qed.
Lemma kept_write p bytes t : derived_name p -> kept t (write p bytes t).2.
Proof. intros (dir & n & -> & _ & _ & Hq)%derived_below. apply frames_write. eauto. Qed.
Lemma kept_atomic dest content t : derived_name dest -> kept t (write_atomically process_id dest seq content t).2.
Proof.
  intros (dir & n & -> & _ & Hpop & Hq)%derived_below. unfold write_atomically, temp_path. rewrite Hpop.
  set (tmp := lit "." ++ _). assert (Hrem : forall t, kept t (attempt (remove_file (dir ++ [Normal tmp])) t)).
  { intros t0. apply frames_remove. eauto. }
  assert (Hw : forall b, kept t (write (dir ++ [Normal tmp]) b t).2) by (intros b; apply frames_write; eauto).
  set (b := match content with Ok b => b | Err _ => [] end). specialize (Hw b).
  destruct (write _ b t) as [[[]|e] t1] eqn:Hwr; cbn [snd] in Hw; [|etrans; [exact Hw|apply Hrem]].
  destruct content as [b'|e]; [|etrans; [exact Hw|apply Hrem]].
  apply write_cases in Hwr as [(_ & _ & [=])|(q & Hres & Hf & _ & Ht1)].
  assert (kept t1 (rename (dir ++ [Normal tmp]) (dir ++ [Normal n]) t1).2) as Hren.
  { destruct (resolve_name _ _ _ _ Hres) as (d & Hqd & _). apply (frames_rename _ _ _ _ _ q b); [| |by eapply Hq|eauto].
    - rewrite Ht1. rewrite <-Hres. apply resolve_same_folders; [done|]. by apply folders_put.
    - rewrite Ht1. apply lookup_insert_eq. }
  destruct (rename _ _ t1) as [[[]|e] t2]; cbn [snd] in *; [by etrans|]. etrans; [exact Hw|]. etrans; [exact Hren|apply Hrem].
Qed.
Lemma compressed_named a p : digest (hash a) -> compressed_path data_home a = Some p ->
  (p = [] /\ is_album a = true) \/ derived_name p.
Proof.
  unfold compressed_path. intros Hd. destruct (compressed_path_string a) as [rel|] eqn:Hrel; [|intros [= <-]; left; by destruct a].
  destruct (str_len (hash a) <? 2) eqn:Hl; [done|]. intros [= <-]. right.
  destruct a; [| |done]; injection Hrel as <-; apply derived_path; (done || by apply (bool_decide_unpack _)).
Qed.
Lemma kept_image_thumbnail a p t : digest (hash a) -> kept t (generate_thumbnail_for_image data_home process_id a p seq t).2.
Proof.
  intros Hd. unfold generate_thumbnail_for_image. destruct (small_width_height _ _ _) as [w h].
  destruct (compressed_path data_home a) as [dest|] eqn:Hc; [|done].
  destruct (compressed_named a dest Hd Hc) as [[-> _]|Hn]; [done|]. destruct (parent dest) as [dir|]; [|done].
  pose proof (frames_grown (derived data_home) dir t) as H. destruct (create_dir_all dir t) as [[[]|e] t1]; cbn [snd] in H; [|done].
  pose proof (kept_atomic dest (jpeg_of p w h) t1 Hn) as H2. destruct (write_atomically _ dest seq _ t1) as [r t2]. by etrans.
Qed.
Lemma kept_text p bytes t : derived_name p -> kept t (write (components (path_text p)) bytes t).2.
Proof.
  intros Hn. pose proof (kept_write p bytes t Hn) as H. destruct Hn as (dir & n & names & -> & -> & _ & Hp & Hn).
  change ([Normal n]) with (Normal <$> [n]) in *. rewrite <-app_comm_cons, <-fmap_app in *. rewrite text_components; [done|by destruct names|].
  apply Forall_app. split; [done|]. by apply Forall_singleton.
Qed.
Lemma kept_ffmpeg args p not_started failed t : derived_name p -> kept t (run_ffmpeg args (path_text p) not_started failed t).2.
Proof.
  intros Hn. unfold run_ffmpeg. destruct (ffmpeg _ t) as [[ran out]|e]; [|done].
  destruct out as [bytes|]; [|done]. pose proof (kept_text p bytes t Hn) as H. by destruct (write _ bytes t).
Qed.
Lemma thumbnail_named a p : digest (hash a) -> thumbnail_file data_home a = Some p -> derived_name p.
Proof.
  unfold thumbnail_file. intros Hd. destruct (str_len (hash a) <? 2) eqn:Hl; [done|]. intros [= <-].
  apply derived_path; (done || by apply (bool_decide_unpack _)).
Qed.
Lemma kept_video_thumbnail a t : digest (hash a) -> kept t (generate_thumbnail_for_video data_home a t).2.
Proof.
  intros Hd. unfold generate_thumbnail_for_video. destruct (small_width_height _ _ _) as [w h].
  destruct (thumbnail_file data_home a) as [p|] eqn:Hp; [|done]. apply thumbnail_named in Hp; [|done].
  pose proof (frames_grown (derived data_home) (pop p) t) as H. destruct (create_dir_all _ t) as [[[]|e] t1]; cbn [snd] in H; [|done].
  etrans; [exact H|by apply kept_ffmpeg].
Qed.
Lemma kept_compressed a t : digest (hash a) -> is_video a = true -> kept t (generate_compressed_video data_home a t).2.
Proof.
  intros Hd Hv. unfold generate_compressed_video. destruct (compressed_path data_home a) as [p|] eqn:Hp; [|done].
  destruct (compressed_named a p Hd Hp) as [[_ Ha]|Hn]; [by destruct a|].
  destruct (video_duration _ t) as [dur|e]; [|done]. cbv zeta.
  pose proof (kept_calm t _ (calm_metadata (components (source_path_string a)) t)) as Hm.
  destruct (metadata_of _ t) as [[[size ms]|e] t1]; cbn [snd] in Hm; [|done]. destruct (_ <? _).
  - unfold copy. pose proof (kept_calm t1 _ (calm_read (components (source_path_string a)) t1)) as Hr.
    destruct (read _ t1) as [[bytes|e] t2]; cbn [snd] in Hr; [|cbn; by etrans]. pose proof (kept_write p bytes t2 Hn) as Hw.
    destruct (write p bytes t2) as [r t3]. cbn in *. etrans; [exact Hm|by etrans].
  - etrans; [exact Hm|by apply kept_ffmpeg].
Qed.
Lemma calm_dynamic a t : calm t (generate_dynamic_image data_home a t).2.
Proof.
  unfold generate_dynamic_image. destruct (if is_image a then _ else _) as [p|]; [|done]. unfold decode_image.
  pose proof (calm_read p t) as H. by destruct (read p t) as [r t1].
Qed.
Lemma facts_hash a a' : facts a' = facts a -> hash a' = hash a /\ is_video a' = is_video a.
Proof. unfold facts. intros H. injection H as H1 H2 H3 _ _ _ _ _. split; [done|]. by destruct a, a'. Qed.
Lemma kept_image_info a t : digest (hash a) -> kept t (process_image_info data_home process_id seq a t).2.
Proof.
  intros Hd. unfold process_image_info, generate_exif_for_image.
  pose proof (calm_read (source_path a) t) as H1. destruct (read _ t) as [r1 t1]. cbv zeta. cbn [snd] in H1.
  destruct (extract_xmp_data_from_file _ t1) as [x t2] eqn:H2. apply extract_spec in H2 as [H2 _].
  set (a1 := take_xmp _ _). pose proof (calm_dynamic a1 t2) as H3.
  assert (kept t (generate_dynamic_image data_home a1 t2).2) as Hk by (apply kept_calm; etrans; [exact H1|by etrans]).
  clear H1 H2 H3. destruct (generate_dynamic_image _ a1 t2) as [[p|e] t3]; cbn [snd] in Hk; [|exact Hk].
  set (a2 := with_hashes _ _). assert (hash a2 = hash a) as Hh.
  { apply facts_hash. subst a2 a1. by autorewrite with pipeline. }
  pose proof (kept_image_thumbnail a2 (fix_image_orientation
    (fix_image_width_height (set_height (picture_height p) (set_width (picture_width p) a1))) p) t3 ltac:(by rewrite Hh)) as H4.
  destruct (generate_thumbnail_for_image _ _ a2 _ seq t3) as [r4 t4]. cbn [snd] in *.
  by etrans.
Qed.
Lemma kept_video_info a t : digest (hash a) -> kept t (process_video_info data_home a t).2.
Proof.
  intros Hd. unfold process_video_info. destruct (generate_exif_for_video a t) as [exif|e]; [|done].
  destruct (extract_xmp_data_from_file _ t) as [x t2] eqn:H2. apply extract_spec in H2 as [H2%kept_calm _].
  destruct (generate_video_width_height _ t2) as [[w h]|e]; [|done]. set (a2 := fix_video_width_height _).
  assert (hash a2 = hash a) as Hh. { apply facts_hash. subst a2. by autorewrite with pipeline. }
  pose proof (kept_video_thumbnail a2 t2 ltac:(by rewrite Hh)) as H3.
  destruct (generate_thumbnail_for_video _ a2 t2) as [[[]|e] t3]; cbn [snd] in *; [|by etrans].
  pose proof (kept_calm t3 _ (calm_dynamic a2 t3)) as H4. destruct (generate_dynamic_image _ a2 t3) as [[p|e] t4]; cbn [snd] in *;
    (etrans; [exact H2|by etrans]).
Qed.
Lemma kept_index_task a t : digest (hash a) -> kept t (index_task data_home process_id seq a t).2.
Proof.
  intros Hd. unfold index_task. destruct (path a); [|done]. destruct (negb _); [done|]. unfold process_media_info.
  assert (kept t (if is_image a then process_image_info data_home process_id seq a t else process_video_info data_home a t).2) as H
    by (destruct (is_image a); [by apply kept_image_info|by apply kept_video_info]).
  destruct (if is_image a then process_image_info _ _ _ a t else _) as [[r a1] t1]. by destruct r.
Qed.
Lemma kept_video_task a t : digest (hash a) -> is_video a = true -> kept t (video_task data_home a t).2.
Proof.
  intros Hd Hv. unfold video_task. pose proof (kept_compressed a t Hd Hv) as H.
  by destruct (generate_compressed_video _ a t) as [[[]|e] t1].
Qed.
End Derived.

(** ** What a run hands to the writer *)
Section Runs.
Context {Io_ : IoFaults} {Xk : XmpKit} {Pi : Pictures} {De : Decoders} {Pg : Programs} {Df : DebugFmt} {Db : Doubles} {Ss : Stats}.
Context {Tc : TokenCodec} {Fa : Fates} {Uc : Uppercase} {Nk : Nfkc} {Chn : Channel}.
Variable cfg : Paths.Config.
Variable data_home : Path.
Variable process_id seq : N.
Variable now : Z.
Variable draws : nat -> str.

(** Nothing handed over, the files only looked at. *)
Definition quiet (m m' : Mill) : Prop := handed m' = handed m /\ calm (disk m) (disk m').
#[local] Instance quiet_preorder : PreOrder quiet.
Proof. split; [by intros m; split|]. intros a b c [? ?] [? ?]. split; [congruence|by etrans]. Qed.
Lemma album_of_quiet dir m : quiet m (album_of now draws dir m).2.
Proof. unfold album_of. by destruct (create_dir_album _ _ _ _). Qed.
Lemma ensure_levels_quiet levels : forall current deepest m, quiet m (ensure_levels now draws current levels deepest m).2.
Proof.
  induction levels as [|l levels IH]; intros current deepest m; cbn; [done|].
  pose proof (album_of_quiet (current ++ [l]) m) as H. destruct (album_of now draws _ m) as [r m1]. etrans; [exact H|apply IH].
Qed.
Lemma dir_album_quiet p m r m' : dir_album_of cfg now draws p m = (r, m') -> quiet m m' /\
  forall i, (dir ← parent p; get_album_id_for_dir dir (albums (library m))) = Some i -> r = Ok (Some i).
Proof.
  unfold dir_album_of. destruct (dir ← parent p; _) as [i|] eqn:Hi; [by intros [= <- <-]; split; [|intros ? [= ->]]|].
  intros H. split; [|done]. unfold ensure_dir_albums in H. destruct (parent p) as [dir|]; [|by injection H as _ <-].
  cbv zeta in H. destruct (match option_filter _ _ with Some _ => _ | None => _ end) as [root|]; [|by injection H as _ <-].
  case_bool_decide; [by injection H as _ <-|]. destruct (path_strip_prefix root dir) as [rel|]; [|by injection H as _ <-].
  pose proof (ensure_levels_quiet rel root None m) as Hq. by rewrite H in Hq.
Qed.
Lemma album_facts i a : hash (set_album i a) = hash a /\ flush_path (set_album i a) = flush_path a /\
  get_pending (set_album i a) = get_pending a /\ source_path_string (set_album i a) = source_path_string a /\
  is_album (set_album i a) = is_album a /\ (is_album a = false -> get_album (set_album i a) = i) /\
  is_some (path (set_album i a)) = is_some (path a).
Proof. destruct a; cbn; by split_and!. Qed.
Lemma dedup_spec p h album m r m' : deduplicate_task now draws p h album m = (r, m') -> quiet m m' /\
  match r with
  | Ok (Some a) => blank a /\ hash a = h /\ flush_path a = path_text p /\ get_pending a = false /\
      source_path_string a = path_text p /\ is_album a = false /\ (forall i, album = Some i -> get_album a = Some i)
  | Ok None => False
  | Err _ => True
  end.
Proof.
  unfold deduplicate_task, stage_bind, on_disk. destruct (fresh_record now p h (disk m)) as [[a|e] t] eqn:Hf;
    apply fresh_spec in Hf as [Hc Hf]; [|by intros [= <- <-]].
  destruct Hf as ((Hn & Hp) & F1 & F2 & F3 & F4 & F5).
  assert (Hset : forall i, blank (set_album i a) /\ hash (set_album i a) = h /\ flush_path (set_album i a) = path_text p /\
    get_pending (set_album i a) = false /\ source_path_string (set_album i a) = path_text p /\ is_album (set_album i a) = false /\
    get_album (set_album i a) = i).
  { intros i. destruct (album_facts i a) as (A1 & A2 & A3 & A4 & A5 & A6 & A7). unfold blank. rewrite notes_album.
    split_and!; try congruence. by apply A6. }
  destruct album as [i|].
  - intros [= <- <-]. split; [by split|]. destruct (Hset (Some i)) as (? & ? & ? & ? & ? & ? & ?).
    split_and!; try done. by intros ? [= <-].
  - destruct (parent p) as [dir|]; [|intros [= <- <-]; split; [by split|]; by split_and!].
    pose proof (album_of_quiet dir (with_disk t m)) as Hq. destruct (album_of now draws dir _) as [[i|e] m1]; intros [= <- <-].
    + split; [etrans; [|exact Hq]; by split|]. destruct (Hset (Some i)) as (? & ? & ? & ? & ? & ? & ?). by split_and!.
    + split; [etrans; [|exact Hq]; by split|]. by split_and!.
Qed.

(** The record as it enters the description, and the state it meets. *)
Lemma process_file_cases p m r m' : process_file cfg data_home process_id seq now draws p m = (r, m') ->
  (is_ok r = false /\ quiet m m') \/
  exists a bytes m1, quiet m m1 /\ node_at p (disk m) = Some (Plain bytes) /\ hash a = blake3_hex bytes /\
    blank a /\ flush_path a = path_text p /\ get_pending a = false /\ source_path_string a = path_text p /\ is_album a = false /\
    (forall dir i, parent p = Some dir -> get_album_id_for_dir dir (albums (library m)) = Some i -> get_album a = Some i) /\
    let '(o, t) := index_task data_home process_id seq a (disk m1) in
    (if is_video (data o) && is_ok (outcome o) then
      let~ _ := submit_flush_insert (data o) in
      let~ v := stage_video data_home (data o) in
      let~ _ := submit_flush_insert v.1 in
      pure v.2
    else let~ _ := submit_flush_insert (data o) in pure (outcome o)) (with_disk t m1) = (r, m').
Proof.
  unfold process_file, stage_bind at 1. destruct (dir_album_of cfg now draws p m) as [[album|e] m1] eqn:H1;
    apply dir_album_quiet in H1 as [Q1 Ha]; [|intros [= <- <-]; by left].
  unfold stage_bind at 1, on_disk at 1. pose proof (calm_open_task p (disk m1)) as Ho.
  destruct (open_file_task p (disk m1)) as [[[]|e] t2]; cbn in Ho; [|intros [= <- <-]; left; split; [done|etrans; [exact Q1|by split]]].
  unfold stage_bind at 1, on_disk at 1. destruct (hash_task p _) as [[h|e] t3] eqn:Hh; apply hash_task_spec in Hh as [C3 Hh];
    [|intros [= <- <-]; left; split; [done|etrans; [exact Q1|split; [done|by etrans]]]].
  destruct Hh as (bytes & Hb & ->). cbn [disk with_disk] in Hb, C3.
  assert (calm (disk m) t2) as C2 by (etrans; [apply Q1|exact Ho]).
  unfold stage_bind at 1. destruct (deduplicate_task _ _ _ _ _ _) as [r4 m4] eqn:H4. apply dedup_spec in H4 as [Q4 H4].
  assert (quiet m m4) as Q. { etrans; [|exact Q4]. split; [apply Q1|]. cbn. by etrans. }
  destruct r4 as [[a|]|e]; [|done|intros [= <- <-]; by left].
  destruct H4 as (Hbl & F1 & F2 & F3 & F4 & F5 & F6). intros H. right. exists a, bytes, m4.
  rewrite (calm_node (disk m) t2) in Hb by done. split_and!; try done.
  - intros dir i Hp Hi. apply F6. specialize (Ha i). rewrite Hp in Ha. cbn in Ha. specialize (Ha Hi). by injection Ha.
  - unfold stage_bind at 1, stage_index in H. destruct (index_task _ _ _ a (disk m4)) as [o t5]. exact H.
Qed.

Lemma submit_cases a m r m' : submit_flush_insert a m = (r, m') ->
  match r with Ok _ => m' = hand a m | Err _ => m' = m end.
Proof. unfold submit_flush_insert. by destruct (takes _); intros [= <- <-]. Qed.
Lemma video_cases a m r m' : stage_video data_home a m = (r, m') ->
  handed m' = handed m /\ exists v, r = Ok v /\ v.1 = (match v.2 with Ok _ => set_pending false a | Err _ => a end).
Proof.
  unfold stage_video, video_task. destruct (generate_compressed_video data_home a (disk m)) as [[[]|e] t];
    intros [= <- <-]; split; try done; by eexists.
Qed.

(** What a run hands over is a record of that file: its path, the hash of its content and
    the album that is known for its directory.  A run that answers has handed over a
    finished record last, a video's twice; a run that fails has handed over placeholders
    at most. *)
Theorem process_file_hands_over p m r m' : process_file cfg data_home process_id seq now draws p m = (r, m') ->
  exists out, handed m' = handed m ++ out /\
    Forall (fun a => flush_path a = path_text p /\
      (exists bytes, node_at p (disk m) = Some (Plain bytes) /\ hash a = blake3_hex bytes) /\
      forall dir i, parent p = Some dir -> get_album_id_for_dir dir (albums (library m)) = Some i -> get_album a = Some i) out /\
    match r with
    | Ok _ => exists a, last out = Some a /\ get_pending a = false /\ length out = (if is_video a then 2 else 1)%nat
    | Err _ => Forall (fun a => get_pending a = true) out /\ (length out <= 2)%nat
    end.
Proof.
  intros H. apply process_file_cases in H as [[Hr [Hh _]]|(a & bytes & m1 & Q & Hb & Hhash & Hbl & F2 & F3 & F4 & F5 & F6 & H)].
  { exists []. rewrite app_nil_r. split; [done|]. split; [constructor|]. destruct r; [done|]. split; [constructor|cbn; lia]. }
  destruct (index_task _ _ _ a (disk m1)) as [o t] eqn:Ho. apply index_task_spec in Ho as (I1 & I2 & I3 & I4 & I5);
    [|by destruct Hbl|done|done].
  assert (Hgood : forall d, hash d = hash a -> flush_path d = flush_path a -> get_album d = get_album a ->
    flush_path d = path_text p /\ (exists bytes, node_at p (disk m) = Some (Plain bytes) /\ hash d = blake3_hex bytes) /\
    forall dir i, parent p = Some dir -> get_album_id_for_dir dir (albums (library m)) = Some i -> get_album d = Some i).
  { intros d H1 H2 H3. split; [congruence|]. split; [exists bytes; by rewrite H1|]. intros dir i Hp Hi. rewrite H3. by apply (F6 dir). }
  assert (handed (with_disk t m1) = handed m) as Hm by apply Q.
  destruct (is_video (data o) && is_ok (outcome o)) eqn:Hv; unfold stage_bind at 1 in H;
    destruct (submit_flush_insert (data o) _) as [[[]|e] m2] eqn:Hs; apply submit_cases in Hs as ->.
  - apply andb_prop in Hv as [Hv Hok]. destruct (outcome o) as [|]; [|done].
    unfold stage_bind at 1 in H. destruct (stage_video data_home (data o) _) as [r3 m3] eqn:H3.
    apply video_cases in H3 as [H3 (v & -> & Hv1)]. unfold stage_bind at 1 in H.
    assert (Hfin : hash v.1 = hash a /\ flush_path v.1 = flush_path a /\ get_album v.1 = get_album a /\ is_video v.1 = true /\
      get_pending v.1 = match v.2 with Ok _ => false | Err _ => true end).
    { rewrite Hv1. destruct (v.2); [|split_and!; congruence]. rewrite <-I1, <-I2, <-I3. by destruct (data o). }
    destruct Hfin as (V1 & V2 & V3 & V4 & V5).
    destruct (submit_flush_insert v.1 m3) as [[[]|e] m4] eqn:Hs; apply submit_cases in Hs as ->; injection H as <- <-.
    + exists [data o; v.1]. cbn [handed hand]. rewrite H3. cbn [handed hand]. rewrite Hm, <-app_assoc. split; [done|].
      split; [repeat constructor; apply Hgood; congruence|]. destruct (v.2) as [|].
      * exists v.1. by rewrite V4.
      * split; [|cbn; lia]. repeat constructor; congruence.
    + exists [data o]. rewrite H3. cbn [handed hand]. rewrite Hm. split; [done|].
      split; [repeat constructor; apply Hgood; congruence|]. split; [repeat constructor; congruence|cbn; lia].
  - injection H as <- <-. exists []. rewrite app_nil_r. split; [done|]. split; [constructor|]. split; [constructor|cbn; lia].
  - injection H as <- <-. exists [data o]. cbn [handed hand]. rewrite Hm. split; [done|].
    split; [repeat constructor; apply Hgood; congruence|]. destruct (outcome o) as [|].
    + exists (data o). cbn in Hv. rewrite andb_true_r in Hv. rewrite Hv. split_and!; [done|congruence|done].
    + split; [repeat constructor; congruence|cbn; lia].
  - injection H as <- <-. exists []. rewrite app_nil_r. split; [done|]. split; [constructor|]. split; [constructor|cbn; lia].
Qed.

(** *** What the user wrote *)
Lemma index_task_notes a t o t' : blank a -> is_album a = false ->
  index_task data_home process_id seq a t = (o, t') -> is_image a = true \/ outcome o = Ok tt ->
  noted (xmp_at (source_path a) t) (data o).
Proof.
  intros Hb Ha. unfold index_task. destruct (path a) as [entry|] eqn:Hp; [|by destruct Hb as [_ Hb]; rewrite Hp in Hb].
  assert (str_eqb (ext_type a) (lit "image") || str_eqb (ext_type a) (lit "video") = true) as -> by (by destruct a). cbn [negb].
  destruct (process_media_info _ _ _ a t) as [[r a'] t1] eqn:Hm.
  destruct r as [[]|e]; intros [= <- <-]; cbn [data outcome]; intros Hok.
  - pose proof (process_media_notes data_home process_id seq a t (Ok tt) a' t1 Hb Hm (or_intror eq_refl)) as Hn.
    destruct (is_image a); [done|]. eapply noted_same; [apply notes_pending|done].
  - destruct Hok as [Hi|]; [|done]. eapply noted_same; [apply notes_pending|].
    exact (process_media_notes data_home process_id seq a t (Err e) a' t1 Hb Hm (or_introl Hi)).
Qed.
Lemma xmp_of_sidecar p t bytes : with_extension_xmp p <> [] -> node_at (with_extension_xmp p) t = Some (Plain bytes) ->
  xmp_at p t = extract_xmp_data_from_packet bytes.
Proof.
  intros Hne Hn. unfold xmp_at, discover_sidecar, exists_in. rewrite Hn. destruct (with_extension_xmp p) eqn:He; [done|].
  cbn [is_empty negb andb is_some]. by rewrite Hn.
Qed.
Lemma handed_notes p m r m' : process_file cfg data_home process_id seq now draws p m = (r, m') ->
  exists out, handed m' = handed m ++ out /\
    Forall (fun a => is_video a = false \/ r = Ok tt -> noted (xmp_at (components (path_text p)) (disk m)) a) out.
Proof.
  set (x := xmp_at (components (path_text p)) (disk m)). intros H. apply process_file_cases in H as [[Hr [He _]]|(a & bytes & m1 & Q & Hb & Hhash & Hbl & F2 & F3 & F4 & F5 & F6 & H)].
  { exists []. by rewrite app_nil_r. }
  assert (xmp_at (source_path a) (disk m1) = x) as Hxa.
  { unfold source_path. rewrite F4. apply calm_xmp, Q. }
  destruct (index_task _ _ _ a (disk m1)) as [o t] eqn:Ho. apply index_task_spec in Ho as Hs; [|by destruct Hbl|done|done].
  destruct Hs as (_ & _ & _ & Hv & _).
  assert (is_image a = true \/ outcome o = Ok tt -> noted x (data o)) as Hd.
  { intros Hc. rewrite <-Hxa. exact (index_task_notes a (disk m1) o t Hbl F5 Ho Hc). }
  assert (is_video (data o) = false -> is_image a = true) as Hi by (rewrite Hv; by destruct a).
  assert (handed (with_disk t m1) = handed m) as Hm by apply Q.
  destruct (is_video (data o) && is_ok (outcome o)) eqn:Hvo; unfold stage_bind at 1 in H;
    destruct (submit_flush_insert (data o) _) as [[[]|e] m2] eqn:Hs; apply submit_cases in Hs as ->.
  - apply andb_prop in Hvo as [Hvid Hok]. destruct (outcome o) as [[]|]; [|done].
    unfold stage_bind at 1 in H. destruct (stage_video data_home (data o) _) as [r3 m3] eqn:H3.
    apply video_cases in H3 as [H3 (v & -> & Hv1)]. unfold stage_bind at 1 in H.
    assert (noted x v.1) as Hnv.
    { apply (noted_same x (data o)); [|apply Hd; by right]. rewrite Hv1. destruct v.2; [apply notes_pending|done]. }
    destruct (submit_flush_insert v.1 m3) as [[[]|e] m4] eqn:Hs; apply submit_cases in Hs as ->; injection H as <- <-.
    + exists [data o; v.1]. cbn [handed hand]. rewrite H3. cbn [handed hand]. rewrite Hm, <-app_assoc. split; [done|].
      constructor; [intros _; apply Hd; by right|]. constructor; [by intros _|constructor].
    + exists [data o]. rewrite H3. cbn [handed hand]. rewrite Hm. split; [done|]. constructor; [|constructor]. intros _. apply Hd. by right.
  - injection H as <- <-. exists []. by rewrite app_nil_r.
  - injection H as <- <-. exists [data o]. cbn [handed hand]. rewrite Hm. split; [done|]. constructor; [|constructor].
    intros [Hn|Hn]; apply Hd; auto.
  - injection H as <- <-. exists []. by rewrite app_nil_r.
Qed.

(** *** In the tables *)
Lemma flush_last ds : forall l l' q, (forall n, reads_work (fate n)) -> consistent (index l) -> ds <> [] ->
  Forall (fun a => flush_path a = q) ds ->
  (forall n, str_len (draws n) <= 64) -> Inj (=) (=) draws ->
  (forall n, (ticks (index l) <= n)%nat -> by_id (index l) !! draws n = None) ->
  flush_inserts now draws ds l = Ok l' ->
  exists i a, last ds = Some a /\ by_path (index l') !! q = Some i /\
    (forall j, by_path (index l) !! q = Some j -> i = j) /\
    by_id (index l') !! i = Some (Some (flushed_record now i a)) /\ payloads (index l') !! i = Some (to_metadata_record a).
Proof.
  induction ds as [|a ds IH]; intros l l' q Hr Hok Hne Hq Hlen Hinj Hfresh; [done|]. apply Forall_cons in Hq as [Ha Hq].
  cbn [flush_inserts]. pose proof (flush_insert_cases Hr now (draws (ticks (index l))) a l Hok) as [Hc Ht].
  destruct (flush_insert now _ a l) as [l1|l1] eqn:Hf; [|done]. cbn [mbind result_bind]. destruct Hc as [Hix _].
  specialize (Ht l1 eq_refl). set (i := id_for (draws (ticks (index l))) a (index l)) in *.
  assert (forall j, by_path (index l) !! q = Some j -> i = j) as Hi by (intros j Hj; unfold i, id_for; by rewrite Ha, Hj).
  destruct ds as [|b ds].
  - intros [= <-]. exists i, a. rewrite Hix. cbn [by_id by_path payloads]. rewrite <-Ha at 1. rewrite !lookup_insert_eq. by split_and!.
  - intros Hfs. edestruct (IH l1 l' q Hr) as (j & d & Hl & Hp & Hk & Hid & Hpl); try done.
    + eapply (flush_insert_consistent Hr); [exact Hok|apply Hlen|by apply Hfresh|exact Hf].
    + intros n Hn. rewrite Hix. cbn [by_id]. rewrite lookup_insert_ne; [apply Hfresh; lia|].
      unfold i, id_for. rewrite Ha. destruct (by_path (index l) !! q) as [j|] eqn:Hp; cbn.
      * intros ->. apply (ok_paths _ _ _ _ Hok) in Hp as (r & Hr' & _). rewrite Hfresh in Hr' by lia. done.
      * intros He%Hinj. lia.
    + exists j, d. split_and!; try done. intros k Hk'. rewrite <-(Hi k Hk'). apply Hk. rewrite Hix. cbn [by_path].
      by rewrite <-Ha, lookup_insert_eq.
Qed.

(** C8: A scan that answers, and whose records the writer stores, leaves the file's path with
    the identifier it had, and under it a finished record with the hash of the content
    and what the packet beside or in the file says; when a call on a file fails, the
    packet may be taken for empty and its tags, description, rating and trash mark are
    missing from the record.  A scan that fails stores nothing or a placeholder under
    that identifier.  Provided the writer can read its tables, they are consistent, and
    the identifiers drawn are new, different and at most 64 bytes long. *)
Theorem scan_is_stored p m r m' l' : (forall n, reads_work (fate n)) ->
  consistent (index (library m')) -> (forall n, str_len (draws n) <= 64) -> Inj (=) (=) draws ->
  (forall n, (ticks (index (library m')) <= n)%nat -> by_id (index (library m')) !! draws n = None) ->
  handed m = [] -> process_file cfg data_home process_id seq now draws p m = (r, m') ->
  flush_inserts now draws (handed m') (library m') = Ok l' ->
  (is_ok r = false /\ l' = library m') \/
  exists i a bytes, node_at p (disk m) = Some (Plain bytes) /\ hash a = blake3_hex bytes /\
    by_path (index l') !! path_text p = Some i /\
    (forall j, by_path (index (library m')) !! path_text p = Some j -> i = j) /\
    by_id (index l') !! i = Some (Some (flushed_record now i a)) /\ payloads (index l') !! i = Some (to_metadata_record a) /\
    get_pending a = negb (is_ok r) /\
    (is_ok r = true -> noted (xmp_at (components (path_text p)) (disk m)) a).
Proof.
  intros Hr Hok Hlen Hinj Hfresh Hm H Hf.
  destruct (process_file_hands_over _ _ _ _ H) as (out & Ho & Hall & Hres).
  destruct (handed_notes _ _ _ _ H) as (out' & Ho' & Hn). rewrite Hm in Ho, Ho'. cbn in Ho, Ho'.
  rewrite Ho in Ho', Hf. subst out'. destruct out as [|b out].
  { left. injection Hf as <-. split; [|done]. destruct r; [by destruct Hres as (? & ? & _)|done]. }
  right. edestruct (flush_last (b :: out) (library m') l' (path_text p)) as (i & a & Hl & Hp & Hk & Hid & Hpl); try done.
  { eapply Forall_impl; [exact Hall|]. by intros a (? & _). }
  assert (a ∈ b :: out) as Hin by by apply last_Some_elem_of.
  rewrite Forall_forall in Hall, Hn. destruct (Hall a Hin) as (_ & (bytes & Hb & Hha) & _).
  exists i, a, bytes. split_and!; try done.
  - destruct r as [[]|e]; cbn.
    + destruct Hres as (d & Hd & Hp' & _). congruence.
    + destruct Hres as [Hp' _]. rewrite Forall_forall in Hp'. by apply Hp'.
  - intros Hrok. apply Hn; [done|]. right. by destruct r as [[]|].
Qed.

(** Indexing a file writes, of all files, only those of the directory of thumbnails and
    transcoded videos. *)
Lemma kept_process_file {Hx : HexDigests} p m r m' : settled_home data_home ->
  process_file cfg data_home process_id seq now draws p m = (r, m') -> frames (derived data_home) (disk m) (disk m').
Proof.
  intros Hh H. apply process_file_cases in H as [[_ [_ Hq]]|(a & bytes & m1 & [_ Q] & Hb & Hhash & Hbl & F2 & F3 & F4 & F5 & F6 & H)].
  { by apply kept_calm. }
  assert (digest (hash a)) as Hd by (rewrite Hhash; apply blake3_digest).
  pose proof (kept_index_task data_home process_id seq Hh a (disk m1) Hd) as Hi.
  destruct (index_task _ _ _ a (disk m1)) as [o t] eqn:Ho. apply index_task_spec in Ho as (I1 & _ & _ & I4 & _);
    [|by destruct Hbl|done|done]. cbn [snd] in Hi.
  assert (frames (derived data_home) (disk m) t) as H0 by (etrans; [by apply kept_calm|exact Hi]).
  destruct (is_video (data o) && is_ok (outcome o)) eqn:Hv; unfold stage_bind at 1 in H;
    destruct (submit_flush_insert (data o) _) as [[[]|e] m2] eqn:Hs; apply submit_cases in Hs as ->;
    [|by injection H as _ <-..].
  apply andb_prop in Hv as [Hv _]. unfold stage_bind at 1, stage_video in H.
  pose proof (kept_video_task data_home Hh (data o) t ltac:(by rewrite I1) Hv) as H1.
  cbn [disk hand with_disk] in H. destruct (video_task data_home (data o) t) as [[a3 r3] t3]. cbn [snd] in H1.
  unfold stage_bind at 1 in H. destruct (submit_flush_insert _ _) as [[[]|e] m4] eqn:Hs; apply submit_cases in Hs as ->;
    injection H as _ <-; by etrans.
Qed.
Lemma kept_index_image {Hx : HexDigests} src m r m' : settled_home data_home ->
  index_image cfg data_home process_id seq now draws src m = (r, m') -> frames (derived data_home) (disk m) (disk m').
Proof.
  intros Hh. unfold index_image, stage_bind, pure. destruct (resolve_index_path cfg src); [by apply kept_process_file|by intros [= _ <-]].
Qed.
End Runs.

(** ** Sizes *)
(** Turning a picture by a right angle swaps its sides. *)
Class DecoderLaws `{De : Decoders} := {
  rotate90_size p : picture_width (rotate90 p) = picture_height p /\ picture_height (rotate90 p) = picture_width p;
  rotate180_size p : picture_width (rotate180 p) = picture_width p /\ picture_height (rotate180 p) = picture_height p;
  rotate270_size p : picture_width (rotate270 p) = picture_height p /\ picture_height (rotate270 p) = picture_width p
}.
Section Sizes.
Context {Io_ : IoFaults} {Xk : XmpKit} {Pi : Pictures} {De : Decoders} {Dl : DecoderLaws}.
Variable data_home : Path.
Variable process_id seq : N.
Lemma oriented_size a p : is_image a = true -> width a = picture_width p -> height a = picture_height p ->
  width (fix_image_width_height a) = picture_width (fix_image_orientation a p) /\
  height (fix_image_width_height a) = picture_height (fix_image_orientation a p).
Proof.
  intros Hi Hw Hh. unfold fix_image_width_height, fix_image_orientation. destruct (exif_field "Orientation" a) as [o|]; [|done].
  assert (width (swap_width_height a) = height a /\ height (swap_width_height a) = width a) as [S1 S2] by (by destruct a).
  destruct (rotate90_size p) as [A1 A2], (rotate180_size p) as [B1 B2], (rotate270_size p) as [C1 C2].
  destruct (str_eqb o rotated_right) eqn:H1; cbn [orb]; [by rewrite S1, S2, A1, A2|].
  destruct (str_eqb o rotated_around) eqn:H2.
  - apply str_eqb_eq in H2 as ->. assert (str_eqb rotated_around rotated_left = false) as -> by done. by rewrite B1, B2.
  - destruct (str_eqb o rotated_left); [by rewrite S1, S2, C1, C2|done].
Qed.
Lemma orientation_kept a b p : exif_vec a = exif_vec b -> fix_image_orientation a p = fix_image_orientation b p.
Proof. unfold fix_image_orientation, exif_field. by intros ->. Qed.

(** The recorded width and height of a described image are those of the picture as it is
    shown, turned the way its EXIF data says; its hashes are that picture's. *)
Theorem recorded_size_is_oriented a t a' t' : is_image a = true ->
  process_image_info data_home process_id seq a t = (Ok tt, a', t') ->
  exists bytes p, from_memory bytes = Ok p /\
    let shown := fix_image_orientation a' p in
    width a' = picture_width shown /\ height a' = picture_height shown /\ get_thumbhash a' = Some (generate_thumbhash shown).
Proof.
  intros Hi. unfold process_image_info. destruct (generate_exif_for_image a t) as [exif t1].
  destruct (extract_xmp_data_from_file _ t1) as [x t2].
  set (a1 := take_xmp x _). assert (is_image a1 = true) as Hi1.
  { unfold a1. pose proof (facts_xmp x (exif_vec_mut (fun _ => exif) a)) as H. rewrite facts_exif in H. unfold facts in H. injection H as _ _ H _ _ _ _ _. congruence. }
  destruct (generate_dynamic_image _ a1 t2) as [[p|e] t3] eqn:Hg; [|done].
  destruct (generate_thumbnail_for_image _ _ _ _ _ t3) as [r4 t4]. intros [= _ <- _].
  assert (exists bytes, from_memory bytes = Ok p) as [bytes Hb].
  { unfold generate_dynamic_image, decode_image in Hg. rewrite Hi1 in Hg. destruct (read (source_path a1) t2) as [[bytes|e] t5]; [|done].
    cbn in Hg. destruct (from_memory bytes) as [q|e] eqn:Hq; [|done]. exists bytes. cbn in Hg. by injection Hg as -> _. }
  exists bytes, p. split; [done|]. cbv zeta.
  set (a2 := set_height _ _). assert (is_image a2 = true /\ width a2 = picture_width p /\ height a2 = picture_height p) as (I2 & W2 & H2).
  { unfold a2. by destruct a1. }
  destruct (oriented_size a2 p I2 W2 H2) as [Hw Hh].
  assert (forall q, exif_vec (with_hashes q (fix_image_width_height a2)) = exif_vec a2) as He.
  { intros q. unfold fix_image_width_height. by repeat case_match; destruct a2. }
  assert (forall b q, width (with_hashes q b) = width b /\ height (with_hashes q b) = height b /\
                      get_thumbhash (with_hashes q b) = Some (generate_thumbhash q)) as Hk by (intros b q; destruct b; by split_and!).
  rewrite (orientation_kept _ a2 p (He _)). rewrite (orientation_kept (fix_image_width_height a2) a2 p).
  - destruct (Hk (fix_image_width_height a2) (fix_image_orientation a2 p)) as (-> & -> & ->). by split_and!.
  - unfold fix_image_width_height. by repeat case_match; destruct a2.
Qed.
End Sizes.

(** ** Two ways to a record *)
Section TwoWays.
Context {Io_ : IoFaults} {Xk : XmpKit} {Pi : Pictures} {De : Decoders} {Pg : Programs} {Df : DebugFmt} {Ss : Stats}.
Variable data_home : Path.
Variable process_id seq : N.
Definition in_album (album : option str) (a : AbstractData) : AbstractData :=
  match album with Some i => set_album (Some i) a | None => a end.

(** C38: The rebuild and the incremental index describe a file alike: one of them succeeds
    exactly when the other does, with the same record and the same files behind it. *)
Theorem rebuild_is_index now p h album t a t' :
  index_media_file data_home process_id seq now p h album t = (Ok a, t') <->
  exists a0 t0, fresh_record now p h t = (Ok a0, t0) /\
    index_task data_home process_id seq (in_album album a0) t0 = (mkOutcome a (Ok tt), t').
Proof.
  unfold index_media_file. destruct (fresh_record now p h t) as [[a0|e] t0] eqn:Hf.
  2: { split; [done|]. by intros (? & ? & ? & ?). }
  apply fresh_spec in Hf as Hs. destruct Hs as (_ & (_ & Hp) & _ & _ & _ & _ & Ha).
  change (match album with Some i => set_album (Some i) a0 | None => a0 end) with (in_album album a0).
  set (b := in_album album a0).
  assert (is_some (path b) = true /\ is_album b = false) as [Hpb Hab] by (unfold b, in_album; destruct album; [by destruct a0|done]).
  assert (index_task data_home process_id seq b t0 =
    match process_media_info data_home process_id seq b t0 with
    | (Err e, b', t1) => (mkOutcome (set_pending true b') (bail (lit "failed to process " ++ ext_type (set_pending true b') ++
        lit " metadata pipeline. Hash: " ++ hash (set_pending true b') ++ lit ", Path: " ++ default [] (file <$> path b) ++
        lit ": " ++ chain_text e)), t1)
    | (Ok _, b', t1) => (mkOutcome (if is_image b then b' else set_pending true b') (Ok tt), t1)
    end) as Hi.
  { unfold index_task. destruct (path b) as [entry|]; [|done].
    assert (str_eqb (ext_type b) (lit "image") || str_eqb (ext_type b) (lit "video") = true) as -> by (by destruct b). done. }
  destruct (process_media_info _ _ _ b t0) as [[r b'] t1] eqn:Hm.
  assert (is_video b' = negb (is_image b)) as Hv.
  { apply process_media_facts in Hm. unfold facts in Hm. injection Hm as _ M2 M3 _ _ _ _ _. by destruct b, b'. }
  destruct r as [[]|e].
  - rewrite Hv. split.
    + intros [= <- <-]. exists a0, t0. split; [done|]. fold b. rewrite Hi. by destruct (is_image b).
    + intros (a1 & t2 & [= <- <-] & H). fold b in H. rewrite Hi in H. injection H as <- <-. by destruct (is_image b).
  - split; [done|]. intros (a1 & t2 & [= <- <-] & H). fold b in H. by rewrite Hi in H.
Qed.
End TwoWays.

(** ** Opening and resolving *)
Section Opening.
Context {Io_ : IoFaults}.
Definition call_fails (t : Files) (n : nat) : bool := is_some (io_fault (calls t + n)).
Lemma open_step p t : open_file p t =
  (if call_fails t 0 then Err (OtherIo (default [] (io_fault (calls t)))) else if is_some (node_at p t) then Ok tt else Err NotFound,
   called t).
Proof.
  unfold open_file, call, call_fails. rewrite Nat.add_0_r. destruct (io_fault (calls t)); [done|]. by destruct (node_at p t).
Qed.

Definition fails (p : Path) (t : Files) (n : nat) : bool := call_fails t n || negb (is_some (node_at p t)).
Fixpoint doubling (n : nat) (delay : N) : list N := match n with O => [] | S n => delay :: doubling n (delay * 2) end.
Lemma attempts_spec p retries : forall delay t, exists n r,
  open_attempts retries delay p t = (r, take n (doubling retries delay), Nat.iter (S n) called t) /\
  (n <= retries)%nat /\ (forall i, (i < n)%nat -> fails p t i = true) /\
  match r with Ok _ => fails p t n = false | Err _ => n = retries /\ fails p t n = true end.
Proof.
  induction retries as [|k IH]; intros delay t; cbn [open_attempts]; rewrite open_step;
    destruct (call_fails t 0) eqn:Hc; destruct (is_some (node_at p t)) eqn:Hx.
  all: try (eexists 0%nat, (Ok tt); split; [done|]; split; [lia|]; split; [lia|]; unfold fails; by rewrite Hc, Hx).
  all: try (eexists 0%nat, _; split; [done|]; split; [lia|]; split; [lia|]; split; [done|]; unfold fails; by rewrite Hc, ?Hx).
  all: destruct (IH (delay * 2) (called t)) as (n & r & He & Hn & Hf & Hr); rewrite He; exists (S n), r.
  all: assert (forall j, fails p (called t) j = fails p t (S j)) as Hs
    by (intros j; unfold fails, call_fails; cbn; by replace (calls t + S j)%nat with (S (calls t + j)) by lia).
  all: split; [f_equal; cbn [take doubling]; by rewrite <-Nat.iter_succ_r|]; split; [lia|].
  all: split; [intros [|i] Hi; [unfold fails; by rewrite Hc, ?Hx|specialize (Hf i ltac:(lia)); by rewrite Hs in Hf]|].
  all: destruct r; [by rewrite Hs in Hr|]; destruct Hr as [-> Hr]; rewrite Hs in Hr; by split.
Qed.

(** Opening a file ends after four attempts at most, at 0, 100, 300 and 700
    milliseconds; it succeeds at the first attempt that is answered while the file is
    there, and fails only when none of the four is. *)
Theorem open_retries p t : exists n r,
  open_attempts OPEN_FAIL_RETRY OPEN_RETRY_DELAY_MS p t = (r, take n [100; 200; 400], Nat.iter (S n) called t) /\
  (n <= 3)%nat /\ (forall i, (i < n)%nat -> fails p t i = true) /\
  match r with Ok _ => fails p t n = false | Err _ => n = 3%nat /\ fails p t n = true end.
Proof. apply (attempts_spec p OPEN_FAIL_RETRY OPEN_RETRY_DELAY_MS t). Qed.
End Opening.

Lemma clean_no_parents p : ParentDir ∉ clean_components p /\ CurDir ∉ clean_components p.
Proof.
  unfold clean_components. assert (forall out, ParentDir ∉ out /\ CurDir ∉ out ->
    let r := fold_left (fun out comp => match comp with ParentDir => removelast out | CurDir => out | other => out ++ [other] end) p out in
    ParentDir ∉ r /\ CurDir ∉ r) as H; [|apply (H []); split; by intros ?%elem_of_nil].
  induction p as [|c p IH]; intros out Ho; [exact Ho|]. apply IH. destruct Ho as [H1 H2].
  assert (forall (x : Component) l, x ∈ removelast l -> x ∈ l) as Hr.
  { intros x l. induction l as [|y [|z l] IHl]; cbn; [done|by intros ?%elem_of_nil|]. set_solver. }
  destruct c; set_solver.
Qed.
(** What is handed in for indexing names, once resolved, a place below one of the roots,
    without steps upwards. *)
Theorem indexed_path_is_inside cfg src p : resolve_index_path cfg src = Ok p ->
  ParentDir ∉ p /\ CurDir ∉ p /\
  exists root, (get_resolved_image_home cfg = Some root \/ get_resolved_users_home cfg = Some root) /\ path_starts_with p root = true.
Proof.
  unfold resolve_index_path. destruct (if is_absolute src then _ else _) as [q|e] eqn:Hq; [|done]. cbn.
  destruct (negb _ && negb _) eqn:Hu; [done|]. intros [= ->].
  assert (exists s, p = clean_components s) as [s ->].
  { destruct (is_absolute src); [injection Hq as <-; by eexists|]. destruct (get_resolved_image_home cfg); [injection Hq as <-; by eexists|done]. }
  destruct (clean_no_parents s). split; [done|]. split; [done|].
  apply andb_false_iff in Hu as [Hu|Hu]; apply negb_false_iff in Hu;
    [destruct (get_resolved_image_home cfg) as [root|] eqn:Hr|destruct (get_resolved_users_home cfg) as [root|] eqn:Hr]; try done;
    exists root; auto.
Qed.

(** ** Concrete runs *)
Import (hints) PathWitness HomeWitness TokenWitness XmpWitness PictureWitness SanitizeWitness.
Module PipelineWitness.
Lemma head_rev (l : list N) : head (rev l) = last l.
Proof. rewrite rev_alt. change (head (reverse l) = last l). by rewrite head_reverse. Qed.
Lemma last_rev (l : list N) : last (rev l) = head l.
Proof. rewrite rev_alt. change (last (reverse l) = head l). by rewrite last_reverse. Qed.
#[export] Instance raw_decoders : Decoders := {|
  picture_width p := default 0 (head p); picture_height p := default 0 (last p);
  rotate90 p := rev p; rotate180 p := p;
  primary_fields b := if bool_decide (b = [3; 4]) then Some [(lit "Orientation", rotated_right)] else None |}.
#[export] Instance raw_decoder_laws : DecoderLaws.
Proof. split; intros p; cbn; by rewrite ?head_rev, ?last_rev. Qed.
Definition says (out : string) : result str Ran := Ok (mkRan (Some 0%Z) (utf8_encode (lit out)) []).
Definition not_found : str := lit "No such file or directory (os error 2)".
(** A host with both programs; the duration can be asked for or not. *)
Definition host (describes transcodes : bool) : Programs := {|
  ffprobe args _ :=
    if bool_decide (lit "-show_format" ∈ args) then if describes then says "rotation=90
codec=h264
" else Err not_found
    else if bool_decide (lit "format=duration" ∈ args) then if transcodes then says "12.5" else Ok (mkRan (Some 1%Z) [] [])
    else if bool_decide (lit "stream=width" ∈ args) then says "640
" else says "480
";
  ffmpeg _ _ := Ok (mkRan (Some 0%Z) [] [], Some [5; 6]) |}.
#[export] Instance whole_numbers : Doubles := {|
  Double := N; parse_f64 s := Some (N.of_nat (length s)); is_positive d := 0 <? d; bitrate_for d := 209715200 / d |}.
#[export] Instance no_times : Stats := {| modified_millis _ := 7; folder_size := 4096 |}.
#[export] Instance open_channel : Channel := {| takes _ := Ok tt |}.
Definition at_ (s : string) : Path := components (lit s).
Definition tree : Files := mkFiles {[
  at_ "/" := Folder; at_ "/d" := Folder; at_ "/p" := Folder; at_ "/p/s" := Folder; at_ "/p/s/t" := Folder;
  at_ "/p/a.jpg" := Plain [3; 4]; at_ "/p/s/t/b.jpg" := Plain [7; 8];
  at_ "/p/s/a.jpg" := Plain [3; 4]; at_ "/p/s/a.xmp" := Plain (written (XmpWitness.photo "a b"));
  at_ "/p/v.mp4" := Plain [9; 9]; at_ "/p/v.xmp" := Plain (written (XmpWitness.photo "a b")) ]} [RootDir] 0.
Definition cfg : Paths.Config := Paths.mkConfig (Some (at_ "/p")) None.
Definition mill : Mill := mkMill (mkLib (mkIndex ∅ ∅ ∅ ∅ 0) (mkAlbums ∅ ∅)) tree [].
Definition drawn (n : nat) : str := lit "id" ++ show_N (N.of_nat n).
Definition runs (Pg : Programs) (Fa : Fates) (p : string) : result Chain unit * Mill :=
  process_file cfg (at_ "/d") 1 0 5%Z drawn (at_ p) mill.
(** The second album cannot be written. *)
Definition second_fails : Fates := {| fate n := {| fault op := match n, op with 2%nat, BeginWrite => Some (lit "disk full") | _, _ => None end |} |}.
Lemma pipe_ran {A} (x : result Chain A * Mill) : x = (x.1, x.2). Proof. by destruct x. Qed.
Definition album_at (p : string) (m : Mill) : option str := get_album_id_for_dir (at_ p) (albums (library m)).
End PipelineWitness.
Import (hints) PipelineWitness.

(** A file that lies in the root itself has no directory below it, and the run says so;
    then the root is made an album after all. *)
Theorem root_becomes_album :
  let m := (PipelineWitness.runs (PipelineWitness.host true true) all_healthy "/p/a.jpg").2 in
  (ensure_dir_albums PipelineWitness.cfg 5%Z PipelineWitness.drawn (PipelineWitness.at_ "/p/a.jpg") PipelineWitness.mill).1 = Ok None /\
  is_some (PipelineWitness.album_at "/p" m) = true /\ (get_album <$> handed m) = [PipelineWitness.album_at "/p" m].
Proof. vm_compute. by split_and!. Qed.

(** When the album of a file's directory cannot be made, the file is filed under the
    album of a directory above it. *)
Theorem failed_album_misfiles :
  let m := (PipelineWitness.runs (PipelineWitness.host true true) PipelineWitness.second_fails "/p/s/t/b.jpg").2 in
  PipelineWitness.album_at "/p/s/t" m = None /\ is_some (PipelineWitness.album_at "/p/s" m) = true /\
  (get_album <$> handed m) = [PipelineWitness.album_at "/p/s" m].
Proof. vm_compute. by split_and!. Qed.

(** A video whose transcoding fails is handed over a second time, still unfinished. *)
Theorem failed_transcode_is_flushed :
  let '(r, m) := PipelineWitness.runs (PipelineWitness.host true false) all_healthy "/p/v.mp4" in
  is_ok r = false /\ (get_pending <$> handed m) = [true; true].
Proof. vm_compute. by split. Qed.

(** A video in the trash whose probe fails once is handed over without the marker, and
    without its tags: its next flush takes it out of the trash. *)
Theorem failed_probe_untrashes :
  let '(r, m) := PipelineWitness.runs (PipelineWitness.host false true) all_healthy "/p/v.mp4" in
  x_trashed (xmp_at (PipelineWitness.at_ "/p/v.mp4") PipelineWitness.tree) = true /\
  is_ok r = false /\ (is_trashed <$> handed m) = [false] /\
  bool_decide ((tag <$> handed m) = [∅]) = true.
Proof. vm_compute. by split_and!. Qed.

(** The directory's album is known, the tables are empty. *)
Definition known_album : Mill := mkMill (mkLib (mkIndex ∅ ∅ ∅ ∅ 0) (mkAlbums {[ PipelineWitness.at_ "/p/s" := lit "A" ]} ∅)) PipelineWitness.tree [].
Definition scanned : result Chain unit * Mill :=
  process_file (Pg:=PipelineWitness.host true true) (Fa:=all_healthy) PipelineWitness.cfg (PipelineWitness.at_ "/d") 1 0 5%Z IndexWitness.draws
    (PipelineWitness.at_ "/p/s/a.jpg") known_album.
Definition stored : Library_ :=
  match flush_inserts (Fa:=all_healthy) 5%Z IndexWitness.draws (handed scanned.2) (library scanned.2) with Ok l => l | Err l => l end.
Lemma scan_is_stored_witness :
  exists i a, by_path (index stored) !! path_text (PipelineWitness.at_ "/p/s/a.jpg") = Some i /\
    payloads (index stored) !! i = Some (to_metadata_record a) /\ get_pending a = false /\
    notes a = notes_of (xmp_at (PipelineWitness.at_ "/p/s/a.jpg") PipelineWitness.tree).
Proof.
  assert (index (library scanned.2) = mkIndex ∅ ∅ ∅ ∅ 0) as Hix by (by vm_compute).
  assert (Hs : flush_inserts (Fa:=all_healthy) 5%Z IndexWitness.draws (handed scanned.2) (library scanned.2) = Ok stored).
  { unfold stored. assert (is_ok (flush_inserts (Fa:=all_healthy) 5%Z IndexWitness.draws (handed scanned.2) (library scanned.2)) = true) as H by (by vm_compute).
    by destruct (flush_inserts _ _ _ _). }
  assert (scanned.1 = Ok tt) as Hr by (by vm_compute).
  destruct (scan_is_stored (Io_:=io_healthy) (Pg:=PipelineWitness.host true true) (Fa:=all_healthy) PipelineWitness.cfg (PipelineWitness.at_ "/d") 1 0 5%Z IndexWitness.draws
    (PipelineWitness.at_ "/p/s/a.jpg") known_album scanned.1 scanned.2 stored healthy_reads) as
    [[H _]|(i & a & bytes & _ & _ & Hp & _ & _ & Hpl & Hpe & Hn)].
  - rewrite Hix. exact empty_ok.
  - exact draws_short.
  - exact draws_inj.
  - intros n _. rewrite Hix. apply lookup_empty.
  - reflexivity.
  - unfold scanned. apply surjective_pairing.
  - exact Hs.
  - exfalso. rewrite Hr in H. discriminate.
  - rewrite Hr in Hpe, Hn. exists i, a. split; [exact Hp|]. split; [exact Hpl|]. split; [exact Hpe|].
    destruct (Hn eq_refl) as [H|[_ [n Hf]]]; [exact H|]. exfalso. apply Hf. reflexivity.
Defined.
Definition described : result Chain unit * AbstractData * Files :=
  process_image_info (PipelineWitness.at_ "/d") 1 0
    (match (fresh_record 5%Z (PipelineWitness.at_ "/p/a.jpg") [3; 4] PipelineWitness.tree).1 with Ok a => a | Err _ => XmpWitness.photo "" end)
    PipelineWitness.tree.
Lemma finished {A B} (x : result Chain unit * A * B) : x.1.1 = Ok tt -> x = (Ok tt, x.1.2, x.2).
Proof. destruct x as [[r a] b]. cbn. by intros ->. Qed.
Lemma recorded_size_is_oriented_witness : exists bytes p, from_memory bytes = Ok p /\
  let shown := fix_image_orientation described.1.2 p in
  width described.1.2 = picture_width shown /\ height described.1.2 = picture_height shown /\
  get_thumbhash described.1.2 = Some (generate_thumbhash shown).
Proof.
  refine (recorded_size_is_oriented (PipelineWitness.at_ "/d") 1 0 _ PipelineWitness.tree described.1.2 described.2 _ (finished _ _));
    by vm_compute.
Defined.
Lemma indexed_path_is_inside_witness :
  resolve_index_path PipelineWitness.cfg (PipelineWitness.at_ "s/../a.jpg") = Ok (PipelineWitness.at_ "/p/a.jpg") /\
  ParentDir ∉ PipelineWitness.at_ "/p/a.jpg".
Proof.
  assert (resolve_index_path PipelineWitness.cfg (PipelineWitness.at_ "s/../a.jpg") = Ok (PipelineWitness.at_ "/p/a.jpg")) as H
    by (by vm_compute).
  split; [exact H|]. exact (proj1 (indexed_path_is_inside _ _ _ H)).
Defined.
