(* ===== verification/Upload.v ===== *)
(** * Upload: storing uploaded files ([upload] of [backend/src/router/post/post_upload.rs])

    The form is a list of parts with their client names, types, contents and
    timestamps.  Every part is checked before the first is written; each is then
    moved to a temporary name in its directory, dated, renamed and indexed by the
    pipeline of [Pipeline].  The records it hands over are written one at a time; when
    indexing fails, [wrote] says how many are by the time the handler looks.  File
    times are not kept in the tree: setting one is a call that may fail. *)

From S2P Require Import Snapshots Pipeline.
From S2P Require Import Prelude Errors Redb Password UserStore Revocations Invites LoginThrottle.
From S2P Require Import Paths Formats Model MetadataRecord AlbumUpdate DirAlbum Tokens RouterAuth IndexStore.
From S2P Require Import DirAlbumStore Accounts DataPages FileTree Sanitize Xmp SidecarEdit Thumbnails Desk Deletion.
Open Scope work_scope.

Record TempFile := mkTemp {
  tf_raw_name : option str;      (* the client's file name *)
  tf_extension : option str;     (* the extension of the part's Content-Type *)
  tf_path : option str;          (* where the server buffered it *)
  tf_bytes : list N
}.
Record UploadForm := mkForm { form_files : list TempFile; form_last_modified : list N }.
Record UploadPolicy := mkUploadPolicy {
  normalize_upload_filenames : bool; validate_upload_content : bool; use_client_timestamp_info : bool;
  upload_folder : str
}.
Inductive OnConflict := SkipExisting | RenameNew.
#[export] Instance OnConflict_eq_dec : EqDecision OnConflict.
Proof. solve_decision. Defined.

Definition DAY_MS : N := 86400000.
Definition resolve_upload_timestamp_at (client_ms : N) (use_client_timestamp : bool) (now_ms : N) : N :=
  if use_client_timestamp then N.min client_ms ((now_ms + DAY_MS) mod 18446744073709551616) else now_ms.
(** A clock before the epoch or beyond 64 bits counts as the epoch. *)
Definition resolve_upload_timestamp (now : Z) (client_ms : N) (use_client_timestamp : bool) : N :=
  let now_ms := Z.to_N now in
  resolve_upload_timestamp_at client_ms use_client_timestamp (if now_ms <? 18446744073709551616 then now_ms else 0).

Section Upload.
Context {Jc : JsonCodec} {Lh : LegacyHash} {Ca : Casing} {Cr : Crypto} {J : Jwt} {Tc : TokenCodec}.
Context {Nf : Nfc} {Df : DebugFmt} {I : Infer}.
Context {Io_ : IoFaults} {Ch : Chrono} {O : Outside}.
Context {Xk : XmpKit} {Pi : Pictures} {De : Decoders} {Pg : Programs} {Db : Doubles} {Ss : Stats}.
Context {Uc : Uppercase} {Nk : Nfkc} {Chn : Channel}.
Variable data_home : Path.
Variable process_id : N.
(** Of the [n]-th part: the identifier and the sequence number drawn, and how many of its
    records are written when a failed run is looked into. *)
Variable uuid : nat -> str.
Variable seqs : nat -> N.
Variable wrote : nat -> nat.

(** *** The checks *)
Definition get_filename (f : TempFile) : str := default [] (tf_raw_name f).
Definition get_extension (f : TempFile) : app_result str :=
  option_or_raise InvalidInput (lit "Missing or unknown file extension") (to_lowercase <$> tf_extension f).
Definition detect_upload_content (f : TempFile) : app_result (option Detection) :=
  path ← option_or_raise InvalidInput (lit "Uploaded file is empty") (tf_path f);
  or_raise IO (lit "Failed to read uploaded file for validation") (detect_from_path path).
Definition unrecognized_upload_content (name extension : str) : AppError :=
  new_error InvalidInput (lit "Uploaded file " ++ debug_str name ++ lit " is not recognized as " ++ extension).
Definition unsupported_upload_content (name detected : str) : AppError :=
  new_error InvalidInput (lit "Uploaded file " ++ debug_str name ++ lit " contains " ++ detected
    ++ lit " content, which is not supported").
Definition mismatched_upload_content (name extension detected : str) : AppError :=
  new_error InvalidInput (lit "Uploaded file " ++ debug_str name ++ lit " contains " ++ detected
    ++ lit " content, but the declared type is " ++ extension).
Definition validate_file (auto_rename : bool) (policy : UploadPolicy) (f : TempFile) : app_result unit :=
  let name := get_filename f in
  _ ← resolve_filename name auto_rename (normalize_upload_filenames policy);
  extension ← get_extension f;
  if negb (is_some (kind_for_extension extension)) then fail InvalidInput (lit "Invalid file type: " ++ extension)
  else
    found ← detect_upload_content f;
    match found with
    | None => Err (unrecognized_upload_content name extension)
    | Some (Unsupported detected) =>
        if validate_upload_content policy then Err (unsupported_upload_content name detected) else Ok tt
    | Some (Supported detected) =>
        if negb (extension_matches extension detected) && validate_upload_content policy
        then Err (mismatched_upload_content name extension (default [] (canonical_extension detected)))
        else Ok tt
    end.
Fixpoint validate_upload_batch (auto_rename : bool) (policy : UploadPolicy) (files : list TempFile) : app_result unit :=
  match files with
  | [] => Ok tt
  | f :: files' => _ ← validate_file auto_rename policy f; validate_upload_batch auto_rename policy files'
  end.

(** *** The target directory *)
Definition resolve_upload_target_dir (c : Ctx) (policy : UploadPolicy) (album : option str) : Work Path :=
  match album with
  | Some i => asks (fun d => option_or_raise InvalidInput (lit "Target album not found") (get_dir_path_for_album i (the_albums d)))
  | None =>
      let! root := hoist (option_or_raise InvalidInput
        (lit "No imagePath configured -- set one in Settings before uploading without a target album")
        (get_resolved_image_home (c_roots c))) in
      let dir := push root (components (upload_folder policy)) in
      let! made := on_files (create_dir_all dir) in
      match made with
      | Ok _ => answer dir
      | Err e => refuse IO (lit "Failed to create upload ingress folder: " ++ io_text e)
      end
  end.

(** *** Storing one part *)
Definition set_last_modified_time (p : Path) (last_modified_ms : N) : Call unit :=
  call (fun t => match node_at p t with Some _ => (Ok tt, t) | None => (Err FileTree.NotFound, t) end).
Definition settled (target : Path) (filename extension : str) (tmp : Path) (last_modified : N) (on_conflict : OnConflict)
  : Work (option Path) := fun d =>
  let base_final := push target (components (filename ++ lit "." ++ extension)) in
  let occupied := exists_in (files d) base_final in
  if occupied && bool_decide (on_conflict = SkipExisting) then (Ok None, with_files (attempt (remove_file tmp) (files d)) d)
  else
    (let! final := hoist (if occupied then find_unique_path (exists_in (files d)) base_final else Ok base_final) in
     let! dated := on_files (set_last_modified_time tmp last_modified) in
     let! _ := hoist (or_raise IO (lit "Failed to set file modification time") (map_err io_text dated)) in
     let! renamed := on_files (rename tmp final) in
     let! _ := hoist (or_raise IO (lit "Failed to rename file") (map_err io_text renamed)) in
     answer (Some final)) d.
Definition upload_tmp (target : Path) (filename id : str) : Path :=
  push target (components (filename ++ lit "-" ++ id ++ lit ".tmp")).
Definition save_file (c : Ctx) (f : TempFile) (target : Path) (filename extension : str) (last_modified : N)
    (on_conflict : OnConflict) (id : str) : Work (option Path) :=
  let tmp := upload_tmp target filename id in
  let! moved := on_files (write tmp (tf_bytes f)) in
  let! _ := hoist (or_raise IO (lit "Failed to move temporary file") (map_err io_text moved)) in
  in_pool c (settled target filename extension tmp last_modified on_conflict).

(** Whether a record names the file, as it is or below the image root. *)
Definition record_exists_for (c : Ctx) (p relative : Path) : Work bool := fun d =>
  let named (s : str) := bool_decide (components s = p) || bool_decide (components s = relative) in
  if existsb (fun t => is_some_and (fun e => named (file e)) (path (abstract_data t))) (in_memory (memory d)) then (Ok true, d)
  else
    let ix := the_index d in
    let Rd := fate (Fates:=c_fates c) (ticks ix) in
    (Ok (match (_ ← redb BeginRead; _ ← redb OpenTable; redb Iter) with
         | Ok _ => existsb (fun kv => named kv.1) (map_to_list (by_path ix))
         | Err _ => true
         end), with_index (tick ix) d).
Definition relative_src (c : Ctx) (p : Path) : Path :=
  match get_resolved_image_home (c_roots c) with
  | Some root => default p (path_strip_prefix root p)
  | None => p
  end.
(** The pipeline on the library and the files of the desk. *)
Definition index_image_of (c : Ctx) (n : nat) (p : Path) : Work (result Chain unit * list AbstractData) := fun d =>
  let '(r, m) := index_image (Fa:=c_fates c) (c_roots c) data_home process_id (seqs n) (c_now c) drawn p
                   (mkMill (library (server d)) (files d) []) in
  (Ok (r, handed m), with_files (Pipeline.disk m) (with_server (with_library (Pipeline.library m) (server d)) d)).
(** The writer on the records it was handed. *)
Definition handed_over (c : Ctx) (l : list AbstractData) : Work unit :=
  for_each l (fun a d => (Ok tt, (flush c [a] [] d).2)).
Definition indexed (c : Ctx) (n : nat) (p : Path) : Work unit :=
  let! ran := index_image_of c n p in
  let l := ran.2 in
  match ran.1 with
  | Ok _ =>
      let! _ := handed_over c l in
      let! _ := flushed c "Failed to join flush task" [] [] in
      tree_updated c "Failed to join tree update"
  | Err _ =>
      let! _ := handed_over c (take (wrote n) l) in
      let! found := record_exists_for c p (relative_src c p) in
      let! _ := handed_over c (drop (wrote n) l) in
      if found then refuse Internal (lit "Upload failed during indexing")
      else
        let! _ := (fun d => (Ok tt, with_files (attempt (remove_file p) (files d)) d)) in
        refuse InvalidInput (lit "Uploaded file could not be decoded as an image or video")
  end.
Fixpoint store_files (c : Ctx) (policy : UploadPolicy) (auto_rename : bool) (on_conflict : OnConflict) (target : Path)
    (n : nat) (parts : list (TempFile * N)) : Work unit :=
  match parts with
  | [] => answer tt
  | (f, ms) :: parts' =>
      let last_modified := resolve_upload_timestamp (c_now c) ms (use_client_timestamp_info policy) in
      let! filename := hoist (resolve_filename (get_filename f) auto_rename (normalize_upload_filenames policy)) in
      let! extension := hoist (get_extension f) in
      let! stored := save_file c f target filename extension last_modified on_conflict (uuid n) in
      let! _ := match stored with None => answer tt | Some p => indexed c n p end in
      store_files c policy auto_rename on_conflict target (S n) parts'
  end.

Definition conflict_strategy (o : option str) : app_result OnConflict :=
  match o with
  | None => Ok RenameNew
  | Some s =>
      if str_eqb s (lit "rename") then Ok RenameNew
      else if str_eqb s (lit "skip") then Ok SkipExisting
      else fail InvalidInput (lit "Unknown on_conflict value: " ++ s ++ lit "; expected skip, or rename")
  end.
Definition presigned_album (album : option str) : app_result (option str) :=
  match album with
  | Some s => Some <$> option_or_raise InvalidInput (lit "Album ID exceeds 64 bytes") (array_string s)
  | None => Ok None
  end.
Definition upload (c : Ctx) (policy : UploadPolicy) (album : option str) (on_conflict : option str)
    (auto_rename : option bool) (form : app_result UploadForm) : Work unit :=
  let! caller := caller_of c in
  let! form := hoist form in
  let! album := hoist (presigned_album album) in
  if negb (length (form_files form) =? length (form_last_modified form))%nat
  then refuse InvalidInput (lit "Mismatch between file count and timestamp count.")
  else
    let! target := resolve_upload_target_dir c policy album in
    let! _ := gate c caller None (Some target) "Upload target not writable" in
    let! strategy := hoist (conflict_strategy on_conflict) in
    let auto := default true auto_rename in
    let! _ := hoist (validate_upload_batch auto policy (form_files form)) in
    store_files c policy auto strategy target 0 (zip (form_files form) (form_last_modified form)).
End Upload.

(** ** One stored part *)

(** What a step leaves alone: the tree is one, and the file at [k] is as it was. *)
Record holds (k : Path) (b : list N) (t : Files) : Prop := { holds_tree : tree_ok t; holds_file : nodes t !! k = Some (Plain b) }.
Lemma holds_same k b t t' : nodes t' = nodes t -> cwd t' = cwd t -> holds k b t -> holds k b t'.
Proof. intros Hn Hc [H1 H2]. split; [by apply (tree_ok_same t)|by rewrite Hn]. Qed.
Lemma holds_put k b t d n c : holds k b t -> is_folder (nodes t) d = true -> is_folder (nodes t) (d ++ [Normal n]) = false ->
  k <> d ++ [Normal n] -> holds k b (called (set_nodes (<[d ++ [Normal n] := Plain c]> (nodes t)) t)).
Proof.
  intros [H1 H2] Hd Hn Hk. split; [by apply tree_ok_called, tree_ok_put|]. cbn. by rewrite lookup_insert_ne.
Qed.
Lemma holds_drop k b t q c : holds k b t -> nodes t !! q = Some (Plain c) -> k <> q ->
  holds k b (called (set_nodes (delete q (nodes t)) t)).
Proof.
  intros [H1 H2] Hq Hk. split; [apply tree_ok_called, tree_ok_drop; [done|]; unfold is_folder; by rewrite Hq|].
  cbn. by rewrite lookup_delete_ne.
Qed.

Section Stored.
Context {Io_ : IoFaults}.

(** What renaming the temporary file to its place does. *)
Lemma moved_into_place k b src dir n t qs c r t' : holds k b t -> resolve src t = Some qs ->
  nodes t !! qs = Some (Plain c) -> qs <> k -> exists_in t (dir ++ [Normal n]) = false ->
  rename src (dir ++ [Normal n]) t = (r, t') ->
  holds k b t' /\ (r = Ok tt -> exists q, resolve (dir ++ [Normal n]) t' = Some q /\ nodes t !! q = None /\
    nodes t' = <[q := Plain c]> (delete qs (nodes t))).
Proof.
  intros Hk Hs Hc Hne Hfree Hren.
  destruct (rename_to_free _ _ _ _ _ _ _ _ (holds_tree _ _ _ Hk) Hs Hc Hfree Hren) as [(Hn & Hcwd & Hr)|(q & Hq & Hn & -> & ->)].
  - split; [by apply (holds_same k b t)|]. by intros ->.
  - destruct (resolve_name _ _ _ _ Hq) as (d & -> & Hf).
    assert (is_folder (nodes t) (d ++ [Normal n]) = false) as Hfq by (unfold is_folder; by rewrite Hn).
    assert (is_folder (nodes t) qs = false) as Hfs by (unfold is_folder; by rewrite Hc).
    pose proof (folders_drop _ _ Hfs) as Hsf1.
    assert (same_folders (nodes t) (<[d ++ [Normal n] := Plain c]> (delete qs (nodes t)))) as Hsf.
    { eapply same_folders_trans; [exact Hsf1|]. apply folders_put. by rewrite <-Hsf1. }
    split.
    + assert (holds k b (called (set_nodes (delete qs (nodes t)) t))) as H1 by (by eapply holds_drop).
      eapply (holds_same k b), (holds_put k b _ d n c H1); cbn; [done|done|by rewrite <-Hsf1..|].
      intros ->. destruct Hk as [_ Hk]. congruence.
    + intros _. exists (d ++ [Normal n]). split_and!; [|done|done].
      rewrite <-Hq. by apply (resolve_same_folders _ t).
Qed.
End Stored.

Section Saved.
Context {Jc : JsonCodec} {Lh : LegacyHash} {Ca : Casing} {Cr : Crypto} {J : Jwt} {Tc : TokenCodec}.
Context {Nf : Nfc} {Df : DebugFmt} {I : Infer}.
Context {Io_ : IoFaults} {Ch : Chrono} {O : Outside}.

(** A step that keeps the file at [k] and everything but the files. *)
Definition spares (k : Path) (b : list N) (d d' : Desk) : Prop :=
  (exists t, d' = with_files t d) /\ holds k b (files d').
Lemma spares_files k b t t' d : holds k b t' -> spares k b (with_files t d) (with_files t' d).
Proof. intros H. split; [by exists t'|done]. Qed.

Lemma dated_same p ms t r t' : set_last_modified_time p ms t = (r, t') -> nodes t' = nodes t /\ cwd t' = cwd t.
Proof.
  unfold set_last_modified_time, call. destruct (io_fault (calls t)); [by intros [= <- <-]|].
  destruct (node_at p t); by intros [= <- <-].
Qed.
Lemma exists_same p t t' : nodes t' = nodes t -> cwd t' = cwd t -> exists_in t' p = exists_in t p.
Proof. intros Hn Hc. unfold exists_in, node_at, resolve. by rewrite Hn, Hc. Qed.

Lemma numbered_place (c : Path -> bool) target name p : find_unique_path c (target ++ [Normal name]) = Ok p ->
  exists n k, p = target ++ [Normal n] /\ p = numbered (target ++ [Normal name]) k /\ c p = false.
Proof.
  unfold find_unique_path. pose proof (first_from_spec (fun n => negb (c (numbered (target ++ [Normal name]) n))) 4294967294 1) as Hs.
  destruct (first_from _ _ _) as [k|]; [|done]. intros [= <-]. destruct Hs as (_ & _ & Hn%negb_true_iff & _).
  eexists _, k. split; [|by split]. unfold numbered, parent. rewrite rev_app_distr. cbn. by rewrite rev_involutive.
Qed.
Lemma free_place (c : Path -> bool) target name p :
  (if c (target ++ [Normal name]) then find_unique_path c (target ++ [Normal name]) else Ok (target ++ [Normal name])) = Ok p ->
  exists n, p = target ++ [Normal n] /\ c p = false.
Proof.
  destruct (c (target ++ [Normal name])) eqn:Hc; [|intros [= <-]; eauto].
  intros (n & k & ? & _ & ?)%numbered_place. by exists n.
Qed.

Lemma settled_cases k b target name filename extension tmp ms oc qt bytes d r d' :
  push target (components (filename ++ lit "." ++ extension)) = target ++ [Normal name] ->
  holds k b (files d) -> resolve tmp (files d) = Some qt -> nodes (files d) !! qt = Some (Plain bytes) -> qt <> k ->
  settled target filename extension tmp ms oc d = (r, d') ->
  spares k b d d' /\ (forall p, r = Ok (Some p) -> exists q, resolve p (files d') = Some q /\
    nodes (files d) !! q = None /\ nodes (files d') = <[q := Plain bytes]> (delete qt (nodes (files d)))).
Proof.
  intros Hbase Hk Hqt Hb Hne. unfold settled. rewrite Hbase. destruct (_ && _) eqn:Hocc.
  - intros [= <- <-]. split; [|done]. split; [eauto|]. cbn. unfold attempt.
    destruct (remove_file tmp (files d)) as [r t'] eqn:Hr. cbn.
    destruct (remove_cases _ _ _ _ Hr) as [[Hn Hc]|(q & c & Hq & Hc & ->)]; [by apply (holds_same k b (files d))|].
    eapply holds_drop; [done..|]. congruence.
  - clear Hocc. unfold next at 1. unfold hoist at 1. destruct (if exists_in _ _ then _ else _) as [p|e] eqn:Hp; cbn.
    2:{ intros [= <- <-]. split; [|done]. split; [exists (files d); by rewrite with_files_id|done]. }
    destruct (free_place _ _ _ _ Hp) as (n & -> & Hfree). unfold next at 1. unfold on_files at 1.
    destruct (set_last_modified_time tmp ms (files d)) as [rd t1] eqn:Hd. destruct (dated_same _ _ _ _ _ Hd) as [Hn1 Hc1].
    assert (holds k b t1) as Hk1 by (by apply (holds_same k b (files d))).
    unfold next at 1. unfold hoist at 1. destruct (map_err Failed _) as [[]|]; cbn;
      [|intros [= <- <-]; split; [|done]; split; [by exists t1|done]].
    unfold next at 1. unfold on_files at 1. cbn. destruct (rename tmp _ t1) as [rr t2] eqn:Hren.
    assert (exists_in t1 (target ++ [Normal n]) = false) as Hfree1 by (by rewrite (exists_same _ (files d))).
    assert (resolve tmp t1 = Some qt) as Hqt1 by (unfold resolve in *; by rewrite Hn1, Hc1).
    rewrite <-Hn1 in Hb. destruct (moved_into_place k b _ _ _ _ _ _ _ _ Hk1 Hqt1 Hb Hne Hfree1 Hren) as [Hk2 Hq].
    assert (spares k b d (with_files t2 d)) as Hsp by (split; [by exists t2|done]).
    unfold next. unfold hoist. destruct rr as [[]|]; cbn; intros [= <- <-]; (split; [exact Hsp|]); [|done].
    intros p [= <-]. destruct (Hq eq_refl) as (q & H1 & H2 & H3). exists q. rewrite Hn1 in H2, H3. done.
Qed.

(** *** Valid parts *)
Context {L : NfcLaws}.
Lemma media_extension_name ext : is_some (kind_for_extension ext) = true -> ext <> [] /\ 47 ∉ ext.
Proof.
  unfold kind_for_extension, find_row. intros H.
  destruct (List.find (accepts ext) SUPPORTED_FORMATS) as [row|] eqn:Hf; [|done]. apply List.find_some in Hf as [Hin Ha].
  unfold accepts in Ha. apply existsb_exists in Ha as (x & Hx & ->%str_eqb_eq).
  assert (Forall (fun e => e <> [] /\ 47 ∉ e) (SUPPORTED_FORMATS ≫= extensions)) as Hall
    by (apply (bool_decide_unpack _); by vm_compute).
  rewrite Forall_forall in Hall. apply Hall, list_elem_of_bind. exists row. by rewrite !list_elem_of_In.
Qed.
Record named_part (auto : bool) (policy : UploadPolicy) (f : TempFile) (filename extension : str) : Prop := {
  part_name : resolve_filename (get_filename f) auto (normalize_upload_filenames policy) = Ok filename;
  part_extension : get_extension f = Ok extension;
  part_stem : filename <> [] /\ Forall allowed filename;
  part_media : extension <> [] /\ 47 ∉ extension
}.
Lemma valid_part auto policy f : validate_file auto policy f = Ok tt ->
  exists filename extension, named_part auto policy f filename extension.
Proof.
  unfold validate_file. intros (filename & Hn & (ext & He & H)%bind_Ok)%bind_Ok.
  destruct (negb _) eqn:Hk in H; [done|]. apply negb_false_iff in Hk. exists filename, ext.
  split; [done..|by apply resolved_stem in Hn|by apply media_extension_name].
Qed.
Lemma valid_batch auto policy fs : validate_upload_batch auto policy fs = Ok tt <->
  Forall (fun f => validate_file auto policy f = Ok tt) fs.
Proof.
  induction fs as [|f fs IH]; [by split|]. cbn [validate_upload_batch]. rewrite Forall_cons, <-IH.
  destruct (validate_file auto policy f) as [[]|]; cbn; [tauto|]. by split; [|intros [? _]].
Qed.

(** No file of the tree has the name of the [n]-th temporary file. *)
Definition not_temporary (id : str) (k : Path) : Prop :=
  forall name, file_name k <> Some (name ++ lit "-" ++ id ++ lit ".tmp").
Lemma file_name_snoc d n : file_name (d ++ [Normal n]) = Some n.
Proof. unfold file_name. by rewrite rev_app_distr. Qed.

Lemma save_file_cases k b c f target filename extension ms oc id d r d' :
  filename <> [] /\ Forall allowed filename -> extension <> [] /\ 47 ∉ extension -> 47 ∉ id ->
  not_temporary id k -> holds k b (files d) ->
  save_file c f target filename extension ms oc id d = (r, d') ->
  spares k b d d' /\ (forall p, r = Ok (Some p) -> exists q, resolve p (files d') = Some q /\ q <> k /\
    nodes (files d') !! q = Some (Plain (tf_bytes f))).
Proof.
  intros [Hs1 Hs2] [He1 He2] Hid Htmp Hk. unfold save_file, next at 1, on_files at 1, upload_tmp.
  assert (Hpush : forall tail, (2 <= length tail)%nat -> 47 ∉ tail ->
    push target (components (filename ++ tail)) = target ++ [Normal (filename ++ tail)]) by (intros; by apply stem_entry).
  rewrite (Hpush (lit "-" ++ id ++ lit ".tmp")).
  2:{ rewrite !length_app. cbn. lia. }
  2:{ rewrite !not_elem_of_app. split_and!; [by intros ?%list_elem_of_singleton|done|]. apply (bool_decide_unpack _); by vm_compute. }
  destruct (write _ _ (files d)) as [rw t1] eqn:Hw.
  destruct (write_cases _ _ _ _ _ Hw) as [(Hn & Hc & Hr)|(q & Hq & Hf & -> & ->)].
  - unfold next, hoist. destruct rw as [[]|]; [done|]. intros [= <- <-]. split; [|done].
    split; [by exists t1|]. by apply (holds_same k b (files d)).
  - unfold next, hoist. cbn [map_err or_raise]. destruct (resolve_name _ _ _ _ Hq) as (dir & -> & Hfd).
    set (q := dir ++ [Normal _]) in *.
    assert (q <> k) as Hqk by (intros <-; destruct (Htmp filename); apply file_name_snoc).
    set (t1 := called _). assert (holds k b t1) as Hk1 by (apply holds_put; [done..|by intros ->]).
    assert (resolve (target ++ [Normal (filename ++ lit "-" ++ id ++ lit ".tmp")]) t1 = Some q) as Hq1.
    { rewrite <-Hq. apply resolve_same_folders; [done|]. by apply folders_put. }
    assert (nodes t1 !! q = Some (Plain (tf_bytes f))) as Hb by apply lookup_insert_eq.
    intros [[-> Hr]|(r0 & Hset & Hok & Hr)]%in_pool_cases.
    + split; [split; [by exists t1|done]|]. by intros p ->.
    + eapply settled_cases in Hset as [[[t ->] Hh] Hst]; [..|exact Hk1|exact Hq1|exact Hb|exact Hqk].
      2:{ apply Hpush; [rewrite length_app; destruct extension; [done|cbn; lia]|].
          rewrite not_elem_of_app. split; [by intros ?%list_elem_of_singleton|done]. }
      split; [split; [by exists t|done]|]. intros p Hp. destruct (Hst p (Hr _ Hp)) as (p' & H1 & H2 & H3).
      exists p'. split; [done|]. cbn in H2, H3 |- *. rewrite H3. split; [|apply lookup_insert_eq].
      intros ->. destruct Hk1 as [_ Hk1]. cbn in Hk1. congruence.
Qed.

(** *** Which entries a part may change *)
(** An entry of the target, or a derived file. *)
Definition landing (home : Path) (target : option Path) (k : Path) : Prop :=
  derived home k \/ exists q n, target = Some q /\ k = q ++ [Normal n].
Lemma landing_name home target n t q : resolve (target ++ [Normal n]) t = Some q -> landing home (resolve target t) q.
Proof. intros (d & Hd & _ & ->)%resolve_snoc. right. by exists d, n. Qed.
Lemma settled_frames home target name filename extension tmp m ms oc qt bytes d r d' :
  push target (components (filename ++ lit "." ++ extension)) = target ++ [Normal name] ->
  tmp = target ++ [Normal m] -> resolve tmp (files d) = Some qt -> nodes (files d) !! qt = Some (Plain bytes) ->
  settled target filename extension tmp ms oc d = (r, d') ->
  frames (landing home (resolve target (files d))) (files d) (files d') /\
  forall p, r = Ok (Some p) -> exists n, p = target ++ [Normal n].
Proof.
  intros Hbase -> Hqt Hb. unfold settled. rewrite Hbase. destruct (_ && _) eqn:Hocc.
  - intros [= <- <-]. split; [|done]. apply frames_remove. intros q. apply landing_name.
  - clear Hocc. unfold next at 1. unfold hoist at 1. destruct (if exists_in _ _ then _ else _) as [p|e] eqn:Hp; cbn;
      [|by intros [= <- <-]].
    destruct (free_place _ _ _ _ Hp) as (n & -> & _). unfold next at 1. unfold on_files at 1.
    destruct (set_last_modified_time _ ms (files d)) as [rd t1] eqn:Hd. destruct (dated_same _ _ _ _ _ Hd) as [Hn1 Hc1].
    assert (forall q, resolve q t1 = resolve q (files d)) as Hres by (intros q; unfold resolve; by rewrite Hn1, Hc1).
    assert (frames (landing home (resolve target (files d))) (files d) t1) as H1 by (by apply frames_same).
    unfold next at 1. unfold hoist at 1. destruct (map_err Failed _) as [[]|]; cbn; [|by intros [= <- <-]].
    unfold next at 1. unfold on_files at 1. cbn.
    assert (frames (landing home (resolve target (files d))) t1 (rename (target ++ [Normal m]) (target ++ [Normal n]) t1).2) as H2.
    { apply (frames_rename _ _ _ _ _ qt bytes); [by rewrite Hres|by rewrite Hn1|by eapply landing_name|].
      intros q. rewrite Hres. apply landing_name. }
    destruct (rename _ _ t1) as [rr t2]. cbn [snd] in H2.
    assert (frames (landing home (resolve target (files d))) (files d) t2) as H3 by (by etrans).
    unfold next, hoist. destruct rr as [[]|]; cbn; intros [= <- <-]; (split; [exact H3|]); [|done].
    intros p [= <-]. by exists n.
Qed.
Lemma upload_names filename extension id target : filename <> [] /\ Forall allowed filename -> extension <> [] /\ 47 ∉ extension ->
  47 ∉ id -> upload_tmp target filename id = target ++ [Normal (filename ++ lit "-" ++ id ++ lit ".tmp")] /\
  push target (components (filename ++ lit "." ++ extension)) = target ++ [Normal (filename ++ lit "." ++ extension)].
Proof.
  intros [Hs1 Hs2] [He1 He2] Hid. unfold upload_tmp. rewrite !stem_entry; try done.
  - rewrite length_app. destruct extension; [done|cbn; lia].
  - rewrite not_elem_of_app. split; [by intros ?%list_elem_of_singleton|done].
  - rewrite !length_app. cbn. lia.
  - rewrite !not_elem_of_app. split_and!; [by intros ?%list_elem_of_singleton|done|]. apply (bool_decide_unpack _); by vm_compute.
Qed.
(** A stored part lies in the target, which is a directory. *)
Lemma save_file_frames home c f target filename extension ms oc id d r d' :
  filename <> [] /\ Forall allowed filename -> extension <> [] /\ 47 ∉ extension -> 47 ∉ id ->
  save_file c f target filename extension ms oc id d = (r, d') ->
  frames (landing home (resolve target (files d))) (files d) (files d') /\
  (is_ok r = true -> exists q, resolve target (files d) = Some q /\ is_folder (nodes (files d)) q = true) /\
  forall p, r = Ok (Some p) -> exists n, p = target ++ [Normal n].
Proof.
  intros Hs He Hid. unfold save_file, next at 1, on_files at 1. destruct (upload_names filename extension id target) as [-> Hbase]; [done..|].
  destruct (write _ _ (files d)) as [rw t1] eqn:Hw.
  assert (frames (landing home (resolve target (files d))) (files d) t1) as H1.
  { pose proof (frames_write (landing home (resolve target (files d))) target _ (tf_bytes f) (files d)
      (fun q => landing_name home target (filename ++ lit "-" ++ id ++ lit ".tmp") (files d) q)) as H. by rewrite Hw in H. }
  destruct (write_cases _ _ _ _ _ Hw) as [(_ & _ & Hr)|(q & Hq & Hf & -> & ->)].
  - unfold next, hoist. destruct rw as [[]|]; [done|]. by intros [= <- <-].
  - unfold next, hoist. cbn [map_err or_raise]. set (t1 := called _) in *.
    assert (forall p, resolve p t1 = resolve p (files d)) as Hres.
    { intros p. apply resolve_same_folders; [done|]. by apply folders_put. }
    assert (exists q, resolve target (files d) = Some q /\ is_folder (nodes (files d)) q = true) as Ht.
    { apply resolve_snoc in Hq as (dd & ? & ? & _). by exists dd. }
    intros [[-> Hr]|(r0 & Hset & Hok & Hr)]%in_pool_cases; [by split_and!; [|done|intros p ->]|].
    eapply (settled_frames home) in Hset as [H2 Hp]; [|done|done|by rewrite Hres|by apply lookup_insert_eq].
    cbn [files with_files] in H2. rewrite Hres in H2. split_and!; [by etrans|done|]. intros p H. by apply Hp, Hr.
Qed.

(** *** The whole request *)
Context {Hx : HexDigests}.
Context {Xk : XmpKit} {Pi : Pictures} {De : Decoders} {Pg : Programs} {Db : Doubles} {Ss : Stats}.
Context {Uc : Uppercase} {Nk : Nfkc} {Chn : Channel}.
Variable data_home : Path.
Variable process_id : N.
Variable uuid : nat -> str.
Variable seqs : nat -> N.
Variable wrote : nat -> nat.
Context (Hhome : settled_home data_home).
Abbreviation indexed_ := (indexed data_home process_id seqs wrote).
Abbreviation store := (store_files data_home process_id uuid seqs wrote).
Abbreviation request := (upload data_home process_id uuid seqs wrote).

Lemma keeps_handed c l : keeps_files (handed_over c l).
Proof.
  apply keeps_for_each. intros a d r d' [= _ <-]. unfold flush. destruct (c_refreshed c); [|done].
  by destruct (flush_tables _ _ _ _ _).
Qed.
(** Indexing a stored part changes derived files; when it fails, the part may go. *)
Lemma indexed_frames (own : Path -> Prop) c n p q d r d' : (forall k, derived data_home k -> own k) ->
  resolve p (files d) = Some q -> own q -> indexed_ c n p d = (r, d') -> frames own (files d) (files d').
Proof.
  intros Hown Hq Hoq H Ht. unfold indexed, next at 1, index_image_of in H.
  destruct (index_image _ _ _ _ _ _ _ _) as [ri m] eqn:Hi.
  pose proof (kept_index_image _ _ _ _ _ _ _ _ _ _ Hhome Hi) as Hi0. cbn [Pipeline.disk] in Hi0.
  pose proof (frames_weaken _ own _ _ Hown Hi0) as Hi1. set (d1 := with_files (Pipeline.disk m) _) in H. cbn [fst snd] in H.
  assert (forall d2, files d2 = files d1 -> framed own (files d) (files d2)) as Hsame by (intros d2 ->; by apply Hi1).
  destruct ri as [[]|e].
  - apply Hsame. revert H. apply (keeps_next (A:=unit)); [apply keeps_handed|intros _].
    apply (keeps_next (A:=unit)); [apply keeps_flushed|intros []; apply keeps_tree_updated].
  - apply next_cases in H as [([] & d2 & H2%keeps_handed & H)|(? & H2%keeps_handed & ->)]; [|by apply Hsame].
    assert (Hf : forall o d3, record_exists_for c p (relative_src c p) d2 = (o, d3) -> files d3 = files d2).
    { intros o d3. unfold record_exists_for. destruct (existsb _ (in_memory (memory d2))); by intros [= _ <-]. }
    apply next_cases in H as [(found & d3 & H3%Hf & H)|(? & H3%Hf & ->)]; [|by apply Hsame; rewrite H3].
    apply next_cases in H as [([] & d4 & H4%keeps_handed & H)|(? & H4%keeps_handed & ->)]; [|by apply Hsame; rewrite H4, H3].
    assert (files d4 = files d1) as H5 by congruence.
    destruct found; [injection H as _ <-; by apply Hsame|]. unfold next in H. injection H as _ <-. cbn. rewrite H5.
    unfold attempt. refine (transitivity Hi1 (frames_remove own p (files d1) _) Ht). intros q' Hq'.
    destruct (Hi1 Ht) as [_ Hc Hfold _]. pose proof (resolve_kept p _ _ q Hc Hfold Hq) as H6.
    assert (Some q = Some q') as [= <-] by (rewrite <-Hq'; symmetry; exact H6). done.
Qed.

Lemma store_files_frames c policy auto oc target n parts d r d' : (forall m, 47 ∉ uuid m) ->
  Forall (fun part => validate_file auto policy part.1 = Ok tt) parts ->
  store c policy auto oc target n parts d = (r, d') -> frames (landing data_home (resolve target (files d))) (files d) (files d').
Proof.
  intros Hu. revert n d. induction parts as [|[f ms] parts IH]; intros n d Hv; cbn [store_files]; [by intros [= _ <-]|].
  apply Forall_cons in Hv as [(filename & extension & [Hn He Hs Hm])%valid_part Hv]. cbn [fst] in Hn, He. rewrite Hn, He.
  unfold next at 1. cbn [hoist map_err]. unfold next at 1. cbn [hoist map_err].
  intros [(o & d1 & Hsave & H)|(e & Hsave & ->)]%next_cases;
    destruct (save_file_frames data_home _ _ _ _ _ _ _ _ _ _ _ Hs Hm (Hu n) Hsave) as (H1 & Hsome & Hp); [|exact H1].
  destruct (Hsome eq_refl) as (tq & Htq & Hfold). rewrite Htq in *. intros Ht. pose proof (H1 Ht) as [Ht1 Hc1 Hf1 _]. pose proof (resolve_kept target _ _ tq Hc1 Hf1 Htq) as Htq1.
  assert (forall r2 d2, match o with None => answer tt | Some p => indexed_ c n p end d1 = (r2, d2) ->
    frames (landing data_home (Some tq)) (files d1) (files d2)) as Hix.
  { intros r2 d2 H2. destruct o as [p|]; [|by injection H2 as _ <-]. destruct (Hp p eq_refl) as [m ->].
    assert (resolve (target ++ [Normal m]) (files d1) = Some (tq ++ [Normal m])) as Hq
      by (apply resolve_snoc; exists tq; auto).
    eapply indexed_frames; [by left|exact Hq| |exact H2]. right. by exists tq, m. }
  apply next_cases in H as [([] & d2 & H2 & H)|(e & H2%Hix & ->)]; [|exact (transitivity H1 H2 Ht)].
  pose proof (Hix _ _ H2 Ht1) as [Ht2 Hc2 Hf2 _]. apply IH in H; [|done]. rewrite (resolve_kept target _ _ tq Hc2 Hf2 Htq1) in H.
  exact (transitivity H1 (transitivity (Hix _ _ H2) H) Ht).
Qed.

Lemma holds_framed own k b t t' : ~ own k -> frames own t t' -> holds k b t -> holds k b t'.
Proof. intros Hk H [H1 H2]. destruct (H H1) as [? _ _ Hf]. split; [done|by apply Hf]. Qed.
Lemma store_files_keeps k b c policy auto oc target n parts d r d' :
  ~ derived data_home k -> (forall m, 47 ∉ uuid m) -> (forall m, not_temporary (uuid m) k) ->
  Forall (fun part => validate_file auto policy part.1 = Ok tt) parts -> holds k b (files d) ->
  store c policy auto oc target n parts d = (r, d') -> holds k b (files d').
Proof.
  intros Hder Hu Htmp. revert n d. induction parts as [|[f ms] parts IH]; intros n d Hv Hk; cbn [store_files].
  { by intros [= <- <-]. }
  apply Forall_cons in Hv as [(filename & extension & [Hn He Hs Hm])%valid_part Hv]. cbn [fst] in Hn, He. rewrite Hn, He.
  unfold next at 1. cbn [hoist map_err]. unfold next at 1. cbn [hoist map_err].
  assert (Hix : forall p q d1 r2 d2, holds k b (files d1) -> resolve p (files d1) = Some q -> q <> k ->
    indexed_ c n p d1 = (r2, d2) -> holds k b (files d2)).
  { intros p q d1 r2 d2 Hk1 Hq Hne H2. eapply (holds_framed (fun k => derived data_home k \/ k = q)); [|eapply indexed_frames|exact Hk1];
      [by intros [?| ->]|by left|exact Hq|by right|exact H2]. }
  intros [(o & d1 & Hsave & H)|(e & Hsave & ->)]%next_cases;
    destruct (save_file_cases k b _ _ _ _ _ _ _ _ _ _ _ Hs Hm (Hu n) (Htmp n) Hk Hsave) as [[_ Hk1] Hst]; [|done].
  apply next_cases in H as [([] & d2 & H1 & H)|(e & H1 & ->)]; (destruct o as [p|]; [destruct (Hst p eq_refl) as (q & Hq & Hne & _)|]).
  - by eapply IH, H; [|eapply Hix].
  - injection H1 as <-. by eapply IH.
  - by eapply Hix.
  - done.
Qed.

(** What was checked before the first part was stored, and the directory it was checked
    for: the one the request's album, or the upload folder, leads to. *)
Record checked (c : Ctx) (policy : UploadPolicy) (album : option str) (auto_rename : option bool)
    (form : app_result UploadForm) (d d1 : Desk) (target : Path) : Prop := {
  checked_target : exists i, presigned_album album = Ok i /\ resolve_upload_target_dir c policy i d = (Ok target, d1);
  checked_session : exists claims, user_claims c (server d) = Ok claims /\ may_mutate c (server d) = Ok tt /\
    visible_to (F:=fs_of (files d1)) (c_roots c) (caller_identity claims).1 target = true;
  checked_parts : exists f, form = Ok f /\ length (form_files f) = length (form_last_modified f) /\
    Forall (fun part => validate_file (default true auto_rename) policy part = Ok tt) (form_files f)
}.

Lemma target_grows c policy album d r d1 : tree_ok (files d) -> resolve_upload_target_dir c policy album d = (r, d1) ->
  tree_ok (files d1) /\ grown (nodes (files d)) (nodes (files d1)) /\ exists t, d1 = with_files t d.
Proof.
  intros Ht. assert (Hid : tree_ok (files d) /\ grown (nodes (files d)) (nodes (files d)) /\ exists t, d = with_files t d).
  { split_and!; [done|done|]. exists (files d). by rewrite with_files_id. }
  unfold resolve_upload_target_dir. destruct album as [i|]; [by intros [= _ <-]|].
  unfold next at 1, hoist at 1. destruct (option_or_raise _ _ _) as [root|]; [|by intros [= _ <-]]. cbn.
  unfold next, on_files. destruct (create_dir_all _ (files d)) as [rc t] eqn:Hc.
  apply create_dir_all_grows in Hc as (H1 & _ & H3); [|done]. intros H. assert (d1 = with_files t d) as ->.
  { destruct rc; by injection H. }
  split_and!; [done|done|by exists t].
Qed.

Lemma upload_cases c policy album oc ar form d r d' : tree_ok (files d) -> request c policy album oc ar form d = (r, d') ->
  exists d1, (exists t, d1 = with_files t d) /\ tree_ok (files d1) /\ grown (nodes (files d)) (nodes (files d1)) /\
    ((is_ok r = false /\ d' = d1) \/
     exists target, checked c policy album ar form d d1 target /\ exists f strategy, form = Ok f /\
       store c policy (default true ar) strategy target 0 (zip (form_files f) (form_last_modified f)) d1 = (r, d')).
Proof.
  intros Ht. set (goal := exists d1, _). assert (Hstop : forall e, r = Err e -> d' = d -> goal).
  { intros e -> ->. exists d. split_and!; [|done|done|by left]. exists (files d). by rewrite with_files_id. }
  unfold upload.
  intros [(caller & d0 & Hc & H)|(e & Hc & ->)]%next_cases; apply caller_of_cases in Hc as [-> Hcaller]; [|by eapply Hstop].
  destruct (Hcaller caller eq_refl) as (claims & Hcl & Hmut & ->).
  apply next_cases in H as [(f & d0 & [= Hf <-] & H)|(e & [= He <-] & ->)]; [|by eapply Hstop].
  apply next_cases in H as [(i & d0 & [= Hi <-] & H)|(e & [= He <-] & ->)]; [|by eapply Hstop].
  destruct (negb _) eqn:Hlen in H; [injection H as <- <-; by eapply Hstop|].
  apply negb_false_iff, Nat.eqb_eq in Hlen.
  apply next_cases in H as [(target & d1 & Hd1 & H)|(e & Hd1 & ->)];
    destruct (target_grows _ _ _ _ _ _ Ht Hd1) as (Ht1 & Hg & Hfiles).
  2:{ exists d'. split_and!; [done..|by left]. }
  exists d1. split_and!; [done..|].
  apply next_cases in H as [([] & d2 & [= Hgate <-] & H)|(e & [= He <-] & ->)]; [|by left].
  apply next_cases in H as [(strategy & d2 & [= Hstr <-] & H)|(e & [= He <-] & ->)]; [|by left].
  apply next_cases in H as [([] & d2 & [= Hval <-] & H)|(e & [= He <-] & ->)]; [|by left].
  destruct form as [f'|]; [|done]. injection Hf as ->. right. exists target. split; [|by exists f, strategy].
  split.
  - exists i. split; [by destruct (presigned_album album); [injection Hi as ->|]|done].
  - exists claims. split_and!; [done..|]. destruct (write_gate _ _ _ _) as [[]|] eqn:Hw in Hgate; [|done]. revert Hw.
    unfold write_gate. cbn. apply gate_side_visible.
  - exists f. split_and!; [done..|]. apply valid_batch. by destruct (validate_upload_batch _ _ _) as [[]|].
Qed.
Lemma checked_zip c policy album ar f d d1 target : checked c policy album ar (Ok f) d d1 target ->
  Forall (fun part => validate_file (default true ar) policy part.1 = Ok tt) (zip (form_files f) (form_last_modified f)).
Proof.
  intros [_ _ (f' & [= <-] & Hlen & Hv)]. apply Forall_forall. intros [x ms] Hin%elem_of_zip_l.
  rewrite Forall_forall in Hv. by apply Hv.
Qed.

(** C22: An upload stores a part only for a session that may write the directory the
    request resolves to, the album's or the upload folder, and only when every part of the
    request is valid; the files that then appear, change or go are entries of that
    directory, thumbnails or transcoded videos.  Otherwise no file appears, changes or
    goes, though the upload folder may have been made.  The data directory is an absolute
    path of names, an identifier that is drawn holds no slash, and a digest is printed in
    hexadecimal. *)
Theorem upload_needs_write_access c policy album oc ar form d r d' :
  tree_ok (files d) -> (forall n, 47 ∉ uuid n) -> request c policy album oc ar form d = (r, d') ->
  (is_ok r = false /\ (exists t, d' = with_files t d) /\ grown (nodes (files d)) (nodes (files d'))) \/
  exists target d1, checked c policy album ar form d d1 target /\
    forall k b, ~ landing data_home (resolve target (files d1)) k ->
      nodes (files d') !! k = Some (Plain b) <-> nodes (files d) !! k = Some (Plain b).
Proof.
  intros Ht Hu (d1 & Hf & Ht1 & Hg & [[Hr ->]|(target & Hc & f & strategy & -> & Hst)])%upload_cases; [by left| |done].
  right. exists target, d1. split; [done|]. apply store_files_frames in Hst; [|done|by eapply checked_zip].
  intros k b Hk. rewrite (framed_files _ _ _ (Hst Ht1) k b Hk). split; [apply (grown_files _ _ Hg)|apply (grown_kept _ _ Hg)].
Qed.
(** C23: An upload never replaces or removes a file outside the directory of thumbnails
    and transcoded videos, whether it succeeds or fails and whichever conflict strategy it
    is given: the name of a temporary file is fresh, a part is renamed only to a path
    where nothing is, and indexing it writes to that directory alone.  The conditions are
    those of C22, and that the file does not already have the name of a temporary file of
    this request. *)
Theorem upload_keeps_files k b c policy album oc ar form d r d' :
  ~ derived data_home k -> (forall n, 47 ∉ uuid n) -> (forall n, not_temporary (uuid n) k) ->
  tree_ok (files d) -> nodes (files d) !! k = Some (Plain b) ->
  request c policy album oc ar form d = (r, d') ->
  tree_ok (files d') /\ nodes (files d') !! k = Some (Plain b).
Proof.
  intros Hder Hu Htmp Ht Hk (d1 & _ & Ht1 & Hg & [[_ ->]|(target & Hc & f & strategy & -> & Hst)])%upload_cases; [..|done].
  - split; [done|by apply (grown_kept _ _ Hg)].
  - eapply store_files_keeps in Hst as [H1 H2]; [done|done..|by eapply checked_zip|].
    split; [done|by apply (grown_kept _ _ Hg)].
Qed.
End Saved.

(** ** On concrete uploads *)
Import (hints) ServerWitness.
Import (hints) HomeWitness.
Import (hints) TokenWitness.
Import (hints) DeletionWitness.
Import (hints) SanitizeWitness.
Import (hints) PathWitness XmpWitness PictureWitness PipelineWitness.
Module UploadWitness.
#[export] Instance jpegs : Infer := {| infer_get _ := Ok (Some (lit "jpg")) |}.
(** A digest of two hexadecimal figures. *)
#[export] Instance figures : TokenCodec := {|
  blake3_hex s := let n := foldr N.add 0 s in [48 + n mod 10; 97 + n mod 6]; base64_url b := b |}.
#[export] Instance figures_hex : HexDigests.
Proof.
  split. intros s. set (n := foldr N.add 0 s). change (digest [48 + n mod 10; 97 + n mod 6]). 
  generalize (N.mod_lt n 10 ltac:(lia)) (N.mod_lt n 6 ltac:(lia)). generalize (n mod 10) (n mod 6). intros a b Ha Hb.
  apply Forall_cons. split; [|apply Forall_singleton]; unfold in_range; apply orb_true_iff; [left|right];
    apply andb_true_iff; rewrite !N.leb_le; lia.
Qed.
#[export] Instance no_programs : Programs := PipelineWitness.host false false.
(** The album lies below the image root. *)
Definition ctx : Ctx :=
  mkCtx AuthWitness.now healthy healthy all_healthy TokenWitness.key false false PipelineWitness.cfg AuthWitness.policy false
    ServerWitness.schedules None (AuthWitness.visit [] (Some AuthWitness.token)) (lit "1.2.3.4") 0 (lit "jti") (Ok []) (lit "new")
    (fun _ => Ok tt) (Ok tt) (Ok tt).
Definition uuid (n : nat) : str := lit "id".
Definition policy : UploadPolicy := mkUploadPolicy true true false (lit "upload").
Definition part (name : string) : TempFile := mkTemp (Some (lit name)) (Some (lit "jpg")) (Some (lit "/tmp/0")) [7].
Definition form (names : list string) : app_result UploadForm :=
  Ok (mkForm (part <$> names) ((fun _ => 5) <$> names)).
Definition run {Io : IoFaults} (oc : option str) (names : list string) : result Stop unit * Desk :=
  upload (Ch:=IndexWitness.clock) DeletionWitness.data_home 7 uuid N.of_nat (fun _ => 1%nat) ctx policy (Some (lit "A")) oc None
    (form names) DeletionWitness.desk.
Lemma home_settled : settled_home DeletionWitness.data_home.
Proof. exists [lit "data"]. split; [|done]. repeat constructor; (done || by apply (bool_decide_unpack _)). Qed.
(** A machine on which setting the time of a file fails. *)
Definition undatable : IoFaults :=
  {| io_fault n := if bool_decide (n = 1%nat) then Some (lit "denied") else None; got_removed _ _ := false |}.
End UploadWitness.
Import (hints) UploadWitness.

(** Two parts of one name beside a file of that name get numbers; with the skip
    strategy nothing is stored, and the temporary file is gone. *)
Example upload_numbers_collisions :
  let run := UploadWitness.run None ["a.png"; "a.png"] in
  run.1 = Ok tt /\ node_at (EditWitness.place_of ["p"; "a.jpg"]) (files run.2) = Some (Plain [1]) /\
  node_at (EditWitness.place_of ["p"; "a-001.jpg"]) (files run.2) = Some (Plain [7]) /\
  node_at (EditWitness.place_of ["p"; "a-002.jpg"]) (files run.2) = Some (Plain [7]) /\
  node_at (DeletionWitness.thumb "7b" "7b.jpg") (files run.2) = Some (Plain [7]) /\
  is_some (by_path (the_index run.2) !! lit "/p/a-002.jpg") = true /\
  bool_decide (nodes (files (UploadWitness.run (Some (lit "skip")) ["a.png"]).2) = nodes DeletionWitness.tree) = true.
Proof. vm_compute. done. Qed.
(** A part whose time cannot be set leaves its temporary file in the album. *)
Theorem undated_upload_leaves_temporary :
  let run := UploadWitness.run (Io:=UploadWitness.undatable) None ["c.png"] in
  is_ok run.1 = false /\ exists_in (files run.2) (EditWitness.place_of ["p"; "c.jpg"]) = false /\
  node_at (EditWitness.place_of ["p"; "c-id.tmp"]) (files run.2) = Some (Plain [7]).
Proof. vm_compute. done. Qed.

Lemma upload_tree_ok : tree_ok DeletionWitness.tree.
Proof. by apply tree_okb_ok. Qed.
Lemma upload_needs_write_access_witness :
  let run := UploadWitness.run None ["a.png"; "a.png"] in
  (is_ok run.1 = false /\ (exists t, run.2 = with_files t DeletionWitness.desk) /\ grown (nodes DeletionWitness.tree) (nodes (files run.2))) \/
  exists target d1, checked UploadWitness.ctx UploadWitness.policy (Some (lit "A")) None (UploadWitness.form ["a.png"; "a.png"])
      DeletionWitness.desk d1 target /\
    forall k b, ~ landing DeletionWitness.data_home (resolve target (files d1)) k ->
      nodes (files run.2) !! k = Some (Plain b) <-> nodes DeletionWitness.tree !! k = Some (Plain b).
Proof.
  intros run. refine (upload_needs_write_access DeletionWitness.data_home 7 UploadWitness.uuid N.of_nat (fun _ => 1%nat)
    UploadWitness.home_settled UploadWitness.ctx UploadWitness.policy (Some (lit "A")) None None
    (UploadWitness.form ["a.png"; "a.png"]) DeletionWitness.desk run.1 run.2 upload_tree_ok _ (surjective_pairing _)).
  intros n. apply (bool_decide_unpack _). reflexivity.
Defined.
Lemma upload_keeps_files_witness :
  let run := UploadWitness.run None ["a.png"; "a.png"] in
  tree_ok (files run.2) /\ nodes (files run.2) !! EditWitness.place_of ["p"; "a.jpg"] = Some (Plain [1]).
Proof.
  intros run. refine (upload_keeps_files DeletionWitness.data_home 7 UploadWitness.uuid N.of_nat (fun _ => 1%nat)
    UploadWitness.home_settled (EditWitness.place_of ["p"; "a.jpg"]) [1]
    UploadWitness.ctx UploadWitness.policy (Some (lit "A")) None None (UploadWitness.form ["a.png"; "a.png"])
    DeletionWitness.desk run.1 run.2 _ _ _ upload_tree_ok eq_refl (surjective_pairing _)).
  - intros H. vm_compute in H. discriminate.
  - intros n. apply (bool_decide_unpack _). reflexivity.
  - intros n name He. cbn in He. injection He as He. apply (f_equal last) in He. rewrite !last_app in He. done.
Defined.
