(* ===== verification/Moves.v ===== *)
(** * Moves: moving assets and albums, and new directories
      ([backend/src/router/put/assign_album.rs], [router/post/create_dir_album.rs])

    A file moves with its sidecar and its record; an album moves as a directory, and
    every record below it is rewritten, row by row in transactions of their own whose
    failures are dropped. *)

From S2P Require Import Snapshots.
From S2P Require Import Prelude Errors Redb Password UserStore Revocations Invites LoginThrottle.
From S2P Require Import Paths Formats Model MetadataRecord AlbumUpdate DirAlbum Tokens RouterAuth IndexStore.
From S2P Require Import DirAlbumStore Accounts DataPages FileTree Sanitize Xmp SidecarEdit Desk Deletion Upload.
Open Scope work_scope.

Record AssignAlbumData := mkAssign { as_asset : str; as_album : str; as_on_conflict : OnConflict }.
Inductive AssignOutcome := Moved | RenamedFrom | Skipped.
#[export] Instance AssignOutcome_eq_dec : EqDecision AssignOutcome.
Proof. solve_decision. Defined.
Record CreateDirAlbumData := mkCreateDir { cd_parent : str; cd_name : str }.

Definition set_rec_path (p : str) (r : AssetRecord) : AssetRecord :=
  mkAsset (asset_id r) (kind r) p (content_hash r) (file_size r) (rec_ext r)
    (rec_modified r) (rec_scan_time r) (rec_trashed r) (rec_album r).
Definition re_index_hint : str := lit " " ++ [8212] ++ lit " re-index to refresh".
(** The text of [PathBuf::join] with a relative path: joining the empty path leaves a
    separator at the end. *)
Definition join_text (dir : Path) (rel : str) : str :=
  let t := path_text dir in (if bool_decide (last t = Some 47) then t else t ++ [47]) ++ rel.

Section Moves.
Context {Jc : JsonCodec} {Lh : LegacyHash} {Ca : Casing} {Cr : Crypto} {J : Jwt} {Tc : TokenCodec}.
Context {Uc : Uppercase} {Sc : Sidecars} {Nk : Nfkc}.
Context {Io_ : IoFaults} {Ch : Chrono} {O : Outside}.

(** *** One file *)
(** Where it goes; [None] when it is there already, or stays because the name is taken. *)
Definition file_destination (source base : Path) (on_conflict : OnConflict) (t : Files)
  : app_result (option Path * AssignOutcome) :=
  if exists_in t base then
    if bool_decide (source = base) then Ok (None, Moved)
    else match on_conflict with
         | SkipExisting => Ok (None, Skipped)
         | RenameNew =>
             unique ← or_raise IO (lit "Failed to find unique path") (map_err display_error (find_unique_path (exists_in t) base));
             Ok (Some unique, RenamedFrom)
         end
  else Ok (Some base, Moved).
(** The sidecar follows, if it can. *)
Definition move_sidecar (source dest : Path) (t : Files) : Files :=
  let sidecar := with_extension_xmp source in
  if exists_in t sidecar then attempt (rename sidecar (with_extension_xmp dest)) t else t.
(** The three transactions that tell the tables. *)
Definition rows_moved (c : Ctx) (record : AssetRecord) (album : str) (new_path : str) : Work unit :=
  let updated := set_rec_album (Some album) (set_rec_path new_path record) in
  let! _ := on_tables (put_asset_by_id (Fa:=c_fates c) updated) (or_raise Database (lit "Failed to update asset")) in
  let! _ := on_tables (remove_asset_by_path (Fa:=c_fates c) (rec_path record))
              (or_raise Database (lit "Failed to remove old path mapping")) in
  on_tables (put_asset_by_path (Fa:=c_fates c) new_path (asset_id record))
    (or_raise Database (lit "Failed to add new path mapping")).
Definition move_file (c : Ctx) (caller : str) (record : AssetRecord) (album : str) (album_dir : Path)
    (on_conflict : OnConflict) : Work AssignOutcome :=
  let source := components (rec_path record) in
  let! _ := asks (fun d => if exists_in (files d) source then Ok tt
                           else fail InvalidInput (lit "File not found at: " ++ rec_path record)) in
  let! _ := gate c caller (Some source) (Some album_dir) "Source or destination not writable" in
  let! name := hoist (option_or_raise InvalidInput (lit "File has no name") (file_name source)) in
  let! dest := asks (fun d => file_destination source (push album_dir (components name)) on_conflict (files d)) in
  match dest with
  | (None, outcome) => answer outcome
  | (Some final, outcome) =>
      let! renamed := on_files (rename source final) in
      let! _ := hoist (or_raise IO (lit "Failed to move file") (map_err io_text renamed)) in
      let! _ := (fun d => (Ok tt, with_files (move_sidecar source final (files d)) d)) in
      let! _ := rows_moved c record album (path_text final) in
      answer outcome
  end.

(** *** One album *)
Definition foreign_share (caller : str) (m : option MetadataRecord) : bool :=
  match m with
  | Some (MAlbum p) => existsb (fun s => negb (str_eqb (created_by s.2) caller)) (map_to_list (ap_shares p))
  | _ => false
  end.
Definition shares_allow (c : Ctx) (caller : str) (i : str) : Work unit := fun d =>
  let ix := the_index d in
  let Rd := fate (Fates:=c_fates c) (ticks ix) in
  (map_err Failed
     (_ ← or_raise Database (lit "Failed to begin transaction") (redb BeginRead);
      _ ← or_raise Database (lit "Failed to open data table") (redb OpenTable);
      _ ← or_raise Database (lit "Failed to get album") (redb (Get i));
      if foreign_share caller (payloads ix !! i)
      then fail PermissionDenied (lit "Album has shares owned by other users") else Ok tt),
   with_index (tick ix) d).
Definition rename_dir (source dest : Path) : Work unit :=
  let! r := on_files (rename source dest) in
  hoist (map_err (fun e => new_error Internal (lit "Failed to move album directory: " ++ io_text e)) r).
Definition dir_destination (base : Path) (on_conflict : OnConflict) (t : Files)
  : app_result (option Path * AssignOutcome) :=
  if exists_in t base then
    match on_conflict with
    | SkipExisting => Ok (None, Skipped)
    | RenameNew => dest ← find_unique_path (exists_in t) base; Ok (Some dest, RenamedFrom)
    end
  else Ok (Some base, Moved).
(** One record below the moved directory; each of its writes may fail by itself. *)
Definition record_moved {Fa : Fates} (source dest : Path) (record : AssetRecord) (ix : Index) : Index :=
  match path_strip_prefix source (components (rec_path record)) with
  | None => ix
  | Some rel =>
      let new_path := join_text dest (path_text rel) in
      let ix := (remove_asset_by_path (rec_path record) ix).2 in
      let ix := (put_asset_by_path new_path (asset_id record) ix).2 in
      (put_asset_by_id (set_rec_path new_path record) ix).2
  end.
Definition update_asset_tables_after_dir_move {Fa : Fates} (source dest : Path) : Io unit := fun ix =>
  let '(r, ix) := get_all_assets ix in
  match r with
  | Err e => (Err e, ix)
  | Ok records => (Ok tt, foldl (fun ix record => record_moved source dest record ix) ix records)
  end.
Definition move_album_into_album (c : Ctx) (caller : str) (i target : str) (target_dir : Path)
    (on_conflict : OnConflict) : Work AssignOutcome :=
  let! found := on_tables (get_asset_by_id (Fa:=c_fates c) i) (or_raise Database (lit "Failed to look up album")) in
  let! record := hoist (option_or_raise InvalidInput (lit "Album not found") found) in
  let source := components (rec_path record) in
  let! _ := asks (fun d => if is_dir (files d) source then Ok tt
                           else fail InvalidInput (lit "Album directory no longer exists on disk: " ++ rec_path record
                                  ++ re_index_hint)) in
  if bool_decide (target_dir = source) || path_starts_with target_dir source
  then refuse InvalidInput (lit "Cannot move an album into itself or one of its own sub-albums")
  else
    let! _ := shares_allow c caller i in
    let! _ := gate c caller (Some source) (Some target_dir) "Source or destination not writable" in
    let! name := hoist (option_or_raise InvalidInput (lit "Album directory has no name") (file_name source)) in
    let! dest := asks (fun d => dir_destination (push target_dir (components name)) on_conflict (files d)) in
    match dest with
    | (None, outcome) => answer outcome
    | (Some new_dir, outcome) =>
        let! _ := rename_dir source new_dir in
        fun d =>
          let d := with_albums (rewrite_dir_album_cache_prefix source new_dir (the_albums d)) d in
          let d := with_index (update_asset_tables_after_dir_move (Fa:=c_fates c) source new_dir (the_index d)).2 d in
          let a := the_albums d in
          let a := match get_parent_album_id source a with Some p => mark_album_for_update p a | None => a end in
          (Ok outcome, with_albums (mark_album_for_update target a) d)
    end.

(** *** The handlers *)
Definition move_asset_into_album (c : Ctx) (caller : str) (i album : str) (album_dir : Path)
    (on_conflict : OnConflict) : Work AssignOutcome :=
  let! found := on_tables (get_asset_by_id (Fa:=c_fates c) i) (or_raise Database (lit "Failed to look up asset")) in
  let! record := hoist (option_or_raise InvalidInput (lit "Asset not found") found) in
  if bool_decide (kind record = AAlbum) then move_album_into_album c caller i album album_dir on_conflict
  else move_file c caller record album album_dir on_conflict.
Definition submitted_to (i : str) (msg : string) : Work unit := fun d =>
  match taken i with
  | Ok _ => (Ok tt, submit i d)
  | Err e => (Err (Failed (new_error Internal (lit msg ++ e))), d)
  end.
Definition bump_version : Work unit := fun d =>
  (Ok tt, with_memory (mkTree (in_memory (memory d)) (version (memory d) + 1)) d).
(** What follows a move that succeeded. *)
Definition announced (c : Ctx) (album : str) (outcome : AssignOutcome) : Work AssignOutcome :=
  let! _ := tree_updated c "Failed to update tree" in
  let! _ := bump_version in
  let! _ := submitted_to album "Album update failed: " in
  answer outcome.
Definition assign_album (c : Ctx) (req : AssignAlbumData) : Work AssignOutcome :=
  let! caller := caller_of c in
  let! album_dir := asks (fun d => option_or_raise InvalidInput (lit "Album not found in dir cache")
                                     (get_dir_path_for_album (as_album req) (the_albums d))) in
  let! _ := asks (fun d => if is_dir (files d) album_dir then Ok tt
                           else fail InvalidInput (lit "Album directory no longer exists on disk: " ++ path_text album_dir
                                  ++ re_index_hint)) in
  let! _ := gate c caller None (Some album_dir) "Destination album not writable" in
  let! outcome := in_pool c (move_asset_into_album c caller (as_asset req) (as_album req) album_dir (as_on_conflict req)) in
  announced c (as_album req) outcome.

Definition valid_album_name (name : str) : bool :=
  negb (is_empty name || str_eqb name (lit ".") || str_eqb name (lit "..") || bool_decide (47 ∈ name) || bool_decide (92 ∈ name)).
Definition create_dir_album (c : Ctx) (req : CreateDirAlbumData) : Work str :=
  let! caller := caller_of c in
  let name := trim (cd_name req) in
  if negb (valid_album_name name) then refuse InvalidInput (lit "Invalid album name")
  else
    let! parent_dir := asks (fun d => option_or_raise InvalidInput (lit "Parent album not found")
                                        (get_dir_path_for_album (cd_parent req) (the_albums d))) in
    let! _ := gate c caller None (Some parent_dir) "Parent album not writable" in
    let new_dir := push parent_dir (components name) in
    let! i := on_pool_ c (lit "Task failed")
      (let! made := on_files (create_dir new_dir) in
       let! _ := hoist (map_err (fun e => new_error Internal (lit "Failed to create directory: " ++ io_text e)) made) in
       let! i := (fun d =>
         let '(r, l) := DirAlbumStore.create_dir_album (Fa:=c_fates c) (c_now c) (drawn 0) new_dir (library (server d)) in
         (map_err (fun _ => Failed (new_error Internal (lit "Failed to register album: Failed to create album for "
                      ++ path_text new_dir))) r,
          with_server (with_library l (server d)) d)) in
       let! _ := (fun d => (Ok tt, with_albums (mark_album_for_update (cd_parent req) (the_albums d)) d)) in
       answer i) in
    let! _ := submitted_to (cd_parent req) "Failed to update parent album: " in
    answer i.
End Moves.

(** ** The tables after a move *)
(** One record at a new path: the tables stay consistent when the path is free. *)
Lemma tables_move ids paths groups metas i r p : tables_ok ids paths groups metas ->
  ids !! i = Some (Some r) -> (paths !! p = None \/ p = rec_path r) -> forall r',
  asset_id r' = asset_id r -> rec_path r' = p -> content_hash r' = content_hash r ->
  tables_ok (<[i := Some r']> ids) (<[p := i]> (delete (rec_path r) paths)) groups metas.
Proof.
  intros Hok Hi Hp r' Ha Hrp Hh. destruct (ok_rows _ _ _ _ Hok i _ Hi) as (Hlen & ? & [= <-] & Hai & Hpi).
  split.
  - intros j o [[<- <-]|[Hne Hj]]%lookup_insert_Some.
    + split; [done|]. exists r'. split_and!; [done|congruence|]. by rewrite Hrp, lookup_insert_eq.
    + destruct (ok_rows _ _ _ _ Hok j _ Hj) as (Hl & rj & -> & Haj & Hpj). split; [done|]. exists rj.
      split_and!; [done|done|]. rewrite lookup_insert_ne, lookup_delete_ne; [done| |].
      * intros He. rewrite He in Hpi. congruence.
      * intros He. destruct Hp as [Hp|Hp]; congruence.
  - intros q j [[<- <-]|[Hne [Hq Hj]%lookup_delete_Some]]%lookup_insert_Some.
    + exists r'. by rewrite lookup_insert_eq.
    + destruct (ok_paths _ _ _ _ Hok q j Hj) as (rj & Hrj & Hpj). exists rj. rewrite lookup_insert_ne; [done|].
      intros <-. congruence.
  - intros h j. rewrite (ok_members _ _ _ _ Hok). destruct (decide (j = i)) as [->|Hne].
    + rewrite lookup_insert_eq. split; intros (x & Hix & Hx).
      * exists r'. split; [done|]. rewrite Hh. congruence.
      * exists r. split; [done|]. injection Hix as <-. by rewrite <-Hh.
    + by rewrite lookup_insert_ne.
  - apply Hok.
  - intros j Hj%(ok_payloads _ _ _ _ Hok). apply lookup_insert_is_Some'. by right.
Qed.

Section DirMove.
Variables source dest : Path.
(** The record as a directory move leaves it. *)
Definition relocated_record (r : AssetRecord) : AssetRecord :=
  match path_strip_prefix source (components (rec_path r)) with
  | Some rel => set_rec_path (join_text dest (path_text rel)) r
  | None => r
  end.
Lemma relocated_same r : asset_id (relocated_record r) = asset_id r /\ content_hash (relocated_record r) = content_hash r.
Proof. unfold relocated_record. by destruct (path_strip_prefix _ _). Qed.
Lemma relocated_path r : rec_path (relocated_record r) = rec_path r \/
  exists rel, rec_path (relocated_record r) = join_text dest rel.
Proof. unfold relocated_record. destruct (path_strip_prefix _ _); [right; by eexists|by left]. Qed.

Lemma record_moved_healthy r ix : by_id ix !! asset_id r = Some (Some r) -> consistent ix ->
  let r' := relocated_record r in
  exists n, record_moved (Fa:=all_healthy) source dest r ix =
    mkIndex (<[asset_id r := Some r']> (by_id ix)) (<[rec_path r' := asset_id r]> (delete (rec_path r) (by_path ix)))
      (dupes ix) (payloads ix) n.
Proof.
  intros Hi Hok. unfold record_moved, relocated_record. destruct (path_strip_prefix _ _) as [rel|]; [by eexists|].
  exists (ticks ix). rewrite insert_id by done. rewrite insert_delete_eq, insert_id; [by destruct ix|].
  destruct (ok_rows _ _ _ _ Hok _ _ Hi) as (_ & ? & [= <-] & _ & ?). done.
Qed.

(** The rows still to come have their paths; the rows done have new ones. *)
Lemma records_moved_healthy rs ix :
  NoDup (asset_id <$> rs) -> consistent ix ->
  (forall r, r ∈ rs -> by_id ix !! asset_id r = Some (Some r)) ->
  (forall r i, r ∈ rs -> by_path ix !! rec_path (relocated_record r) = Some i -> i = asset_id r) ->
  (forall r s, r ∈ rs -> s ∈ rs -> rec_path (relocated_record r) = rec_path (relocated_record s) -> asset_id r = asset_id s) ->
  exists ix', foldl (fun ix r => record_moved (Fa:=all_healthy) source dest r ix) ix rs = ix' /\ consistent ix' /\
    dupes ix' = dupes ix /\ payloads ix' = payloads ix /\
    (forall r, r ∈ rs -> by_id ix' !! asset_id r = Some (Some (relocated_record r))) /\
    (forall i, i ∉ asset_id <$> rs -> by_id ix' !! i = by_id ix !! i).
Proof.
  revert ix. induction rs as [|r rs IH]; intros ix Hnd Hok Hin Hfree Hinj;
    [exists ix; split_and!; try done; by intros ? ?%elem_of_nil|].
  cbn [fmap list_fmap] in Hnd. apply NoDup_cons in Hnd as [Hr Hnd].
  pose proof (Hin r ltac:(by left)) as Hir. destruct (record_moved_healthy r ix Hir Hok) as [n Hstep]. cbv zeta in Hstep.
  cbn [foldl]. rewrite Hstep. clear Hstep. set (ix1 := mkIndex _ _ _ _ n).
  destruct (relocated_same r) as [Ha Hh].
  assert (consistent ix1) as Hok1.
  { apply (tables_move _ _ _ _ (asset_id r) r); [done|done| |done|done|done].
    destruct (by_path ix !! rec_path (relocated_record r)) as [i|] eqn:Hp; [right|by left].
    pose proof (Hfree r i ltac:(by left) Hp) as ->. apply (ok_paths _ _ _ _ Hok) in Hp as (r0 & Hr0 & <-). congruence. }
  assert (Hne : forall s, s ∈ rs -> asset_id s <> asset_id r).
  { intros s Hs He. apply Hr. rewrite <-He. by apply list_elem_of_fmap_2. }
  destruct (IH ix1) as (ix' & Hf & Hok' & Hd & Hm & Hin' & Hout); [done|done| | | |].
  - intros s Hs. cbn. rewrite lookup_insert_ne by (symmetry; by apply Hne). apply Hin. by right.
  - intros s i Hs. cbn. intros [[He <-]|[_ [_ Hp]%lookup_delete_Some]]%lookup_insert_Some.
    + apply Hinj; [by left|by right|done].
    + apply (Hfree s i); [by right|done].
  - intros x y Hx Hy. apply Hinj; by right.
  - exists ix'. split_and!; [done|done|done|done| |].
    + intros s [->|Hs]%elem_of_cons; [|by apply Hin'].
      destruct (decide (asset_id r ∈ asset_id <$> rs)); [done|]. rewrite Hout by done. apply lookup_insert_eq.
    + intros i [Hi1 Hi2]%not_elem_of_cons. rewrite Hout by done. cbn. by rewrite lookup_insert_ne.
Qed.
End DirMove.

(** Directory names as a listing gives them. *)
Definition is_name (s : str) : Prop := s <> [] /\ s <> lit "." /\ s <> lit ".." /\ 47 ∉ s.

(** Moving a directory rewrites every record below it, and only those, and keeps the
    tables consistent, as long as no record has a path below the new place and no
    two records end up under one name. *)
Theorem dir_move_keeps_tables source dest ix :
  consistent ix ->
  (forall p i rel, by_path ix !! p = Some i -> p <> join_text dest rel) ->
  (forall i j r s rel rel', by_id ix !! i = Some (Some r) -> by_id ix !! j = Some (Some s) ->
     path_strip_prefix source (components (rec_path r)) = Some rel ->
     path_strip_prefix source (components (rec_path s)) = Some rel' -> path_text rel = path_text rel' -> i = j) ->
  exists ix', update_asset_tables_after_dir_move (Fa:=all_healthy) source dest ix = (Ok tt, ix') /\
    consistent ix' /\ payloads ix' = payloads ix /\ dupes ix' = dupes ix /\
    forall i, by_id ix' !! i = (fun o => relocated_record source dest <$> o) <$> by_id ix !! i.
Proof.
  intros Hok Hfree Hinj. unfold update_asset_tables_after_dir_move, get_all_assets, reading. cbn.
  assert (Hrow : forall r, r ∈ records ix -> by_id ix !! asset_id r = Some (Some r)).
  { intros r [i Hi]%records_of. by destruct (ok_rows _ _ _ _ Hok i _ Hi) as (_ & ? & [= <-] & -> & _). }
  assert (Hpath : forall r i, by_id ix !! i = Some (Some r) -> by_path ix !! rec_path r = Some (asset_id r)).
  { intros r i Hi. destruct (ok_rows _ _ _ _ Hok i _ Hi) as (_ & ? & [= <-] & -> & ?). done. }
  destruct (records_moved_healthy source dest (records ix) (tick ix)) as (ix' & Hf & Hok' & Hd & Hm & Hin & Hout).
  - assert (asset_id <$> records ix = (merge_sort row_le (map_to_list (by_id ix))).*1) as ->.
    { assert (Hall : forall l : list (str * option AssetRecord), (forall kv, kv ∈ l -> by_id ix !! kv.1 = Some kv.2) ->
        asset_id <$> omap snd l = l.*1).
      { induction l as [|[i o] l IHl]; [done|]. intros Hl. cbn.
        pose proof (Hl (i, o) ltac:(by left)) as Hi. cbn in Hi.
        destruct (ok_rows _ _ _ _ Hok i _ Hi) as (_ & r & -> & <- & _). cbn. f_equal. apply IHl. intros. apply Hl. by right. }
      apply Hall. intros [i o]. rewrite merge_sort_Permutation. apply elem_of_map_to_list. }
    rewrite merge_sort_Permutation. apply NoDup_fst_map_to_list.
  - done.
  - apply Hrow.
  - intros r i Hr Hp. destruct (relocated_path source dest r) as [He|[rel He]]; rewrite He in Hp.
    + cbn in Hp. rewrite (Hpath r _ (Hrow r Hr)) in Hp. congruence.
    + by apply Hfree with (rel := rel) in Hp.
  - intros r s Hr Hs He. pose proof (Hrow r Hr) as Hir. pose proof (Hrow s Hs) as His.
    assert (Hold : forall x y, x ∈ records ix -> rec_path (relocated_record source dest x) = rec_path x ->
      rec_path (relocated_record source dest x) = join_text dest y -> False).
    { intros x y Hx Hk Hj. pose proof (Hpath x _ (Hrow x Hx)) as Hp. apply Hfree with (rel := y) in Hp. congruence. }
    unfold relocated_record in *. destruct (path_strip_prefix source (components (rec_path r))) as [rel|] eqn:Hrel;
      destruct (path_strip_prefix source (components (rec_path s))) as [rel'|] eqn:Hrel'; cbn [rec_path set_rec_path] in He.
    + eapply Hinj; [exact Hir|exact His|exact Hrel|exact Hrel'|]. unfold join_text in He. by apply app_inv_head in He.
    + pose proof (Hpath s _ His) as Hp. symmetry in He. by apply Hfree with (rel := path_text rel) in Hp.
    + pose proof (Hpath r _ Hir) as Hp. by apply Hfree with (rel := path_text rel') in Hp.
    + pose proof (Hpath r _ Hir) as Hp. rewrite He, (Hpath s _ His) in Hp. congruence.
  - exists ix'. split; [by rewrite Hf|]. split_and!; [done..|]. intros i.
    destruct (by_id ix !! i) as [o|] eqn:Hi; cbn.
    + destruct (ok_rows _ _ _ _ Hok i _ Hi) as (_ & r & -> & <- & _). rewrite Hin; [done|]. apply records_of. by eexists.
    + rewrite Hout; [done|]. intros (r & -> & Hr)%list_elem_of_fmap. apply Hrow in Hr. cbn in Hi. congruence.
Qed.

(** ** Who may move what *)
Lemma idle_albums d d' : idle d d' -> the_albums d' = the_albums d.
Proof. by intros [n ->]. Qed.
Lemma idle_payloads d d' : idle d d' -> payloads (the_index d') = payloads (the_index d).
Proof. by intros [n ->]. Qed.
(** No file is moved from one user's home to another's. *)
Definition same_owner {F : Fs} (cfg : Config) (p q : Path) : Prop :=
  forall a b, classify_path cfg p = Personal a -> classify_path cfg q = Personal b -> a = b.
Lemma write_gate_owner {F : Fs} cfg caller p q : write_gate cfg caller (Some p) (Some q) = Ok tt -> same_owner cfg p q.
Proof.
  unfold write_gate. intros H a b Ha Hb. rewrite Ha, Hb in H. cbv zeta in H. destruct (negb (str_eqb a b)) eqn:He; [done|].
  by apply negb_false_iff, str_eqb_eq in He.
Qed.

Section Gates.
Context {Jc : JsonCodec} {Lh : LegacyHash} {Ca : Casing} {Cr : Crypto} {J : Jwt} {Tc : TokenCodec}.
Context {Uc : Uppercase} {Sc : Sidecars} {Nk : Nfkc}.
Context {Io_ : IoFaults} {Ch : Chrono} {O : Outside}.

Lemma asset_row c i k d r d' : on_tables (get_asset_by_id (Fa:=c_fates c) i) (or_raise Database k) d = (r, d') ->
  idle d d' /\ forall o, r = Ok o -> o = mjoin (by_id (the_index d) !! i) /\ by_id (the_index d) !! i <> Some None.
Proof.
  unfold on_tables. destruct (get_asset_by_id_view (Fa:=c_fates c) i (the_index d)) as (n & r0 & -> & Hr).
  intros [= <- <-]. split; [apply idle_index|]. intros o Ho. apply Hr. destruct r0; [by injection Ho as ->|done].
Qed.
Lemma shares_idle c caller i d r d' : shares_allow c caller i d = (r, d') ->
  idle d d' /\ (r = Ok tt -> foreign_share caller (payloads (the_index d) !! i) = false).
Proof.
  unfold shares_allow. intros [= <- <-]. split; [apply (idle_index (S (ticks (the_index d))))|].
  destruct (redb BeginRead); [|done]. destruct (redb OpenTable); [|done]. destruct (redb (Get i)); [|done]. cbn.
  by destruct (foreign_share _ _).
Qed.

(** What allows a move. *)
Record movable (c : Ctx) (caller : str) (i : str) (dir : Path) (d : Desk) (record : AssetRecord) : Prop := {
  movable_record : by_id (the_index d) !! i = Some (Some record);
  movable_source : may_write c caller d record;
  movable_target : visible_to (F:=fs_of (files d)) (c_roots c) caller dir = true;
  movable_owner : same_owner (F:=fs_of (files d)) (c_roots c) (components (rec_path record)) dir;
  movable_album : kind record = AAlbum ->
    ~ (exists rel, dir = components (rec_path record) ++ rel) /\ foreign_share caller (payloads (the_index d) !! i) = false
}.
Lemma movable_idle c caller i dir d d1 record : idle d d1 -> movable c caller i dir d1 record -> movable c caller i dir d record.
Proof. by intros [n ->] []. Qed.
Lemma gate_both c caller s e msg d d' : gate c caller (Some s) (Some e) msg d = (Ok tt, d') -> d' = d /\
  visible_to (F:=fs_of (files d)) (c_roots c) caller s = true /\ visible_to (F:=fs_of (files d)) (c_roots c) caller e = true /\
  same_owner (F:=fs_of (files d)) (c_roots c) s e.
Proof.
  unfold gate, asks. destruct (write_gate _ _ _ _) as [[]|] eqn:Hg; [|done]. intros [= <-]. split; [done|].
  destruct (write_gate_both _ _ _ _ Hg) as [H1 H2]. split_and!; [done..|]. by eapply write_gate_owner.
Qed.

(** A move does nothing but read until it may write. *)
Definition move_allowed {A} (c : Ctx) (caller i : str) (dir : Path) (d : Desk) (r : result Stop A) (d' : Desk) : Prop :=
  (idle d d' /\ is_ok r = false) \/ exists record, movable c caller i dir d record.
Lemma gate_stays c caller s e msg d r d' : gate c caller s e msg d = (r, d') -> d' = d.
Proof. by intros [= _ <-]. Qed.
Lemma move_file_allowed c caller i record album dir oc d r d' :
  by_id (the_index d) !! i = Some (Some record) -> kind record <> AAlbum ->
  move_file c caller record album dir oc d = (r, d') -> move_allowed c caller i dir d r d'.
Proof.
  intros Hi Hk H. unfold move_file in H.
  apply next_cases in H as [([] & d1 & [= _ <-] & H)|(e & [= _ <-] & ->)]; [|by left].
  apply next_cases in H as [([] & d1 & [-> (H1 & H2 & H3)]%gate_both & H)|(e & ->%gate_stays & ->)]; [right|by left].
  exists record. by split.
Qed.
Lemma move_album_allowed c caller i target dir oc d r d' :
  move_album_into_album c caller i target dir oc d = (r, d') -> move_allowed c caller i dir d r d'.
Proof.
  intros H. unfold move_album_into_album in H.
  apply next_cases in H as [(o & d1 & [Hd1 Ho]%asset_row & H)|(e & [Hd1 _]%asset_row & ->)]; [|by left].
  destruct (Ho o eq_refl) as [-> Hne]. clear Ho.
  apply next_cases in H as [(record & d2 & [= Hrec <-] & H)|(e & [= _ <-] & ->)]; [|by left].
  destruct (by_id (the_index d) !! i) as [[rec|]|] eqn:Hi; [|done..]. cbn in Hrec. injection Hrec as <-.
  apply next_cases in H as [([] & d2 & [= _ <-] & H)|(e & [= _ <-] & ->)]; [|by left].
  destruct (_ || _) eqn:Hself in H; [injection H as <- <-; by left|]. apply orb_false_iff in Hself as [_ Hbelow].
  apply next_cases in H as [([] & d2 & [Hd2 Hsh]%shares_idle & H)|(e & [Hd2 _]%shares_idle & ->)];
    (assert (idle d d2) as Hidle by (by etransitivity)) || (assert (idle d d') by (by etransitivity)); [|by left].
  apply next_cases in H as [([] & d3 & [-> (H1 & H2 & H3)]%gate_both & H)|(e & ->%gate_stays & ->)]; [right|by left].
  exists rec. apply (movable_idle c caller i dir d d2 rec Hidle). split.
  - by rewrite (idle_records d d2).
  - exact H1.
  - exact H2.
  - exact H3.
  - intros _. split.
    + intros [rel Hrel]. assert (path_starts_with dir (components (rec_path rec)) = true) by (apply path_starts_with_spec; by exists rel).
      congruence.
    + rewrite (idle_payloads d1 d2) by done. by apply Hsh.
Qed.

(** C24: Moving an asset touches files, tables, cache or tree only for a signed-in user who
    may write both where it is and where it goes, never between two users' homes; an
    album moves neither below itself nor with a share of somebody else. *)
Theorem move_needs_write_access c req d r d' : assign_album c req d = (r, d') ->
  idle d d' \/ exists claims dir record, user_claims c (server d) = Ok claims /\ may_mutate c (server d) = Ok tt /\
    get_dir_path_for_album (as_album req) (the_albums d) = Some dir /\
    movable c (caller_identity claims).1 (as_asset req) dir d record.
Proof.
  intros H. unfold assign_album in H.
  apply next_cases in H as [(caller & d1 & [-> Hc]%caller_of_cases & H)|(e & [-> _]%caller_of_cases & _)]; [|by left].
  destruct (Hc caller eq_refl) as (claims & Hcl & Hmut & ->).
  apply next_cases in H as [(dir & d1 & [= Hdir <-] & H)|(e & [= _ <-] & _)]; [|by left].
  apply next_cases in H as [([] & d1 & [= _ <-] & H)|(e & [= _ <-] & _)]; [|by left].
  apply next_cases in H as [([] & d1 & [= _ <-] & H)|(e & ->%gate_stays & _)]; [|by left].
  assert (get_dir_path_for_album (as_album req) (the_albums d) = Some dir) as Hd
    by (destruct (get_dir_path_for_album _ _); [by injection Hdir as <-|done]).
  assert (Hbody : forall r0 d1, move_asset_into_album c (caller_identity claims).1 (as_asset req) (as_album req) dir
    (as_on_conflict req) d = (r0, d1) -> move_allowed c (caller_identity claims).1 (as_asset req) dir d r0 d1).
  { intros r0 d1 Hm. unfold move_asset_into_album in Hm.
    apply next_cases in Hm as [(o & d2 & [Hd2 Ho]%asset_row & Hm)|(e & [Hd2 _]%asset_row & ->)]; [|by left].
    destruct (Ho o eq_refl) as [-> Hne]. clear Ho.
    apply next_cases in Hm as [(record & d3 & [= Hrec <-] & Hm)|(e & [= _ <-] & ->)]; [|by left].
    destruct (by_id (the_index d) !! as_asset req) as [[rec|]|] eqn:Hi; [|done..]. cbn in Hrec. injection Hrec as <-.
    assert (move_allowed c (caller_identity claims).1 (as_asset req) dir d2 r0 d1) as [[Hidle Hr]|[record Hmv]].
    - destruct (bool_decide (kind rec = AAlbum)) eqn:Hk in Hm; [by apply move_album_allowed in Hm|].
      apply bool_decide_eq_false in Hk. eapply move_file_allowed; [|exact Hk|exact Hm]. by rewrite (idle_records d d2).
    - left. split; [by etransitivity|done].
    - right. exists record. by apply (movable_idle _ _ _ _ d d2). }
  apply next_cases in H as [(outcome & d1 & Hp & H)|(e & Hp & ->)];
    (destruct (in_pool_cases _ _ _ _ _ _ Hp) as [[He Hf]|(r0 & Hm & Hok & _)]; [try done; rewrite He; by left|]);
    (destruct (Hbody _ _ Hm) as [[Hidle Hr]|[record Hmv]]; [|right; by exists claims, dir, record]).
  - by rewrite <-Hok in Hr.
  - by left.
Qed.
End Gates.

(** ** What a moved file changes *)
Definition outside (p : Path) (t : Files) (k : Path) : Prop := forall q, resolve p t = Some q -> below q k = false.
Section FileMove.
Context {Io_ : IoFaults}.

Lemma rename_outside src dst t r t' k : rename src dst t = (r, t') -> outside src t k -> outside dst t k ->
  nodes t' !! k = nodes t !! k.
Proof.
  unfold rename, call. destruct (io_fault (calls t)); [by intros [= _ <-]|].
  destruct (resolve src t) as [s|] eqn:Hs; [|by intros [= _ <-]].
  destruct (resolve dst t) as [e|] eqn:He; [|by intros [= _ <-]].
  intros H Ho1 Ho2. specialize (Ho1 s Hs). specialize (Ho2 e He).
  assert (relocate s e (nodes t) !! k = nodes t !! k) as Hk.
  { apply option_eq. intros v. rewrite relocate_spec. split.
    - intros (k0 & Hk0 & _ & Hm). destruct (below_case s k0) as [[x ->]|Hb]; [|by rewrite moved_key_out in Hm by done; subst].
      rewrite moved_key_in in Hm. subst k. by rewrite below_app in Ho2.
    - intros Hv. exists k. split_and!; [done|done|by apply moved_key_out]. }
  repeat case_match; simplify_eq/=; done.
Qed.
Lemma rename_same_folders t t' q qs c : is_folder (nodes t) qs = false -> is_folder (nodes t) q = false ->
  cwd t' = cwd t -> nodes t' = <[q := Plain c]> (delete qs (nodes t)) -> forall p, resolve p t' = resolve p t.
Proof.
  intros Hs Hq Hc Hn p. apply resolve_same_folders; [done|]. rewrite Hn. pose proof (folders_drop _ _ Hs) as Hd.
  eapply same_folders_trans; [exact Hd|]. apply folders_put. by rewrite <-Hd.
Qed.

Lemma move_sidecar_outside source final t k : outside (with_extension_xmp source) t k ->
  outside (with_extension_xmp final) t k -> nodes (move_sidecar source final t) !! k = nodes t !! k.
Proof.
  unfold move_sidecar, attempt. destruct (exists_in t _); [|done]. intros H1 H2.
  destruct (rename _ _ t) as [r t'] eqn:Hr. cbn. by eapply rename_outside.
Qed.

Context {Jc : JsonCodec} {Lh : LegacyHash} {Ca : Casing} {Cr : Crypto} {J : Jwt} {Tc : TokenCodec}.
Context {Ch : Chrono} {O : Outside}.
Lemma writing_Ok {Fa : Fates} a b m w op body ix ix' : writing a b m w op body ix = (Ok tt, ix') -> ix' = tick (body ix).
Proof. unfold writing. destruct (_ ← _; _) as [[]|]; [|done]. by intros [= <-]. Qed.
Lemma on_tables_Ok {A} (m : Io A) k d a d' : on_tables m k d = (Ok a, d') ->
  exists r ix, m (the_index d) = (r, ix) /\ k r = Ok a /\ d' = with_index ix d.
Proof.
  unfold on_tables. destruct (m (the_index d)) as [r ix]. intros [= H <-]. exists r, ix. split_and!; [done| |done].
  destruct (k r); [by injection H as ->|done].
Qed.
Lemma rows_moved_Ok c record album p d d' : rows_moved c record album p d = (Ok tt, d') ->
  files d' = files d /\ exists n, the_index d' = mkIndex
    (<[asset_id record := Some (set_rec_album (Some album) (set_rec_path p record))]> (by_id (the_index d)))
    (<[p := asset_id record]> (delete (rec_path record) (by_path (the_index d)))) (dupes (the_index d)) (payloads (the_index d)) n.
Proof.
  unfold rows_moved. intros ([] & d1 & (r & ix & H1 & Hr & ->)%on_tables_Ok & H)%next_Ok.
  apply next_Ok in H as ([] & d2 & (r2 & ix2 & H2 & Hr2 & ->)%on_tables_Ok & H).
  apply on_tables_Ok in H as (r3 & ix3 & H3 & Hr3 & ->).
  destruct r as [[]|]; [|done]. destruct r2 as [[]|]; [|done]. destruct r3 as [[]|]; [|done].
  unfold put_asset_by_id, remove_asset_by_path, put_asset_by_path in *.
  apply writing_Ok in H1 as ->. apply writing_Ok in H2 as ->. apply writing_Ok in H3 as ->. split; [done|]. by eexists.
Qed.

(** Where a file goes: the name it has, or a numbered one when that is taken. *)
Definition named_in (target : Path) (name : str) (taken : bool) (final : Path) (o : AssignOutcome) : Prop :=
  if taken then o = RenamedFrom /\ exists k, final = numbered (target ++ [Normal name]) k
  else o = Moved /\ final = target ++ [Normal name].
Lemma file_destination_Ok source target name n oc t final outcome :
  components name = [Normal n] ->
  file_destination source (push target (components name)) oc t = Ok (Some final, outcome) ->
  exists m, final = target ++ [Normal m] /\ exists_in t final = false /\
    named_in target n (exists_in t (target ++ [Normal n])) final outcome.
Proof.
  intros Hb. unfold file_destination. rewrite Hb. change (push target [Normal n]) with (target ++ [Normal n]).
  unfold named_in. destruct (exists_in t (target ++ [Normal n])) eqn:He.
  - destruct (bool_decide _); [done|]. destruct oc; [done|].
    destruct (find_unique_path _ _) as [u|] eqn:Hu; cbn; [|done]. intros [= -> <-].
    apply numbered_place in Hu as (m & k & -> & Hk & Hf). exists m. split_and!; [done|done|done|by exists k].
  - intros [= <- <-]. by exists n.
Qed.

(** The move of a file with content [b], named [n], into the directory [dir], up to the
    announcement: it stays, or it goes to a free place of the directory. *)
Definition file_moved (record : AssetRecord) (album : str) (dir : Path) (oc : OnConflict) (b : list N) (n : str)
    (d : Desk) (o : AssignOutcome) (d' : Desk) : Prop :=
  let source := components (rec_path record) in
  (idle d d' /\ (o = Skipped /\ oc = SkipExisting \/ o = Moved /\ source = dir ++ [Normal n])) \/
  exists final home m, resolve dir (files d) = Some home /\ is_folder (nodes (files d)) home = true /\
    final = dir ++ [Normal m] /\ named_in dir n (exists_in (files d) (dir ++ [Normal n])) final o /\
    nodes (files d) !! (home ++ [Normal m]) = None /\
    (outside (with_extension_xmp source) (files d) (home ++ [Normal m]) ->
     outside (with_extension_xmp final) (files d) (home ++ [Normal m]) ->
       nodes (files d') !! (home ++ [Normal m]) = Some (Plain b)) /\
    (forall k, outside source (files d) k -> outside (with_extension_xmp source) (files d) k ->
       outside final (files d) k -> outside (with_extension_xmp final) (files d) k ->
       nodes (files d') !! k = nodes (files d) !! k) /\
    by_id (the_index d') = <[asset_id record := Some (set_rec_album (Some album) (set_rec_path (path_text final) record))]>
                             (by_id (the_index d)) /\
    by_path (the_index d') = <[path_text final := asset_id record]> (delete (rec_path record) (by_path (the_index d))) /\
    (consistent (the_index d) -> by_id (the_index d) !! asset_id record = Some (Some record) ->
     by_path (the_index d) !! path_text final = None -> consistent (the_index d')).
Lemma move_file_moves c caller record album dir oc b n d o d' :
  tree_ok (files d) -> node_at (components (rec_path record)) (files d) = Some (Plain b) ->
  file_name (components (rec_path record)) = Some n -> components n = [Normal n] ->
  move_file c caller record album dir oc d = (Ok o, d') -> file_moved record album dir oc b n d o d'.
Proof.
  intros Ht Hsrc Hn Hcn H. unfold file_moved. set (source := components (rec_path record)) in *.
  unfold move_file in H. fold source in H.
  apply next_Ok in H as ([] & d1 & [= _ <-] & H). apply next_Ok in H as ([] & d1 & ->%gate_stays & H).
  apply next_Ok in H as (n' & d1 & [= Hn' <-] & H). rewrite Hn in Hn'. injection Hn' as <-.
  apply next_Ok in H as ([[final|] outcome] & d1 & [= Hdest <-] & H).
  2: { injection H as <- <-. left. split; [done|]. unfold file_destination in Hdest. rewrite Hcn in Hdest.
       destruct (exists_in _ _) eqn:He; [|done]. destruct (bool_decide _) eqn:Hs; [injection Hdest as <-; right|].
       - split; [done|]. by apply bool_decide_eq_true in Hs.
       - destruct oc; [injection Hdest as <-; by left|]. by destruct (find_unique_path _ _). }
  right. unfold asks in Hdest. destruct (file_destination _ _ _ _) as [[o' out]|] eqn:Hfd; [|done]. injection Hdest as -> ->.
  eapply file_destination_Ok in Hfd as (m & -> & Hfree & Hout); [|exact Hcn].
  unfold node_at in Hsrc. destruct (resolve source (files d)) as [qs|] eqn:Hqs; [|done]. cbn in Hsrc.
  apply next_Ok in H as (rr & d1 & Hren & H). unfold on_files in Hren.
  destruct (rename source _ (files d)) as [r1 t1] eqn:Hr1. injection Hren as <- <-.
  apply next_Ok in H as ([] & d1 & [= Hok <-] & H).
  destruct r1 as [[]|]; [|done].
  apply next_Ok in H as ([] & d1 & [= <-] & H). apply next_Ok in H as ([] & d2 & Hrows & H). injection H as <- <-.
  destruct (rename_to_free _ _ _ _ _ _ _ _ Ht Hqs Hsrc Hfree Hr1) as [(_ & _ & [=])|(q & Hq & Hqn & _ & Ht1)].
  apply rows_moved_Ok in Hrows as (Hfiles & n1 & Hix). cbn in Hix.
  pose proof Hq as (home & Hhome & Hfold & ->)%resolve_snoc.
  set (final := dir ++ [Normal m]) in *. exists final, home, m.
  assert (forall p, resolve p t1 = resolve p (files d)) as Hres.
  { subst t1. apply (rename_same_folders (files d) _ (home ++ [Normal m]) qs b); unfold is_folder; rewrite ?Hsrc, ?Hqn; done. }
  assert (Hout1 : forall p k, outside p (files d) k -> outside p t1 k) by (intros p k Ho x; rewrite Hres; apply Ho).
  split_and!; [done..| | |by rewrite Hix|by rewrite Hix|].
  - intros H1 H2. rewrite Hfiles. cbn. rewrite move_sidecar_outside by auto. rewrite Ht1. apply lookup_insert_eq.
  - intros k H1 H2 H3 H4. rewrite Hfiles. cbn. rewrite move_sidecar_outside by auto. by eapply rename_outside.
  - intros Hcon Hid Hpath. rewrite Hix. cbn. eapply tables_move; [done|done|by left|done..].
Qed.
Lemma file_moved_idle record album dir oc b n d d1 o d' : idle d d1 ->
  file_moved record album dir oc b n d1 o d' -> file_moved record album dir oc b n d o d'.
Proof.
  intros [k ->]. unfold file_moved. cbn [files with_index with_server]. intros [[Hi Ho]|(final & home & m & H)].
  - left. split; [|done]. etrans; [|exact Hi]. apply idle_index.
  - right. exists final, home, m. exact H.
Qed.

End FileMove.

(** ** New directories *)
Section NewDirectory.
Context {Jc : JsonCodec} {Lh : LegacyHash} {Ca : Casing} {Cr : Crypto} {J : Jwt} {Tc : TokenCodec}.
Context {Uc : Uppercase} {Sc : Sidecars} {Nk : Nfkc}.
Context {Io_ : IoFaults} {Ch : Chrono} {O : Outside}.

Lemma create_dir_Ok p t u t' : create_dir p t = (Ok u, t') -> exists q, resolve p t = Some q /\ nodes t !! q = None /\
  t' = called (set_nodes (<[q := Folder]> (nodes t)) t).
Proof.
  unfold create_dir, call. destruct (io_fault (calls t)); [done|]. destruct (resolve p t) as [q|] eqn:Hq; [|done].
  destruct (nodes t !! q) eqn:Hn; [done|]. intros [= <- <-]. by exists q.
Qed.
Lemma registered {Fa : Fates} now fresh dir l i l' : DirAlbumStore.create_dir_album now fresh dir l = (Ok i, l') ->
  cache (albums l') !! dir = Some i.
Proof.
  unfold DirAlbumStore.create_dir_album, get_album_id_for_dir. destruct (cache (albums l) !! dir) as [j|] eqn:Hc.
  - by intros [= <- <-].
  - destruct (write_album_to_db now fresh dir (index l)) as [w ix]. unfold get_or_create_dir_album. rewrite Hc.
    destruct w as [j|]; [|done]. intros [= <- <-]. apply lookup_insert_eq.
Qed.
Lemma album_name_component name : valid_album_name name = true -> components name = [Normal name].
Proof.
  unfold valid_album_name. rewrite negb_true_iff, !orb_false_iff. intros [[[[H0 H1] H2] H3] _].
  apply one_component; [by intros ->| | |by apply bool_decide_eq_false in H3]; intros ->; by rewrite (proj2 (str_eqb_eq _ _) eq_refl) in *.
Qed.

(** A new directory album is a directory directly below its parent album's, where
    nothing was before, and is registered under the identifier that is answered; only
    a signed-in user who may write the parent gets one. *)
Theorem create_dir_album_spec c req d i d' : create_dir_album c req d = (Ok i, d') ->
  exists claims parent, user_claims c (server d) = Ok claims /\ may_mutate c (server d) = Ok tt /\
    get_dir_path_for_album (cd_parent req) (the_albums d) = Some parent /\
    visible_to (F:=fs_of (files d)) (c_roots c) (caller_identity claims).1 parent = true /\
    let dir := parent ++ [Normal (trim (cd_name req))] in
    node_at dir (files d) = None /\ node_at dir (files d') = Some Folder /\
    (forall k v, nodes (files d) !! k = Some v -> nodes (files d') !! k = Some v) /\
    cache (the_albums d') !! dir = Some i /\ cd_parent req ∈ pending_updates (the_albums d').
Proof.
  unfold create_dir_album. intros (caller & d1 & [-> Hc]%caller_of_cases & H)%next_Ok.
  destruct (Hc caller eq_refl) as (claims & Hcl & Hmut & ->).
  destruct (negb (valid_album_name _)) eqn:Hname in H; [done|]. apply negb_false_iff, album_name_component in Hname.
  apply next_Ok in H as (parent & d1 & [= Hp <-] & H). apply next_Ok in H as ([] & d1 & Hg & H).
  pose proof (gate_stays _ _ _ _ _ _ _ _ Hg) as ->. rewrite Hname in H.
  destruct (get_dir_path_for_album _ _) as [parent'|] eqn:Hdir in Hp; [|done]. injection Hp as ->.
  change (push parent [Normal (trim (cd_name req))]) with (parent ++ [Normal (trim (cd_name req))]) in H.
  set (dir := parent ++ [Normal (trim (cd_name req))]) in *.
  apply next_Ok in H as (j & d1 & Hpool & H). apply next_Ok in H as ([] & d2 & Hsub & H). injection H as -> <-.
  destruct (in_pool_cases _ _ _ _ _ _ Hpool) as [[_ [=]]|(r0 & Hm & _ & Hr0)]. rewrite (Hr0 i eq_refl) in Hm. clear Hpool Hr0 r0.
  apply next_Ok in Hm as (rm & d3 & Hmk & Hm). unfold on_files in Hmk.
  destruct (create_dir dir (files d)) as [rc t] eqn:Hcreate. injection Hmk as <- <-.
  apply next_Ok in Hm as ([] & d3 & [= Hok <-] & Hm). destruct rc as [u|]; [|done].
  destruct (create_dir_Ok _ _ _ _ Hcreate) as (q & Hq & Hqn & ->).
  apply next_Ok in Hm as (i' & d3 & Hreg & Hm).
  destruct (DirAlbumStore.create_dir_album _ _ _ _) as [rr l] eqn:Hl in Hreg. injection Hreg as Hrr <-.
  destruct rr as [i''|]; [|done]. injection Hrr as ->. apply registered in Hl.
  apply next_Ok in Hm as ([] & d3 & [= <-] & Hm). injection Hm as -> <-.
  assert (Hsubmit : files d2 = called (set_nodes (<[q := Folder]> (nodes (files d))) (files d)) /\
    the_albums d2 = mark_album_for_update (cd_parent req) (albums l)).
  { unfold submitted_to in Hsub. destruct (taken _); [|done]. by injection Hsub as <-. }
  destruct Hsubmit as [Hf Ha]. exists claims, parent. cbv zeta. fold dir. rewrite Hf, Ha. split_and!; [done..| | | | | |].
  - unfold gate, asks in Hg. destruct (write_gate _ _ _ _) as [[]|] eqn:Hw in Hg; [|done]. revert Hw.
    unfold write_gate. cbn. apply gate_side_visible.
  - unfold node_at. rewrite Hq. exact Hqn.
  - unfold node_at. rewrite (resolve_kept dir (files d) _ q); [apply lookup_insert_eq|done| |done].
    intros f Hf'%is_folder_spec. apply is_folder_spec, lookup_insert_Some. right. split; [congruence|done].
  - intros k v Hk. cbn. rewrite lookup_insert_ne by congruence. done.
  - exact Hl.
  - cbn. set_solver.
Qed.
End NewDirectory.

(** ** On concrete moves *)
Import (hints) ServerWitness.
Import (hints) HomeWitness.
Import (hints) TokenWitness.
Import (hints) DeletionWitness.
Module MoveWitness.
Definition tables : Index :=
  mkIndex {[ lit "a" := Some (DeletionWitness.record AImage "a" "/p/a.jpg" "h1");
             lit "x" := Some (DeletionWitness.record AImage "x" "/p/s/x.jpg" "h2");
             lit "A" := Some (DeletionWitness.record AAlbum "A" "/p" ""); lit "Q" := Some (DeletionWitness.record AAlbum "Q" "/q" "");
             lit "S" := Some (DeletionWitness.record AAlbum "S" "/p/s" "") ]}
    {[ lit "/p/a.jpg" := lit "a"; lit "/p/s/x.jpg" := lit "x"; lit "/p" := lit "A"; lit "/q" := lit "Q"; lit "/p/s" := lit "S" ]}
    {[ lit "h1" := Some [lit "a"]; lit "h2" := Some [lit "x"] ]} ∅ 0.
Definition at_ (names : list string) : Path := EditWitness.place_of names.
Definition tree : Files := mkFiles (list_to_map
  ([([RootDir], Folder); (at_ ["p"], Folder); (at_ ["q"], Folder); (at_ ["p"; "s"], Folder);
    (at_ ["p"; "a.jpg"], Plain [1]); (at_ ["p"; "a.xmp"], Plain [2]); (at_ ["p"; "s"; "x.jpg"], Plain [3]);
    (at_ ["q"; "a.png"], Plain [4]); (at_ ["q"; "a.xmp"], Plain [5])])) [RootDir] 0.
Definition album_cache : Albums :=
  mkAlbums {[ at_ ["p"] := lit "A"; at_ ["q"] := lit "Q"; at_ ["p"; "s"] := lit "S" ]} ∅.
Definition desk : Desk := mkDesk (with_library (mkLib tables album_cache) ServerWitness.solo) tree (mkTree [] 0) [].
Definition assign (c : Ctx) (i album : string) : result Stop AssignOutcome * Desk :=
  assign_album (Ch:=IndexWitness.clock) c (mkAssign (lit i) (lit album) RenameNew) desk.
Definition path_of (i : string) (d : Desk) : option str :=
  match by_id (the_index d) !! lit i with Some (Some r) => Some (rec_path r) | _ => None end.
(** Tables in which nothing can be inserted. *)
Definition no_inserts : Ctx :=
  let c := DeletionWitness.ctx in
  mkCtx (c_now c) (c_user_io c) (c_index_io c) IndexWitness.no_insert (c_secret c) (c_bootstrap c) (c_read_only c) (c_roots c)
    (c_policy c) (c_open_registration c) (c_schedules c) (c_rate_limits c) (c_request c) (c_ip c) (c_rng c) (c_jti c)
    (c_random c) (c_new_id c) (c_mkdir c) (c_join c) (c_refreshed c).
End MoveWitness.
Import (hints) MoveWitness.

(** The sidecar of a moved file replaces the one of a file of the target album that has
    the same stem and another extension. *)
Theorem move_overwrites_sidecar :
  let run := MoveWitness.assign DeletionWitness.ctx "a" "Q" in
  run.1 = Ok Moved /\ MoveWitness.path_of "a" run.2 = Some (lit "/q/a.jpg") /\
  node_at (MoveWitness.at_ ["q"; "a.png"]) (files run.2) = Some (Plain [4]) /\
  node_at (MoveWitness.at_ ["q"; "a.xmp"]) MoveWitness.tree = Some (Plain [5]) /\
  node_at (MoveWitness.at_ ["q"; "a.xmp"]) (files run.2) = Some (Plain [2]).
Proof. vm_compute. done. Qed.
(** An album assigned to the album it lies in is renamed in place. *)
Theorem album_renamed_in_place :
  let run := MoveWitness.assign DeletionWitness.ctx "S" "A" in
  run.1 = Ok RenamedFrom /\ exists_in (files run.2) (MoveWitness.at_ ["p"; "s"]) = false /\
  node_at (MoveWitness.at_ ["p"; "s-001"; "x.jpg"]) (files run.2) = Some (Plain [3]) /\
  MoveWitness.path_of "x" run.2 = Some (lit "/p/s-001/x.jpg").
Proof. vm_compute. done. Qed.
(** The record of a moved album gets a path that ends in a separator, so its path is no
    key of the path table any more. *)
Theorem moved_album_path_ends_in_separator :
  let run := MoveWitness.assign DeletionWitness.ctx "S" "Q" in
  run.1 = Ok Moved /\ MoveWitness.path_of "S" run.2 = Some (lit "/q/s/") /\
  by_path (the_index run.2) !! lit "/q/s" = None /\ MoveWitness.path_of "x" run.2 = Some (lit "/q/s/x.jpg").
Proof. vm_compute. done. Qed.
(** A file whose row cannot be stored is moved all the same: the request fails, and the
    record names the place the file has left. *)
Theorem failed_move_loses_file :
  let run := MoveWitness.assign MoveWitness.no_inserts "a" "Q" in
  is_ok run.1 = false /\ MoveWitness.path_of "a" run.2 = Some (lit "/p/a.jpg") /\
  exists_in (files run.2) (MoveWitness.at_ ["p"; "a.jpg"]) = false /\
  node_at (MoveWitness.at_ ["q"; "a.jpg"]) (files run.2) = Some (Plain [1]).
Proof. vm_compute. done. Qed.

Lemma move_tree_ok : tree_ok MoveWitness.tree.
Proof. by apply tree_okb_ok. Qed.
Ltac by_rows H :=
  apply elem_of_map_to_list in H; vm_compute in H;
  repeat (apply elem_of_cons in H as [H|H]; [let E1 := fresh in let E2 := fresh in injection H as E1 E2; subst|]); [..|by apply elem_of_nil in H].
Lemma move_tables_ok : consistent MoveWitness.tables.
Proof.
  split.
  - intros i o Hi. by_rows Hi; (split; [by vm_compute|]); eexists; (split; [reflexivity|]); split; by vm_compute.
  - intros p i Hp. by_rows Hp; eexists; split; by vm_compute.
  - intros h i. split.
    + unfold members. destruct (dupes MoveWitness.tables !! h) as [g|] eqn:Hg; [|by intros ?%elem_of_nil].
      by_rows Hg; intros ->%list_elem_of_singleton; eexists; split; by vm_compute.
    + intros (r & Hi & Hh). by_rows Hi; vm_compute in Hh; simplify_eq/=; by left.
  - intros h g Hg. by_rows Hg; eexists; (split; [reflexivity|]); (split; [done|]); apply NoDup_singleton.
  - intros i [m Hm]. by_rows Hm.
Qed.
Lemma dir_move_keeps_tables_witness :
  exists ix', update_asset_tables_after_dir_move (Fa:=all_healthy) (MoveWitness.at_ ["p"; "s"]) (MoveWitness.at_ ["q"; "s"])
      MoveWitness.tables = (Ok tt, ix') /\ consistent ix' /\
    MoveWitness.path_of "x" (with_index ix' MoveWitness.desk) = Some (lit "/q/s/x.jpg").
Proof.
  destruct (dir_move_keeps_tables (MoveWitness.at_ ["p"; "s"]) (MoveWitness.at_ ["q"; "s"]) MoveWitness.tables) as (ix' & H1 & H2 & _ & _ & H3).
  - exact move_tables_ok.
  - intros p i rel Hp ->. apply (ok_paths _ _ _ _ move_tables_ok) in Hp as (r & Hr & Hp). by_rows Hr; discriminate Hp.
  - intros i j r s rel rel' Hi Hj H1 H2 He.
    by_rows Hi; vm_compute in H1; try discriminate H1; by_rows Hj; vm_compute in H2; try discriminate H2; try reflexivity;
      injection H1 as <-; injection H2 as <-; discriminate He.
  - exists ix'. split; [exact H1|]. split; [exact H2|]. unfold MoveWitness.path_of. cbn. rewrite H3. reflexivity.
Defined.
Lemma move_needs_write_access_witness :
  let run := MoveWitness.assign DeletionWitness.ctx "a" "Q" in
  idle MoveWitness.desk run.2 \/ exists claims dir record,
    user_claims DeletionWitness.ctx (server MoveWitness.desk) = Ok claims /\
    may_mutate DeletionWitness.ctx (server MoveWitness.desk) = Ok tt /\
    get_dir_path_for_album (lit "Q") MoveWitness.album_cache = Some dir /\
    movable DeletionWitness.ctx (caller_identity claims).1 (lit "a") dir MoveWitness.desk record.
Proof.
  intros run. refine (move_needs_write_access (Ch:=IndexWitness.clock) DeletionWitness.ctx (mkAssign (lit "a") (lit "Q") RenameNew)
    MoveWitness.desk run.1 run.2 (surjective_pairing _)).
Defined.
Lemma moved_ok : MoveWitness.assign DeletionWitness.ctx "a" "Q" = (Ok Moved, (MoveWitness.assign DeletionWitness.ctx "a" "Q").2).
Proof.
  assert ((MoveWitness.assign DeletionWitness.ctx "a" "Q").1 = Ok Moved) as H by (vm_compute; reflexivity).
  destruct (MoveWitness.assign _ _ _); cbn in *; congruence.
Qed.
Lemma new_album_ok : let m := create_dir_album DeletionWitness.ctx (mkCreateDir (lit "A") (lit " new ")) MoveWitness.desk in
  m = (Ok (lit "0"), m.2).
Proof. intros m. assert (m.1 = Ok (lit "0")) as H by (vm_compute; reflexivity). destruct m; cbn in *; congruence. Qed.
Lemma create_dir_album_spec_witness :
  let d' := (create_dir_album DeletionWitness.ctx (mkCreateDir (lit "A") (lit " new ")) MoveWitness.desk).2 in
  cache (the_albums d') !! MoveWitness.at_ ["p"; "new"] = Some (lit "0").
Proof.
  intros d'. destruct (create_dir_album_spec DeletionWitness.ctx (mkCreateDir (lit "A") (lit " new ")) MoveWitness.desk (lit "0") d'
    new_album_ok) as (claims & parent & _ & _ & Hp & _ & _ & _ & _ & Hc & _).
  vm_compute in Hp. injection Hp as <-. exact Hc.
Defined.
