(* ===== verification/ConfigRoutes.v ===== *)
(** * ConfigRoutes: reading and changing the configuration over the API
    ([backend/src/router/put/admin_config.rs], [router/get/admin_config.rs],
    [router/get/get_config.rs], [router/post/config_auth_key.rs])

    What the running process shows of its configuration, the change of its runtime part
    and the rotation of the signing key.  A request is served under the configuration
    of its moment: [configured] puts it in the place of the parameters the guards of
    [Accounts] read.  Reloading the watcher after a change is detached and left out. *)

From S2P Require Import Prelude RateLimit Errors Redb Password UserStore Revocations Invites LoginThrottle.
From S2P Require Import Paths Formats Model MetadataRecord DirAlbum Tokens RouterAuth IndexStore DirAlbumStore Accounts.
From S2P Require Import DataPages FileTree Xmp Config.

(** ** Requests on the process *)
Definition Step (A : Type) : Type := Machine -> result Stop A * Machine.
Definition ret {A} (a : A) : Step A := fun m => (Ok a, m).
Definition chain {A B} (x : Step A) (k : A -> Step B) : Step B := fun m =>
  match x m with
  | (Ok a, m) => k a m
  | (Err e, m) => (Err e, m)
  end.
Notation "'let+' x := m 'in' k" := (chain m (fun x => k))
  (at level 200, x pattern, m at level 100, k at level 200, right associativity).
Definition given {A} (r : app_result A) : Step A := fun m => (map_err Failed r, m).
Definition reject {A} (k : ErrorKind) (msg : str) : Step A := given (Err (new_error k msg)).
(** [with_config] panics before the configuration is installed. *)
Definition with_config {A} (f : AppConfig -> Step A) : Step A := fun m =>
  match app_config m with Some c => f c m | None => (Err Panicked, m) end.

(** The context of a request under a configuration. *)
Definition configured (fresh : str) (cfg : AppConfig) (m : Machine) (c : Ctx) : Ctx :=
  mkCtx (c_now c) (c_user_io c) (c_index_io c) (c_fates c)
    (get_jwt_secret_key cfg fresh m).1 (ac_bootstrap_admin cfg) (ac_read_only_mode cfg)
    (mkConfig (components <$> ac_image_home cfg) (components <$> ac_users_home cfg))
    (mkPolicy (trivial_override (c_policy c)) (Some (ac_trivial_passwords cfg)) (blocklist (c_policy c)) (weak_env (c_policy c)))
    (ac_allow_registration cfg)
    (mkSchedules
       (ac_login_ip_window_secs cfg, ac_login_ip_max_failures cfg, ac_login_ip_base_ban_secs cfg, ac_login_ip_max_ban_secs cfg)
       (ac_login_ip_long_window_secs cfg, ac_login_ip_long_max_failures cfg, ac_login_ip_long_base_ban_secs cfg,
        ac_login_ip_long_max_ban_secs cfg)
       (ac_login_user_long_window_secs cfg, ac_login_user_long_max_failures cfg, ac_login_user_long_base_ban_secs cfg,
        ac_login_user_long_max_ban_secs cfg))
    (c_rate_limits c) (c_request c) (c_ip c) (c_rng c) (c_jti c) (c_random c) (c_new_id c) (c_mkdir c) (c_join c) (c_refreshed c).

(** ** What is shown *)
Inductive ConfigTier := HostTier | RuntimeTier.
#[export] Instance ConfigTier_eq_dec : EqDecision ConfigTier.
Proof. solve_decision. Defined.
Record ConfigField := mkField { cf_name : string; cf_tier : ConfigTier; cf_env_var : option string }.
Definition CONFIG_FIELDS : list ConfigField := [
  mkField "address" HostTier (Some "PICASU_ADDRESS");
  mkField "port" HostTier (Some "PICASU_PORT");
  mkField "data_home" HostTier (Some "PICASU_DATA_HOME");
  mkField "image_home" HostTier (Some "PICASU_IMAGE_HOME");
  mkField "users_home" HostTier (Some "PICASU_USERS_HOME");
  mkField "upload_folder" RuntimeTier (Some "PICASU_UPLOAD_FOLDER");
  mkField "max_upload_size" RuntimeTier (Some "PICASU_MAX_UPLOAD_SIZE");
  mkField "read_only_mode" RuntimeTier (Some "PICASU_READ_ONLY_MODE");
  mkField "fs_notify_watcher" RuntimeTier (Some "PICASU_FS_NOTIFY_WATCHER");
  mkField "normalize_upload_filenames" RuntimeTier None;
  mkField "validate_upload_content" RuntimeTier None;
  mkField "use_client_timestamp_info" RuntimeTier None;
  mkField "allow_registration" RuntimeTier (Some "PICASU_ALLOW_REGISTRATION");
  mkField "trivial_passwords" HostTier (Some "PICASU_TRIVIAL_PASSWORDS");
  mkField "bootstrap_admin" HostTier (Some "PICASU_BOOTSTRAP_ADMIN");
  mkField "trust_proxy_forwarded_for" HostTier (Some "PICASU_TRUST_PROXY_FORWARDED_FOR");
  mkField "login_ip_window_secs" HostTier (Some "PICASU_LOGIN_IP_WINDOW_SECS");
  mkField "login_ip_max_failures" HostTier (Some "PICASU_LOGIN_IP_MAX_FAILURES");
  mkField "login_ip_base_ban_secs" HostTier (Some "PICASU_LOGIN_IP_BASE_BAN_SECS");
  mkField "login_ip_max_ban_secs" HostTier (Some "PICASU_LOGIN_IP_MAX_BAN_SECS");
  mkField "login_ip_long_window_secs" HostTier (Some "PICASU_LOGIN_IP_LONG_WINDOW_SECS");
  mkField "login_ip_long_max_failures" HostTier (Some "PICASU_LOGIN_IP_LONG_MAX_FAILURES");
  mkField "login_ip_long_base_ban_secs" HostTier (Some "PICASU_LOGIN_IP_LONG_BASE_BAN_SECS");
  mkField "login_ip_long_max_ban_secs" HostTier (Some "PICASU_LOGIN_IP_LONG_MAX_BAN_SECS");
  mkField "login_user_long_window_secs" HostTier (Some "PICASU_LOGIN_USER_LONG_WINDOW_SECS");
  mkField "login_user_long_max_failures" HostTier (Some "PICASU_LOGIN_USER_LONG_MAX_FAILURES");
  mkField "login_user_long_base_ban_secs" HostTier (Some "PICASU_LOGIN_USER_LONG_BASE_BAN_SECS");
  mkField "login_user_long_max_ban_secs" HostTier (Some "PICASU_LOGIN_USER_LONG_MAX_BAN_SECS");
  mkField "auth_key" HostTier (Some "PICASU_AUTH_KEY");
  mkField "web_root" HostTier (Some "PICASU_WEB_ROOT")
].
Record ConfigFieldEntry := mkEntry {
  ce_name : string; ce_value : Json; ce_tier : string; ce_source : string; ce_requires_restart : bool; ce_writable : bool
}.
Record RuntimeConfigDocument := mkRuntime {
  rd_upload_folder : str; rd_max_upload_size : str; rd_read_only_mode : bool; rd_fs_notify_watcher : bool;
  rd_normalize_upload_filenames : bool; rd_validate_upload_content : bool;
  rd_use_client_timestamp_info : bool; rd_allow_registration : bool
}.
Record AdminConfigExportResponse := mkExport { ex_version : N; ex_scope : str; ex_config : RuntimeConfigDocument }.
Record ConfigResponse := mkResponse {
  cr_upload_folder : str; cr_max_upload_size : str; cr_read_only_mode : bool; cr_fs_notify_watcher : bool;
  cr_normalize_upload_filenames : bool; cr_validate_upload_content : bool; cr_use_client_timestamp_info : bool;
  cr_personal_albums_enabled : bool
}.
Definition json_path (p : option str) : Json := match p with Some s => JStr s | None => JNull end.
Definition field_value (c : AppConfig) (name : string) : Json :=
  if String.eqb name "address" then JStr (ac_address c)
  else if String.eqb name "port" then JNum (Z.of_N (ac_port c))
  else if String.eqb name "data_home" then json_path (ac_data_home c)
  else if String.eqb name "image_home" then json_path (ac_image_home c)
  else if String.eqb name "users_home" then json_path (ac_users_home c)
  else if String.eqb name "upload_folder" then JStr (ac_upload_folder c)
  else if String.eqb name "max_upload_size" then JStr (ac_max_upload_size c)
  else if String.eqb name "read_only_mode" then JBool (ac_read_only_mode c)
  else if String.eqb name "fs_notify_watcher" then JBool (ac_fs_notify_watcher c)
  else if String.eqb name "normalize_upload_filenames" then JBool (ac_normalize_upload_filenames c)
  else if String.eqb name "validate_upload_content" then JBool (ac_validate_upload_content c)
  else if String.eqb name "use_client_timestamp_info" then JBool (ac_use_client_timestamp_info c)
  else if String.eqb name "allow_registration" then JBool (ac_allow_registration c)
  else if String.eqb name "trivial_passwords" then JBool (ac_trivial_passwords c)
  else if String.eqb name "bootstrap_admin" then JBool (ac_bootstrap_admin c)
  else if String.eqb name "trust_proxy_forwarded_for" then JBool (ac_trust_proxy_forwarded_for c)
  else if String.eqb name "login_ip_window_secs" then JNum (Z.of_N (ac_login_ip_window_secs c))
  else if String.eqb name "login_ip_max_failures" then JNum (Z.of_N (ac_login_ip_max_failures c))
  else if String.eqb name "login_ip_base_ban_secs" then JNum (Z.of_N (ac_login_ip_base_ban_secs c))
  else if String.eqb name "login_ip_max_ban_secs" then JNum (Z.of_N (ac_login_ip_max_ban_secs c))
  else if String.eqb name "login_ip_long_window_secs" then JNum (Z.of_N (ac_login_ip_long_window_secs c))
  else if String.eqb name "login_ip_long_max_failures" then JNum (Z.of_N (ac_login_ip_long_max_failures c))
  else if String.eqb name "login_ip_long_base_ban_secs" then JNum (Z.of_N (ac_login_ip_long_base_ban_secs c))
  else if String.eqb name "login_ip_long_max_ban_secs" then JNum (Z.of_N (ac_login_ip_long_max_ban_secs c))
  else if String.eqb name "login_user_long_window_secs" then JNum (Z.of_N (ac_login_user_long_window_secs c))
  else if String.eqb name "login_user_long_max_failures" then JNum (Z.of_N (ac_login_user_long_max_failures c))
  else if String.eqb name "login_user_long_base_ban_secs" then JNum (Z.of_N (ac_login_user_long_base_ban_secs c))
  else if String.eqb name "login_user_long_max_ban_secs" then JNum (Z.of_N (ac_login_user_long_max_ban_secs c))
  else if String.eqb name "auth_key" then JBool (is_some (ac_auth_key c))
  else if String.eqb name "web_root" then json_path (ac_web_root c)
  else JNull.
Definition runtime_document (c : AppConfig) : RuntimeConfigDocument := mkRuntime
  (ac_upload_folder c) (ac_max_upload_size c) (ac_read_only_mode c) (ac_fs_notify_watcher c) (ac_normalize_upload_filenames c) (ac_validate_upload_content c) (ac_use_client_timestamp_info c) (ac_allow_registration c).
(** The serialized form of the configuration, in the order of its fields. *)
Definition json_at (key : string) (v : Json) : list (str * Json) := [(lit key, v)].
Definition json_skip (key : string) (o : option str) : list (str * Json) :=
  match o with Some s => json_at key (JStr s) | None => [] end.
Definition app_config_json (c : AppConfig) : list (str * Json) :=
  json_at "address" (JStr (ac_address c)) ++ json_at "port" (JNum (Z.of_N (ac_port c))) ++ json_skip
  "dataHome" (ac_data_home c) ++ json_at "imagePath" (json_path (ac_image_home c)) ++ json_at "usersHome"
  (json_path (ac_users_home c)) ++ json_at "uploadFolder" (JStr (ac_upload_folder c)) ++ json_at
  "maxUploadSize" (JStr (ac_max_upload_size c)) ++ json_at "readOnlyMode" (JBool (ac_read_only_mode c)) ++
  json_at "fsNotifyWatcher" (JBool (ac_fs_notify_watcher c)) ++ json_at "normalizeUploadFilenames" (JBool
  (ac_normalize_upload_filenames c)) ++ json_at "validateUploadContent" (JBool (ac_validate_upload_content c))
  ++ json_at "useClientTimestampInfo" (JBool (ac_use_client_timestamp_info c)) ++ json_at "allowRegistration"
  (JBool (ac_allow_registration c)) ++ json_at "trivialPasswords" (JBool (ac_trivial_passwords c)) ++ json_at
  "bootstrapAdmin" (JBool (ac_bootstrap_admin c)) ++ json_at "trustProxyForwardedFor" (JBool
  (ac_trust_proxy_forwarded_for c)) ++ json_at "loginIpWindowSecs" (JNum (Z.of_N (ac_login_ip_window_secs c)))
  ++ json_at "loginIpMaxFailures" (JNum (Z.of_N (ac_login_ip_max_failures c))) ++ json_at "loginIpBaseBanSecs"
  (JNum (Z.of_N (ac_login_ip_base_ban_secs c))) ++ json_at "loginIpMaxBanSecs" (JNum (Z.of_N
  (ac_login_ip_max_ban_secs c))) ++ json_at "loginIpLongWindowSecs" (JNum (Z.of_N
  (ac_login_ip_long_window_secs c))) ++ json_at "loginIpLongMaxFailures" (JNum (Z.of_N
  (ac_login_ip_long_max_failures c))) ++ json_at "loginIpLongBaseBanSecs" (JNum (Z.of_N
  (ac_login_ip_long_base_ban_secs c))) ++ json_at "loginIpLongMaxBanSecs" (JNum (Z.of_N
  (ac_login_ip_long_max_ban_secs c))) ++ json_at "loginUserLongWindowSecs" (JNum (Z.of_N
  (ac_login_user_long_window_secs c))) ++ json_at "loginUserLongMaxFailures" (JNum (Z.of_N
  (ac_login_user_long_max_failures c))) ++ json_at "loginUserLongBaseBanSecs" (JNum (Z.of_N
  (ac_login_user_long_base_ban_secs c))) ++ json_at "loginUserLongMaxBanSecs" (JNum (Z.of_N
  (ac_login_user_long_max_ban_secs c))) ++ json_skip "authKey" (ac_auth_key c).

Definition ends_with (p s : str) : bool := starts_with (rev p) (rev s).
Section Shown.
Context {En : Environment}.
Definition source_for (field_name var : string) : string :=
  match env var with
  | None => "file"
  | Some raw =>
      let trimmed := trim raw in
      let known {A} (o : option A) : string := if is_some o then "env" else "file" in
      if is_empty trimmed then "file"
      else if String.eqb field_name "port" then known (parse_uint u16_max trimmed)
      else if existsb (String.eqb field_name) ["login_ip_max_failures"; "login_ip_long_max_failures"; "login_user_long_max_failures"]
      then known (parse_uint u32_max trimmed)
      else if starts_with (lit "login_") (lit field_name) && ends_with (lit "_secs") (lit field_name)
      then known (parse_uint u64_max trimmed)
      else if existsb (String.eqb field_name)
                ["read_only_mode"; "fs_notify_watcher"; "allow_registration"; "trivial_passwords"; "bootstrap_admin";
                 "trust_proxy_forwarded_for"]
      then if str_eqb trimmed (lit "true") || str_eqb trimmed (lit "false") then "env" else "file"
      else "env"
  end%string.
Definition entry_of (cfg : AppConfig) (f : ConfigField) : ConfigFieldEntry :=
  mkEntry (cf_name f) (field_value cfg (cf_name f))
    (match cf_tier f with HostTier => "host" | RuntimeTier => "runtime" end)
    (match cf_env_var f with Some var => source_for (cf_name f) var | None => "file" end)
    (bool_decide (cf_tier f = HostTier)) (bool_decide (cf_tier f = RuntimeTier)).
End Shown.
Definition public_config (cfg : AppConfig) : ConfigResponse :=
  mkResponse (ac_upload_folder cfg) (ac_max_upload_size cfg) (ac_read_only_mode cfg) (ac_fs_notify_watcher cfg)
    (ac_normalize_upload_filenames cfg) (ac_validate_upload_content cfg) (ac_use_client_timestamp_info cfg)
    (is_some (ac_users_home cfg)).
Definition exported (cfg : AppConfig) : Json :=
  JObj (filter (fun kv => str_eqb kv.1 (lit "authKey") = false) (app_config_json cfg)).

(** ** What is asked for *)
Record PartialUpdateConfigRequest := mkPatch {
  rq_address : option str; rq_port : option N; rq_upload_folder : option str; rq_max_upload_size : option str;
  rq_read_only_mode : option bool; rq_fs_notify_watcher : option bool;
  rq_normalize_upload_filenames : option bool; rq_validate_upload_content : option bool;
  rq_use_client_timestamp_info : option bool; rq_allow_registration : option bool;
  rq_trivial_passwords : option bool; rq_bootstrap_admin : option bool;
  rq_trust_proxy_forwarded_for : option bool; rq_login_ip_window_secs : option N;
  rq_login_ip_max_failures : option N; rq_login_ip_base_ban_secs : option N;
  rq_login_ip_max_ban_secs : option N; rq_login_ip_long_window_secs : option N;
  rq_login_ip_long_max_failures : option N; rq_login_ip_long_base_ban_secs : option N;
  rq_login_ip_long_max_ban_secs : option N; rq_login_user_long_window_secs : option N;
  rq_login_user_long_max_failures : option N; rq_login_user_long_base_ban_secs : option N;
  rq_login_user_long_max_ban_secs : option N; rq_auth_key : option str
}.
Definition host_only_knobs (r : PartialUpdateConfigRequest) : list (string * bool * string) := [
  ("address", is_some (rq_address r), "PICASU_ADDRESS or config `server.address`");
  ("port", is_some (rq_port r), "PICASU_PORT or config `server.port`");
  ("trivialPasswords", is_some (rq_trivial_passwords r), "--trivial-passwords, PICASU_TRIVIAL_PASSWORDS, or config `gallery.trivial_passwords`");
  ("bootstrapAdmin", is_some (rq_bootstrap_admin r), "--bootstrap-admin, PICASU_BOOTSTRAP_ADMIN, or config `gallery.bootstrap_admin`");
  ("trustProxyForwardedFor", is_some (rq_trust_proxy_forwarded_for r), "PICASU_TRUST_PROXY_FORWARDED_FOR or config `server.trust_proxy_forwarded_for`");
  ("loginIpWindowSecs", is_some (rq_login_ip_window_secs r), "PICASU_LOGIN_IP_WINDOW_SECS or config `server.login_ip_window_secs`");
  ("loginIpMaxFailures", is_some (rq_login_ip_max_failures r), "PICASU_LOGIN_IP_MAX_FAILURES or config `server.login_ip_max_failures`");
  ("loginIpBaseBanSecs", is_some (rq_login_ip_base_ban_secs r), "PICASU_LOGIN_IP_BASE_BAN_SECS or config `server.login_ip_base_ban_secs`");
  ("loginIpMaxBanSecs", is_some (rq_login_ip_max_ban_secs r), "PICASU_LOGIN_IP_MAX_BAN_SECS or config `server.login_ip_max_ban_secs`");
  ("loginIpLongWindowSecs", is_some (rq_login_ip_long_window_secs r), "PICASU_LOGIN_IP_LONG_WINDOW_SECS or config `server.login_ip_long_window_secs`");
  ("loginIpLongMaxFailures", is_some (rq_login_ip_long_max_failures r), "PICASU_LOGIN_IP_LONG_MAX_FAILURES or config `server.login_ip_long_max_failures`");
  ("loginIpLongBaseBanSecs", is_some (rq_login_ip_long_base_ban_secs r), "PICASU_LOGIN_IP_LONG_BASE_BAN_SECS or config `server.login_ip_long_base_ban_secs`");
  ("loginIpLongMaxBanSecs", is_some (rq_login_ip_long_max_ban_secs r), "PICASU_LOGIN_IP_LONG_MAX_BAN_SECS or config `server.login_ip_long_max_ban_secs`");
  ("loginUserLongWindowSecs", is_some (rq_login_user_long_window_secs r), "PICASU_LOGIN_USER_LONG_WINDOW_SECS or config `server.login_user_long_window_secs`");
  ("loginUserLongMaxFailures", is_some (rq_login_user_long_max_failures r), "PICASU_LOGIN_USER_LONG_MAX_FAILURES or config `server.login_user_long_max_failures`");
  ("loginUserLongBaseBanSecs", is_some (rq_login_user_long_base_ban_secs r), "PICASU_LOGIN_USER_LONG_BASE_BAN_SECS or config `server.login_user_long_base_ban_secs`");
  ("loginUserLongMaxBanSecs", is_some (rq_login_user_long_max_ban_secs r), "PICASU_LOGIN_USER_LONG_MAX_BAN_SECS or config `server.login_user_long_max_ban_secs`");
  ("authKey", is_some (rq_auth_key r), "rotate it with `POST /post/config/auth-key/reset`")
].
Definition patched (r : PartialUpdateConfigRequest) (c : AppConfig) : AppConfig := {|
  ac_address := ac_address c; ac_port := ac_port c; ac_data_home := ac_data_home c;
  ac_image_home := ac_image_home c; ac_users_home := ac_users_home c;
  ac_upload_folder := default (ac_upload_folder c) (rq_upload_folder r);
  ac_max_upload_size := default (ac_max_upload_size c) (rq_max_upload_size r);
  ac_read_only_mode := default (ac_read_only_mode c) (rq_read_only_mode r);
  ac_fs_notify_watcher := default (ac_fs_notify_watcher c) (rq_fs_notify_watcher r);
  ac_normalize_upload_filenames := default (ac_normalize_upload_filenames c) (rq_normalize_upload_filenames r);
  ac_validate_upload_content := default (ac_validate_upload_content c) (rq_validate_upload_content r);
  ac_use_client_timestamp_info := default (ac_use_client_timestamp_info c) (rq_use_client_timestamp_info r);
  ac_allow_registration := default (ac_allow_registration c) (rq_allow_registration r);
  ac_trivial_passwords := ac_trivial_passwords c; ac_bootstrap_admin := ac_bootstrap_admin c;
  ac_trust_proxy_forwarded_for := ac_trust_proxy_forwarded_for c;
  ac_login_ip_window_secs := ac_login_ip_window_secs c; ac_login_ip_max_failures := ac_login_ip_max_failures c;
  ac_login_ip_base_ban_secs := ac_login_ip_base_ban_secs c;
  ac_login_ip_max_ban_secs := ac_login_ip_max_ban_secs c;
  ac_login_ip_long_window_secs := ac_login_ip_long_window_secs c;
  ac_login_ip_long_max_failures := ac_login_ip_long_max_failures c;
  ac_login_ip_long_base_ban_secs := ac_login_ip_long_base_ban_secs c;
  ac_login_ip_long_max_ban_secs := ac_login_ip_long_max_ban_secs c;
  ac_login_user_long_window_secs := ac_login_user_long_window_secs c;
  ac_login_user_long_max_failures := ac_login_user_long_max_failures c;
  ac_login_user_long_base_ban_secs := ac_login_user_long_base_ban_secs c;
  ac_login_user_long_max_ban_secs := ac_login_user_long_max_ban_secs c; ac_auth_key := ac_auth_key c;
  ac_web_root := ac_web_root c |}.
Record AdminConfigUpdateResponse := mkUpdated { ur_config : RuntimeConfigDocument; ur_restart_required : list str }.
Definition bad_folder (folder : str) : bool :=
  starts_with (lit "/") folder || bool_decide (ParentDir ∈ components folder).

Section Routes.
Context {Io : IoFaults} {Jc : JsonCodec} {To : Toml} {En : Environment}.
Context {Lh : LegacyHash} {Ca : Casing} {Cr : Crypto} {J : Jwt} {Tc : TokenCodec} {F : Fs} {K : Nfkc}.
Variable c : Ctx.
Variable s : Server.
Variable fresh : str.

Definition under {A} (guard : Ctx -> Server -> app_result A) : Step A :=
  with_config (fun cfg m => given (guard (configured fresh cfg m c) s) m).

Definition get_admin_config_handler : Step (list ConfigFieldEntry) :=
  let+ _ := under admin_claims in
  with_config (fun cfg => ret (entry_of cfg <$> CONFIG_FIELDS)).
Definition get_admin_config_export_handler : Step AdminConfigExportResponse :=
  let+ _ := under admin_claims in
  with_config (fun cfg => ret (mkExport 1 (lit "server-runtime") (runtime_document cfg))).
Definition presenter_claims (c : Ctx) (s : Server) : app_result unit :=
  _ ← map_err snd (guard_presenter (view c s) (c_now c) (c_jti c) (c_request c)); Ok tt.
Definition get_config_handler : Step ConfigResponse :=
  let+ _ := under presenter_claims in
  with_config (fun cfg => ret (public_config cfg)).
Definition export_config_handler : Step str :=
  let+ _ := under admin_claims in
  with_config (fun cfg => ret (json_print (exported cfg))).

Definition updated (cfg : AppConfig) : Step unit := fun m =>
  match update fresh cfg m with
  | (Ok _, m) => (Ok tt, m)
  | (Err (Raised e), m) => (Err (Failed (from_err Internal e)), m)
  | (Err Panics, m) => (Err Panicked, m)
  end.
Definition update_admin_config_handler (req : PartialUpdateConfigRequest) : Step AdminConfigUpdateResponse :=
  let+ _ := under admin_claims in
  let+ _ := under may_mutate in
  let+ _ := given (or_raise Internal (lit "Task join error") (c_join c)) in
  match List.find (fun '(_, present, _) => present) (host_only_knobs req) with
  | Some (name, _, setters) => reject InvalidInput (lit name ++ lit " cannot be set via the API: " ++ lit setters)
  | None =>
      if is_some_and bad_folder (rq_upload_folder req)
      then reject InvalidInput (lit "upload_folder must be a relative path without '..' components")
      else
        with_config (fun current =>
          let+ _ := updated (patched req current) in
          with_config (fun applied => ret (mkUpdated (runtime_document applied) [])))
  end.

Definition reset_auth_key_handler (key : str) : Step unit :=
  let+ _ := under admin_claims in
  let+ _ := under may_mutate in
  let+ _ := (fun m => let '(r, m) := store_secret_key key m in (map_err (fun e => Failed (from_err IO e)) r, m)) in
  with_config (fun cfg m => (Ok tt, with_app_config (Some (set_auth_key (Some key) cfg)) m)).
End Routes.

(** ** What a change can change *)
(** The configuration with its runtime part at the defaults: the part of the host. *)
Definition host_part (c : AppConfig) : AppConfig := {|
  ac_address := ac_address c; ac_port := ac_port c; ac_data_home := ac_data_home c;
  ac_image_home := ac_image_home c; ac_users_home := ac_users_home c;
  ac_upload_folder := ac_upload_folder default_app_config;
  ac_max_upload_size := ac_max_upload_size default_app_config;
  ac_read_only_mode := ac_read_only_mode default_app_config;
  ac_fs_notify_watcher := ac_fs_notify_watcher default_app_config;
  ac_normalize_upload_filenames := ac_normalize_upload_filenames default_app_config;
  ac_validate_upload_content := ac_validate_upload_content default_app_config;
  ac_use_client_timestamp_info := ac_use_client_timestamp_info default_app_config;
  ac_allow_registration := ac_allow_registration default_app_config;
  ac_trivial_passwords := ac_trivial_passwords c; ac_bootstrap_admin := ac_bootstrap_admin c;
  ac_trust_proxy_forwarded_for := ac_trust_proxy_forwarded_for c;
  ac_login_ip_window_secs := ac_login_ip_window_secs c; ac_login_ip_max_failures := ac_login_ip_max_failures c;
  ac_login_ip_base_ban_secs := ac_login_ip_base_ban_secs c;
  ac_login_ip_max_ban_secs := ac_login_ip_max_ban_secs c;
  ac_login_ip_long_window_secs := ac_login_ip_long_window_secs c;
  ac_login_ip_long_max_failures := ac_login_ip_long_max_failures c;
  ac_login_ip_long_base_ban_secs := ac_login_ip_long_base_ban_secs c;
  ac_login_ip_long_max_ban_secs := ac_login_ip_long_max_ban_secs c;
  ac_login_user_long_window_secs := ac_login_user_long_window_secs c;
  ac_login_user_long_max_failures := ac_login_user_long_max_failures c;
  ac_login_user_long_base_ban_secs := ac_login_user_long_base_ban_secs c;
  ac_login_user_long_max_ban_secs := ac_login_user_long_max_ban_secs c; ac_auth_key := ac_auth_key c;
  ac_web_root := ac_web_root c |}.
(** A configuration as an update leaves it. *)
Definition settled (cfg : AppConfig) : Prop := cleaned cfg = cfg.

(** No part of the body names a field of the host. *)
Definition runtime_only (req : PartialUpdateConfigRequest) : Prop :=
  forall name present setters, (name, present, setters) ∈ host_only_knobs req -> present = false.
Lemma find_knob req : List.find (fun '(_, present, _) => present) (host_only_knobs req) = None -> runtime_only req.
Proof.
  intros H name present setters Hin. apply (List.find_none _ _ H (name, present, setters)). by apply list_elem_of_In.
Qed.

Lemma host_part_cleaned req cfg : settled cfg -> host_part (cleaned (patched req cfg)) = host_part cfg.
Proof.
  unfold settled. intros H. pose proof (f_equal ac_image_home H) as Hi. pose proof (f_equal ac_auth_key H) as Hk.
  destruct cfg. unfold host_part, cleaned, patched in *. cbn in *. by rewrite Hi, Hk.
Qed.

Section Changes.
Context {Io : IoFaults} {Jc : JsonCodec} {To : Toml} {En : Environment}.
Context {Lh : LegacyHash} {Ca : Casing} {Cr : Crypto} {J : Jwt} {Tc : TokenCodec} {F : Fs} {K : Nfkc}.

Lemma chain_cases {A B} (x : Step A) (k : A -> Step B) m r m' : (let+ a := x in k a) m = (r, m') ->
  (exists a m1, x m = (Ok a, m1) /\ k a m1 = (r, m')) \/ exists e, x m = (Err e, m') /\ r = Err e.
Proof.
  unfold chain. destruct (x m) as [[a|e] m1]; intros H; [left; eauto|]. right. injection H as <- <-. eauto.
Qed.
Lemma given_cases {A} (x : app_result A) m r m' : given x m = (r, m') ->
  m' = m /\ match r with Ok a => x = Ok a | Err _ => is_ok x = false end.
Proof. unfold given. intros [= <- <-]. by destruct x. Qed.
Lemma under_cases {A} c s fresh (guard : Ctx -> Server -> app_result A) m r m' : under c s fresh guard m = (r, m') ->
  m' = m /\ match r with
            | Ok a => exists cfg, app_config m = Some cfg /\ guard (configured fresh cfg m c) s = Ok a
            | Err _ => True
            end.
Proof.
  unfold under, with_config. destruct (app_config m) as [cfg|]; [|by intros [= <- <-]].
  intros [-> H]%given_cases. split; [done|]. destruct r; [eauto|done].
Qed.

(** A change through the API is made by an administrator while the server is not
    read-only; it replaces the runtime fields that are named and nothing of the host's
    part, and the answer says what is now in force; and when it is refused or fails,
    the running configuration is the old one. *)
Theorem admin_update_spec c s fresh req m r m' : update_admin_config_handler c s fresh req m = (r, m') ->
  match r with
  | Ok answer => exists cfg claims, app_config m = Some cfg /\ admin_claims (configured fresh cfg m c) s = Ok claims /\
      ac_read_only_mode cfg = false /\ runtime_only req /\
      let cfg' := cleaned (patched req cfg) in
      app_config m' = Some cfg' /\ (settled cfg -> host_part cfg' = host_part cfg) /\
      ur_config answer = runtime_document cfg' /\
      (fits cfg' -> TomlLaws -> exists bytes, node_at (config_file (get_config_dir m).1) (disk m') = Some (Plain bytes) /\
         loaded_config <$> utf8_decode bytes = Some (set_auth_key None cfg'))
  | Err _ => app_config m' = app_config m
  end.
Proof.
  unfold update_admin_config_handler. intros H.
  apply chain_cases in H as [(claims & m1 & [-> (cfg & Hcfg & Hadmin)]%under_cases & H)|(e & [-> _]%under_cases & ->)]; [|done].
  apply chain_cases in H as [([] & m1 & [-> (cfg2 & Hcfg2 & Hmut)]%under_cases & H)|(e & [-> _]%under_cases & ->)]; [|done].
  rewrite Hcfg in Hcfg2. injection Hcfg2 as <-.
  apply chain_cases in H as [([] & m1 & [-> _]%given_cases & H)|(e & [-> _]%given_cases & ->)]; [|done].
  destruct (List.find _ _) as [[[name present] setters]|] eqn:Hfind.
  { apply given_cases in H as [-> H]. by destruct r. }
  destruct (is_some_and bad_folder _); [apply given_cases in H as [-> H]; by destruct r|].
  unfold with_config in H at 1. rewrite Hcfg in H.
  assert (ac_read_only_mode cfg = false) as Hro.
  { unfold may_mutate, guard_mutate in Hmut. cbn in Hmut. by destruct (ac_read_only_mode cfg). }
  unfold chain, updated, update in H. destruct (save_update (cleaned (patched req cfg)) m) as [r1 m1] eqn:Hsave.
  pose proof (save_update_same _ _ _ _ Hsave) as [Happ _]. destruct r1 as [[]|e]; [|injection H as <- <-; exact Happ].
  rewrite Happ, Hcfg in H. cbn in H. injection H as <- <-.
  exists cfg, claims. split_and!; try done.
  - by apply find_knob.
  - intros Hs. by apply (host_part_cleaned req cfg).
  - intros Hfit Hlaws. destruct (saved_back (cleaned (patched req cfg)) m m1 Hfit Hsave) as (bytes & Hb & Hl). exists bytes. split; [|exact Hl].
    by destruct (is_some _) in |- *.
Qed.
End Changes.

(** ** The signing key is not shown *)
Lemma jget_kept key (l : list (str * Json)) : key <> lit "authKey" ->
  jget key (filter (fun kv => str_eqb kv.1 (lit "authKey") = false) l) = jget key l.
Proof.
  intros Hk. induction l as [|[k v] l IH]; [done|]. rewrite filter_cons. cbn [fst jget].
  destruct (decide (str_eqb k (lit "authKey") = false)) as [Hd|Hd]; [by cbn [jget]; rewrite IH|].
  rewrite IH. apply not_false_is_true, str_eqb_eq in Hd as ->.
  destruct (str_eqb (lit "authKey") key) eqn:He; [|done]. by apply str_eqb_eq in He.
Qed.

(** No answer depends on the signing key: what the configuration routes show of two
    configurations that differ only in the key is the same, but for whether there is
    one; the export shows every other serialized field as it is. *)
Theorem config_answers_hide_key cfg k k' :
  let a := set_auth_key k cfg in
  let b := set_auth_key k' cfg in
  exported a = exported b /\ public_config a = public_config b /\ runtime_document a = runtime_document b /\
  (forall En : Environment, is_some k = is_some k' -> (entry_of a <$> CONFIG_FIELDS) = (entry_of b <$> CONFIG_FIELDS)) /\
  (forall fields, exported a = JObj fields -> jget (lit "authKey") fields = None /\
     forall key, key <> lit "authKey" -> jget key fields = jget key (app_config_json a)).
Proof.
  cbv zeta. split_and!; [|done|done| |].
  - unfold exported. f_equal. unfold app_config_json. rewrite !filter_app. by destruct k, k'.
  - intros En Hk. unfold entry_of, field_value. cbn [ac_auth_key set_auth_key]. by rewrite Hk.
  - intros fields [= <-]. split; [|intros key; apply jget_kept].
    induction (app_config_json (set_auth_key k cfg)) as [|[x v] l IH]; [done|]. rewrite filter_cons. cbn [fst].
    destruct (decide (str_eqb x (lit "authKey") = false)) as [Hx|]; [|done]. cbn [jget]. by rewrite Hx.
Qed.

(** ** A new key ends every session *)
(** What the code relies on: a token does not verify under another key. *)
Class JwtKeys (J : Jwt) :=
  jwt_keyed key key' v now j : key <> key' -> is_ok (jwt_decode key' v now (jwt_encode key j)) = false.

Section Rotation.
Context {Io : IoFaults} {Jc : JsonCodec} {Jl : JsonLaws} {To : Toml} {En : Environment}.
Context {Lh : LegacyHash} {Ca : Casing} {Cr : Crypto} {J : Jwt} {Jk : JwtKeys J} {Tc : TokenCodec} {F : Fs} {K : Nfkc}.

Lemma other_key_refused w now req key j : key <> jwt_secret w -> cookie_jwt req = Some (jwt_encode key j) ->
  is_ok (guard_user w now req) = false /\ is_ok (guard_admin w now req) = false.
Proof.
  intros Hk Hreq. pose proof (jwt_keyed key (jwt_secret w) ValidateExp now j Hk) as Hd.
  assert (forall v, decode_typed (T:=ClaimsSession) (jwt_secret w) ValidateExp now (jwt_encode key j) = v -> is_ok v = false) as Hdec.
  { intros v <-. unfold decode_typed, my_decode_token. by destruct (jwt_decode _ _ _ _). }
  unfold guard_user, guard_admin, try_jwt_cookie_auth. rewrite Hreq.
  destruct (decode_typed _ _ _ _) as [cl|e]; [by specialize (Hdec _ eq_refl)|]. split.
  - destruct (user_count w) as [n|]; [|done]. by destruct (n =? 0)%nat.
  - by destruct (store_is_empty w).
Qed.
Lemma store_key_same key m r m' : store_secret_key key m = (r, m') -> same_process m m'.
Proof.
  unfold store_secret_key, secrets_file_path. pose proof (get_data_path_same m) as H.
  destruct (get_data_path m) as [home m1]. destruct (store_secret_key_to _ _ _). by intros [= _ <-].
Qed.

(** Rotating the key is an administrator's doing; the new key is stored where the
    process keeps its data and signs from then on, and no session that was signed with
    another key is admitted again, whatever the request. *)
Theorem reset_ends_sessions c s fresh key m m' : reset_auth_key_handler c s fresh key m = (Ok tt, m') ->
  exists cfg claims, app_config m = Some cfg /\ admin_claims (configured fresh cfg m c) s = Ok claims /\
    ac_read_only_mode cfg = false /\
    app_config m' = Some (set_auth_key (Some key) cfg) /\
    (forall c' s' old j, old <> key -> cookie_jwt (c_request c') = Some (jwt_encode old j) ->
       is_ok (user_claims (configured fresh (set_auth_key (Some key) cfg) m' c') s') = false /\
       is_ok (admin_claims (configured fresh (set_auth_key (Some key) cfg) m' c') s') = false) /\
    (tree_ok (disk (get_data_path m).2) -> trim key <> [] -> io_fault (calls (disk m')) = None ->
     Forall (fun x => is_scalar x = true) (json_print (secrets_json (Some key))) ->
     (load_secret_key_from (secrets_file (get_data_path m).1) (disk m')).1 = Ok (Some key)).
Proof.
  unfold reset_auth_key_handler. intros H.
  apply chain_cases in H as [(claims & m1 & [-> (cfg & Hcfg & Hadmin)]%under_cases & H)|(e & _ & [=])].
  apply chain_cases in H as [([] & m1 & [-> (cfg2 & Hcfg2 & Hmut)]%under_cases & H)|(e & _ & [=])].
  rewrite Hcfg in Hcfg2. injection Hcfg2 as <-.
  assert (ac_read_only_mode cfg = false) as Hro.
  { unfold may_mutate, guard_mutate in Hmut. cbn in Hmut. by destruct (ac_read_only_mode cfg). }
  apply chain_cases in H as [([] & m1 & Hst & H)|(e & _ & [=])].
  destruct (store_secret_key key m) as [[[]|] m2] eqn:Hs; [|done]. injection Hst as ->.
  pose proof (store_key_same _ _ _ _ Hs) as [Happ _]. unfold with_config in H. rewrite Happ, Hcfg in H. injection H as <-.
  exists cfg, claims. split_and!; try done.
  - intros c' s' old j Hold Hreq.
    destruct (other_key_refused (view (configured fresh (set_auth_key (Some key) cfg)
      (with_app_config (Some (set_auth_key (Some key) cfg)) m1) c') s') (c_now c') (c_request c') old j) as [H1 H2]; [done..|].
    unfold user_claims, admin_claims. cbn [c_now c_request configured].
    destruct (guard_user _ _ _); [done|]. by destruct (guard_admin _ _ _).
  - intros Ht Htrim Hio Htext. unfold store_secret_key, secrets_file_path in Hs.
    destruct (get_data_path m) as [home m0]. cbn [fst snd] in Ht |- *.
    destruct (store_secret_key_to _ _ _) as [r t] eqn:Hto. injection Hs as -> <-.
    assert (exists dir, secrets_file home = dir ++ [Normal (lit "secrets.json")]) as [dir Hdir].
    { exists (push (components home) [Normal (lit "auth")]). unfold secrets_file, push. by rewrite <-app_assoc. }
    rewrite Hdir in Hto |- *. exact (stored_back dir (lit "secrets.json") key (disk m0) t Ht Htrim Htext Hto Hio).
Qed.
End Rotation.

(** ** Concrete requests *)
Import (hints) ConfigWitness TokenWitness ServerWitness.
Module RouteWitness.
#[export] Instance jwt_keys : JwtKeys TokenWitness.jwt.
Proof.
  intros key key' v now j Hk. unfold jwt_decode, jwt_encode, TokenWitness.jwt. rewrite json_parse_print. destruct j as [| | | | | |f]; try done.
  destruct (jget _ f) as [[]|]; try done. destruct (str_eqb key' key) eqn:He; [|done].
  by apply str_eqb_eq in He as ->.
Qed.
Definition admin : Ctx := ServerWitness.ctx_at AuthWitness.now AuthWitness.signed_in (lit "jti") (Ok tt).
Definition serving : Machine :=
  mkMachine ConfigWitness.bare_disk (Some (lit "/p")) (Some (lit "/p/data"))
    (Some (set_auth_key (Some TokenWitness.key) default_app_config)) (Some (lit "fallback")).
Definition nothing : PartialUpdateConfigRequest := mkPatch
  None None None None None None None None None None None None None None None None None None None None None None None None
  None None.
Definition folder (name : string) : PartialUpdateConfigRequest := mkPatch
  None None (Some (lit name)) None None None None None None None None None None None None None None None None None None None
  None None None None.
Definition change (req : PartialUpdateConfigRequest) : result Stop AdminConfigUpdateResponse * Machine :=
  update_admin_config_handler (En:=ConfigWitness.at_home []) admin ServerWitness.solo (lit "fallback") req serving.
Definition folder_of (m : Machine) : option str := ac_upload_folder <$> app_config m.
Definition odd_env : Environment := ConfigWitness.at_home [("PICASU_PORT"%string, lit " 80"); ("PICASU_ADDRESS"%string, [])].
Definition answered {A} (x : result Stop A * Machine) : option A := result_ok x.1.
Lemma answers {A} (x : result Stop A * Machine) a : answered x = Some a -> x = (Ok a, x.2).
Proof. destruct x as [[b|] m]; cbn; [by intros [= ->]|done]. Qed.
Definition in_force : AppConfig := cleaned (patched (folder "in") (set_auth_key (Some TokenWitness.key) default_app_config)).
Lemma changed : change (folder "in") = (Ok (mkUpdated (runtime_document in_force) []), (change (folder "in")).2).
Proof. refine (answers _ _ _). vm_compute. reflexivity. Qed.
Definition rotate : result Stop unit * Machine :=
  reset_auth_key_handler (En:=ConfigWitness.at_home []) admin ServerWitness.solo (lit "fallback") (lit "new") serving.
Lemma rotated : rotate = (Ok tt, rotate.2).
Proof. refine (answers _ _ _). vm_compute. reflexivity. Qed.
Lemma key_is_new : TokenWitness.key <> lit "new".
Proof. by vm_compute. Qed.
End RouteWitness.
Import (hints) RouteWitness.

(** The folder is checked as it was sent and stored without the blanks around it: one
    blank in front makes an absolute folder pass. *)
Theorem padded_folder_escapes :
  bad_folder (lit "/etc") = true /\
  is_ok (RouteWitness.change (RouteWitness.folder "/etc")).1 = false /\
  is_ok (RouteWitness.change (RouteWitness.folder " /etc")).1 = true /\
  RouteWitness.folder_of (RouteWitness.change (RouteWitness.folder " /etc")).2 = Some (lit "/etc").
Proof. vm_compute. by split_and!. Qed.

(** An empty folder is stored as it is; it does not stand for the default. *)
Theorem empty_folder_is_no_reset :
  RouteWitness.folder_of (RouteWitness.change (RouteWitness.folder "")).2 = Some [] /\ default_upload_folder <> [].
Proof. vm_compute. by split. Qed.

(** What is said about the source of a field is not what happened: a padded number is
    said to come from the environment and is not taken, an empty address is said to
    come from the file and is taken from the environment. *)
Theorem source_misreports cfg :
  source_for (En:=RouteWitness.odd_env) "port" "PICASU_PORT" = "env"%string /\
  ac_port (apply_env_overrides (En:=RouteWitness.odd_env) cfg) = ac_port cfg /\
  source_for (En:=RouteWitness.odd_env) "address" "PICASU_ADDRESS" = "file"%string /\
  ac_address (apply_env_overrides (En:=RouteWitness.odd_env) cfg) = [].
Proof. split_and!; vm_compute; reflexivity. Qed.

Lemma admin_update_spec_witness : exists m',
  app_config m' = Some RouteWitness.in_force /\ host_part RouteWitness.in_force = host_part (set_auth_key (Some TokenWitness.key) default_app_config).
Proof.
  destruct (admin_update_spec (En:=ConfigWitness.at_home []) RouteWitness.admin ServerWitness.solo (lit "fallback")
    (RouteWitness.folder "in") RouteWitness.serving _ _ RouteWitness.changed) as (cfg & claims & Hc & _ & _ & _ & Hm & Hh & _).
  injection Hc as <-. exists (RouteWitness.change (RouteWitness.folder "in")).2. split; [exact Hm|].
  apply Hh. by vm_compute.
Defined.
Lemma reset_ends_sessions_witness :
  is_ok (admin_claims (configured (lit "fallback") (set_auth_key (Some (lit "new")) default_app_config)
           RouteWitness.rotate.2 RouteWitness.admin) ServerWitness.solo) = false.
Proof.
  destruct (reset_ends_sessions (En:=ConfigWitness.at_home []) RouteWitness.admin ServerWitness.solo (lit "fallback") (lit "new")
    RouteWitness.serving RouteWitness.rotate.2 RouteWitness.rotated) as (cfg & claims & Hc & _ & _ & _ & Hend & _).
  injection Hc as <-.
  exact (proj2 (Hend RouteWitness.admin ServerWitness.solo TokenWitness.key (session_to_value AuthWitness.session)
    RouteWitness.key_is_new eq_refl)).
Defined.
Lemma config_answers_hide_key_witness :
  exported (set_auth_key (Some (lit "k")) default_app_config) = exported (set_auth_key None default_app_config).
Proof. exact (proj1 (config_answers_hide_key default_app_config (Some (lit "k")) None)). Defined.
