(* ===== verification/Commands.v ===== *)
(** * Commands: administration from the command line
    ([backend/src/bin/picasu-cmd.rs], [backend/src/auth/store_location.rs])

    The offline commands on the user store: where the store is, which password policy
    holds, and each command with its prompts and answers.  A command is a process of its
    own: it opens the store's file anew, and a server that runs holds it.  What is
    printed on the standard output is the answer; the notes on the standard error
    stream and the parsing of the arguments are left out. *)

From S2P Require Import Prelude Errors Redb Password UserStore Paths Formats Model DirAlbum DirAlbumStore DataPages.
From S2P Require Import RouterAuth Accounts FileTree Xmp Config.
Import User.

(** ** Where the store is *)
Definition USER_STORE_FILE_NAME : str := lit "users.redb".
Inductive UserStoreSource := Explicit | DataHomeEnv | ConfigFile.
Record UserStoreLocation := mkLocation { loc_path : Path; loc_source : UserStoreSource }.
Definition user_store_path_in (data_home : str) : Path :=
  push (components data_home) [Normal (lit "auth"); Normal USER_STORE_FILE_NAME].
Definition resolve_user_store (explicit env_data_home config_data_home : option str) : option UserStoreLocation :=
  match explicit with
  | Some p => Some (mkLocation (components p) Explicit)
  | None =>
      match env_data_home, config_data_home with
      | Some home, _ => Some (mkLocation (user_store_path_in home) DataHomeEnv)
      | None, Some home => Some (mkLocation (user_store_path_in home) ConfigFile)
      | None, None => None
      end
  end.

(** ** Prompts *)
(** A terminal reads two hidden passwords; anything else is text that is read line by
    line. *)
Inductive Input := Hidden (first second : result str str) | Piped (text : str).
Fixpoint trim_end_of (drop : N -> bool) (s : str) : str :=
  match s with
  | [] => []
  | c :: s' => match trim_end_of drop s' with [] => if drop c then [] else [c] | r => c :: r end
  end.
(** Up to the first line feed, without it and the carriage returns before it. *)
Fixpoint take_line (text : str) : str * str :=
  match text with
  | [] => ([], [])
  | c :: text' => if c =? 10 then ([c], text') else let '(l, rest) := take_line text' in (c :: l, rest)
  end.
Definition read_piped_line (text : str) : result str (str * str) :=
  if is_empty text then Err (lit "unexpected end of input while reading password")
  else let '(line, rest) := take_line text in
       Ok (trim_end_of (fun c => (c =? 13) || (c =? 10)) line, rest).
Definition prompt_twice (input : Input) : result str str :=
  pair ← match input with
         | Hidden first second =>
             a ← map_err (fun e => lit "failed to read password: " ++ e) first;
             b ← map_err (fun e => lit "failed to read password: " ++ e) second;
             Ok (a, b)
         | Piped text =>
             a ← read_piped_line text;
             b ← read_piped_line a.2;
             Ok (a.1, b.1)
         end;
  if str_eqb pair.1 pair.2 then Ok pair.1 else Err (lit "passwords do not match").

(** ** The commands *)
Inductive UserCommand :=
| List_ (user : option str)
| Add (user : str) (admin : bool) (home password : option str)
| Mod_ (user : str) (home : option str) (admin no_admin : bool)
| Del (user : str) (force : bool)
| Passwd (user : str) (password : option str)
| Invalidate (user : str).

(** A command on the store: the printed lines, or the message of its failure. *)
Definition Cmd (A : Type) : Type := Store -> result str A * Store.
Definition cmd_bind {A B} (x : Cmd A) (k : A -> Cmd B) : Cmd B := fun st =>
  match x st with
  | (Ok a, st) => k a st
  | (Err e, st) => (Err e, st)
  end.
Notation "'let-' x := m 'in' k" := (cmd_bind m (fun x => k))
  (at level 200, x pattern, m at level 100, k at level 200, right associativity).
Definition say {A} (a : A) : Cmd A := fun st => (Ok a, st).
Definition sure {A} (r : result str A) : Cmd A := fun st => (r, st).
Definition told {A} (x : Store -> app_result A * Store) : Cmd A := fun st =>
  let '(r, st) := x st in (map_err display_error r, st).

Definition not_found : str :=
  lit "could not find " ++ USER_STORE_FILE_NAME ++ lit "; set location via PICASU_DATA_HOME or --userdb".
Definition store_for_read : Cmd unit := fun st =>
  (match UserStore.file st with Some _ => Ok tt | None => Err not_found end, st).
Definition canonical_id (user : str) : result str str := map_err display_error (validate_user_id user).
Definition unknown (id : str) : str := lit "unknown user: " ++ id.

Definition pad (width : nat) (s : str) : str := s ++ repeat 32 (width - length s).
Definition table_line (id admin home password : str) : str :=
  pad 16 id ++ lit " " ++ pad 5 admin ++ lit " " ++ pad 20 home ++ lit " " ++ password.
Definition print_table (rows : list (str * UserRecord)) : list str :=
  table_line (lit "ID") (lit "ADMIN") (lit "HOME") (lit "PASSWORD") ::
  ((fun '(id, entry) =>
      table_line id (if admin entry then lit "y" else lit "n") (default (lit "-") (home entry))
        (if hash entry then lit "set" else lit "none")) <$> rows).

Section Commands.
Context {Rd : Redb} {Lh : LegacyHash} {Jc : JsonCodec} {Ca : Casing} {Cr : Crypto}.
Variable p : Policy.
Variable rng : N.
Variable input : Input.

(** The record of a user that must be known. *)
Definition known (user : str) : Cmd (str * UserRecord) :=
  let- id := sure (canonical_id user) in
  let- found := told (UserDb.read_checked id) in
  match found with
  | Some entry => say (id, entry)
  | None => sure (Err (unknown id))
  end.
Definition password_of (password : option str) : result str str :=
  match password with Some s => Ok s | None => prompt_twice input end.

Definition cmd_list (user : option str) : Cmd (list str) :=
  let- _ := store_for_read in
  match user with
  | Some user => let- row := known user in say (print_table [row])
  | None => let- rows := told UserDb.list_checked in say (print_table rows)
  end.
Definition cmd_add (user : str) (admin : bool) (home password : option str) : Cmd (list str) :=
  let- password := sure (password_of password) in
  let- id := told (UserDb.provision p rng user password admin home) in
  say [lit "created user '" ++ id ++ lit "'"].
Definition cmd_mod (user : str) (home : option str) (admin no_admin : bool) : Cmd (list str) :=
  let- _ := store_for_read in
  let- row := known user in
  let id := row.1 in
  let- moved := match home with
                | Some home => told (UserDb.set_home id (Some home))
                | None => say false
                end in
  let- turned := if admin then told (UserDb.set_admin id true)
                 else if no_admin then told (UserDb.set_admin id false)
                 else say false in
  say [if moved || turned : bool then lit "updated user '" ++ id ++ lit "'"
       else lit "no changes requested for '" ++ id ++ lit "'"].
Definition cmd_del (user : str) (force : bool) : Cmd (list str) :=
  let- _ := store_for_read in
  let- row := known user in
  let '(id, current) := row in
  let- _ := (fun st =>
    if admin current && negb force then
      let '(rows, st) := UserDb.list st in
      (if existsb (fun '(uid, entry) => negb (str_eqb uid id) && admin entry) rows then Ok tt
       else Err (lit "refusing to delete the last admin '" ++ id ++ lit "'; use --force to override"), st)
    else (Ok tt, st)) in
  let- removed := told (UserDb.delete id force) in
  if removed : bool then say [lit "deleted user '" ++ id ++ lit "'"] else sure (Err (unknown id)).
Definition cmd_passwd (user : str) (password : option str) : Cmd (list str) :=
  let- _ := store_for_read in
  let- row := known user in
  let id := row.1 in
  let- password := sure (password_of password) in
  let- canonical := sure (map_err display_error (validate_new_password p id password)) in
  let- _ := told (UserDb.set_password (weak_env p) rng id canonical) in
  say [lit "updated password for '" ++ id ++ lit "'"].
Definition cmd_invalidate (user : str) : Cmd (list str) :=
  let- _ := store_for_read in
  let- id := sure (canonical_id user) in
  let- ver := told (UserDb.bump_ver id) in
  say [lit "invalidated the tokens of '" ++ id ++ lit "' (version " ++ show_N ver ++ lit ")"].
Definition serve (command : UserCommand) : Cmd (list str) :=
  match command with
  | List_ user => cmd_list user
  | Add user admin home password => cmd_add user admin home password
  | Mod_ user home admin no_admin => cmd_mod user home admin no_admin
  | Del user force => cmd_del user force
  | Passwd user password => cmd_passwd user password
  | Invalidate user => cmd_invalidate user
  end.
End Commands.

(** ** The process *)
Section Run.
Context {Io : IoFaults} {Jc : JsonCodec} {To : Toml} {En : Environment}.
Context {Rd : Redb} {Lh : LegacyHash} {Ca : Casing} {Cr : Crypto}.
Definition locate_user_store (explicit : option str) (m : Machine) : option UserStoreLocation :=
  resolve_user_store explicit (v ← env "PICASU_DATA_HOME"; non_empty (trim v)) (configured_data_home m).
Definition locate (explicit : option str) (m : Machine) : result str UserStoreLocation :=
  location ← ok_or (lit "cannot determine the user store location; set location via PICASU_DATA_HOME or --userdb")
               (locate_user_store explicit m);
  if is_dir (disk m) (loc_path location)
  then Err (lit "user store path is a directory, not a file: " ++ path_text (loc_path location))
  else Ok location.
Definition apply_password_policy (m : Machine) (p : Policy) : Policy :=
  let from_env := v ← env "PICASU_TRIVIAL_PASSWORDS"; parse_bool (trim v) in
  let enabled := default false (match from_env with Some b => Some b | None => configured_trivial_passwords m end) in
  (set_trivial_passwords_override enabled p).2.
(** The stores at their places; there is none where none is named. *)
Definition run (explicit : option str) (command : UserCommand) (rng : N) (input : Input) (blocked : gset str)
    (m : Machine) (stores : gmap Path Store) : result str (list str) * gmap Path Store :=
  let p := apply_password_policy m (mkPolicy None None blocked (env "PICASU_WEAK_PWHASH")) in
  match locate explicit m with
  | Err e => (Err e, stores)
  | Ok location =>
      let '(r, st) := serve p rng input command (default (mkStore (path_text (loc_path location)) None false false) (stores !! loc_path location)) in
      (r, <[loc_path location := st]> stores)
  end.
End Run.

(** ** A command is its operations on the store *)
Fixpoint effects `{LegacyHash, Casing, Crypto} (ops : list Op) (users : gmap str UserRecord) : option (gmap str UserRecord) :=
  match ops with
  | [] => Some users
  | o :: ops => m ← effect o users; effects ops m
  end.
Definition ops_of (p : Policy) (rng : N) (input : Input) (command : UserCommand) : list Op :=
  match command with
  | List_ _ => []
  | Add user admin home password =>
      match password_of input password with
      | Ok w => [OpProvision p rng user w admin home]
      | Err _ => []
      end
  | Mod_ user home admin no_admin =>
      match home with Some h => [OpSetHome (trim user) (Some h)] | None => [] end ++
      (if admin then [OpSetAdmin (trim user) true] else if no_admin then [OpSetAdmin (trim user) false] else [])
  | Del user force => [OpDelete (trim user) force]
  | Passwd user password =>
      match password_of input password with
      | Ok w => [OpSetPassword (weak_env p) rng (trim user) (trim w)]
      | Err _ => []
      end
  | Invalidate user => [OpBumpVer (trim user)]
  end.

Section Refinement.
Context {Rd : Redb} {Lh : LegacyHash} {Jc : JsonCodec} {Jl : JsonLaws} {Ca : Casing} {Cr : Crypto}.

Lemma effects_app ops ops' users : effects (ops ++ ops') users = m ← effects ops users; effects ops' m.
Proof. revert users. induction ops as [|o ops IH]; intros users; [done|]. cbn. destruct (effect o users); [apply IH|done]. Qed.

(** [x] performs [ops] when it succeeds, some first ones of them when it fails, and
    answers only what [Q] allows. *)
Definition performs {A} (ops : list Op) (x : Cmd A) (Q : A -> Prop) : Prop := forall st users r st',
  reads st users -> x st = (r, st') ->
  match r with
  | Ok a => Q a /\ exists m, effects ops users = Some m /\ reads st' m
  | Err _ => exists n m, effects (take n ops) users = Some m /\ reads st' m
  end.
Lemma performs_bind {A B} ops ops' (x : Cmd A) (k : A -> Cmd B) Q R :
  performs ops x Q -> (forall a, Q a -> performs ops' (k a) R) -> performs (ops ++ ops') (cmd_bind x k) R.
Proof.
  intros Hx Hk st users r st' Hr H. unfold cmd_bind in H. destruct (x st) as [[a|e] st1] eqn:Hxs.
  - destruct (Hx _ _ _ _ Hr Hxs) as (Ha & m & Hm & Hr1). specialize (Hk a Ha _ _ _ _ Hr1 H).
    destruct r as [b|e]; [destruct Hk as (Hb & m' & Hm' & Hr2)|destruct Hk as (n & m' & Hm' & Hr2)].
    + split; [done|]. exists m'. by rewrite effects_app, Hm.
    + exists (length ops + n)%nat, m'. split; [|done]. rewrite take_app_add, effects_app, Hm. exact Hm'.
  - injection H as <- <-. destruct (Hx _ _ _ _ Hr Hxs) as (n & m & Hm & Hr1). exists (n `min` length ops)%nat, m.
    split; [|done]. rewrite take_app_le by lia. by rewrite <-Hm, <-take_take, (take_ge ops (length ops)).
Qed.
Lemma performs_sure {A} (x : result str A) (Q : A -> Prop) : (forall a, x = Ok a -> Q a) -> performs [] (sure x) Q.
Proof. intros H st users r st' Hr [= <- <-]. destruct x as [a|e]; [split; [by apply H|by exists users]|by exists 0%nat, users]. Qed.
Lemma performs_say {A} (a : A) (Q : A -> Prop) : Q a -> performs [] (say a) Q.
Proof. intros H st users r st' Hr [= <- <-]. split; [done|by exists users]. Qed.
Lemma performs_weaken {A} ops (x : Cmd A) Q : performs ops x Q -> performs ops x (fun _ => True).
Proof. intros H st users r st' Hr Hx. specialize (H _ _ _ _ Hr Hx). destruct r; naive_solver. Qed.
Lemma performs_reader {A} (x : Cmd A) : (forall st users, reads st users -> reads (x st).2 users) ->
  performs [] x (fun _ => True).
Proof.
  intros H st users r st' Hr Hx. specialize (H st users Hr). rewrite Hx in H.
  destruct r; [split; [done|]; by exists users|by exists 0%nat, users].
Qed.
Lemma performs_rmw {A} (o : Op) (f : closure A) : (forall users, UserStore.effect o users = erase (f users)) ->
  performs [o] (told (rmw f)) (fun _ => True).
Proof.
  intros Ho st users r st' Hr Hx. unfold told in Hx. destruct (rmw f st) as [r0 st0] eqn:Hw. injection Hx as <- <-.
  apply (rmw_atomic f st users r0 st0 Hr) in Hw. destruct r0 as [a|e]; [|by exists 0%nat, users].
  destruct Hw as (m & Hf & Hm). split; [done|]. exists m. cbn [effects].
  assert (effect o users = Some m) as He by (by rewrite Ho, Hf). split; [by rewrite He|].
  apply Hm. eapply users_ok_effect; [by eapply represents_ok|done].
Qed.
Lemma performs_provision p rng user w admin home :
  performs [OpProvision p rng user w admin home] (told (UserDb.provision p rng user w admin home)) (fun _ => True).
Proof.
  unfold UserDb.provision.
  destruct (id ← validate_user_id user; canonical ← validate_new_password p id w; Ok (id, canonical)) as [[id c]|e] eqn:Hv.
  - intros st users r st' Hr Hx. unfold told in Hx. cbn in Hx.
    apply (performs_rmw (OpProvision p rng user w admin home)
      (provision_fn id (hash_password (weak_env p) rng c) admin home)) with (st:=st); [|done|exact Hx].
    intros us. unfold effect. by rewrite Hv.
  - intros st users r st' Hr Hx. unfold told in Hx. cbn in Hx. injection Hx as <- <-. by exists 0%nat, users.
Qed.

Lemma canonical_trim user id : canonical_id user = Ok id -> id = trim user.
Proof.
  unfold canonical_id, validate_user_id. destruct (is_empty (trim user)); [done|]. destruct (64 <? _); [done|]. by intros [= ->].
Qed.
Lemma read_checked_keeps id st users : reads st users -> reads (told (UserDb.read_checked id) st).2 users.
Proof.
  intros Hr. apply load_users_keeps in Hr. unfold told, UserDb.read_checked. by destruct (load_users st).
Qed.
Lemma known_performs user : performs [] (known user) (fun row => row.1 = trim user).
Proof.
  unfold known. apply (performs_bind [] [] _ _ (fun id => id = trim user)).
  - apply performs_sure. intros id. apply canonical_trim.
  - intros id ->. apply (performs_bind [] [] _ _ (fun _ => True)).
    + apply performs_reader. intros st users. apply read_checked_keeps.
    + intros [entry|] _; [by apply performs_say|by apply performs_sure].
Qed.
Lemma store_for_read_performs : performs [] store_for_read (fun _ => True).
Proof. by apply performs_reader. Qed.

(** Every command on a store that is there. *)
Ltac after_known := apply (performs_bind [] _ _ _ _ _ store_for_read_performs); intros _ _;
  try (apply (performs_bind [] _ _ _ _ _ (known_performs _)); intros row ->).
Lemma list_performs user : performs [] (cmd_list user) (fun _ => True).
Proof.
  apply (performs_bind [] [] _ _ _ _ store_for_read_performs). intros _ _. destruct user as [user|].
  - apply (performs_bind [] [] _ _ _ _ (known_performs user)). intros row _. by apply performs_say.
  - apply (performs_bind [] [] _ _ (fun _ => True)); [|intros rows _; by apply performs_say].
    apply performs_reader. intros st users Hr. apply load_users_keeps in Hr. unfold told, UserDb.list_checked.
    by destruct (load_users st).
Qed.
Lemma add_performs p rng input user admin home password :
  performs (ops_of p rng input (Add user admin home password)) (cmd_add p rng input user admin home password) (fun _ => True).
Proof.
  unfold cmd_add. cbn [ops_of]. destruct (password_of input password) as [w|e].
  - apply (performs_bind [] _ _ _ (fun a => a = w)); [by apply performs_sure; intros a [= ->]|]. intros a ->.
    apply (performs_bind [_] [] _ _ _ _ (performs_provision p rng user w admin home)). intros id _. by apply performs_say.
  - intros st users r st' Hr [= <- <-]. by exists 0%nat, users.
Qed.
Lemma mod_performs p rng input user home admin no_admin :
  performs (ops_of p rng input (Mod_ user home admin no_admin)) (cmd_mod user home admin no_admin) (fun _ => True).
Proof.
  cbn [ops_of]. after_known. apply (performs_bind _ _ _ _ (fun _ => True)).
  { destruct home as [h|]; [by apply performs_rmw|by apply performs_say]. }
  intros moved _. rewrite <-(app_nil_r (if admin then _ else _)).
  apply (performs_bind _ _ _ _ (fun _ => True)); [|intros turned _; by apply performs_say].
  destruct admin; [by apply performs_rmw|]. destruct no_admin; [by apply performs_rmw|by apply performs_say].
Qed.
Lemma del_performs user force : performs [OpDelete (trim user) force] (cmd_del user force) (fun _ => True).
Proof.
  apply (performs_bind [] _ _ _ _ _ store_for_read_performs). intros _ _.
  apply (performs_bind [] _ _ _ _ _ (known_performs user)). intros [id current] Hid. cbn in Hid. subst id.
  apply (performs_bind [] _ _ _ (fun _ => True)).
  { apply performs_reader. intros st users Hr. destruct (_ && _); [|done]. apply list_keeps in Hr.
    by destruct (UserDb.list st). }
  intros _ _. apply (performs_bind [_] [] _ _ (fun _ => True)); [by apply performs_rmw|].
  intros [|] _; [by apply performs_say|by apply performs_sure].
Qed.
Lemma passwd_performs p rng input user password :
  performs (ops_of p rng input (Passwd user password)) (cmd_passwd p rng input user password) (fun _ => True).
Proof.
  cbn [ops_of]. after_known. destruct (password_of input password) as [w|e]; [|intros st users r st' Hr [= <- <-]; by exists 0%nat, users].
  apply (performs_bind [] _ _ _ (fun a => a = w)); [by apply performs_sure; intros a [= ->]|]. intros a ->.
  apply (performs_bind [] _ _ _ (fun a => a = trim w)).
  { apply performs_sure. intros a. unfold validate_new_password. destruct (trivial_passwords_enabled p).
    - destruct (is_empty (trim w)); [done|]. by intros [= ->].
    - destruct (check_strength _ _ _); [by intros [= ->]|done]. }
  intros a ->. apply (performs_bind [_] [] _ _ (fun _ => True)); [by apply performs_rmw|].
  intros _ _. by apply performs_say.
Qed.
Lemma invalidate_performs user : performs [OpBumpVer (trim user)] (cmd_invalidate user) (fun _ => True).
Proof.
  apply (performs_bind [] _ _ _ _ _ store_for_read_performs). intros _ _.
  apply (performs_bind [] _ _ _ (fun id => id = trim user)); [apply performs_sure; intros id; apply canonical_trim|].
  intros id ->. apply (performs_bind [_] [] _ _ (fun _ => True)); [by apply performs_rmw|].
  intros ver _. by apply performs_say.
Qed.
Lemma serve_performs p rng input command :
  performs (ops_of p rng input command) (serve p rng input command) (fun _ => True).
Proof.
  destruct command; [apply list_performs|apply add_performs|apply (mod_performs p rng input)|apply del_performs
                    |apply passwd_performs|apply invalidate_performs].
Qed.

(** C10: A command carries out its operations on the records in order, all of them when it
    answers and some first ones when it fails, whatever calls of the disk fail. *)
Theorem command_refines p rng input command st users r st' :
  reads st users -> serve p rng input command st = (r, st') ->
  match r with
  | Ok _ => exists m, effects (ops_of p rng input command) users = Some m /\ reads st' m
  | Err _ => exists n m, effects (take n (ops_of p rng input command)) users = Some m /\ reads st' m
  end.
Proof.
  intros Hr H. pose proof (serve_performs p rng input command _ _ _ _ Hr H) as Hp. destruct r; [by destruct Hp|done].
Qed.

Lemma effects_keep (P : gmap str UserRecord -> Prop) ops : (forall o users m, o ∈ ops ->
    UserStore.effect o users = Some m -> P users -> P m) ->
  forall users m, effects ops users = Some m -> P users -> P m.
Proof.
  induction ops as [|o ops IH]; intros Ho users m He HP; [by injection He as <-|]. cbn in He.
  destruct (UserStore.effect o users) as [u|] eqn:H; [|done]. apply (IH ltac:(set_solver) u m He).
  eapply (Ho o users u); [set_solver|done..].
Qed.

(** C21: No command but a forced deletion takes the last administrator away, whatever fails
    and wherever it stops. *)
Theorem commands_keep_an_admin p rng input command st users r st' :
  (forall user, command <> Del user true) -> reads st users -> has_admin users ->
  serve p rng input command st = (r, st') -> exists users', reads st' users' /\ has_admin users'.
Proof.
  intros Hc Hr Ha H. pose proof (serve_performs p rng input command _ _ _ _ Hr H) as Hp.
  assert (forall o u m, o ∈ ops_of p rng input command -> UserStore.effect o u = Some m -> has_admin u -> has_admin m) as Hk.
  { intros o u m Ho. apply effect_has_admin. intros id ->. destruct command as [?|????|? [?|] [|] [|]|user [|]|? ?|?];
      cbn in Ho; try (by eapply Hc); try (destruct (password_of _ _)); set_solver. }
  destruct r; [destruct Hp as (_ & m & Hm & Hst)|destruct Hp as (n & m & Hm & Hst)]; exists m; (split; [done|]).
  - by eapply effects_keep.
  - eapply effects_keep; [|exact Hm|exact Ha]. intros o u m' Ho. apply Hk.
    apply elem_of_take in Ho as (i & Hi & _). by eapply list_elem_of_lookup_2.
Qed.

(** A new password and an invalidation move the version of the user on, so that no
    token of before is admitted; nobody else's record changes. *)
Theorem commands_end_sessions p rng input command user st users lines st' :
  (exists password, command = Passwd user password) \/ command = Invalidate user ->
  reads st users -> serve p rng input command st = (Ok lines, st') ->
  exists users', reads st' users' /\
    (forall u, users !! trim user = Some u -> exists u', users' !! trim user = Some u' /\ ver u' = wrapping_add_u64 (ver u) 1) /\
    forall id, id <> trim user -> users' !! id = users !! id.
Proof.
  intros Hc Hr H. pose proof (serve_performs p rng input command _ _ _ _ Hr H) as (_ & m & Hm & Hst).
  exists m. split; [done|]. destruct Hc as [[password ->]| ->]; cbn [ops_of] in Hm.
  - destruct (password_of input password) as [w|e] eqn:Hw.
    + cbn in Hm. rewrite trim_idemp in Hm. injection Hm as <-. destruct (users !! trim user) as [u0|]; split.
      * intros u [= <-]. rewrite lookup_insert_eq. by eexists.
      * intros id Hid. by rewrite lookup_insert_ne.
      * done.
      * intros id Hid. by rewrite lookup_insert_ne.
    + exfalso. cbn [serve] in H. unfold cmd_passwd, cmd_bind in H. destruct (store_for_read st) as [[?|?] st1]; [|done].
      destruct (known user st1) as [[?|?] st2]; [|done]. unfold sure in H. by rewrite Hw in H.
  - cbn in Hm. rewrite trim_idemp in Hm. unfold bump_ver_fn, unknown_user in Hm. cbn in Hm.
    destruct (users !! trim user) as [u0|] eqn:Hu; [|done]. injection Hm as <-. split.
    + intros u [= <-]. rewrite lookup_insert_eq. by eexists.
    + intros id Hid. by rewrite lookup_insert_ne.
Qed.
End Refinement.

(** ** Where the server keeps the store, and where the command looks *)
Section Where.
Context {Io : IoFaults} {Jc : JsonCodec} {To : Toml} {En : Environment}.
(** [users.rs]: the server's store lies below the data home in force. *)
Definition user_store_path (m : Machine) : Path * Machine :=
  let '(home, m) := get_data_path m in (user_store_path_in home, m).

(** The location names the store's file unless one is named outright, and prefers the
    environment to the file. *)
Lemma located explicit m l : locate_user_store explicit m = Some l ->
  match explicit with
  | Some p => loc_path l = components p
  | None => exists home, loc_path l = user_store_path_in home /\
      match loc_source l with
      | Explicit => False
      | DataHomeEnv => exists v, env "PICASU_DATA_HOME" = Some v /\ home = trim v /\ home <> []
      | ConfigFile => configured_data_home m = Some home
      end
  end.
Proof.
  unfold locate_user_store, resolve_user_store. destruct explicit as [s|]; [by intros [= <-]|].
  destruct (env "PICASU_DATA_HOME") as [v|] eqn:Hv; cbn.
  - destruct (trim v) as [|c s] eqn:Ht; cbn.
    + destruct (configured_data_home m) as [h|] eqn:Hc; [|done]. intros [= <-]. by exists h.
    + intros [= <-]. exists (c :: s). split; [done|]. by exists v.
  - destruct (configured_data_home m) as [h|] eqn:Hc; [|done]. intros [= <-]. by exists h.
Qed.

Lemma prepared_data_home m v : env "PICASU_DATA_HOME" = Some v -> trim v = v -> v <> [] ->
  ac_data_home (prepared m).1.1 = Some v.
Proof.
  intros Hv Ht Hn.
  assert (forall c, ac_data_home (apply_env_overrides c) = Some v) as He.
  { intros c. unfold apply_env_overrides, apply_env_overrides_with, set_str. cbn [ac_data_home]. rewrite Hv. cbn.
    rewrite Ht. by destruct v. }
  unfold prepared. destruct (get_config_dir m) as [dir m1]. cbv zeta. destruct (read_to_string _ _) as [raw t].
  destruct (stored_key _ _) as [key m2]. destruct (ac_users_home _); cbn [fst]; [apply He|].
  destruct (data_home_of _ _) as [home m3]. cbn. apply He.
Qed.
Lemma installed_data_path fresh c m m' v : ac_data_home c = Some v -> data_path m = None \/ data_path m = Some v ->
  installed fresh c m = (Ok tt, m') -> data_path m' = Some v.
Proof.
  intros Hc Hm. unfold installed.
  set (w := match ac_web_root c with Some _ => _ | None => _ end).
  assert (ac_data_home w.1 = Some v /\ data_path w.2 = data_path m) as [Hw1 Hw2].
  { unfold w. destruct (ac_web_root c); [done|]. unfold data_home_of. by rewrite Hc. }
  destruct w as [c' m1]. cbn in Hw1, Hw2. unfold data_home_of. rewrite Hw1, Hw2.
  destruct (k ← ac_auth_key c'; non_empty k); cbn; destruct (app_config m1); try done; intros [= <-]; cbn;
    by destruct Hm as [-> | ->].
Qed.
Lemma init_data_path fresh m m' v : env "PICASU_DATA_HOME" = Some v -> trim v = v -> v <> [] ->
  data_path m = None -> init fresh m = (Ok tt, m') -> data_path m' = Some v.
Proof.
  intros Hv Ht Hn Hm. unfold init. pose proof (prepared_data_home m v Hv Ht Hn) as Hd.
  pose proof (proj1 (prepared_same m)) as Hp. destruct (prepared m) as [[c b] m0]. cbn [fst snd] in *.
  destruct (validate_login_throttle c); [|done]. destruct (validate_users_home _ c); [|done].
  apply installed_data_path; [done|].
  assert (same_process m (if b : bool then (save_update c m0).2 else m0)) as (_ & _ & [H|H]).
  { destruct b; [|done]. destruct (save_update c m0) as [r m1] eqn:Hs. etrans; [exact Hp|by eapply save_update_same]. }
  - left. congruence.
  - right. by apply H.
Qed.

(** A server that starts with the data home in its environment keeps the users where the
    command, run in the same environment and told no place, looks for them, whatever
    both have in their files. *)
Theorem cli_store_is_servers fresh v m m' other : env "PICASU_DATA_HOME" = Some v -> trim v = v -> v <> [] ->
  data_path m = None -> init fresh m = (Ok tt, m') ->
  locate_user_store None other = Some (mkLocation (user_store_path m').1 DataHomeEnv).
Proof.
  intros Hv Ht Hn Hm Hi. apply (init_data_path fresh m m' v Hv Ht Hn Hm) in Hi.
  unfold locate_user_store, user_store_path, get_data_path. rewrite Hv, Hi. cbn. rewrite Ht. by destruct v.
Qed.
End Where.

(** ** Concrete runs *)
Import (hints) ConfigWitness.
Module CommandWitness.
Definition policy : Policy := mkPolicy (Some true) None ∅ None.
Definition solo : Store := mkStore (lit "/d/auth/users.redb") (Some (Some (encoded AuthWitness.solo))) false false.
Definition typed (text : string) : Input := Piped (lit text).
Definition serving (command : UserCommand) (st : Store) : result str (list str) * Store :=
  serve policy 0 (typed "") command st.
Definition passwd : UserCommand := Passwd UserWitness.alice (Some (lit "new")).
Definition demote : UserCommand := Mod_ UserWitness.alice (Some (lit "/elsewhere")) false true.
Lemma cmd_answers {A} (x : result str A * Store) : is_ok x.1 = true -> exists a, x = (Ok a, x.2).
Proof. destruct x as [[a|e] st]; [by exists a|done]. Qed.
Lemma passwd_answers : exists lines, serving passwd solo = (Ok lines, (serving passwd solo).2).
Proof. refine (cmd_answers _ _). by vm_compute. Qed.
End CommandWitness.

Lemma command_refines_witness : exists lines m,
  CommandWitness.serving CommandWitness.passwd CommandWitness.solo
    = (Ok lines, (CommandWitness.serving CommandWitness.passwd CommandWitness.solo).2) /\
  effects [OpSetPassword None 0 UserWitness.alice (lit "new")] AuthWitness.solo = Some m /\
  reads (CommandWitness.serving CommandWitness.passwd CommandWitness.solo).2 m.
Proof.
  destruct CommandWitness.passwd_answers as [lines H].
  destruct (command_refines CommandWitness.policy 0 (CommandWitness.typed "") CommandWitness.passwd
    CommandWitness.solo AuthWitness.solo (Ok lines) _ AuthWitness.solo_reads H) as (m & Hm & Hr).
  exists lines, m. split; [exact H|]. split; [exact Hm|exact Hr].
Defined.
Lemma commands_keep_an_admin_witness : exists users',
  reads (CommandWitness.serving CommandWitness.demote CommandWitness.solo).2 users' /\ has_admin users'.
Proof.
  refine (commands_keep_an_admin CommandWitness.policy 0 (CommandWitness.typed "") CommandWitness.demote
    CommandWitness.solo AuthWitness.solo (CommandWitness.serving CommandWitness.demote CommandWitness.solo).1 _ _
    AuthWitness.solo_reads _ _).
  - done.
  - exists UserWitness.alice. eexists. split; [apply lookup_singleton_eq|done].
  - apply surjective_pairing.
Defined.
Lemma commands_end_sessions_witness : exists users',
  reads (CommandWitness.serving CommandWitness.passwd CommandWitness.solo).2 users' /\
  (forall u, AuthWitness.solo !! UserWitness.alice = Some u ->
     exists u', users' !! UserWitness.alice = Some u' /\ ver u' = wrapping_add_u64 (ver u) 1) /\
  forall id, id <> UserWitness.alice -> users' !! id = AuthWitness.solo !! id.
Proof.
  destruct CommandWitness.passwd_answers as [lines H].
  refine (commands_end_sessions CommandWitness.policy 0 (CommandWitness.typed "") CommandWitness.passwd UserWitness.alice
    CommandWitness.solo AuthWitness.solo lines _ _ AuthWitness.solo_reads H).
  left. by eexists.
Defined.
Lemma cli_store_is_servers_witness :
  locate_user_store (En:=ConfigWitness.at_home []) None (ConfigWitness.stopped ConfigWitness.empty_disk) =
  Some (mkLocation (user_store_path (En:=ConfigWitness.at_home []) (ConfigWitness.after [] ConfigWitness.empty_disk)).1 DataHomeEnv).
Proof.
  refine (cli_store_is_servers (En:=ConfigWitness.at_home []) (lit "fallback") (lit "/p/data")
    (ConfigWitness.stopped ConfigWitness.empty_disk) _ _ _ _ _ _ ConfigWitness.booted); by vm_compute.
Defined.

(** Command and server do not read the environment alike: a padded value allows weak
    passwords in the command's process and not in the server's. *)
Theorem policies_differ :
  let spaced := [("PICASU_TRIVIAL_PASSWORDS"%string, lit " true")] in
  let m := ConfigWitness.after spaced ConfigWitness.empty_disk in
  ac_trivial_passwords (ConfigWitness.running m) = false /\
  trivial_passwords_enabled (apply_password_policy (En:=ConfigWitness.at_home spaced) m (mkPolicy None None ∅ None)) = true.
Proof. vm_compute. by split. Qed.

(** With a data home that is padded in the environment and a file that names none, the
    server's store is not where the command looks. *)
Theorem padded_home_splits_stores :
  let padded := [("PICASU_DATA_HOME"%string, lit " /q")] in
  let m := ConfigWitness.after padded ConfigWitness.bare_disk in
  (user_store_path (En:=ConfigWitness.at_home padded) m).1 = components (lit " /q/auth/users.redb") /\
  locate_user_store (En:=ConfigWitness.at_home padded) None m
    = Some (mkLocation (components (lit "/q/auth/users.redb")) DataHomeEnv).
Proof. vm_compute. by split. Qed.

(** A change that is refused has been made in part: the home is moved, the answer is
    that the demotion is refused. *)
Theorem refused_demotion_moves_home :
  let '(r, st) := CommandWitness.serving CommandWitness.demote CommandWitness.solo in
  r = Err (lit "Conflict: demotion would leave zero admins") /\
  exists u, (UserDb.read_checked UserWitness.alice st).1 = Ok (Some u) /\
    home u = Some (lit "/elsewhere") /\ admin u = true.
Proof. vm_compute. split; [done|]. by eexists. Qed.
