(* ===== verification/Startup.v ===== *)
(** * Startup: from the command line to the first request
    ([backend/src/main.rs], [lib.rs], [init.rs], [router/builder.rs])

    A start reads the flags into the environment, installs the configuration, makes the
    directories and tables, refuses a bootstrap over an existing user store, fills the
    cache of directory albums and builds the web server.  The parsing of the arguments,
    the check for [ffmpeg], the summary that is logged and what runs after the first
    request are left out. *)

From S2P Require Import Prelude Errors Redb Password UserStore Paths Formats Model MetadataRecord DirAlbum IndexStore.
From S2P Require Import Tokens RouterAuth Accounts FileTree Xmp Config ConfigRoutes Commands.

(** ** The flags ([main.rs]) *)
Record Cli := mkCli {
  cl_dump_openapi : bool;
  cl_check_openapi : option (option str);       (* absent, bare, or with the document's path *)
  cl_trivial_passwords : bool; cl_bootstrap_admin : bool
}.
Definition set_var (var : string) (v : str) (En : Environment) : Environment := {|
  env x := if bool_decide (x = var) then Some v else @env En x;
  os_standard := @os_standard En
|}.
Definition bridged (cli : Cli) (En : Environment) : Environment :=
  let En := if cl_trivial_passwords cli then set_var "PICASU_TRIVIAL_PASSWORDS" (lit "true") En else En in
  if cl_bootstrap_admin cli then set_var "PICASU_BOOTSTRAP_ADMIN" (lit "true") En else En.

(** ** Steps of the start *)
Definition Boot (A : Type) : Type := Machine -> result Fault A * Machine.
Definition next {A B} (x : Boot A) (k : A -> Boot B) : Boot B := fun m =>
  match x m with
  | (Ok a, m) => k a m
  | (Err e, m) => (Err e, m)
  end.
Declare Scope boot_scope.
Delimit Scope boot_scope with boot.
Notation "'let>' x ':=' m 'in' k" := (next m (fun x => k))
  (at level 10, x pattern, m at level 100, k at level 200) : boot_scope.
Open Scope boot_scope.
Definition done_ {A} (a : A) : Boot A := fun m => (Ok a, m).
(** [expect] *)
Definition expect {E A} (r : result E A) : Boot A := fun m => (map_err (fun _ => Panics) r, m).
Definition current_config : Boot AppConfig := fun m => expect (ok_or tt (app_config m)) m.

(** [str::parse::<ByteUnit>] of the web framework, in bytes, and whether the built server
    can be started. *)
Class Framework := { byte_unit : str -> option N; ignite : str -> N -> result str unit }.

Record RocketConfig := mkRocket {
  rk_address : str; rk_port : N; rk_file_limit : N; rk_form_limit : N; rk_assets : str
}.

Section Start.
Context {Io : IoFaults} {Jc : JsonCodec} {To : Toml} {En : Environment} {Rd : Redb} {Fw : Framework}.

Definition get_data_path_ : Boot str := fun m => let '(home, m) := get_data_path m in (Ok home, m).
Definition data_home_in (c : AppConfig) : Boot str := fun m => let '(home, m) := data_home_of c m in (Ok home, m).
Definition make_directory (p : Path) : Boot unit := fun m =>
  let '(r, t) := create_dir_all p (disk m) in expect r (with_disk t m).

Definition initialize_folder : Boot unit :=
  let> c := current_config in
  let> data_home := data_home_in c in
  let> _ := make_directory (push (components data_home) (components (lit "db"))) in
  let> _ := make_directory (push (components data_home) (components (lit "object/compressed"))) in
  match ac_image_home c with
  | Some root =>
      let> _ := make_directory (components root) in
      make_directory (push (components root) (components (ac_upload_folder c)))
  | None => done_ tt
  end.

(** A file of the last run: removed if it is there, and left if that fails. *)
Definition cache_files : list string := ["db/temp_db.redb"; "db/cache_db.redb"; "db/expire_db.redb"]%string.
Definition clear_cache (root : str) (name : string) (t : Files) : Files :=
  let db_path := push (components root) (components (lit name)) in
  if exists_in t db_path then (remove_file db_path t).2 else t.
Definition initialize_file : Boot unit :=
  let> root := get_data_path_ in
  let> _ := expect (redb BeginWrite) in
  let> _ := expect (redb OpenTable) in
  let> _ := expect (redb Commit) in
  fun m => (Ok tt, with_disk (fold_left (fun t name => clear_cache root name t) cache_files (disk m)) m).

Definition initialize (fresh : str) : Boot unit :=
  let> _ := init fresh in
  let> _ := initialize_folder in
  initialize_file.

Definition bootstrap_freshness_ok (flag passwd_exists : bool) : bool := negb (flag && passwd_exists).
Definition bootstrap_boot_gate : Boot unit :=
  let> c := current_config in
  fun m =>
    let '(passwd_path, m) := user_store_path m in
    if bootstrap_freshness_ok (ac_bootstrap_admin c) (exists_in (disk m) passwd_path) then (Ok tt, m)
    else (Err (Raised (lit "bootstrap_admin is enabled but a password store already exists")), m).

Definition build_rocket_with_config (c : AppConfig) : result Fault RocketConfig :=
  let port := default (ac_port c) (v ← env "PICASU_PORT"; parse_uint u16_max v) in
  let address := default (ac_address c) (env "PICASU_ADDRESS") in
  max_upload ← ok_or Panics (byte_unit (ac_max_upload_size c));
  Ok (mkRocket address port max_upload max_upload
        (match ac_web_root c with
         | Some root => join_str root "assets"
         | None => lit "/nonexistent/www/assets"
         end)).

(** How a start ends: with a status, a panic, or serving. *)
Inductive Outcome := Exited (code : Z) | Aborted | Serving (rocket : RocketConfig) (albums : Albums).
Definition serve_rocket (albums : Albums) (c : AppConfig) : Outcome :=
  match build_rocket_with_config c with
  | Err _ => Aborted
  | Ok rk =>
      match ignite (rk_address rk) (rk_port rk) with
      | Ok _ => Serving rk albums
      | Err _ => Exited 0      (* the error is logged, and the process ends *)
      end
  end.
Definition run (fresh : str) (ix : Index) (m : Machine) : Outcome * Machine :=
  match (let> _ := initialize fresh in bootstrap_boot_gate) m with
  | (Err (Raised _), m) => (Exited 1, m)
  | (Err Panics, m) => (Aborted, m)
  | (Ok _, m) =>
      let albums := init_dir_album_cache (payloads ix) (fun i => mjoin (by_id ix !! i)) (is_dir (disk m))
                      (mkAlbums ∅ ∅) in
      match app_config m with
      | Some c => (serve_rocket albums c, m)
      | None => (Aborted, m)
      end
  end.
End Start.

(** [parity] is the check of the API's document, whose verdict is the status. *)
Definition main {Io : IoFaults} {Jc : JsonCodec} {To : Toml} {Rd : Redb} {Fw : Framework} (parity : option str -> Z)
    (En : Environment) (cli : Cli) (fresh : str) (ix : Index) (m : Machine) : Outcome * Machine :=
  match cl_check_openapi cli with
  | Some spec => (Exited (parity spec), m)
  | None => if cl_dump_openapi cli then (Exited 0, m) else run (En:=bridged cli En) fresh ix m
  end.

(** ** The directories of a start *)
Section Layout.
Context {Io : IoFaults} {Jc : JsonCodec} {To : Toml} {En : Environment} {Rd : Redb} {Fw : Framework}.

Lemma make_all_leads t above rest ns : tree_ok t -> is_folder (nodes t) above = true ->
  make_all above rest (nodes t) = (Ok tt, ns) -> exists q, walk ns above rest = Some q /\ is_folder ns q = true.
Proof.
  revert t above. induction rest as [|c rest IH]; intros t above Ht Ha; cbn [make_all].
  { rewrite Ha. intros [= <-]. cbn [walk]. eauto. }
  pose proof Ha as Ha'. apply is_folder_spec in Ha'. rewrite Ha'. set (nx := default above _). intros Hm.
  destruct (make_all_grows t above (c :: rest) (Ok tt) ns) as [_ [Hg _]]; [done..| |].
  { cbn [make_all]. by rewrite Ha'. }
  assert (is_folder ns above = true) as Hans by (by apply is_folder_spec, Hg, is_folder_spec).
  assert (walk ns above (c :: rest) = walk ns nx rest) as ->.
  { subst nx. destruct c; cbn [walk]; rewrite ?Ha, ?Hans; done. }
  destruct (nodes t !! nx) as [v|] eqn:Hnx; cbn [is_some] in Hm.
  - destruct v as [|b]; [apply (IH t nx); [done|by apply is_folder_spec|done]|].
    exfalso. destruct rest as [|c' rest]; cbn [make_all] in Hm; unfold is_folder in Hm; by rewrite Hnx in Hm.
  - destruct (missing_next t above c) as (n & -> & Hn); [done..|]. fold nx in Hn. rewrite Hn in *.
    apply (IH (set_nodes (<[above ++ [Normal n] := Folder]> (nodes t)) t)); [by apply tree_ok_mkdir| |done].
    apply is_folder_spec. by apply lookup_insert_eq.
Qed.
(** A directory that was made is there, and stays while directories stay. *)
Lemma made_is_there p t t' : tree_ok t -> p <> [] -> create_dir_all p t = (Ok tt, t') -> is_dir t' p = true.
Proof.
  intros Ht Hp H. pose proof (create_dir_all_grows p t (Ok tt) t' Ht H) as (_ & Hcwd & _). revert H.
  unfold create_dir_all, call. destruct (io_fault (calls t)); [done|].
  set (s := match p with RootDir :: p' => ([RootDir], p') | _ => (cwd t, p) end).
  assert (is_folder (nodes t) s.1 = true /\ forall ns, walk ns (cwd t) p = walk ns s.1 s.2) as [Hs Hw].
  { assert (is_folder (nodes t) [RootDir] = true) by apply is_folder_spec, Ht. pose proof (tree_cwd t Ht).
    subst s. by destruct p as [|[] p]. }
  destruct s as [start rest]. destruct (make_all start rest (nodes t)) as [rm ns] eqn:Hm. intros [= -> <-].
  apply make_all_leads in Hm as (q & Hq & Hf); [|done..].
  unfold is_dir, node_at, resolve. cbn. rewrite Hw. cbn. rewrite Hq. cbn. apply is_folder_spec in Hf. rewrite Hf.
  destruct p; [done|]. by case_bool_decide.
Qed.
Lemma folder_stays p t t' : cwd t' = cwd t -> (forall f, is_folder (nodes t) f = true -> is_folder (nodes t') f = true) ->
  is_dir t p = true -> is_dir t' p = true.
Proof.
  intros Hc Hf. unfold is_dir, node_at. rewrite !andb_true_iff, !bool_decide_eq_true. intros [Hp Hn]. split; [done|].
  destruct (resolve p t) as [q|] eqn:Hq; [|done]. rewrite (resolve_kept p t t' q Hc Hf Hq). cbn in *.
  by apply is_folder_spec, Hf, is_folder_spec.
Qed.

(** ** The disk stays a tree *)
Definition sound (m : Machine) : Prop := tree_ok (disk m).
Lemma write_sound dir n bytes t : tree_ok t -> tree_ok (write (dir ++ [Normal n]) bytes t).2.
Proof.
  intros Ht. destruct (write _ bytes t) as [[[]|e] t'] eqn:H; cbn; [by eapply write_tree_ok|].
  revert H. unfold write, call. destruct (io_fault (calls t)); [intros [= _ <-]; by apply tree_ok_called|].
  destruct (resolve _ t) as [q|]; [|intros [= _ <-]; by apply tree_ok_called].
  destruct (is_folder (nodes t) q); [intros [= _ <-]; by apply tree_ok_called|done].
Qed.
Lemma read_sound p t : tree_ok t -> tree_ok (read p t).2.
Proof.
  intros Ht. unfold read, call. destruct (io_fault (calls t)); [by apply tree_ok_called|].
  by destruct (node_at p t) as [[]|]; apply tree_ok_called.
Qed.
Lemma mkdir_sound p t : tree_ok t -> tree_ok (create_dir_all p t).2.
Proof. intros Ht. destruct (create_dir_all p t) as [r t'] eqn:H. by apply create_dir_all_grows in H as (? & _). Qed.
Lemma root_sound var kind m : sound m -> sound (resolve_root var kind m).2.
Proof.
  intros Hm. unfold resolve_root. destruct (resolve_root_source _); try done; [by apply mkdir_sound|].
  destruct (exists_in _ _); [done|]. pose proof (mkdir_sound dir (disk m) Hm) as H.
  by destruct (create_dir_all _ _).
Qed.
Lemma config_dir_sound m : sound m -> sound (get_config_dir m).2.
Proof.
  intros Hm. unfold get_config_dir. destruct (config_dir m); [done|].
  pose proof (root_sound "PICASU_CONFIG_HOME" "config" m Hm) as H. by destruct (resolve_root _ _ m).
Qed.
Lemma data_path_sound m : sound m -> sound (get_data_path m).2.
Proof.
  intros Hm. unfold get_data_path. destruct (data_path m); [done|].
  pose proof (root_sound "PICASU_DATA_HOME" "data" m Hm) as H. by destruct (resolve_root _ _ m).
Qed.
Lemma data_home_sound c m : sound m -> sound (data_home_of c m).2.
Proof. intros Hm. unfold data_home_of. destruct (ac_data_home c); [done|by apply data_path_sound]. Qed.
Lemma save_sound c m : sound m -> sound (save_update c m).2.
Proof.
  intros Hm. unfold save_update. pose proof (config_dir_sound m Hm) as H. destruct (get_config_dir m) as [dir m1].
  destruct (to_toml _) as [s|]; [|done]. pose proof (write_sound (components dir) (lit "config.toml") (utf8_encode s) (disk m1) H) as Hw.
  unfold config_file. change (push (components dir) [Normal (lit "config.toml")]) with (components dir ++ [Normal (lit "config.toml")]).
  by destruct (write _ _ _).
Qed.
Lemma first_launch_sound dir m : sound m -> sound (first_launch dir m).
Proof.
  intros Hm. unfold first_launch. pose proof (root_sound "PICASU_DATA_HOME" "data" m Hm) as H.
  destruct (resolve_root _ _ m) as [home m1]. apply save_sound. destruct (parent _); [by apply mkdir_sound|done].
Qed.
Lemma stored_key_sound c m : sound m -> sound (stored_key c m).2.
Proof.
  intros Hm. unfold stored_key. pose proof (data_home_sound c m Hm) as H. destruct (data_home_of c m) as [home m1].
  pose proof (read_sound (secrets_file home) (disk m1) H) as Hr. unfold load_secret_key_from.
  by destruct (read _ _) as [[|[]] t].
Qed.
Lemma prepared_sound m : sound m -> sound (prepared m).2.
Proof.
  intros Hm. unfold prepared. pose proof (config_dir_sound m Hm) as H. destruct (get_config_dir m) as [dir m1]. cbn in H.
  set (m2 := if exists_in _ _ then _ else _).
  assert (sound m2) as H2 by (subst m2; destruct (exists_in _ _); [done|by apply first_launch_sound]).
  pose proof (read_sound (config_file dir) (disk m2) H2) as Hr. unfold read_to_string. destruct (read _ _) as [r t].
  set (c0 := loaded_config _). pose proof (stored_key_sound c0 (with_disk t m2) Hr) as H3.
  destruct (stored_key _ _) as [k m3]. cbn in H3.
  set (m4 := if _ && _ then _ else m3).
  assert (sound m4) as H4 by (subst m4; destruct (_ && _); [by apply save_sound|done]).
  destruct (ac_users_home _); [done|]. pose proof (data_home_sound (apply_env_overrides (set_auth_key k c0)) m4 H4) as H5.
  by destruct (data_home_of _ m4).
Qed.
Lemma init_sound fresh m m' : sound m -> init fresh m = (Ok tt, m') ->
  sound m' /\ is_some (app_config m') = true /\ is_some (data_path m') = true.
Proof.
  intros Hm. unfold init. pose proof (prepared_sound m Hm) as Hp. destruct (prepared m) as [[c b] m1]. cbn in Hp.
  destruct (validate_login_throttle c); [|done]. destruct (validate_users_home _ c); [|done].
  set (m2 := if b : bool then _ else _).
  assert (sound m2) as H2 by (subst m2; destruct b; [by apply save_sound|done]).
  unfold installed. set (w := match ac_web_root c with Some _ => _ | None => _ end).
  assert (sound w.2) as Hw.
  { subst w. destruct (ac_web_root c); [done|]. pose proof (data_home_sound c m2 H2). by destruct (data_home_of c m2). }
  destruct w as [c1 m3]. cbn in Hw. pose proof (data_home_sound c1 m3 Hw) as H3. destruct (data_home_of c1 m3) as [home m4].
  destruct (k ← ac_auth_key c1; non_empty k); cbn; destruct (app_config m4); intros [= <-]; by split_and!.
Qed.
End Layout.

(** ** What a start that serves has seen to *)
Section Ready.
Context {Io : IoFaults} {Jc : JsonCodec} {To : Toml} {En : Environment} {Rd : Redb} {Fw : Framework}.

Lemma next_ok {A B} (x : Boot A) (k : A -> Boot B) m b m' : (let> a := x in k a) m = (Ok b, m') <->
  exists a m1, x m = (Ok a, m1) /\ k a m1 = (Ok b, m').
Proof.
  unfold next. destruct (x m) as [[a|e] m1]; split; try done; [eauto| |].
  - by intros (? & ? & [= <- <-] & ?).
  - by intros (? & ? & ? & _).
Qed.
(** Fewer files, the same directories. *)
Record fewer (t t' : Files) : Prop := {
  fewer_tree : tree_ok t'; fewer_cwd : cwd t' = cwd t; fewer_folders : same_folders (nodes t) (nodes t');
  fewer_files : forall k v, nodes t' !! k = Some v -> nodes t !! k = Some v
}.
Lemma fewer_refl t : tree_ok t -> fewer t t.
Proof. by split. Qed.
Lemma fewer_trans a b c : fewer a b -> fewer b c -> fewer a c.
Proof. intros [H1 H2 H3 H4] [H5 H6 H7 H8]. split; [done|congruence|by eapply same_folders_trans|eauto]. Qed.
Lemma fewer_at t t' p v : fewer t t' -> node_at p t' = Some v -> node_at p t = Some v.
Proof.
  intros [_ Hc Hf Hn]. unfold node_at, resolve. rewrite Hc, (walk_ext _ _ _ _ Hf). destruct (walk _ _ p); [apply Hn|done].
Qed.
Lemma remove_fewer p t : tree_ok t -> fewer t (remove_file p t).2.
Proof.
  intros Ht. assert (fewer t (called t)) as Hc by (split; [by apply tree_ok_called|done..]).
  unfold remove_file, call. destruct (io_fault (calls t)); [done|].
  destruct (resolve p t) as [q|]; [|done]. destruct (nodes t !! q) as [[|b]|] eqn:Hq; [done| |done].
  assert (is_folder (nodes t) q = false) as Hf by (unfold is_folder; by rewrite Hq).
  split; [by apply tree_ok_called, tree_ok_drop|done|by apply folders_drop|].
  cbn. by intros k v [_ ?]%lookup_delete_Some.
Qed.
Lemma removed_gone p t b : tree_ok t -> io_fault (calls t) = None -> node_at p (remove_file p t).2 <> Some (Plain b).
Proof.
  intros Ht Hio H. pose proof (fewer_at _ _ _ _ (remove_fewer p t Ht) H) as H0. revert H H0.
  unfold remove_file, call, node_at. rewrite Hio. destruct (resolve p t) as [q|] eqn:Hq; [|done]. cbn. intros H H0.
  rewrite H0 in H. revert H. cbn. unfold resolve in *. cbn.
  rewrite <-(walk_ext (nodes t)), Hq; [cbn; by rewrite lookup_delete_eq|].
  apply folders_drop. unfold is_folder. by rewrite H0.
Qed.
Lemma clear_fewer root name t : tree_ok t -> fewer t (clear_cache root name t).
Proof. intros Ht. unfold clear_cache. destruct (exists_in _ _); [by apply remove_fewer|by apply fewer_refl]. Qed.
Lemma clears_fewer root names t : tree_ok t -> fewer t (fold_left (fun t name => clear_cache root name t) names t).
Proof.
  revert t. induction names as [|n names IH]; intros t Ht; [by apply fewer_refl|]. cbn.
  pose proof (clear_fewer root n t Ht) as H. eapply fewer_trans; [exact H|apply IH, H].
Qed.
Definition cache_path (root : str) (name : string) : Path := push (components root) (components (lit name)).
Lemma caches_gone root names t name b : tree_ok t -> (forall n, io_fault n = None) -> name ∈ names ->
  cache_path root name <> [] ->
  node_at (cache_path root name) (fold_left (fun t name => clear_cache root name t) names t) <> Some (Plain b).
Proof.
  intros Ht Hio. revert t Ht. induction names as [|n names IH]; intros t Ht Hin Hne; [by apply elem_of_nil in Hin|]. cbn.
  pose proof (clear_fewer root n t Ht) as Hf. apply elem_of_cons in Hin as [<-|Hin]; [|apply IH; [apply Hf|done..]].
  intros H. apply (fewer_at _ _ _ _ (clears_fewer root names _ (fewer_tree _ _ Hf))) in H.
  revert H. unfold clear_cache. fold (cache_path root name). destruct (exists_in t (cache_path root name)) eqn:He.
  - by apply removed_gone.
  - intros H. unfold exists_in in He. rewrite H in He. by destruct (cache_path root name).
Qed.

(** The same directories or more. *)
Definition keeps (t t' : Files) : Prop :=
  cwd t' = cwd t /\ forall f, is_folder (nodes t) f = true -> is_folder (nodes t') f = true.
Lemma keeps_trans a b c : keeps a b -> keeps b c -> keeps a c.
Proof. intros [H1 H2] [H3 H4]. split; [congruence|eauto]. Qed.
Lemma keeps_dir t t' p : keeps t t' -> is_dir t p = true -> is_dir t' p = true.
Proof. intros [Hc Hf]. by apply folder_stays. Qed.
Lemma fewer_keeps t t' : fewer t t' -> keeps t t'.
Proof. intros [_ Hc Hf _]. split; [done|]. intros f. by rewrite (Hf f). Qed.
(** A step of the start that makes the directories [ps]. *)
Definition makes (ps : list Path) (m m' : Machine) : Prop :=
  sound m' /\ m' = with_disk (disk m') m /\ keeps (disk m) (disk m') /\
  forall p, p ∈ ps -> p <> [] -> is_dir (disk m') p = true.
Lemma makes_trans ps qs a b c : makes ps a b -> makes qs b c -> makes (ps ++ qs) a c.
Proof.
  intros (H1 & H2 & H3 & H4) (H5 & H6 & H7 & H8). split_and!; [done| |by eapply keeps_trans|].
  - rewrite H6, H2. by destruct a.
  - intros p [Hp|Hp]%elem_of_app Hne; [|by apply H8]. eapply keeps_dir; [exact H7|by apply H4].
Qed.
Lemma make_directory_makes p m m' : sound m -> make_directory p m = (Ok tt, m') -> makes [p] m m'.
Proof.
  intros Hm. unfold make_directory, expect. destruct (create_dir_all p (disk m)) as [[[]|e] t] eqn:H; [|done].
  intros [= <-]. destruct (create_dir_all_grows p (disk m) _ t Hm H) as (Ht & Hc & [Hg _]). split_and!; [done..| |].
  - split; [done|]. intros f. rewrite !is_folder_spec. apply Hg.
  - intros q ->%list_elem_of_singleton Hne. by apply (made_is_there p (disk m)).
Qed.

Definition layout (c : AppConfig) (home : str) : list Path :=
  [push (components home) (components (lit "db"))] ++ [push (components home) (components (lit "object/compressed"))] ++
  match ac_image_home c with
  | Some root => [components root] ++ [push (components root) (components (ac_upload_folder c))]
  | None => []
  end.
Lemma known_home c m : is_some (data_path m) = true -> (data_home_of c m).2 = m.
Proof. unfold data_home_of, get_data_path. by destruct (ac_data_home c), (data_path m). Qed.
Lemma folders_made m m' : sound m -> is_some (data_path m) = true -> initialize_folder m = (Ok tt, m') ->
  exists c, app_config m = Some c /\ makes (layout c (data_home_of c m).1) m m'.
Proof.
  intros Hm Hd (c & m1 & Hc & H)%next_ok. unfold current_config, expect in Hc.
  destruct (app_config m) as [c'|] eqn:Ha; [|done]. injection Hc as -> <-. exists c. split; [done|].
  apply next_ok in H as (home & m2 & Hh & H). unfold data_home_in in Hh. pose proof (known_home c m Hd) as Hk.
  destruct (data_home_of c m) as [h m0]. cbn in Hk. injection Hh as <- <-. subst m0. cbn [fst].
  apply next_ok in H as ([] & m3 & H1 & H). apply make_directory_makes in H1; [|done].
  apply next_ok in H as ([] & m4 & H2 & H). apply make_directory_makes in H2; [|apply H1].
  unfold layout. eapply makes_trans; [exact H1|]. eapply makes_trans; [exact H2|].
  destruct (ac_image_home c) as [root|].
  - apply next_ok in H as ([] & m5 & H3 & H). apply make_directory_makes in H3; [|apply H2].
    apply make_directory_makes in H; [|apply H3]. by eapply makes_trans.
  - injection H as <-. split_and!; [apply H2|by destruct m4|done|]. intros p Hp. by apply elem_of_nil in Hp.
Qed.
Lemma files_cleared m m' root : sound m -> data_path m = Some root -> initialize_file m = (Ok tt, m') ->
  m' = with_disk (disk m') m /\ fewer (disk m) (disk m') /\
  ((forall n, io_fault n = None) -> forall name b, name ∈ cache_files -> cache_path root name <> [] ->
     node_at (cache_path root name) (disk m') <> Some (Plain b)).
Proof.
  intros Hm Hr (r & m1 & H1 & H)%next_ok. unfold get_data_path_, get_data_path in H1. rewrite Hr in H1.
  injection H1 as <- <-. do 3 (apply next_ok in H as ([] & m1 & Hx & H); unfold expect in Hx; injection Hx as _ <-). injection H as <-.
  split_and!; [done|by apply (clears_fewer root cache_files)|]. intros Hio name b Hin Hne.
  by apply (caches_gone root cache_files).
Qed.
Lemma cached_directories meta rec is_dir d i :
  cache (init_dir_album_cache meta rec is_dir (mkAlbums ∅ ∅)) !! d = Some i -> is_dir d = true.
Proof.
  unfold init_dir_album_cache. cbn [cache]. set (add := fun c (kv : str * MetadataRecord) => _).
  assert (forall l c, (forall d i, c !! d = Some i -> is_dir d = true) -> forall d i, fold_left add l c !! d = Some i -> is_dir d = true)
    as H.
  { intros l. induction l as [|kv l IH]; intros c Hc; [done|]. cbn. apply IH. subst add. cbn.
    intros d' i'. destruct kv.2; try apply Hc. destruct (rec kv.1); [|apply Hc].
    destruct (is_dir _) eqn:Hdir; [|apply Hc]. intros [[<- _]|[_ ?]]%lookup_insert_Some; [done|by eapply Hc]. }
  apply H. by intros ? ? ?%lookup_empty_Some.
Qed.

End Ready.

(** ** Concrete starts *)
Import (hints) ConfigWitness TokenWitness ServerWitness RouteWitness.
Module StartWitness.
Definition mebibytes (s : str) : option N :=
  r ← strip_prefix (rev (lit "MiB")) (rev s); n ← parse_uint u32_max (rev r); Some (n * 1048576).
Definition free_port : Framework := {| byte_unit := mebibytes; ignite _ _ := Ok tt |}.
Definition taken_port : Framework := {| byte_unit := mebibytes; ignite _ _ := Err (lit "Address already in use") |}.
Definition nothing_indexed : Index := mkIndex ∅ ∅ ∅ ∅ 0.
Definition plain : Cli := mkCli false None false false.
Definition bootstrapping : Cli := mkCli false None false true.
Definition start (Fw : Framework) (cli : Cli) (t : Files) : Outcome * Machine :=
  main (Jc:=ConfigWitness.json_bits) (Fw:=Fw) (fun _ => 1%Z) (ConfigWitness.at_home []) cli TokenWitness.key nothing_indexed
    (ConfigWitness.stopped t).
Definition serves (o : Outcome) : bool := match o with Serving _ _ => true | _ => false end.
Definition first : Machine := (start free_port plain ConfigWitness.empty_disk).2.
Definition rocket : RocketConfig := mkRocket (lit "0.0.0.0") 5673 104857600 104857600 (lit "/p/data/www/assets").
Lemma served (x : Outcome * Machine) rk : match x.1 with Serving rk' a => rk' = rk | _ => False end ->
  exists a, x = (Serving rk a, x.2).
Proof. destruct x as [[] m]; cbn; try done. intros ->. eauto. Qed.
(** The disk once the first administrator has enrolled. *)
Definition enrolled (t : Files) : Files :=
  (write (ConfigWitness.at_ "/p/data/auth/users.redb") [0] (create_dir_all (ConfigWitness.at_ "/p/data/auth") t).2).2.
(** A change of a setting over the API. *)
Definition change (req : PartialUpdateConfigRequest) (m : Machine) : result Stop AdminConfigUpdateResponse * Machine :=
  update_admin_config_handler (En:=ConfigWitness.at_home []) RouteWitness.admin ServerWitness.solo TokenWitness.key req m.
Definition upload_size (text : string) : PartialUpdateConfigRequest := mkPatch
  None None None (Some (lit text)) None None None None None None None None None None None None None None None None None None
  None None None None.
Definition restarts (answer : result Stop AdminConfigUpdateResponse) : option (list str) :=
  ur_restart_required <$> result_ok answer.
End StartWitness.

(** The upload size is stored as it was sent, and read as a size only when the server is
    built: an administrator whose typing error is accepted has a server that does not
    start again, and a size that is right takes effect at the next start, though the
    answer says that none is needed. *)
Theorem bad_upload_size_stops_start :
  let m := StartWitness.first in
  let '(answer, m') := StartWitness.change (StartWitness.upload_size "lots") m in
  StartWitness.serves (StartWitness.start StartWitness.free_port StartWitness.plain (disk m)).1 = true /\
  StartWitness.restarts answer = Some [] /\
  (StartWitness.start StartWitness.free_port StartWitness.plain (disk m')).1 = Aborted.
Proof. vm_compute. by split_and!. Qed.

(** The flag for the first administrator, given for one start, is written to the file by
    the first change of any setting: the next start, without the flag, finds a user store
    and a bootstrap, and refuses. *)
Theorem bootstrap_flag_sticks :
  let m := (StartWitness.start StartWitness.free_port StartWitness.bootstrapping ConfigWitness.empty_disk).2 in
  let m := with_disk (StartWitness.enrolled (disk m)) m in
  let m' := (StartWitness.change RouteWitness.nothing m).2 in
  StartWitness.serves (StartWitness.start StartWitness.free_port StartWitness.plain (disk m)).1 = true /\
  (StartWitness.start StartWitness.free_port StartWitness.plain (disk m')).1 = Exited 1.
Proof. vm_compute. by split_and!. Qed.

(** A server that cannot be started, on a port that is taken say, ends with the status of
    success. *)
Theorem failed_launch_is_success :
  (StartWitness.start StartWitness.taken_port StartWitness.plain ConfigWitness.empty_disk).1 = Exited 0.
Proof. by vm_compute. Qed.

