(* ===== verification/SerDe.v ===== *)
(** * SerDe: how records lie on the disk ([backend/src/storage/ser_de.rs])

    A record of the asset tables is its [bitcode] encoding behind two bytes, a
    marker and the version of the schema; rows of the caches have no such prefix.
    [Value::from_bytes] of the database crate cannot fail, so every row that does
    not decode is a panic, [Err] here with its message.  The encodings themselves
    are a parameter with their documented laws.  What a start makes of the stored
    rows is at the end: [init_dir_album_cache] decodes every payload. *)

From S2P Require Import Prelude Errors Redb Model MetadataRecord Snapshots IndexStore.
From S2P Require Import DirAlbum Tokens Config Startup FileTree.

(** The derived [Encode] and [Decode] of a type. *)
Class Bitcode (A : Type) := { encode : A -> list N; decode : list N -> result str A }.
Class BitcodeLaws (A : Type) {B : Bitcode A} := decode_encode (a : A) : decode (encode a) = Ok a.
(** An enumeration of three variants keeps its tag in the two lowest bits of the
    first byte. *)
Class Tagged (A : Type) {B : Bitcode A} := tag_below (a : A) :
  exists t rest, encode a = t :: rest /\ N.land t 3 < 3.

Definition SCHEMA_VERSION : N := 1.
Definition METADATA_SCHEMA_VERSION : N := 1.

Definition rebuild_required {A} (type_name reason : str) : result str A :=
  Err (lit "Cannot decode " ++ type_name ++ lit " record: " ++ reason ++
       lit ". Migration between schema versions is not supported; rebuild the database via POST /post/index/album with clear set to true, or start with a fresh DATA_HOME.").
Definition missing_prefix : str :=
  lit "missing [0xFF, version] schema prefix (record predates schema versioning, is truncated, or was written by an unknown writer)".
Definition unsupported (found reads : N) : str :=
  lit "unsupported schema version " ++ show_N found ++ lit " (this build reads schema version " ++ show_N reads ++ lit ")".

(** [expect] of a decoding. *)
Definition expect {A} (msg : str) (r : result str A) : result str A := map_err (fun e => msg ++ lit ": " ++ e) r.

Section Records.
Context {Ba : Bitcode AbstractData} {Bm : Bitcode MetadataRecord}.
Definition data_from_bytes (data : list N) : result str AbstractData :=
  match data with
  | 255 :: version :: payload =>
      if negb (version =? SCHEMA_VERSION)
      then rebuild_required (lit "AbstractData") (unsupported version SCHEMA_VERSION)
      else expect (lit "Failed to decode AbstractData") (decode payload)
  | _ => rebuild_required (lit "AbstractData") missing_prefix
  end.
Definition data_as_bytes (value : AbstractData) : list N := [255; SCHEMA_VERSION] ++ encode value.
Definition record_from_bytes (data : list N) : result str MetadataRecord :=
  match data with
  | 255 :: version :: payload =>
      if negb (version =? METADATA_SCHEMA_VERSION)
      then rebuild_required (lit "MetadataRecord") (unsupported version METADATA_SCHEMA_VERSION)
      else expect (lit "Failed to decode MetadataRecord") (decode payload)
  | _ => rebuild_required (lit "MetadataRecord") missing_prefix
  end.
Definition record_as_bytes (value : MetadataRecord) : list N := [255; METADATA_SCHEMA_VERSION] ++ encode value.
End Records.

(** The rows of the caches, without a prefix. *)
Section CacheRows.
Context {Bd : Bitcode ReducedData} {Br : Bitcode Row} {Bp : Bitcode Prefetch}.
Definition reduced_from_bytes (data : list N) : result str ReducedData :=
  expect (lit "failed to deserialize ReducedData") (decode data).
Definition reduced_as_bytes (value : ReducedData) : list N := encode value.
Definition row_from_bytes (data : list N) : result str Row := expect (lit "Failed to deserialize Row") (decode data).
Definition row_as_bytes (value : Row) : list N := encode value.
Definition prefetch_from_bytes (data : list N) : result str Prefetch :=
  expect (lit "Failed to deserialize Prefetch") (decode data).
Definition prefetch_as_bytes (value : Prefetch) : list N := encode value.
End CacheRows.

(** ** A start over stored rows *)
Section Opening.
Context {Bm : Bitcode MetadataRecord}.
(** The payloads as [guard.value()] shows them one after another; the first that
    does not decode panics. *)
Fixpoint read_payloads (rows : list (str * list N)) : result str (list (str * MetadataRecord)) :=
  match rows with
  | [] => Ok []
  | (key, data) :: rows' =>
      value ← record_from_bytes data; rest ← read_payloads rows'; Ok ((key, value) :: rest)
  end.
Definition opened (table : gmap str (list N)) : result str (gmap str MetadataRecord) :=
  values ← read_payloads (map_to_list table); Ok (list_to_map values).

Context {En : Environment} {Io : IoFaults} {Jc : JsonCodec} {To : Toml} {Rd : Redb} {Fw : Framework}.
(** [run] with the payload table as it lies on the disk: [init_dir_album_cache]
    comes after the initialization and the gate, and before the server. *)
Definition run_over (fresh : str) (table : gmap str (list N)) (ix : Index) (m : Machine) : Outcome * Machine :=
  match opened table with
  | Ok values => run fresh (set_payloads values ix) m
  | Err _ =>
      match (next (initialize fresh) (fun _ => bootstrap_boot_gate)) m with
      | (Err (Raised _), m) => (Exited 1, m)
      | (_, m) => (Aborted, m)
      end
  end.
End Opening.

(** ** Reading back *)
Definition advises_rebuild (msg : str) : Prop := contains msg (lit "POST /post/index/album") = true.
Lemma contains_after a s p : contains s p = true -> contains (a ++ s) p = true.
Proof. intros H. induction a as [|x a IH]; [done|]. cbn [app contains]. rewrite IH. by rewrite orb_true_r. Qed.
Lemma rebuild_advises {A} name reason : exists msg, rebuild_required (A:=A) name reason = Err msg /\ advises_rebuild msg.
Proof.
  eexists. split; [reflexivity|]. unfold advises_rebuild. repeat apply contains_after. vm_compute. reflexivity.
Qed.
Definition MAGIC : N := 255.
Lemma magic_tag t : N.land t 3 < 3 -> t <> MAGIC.
Proof. intros H ->. vm_compute in H. discriminate. Qed.

(** The shape both decoders of records have, for the lemmas they share. *)
Definition versioned_from_bytes {A} {B : Bitcode A} (type_name : str) (schema : N) (data : list N) : result str A :=
  match data with
  | 255 :: version :: payload =>
      if negb (version =? schema)
      then rebuild_required type_name (unsupported version schema)
      else expect (lit "Failed to decode " ++ type_name) (decode payload)
  | _ => rebuild_required type_name missing_prefix
  end.
Lemma data_versioned {Ba : Bitcode AbstractData} data :
  data_from_bytes data = versioned_from_bytes (lit "AbstractData") SCHEMA_VERSION data.
Proof. reflexivity. Qed.
Lemma record_versioned {Bm : Bitcode MetadataRecord} data :
  record_from_bytes data = versioned_from_bytes (lit "MetadataRecord") METADATA_SCHEMA_VERSION data.
Proof. reflexivity. Qed.

Section Versioned.
Context {A : Type} {B : Bitcode A}.
Lemma versioned_roundtrip {L : BitcodeLaws A} name schema value :
  versioned_from_bytes name schema (MAGIC :: schema :: encode value) = Ok value.
Proof. unfold versioned_from_bytes. cbn. rewrite N.eqb_refl. cbn. by rewrite decode_encode. Qed.
Lemma plain_roundtrip {L : BitcodeLaws A} (msg : str) value : expect msg (decode (encode value)) = Ok value.
Proof. by rewrite decode_encode. Qed.
(** What a row of bytes reads as, by its first two. *)
Lemma versioned_cases name schema data :
  (exists payload, data = MAGIC :: schema :: payload /\
     versioned_from_bytes name schema data = expect (lit "Failed to decode " ++ name) (decode payload)) \/
  (forall payload, data <> MAGIC :: schema :: payload) /\
  exists msg, versioned_from_bytes name schema data = Err msg /\ advises_rebuild msg.
Proof.
  destruct data as [|t [|v payload]].
  1-2: right; split; [done|]; destruct (rebuild_advises (A:=A) name missing_prefix) as (msg & Hm & Ha);
    exists msg; (split; [|done]); rewrite <-Hm; cbn; by repeat case_match.
  destruct (decide (t = MAGIC)) as [->|Ht].
  - destruct (decide (v = schema)) as [->|Hv].
    + left. exists payload. split; [done|]. unfold versioned_from_bytes. cbn. by rewrite N.eqb_refl.
    + right. split; [congruence|]. destruct (rebuild_advises (A:=A) name (unsupported v schema)) as (msg & Hm & Ha).
      exists msg. split; [|done]. unfold versioned_from_bytes. cbn -[rebuild_required unsupported].
      by rewrite (proj2 (N.eqb_neq _ _) Hv).
  - right. split; [congruence|]. destruct (rebuild_advises (A:=A) name missing_prefix) as (msg & Hm & Ha).
    exists msg. split; [|done]. rewrite <-Hm. unfold versioned_from_bytes. unfold MAGIC in Ht.
    by repeat case_match.
Qed.
End Versioned.

Section Facts.
Context {Ba : Bitcode AbstractData} {Bm : Bitcode MetadataRecord}.
Context {Bd : Bitcode ReducedData} {Br : Bitcode Row} {Bp : Bitcode Prefetch}.
Context {La : BitcodeLaws AbstractData} {Lm : BitcodeLaws MetadataRecord}.
Context {Ld : BitcodeLaws ReducedData} {Lr : BitcodeLaws Row} {Lp : BitcodeLaws Prefetch}.
Context {Ta : Tagged AbstractData} {Tm : Tagged MetadataRecord}.

(** C37: Every value the stores write is read back as it was, given that the encoding of
    [bitcode] is read back by it; and no row of an earlier form is ever mistaken for one
    of this schema, of either kind of record: a bare encoding, a truncated prefix or
    another version is refused with the advice to rebuild. *)
Theorem records_roundtrip :
  (forall d, data_from_bytes (data_as_bytes d) = Ok d) /\
  (forall r, record_from_bytes (record_as_bytes r) = Ok r) /\
  (forall r, reduced_from_bytes (reduced_as_bytes r) = Ok r) /\
  (forall r, row_from_bytes (row_as_bytes r) = Ok r) /\
  (forall p, prefetch_from_bytes (prefetch_as_bytes p) = Ok p) /\
  (forall d : AbstractData, exists msg, data_from_bytes (encode d) = Err msg /\ advises_rebuild msg) /\
  (forall r : MetadataRecord, exists msg, record_from_bytes (encode r) = Err msg /\ advises_rebuild msg) /\
  (forall data, (forall payload, data <> 255 :: SCHEMA_VERSION :: payload) ->
    exists msg, data_from_bytes data = Err msg /\ advises_rebuild msg) /\
  (forall data, (forall payload, data <> 255 :: METADATA_SCHEMA_VERSION :: payload) ->
    exists msg, record_from_bytes data = Err msg /\ advises_rebuild msg).
Proof.
  assert (forall data, (forall payload, data <> 255 :: SCHEMA_VERSION :: payload) ->
    exists msg, data_from_bytes data = Err msg /\ advises_rebuild msg) as Hdata.
  { intros data Hn. rewrite data_versioned. destruct (versioned_cases (A:=AbstractData) (lit "AbstractData") SCHEMA_VERSION data)
      as [(payload & Hp & _)|[_ H]]; [|exact H]. by destruct (Hn payload). }
  assert (forall data, (forall payload, data <> 255 :: METADATA_SCHEMA_VERSION :: payload) ->
    exists msg, record_from_bytes data = Err msg /\ advises_rebuild msg) as Hrecord.
  { intros data Hn. rewrite record_versioned. destruct (versioned_cases (A:=MetadataRecord) (lit "MetadataRecord") METADATA_SCHEMA_VERSION data)
      as [(payload & Hp & _)|[_ H]]; [|exact H]. by destruct (Hn payload). }
  split_and!; [intros d; rewrite data_versioned; apply versioned_roundtrip|intros r; rewrite record_versioned; apply versioned_roundtrip|
    intros ?; apply plain_roundtrip|intros ?; apply plain_roundtrip|intros ?; apply plain_roundtrip| | |exact Hdata|exact Hrecord].
  - intros d. apply Hdata. intros payload Hp. destruct (tag_below d) as (t & rest & He & Ht%magic_tag).
    apply Ht. unfold MAGIC. congruence.
  - intros r. apply Hrecord. intros payload Hp. destruct (tag_below r) as (t & rest & He & Ht%magic_tag).
    apply Ht. unfold MAGIC. congruence.
Qed.

(** ** Opening a table *)
Lemma read_written (rows : list (str * MetadataRecord)) :
  read_payloads (prod_map Datatypes.id record_as_bytes <$> rows) = Ok rows.
Proof.
  induction rows as [|[k v] rows IH]; [done|]. cbn [fmap list_fmap prod_map read_payloads fst snd].
  assert (record_from_bytes (record_as_bytes v) = Ok v) as -> by (rewrite record_versioned; apply versioned_roundtrip).
  cbn [mbind result_bind].
  by rewrite IH.
Qed.
Lemma opened_written (values : gmap str MetadataRecord) : opened (record_as_bytes <$> values) = Ok values.
Proof.
  unfold opened. rewrite map_to_list_fmap, read_written. cbn. by rewrite list_to_map_to_list.
Qed.
Lemma read_all rows values : read_payloads rows = Ok values ->
  forall key data, (key, data) ∈ rows -> is_ok (record_from_bytes data) = true.
Proof.
  revert values. induction rows as [|[k d] rows IH]; cbn [read_payloads]; intros values H key data Hin; [by apply elem_of_nil in Hin|].
  apply bind_Ok in H as (v & Hv & (rest & Hr & _)%bind_Ok). apply elem_of_cons in Hin as [[= -> ->]|Hin]; [by rewrite Hv|].
  by eapply IH.
Qed.

Context {En : Environment} {Io : IoFaults} {Jc : JsonCodec} {To : Toml} {Rd : Redb} {Fw : Framework}.

(** A start over rows this build wrote is the start of the tables they stand for.
    One payload that does not decode is enough for the process not to serve. *)
Theorem rows_decide_start fresh ix m :
  (forall values, run_over fresh (record_as_bytes <$> values) ix m = run fresh (set_payloads values ix) m) /\
  forall table key data, table !! key = Some data -> is_ok (record_from_bytes data) = false ->
    forall rk albums, (run_over fresh table ix m).1 <> Serving rk albums.
Proof.
  unfold run_over. split; [intros values; by rewrite opened_written|]. intros table key data Hk Hbad rk albums.
  destruct (opened table) as [values|e] eqn:Ho.
  - exfalso. unfold opened in Ho. apply bind_Ok in Ho as (rows & Hr & _).
    apply elem_of_map_to_list in Hk. by rewrite (read_all _ _ Hr _ _ Hk) in Hbad.
  - by destruct (next _ _ m) as [[?|[]] ?].
Qed.
End Facts.

(** ** Witnesses: an encoding by enumeration *)
Module SerDeWitness.
#[export] Instance ObjectType_countable : Countable ObjectType :=
  inj_countable' object_type_display
    (fun s => if str_eqb s (lit "image") then TImage else if str_eqb s (lit "video") then TVideo else TAlbum)
    ltac:(by intros []).
#[export] Instance ObjectSchema_eq_dec : EqDecision ObjectSchema.
Proof. solve_decision. Defined.
#[export] Instance ObjectSchema_countable : Countable ObjectSchema :=
  inj_countable' (fun o => (id o, obj_type o, pending o, thumbhash o, description o, tags o, rating o, update_at o))
    (fun '(a, b, c, d, e, f, g, h) => mkObject a b c d e f g h) ltac:(by intros []).
#[export] Instance FileEntry_eq_dec : EqDecision FileEntry.
Proof. solve_decision. Defined.
#[export] Instance FileEntry_countable : Countable FileEntry :=
  inj_countable' (fun e => (file e, modified e, scan_time e, entry_trashed e)) (fun '(a, b, c, d) => mkEntry a b c d)
    ltac:(by intros []).
#[export] Instance ImageMetadata_eq_dec : EqDecision ImageMetadata.
Proof. solve_decision. Defined.
#[export] Instance ImageMetadata_countable : Countable ImageMetadata :=
  inj_countable' (fun m => (img_size m, img_width m, img_height m, img_ext m, img_phash m, img_album m, img_exif m, img_path m))
    (fun '(a, b, c, d, e, f, g, h) => mkImageMeta a b c d e f g h) ltac:(by intros []).
#[export] Instance VideoMetadata_eq_dec : EqDecision VideoMetadata.
Proof. solve_decision. Defined.
#[export] Instance VideoMetadata_countable : Countable VideoMetadata :=
  inj_countable' (fun m => (vid_size m, vid_width m, vid_height m, vid_ext m, vid_duration m, vid_album m, vid_exif m, vid_path m))
    (fun '(a, b, c, d, e, f, g, h) => mkVideoMeta a b c d e f g h) ltac:(by intros []).
#[export] Instance Share_countable : Countable Share :=
  inj_countable' (fun s => (url s, share_description s, password s, show_metadata s, show_download s, show_upload s, exp s, created_by s))
    (fun '(a, b, c, d, e, f, g, h) => mkShare a b c d e f g h) ltac:(by intros []).
#[export] Instance AlbumMetadata_eq_dec : EqDecision AlbumMetadata.
Proof. solve_decision. Defined.
#[export] Instance AlbumMetadata_countable : Countable AlbumMetadata :=
  inj_countable' (fun m => (alb_id m, title m, created_time m, start_time m, end_time m, last_modified_time m, cover m,
      item_count m, item_size m, share_list m, dir_path m, custom_title m, alb_trashed m))
    (fun '(a, b, c, d, e, f, g, h, i, j, k, l, m) => mkAlbumMeta a b c d e f g h i j k l m) ltac:(by intros []).
#[export] Instance ImageCombined_eq_dec : EqDecision ImageCombined.
Proof. solve_decision. Defined.
#[export] Instance VideoCombined_eq_dec : EqDecision VideoCombined.
Proof. solve_decision. Defined.
#[export] Instance AlbumCombined_eq_dec : EqDecision AlbumCombined.
Proof. solve_decision. Defined.
#[export] Instance AbstractData_eq_dec : EqDecision AbstractData.
Proof. solve_decision. Defined.
#[export] Instance AbstractData_countable : Countable AbstractData :=
  inj_countable' (fun d => match d with
    | Image i => inl (inl (img_object i, img_metadata i))
    | Video v => inl (inr (vid_object v, vid_metadata v))
    | Album a => inr (alb_object a, alb_metadata a) end)
    (fun x => match x with
    | inl (inl (a, b)) => Image (mkImage a b) | inl (inr (a, b)) => Video (mkVideo a b) | inr (a, b) => Album (mkAlbum a b) end)
    ltac:(by intros [[]|[]|[]]).
#[export] Instance Common_eq_dec : EqDecision Common.
Proof. solve_decision. Defined.
#[export] Instance Common_countable : Countable Common :=
  inj_countable' (fun c => (c_tags c, c_description c, c_rating c, c_update_at c, c_pending c, c_thumbhash c))
    (fun '(a, b, c, d, e, f) => mkCommon a b c d e f) ltac:(by intros []).
#[export] Instance ImagePayload_eq_dec : EqDecision ImagePayload.
Proof. solve_decision. Defined.
#[export] Instance VideoPayload_eq_dec : EqDecision VideoPayload.
Proof. solve_decision. Defined.
#[export] Instance AlbumPayload_eq_dec : EqDecision AlbumPayload.
Proof. solve_decision. Defined.
#[export] Instance MetadataRecord_eq_dec : EqDecision MetadataRecord.
Proof. solve_decision. Defined.
#[export] Instance MetadataRecord_countable : Countable MetadataRecord :=
  inj_countable' (fun r => match r with
    | MImage p => inl (inl (ip_common p, ip_width p, ip_height p, ip_phash p, ip_exif p))
    | MVideo p => inl (inr (vp_common p, vp_width p, vp_height p, vp_duration p, vp_exif p))
    | MAlbum p => inr (ap_common p, ap_title p, ap_created p, ap_start p, ap_end p, ap_modified p, ap_cover p,
        ap_count p, ap_size p, ap_shares p, ap_custom p) end)
    (fun x => match x with
    | inl (inl (a, b, c, d, e)) => MImage (mkImagePayload a b c d e)
    | inl (inr (a, b, c, d, e)) => MVideo (mkVideoPayload a b c d e)
    | inr (a, b, c, d, e, f, g, h, i, j, k) => MAlbum (mkAlbumPayload a b c d e f g h i j k) end)
    ltac:(by intros [[]|[]|[]]).
#[export] Instance ReducedData_eq_dec : EqDecision ReducedData.
Proof. solve_decision. Defined.
#[export] Instance ReducedData_countable : Countable ReducedData :=
  inj_countable' (fun r => (r_asset_id r, r_hash r, r_width r, r_height r, r_date r, r_update_at r, r_pending r))
    (fun '(a, b, c, d, e, f, g) => mkReduced a b c d e f g) ltac:(by intros []).
#[export] Instance Row_eq_dec : EqDecision Row.
Proof. solve_decision. Defined.
#[export] Instance Row_countable : Countable Row :=
  inj_countable' (fun r => (row_start r, row_end r, display_elements r, row_index r))
    (fun '(a, b, c, d) => mkRow a b c d) ltac:(by intros []).
#[export] Instance Prefetch_eq_dec : EqDecision Prefetch.
Proof. solve_decision. Defined.
#[export] Instance Prefetch_countable : Countable Prefetch :=
  inj_countable' (fun p => (pf_timestamp p, locate_to p, data_length p)) (fun '(a, b, c) => mkPrefetch a b c)
    ltac:(by intros []).

(** A tag byte, and the number of the value. *)
#[export] Instance enumerated {A} `{Countable A} : Bitcode A := {|
  encode a := [1; Npos (countable.encode a)];
  decode bytes := match bytes with [_; Npos n] => ok_or (lit "InvalidPacking") (countable.decode n) | _ => Err (lit "Eof") end |}.
#[export] Instance enumerated_laws {A} `{Countable A} : BitcodeLaws A.
Proof. intros a. cbn. by rewrite countable.decode_encode. Qed.
#[export] Instance enumerated_tagged {A} `{Countable A} : Tagged A.
Proof. intros a. exists 1, [Npos (countable.encode a)]. by split. Qed.
Definition photo : AbstractData := Image (mkImage (new_object 0 (lit "test") TImage) (new_image_metadata 1024 800 600 (lit "jpg"))).
End SerDeWitness.
Import (hints) SerDeWitness ConfigWitness TokenWitness.

Lemma records_roundtrip_witness :
  data_from_bytes (data_as_bytes SerDeWitness.photo) = Ok SerDeWitness.photo /\
  (exists msg, data_from_bytes [255; 2; 0; 0] = Err msg /\ advises_rebuild msg) /\
  exists msg, record_from_bytes [255; 9; 0; 0; 0] = Err msg /\ advises_rebuild msg.
Proof.
  destruct records_roundtrip as (H1 & _ & _ & _ & _ & _ & _ & H8 & H9). split; [exact (H1 SerDeWitness.photo)|].
  split; [apply H8|apply H9]; intros payload; discriminate.
Defined.

(** The first start of [StartWitness], over a row of another version. *)
Lemma rows_decide_start_witness : forall rk albums,
  (run_over (Fw:=StartWitness.free_port) (Jc:=ConfigWitness.json_bits)
    (En:=bridged StartWitness.plain (ConfigWitness.at_home [])) TokenWitness.key {[ lit "id1" := [255; 9; 0] ]}
    StartWitness.nothing_indexed (ConfigWitness.stopped ConfigWitness.empty_disk)).1 <> Serving rk albums.
Proof.
  refine (proj2 (rows_decide_start (Fw:=StartWitness.free_port) (Jc:=ConfigWitness.json_bits)
    (En:=bridged StartWitness.plain (ConfigWitness.at_home [])) TokenWitness.key StartWitness.nothing_indexed
    (ConfigWitness.stopped ConfigWitness.empty_disk)) {[ lit "id1" := [255; 9; 0] ]} (lit "id1") [255; 9; 0] _ _).
  - apply lookup_singleton_eq.
  - vm_compute. reflexivity.
Defined.
