(* ===== verification/Serving.v ===== *)
(** * Serving: what is answered from files
    ([router/get/get_page.rs], [get_img.rs], [get_fs_completion.rs], [server_info.rs],
    [router/cache.rs], [router/catchers.rs])

    The pages of the frontend, the compressed pictures and videos, the completion of
    directory paths, the enrollment state, and the header that lets an answer be cached.
    A file that is answered is named by its path; reading it is the framework's.  The
    build without an embedded frontend is modelled; paths are printed from their
    components. *)

From S2P Require Import Snapshots.
From S2P Require Import Prelude RateLimit Errors Redb Password UserStore Revocations Invites LoginThrottle.
From S2P Require Import Paths Formats Model MetadataRecord DirAlbum Tokens Prefetch RouterAuth IndexStore.
From S2P Require Import DirAlbumStore Accounts DataPages FileTree Xmp Config.

(** Opening a file for an answer. *)
Class Opens := { named_file : Path -> result str unit; seek_stream : Path -> result str unit }.
(** [fs::read_dir], whose entries may be errors, and [env::current_dir]. *)
Inductive ReadDirError := NoSuchDirectory | ReadDirError_ (why : str).
Class Browse := {
  current_dir : option Path; read_dir : Path -> result ReadDirError (list (option Path)); folder_at : Path -> bool
}.

(** ** Pages ([get_page.rs]) *)
Section Pages.
Context {Op : Opens}.
(** The configuration, once there is one. *)
Variable cfg : option AppConfig.

Definition resolve_path (filename : str) : Path :=
  match c ← cfg; ac_web_root c with
  | Some root => push (components root) (components filename)
  | None => components (lit "/nonexistent/www/" ++ filename)
  end.
Definition serve_file (filename : str) : app_result Path :=
  let path := resolve_path filename in
  _ ← or_raise IO (lit "Failed to open " ++ filename) (named_file path);
  Ok path.
Definition timeline : app_result Path := serve_file (lit "index.html").
Definition favicon : app_result Path := serve_file (lit "favicon.ico").
Definition album_page (dynamic_album_id : str) : app_result Path :=
  if starts_with (lit "album-") dynamic_album_id then serve_file (lit "index.html")
  else fail Errors.NotFound (lit "Page not found").

(** The text of a path of segments. *)
Fixpoint display_path (segments : list str) : str :=
  match segments with
  | [] => []
  | [s] => s
  | s :: rest => s ++ lit "/" ++ display_path rest
  end.
Definition api_prefixes : list str := lit <$> ["get"; "post"; "put"; "delete"; "object"; "assets"]%string.
(** Whether a key is an album's, read from the database. *)
Definition names_album (c : Ctx) (album_id : str) (ix : Index) : app_result bool :=
  _ ← or_raise Database (lit "Failed to begin read transaction") (redb (Rd:=c_index_io c) BeginRead);
  _ ← or_raise Database (lit "Failed to open data table") (redb (Rd:=c_index_io c) OpenTable);
  _ ← or_raise Database (lit "Failed to query data") (redb (Rd:=c_index_io c) (Get album_id));
  Ok (match payloads ix !! album_id with Some (MAlbum _) => true | _ => false end).
Definition spa_fallback (c : Ctx) (path : list str) (ix : Index) : app_result Path :=
  let path_str := display_path path in
  let first := hd [] (split_on 47 path_str) in
  if existsb (str_eqb first) api_prefixes then fail Errors.NotFound (lit "Not found")
  else
    _ ← match strip_prefix (lit "album/") path_str with
        | Some album_id =>
            _ ← or_raise Internal (lit "Failed to join blocking task") (c_join c);
            exists_ ← names_album c album_id ix;
            if exists_ : bool then Ok tt else fail Errors.NotFound (lit "Album not found")
        | None => Ok tt
        end;
    serve_file (lit "index.html").
End Pages.

(** ** Compressed pictures and videos ([get_img.rs]) *)
Inductive CompressedFileResponse := SeekStream_ (p : Path) | NamedFile_ (p : Path).
Definition answered_file (r : CompressedFileResponse) : Path := match r with SeekStream_ p | NamedFile_ p => p end.

Section Media.
Context {Op : Opens}.
Context {Jc : JsonCodec} {Lh : LegacyHash} {Ca : Casing} {Cr : Crypto} {J : Jwt} {Tc : TokenCodec} {F : Fs}.

(** [file_path] is the end of the request's path. *)
Definition compressed_file (c : Ctx) (data_home : Path) (file_path : list str) (s : Server)
  : app_result CompressedFileResponse :=
  _ ← map_err snd (guard_presenter (view c s) (c_now c) (c_jti c) (c_request c));
  _ ← map_err snd (guard_hash (view c s) (c_now c) (c_jti c) (c_request c));
  let compressed_file_path := push (push data_home (components (lit "object/compressed"))) (Normal <$> file_path) in
  let path_context := lit "File path: " ++ path_text compressed_file_path in
  match file_name compressed_file_path ≫= name_extension with
  | Some ext =>
      if str_eqb ext (lit "mp4") then
        _ ← or_raise IO (lit "Failed to open MP4 file: " ++ path_text compressed_file_path) (seek_stream compressed_file_path);
        Ok (SeekStream_ compressed_file_path)
      else if str_eqb ext (lit "jpg") then
        _ ← or_raise IO (lit "Failed to open JPG file: " ++ path_text compressed_file_path) (named_file compressed_file_path);
        Ok (NamedFile_ compressed_file_path)
      else Err (add_context path_context (new_error InvalidInput (lit "Unsupported file extension: " ++ ext)))
  | None => Err (add_context path_context (new_error InvalidInput (lit "File has no extension")))
  end.
End Media.

(** ** Completion of directory paths ([get_fs_completion.rs]) *)
Record FsCompletion := mkCompletion { fc_roots : list str; fc_children : list str; fc_is_default : bool }.

Section Completion.
Context {Br : Browse}.
Context {Jc : JsonCodec} {Lh : LegacyHash} {Ca : Casing} {Cr : Crypto} {J : Jwt} {Tc : TokenCodec} {F : Fs}.

Definition absolute_cwd : Path := default [RootDir] current_dir.
Definition is_absolute (p : Path) : bool := match p with RootDir :: _ => true | _ => false end.
Definition absolutize (p : Path) : Path := if is_absolute p then p else push absolute_cwd p.
Definition get_roots : list str := [lit "/"].

(** The order of [sort_by_key] on the lower-case text. *)
Definition caseless_le (a b : str) : Prop := text_le (to_lowercase a) (to_lowercase b).
#[export] Instance caseless_le_dec a b : Decision (caseless_le a b).
Proof. unfold caseless_le. apply _. Defined.
Definition limited (l : list str) : list str := take 50 (merge_sort caseless_le l).

(** The directories among the entries that the caller may see and that are asked for. *)
Definition name_matches (prefix : str) (p : Path) : bool :=
  starts_with (to_lowercase prefix) (to_lowercase (default [] (file_name p))).
Definition shown (cfg : Paths.Config) (caller : str) (keep : Path -> bool) (entry : option Path) : option str :=
  match entry with
  | Some p => if folder_at p && visible_to cfg caller p && keep p then Some (path_text p) else None
  | None => None
  end.
(** An unreadable directory counts as an empty one. *)
Definition entries_or_none (r : result ReadDirError (list (option Path))) : list (option Path) :=
  match r with Ok entries => entries | Err _ => [] end.

(** The directory to list and the prefix; [None] is a bare name. *)
Definition dir_and_prefix (query : str) : option (Path * str) :=
  let path_obj := components query in
  if bool_decide (last query = Some 47) then Some (path_obj, [])
  else match parent path_obj with
       | Some ((_ :: _) as p) => Some (p, default [] (file_name path_obj))
       | _ => None
       end.

Definition completion (cfg : Paths.Config) (caller query : str) : app_result FsCompletion :=
  if is_empty (trim query) then
    Ok (mkCompletion get_roots
          (limited (omap (shown cfg caller (fun _ => true)) (entries_or_none (read_dir absolute_cwd)))) true)
  else
    match dir_and_prefix query with
    | None =>
        let of_roots := List.filter (fun root => starts_with (to_lowercase query) (to_lowercase root)
                                                 && visible_to cfg caller (components root)) get_roots in
        let matches := limited (of_roots ++ omap (shown cfg caller (name_matches query)) (entries_or_none (read_dir absolute_cwd))) in
        if is_empty matches then fail Errors.NotFound (lit "Directory not found")
        else Ok (mkCompletion [] matches false)
    | Some (dir_to_read, prefix) =>
        match read_dir (absolutize dir_to_read) with
        | Err NoSuchDirectory => fail Errors.NotFound (lit "Directory not found")
        | Err (ReadDirError_ why) => Err (from_err IO why)
        | Ok entries =>
            let suggestions := limited (omap (shown cfg caller (name_matches prefix)) entries) in
            if is_empty suggestions && negb (is_empty prefix) then fail Errors.NotFound (lit "Directory not found")
            else Ok (mkCompletion [] suggestions false)
        end
    end.
Definition get_fs_completion (c : Ctx) (path : option str) (s : Server) : app_result FsCompletion :=
  claims ← admin_claims c s;
  let '(caller, _) := caller_identity claims in
  completion (c_roots c) caller (default [] path).
End Completion.

(** ** The enrollment state ([server_info.rs]) *)
Record ServerInfo := mkInfo { enrolled : bool; enrollment_open : bool }.
Section Info.
Context {Jc : JsonCodec} {Lh : LegacyHash} {Ca : Casing} {Cr : Crypto} {J : Jwt} {Tc : TokenCodec} {F : Fs}.
Definition server_info_handler (c : Ctx) : Api ServerInfo :=
  let? n := count_users c in
  let enrolled := (0 <? n)%nat in
  pure (mkInfo enrolled (negb enrolled && c_bootstrap c)).
End Info.

(** ** What every answer carries ([cache.rs], [catchers.rs]) *)
Definition cache_control (status : N) (path : str) : option str :=
  if (200 <=? status) && (status <? 300) then
    if starts_with (lit "/object") path then Some (lit "max-age=31536000, private")
    else if starts_with (lit "/assets") path || starts_with (lit "/favicon.ico") path
         then Some (lit "max-age=31536000, public")
    else None
  else None.
(** The answer to a status of the framework's own, where one is registered. *)
Definition caught (status : N) : option (N * AppError) :=
  if status =? 401 then Some (401, new_error Auth (lit "Unauthorized"))
  else if status =? 422 then Some (422, new_error InvalidInput (lit "Unprocessable entity"))
  else if status =? 415 then Some (400, new_error InvalidInput (lit "Unsupported media type"))
  else if status =? 500 then Some (500, new_error Internal (lit "Internal server error"))
  else None.

(** ** The page of a path *)
Section PageFacts.
Context {Op : Opens}.

(** The catch-all page route refuses every path under an API or asset prefix, answers
    a path below [album] with the frontend only if the whole rest of the path is the key
    of an album, and answers every other path with the frontend. *)
Theorem fallback_spec cfg c path ix : Forall (fun s : str => (47 : N) ∉ s) path ->
  let shell := serve_file cfg (lit "index.html") in
  match path with
  | [] => spa_fallback cfg c path ix = shell
  | first :: rest =>
      if existsb (str_eqb first) api_prefixes
      then spa_fallback cfg c path ix = fail Errors.NotFound (lit "Not found")
      else if str_eqb first (lit "album") && negb (is_empty rest)
      then (forall page, spa_fallback cfg c path ix = Ok page ->
              shell = Ok page /\ exists a, payloads ix !! display_path rest = Some (MAlbum a)) /\
           (c_join c = Ok tt -> (forall op, fault (Redb:=c_index_io c) op = None) ->
              spa_fallback cfg c path ix = match payloads ix !! display_path rest with
                                           | Some (MAlbum _) => shell
                                           | _ => fail Errors.NotFound (lit "Album not found")
                                           end)
      else spa_fallback cfg c path ix = shell
  end.
Proof.
  intros Hp. cbn zeta. destruct path as [|first rest]; [done|]. apply Forall_cons in Hp as [Hf Hr].
  assert (hd [] (split_on 47 (display_path (first :: rest))) = first) as Hfirst.
  { cbn [display_path]. destruct rest as [|s rest]; [by rewrite split_on_none|].
    change (lit "/" ++ display_path (s :: rest)) with (47 :: display_path (s :: rest)). by rewrite split_on_first. }
  unfold spa_fallback. rewrite Hfirst. destruct (existsb _ _); [done|].
  assert (strip_prefix (lit "album/") (display_path (first :: rest)) =
          if str_eqb first (lit "album") && negb (is_empty rest) then Some (display_path rest) else None) as ->.
  { destruct (str_eqb first (lit "album") && negb (is_empty rest)) eqn:He.
    - apply andb_true_iff in He as [->%str_eqb_eq Hne]. destruct rest as [|s rest]; [done|].
      change (display_path (lit "album" :: s :: rest)) with (lit "album" ++ lit "/" ++ display_path (s :: rest)).
      rewrite app_assoc. change (lit "album" ++ lit "/") with (lit "album/"). apply strip_prefix_app.
    - destruct (strip_prefix _ _) as [r|] eqn:Hs; [|done]. exfalso. apply strip_prefix_some in Hs.
      apply (f_equal (split_on 47)) in Hs. change (lit "album/" ++ r) with (lit "album" ++ 47 :: r) in Hs.
      rewrite split_on_first in Hs by (by vm_compute; set_solver).
      assert (first = lit "album") as -> by (rewrite Hs in Hfirst; by cbn in Hfirst).
      destruct rest; [|done]. cbn [display_path] in Hs. rewrite split_on_none in Hs by done.
      by destruct (split_on 47 r) eqn:Hr0; [destruct r as [|n r]; cbn in Hr0; [|destruct (n =? 47), (split_on 47 r)]|]. }
  destruct (str_eqb first (lit "album") && negb (is_empty rest)); [|done]. split.
  - intros page H. apply bind_Ok in H as ([] & H1 & H). split; [done|].
    apply bind_Ok in H1 as ([] & _ & H1). apply bind_Ok in H1 as (b & Hb & H1). destruct b; [|done].
    unfold names_album in Hb. do 3 (apply bind_Ok in Hb as ([] & _ & Hb)). injection Hb as Hb.
    destruct (payloads ix !! _) as [[]|] eqn:Hpay; try done. eauto.
  - intros Hj Hio. rewrite Hj. unfold names_album, redb. rewrite !Hio. cbn.
    by destruct (payloads ix !! _) as [[]|].
Qed.

(** The client opens a picture of an album under [album/<id>/view/<asset>]; the route
    looks for an album with the whole rest as its key, so the page of an album is served
    and the page of a picture in it is not found. *)
Theorem album_view_has_no_page cfg c ix album asset a page :
  c_join c = Ok tt -> (forall op, fault (Redb:=c_index_io c) op = None) ->
  serve_file cfg (lit "index.html") = Ok page ->
  payloads ix !! album = Some (MAlbum a) -> payloads ix !! (album ++ lit "/view/" ++ asset) = None ->
  spa_fallback cfg c [lit "album"; album] ix = Ok page /\
  spa_fallback cfg c [lit "album"; album; lit "view"; asset] ix = fail Errors.NotFound (lit "Album not found").
Proof.
  intros Hj Hio Hshell Halbum Hview.
  assert (forall rest r, strip_prefix (lit "album/") (lit "album/" ++ rest) = Some r -> r = rest) as Hs
    by (intros rest r; rewrite strip_prefix_app; by intros [= ->]).
  split.
  - unfold spa_fallback. cbn [display_path]. rewrite app_assoc. change (lit "album" ++ lit "/") with (lit "album/").
    assert (hd [] (split_on 47 (lit "album/" ++ album)) = lit "album") as ->.
    { change (lit "album/" ++ album) with (lit "album" ++ 47 :: album). by rewrite split_on_first by (by vm_compute; set_solver). }
    change (existsb _ _) with false. cbn [negb]. cbv iota. rewrite strip_prefix_app, Hj. unfold names_album, redb.
    rewrite !Hio. cbn -[serve_file lit]. by rewrite Halbum.
  - unfold spa_fallback. cbn [display_path].
    change (lit "view" ++ lit "/" ++ asset) with (lit "view/" ++ asset).
    assert (lit "album" ++ lit "/" ++ album ++ lit "/" ++ lit "view/" ++ asset = lit "album/" ++ album ++ lit "/view/" ++ asset) as Hd
      by done.
    rewrite Hd.
    assert (forall r, hd [] (split_on 47 (lit "album/" ++ r)) = lit "album") as ->.
    { intros r. change (lit "album/" ++ r) with (lit "album" ++ 47 :: r). by rewrite split_on_first by (by vm_compute; set_solver). }
    change (existsb _ _) with false. cbv iota. rewrite strip_prefix_app, Hj. unfold names_album, redb.
    rewrite !Hio. cbn -[serve_file lit]. by rewrite Hview.
Qed.
End PageFacts.

(** ** A compressed file is the token's *)
Lemma before_last_dot_none s : before_last_dot s = None <-> (46 : N) ∉ s.
Proof.
  induction s as [|c s IH]; cbn [before_last_dot]; [set_solver|].
  destruct (before_last_dot s) as [p|]; [set_solver|]. destruct (N.eqb_spec c 46) as [->|]; set_solver.
Qed.
Lemma before_last_dot_some s p : before_last_dot s = Some p <-> exists r, s = p ++ 46 :: r /\ (46 : N) ∉ r.
Proof.
  revert p. induction s as [|c s IH]; intros p; cbn [before_last_dot].
  { split; [done|]. intros (r & H & _). by destruct p. }
  destruct (before_last_dot s) as [q|] eqn:Hq.
  - destruct (proj1 (IH q) eq_refl) as (r & -> & Hr). split.
    + intros [= <-]. by exists r.
    + intros (r' & H & Hr'). destruct p as [|c' p]; cbn in H; [injection H as _ <-; set_solver|]. injection H as -> H.
      f_equal. f_equal. assert (Some q = Some p) as [= ->]; [|done]. apply IH. eauto.
  - apply before_last_dot_none in Hq. destruct (N.eqb_spec c 46) as [->|Hc]; split.
    + intros [= <-]. by exists s.
    + intros (r & H & Hr). destruct p as [|c' p]; [done|]. cbn in H. injection H as <- ->. set_solver.
    + done.
    + intros (r & H & Hr). destruct p as [|c' p]; [cbn in H; congruence|]. cbn in H. injection H as <- ->. set_solver.
Qed.
Lemma split_on_some (c : N) p : split_on c p <> [].
Proof. destruct p as [|x p]; simpl; [done|]. destruct (x =? c); [done|]. by destruct (split_on c p). Qed.
Lemma split_on_last (c : N) p r : c ∉ r -> split_on c (p ++ c :: r) = split_on c p ++ [r].
Proof.
  intros Hr. induction p as [|x p IH]; simpl; [rewrite N.eqb_refl; by rewrite split_on_none by done|].
  rewrite IH. pose proof (split_on_some c p). destruct (x =? c); [done|]. by destruct (split_on c p).
Qed.
Lemma split_on_blank (c : N) p : split_on c p = [[]] -> p = [].
Proof.
  destruct p as [|x p]; [done|]. simpl. pose proof (split_on_some c p). destruct (x =? c); [by intros [= ?]|].
  by destruct (split_on c p).
Qed.
Lemma name_extension_last p r : (46 : N) ∉ r -> name_extension (p ++ 46 :: r) = if is_empty p then None else Some r.
Proof.
  intros Hr. unfold name_extension. rewrite split_on_last, rev_unit by done.
  destruct (split_on 46 p) as [|w l] eqn:Hp.
  { by apply split_on_some in Hp. }
  destruct l as [|v l].
  - destruct w as [|y w]; [apply split_on_blank in Hp as ->; done|]. by destruct p.
  - destruct p as [|x p]; [by destruct l|]. cbn [is_empty rev]. rewrite <-app_assoc. cbn [app].
    destruct (rev l) as [|u l']; cbn; [by destruct v|]. destruct u; [by destruct l'|done].
Qed.

Section MediaFacts.
Context {Op : Opens}.
Context {Jc : JsonCodec} {Lh : LegacyHash} {Ca : Casing} {Cr : Crypto} {J : Jwt} {Tc : TokenCodec} {F : Fs}.

(** A compressed file that is answered was asked for by a presenter who may speak, with
    a token bound to that presenter; it lies below the directory of the compressed files,
    and its name is the content hash of the token with the ending of a picture or of a
    video, opened as such. *)
Theorem compressed_is_tokens c data_home file_path s r :
  compressed_file c data_home file_path s = Ok r ->
  last file_path = last (path_segments (c_request c)) ->
  exists (claims : ClaimsAsset) p dirs ext,
    presents (view c s) (c_now c) (c_request c) claims /\
    resolve_presenter (view c s) (c_now c) (c_jti c) (c_request c) = Ok p /\
    bound (asset_caller claims) (asset_share claims) p /\
    answered_file r = push data_home (components (lit "object/compressed")) ++ (Normal <$> dirs)
                        ++ [Normal (asset_hash claims ++ lit "." ++ lit ext)] /\
    match r with
    | NamedFile_ q => ext = "jpg"%string /\ named_file q = Ok tt
    | SeekStream_ q => ext = "mp4"%string /\ seek_stream q = Ok tt
    end.
Proof.
  intros H Hlast. unfold compressed_file in H. apply bind_Ok in H as (p0 & _ & H).
  apply bind_Ok in H as ([] & Hg%map_err_Ok & H).
  unfold guard_hash, bearer, decoded in Hg. apply bind_Ok in Hg as (token & Ht%map_err_Ok & Hg).
  apply bind_Ok in Hg as (claims & Hc%map_err_Ok & Hg). apply bind_Ok in Hg as (h & Hh%map_err_Ok & Hg).
  destruct (str_eqb h _) eqn:He; [|done]. to_prop. subst h. cbn [negb] in Hg.
  apply bind_Ok in Hg as (p & Hp%map_err_Ok & Hb). apply bind_presenter_ok in Hb.
  unfold extract_serving_id_from_path in Hh. rewrite <-Hlast in Hh.
  destruct (last file_path) as [name|] eqn:Hn; [|done]. cbn [mbind option_bind] in Hh.
  destruct (before_last_dot name) as [h|] eqn:Hd; [|done]. injection Hh as ->.
  apply before_last_dot_some in Hd as (ext & -> & Hext).
  destruct file_path as [|name dirs _] using rev_ind; [done|]. rewrite last_snoc in Hn. injection Hn as ->.
  rewrite fmap_app in H. change (Normal <$> [?x]) with [Normal x] in H.
  set (root := push data_home _) in *.
  assert (push root ((Normal <$> dirs) ++ [Normal (asset_hash claims ++ 46 :: ext)])
          = root ++ (Normal <$> dirs) ++ [Normal (asset_hash claims ++ 46 :: ext)]) as Hpush
    by (unfold push; by destruct dirs).
  exists claims, p, dirs. rewrite Hpush in H. unfold file_name at 1 in H. rewrite app_assoc, rev_unit in H.
  cbn [mbind option_bind] in H. rewrite name_extension_last in H by done.
  destruct (asset_hash claims) as [|h0 h] eqn:Hash; [done|]. cbn [is_empty] in H. rewrite <-app_assoc in H.
  destruct (str_eqb ext (lit "mp4")) eqn:He; [apply str_eqb_eq in He as ->|clear He; destruct (str_eqb ext (lit "jpg")) eqn:He;
    [apply str_eqb_eq in He as ->|done]];
    apply bind_Ok in H as ([] & Ho%map_err_Ok & H); injection H as <-.
  - exists "mp4"%string. split_and!; [by exists token|done..].
  - exists "jpg"%string. split_and!; [by exists token|done..].
Qed.
End MediaFacts.

(** ** What a completion lists *)
Section CompletionFacts.
Context {Br : Browse}.
Context {Jc : JsonCodec} {Lh : LegacyHash} {Ca : Casing} {Cr : Crypto} {J : Jwt} {Tc : TokenCodec} {F : Fs}.

Instance caseless_total : Total caseless_le.
Proof. intros a b. apply str_leb_total. Qed.
Lemma limited_facts l : Sorted caseless_le (limited l) /\ (length (limited l) <= 50)%nat /\
  (forall x, x ∈ limited l -> x ∈ l) /\ ((length l <= 50)%nat -> forall x, x ∈ l -> x ∈ limited l).
Proof.
  unfold limited. pose proof (Sorted_merge_sort caseless_le l) as Hs. pose proof (merge_sort_Permutation caseless_le l) as Hp.
  set (m := merge_sort _ l) in *. split_and!.
  - revert Hs. generalize m. intros k. generalize 50%nat. induction k as [|x k IH]; intros [|n] Hk; cbn; try constructor.
    + apply IH. by inversion Hk.
    + inversion Hk as [|? ? ? Hd]. destruct k as [|y k], n; cbn; constructor. by inversion Hd.
  - rewrite length_take. lia.
  - intros x Hx. rewrite <-Hp, <-(take_drop 50 m). apply elem_of_app. by left.
  - intros Hl x Hx. rewrite take_ge by (by rewrite Hp). by rewrite Hp.
Qed.
Lemma shown_some cfg caller keep (entries : list (option Path)) (x : str) : x ∈ omap (shown cfg caller keep) entries <->
  exists p, Some p ∈ entries /\ x = path_text p /\ folder_at p = true /\ visible_to cfg caller p = true /\ keep p = true.
Proof.
  rewrite list_elem_of_omap. split.
  - intros ([p|] & Hp & H); [|done]. cbn in H. destruct (folder_at p && _ && _) eqn:He; [|done]. injection H as <-.
    apply andb_true_iff in He as [He ?]. apply andb_true_iff in He as [? ?]. eauto 6.
  - intros (p & Hp & -> & H1 & H2 & H3). exists (Some p). split; [done|]. cbn. by rewrite H1, H2, H3.
Qed.

(** A completion is answered to an administrator only.  It lists in case-insensitive
    order at most fifty paths, each of the root or of a directory that was read and that
    the caller may see, so none in another user's area; a query with a parent or a
    trailing separator lists every such directory of the named one with the asked prefix,
    if fifty suffice, and finds nothing only as an error unless no prefix was asked. *)
Theorem completion_spec c path s r : get_fs_completion c path s = Ok r ->
  let query := default [] path in
  exists claims, admin_claims c s = Ok claims /\
    let caller := (caller_identity claims).1 in
    Sorted caseless_le (fc_children r) /\ (length (fc_children r) <= 50)%nat /\
    fc_is_default r = is_empty (trim query) /\
    (forall x, x ∈ fc_children r -> exists p, x = path_text p /\ visible_to (c_roots c) caller p = true /\
       (p = [RootDir] \/ folder_at p = true /\ exists dir entries, read_dir dir = Ok entries /\ Some p ∈ entries)) /\
    (is_empty (trim query) = false -> forall dir prefix, dir_and_prefix query = Some (dir, prefix) ->
       (prefix <> [] -> fc_children r <> []) /\
       exists entries, read_dir (absolutize dir) = Ok entries /\
       ((length entries <= 50)%nat -> forall p, Some p ∈ entries -> folder_at p = true ->
          visible_to (c_roots c) caller p = true -> name_matches prefix p = true -> path_text p ∈ fc_children r)).
Proof.
  intros H. cbn zeta. unfold get_fs_completion in H. apply bind_Ok in H as (claims & Hc & H).
  exists claims. split; [done|]. destruct (caller_identity claims) as [caller admin]. cbn [fst]. revert H.
  generalize (default [] path) as query. intros query. unfold completion.
  assert (forall l roots d, (forall x, x ∈ l -> exists p, x = path_text p /\ visible_to (c_roots c) caller p = true /\
       (p = [RootDir] \/ folder_at p = true /\ exists dir entries, read_dir dir = Ok entries /\ Some p ∈ entries)) ->
     let r := mkCompletion roots (limited l) d in
     Sorted caseless_le (fc_children r) /\ (length (fc_children r) <= 50)%nat /\
     (forall x, x ∈ fc_children r -> exists p, x = path_text p /\ visible_to (c_roots c) caller p = true /\
       (p = [RootDir] \/ folder_at p = true /\ exists dir entries, read_dir dir = Ok entries /\ Some p ∈ entries))) as Hlim.
  { intros l roots d Hl. destruct (limited_facts l) as (H1 & H2 & H3 & _). split_and!; [done..|]. intros x Hx. by apply Hl, H3. }
  assert (forall dir keep x, x ∈ omap (shown (c_roots c) caller keep) (entries_or_none (read_dir dir)) ->
     exists p, x = path_text p /\ visible_to (c_roots c) caller p = true /\
       (p = [RootDir] \/ folder_at p = true /\ exists dir entries, read_dir dir = Ok entries /\ Some p ∈ entries)) as Hshown.
  { intros dir keep x (p & Hp & -> & Hf & Hv & _)%shown_some. exists p. split_and!; [done..|]. right. split; [done|].
    destruct (read_dir dir) as [entries|] eqn:Hr; [eauto|]. by apply elem_of_nil in Hp. }
  destruct (is_empty (trim query)).
  { intros [= <-]. edestruct Hlim as (H1 & H2 & H3); [intros x; apply Hshown|]. split_and!; [exact H1|exact H2|done|exact H3|done]. }
  destruct (dir_and_prefix query) as [[dir prefix]|].
  - destruct (read_dir (absolutize dir)) as [entries|[]] eqn:Hr; [|done..].
    destruct (is_empty (limited _) && _) eqn:Hem; [done|]. intros [= <-].
    edestruct (Hlim (omap (shown (c_roots c) caller (name_matches prefix)) entries)) as (H1 & H2 & H3).
    { intros x Hx. apply (Hshown (absolutize dir) (name_matches prefix)). by rewrite Hr. }
    split_and!; [exact H1|exact H2|done|exact H3|]. intros _ dir' prefix' [= <- <-]. split.
    { cbn [fc_children]. intros Hp Hn. rewrite Hn in Hem. by destruct prefix. }
    exists entries. split; [done|]. intros Hlen p Hp Hf Hv Hm. cbn [fc_children]. apply limited_facts.
    + etrans; [|exact Hlen]. clear. induction entries as [|e entries IH]; cbn; [done|]. case_match; cbn; lia.
    + apply shown_some. exists p. by split_and!.
  - destruct (is_empty (limited _)) eqn:Hem; [done|]. intros [= <-].
    edestruct Hlim as (H1 & H2 & H3); [|split_and!; [exact H1|exact H2|done|exact H3|done]].
    intros x [Hx|Hx]%elem_of_app; [|by eapply Hshown].
    cbn [get_roots List.filter] in Hx. destruct (starts_with _ _ && visible_to _ _ _) eqn:Hv; [|by apply elem_of_nil in Hx].
    apply list_elem_of_singleton in Hx as ->. apply andb_true_iff in Hv as [_ Hv].
    exists [RootDir]. split_and!; [by vm_compute|exact Hv|by left].
Qed.
End CompletionFacts.

(** ** Concrete answers *)
Import (hints) ServerWitness HomeWitness PathWitness TokenWitness SnapshotWitness PageWitness IndexWitness.
Module ServeWitness.
#[export] Instance all_open : Opens := {| named_file _ := Ok tt; seek_stream _ := Ok tt |}.
(** [/img] with two directories and a file; [/users] with the areas of two users. *)
#[export] Instance disk : Browse := {|
  current_dir := Some (components (lit "/img"));
  read_dir p :=
    if bool_decide (p = components (lit "/img"))
    then Ok (Some <$> [components (lit "/img/b"); components (lit "/img/a"); components (lit "/img/x.jpg")])
    else if bool_decide (p = components (lit "/users"))
    then Ok [Some (components (lit "/users/alice")); None; Some (components (lit "/users/bob"))]
    else Err NoSuchDirectory;
  folder_at p := bool_decide (p <> components (lit "/img/x.jpg"))
|}.
Definition media_request : Request :=
  PageWitness.request (PageWitness.bearer (d_token (PageWitness.first_row (Some PageWitness.downloads))))
    [lit "object"; lit "compressed"; lit "h1.jpg"].
Definition media (file : string) : app_result CompressedFileResponse :=
  compressed_file (PageWitness.ctx media_request) (components (lit "/data")) [lit file] PageWitness.server.
Definition admin : Ctx := ServerWitness.ctx_at AuthWitness.now AuthWitness.signed_in (lit "jti") (Ok tt).
Definition completed (query : string) : app_result FsCompletion :=
  get_fs_completion admin (Some (lit query)) ServerWitness.solo.
Definition album_index : Index := index (library ServerWitness.solo).
End ServeWitness.
Import (hints) ServeWitness.

Lemma fallback_spec_witness : exists a,
  payloads ServeWitness.album_index !! display_path [lit "A"] = Some (MAlbum a).
Proof.
  refine (proj2 (proj1 (fallback_spec None ServeWitness.admin [lit "album"; lit "A"] ServeWitness.album_index _) _ _)).
  - repeat constructor; (apply (bool_decide_unpack _); by vm_compute).
  - by vm_compute.
Defined.

Lemma album_view_has_no_page_witness :
  spa_fallback None ServeWitness.admin (lit <$> ["album"; "A"; "view"; "x"]%string) ServeWitness.album_index
  = fail Errors.NotFound (lit "Album not found").
Proof.
  refine (proj2 (album_view_has_no_page None ServeWitness.admin ServeWitness.album_index (lit "A") (lit "x") AuthWitness.album
    (components (lit "/nonexistent/www/index.html")) eq_refl (fun _ => eq_refl) _ _ _)); by vm_compute.
Defined.

Lemma compressed_is_tokens_witness : exists claims : ClaimsAsset, exists dirs ext,
  [RootDir; Normal (lit "data"); Normal (lit "object"); Normal (lit "compressed"); Normal (lit "h1.jpg")]
  = push (components (lit "/data")) (components (lit "object/compressed")) ++ (Normal <$> dirs)
      ++ [Normal (asset_hash claims ++ lit "." ++ lit ext)].
Proof.
  destruct (compressed_is_tokens (PageWitness.ctx ServeWitness.media_request) (components (lit "/data")) [lit "h1.jpg"]
    PageWitness.server (NamedFile_ (components (lit "/data/object/compressed/h1.jpg"))))
    as (claims & p & dirs & ext & _ & _ & _ & H & _).
  - vm_compute. reflexivity.
  - reflexivity.
  - exists claims, dirs, ext. exact H.
Defined.

Lemma completion_spec_witness : forall x, x ∈ [lit "/users/alice"] -> exists p,
  x = path_text p /\ visible_to PathWitness.cfg (lit "alice") p = true.
Proof.
  destruct (completion_spec ServeWitness.admin (Some (lit "/users/")) ServerWitness.solo (mkCompletion [] [lit "/users/alice"] false))
    as (claims & Hc & _ & _ & _ & Hx & _); [by vm_compute|].
  intros x Hin. vm_compute in Hc. injection Hc as <-. destruct (Hx x Hin) as (p & ? & ? & _). by exists p.
Defined.
