(* ===== verification/ClientIp.v ===== *)
(** * ClientIp: whose attempts are counted together
    ([throttle_key] and [select_client_ip] of [backend/src/auth/login_throttle.rs],
    [ThrottleClientIp] of [backend/src/router/post/users_authenticate.rs])

    The key under which the tracker of LoginThrottle counts a client: the text of its
    address, an address of version 6 cut to its /64.  Addresses are read and printed by
    the standard library, whose parser and printer are written out here: [parse_ip] is
    [IpAddr::from_str], [ip_text] its [Display]. *)

From S2P Require Import Prelude RateLimit LoginThrottle.

(** ** Addresses *)
(** Four octets, or eight groups of sixteen bits. *)
Inductive IpAddr := V4 (a b c d : N) | V6 (segments : list N).
#[export] Instance IpAddr_eq_dec : EqDecision IpAddr.
Proof. solve_decision. Defined.
Definition ip_ok (a : IpAddr) : Prop :=
  match a with
  | V4 a b c d => Forall (fun o => o < 256) [a; b; c; d]
  | V6 s => length s = 8%nat /\ Forall (fun g => g < 65536) s
  end.

(** ** Printing *)
Definition digit_char (d : N) : N := if d <? 10 then 48 + d else 87 + d.
Fixpoint show_radix (fuel : nat) (radix n : N) : str :=
  match fuel with
  | O => []
  | S fuel => if n <? radix then [digit_char n]
              else show_radix fuel radix (n / radix) ++ [digit_char (n mod radix)]
  end.
Definition octet_text (o : N) : str := show_radix 3 10 o.
Definition segment_text (g : N) : str := show_radix 4 16 g.
Definition v4_text (a b c d : N) : str :=
  octet_text a ++ 46 :: octet_text b ++ 46 :: octet_text c ++ 46 :: octet_text d.
(** [fmt_subslice] *)
Fixpoint groups_text (s : list N) : str :=
  match s with
  | [] => []
  | [g] => segment_text g
  | g :: s => segment_text g ++ 58 :: groups_text s
  end.
(** The first longest run of zero groups, as its start and its length. *)
Fixpoint longest_zeroes (i : nat) (current longest : nat * nat) (s : list N) : nat * nat :=
  match s with
  | [] => longest
  | g :: s =>
      if g =? 0 then
        let current := (if (current.2 =? 0)%nat then i else current.1, S current.2) in
        longest_zeroes (S i) current (if (longest.2 <? current.2)%nat then current else longest) s
      else longest_zeroes (S i) (O, O) longest s
  end.
Definition to_ipv4_mapped (s : list N) : option (N * N * N * N) :=
  if bool_decide (take 6 s = [0; 0; 0; 0; 0; 65535]) then
    match drop 6 s with
    | [ab; cd] => Some (ab / 256, ab mod 256, cd / 256, cd mod 256)
    | _ => None
    end
  else None.
Definition v6_text (s : list N) : str :=
  match to_ipv4_mapped s with
  | Some (a, b, c, d) => lit "::ffff:" ++ v4_text a b c d
  | None =>
      let '(start, len) := longest_zeroes 0 (O, O) (O, O) s in
      if (1 <? len)%nat then groups_text (take start s) ++ lit "::" ++ groups_text (drop (start + len) s)
      else groups_text s
  end.
Definition ip_text (a : IpAddr) : str :=
  match a with V4 a b c d => v4_text a b c d | V6 s => v6_text s end.

(** ** Reading *)
(** A reader answers the value and the text after it; one that fails consumes nothing. *)
Definition Reader (A : Type) : Type := str -> option (A * str).
Definition to_digit (radix c : N) : option N :=
  let d := if (48 <=? c) && (c <=? 57) then Some (c - 48)
           else if (97 <=? c) && (c <=? 122) then Some (c - 87)
           else if (65 <=? c) && (c <=? 90) then Some (c - 55) else None in
  option_filter (fun d => d <? radix) d.
Definition read_given_char (c : N) : Reader unit := fun s =>
  match s with c' :: s => if c' =? c then Some (tt, s) else None | [] => None end.
Fixpoint read_digits (radix max acc count : N) (s : str) : option (N * N * str) :=
  match s with
  | c :: s' =>
      match to_digit radix c with
      | Some d => if max <? count + 1 then None else read_digits radix max (acc * radix + d) (count + 1) s'
      | None => Some (acc, count, s)
      end
  | [] => Some (acc, count, [])
  end.
Definition read_number (radix max bound : N) (allow_zero_prefix : bool) : Reader N := fun s =>
  match read_digits radix max 0 0 s with
  | Some (value, count, rest) =>
      if count =? 0 then None
      else if negb allow_zero_prefix && starts_with [48] s && (1 <? count) then None
      else if value <=? bound then Some (value, rest) else None
  | None => None
  end.
Definition read_separator {A} (sep : N) (first : bool) (inner : Reader A) : Reader A := fun s =>
  if first then inner s else r ← read_given_char sep s; inner r.2.
Definition read_octet (first : bool) : Reader N := read_separator 46 first (read_number 10 3 255 false).
Definition read_ipv4 : Reader (N * N * N * N) := fun s =>
  a ← read_octet true s; b ← read_octet false a.2; c ← read_octet false b.2; d ← read_octet false c.2;
  Some ((a.1, b.1, c.1, d.1), d.2).
(** At most [limit] groups, the last two perhaps as an address of version 4. *)
Fixpoint read_groups (limit : nat) (first : bool) (s : str) : list N * bool * str :=
  match limit with
  | O => ([], false, s)
  | S limit =>
      match (if (0 <? limit)%nat then read_separator 58 first read_ipv4 s else None) with
      | Some ((a, b, c, d), rest) => ([a * 256 + b; c * 256 + d], true, rest)
      | None =>
          match read_separator 58 first (read_number 16 4 65535 true) s with
          | Some (g, rest) => let '(gs, v4, rest) := read_groups limit false rest in (g :: gs, v4, rest)
          | None => ([], false, s)
          end
      end
  end.
Definition read_ipv6 : Reader (list N) := fun s =>
  let '(head, head_v4, rest) := read_groups 8 true s in
  if (length head =? 8)%nat then Some (head, rest)
  else if head_v4 : bool then None
  else
    r ← read_given_char 58 rest; r ← read_given_char 58 r.2;
    let '(tail, _, rest) := read_groups (8 - (length head + 1)) true r.2 in
    Some (head ++ repeat 0 (8 - length tail - length head) ++ tail, rest).
Definition read_ip : Reader IpAddr := fun s =>
  match read_ipv4 s with
  | Some ((a, b, c, d), rest) => Some (V4 a b c d, rest)
  | None => r ← read_ipv6 s; Some (V6 r.1, r.2)
  end.
Definition parse_ip (s : str) : option IpAddr :=
  match read_ip s with Some (a, []) => Some a | _ => None end.

(** ** The key of a client *)
Definition throttle_key (ip : str) : str :=
  match parse_ip (trim ip) with
  | Some (V6 s) => ip_text (V6 (take 4 s ++ [0; 0; 0; 0]))
  | _ => ip
  end.
Definition select_client_ip (forwarded_for socket_ip : option str) (trust_proxy : bool) : str :=
  let socket := match socket_ip with
                | Some ((_ :: _) as socket) => throttle_key socket
                | _ => lit "unknown"
                end in
  match forwarded_for with
  | Some xff =>
      if trust_proxy then
        let candidate := trim (default [] (head (split_on 44 xff))) in
        if is_some (parse_ip candidate) then throttle_key candidate else socket
      else socket
  | None => socket
  end.
(** [remote] is the address of the socket. *)
Definition throttle_client_ip (trust_proxy : bool) (forwarded_for : option str) (remote : option IpAddr) : str :=
  select_client_ip forwarded_for (ip_text <$> remote) trust_proxy.

(** ** What is printed is read back *)
Section Numbers.
Variable radix : N.
Hypothesis radix_ok : 2 <= radix <= 16.

Definition stops (s : str) : Prop := match s with c :: _ => to_digit radix c = None | [] => True end.
Lemma to_digit_char d : d < radix -> to_digit radix (digit_char d) = Some d.
Proof.
  intros Hd. unfold to_digit, digit_char. destruct (d <? 10) eqn:H; to_prop.
  - rewrite (proj2 (N.leb_le 48 _)), (proj2 (N.leb_le _ 57)) by lia. cbn.
    rewrite (proj2 (N.ltb_lt _ _)) by lia. f_equal. lia.
  - rewrite (proj2 (N.leb_gt _ 57)), andb_false_r by lia. rewrite (proj2 (N.leb_le 97 _)), (proj2 (N.leb_le _ 122)) by lia. cbn.
    rewrite (proj2 (N.ltb_lt _ _)) by lia. f_equal. lia.
Qed.
Lemma show_length fuel n : (length (show_radix fuel radix n) <= fuel)%nat.
Proof. revert n. induction fuel as [|f IH]; intros n; cbn; [lia|]. case_match; cbn; [lia|]. rewrite length_app. cbn. specialize (IH (n / radix)). lia. Qed.
Lemma show_nonempty fuel n : fuel <> O -> show_radix fuel radix n <> [].
Proof. destruct fuel; [done|]. intros _. cbn. case_match; [done|]. by destruct (show_radix _ _ _). Qed.
Lemma div_bound n f : n < radix ^ N.of_nat (S f) -> n / radix < radix ^ N.of_nat f.
Proof. intros H. apply N.Div0.div_lt_upper_bound. rewrite <-N.pow_succ_r'. by rewrite Nat2N.inj_succ in H. Qed.
Lemma show_head fuel n c s : fuel <> O -> n < radix ^ N.of_nat fuel -> show_radix fuel radix n = c :: s ->
  c = 48 -> n = 0.
Proof.
  revert n c s. induction fuel as [|f IH]; [done|]. intros n c s _ Hn. cbn. case_match eqn:Hr; to_prop.
  - intros [= <- _]. unfold digit_char. case_match; to_prop; lia.
  - intros Hs Hc. destruct f as [|f]; [cbn in Hn; lia|].
    destruct (show_radix (S f) radix (n / radix)) as [|c' s'] eqn:Hq; [by apply show_nonempty in Hq|].
    injection Hs as -> _. apply (IH _ c s') in Hq; [|done|by apply div_bound|done].
    apply N.div_small_iff in Hq; lia.
Qed.
Lemma read_digits_show fuel : forall n max acc count rest, n < radix ^ N.of_nat fuel ->
  count + N.of_nat (length (show_radix fuel radix n)) <= max ->
  exists k, read_digits radix max acc count (show_radix fuel radix n ++ rest)
            = read_digits radix max (acc * k + n) (count + N.of_nat (length (show_radix fuel radix n))) rest.
Proof.
  induction fuel as [|f IH]; intros n max acc count rest Hn Hc.
  { exists 1. change (radix ^ N.of_nat 0) with 1 in Hn. assert (n = 0) as -> by lia. cbn [show_radix length app N.of_nat].
    by rewrite N.mul_1_r, !N.add_0_r. }
  cbn [show_radix] in *. destruct (n <? radix) eqn:Hr; to_prop.
  - exists radix. cbn [app read_digits length] in *. rewrite to_digit_char by done.
    by rewrite (proj2 (N.ltb_ge _ _)) by lia.
  - rewrite length_app in *. cbn [length] in *. rewrite <-app_assoc.
    destruct (IH (n / radix) max acc count ([digit_char (n mod radix)] ++ rest)) as [k ->]; [by apply div_bound|lia|].
    exists (k * radix). cbn [app read_digits]. rewrite to_digit_char by (apply N.mod_lt; lia).
    rewrite (proj2 (N.ltb_ge _ _)) by lia. f_equal; [|lia].
    pose proof (N.div_mod n radix ltac:(lia)) as Hd. revert Hd. generalize (n / radix), (n mod radix). intros q m ->. lia.
Qed.
Lemma read_digits_stops max acc count rest : stops rest -> read_digits radix max acc count rest = Some (acc, count, rest).
Proof. destruct rest as [|c rest]; [done|]. cbn. by intros ->. Qed.
Lemma read_show_ip fuel max bound allow n rest : fuel <> O -> n < radix ^ N.of_nat fuel -> N.of_nat fuel <= max ->
  n <= bound -> stops rest -> read_number radix max bound allow (show_radix fuel radix n ++ rest) = Some (n, rest).
Proof.
  intros Hf Hn Hm Hb Hr. unfold read_number. pose proof (show_length fuel n) as Hl.
  destruct (read_digits_show fuel n max 0 0 rest) as [k ->]; [done|lia|]. rewrite read_digits_stops by done.
  rewrite !N.mul_0_l, !N.add_0_l. destruct (show_radix fuel radix n) as [|c s] eqn:Hs; [by apply show_nonempty in Hs|].
  rewrite (proj2 (N.eqb_neq _ 0)) by (cbn [length]; lia). rewrite (proj2 (N.leb_le n bound)) by done.
  destruct (negb allow && _ && _) eqn:Hz; [|done]. apply andb_prop in Hz as [[_ H0]%andb_prop H1]. to_prop.
  cbn [starts_with app] in H0. apply andb_prop in H0 as [H0 _]. apply N.eqb_eq in H0 as <-.
  pose proof (show_head fuel n 48 s Hf Hn Hs eq_refl) as ->. destruct fuel as [|f]; [done|]. cbn in Hs.
  rewrite (proj2 (N.ltb_lt 0 radix)) in Hs by lia. injection Hs as <-. cbn in H1. lia.
Qed.
End Numbers.

(** *** Version 4 *)
Lemma octet_read first o rest : o < 256 -> stops 10 rest ->
  read_octet first ((if first then [] else [46]) ++ octet_text o ++ rest) = Some (o, rest).
Proof.
  intros Ho Hr. unfold read_octet, read_separator, octet_text.
  assert (read_number 10 3 255 false (show_radix 3 10 o ++ rest) = Some (o, rest)) as H by (apply read_show_ip; (done || lia)).
  destruct first; cbn [app read_given_char]; [exact H|]. cbn. exact H.
Qed.
Lemma v4_read a b c d rest : ip_ok (V4 a b c d) -> stops 10 rest ->
  read_ipv4 (v4_text a b c d ++ rest) = Some ((a, b, c, d), rest).
Proof.
  unfold ip_ok. rewrite !Forall_cons. intros (Ha & Hb & Hc & Hd & _) Hr. unfold read_ipv4, v4_text.
  repeat (rewrite <-app_assoc || rewrite <-app_comm_cons).
  pose proof (octet_read true a (46 :: octet_text b ++ 46 :: octet_text c ++ 46 :: octet_text d ++ rest) Ha eq_refl) as H1.
  pose proof (octet_read false b (46 :: octet_text c ++ 46 :: octet_text d ++ rest) Hb eq_refl) as H2.
  pose proof (octet_read false c (46 :: octet_text d ++ rest) Hc eq_refl) as H3.
  pose proof (octet_read false d rest Hd Hr) as H4. cbn [app] in *.
  by rewrite H1; cbn [mbind option_bind fst snd]; rewrite H2; cbn [mbind option_bind fst snd];
    rewrite H3; cbn [mbind option_bind fst snd]; rewrite H4.
Qed.

(** An address of version 4 is not read where a colon or the end comes before any dot. *)
Definition colon_or_end (s : str) : Prop := match s with c :: _ => c = 58 | [] => True end.
Definition undotted (s : str) : Prop := Forall (fun c => c <> 46) s.
Lemma read_digits_colon radix max t rest acc count v n r : undotted t -> colon_or_end rest ->
  read_digits radix max acc count (t ++ rest) = Some (v, n, r) -> read_given_char 46 r = None.
Proof.
  revert acc count. induction t as [|c t IH]; intros acc count Ht Hr.
  - cbn. destruct rest as [|c rest]; cbn in *; [by intros [= _ _ <-]|]. subst c.
    assert (to_digit radix 58 = None) as -> by done. by intros [= _ _ <-].
  - apply Forall_cons in Ht as [Hc Ht]. cbn. destruct (to_digit radix c).
    + destruct (max <? count + 1); [done|]. by apply IH.
    + intros [= _ _ <-]. cbn. by rewrite (proj2 (N.eqb_neq _ _)).
Qed.
Lemma v4_refused t rest : undotted t -> colon_or_end rest -> read_ipv4 (t ++ rest) = None.
Proof.
  intros Ht Hr. unfold read_ipv4. destruct (read_octet true (t ++ rest)) as [[v r]|] eqn:Ho; [|done].
  unfold read_octet, read_separator, read_number in Ho.
  destruct (read_digits 10 3 0 0 (t ++ rest)) as [[[v' n] r']|] eqn:H; [|done].
  apply read_digits_colon in H; [|done..]. repeat case_match; try done. injection Ho as <- <-.
  cbn [mbind option_bind snd].
  assert (read_octet false r' = None) as -> by (unfold read_octet, read_separator; by rewrite H). done.
Qed.

(** *** Version 6 *)
Definition tail_text (first : bool) (s : list N) : str :=
  match s with [] => [] | _ => (if first then [] else [58]) ++ groups_text s end.
Lemma groups_text_cons g s : groups_text (g :: s) = segment_text g ++ tail_text false s.
Proof. destruct s; cbn [groups_text tail_text app]; [by rewrite app_nil_r|done]. Qed.
Lemma digit_undotted d : digit_char d <> 46.
Proof. unfold digit_char. case_match; lia. Qed.
Lemma show_undotted fuel radix n : undotted (show_radix fuel radix n).
Proof.
  unfold undotted. revert n. induction fuel as [|f IH]; intros n; cbn; [done|]. case_match.
  - repeat constructor. apply digit_undotted.
  - apply Forall_app. split; [apply IH|]. repeat constructor. apply digit_undotted.
Qed.
(** What may follow groups that are all read: the end or a double colon. *)
Definition gap_or_end (s : str) : Prop := s = [] \/ exists r, s = 58 :: 58 :: r.
Lemma gap_colon s : gap_or_end s -> colon_or_end s.
Proof. by intros [->|[r ->]]. Qed.
Lemma group_read g rest : g < 65536 -> colon_or_end rest -> read_number 16 4 65535 true (segment_text g ++ rest) = Some (g, rest).
Proof. intros Hg Hr. apply read_show_ip; (done || lia || idtac). destruct rest as [|c rest]; [done|]. cbn in Hr. by subst c. Qed.
Lemma read_groups_text s : forall limit first rest, Forall (fun g => g < 65536) s -> (length s <= limit)%nat -> gap_or_end rest ->
  read_groups limit first (tail_text first s ++ rest) = (s, false, rest).
Proof.
  induction s as [|g s IH]; intros limit first rest Hs Hl Hr.
  - cbn [tail_text app]. destruct limit as [|limit]; [done|]. cbn [read_groups].
    assert (read_separator 58 first read_ipv4 rest = None) as H4.
    { unfold read_separator. destruct first; [by apply (v4_refused []); [constructor|apply gap_colon]|].
      destruct Hr as [->|[r ->]]; [done|]. cbn. by apply (v4_refused [] (58 :: r)); [constructor|]. }
    assert (read_separator 58 first (read_number 16 4 65535 true) rest = None) as ->.
    { unfold read_separator. destruct Hr as [->|[r ->]]; by destruct first. }
    by rewrite H4; destruct (0 <? limit)%nat.
  - apply Forall_cons in Hs as [Hg Hs]. destruct limit as [|limit]; [cbn in Hl; lia|]. cbn in Hl.
    set (more := tail_text false s ++ rest).
    assert (Hmore : colon_or_end more) by (unfold more; destruct s; [by apply gap_colon|done]).
    assert (tail_text first (g :: s) ++ rest = (if first then [] else [58]) ++ segment_text g ++ more) as ->.
    { unfold tail_text at 1, more. by rewrite groups_text_cons, <-!app_assoc. }
    cbn [read_groups].
    assert (read_separator 58 first read_ipv4 ((if first then [] else [58]) ++ segment_text g ++ more) = None) as H4.
    { pose proof (v4_refused (segment_text g) more (show_undotted _ _ _) Hmore) as H. unfold read_separator.
      destruct first; cbn [app read_given_char]; [exact H|]. cbn. exact H. }
    rewrite H4.
    assert (read_separator 58 first (read_number 16 4 65535 true) ((if first then [] else [58]) ++ segment_text g ++ more)
            = Some (g, more)) as ->.
    { pose proof (group_read g more Hg Hmore) as H. unfold read_separator.
      destruct first; cbn [app read_given_char]; [exact H|]. cbn. exact H. }
    unfold more. rewrite (IH limit false rest Hs ltac:(lia) Hr). by destruct (0 <? limit)%nat.
Qed.

(** The window the printer leaves out holds zeroes only. *)
Definition window (full : list N) (w : nat * nat) : Prop :=
  (w.1 + w.2 <= length full)%nat /\ forall j, (w.1 <= j < w.1 + w.2)%nat -> full !! j = Some 0.
Lemma longest_window s : forall p current longest,
  (current.2 <> O -> current.1 + current.2 = length p)%nat -> window (p ++ s) current -> window (p ++ s) longest ->
  window (p ++ s) (longest_zeroes (length p) current longest s).
Proof.
  induction s as [|g s IH]; intros p current longest Hc Hw Hl; [exact Hl|]. cbn [longest_zeroes].
  replace (p ++ g :: s) with ((p ++ [g]) ++ s) in * by by rewrite <-app_assoc.
  replace (S (length p)) with (length (p ++ [g])) by (rewrite length_app; cbn; lia).
  destruct (g =? 0) eqn:Hg; to_prop.
  - set (c' := ((if (current.2 =? 0)%nat then length p else current.1), S current.2)).
    assert ((c'.1 + c'.2 = length (p ++ [g]))%nat /\ window ((p ++ [g]) ++ s) c') as [H1 H2].
    { unfold c'. cbn [fst snd]. rewrite length_app. cbn [length].
      destruct (current.2 =? 0)%nat eqn:H0; [apply Nat.eqb_eq in H0|apply Nat.eqb_neq in H0].
      - rewrite H0. split; [lia|]. split; cbn [fst snd]; rewrite ?length_app; cbn; [lia|]. intros j Hj.
        assert (j = length p) as -> by lia. rewrite <-app_assoc, lookup_app_r, Nat.sub_diag by lia. cbn. by rewrite Hg.
      - specialize (Hc H0). split; [lia|]. destruct Hw as [_ Hw]. split; cbn [fst snd]; rewrite ?length_app; cbn; [lia|]. intros j Hj.
        destruct (decide (j = length p)) as [->|Hne]; [|apply Hw; lia].
        rewrite <-app_assoc, lookup_app_r, Nat.sub_diag by lia. cbn. by rewrite Hg. }
    apply IH; [done|done|]. by destruct (longest.2 <? c'.2)%nat.
  - apply IH; [done| |done]. split; cbn; [lia|]. intros j. lia.
Qed.
Lemma longest_ok s : window s (longest_zeroes 0 (O, O) (O, O) s).
Proof.
  assert (window s (O, O)) by (split; cbn; [lia|intros; lia]).
  by apply (longest_window s [] (O, O) (O, O)).
Qed.
Lemma window_fill s start len : window s (start, len) ->
  take start s ++ repeat 0 len ++ drop (start + len) s = s.
Proof.
  intros [Hl Hz]. cbn in *. rewrite <-(take_drop start s) at 3. f_equal.
  rewrite <-(take_drop len (drop start s)), drop_drop. f_equal. symmetry.
  apply list_eq_same_length with len; rewrite ?repeat_length, ?length_take, ?length_drop; try lia.
  intros i x y Hi Hx Hy. rewrite lookup_take_lt, lookup_drop in Hx by done. rewrite Hz in Hx by lia. injection Hx as <-.
  apply list_elem_of_lookup_2, list_elem_of_In, repeat_spec in Hy. done.
Qed.

Lemma mapped_groups s a b c d : to_ipv4_mapped s = Some (a, b, c, d) -> Forall (fun g => g < 65536) s ->
  ip_ok (V4 a b c d) /\ s = [0; 0; 0; 0; 0; 65535; a * 256 + b; c * 256 + d].
Proof.
  unfold to_ipv4_mapped. case_bool_decide as Ht; [|done]. destruct (drop 6 s) as [|ab [|cd []]] eqn:Hd; try done.
  intros [= <- <- <- <-] Hs. rewrite <-(take_drop 6 s), Ht, Hd in Hs |- *. cbn [app] in *. rewrite !Forall_cons in Hs.
  destruct Hs as (_ & _ & _ & _ & _ & _ & Hab & Hcd & _). split.
  - cbn. repeat constructor; try (apply N.mod_lt; lia); apply N.Div0.div_lt_upper_bound; lia.
  - pose proof (N.div_mod ab 256 ltac:(lia)) as H1. pose proof (N.div_mod cd 256 ltac:(lia)) as H2.
    by rewrite !(N.mul_comm _ 256), <-H1, <-H2.
Qed.
Lemma mapped_tail_read a b c d : ip_ok (V4 a b c d) ->
  read_groups 7 true (segment_text 65535 ++ 58 :: v4_text a b c d) = ([65535; a * 256 + b; c * 256 + d], true, []).
Proof.
  intros Hok. pose proof (v4_read a b c d [] Hok I) as H4. rewrite app_nil_r in H4.
  cbn [read_groups Nat.ltb Nat.leb]. unfold read_separator.
  rewrite (v4_refused (segment_text 65535) (58 :: v4_text a b c d)) by (apply show_undotted || done).
  rewrite group_read by done. cbn [Nat.ltb Nat.leb read_given_char N.eqb Pos.eqb mbind option_bind snd]. by rewrite H4.
Qed.
Lemma v6_read s : ip_ok (V6 s) -> read_ipv6 (v6_text s) = Some (s, []).
Proof.
  intros [Hlen Hs]. unfold v6_text. destruct (to_ipv4_mapped s) as [[[[a b] c] d]|] eqn:Hm.
  - apply mapped_groups in Hm as [Hok ->]; [|done]. unfold read_ipv6.
    pose proof (read_groups_text [] 8 true (58 :: 58 :: segment_text 65535 ++ 58 :: v4_text a b c d)
      ltac:(constructor) ltac:(cbn; lia) ltac:(right; by eexists)) as H.
    change (lit "::ffff:" ++ v4_text a b c d) with (58 :: 58 :: segment_text 65535 ++ 58 :: v4_text a b c d).
    cbn [tail_text app] in H. rewrite H. cbn [length Nat.eqb read_given_char mbind option_bind snd N.eqb Pos.eqb Nat.add Nat.sub].
    by rewrite mapped_tail_read.
  - pose proof (longest_ok s) as Hw. destruct (longest_zeroes 0 (O, O) (O, O) s) as [start len].
    destruct (1 <? len)%nat eqn:Hl; [apply Nat.ltb_lt in Hl|].
    + pose proof (window_fill _ _ _ Hw) as Hfill. destruct Hw as [Hb _]. cbn in Hb.
      assert (Hhead : forall l r, groups_text l ++ r = tail_text true l ++ r) by (by intros []).
      unfold read_ipv6. change (lit "::" ++ ?x) with (58 :: 58 :: x). rewrite Hhead, read_groups_text; [| |rewrite length_take; lia|right; by eexists].
      2: { by apply Forall_take. }
      rewrite length_take, (proj2 (Nat.eqb_neq _ 8)) by lia.
      cbn [read_given_char mbind option_bind snd N.eqb Pos.eqb]. rewrite <-(app_nil_r (groups_text _)), Hhead, read_groups_text; [|by apply Forall_drop|rewrite length_drop; lia|by left].
      rewrite length_drop. replace (8 - (length s - (start + len)) - start `min` length s)%nat with len by lia.
      by rewrite Hfill.
    + unfold read_ipv6. pose proof (read_groups_text s 8 true [] Hs ltac:(lia) ltac:(by left)) as H.
      rewrite app_nil_r in H. assert (tail_text true s = groups_text s) as He by (by destruct s). rewrite He in H.
      by rewrite H, Hlen.
Qed.

(** *** Either version *)
Lemma groups_refused l rest : colon_or_end rest -> read_ipv4 (groups_text l ++ rest) = None.
Proof.
  intros Hr. destruct l as [|g l]; [by apply (v4_refused []); [constructor|]|].
  rewrite groups_text_cons, <-app_assoc. apply v4_refused; [apply show_undotted|]. destruct l; [exact Hr|done].
Qed.
Lemma v6_refused s : read_ipv4 (v6_text s) = None.
Proof.
  unfold v6_text. destruct (to_ipv4_mapped s) as [[[[a b] c] d]|]; [by apply (v4_refused []); [constructor|]|].
  destruct (longest_zeroes _ _ _ s) as [start len]. destruct (1 <? len)%nat; [by apply groups_refused|].
  rewrite <-(app_nil_r (groups_text s)). by apply groups_refused.
Qed.
Lemma parse_text a : ip_ok a -> parse_ip (ip_text a) = Some a.
Proof.
  intros Hok. unfold parse_ip, read_ip. destruct a as [a b c d|s]; cbn [ip_text].
  - pose proof (v4_read a b c d [] Hok I) as H. rewrite app_nil_r in H. by rewrite H.
  - rewrite v6_refused, (v6_read s Hok). done.
Qed.
Lemma ip_text_inj a b : ip_ok a -> ip_ok b -> ip_text a = ip_text b -> a = b.
Proof. intros Ha Hb He. apply parse_text in Ha, Hb. congruence. Qed.

(** *** No blanks *)
Definition solid (s : str) : Prop := Forall (fun c => is_whitespace c = false) s.
Lemma digit_solid d : d < 16 -> is_whitespace (digit_char d) = false.
Proof.
  intros H. destruct (is_whitespace _) eqn:E; [|done]. exfalso. unfold is_whitespace, digit_char in E.
  destruct (d <? 10); repeat (apply orb_prop in E as [E|E]); to_prop; lia.
Qed.
Lemma show_solid fuel radix n : 0 < radix <= 16 -> solid (show_radix fuel radix n).
Proof.
  intros Hr. unfold solid. revert n. induction fuel as [|f IH]; intros n; cbn; [done|]. case_match; to_prop.
  - repeat constructor. apply digit_solid. lia.
  - apply Forall_app. split; [apply IH|]. repeat constructor. apply digit_solid.
    pose proof (N.mod_lt n radix ltac:(lia)). lia.
Qed.
Lemma v4_solid a b c d : solid (v4_text a b c d).
Proof. unfold v4_text, octet_text. repeat (apply Forall_app_2 || apply Forall_cons_2 || apply show_solid); done. Qed.
Lemma groups_solid s : solid (groups_text s).
Proof.
  induction s as [|g s IH]; [constructor|]. rewrite groups_text_cons. apply Forall_app_2; [by apply show_solid|].
  destruct s; [constructor|]. by apply Forall_cons_2.
Qed.
Lemma ip_text_solid a : solid (ip_text a).
Proof.
  destruct a as [a b c d|s]; cbn [ip_text]; [apply v4_solid|]. unfold v6_text.
  destruct (to_ipv4_mapped s) as [[[[a b] c] d]|].
  - apply Forall_app_2; [by repeat constructor|apply v4_solid].
  - destruct (longest_zeroes _ _ _ s) as [start len]. case_match; [|apply groups_solid].
    apply Forall_app_2; [apply groups_solid|]. apply Forall_app_2; [by repeat constructor|apply groups_solid].
Qed.
Lemma trim_start_solid s : solid s -> trim_start s = s.
Proof. destruct s as [|c s]; [done|]. intros [Hc _]%Forall_cons. cbn. by rewrite Hc. Qed.
Lemma trim_solid s : solid s -> trim s = s.
Proof.
  intros H. unfold trim. rewrite (trim_start_solid s) by done. rewrite trim_start_solid; [apply rev_involutive|].
  unfold solid in *. by apply Forall_rev.
Qed.

(** *** An address of version 4 has one spelling *)
Lemma digit_spelled c d : to_digit 10 c = Some d -> c = digit_char d /\ d < 10.
Proof.
  unfold to_digit, digit_char. intros H. destruct ((48 <=? c) && (c <=? 57)) eqn:H1.
  - cbn in H. case_match eqn:Hd; [|done]. injection H as <-. to_prop. rewrite (proj2 (N.ltb_lt _ 10)) by lia. lia.
  - destruct ((97 <=? c) && (c <=? 122)) eqn:H2; [|destruct ((65 <=? c) && (c <=? 90)) eqn:H3]; cbn in H; try done;
      case_match eqn:Hd; try done; injection H as <-; to_prop; lia.
Qed.
Lemma digits_spelled max s : forall acc count v n rest, read_digits 10 max acc count s = Some (v, n, rest) ->
  exists ds, s = ds ++ rest /\ n = count + N.of_nat (length ds) /\ (ds = [] -> v = acc) /\ (ds = [] \/ n <= max) /\
    stops 10 rest /\ (acc <> 0 -> forall f, show_radix f 10 acc ++ ds = show_radix (f + length ds) 10 v).
Proof.
  induction s as [|c s IH]; intros acc count v n rest; cbn [read_digits].
  - intros [= <- <- <-]. exists []. cbn [app length N.of_nat]. rewrite N.add_0_r. split_and!; try done; [by left|].
    intros _ f. by rewrite app_nil_r, Nat.add_0_r.
  - destruct (to_digit 10 c) as [d|] eqn:Hd.
    + destruct (max <? count + 1) eqn:Hm; [done|]. to_prop. apply digit_spelled in Hd as [-> Hd].
      intros (ds & -> & -> & Hv & Hn & Hst & Hsh)%IH. exists (digit_char d :: ds). cbn [length].
      split_and!; [done|lia|done|destruct Hn as [->|Hn]; [right; cbn; lia|right; lia]|done|].
      intros Ha f. specialize (Hsh ltac:(lia) (S f)).
      replace (f + S (length ds))%nat with (S f + length ds)%nat by lia. rewrite <-Hsh. cbn [show_radix].
      rewrite (proj2 (N.ltb_ge _ 10)) by lia. rewrite N.div_add_l, (N.div_small d), N.add_0_r by lia.
      rewrite N.add_comm, N.Div0.mod_add, N.mod_small by lia. by rewrite <-app_assoc.
    + intros [= <- <- <-]. exists []. cbn [app length N.of_nat]. rewrite N.add_0_r. split_and!; try done; [by left|].
      intros _ f. by rewrite app_nil_r, Nat.add_0_r.
Qed.
Lemma octet_spelled s v rest : read_number 10 3 255 false s = Some (v, rest) -> s = octet_text v ++ rest /\ v < 256.
Proof.
  unfold read_number. destruct (read_digits 10 3 0 0 s) as [[[v' n] r]|] eqn:H; [|done].
  destruct (n =? 0) eqn:Hn; [done|]. destruct (_ && _ && _) eqn:Hz; [done|]. destruct (v' <=? 255) eqn:Hb; [|done].
  intros [= -> ->]. to_prop. split; [|lia]. destruct s as [|c s]; [by injection H as <- <- <-|]. cbn [read_digits] in H.
  destruct (to_digit 10 c) as [d|] eqn:Hd; [|by injection H as <- <- <-]. apply digit_spelled in Hd as [-> Hd]. cbn in H.
  apply digits_spelled in H as (ds & -> & -> & Hv & Hm & _ & Hsh). unfold octet_text.
  destruct (decide (d = 0)) as [->|Hne].
  - assert (starts_with [48] (digit_char 0 :: ds ++ rest) = true) as Hlead by done. rewrite Hlead in Hz.
    cbn [negb andb] in Hz. to_prop. destruct ds; [by rewrite (Hv eq_refl)|cbn [length] in Hz; lia].
  - assert (length ds <= 2)%nat as Hl by (destruct Hm as [->|Hm]; [cbn|]; lia).
    specialize (Hsh Hne (3 - length ds)%nat). replace (3 - length ds + length ds)%nat with 3%nat in Hsh by lia.
    rewrite <-Hsh. destruct (3 - length ds)%nat as [|f] eqn:Hf; [lia|]. cbn [show_radix].
    by rewrite (proj2 (N.ltb_lt _ 10)).
Qed.
Lemma given_spelled c s r : read_given_char c s = Some r -> s = c :: r.2.
Proof. destruct s as [|c' s]; cbn; [done|]. destruct (c' =? c) eqn:H; [|done]. to_prop. by intros [= <-]; subst. Qed.
Lemma octet_read_spelled first s o r : read_octet first s = Some (o, r) ->
  s = (if first then [] else [46]) ++ octet_text o ++ r /\ o < 256.
Proof.
  unfold read_octet, read_separator. destruct first; [apply octet_spelled|].
  destruct (read_given_char 46 s) as [q|] eqn:H; [|done]. cbn [mbind option_bind].
  apply given_spelled in H as ->. by intros [-> ?]%octet_spelled.
Qed.
Lemma v4_spelled s a b c d rest : read_ipv4 s = Some ((a, b, c, d), rest) ->
  s = v4_text a b c d ++ rest /\ ip_ok (V4 a b c d).
Proof.
  unfold read_ipv4. destruct (read_octet true s) as [[a' s1]|] eqn:H1; [|done]. cbn [mbind option_bind fst snd].
  destruct (read_octet false s1) as [[b' s2]|] eqn:H2; [|done]. cbn [mbind option_bind fst snd].
  destruct (read_octet false s2) as [[c' s3]|] eqn:H3; [|done]. cbn [mbind option_bind fst snd].
  destruct (read_octet false s3) as [[d' s4]|] eqn:H4; [|done]. cbn [mbind option_bind fst snd].
  intros [= -> -> -> -> ->]. apply octet_read_spelled in H1 as [-> ?], H2 as [-> ?], H3 as [-> ?], H4 as [-> ?].
  split; [|by repeat constructor]. unfold v4_text. cbn [app]. by repeat (rewrite <-app_assoc || rewrite <-app_comm_cons).
Qed.

(** ** Whatever is read is an address *)
Lemma number_bound radix max bound allow s v r : read_number radix max bound allow s = Some (v, r) -> v <= bound.
Proof.
  unfold read_number. destruct (read_digits _ _ _ _ s) as [[[v' n] r']|]; [|done]. repeat case_match; try done.
  intros [= <- _]. by to_prop.
Qed.
Lemma read_groups_ok limit : forall first s gs v4 rest, read_groups limit first s = (gs, v4, rest) ->
  (length gs <= limit)%nat /\ Forall (fun g => g < 65536) gs.
Proof.
  induction limit as [|limit IH]; intros first s gs v4 rest; cbn [read_groups]; [by intros [= <- _ _]|].
  destruct (if (0 <? limit)%nat then _ else None) as [[[[[a b] c] d] r]|] eqn:H.
  - destruct (0 <? limit)%nat eqn:Hl; [apply Nat.ltb_lt in Hl|done]. intros [= <- _ _]. split; [cbn; lia|].
    assert (ip_ok (V4 a b c d)) as Hok.
    { unfold read_separator in H. destruct first; [by apply v4_spelled in H as [_ ?]|].
      destruct (read_given_char 58 s); [|done]. by apply v4_spelled in H as [_ ?]. }
    cbn in Hok. rewrite !Forall_cons in Hok. repeat constructor; lia.
  - destruct (read_separator 58 first (read_number 16 4 65535 true) s) as [[g r]|] eqn:Hg; [|by intros [= <- _ _]; split; [cbn; lia|constructor]].
    destruct (read_groups limit false r) as [[gs' v4'] rest'] eqn:Hr. apply IH in Hr as [Hl Hf]. intros [= <- _ _].
    split; [cbn; lia|]. constructor; [|done]. unfold read_separator in Hg.
    destruct first; [|destruct (read_given_char 58 s); [|done]]; apply number_bound in Hg; lia.
Qed.
Lemma v6_parse_ok s gs rest : read_ipv6 s = Some (gs, rest) -> ip_ok (V6 gs).
Proof.
  unfold read_ipv6. destruct (read_groups 8 true s) as [[hd v4] r] eqn:Hh. apply read_groups_ok in Hh as [Hl Hf].
  destruct (length hd =? 8)%nat eqn:H8; [apply Nat.eqb_eq in H8; by intros [= <- _]|apply Nat.eqb_neq in H8].
  destruct v4; [done|]. destruct (read_given_char 58 r) as [q|]; [|done]. cbn [mbind option_bind].
  destruct (read_given_char 58 q.2) as [q'|]; [|done]. cbn [mbind option_bind].
  destruct (read_groups _ true q'.2) as [[tl v4'] r'] eqn:Ht. apply read_groups_ok in Ht as [Hlt Hft]. intros [= <- _].
  split; [rewrite !length_app, repeat_length; lia|]. apply Forall_app_2; [done|]. apply Forall_app_2; [|done].
  apply Forall_forall. intros x Hx. apply list_elem_of_In, repeat_spec in Hx. subst. lia.
Qed.
Lemma parse_ok s a : parse_ip s = Some a -> ip_ok a.
Proof.
  unfold parse_ip, read_ip. destruct (read_ipv4 s) as [[[[[a' b] c] d] r]|] eqn:H4.
  - apply v4_spelled in H4 as [_ Hok]. destruct r; [by intros [= <-]|done].
  - destruct (read_ipv6 s) as [[gs r]|] eqn:H6; [|done]. apply v6_parse_ok in H6. cbn. destruct r; [by intros [= <-]|done].
Qed.
Lemma parse_v4_text s a b c d : parse_ip s = Some (V4 a b c d) -> s = v4_text a b c d.
Proof.
  unfold parse_ip, read_ip. destruct (read_ipv4 s) as [[[[[a' b'] c'] d'] r]|] eqn:H4.
  - apply v4_spelled in H4 as [-> _]. destruct r; [|done]. intros [= -> -> -> ->]. by rewrite app_nil_r.
  - destruct (read_ipv6 s) as [[gs r]|]; [|done]. cbn. by destruct r.
Qed.

(** ** Clients and their networks *)
(** The network a client counts for, and the address it is known by: the leftmost
    forwarded one where the proxy is trusted and the address can be read, else the
    socket's. *)
Definition network (a : IpAddr) : IpAddr :=
  match a with V4 a b c d => V4 a b c d | V6 s => V6 (take 4 s ++ [0; 0; 0; 0]) end.
Definition client_address (trust : bool) (forwarded : option str) (remote : option IpAddr) : option IpAddr :=
  match (if trust then xff ← forwarded; parse_ip (trim (default [] (head (split_on 44 xff)))) else None) with
  | Some a => Some a
  | None => remote
  end.
Lemma network_ok a : ip_ok a -> ip_ok (network a).
Proof.
  destruct a as [|s]; [done|]. intros [Hl Hs]. split; [by rewrite length_app, length_take, Hl|].
  apply Forall_app_2; [by apply Forall_take|]. repeat constructor.
Qed.
Lemma key_of_spelling s a : parse_ip (trim s) = Some a -> trim s = s -> throttle_key s = ip_text (network a).
Proof.
  intros Hp Ht. unfold throttle_key. rewrite Hp. destruct a as [a b c d|gs]; [|done]. rewrite Ht in Hp. by apply parse_v4_text in Hp.
Qed.
Lemma key_of_text a : ip_ok a -> throttle_key (ip_text a) = ip_text (network a).
Proof.
  intros Hok. pose proof (trim_solid _ (ip_text_solid a)) as Ht. apply key_of_spelling; [|done]. rewrite Ht. by apply parse_text.
Qed.
Lemma key_spec trust forwarded remote : (forall a, remote = Some a -> ip_ok a) ->
  throttle_client_ip trust forwarded remote =
  match client_address trust forwarded remote with Some a => ip_text (network a) | None => lit "unknown" end.
Proof.
  intros Hr. unfold throttle_client_ip, select_client_ip, client_address.
  assert (match ip_text <$> remote with Some ((_ :: _) as socket) => throttle_key socket | _ => lit "unknown" end
          = match remote with Some a => ip_text (network a) | None => lit "unknown" end) as ->.
  { destruct remote as [a|]; [|done]. cbn. pose proof (key_of_text a (Hr a eq_refl)) as Hk.
    pose proof (parse_text a (Hr a eq_refl)) as Hp. destruct (ip_text a) as [|c s]; [done|exact Hk]. }
  destruct forwarded as [xff|]; [|by destruct trust]. destruct trust; [|done]. cbn [mbind option_bind].
  destruct (parse_ip (trim _)) as [a|] eqn:Hp; [|done]. cbn [is_some].
  apply key_of_spelling; [by rewrite trim_idemp|apply trim_idemp].
Qed.
Lemma address_ok trust forwarded remote a : (forall a, remote = Some a -> ip_ok a) ->
  client_address trust forwarded remote = Some a -> ip_ok a.
Proof.
  intros Hr. unfold client_address. destruct (if trust then _ else None) as [b|] eqn:H; [|by apply Hr]. intros [= ->].
  destruct trust; [|done]. destruct forwarded; [|done]. by apply parse_ok in H.
Qed.

(** C19: Two requests are counted under one key exactly when the addresses they are known by
    lie in one network, the address itself or its /64; an address has one key however
    it is spelled, and without a trusted proxy nothing that a client sends plays a part. *)
Theorem keys_are_networks trust forwarded remote forwarded' remote' :
  (forall a, remote = Some a -> ip_ok a) -> (forall a, remote' = Some a -> ip_ok a) ->
  throttle_client_ip trust forwarded remote = throttle_client_ip trust forwarded' remote' <->
  network <$> client_address trust forwarded remote = network <$> client_address trust forwarded' remote'.
Proof.
  intros Hr Hr'. rewrite !key_spec by done.
  assert (Hu : forall a, ip_ok a -> ip_text a <> lit "unknown").
  { intros a Ha%parse_text He. rewrite He in Ha. by vm_compute in Ha. }
  pose proof (address_ok trust forwarded remote) as H. pose proof (address_ok trust forwarded' remote') as H'.
  destruct (client_address trust forwarded remote) as [a|], (client_address trust forwarded' remote') as [b|]; cbn.
  - split; [|by intros [= ->]]. intros He. f_equal. apply ip_text_inj; [..|exact He]; apply network_ok; eauto.
  - split; [|done]. intros He. destruct (Hu (network a)); [|done]. apply network_ok. eauto.
  - split; [|done]. intros He. destruct (Hu (network b)); [|done]. apply network_ok. eauto.
  - done.
Qed.
Lemma keys_are_networks_witness :
  throttle_client_ip true (Some (lit "2001:DB8:0:0:1::1, 10.0.0.1")) None
    = throttle_client_ip true None (Some (V6 [8193; 3512; 0; 0; 2; 3; 4; 5])) <->
  network <$> client_address true (Some (lit "2001:DB8:0:0:1::1, 10.0.0.1")) None
    = network <$> client_address true None (Some (V6 [8193; 3512; 0; 0; 2; 3; 4; 5])).
Proof.
  apply (keys_are_networks true (Some (lit "2001:DB8:0:0:1::1, 10.0.0.1")) None None (Some (V6 [8193; 3512; 0; 0; 2; 3; 4; 5])));
    intros a [= <-]. split; [done|]. by repeat constructor.
Defined.

(** ** Networks and bans *)
Lemma failure_elsewhere t i u i' u' now : tracker_ok now t -> now <= u64_max -> i <> i' -> u <> u' ->
  check (record_failure t i u now).1 i' u' now = check t i' u' now.
Proof.
  intros W Hn Hi Hu. unfold record_failure.
  pose proof (ip_fail_ok _ _ _ _ (ip_entry_ok _ _ i W) Hn) as Hio.
  pose proof (user_fail_ok _ _ _ (user_entry_ok _ _ u W) Hn) as Huo.
  destruct (ip_fail _ _) as [ie ib], (user_fail _ _) as [ue ub]. cbn [fst snd] in *.
  rewrite enforce_caps_check.
  - unfold check. cbn [ip user with_maps]. by rewrite !lookup_insert_ne.
  - apply tracker_ok_maps; [done|..]; apply map_Forall_insert_2; done || apply W.
Qed.
(** A failed attempt: the forwarded header, the socket's address and the name. *)
Definition attempt : Type := option str * option IpAddr * str.
Definition fails (trust : bool) (now : N) (t : LoginThrottle) (a : attempt) : LoginThrottle :=
  (record_failure t (throttle_client_ip trust a.1.1 a.1.2) a.2 now).1.

(** C20: However many attempts fail in other networks and for other names, no ban of a client
    and its name begins or ends. *)
Theorem failures_stay_in_network s l u now t trust attempts forwarded remote user :
  tuple_widths s -> tuple_widths l -> tuple_widths u -> reachable s l u now t ->
  (forall a, remote = Some a -> ip_ok a) ->
  Forall (fun a : attempt => (forall x, a.1.2 = Some x -> ip_ok x) /\ a.2 <> user /\
    network <$> client_address trust a.1.1 a.1.2 <> network <$> client_address trust forwarded remote) attempts ->
  check (foldl (fails trust now) t attempts) (throttle_client_ip trust forwarded remote) user now
  = check t (throttle_client_ip trust forwarded remote) user now.
Proof.
  intros Hs Hl Hu Hr Hrem. apply reachable_ok in Hr as [Hn W]; [|done..]. revert t W.
  induction attempts as [|a attempts IH]; intros t W Ha; [done|]. apply Forall_cons in Ha as [(Hok & Huser & Hnet) Ha].
  cbn [foldl]. rewrite IH by (done || by apply record_failure_ok). unfold fails. apply failure_elsewhere; try done.
  rewrite !key_spec by done. intros He. apply Hnet.
  pose proof (address_ok trust a.1.1 a.1.2) as H. pose proof (address_ok trust forwarded remote) as H'.
  destruct (client_address trust a.1.1 a.1.2) as [x|], (client_address trust forwarded remote) as [y|]; cbn; try done.
  - f_equal. apply ip_text_inj; [..|exact He]; apply network_ok; eauto.
  - exfalso. pose proof (parse_text (network x) (network_ok x (H x Hok eq_refl))) as Hp. rewrite He in Hp. by vm_compute in Hp.
  - exfalso. pose proof (parse_text (network y) (network_ok y (H' y Hrem eq_refl))) as Hp. rewrite <-He in Hp. by vm_compute in Hp.
Qed.
Lemma failures_stay_in_network_witness :
  let mine := V6 [8193; 3512; 0; 1; 0; 0; 0; 1] in
  let other := (None, Some (V6 [8193; 3512; 0; 2; 0; 0; 0; 1]), lit "bob") in
  check (foldl (fails false 5) ex_tracker [other; other; other; other; other])
    (throttle_client_ip false None (Some mine)) (lit "alice") 5
  = check ex_tracker (throttle_client_ip false None (Some mine)) (lit "alice") 5.
Proof.
  destruct shipped_widths as (? & ? & ?). cbv zeta.
  refine (failures_stay_in_network shipped_ip_short shipped_ip_long shipped_user_long 5 ex_tracker false _ None _ _
    _ _ _ ex_tracker_reachable _ _); try assumption.
  - intros a [= <-]. split; [done|]. by repeat constructor.
  - repeat (apply Forall_cons_2; [split_and!; [intros a [= <-]; split; [done|by repeat constructor]|done|done]|]). constructor.
Defined.

(** On a socket of version 6 that also takes clients of version 4, all of these are one
    client to the throttle: their addresses are mapped into one /64. *)
Theorem mapped_clients_share_key trust forwarded ab cd : ab < 65536 -> cd < 65536 ->
  client_address trust forwarded (Some (V6 [0; 0; 0; 0; 0; 65535; ab; cd])) = Some (V6 [0; 0; 0; 0; 0; 65535; ab; cd]) ->
  throttle_client_ip trust forwarded (Some (V6 [0; 0; 0; 0; 0; 65535; ab; cd])) = lit "::".
Proof.
  intros Ha Hc Hcl. rewrite key_spec, Hcl; [done|]. intros a [= <-]. split; [done|]. by repeat constructor.
Qed.
Lemma mapped_clients_share_key_witness :
  throttle_client_ip false None (Some (V6 [0; 0; 0; 0; 0; 65535; 51966; 1])) = lit "::".
Proof. by apply (mapped_clients_share_key false None 51966 1). Defined.
