(* ===== verification/Scan.v ===== *)
(** * Scan: the task of an album index job, and its routes
    ([backend/src/tasks/actor/album_index.rs], [router/post/album_index.rs],
    [router/get/get_album_index.rs])

    What the task does, in the order in which it does it: the walk for directories and
    their albums, the walk for files and their submission, the drain, the sweep and the
    barriers.  The cancel flag is looked at where the code looks at it; a scan is the
    list of its actions, whose effects are those of [IndexJob], [Intake], [Writer],
    [Watcher] and [DirAlbumStore].  The crate that walks is a parameter. *)

From S2P Require Import Prelude Errors Redb Password Paths Formats Model MetadataRecord DirAlbum IndexStore DirAlbumStore.
From S2P Require Import RateLimit UserStore Revocations Invites LoginThrottle Tokens RouterAuth Accounts IndexJob Pipeline.

(** ** The walk *)
Inductive FileType := DirType | FileType_ | OtherType.
#[export] Instance FileType_eq_dec : EqDecision FileType.
Proof. solve_decision. Defined.
Record Entry := mkEntry { e_path : Path; e_depth : nat; e_type : FileType }.
(** [WalkDir::new(root).follow_links(false)] under [filter_entry], with [None] for an
    error; and what lies at a path. *)
Class WalkDir := { walk_dir : Path -> (Entry -> bool) -> list (option Entry); type_at : Path -> option FileType }.
(** What the crate documents: entries are accepted, lie where they say, come once, a
    directory before what it holds; and without an error nothing accepted is missing whose
    directories are accepted. *)
Class WalkLaws `{WalkDir} := {
  walk_entry : forall root keep e, Some e ∈ walk_dir root keep ->
    keep e = true /\ type_at (e_path e) = Some (e_type e) /\
    exists names, e_path e = root ++ (Normal <$> names) /\ e_depth e = length names;
  walk_once : forall root keep, NoDup (omap (fun e => e) (walk_dir root keep));
  walk_top_down : forall root keep l e l', walk_dir root keep = l ++ Some e :: l' -> (1 < e_depth e)%nat ->
    exists d, Some d ∈ l /\ e_type d = DirType /\ e_path e = e_path d ++ [List.last (e_path e) RootDir];
  walk_all : forall root keep names ty, None ∉ walk_dir root keep ->
    (forall names', names' `prefix_of` names ->
       exists ty', type_at (root ++ (Normal <$> names')) = Some ty' /\ (names' <> names -> ty' = DirType) /\
                   (names' = names -> ty' = ty) /\
                   keep (mkEntry (root ++ (Normal <$> names')) (length names') ty') = true) ->
    Some (mkEntry (root ++ (Normal <$> names)) (length names) ty) ∈ walk_dir root keep;
  type_above : forall p n ty, type_at (p ++ [Normal n]) = Some ty -> type_at p = Some DirType
}.

Definition should_walk_entry (internal_roots : list Path) (entry : Entry) : bool :=
  (e_depth entry =? 0)%nat || negb (is_inside_internal_subtree (e_path entry) internal_roots).

(** ** The task *)
Inductive Action :=
| Count_ (n : Note)                 (* a counter of the status *)
| EnsureAlbum (dir : Path)          (* [get_or_create_dir_album] *)
| SubmitScan (p : Path)             (* [submit_scan] *)
| DrainIntake | BarrierFlush | BarrierTree
| Sweep (root : Path) | PruneUsersRoot_ (root : Path)
| FinishJob.

Section Task.
Context {W : WalkDir} {Ca : Casing} {I : Infer}.
Variable cfg : Paths.Config.
Variable internal_roots : list Path.
(** Whether the intake takes a path, and whether the flag is set when it is looked at for
    the [k]-th time. *)
Variable queued : Path -> bool.
Variable canceled : nat -> bool.

Definition walked (root : Path) : list (option Entry) := walk_dir root (should_walk_entry internal_roots).
Definition entries_of (roots : list Path) : list (option Entry) := roots ≫= walked.

(** The directories strictly below the roots; an error is counted and passed over. *)
Definition dir_path (entry : option Entry) : option Path :=
  match entry with
  | Some e => if bool_decide (e_type e = DirType) && (0 <? e_depth e)%nat then Some (e_path e) else None
  | None => None
  end.
Definition walk_error (entry : option Entry) : option Action :=
  match entry with Some _ => None | None => Some (Count_ (FileFailed None)) end.
Fixpoint ensure_dirs (k : nat) (dirs : list Path) : list Action * nat :=
  match dirs with
  | [] => ([], k)
  | d :: dirs =>
      if canceled k then ([], S k)
      else let '(rest, k) := ensure_dirs (S k) dirs in (EnsureAlbum d :: rest, k)
  end.

(** [submit_index]: the cleaned path, if it lies below a configured root. *)
Definition submit_index (p : Path) : option Path :=
  match resolve_index_path cfg p with
  | Ok q => if queued q then Some q else None
  | Err _ => None
  end.
Definition submit_file (p : Path) : list Action :=
  match classify_media_file (path_text p) with
  | Skip _ => []
  | Formats.Index => Count_ Matched :: match submit_index p with
                               | Some q => [SubmitScan q]
                               | None => [Count_ (FileFailed (Some (path_text p)))]
                               end
  end.
Definition visit (entry : option Entry) : list Action :=
  match entry with
  | None => [Count_ (FileFailed None)]
  | Some e => if bool_decide (e_type e = FileType_) then Count_ Scanned :: submit_file (e_path e) else []
  end.
Fixpoint visit_all (k : nat) (entries : list (option Entry)) : list Action :=
  match entries with
  | [] => []
  | e :: entries => if canceled k then [] else visit e ++ visit_all (S k) entries
  end.

(** The files, then everything that follows whether the walk was cancelled or not. *)
Definition settle_scan (roots : list Path) : list Action :=
  [DrainIntake; BarrierFlush] ++ (Sweep <$> roots) ++
  (PruneUsersRoot_ <$> option_list (get_resolved_users_home cfg)) ++ [BarrierFlush; BarrierTree; FinishJob].
Definition scan_task (roots : list Path) : list Action :=
  let '(ensured, k) := ensure_dirs 0 (omap dir_path (entries_of roots)) in
  omap walk_error (entries_of roots) ++ ensured ++ visit_all k (entries_of roots) ++ settle_scan roots.
End Task.

(** What the counters of the status become. *)
Definition counted (job : N) (actions : list Action) (s : Jobs) : Jobs :=
  fold_left (fun s a => match a with Count_ n => update_status job (note n) s | _ => s end) actions s.
(** The albums that are made; an error is logged and passed over.  [draws] are the
    identifiers. *)
Section Albums.
Context {Fa : Fates} {U : Uppercase} {X : Sidecars} {K : Nfkc}.
Definition ensure_albums (now : Z) (draws : nat -> str) (actions : list Action) (l : Library_) : Library_ :=
  (fold_left (fun '(n, l) a => match a with
     | EnsureAlbum dir => (S n, (create_dir_album now (draws n) dir l).2)
     | _ => (n, l)
     end) actions (O, l)).2.
End Albums.

(** ** Dropping the tables and the routes *)
Record Memory := mkMemory { mem_library : Library_; mem_tree : list DatabaseTimestamp }.
Definition asset_tables : list string := ["ASSET_BY_PATH"; "ASSET_BY_ID"; "DUPE_INDEX"; "METADATA_TABLE"]%string.
Section Clear.
Context {Fa : Fates}.
(** [delete_table] and [open_table], table by table. *)
Fixpoint reopen_tables (Rd : Redb) (names : list string) : result str unit :=
  match names with
  | [] => Ok tt
  | n :: names =>
      _ ← context ("delete " ++ n)%string (redb (Remove (lit n)));
      _ ← context ("reopen " ++ n)%string (redb OpenTable);
      reopen_tables Rd names
  end.
Definition clear_all_asset_tables_drop : Io unit := fun ix =>
  let Rd := fate (ticks ix) in
  match (_ ← context "begin write for asset table drop" (redb BeginWrite);
         _ ← reopen_tables Rd asset_tables;
         context "commit asset table drop" (redb Commit)) with
  | Ok _ => (Ok tt, mkIndex ∅ ∅ ∅ ∅ (S (ticks ix)))
  | Err e => (Err e, tick ix)
  end.
Definition clear_asset_tables_and_caches (mem : Memory) : app_result unit * Memory :=
  match clear_all_asset_tables_drop (index (mem_library mem)) with
  | (Err e, ix) => (Err (new_error Internal e), mkMemory (mkLib ix (albums (mem_library mem))) (mem_tree mem))
  | (Ok _, ix) => (Ok tt, mkMemory (mkLib ix (reset_dir_album_cache (albums (mem_library mem)))) [])
  end.
End Clear.

Record IndexAlbumRequest := mkIndexRequest { ir_album : str; ir_clear : bool; ir_root : option str }.
Section Routes.
Context {Jc : JsonCodec} {Lh : LegacyHash} {Ca : Casing} {Cr : Crypto} {J : Jwt} {Tc : TokenCodec} {F : Fs}.
Variable is_dir : Path -> bool.
Variable data_root : Path.

(** The number of the job whose task starts, and where it scans. *)
Definition index_album_with_root (c : Ctx) (src : str) (clear : bool) (root : option str) (s : Jobs) (mem : Memory)
  : app_result (N * list Path) * Jobs * Memory :=
  match validated_roots is_dir (get_resolved_image_home (c_roots c)) (get_resolved_users_home (c_roots c)) data_root src root with
  | Err e => (Err e, s, mem)
  | Ok scan_roots =>
      let job := next_job_id s in
      match accept src clear (c_now c) s with
      | (Err e, s) => (Err e, s, mem)
      | (Ok _, s) =>
          let s := set_active (Some job) (set_phases (<[job := Registered clear]> (phases s)) s) in
          match (if clear then clear_asset_tables_and_caches (Fa:=c_fates c) mem else (Ok tt, mem)) with
          | (Err e, mem) => (Err e, set_phases (delete job (phases s)) s, mem)
          | (Ok _, mem) => (Ok (job, scan_roots), set_phases (<[job := Walking]> (phases s)) s, mem)
          end
      end
  end.
Definition index_album_handler (c : Ctx) (srv : Server) (req : IndexAlbumRequest) (s : Jobs) (mem : Memory)
  : app_result (N * list Path) * Jobs * Memory :=
  match (_ ← admin_claims c srv; may_mutate c srv) with
  | Err e => (Err e, s, mem)
  | Ok _ => index_album_with_root c (ir_album req) (ir_clear req) (ir_root req) s mem
  end.
Definition cancel_album_index_handler (c : Ctx) (srv : Server) (s : Jobs) : app_result unit * Jobs :=
  match admin_claims c srv with
  | Err e => (Err e, s)
  | Ok _ => cancel_album_index s
  end.
Definition get_album_index_status (c : Ctx) (srv : Server) (s : Jobs) : app_result AlbumIndexStatus :=
  _ ← admin_claims c srv; Ok (slot_status s).
End Routes.

(** ** What a scan reaches *)
Section Reach.
Context {W : WalkDir} {Wl : WalkLaws} {Ca : Casing} {I : Infer}.
Variable cfg : Paths.Config.
Variable internal_roots : list Path.
Variable queued : Path -> bool.

(** No root is spelled as lying in an internal directory. *)
Definition apart (roots : list Path) : Prop := Forall (fun r => is_inside_internal_subtree r internal_roots = false) roots.
(** What lies below a root and is not spelled as lying in an internal directory. *)
Definition reached (roots : list Path) (ty : FileType) (p : Path) : Prop :=
  exists root names, root ∈ roots /\ p = root ++ (Normal <$> names) /\ type_at p = Some ty /\
    (ty = DirType -> names <> []) /\ is_inside_internal_subtree p internal_roots = false.

Lemma clean_plain p : Forall (fun c => c <> ParentDir /\ c <> CurDir) p -> clean_components p = p.
Proof.
  unfold clean_components. set (f := fun (out : Path) (comp : Component) => _). intros Hp.
  enough (forall out, fold_left f p out = out ++ p) as H by apply H.
  induction p as [|c p IH]; intros out; cbn [fold_left]; [by rewrite app_nil_r|]. apply Forall_cons in Hp as [[H1 H2] Hp].
  rewrite IH by done. destruct c; try done; cbn; by rewrite <-app_assoc.
Qed.
Lemma clean_place names : clean_components (RootDir :: (Normal <$> names)) = RootDir :: (Normal <$> names).
Proof. apply clean_plain. constructor; [done|]. apply Forall_fmap. by apply Forall_true. Qed.
Lemma submitted_clean p q names : p = RootDir :: (Normal <$> names) -> resolve_index_path cfg p = Ok q -> q = p.
Proof.
  intros -> H. unfold resolve_index_path in H. cbn [is_absolute] in H. rewrite clean_place in H.
  cbn [mbind result_bind] in H. destruct (negb _ && negb _); [done|]. by injection H as <-.
Qed.

Lemma entries_elem roots e : Some e ∈ entries_of internal_roots roots <->
  exists root, root ∈ roots /\ Some e ∈ walked internal_roots root.
Proof. unfold entries_of. rewrite list_elem_of_bind. split; intros (r & H1 & H2); eauto. Qed.
(** An entry that is yielded is reached. *)
Lemma yielded_reached roots e : apart roots -> Some e ∈ entries_of internal_roots roots ->
  (e_type e = DirType -> (0 < e_depth e)%nat) -> reached roots (e_type e) (e_path e).
Proof.
  intros Hroots (root & Hr & He)%entries_elem Hd. apply walk_entry in He as (Hk & Ht & names & Hp & Hn).
  exists root, names. split_and!; [done..| |].
  - intros Hty ->. specialize (Hd Hty). cbn in Hn. lia.
  - unfold apart in Hroots. rewrite Forall_forall in Hroots. pose proof (Hroots root Hr) as Hin. cbn in Hin. unfold should_walk_entry in Hk.
    apply orb_true_iff in Hk as [Hk|Hk]; [|by destruct (is_inside_internal_subtree (e_path e) internal_roots)].
    apply Nat.eqb_eq in Hk. rewrite Hk in Hn. destruct names; [|done]. by rewrite Hp, app_nil_r.
Qed.

Lemma ensured_some canceled k dirs d : EnsureAlbum d ∈ (ensure_dirs canceled k dirs).1 -> d ∈ dirs.
Proof.
  revert k. induction dirs as [|x dirs IH]; intros k; cbn; [by intros ?%elem_of_nil|].
  destruct (canceled k); [by intros ?%elem_of_nil|]. specialize (IH (S k)). destruct (ensure_dirs canceled (S k) dirs) as [rest k'].
  cbn in *. intros [[= ->]|H]%elem_of_cons; set_solver.
Qed.
Lemma ensure_only canceled k dirs a : a ∈ (ensure_dirs canceled k dirs).1 -> exists d, a = EnsureAlbum d.
Proof.
  revert k. induction dirs as [|x dirs IH]; intros k; cbn; [by intros ?%elem_of_nil|].
  destruct (canceled k); [by intros ?%elem_of_nil|]. specialize (IH (S k)). destruct (ensure_dirs canceled (S k) dirs) as [rest k'].
  cbn in *. intros [->|H]%elem_of_cons; eauto.
Qed.
Lemma visited_some canceled k entries a : a ∈ visit_all cfg queued canceled k entries ->
  exists e, e ∈ entries /\ a ∈ visit cfg queued e.
Proof.
  revert k. induction entries as [|x entries IH]; intros k; cbn; [by intros ?%elem_of_nil|].
  destruct (canceled k); [by intros ?%elem_of_nil|]. intros [H|H]%elem_of_app.
  - exists x. split; [apply elem_of_cons; by left|done].
  - apply IH in H as (e & He & H). exists e. split; [apply elem_of_cons; by right|done].
Qed.
Lemma visit_submits e q : SubmitScan q ∈ visit cfg queued e <->
  exists en, e = Some en /\ e_type en = FileType_ /\ classify_media_file (path_text (e_path en)) = Formats.Index /\
    submit_index cfg queued (e_path en) = Some q.
Proof.
  destruct e as [en|]; cbn.
  2:{ split; [set_solver|]. by intros (? & ? & _). }
  destruct (bool_decide (e_type en = FileType_)) eqn:Ht.
  2:{ apply bool_decide_eq_false in Ht. split; [set_solver|]. by intros (? & [= <-] & ? & _). }
  apply bool_decide_eq_true in Ht. unfold submit_file. destruct (classify_media_file _) eqn:Hc.
  - destruct (submit_index _ _ _) as [q'|] eqn:Hs; split.
    + intros H. assert (q = q') as -> by set_solver. eauto.
    + intros (en' & [= <-] & _ & _ & H). assert (q' = q) as -> by congruence. set_solver.
    + set_solver.
    + intros (en' & [= <-] & _ & _ & H). congruence.
  - split; [set_solver|]. intros (en' & [= <-] & _ & H & _). congruence.
Qed.
Lemma settle_quiet roots a : a ∈ settle_scan cfg roots -> (forall d, a <> EnsureAlbum d) /\ (forall q, a <> SubmitScan q) /\
  (forall n, a <> Count_ n).
Proof.
  unfold settle_scan. intros H. repeat (apply elem_of_app in H as [H|H]).
  - set_solver.
  - apply list_elem_of_fmap in H as (r & -> & _). done.
  - apply list_elem_of_fmap in H as (r & -> & _). done.
  - set_solver.
Qed.

Lemma inside_up p q : is_inside_internal_subtree p internal_roots = true -> is_inside_internal_subtree (p ++ q) internal_roots = true.
Proof.
  unfold is_inside_internal_subtree. rewrite !existsb_exists. intros (r & Hr & H). exists r. split; [done|].
  apply orb_true_iff. right. apply path_starts_with_spec. apply orb_true_iff in H as [->%bool_decide_eq_true|H]; [by exists q|].
  apply path_starts_with_spec in H as [rest ->]. exists (rest ++ q). by rewrite app_assoc.
Qed.
Lemma types_above root names names' ty : type_at (root ++ (Normal <$> names)) = Some ty -> names' `prefix_of` names -> names' <> names ->
  type_at (root ++ (Normal <$> names')) = Some DirType.
Proof.
  intros Ht [more ->] Hne. revert ty Ht Hne. induction more as [|n more IH] using rev_ind; intros ty Ht Hne; [by rewrite app_nil_r in Hne|].
  rewrite app_assoc, fmap_app, app_assoc in Ht. apply type_above in Ht. destruct (decide (more = [])) as [->|Hm].
  - by rewrite app_nil_r in Ht.
  - eapply IH; [exact Ht|]. intros H. apply Hm. rewrite <-(app_nil_r names') in H at 1. by apply app_inv_head in H.
Qed.
(** What is reached is yielded, if the walk meets no error. *)
Lemma reached_yielded roots ty p : apart roots -> None ∉ entries_of internal_roots roots -> reached roots ty p ->
  exists e, Some e ∈ entries_of internal_roots roots /\ e_path e = p /\ e_type e = ty /\ (ty = DirType -> (0 < e_depth e)%nat).
Proof.
  intros Hroots Herr (root & names & Hr & -> & Ht & Hd & Hin). exists (mkEntry (root ++ (Normal <$> names)) (length names) ty).
  split_and!; [|done..|].
  2:{ intros Hty. cbn. specialize (Hd Hty). destruct names; [done|cbn; lia]. }
  apply entries_elem. exists root. split; [done|]. apply walk_all.
  { intros H. apply Herr. unfold entries_of. apply list_elem_of_bind. by exists root. }
  intros names' Hpre. destruct (decide (names' = names)) as [->|Hne].
  - exists ty. split_and!; [done..|]. unfold should_walk_entry. cbn. rewrite Hin. apply orb_true_r.
  - exists DirType. split_and!; [by eapply types_above|done|done|]. unfold should_walk_entry. cbn.
    apply orb_true_iff. right. destruct (is_inside_internal_subtree (root ++ (Normal <$> names')) _) eqn:Hi; [|done].
    destruct Hpre as [more ->]. rewrite fmap_app, app_assoc in Hin. by rewrite inside_up in Hin.
Qed.
Lemma ensure_free canceled k dirs : (forall k, canceled k = false) -> ensure_dirs canceled k dirs = ensure_dirs (fun _ => false) k dirs.
Proof. intros Hf. revert k. induction dirs as [|x dirs IH]; intros k; cbn; [done|]. rewrite Hf. by rewrite IH. Qed.
Lemma ensured_all k dirs d : d ∈ dirs -> EnsureAlbum d ∈ (ensure_dirs (fun _ => false) k dirs).1.
Proof.
  revert k. induction dirs as [|x dirs IH]; intros k; cbn; [by intros ?%elem_of_nil|].
  specialize (IH (S k)). destruct (ensure_dirs _ (S k) dirs) as [rest k']. cbn in *. set_solver.
Qed.
Lemma visit_free canceled k entries : (forall k, canceled k = false) ->
  visit_all cfg queued canceled k entries = entries ≫= visit cfg queued.
Proof. intros Hf. revert k. induction entries as [|e entries IH]; intros k; [done|]. cbn. by rewrite Hf, IH. Qed.
Lemma task_parts (a : Action) l1 l2 l3 l4 : a ∈ l1 ++ l2 ++ l3 ++ l4 <-> a ∈ l1 \/ a ∈ l2 \/ a ∈ l3 \/ a ∈ l4.
Proof. by rewrite !elem_of_app. Qed.

Lemma ensured_reached canceled roots d : apart roots ->
  EnsureAlbum d ∈ scan_task cfg internal_roots queued canceled roots -> reached roots DirType d.
Proof.
  intros Hroots. unfold scan_task. pose proof (ensured_some canceled 0 (omap dir_path (entries_of internal_roots roots))) as Hens.
  destruct (ensure_dirs canceled 0 _) as [ensured k]. cbn in Hens. intros H. apply task_parts in H as [H|[H|[H|H]]].
  - apply list_elem_of_omap in H as ([?|] & _ & ?); done.
  - apply Hens in H. apply list_elem_of_omap in H as ([en|] & Hin & H); [|done]. cbn in H.
    destruct (bool_decide (e_type en = DirType) && _) eqn:Hb; [|done]. injection H as <-.
    apply andb_true_iff in Hb as [Hty%bool_decide_eq_true Hd]. rewrite <-Hty. apply yielded_reached; [done..|].
    destruct (e_depth en); [done|lia].
  - apply visited_some in H as (e & _ & H). destruct e as [en|]; cbn in H; [|set_solver].
    destruct (bool_decide _); [|set_solver]. unfold submit_file in H. destruct (classify_media_file _); [|set_solver].
    destruct (submit_index _ _ _); set_solver.
  - apply settle_quiet in H as (H & _). by destruct (H d).
Qed.
Lemma reached_ensured canceled roots d : apart roots -> (forall k, canceled k = false) ->
  None ∉ entries_of internal_roots roots -> reached roots DirType d ->
  EnsureAlbum d ∈ scan_task cfg internal_roots queued canceled roots.
Proof.
  intros Hroots Hfree Herr (e & Hin & <- & Hty & Hd)%reached_yielded; [|done..]. unfold scan_task.
  destruct (ensure_dirs canceled 0 _) as [ensured k] eqn:He. apply task_parts. right. left.
  rewrite ensure_free in He by done. pose proof (ensured_all 0 (omap dir_path (entries_of internal_roots roots)) (e_path e)) as H.
  rewrite He in H. apply H. apply list_elem_of_omap. exists (Some e). split; [done|]. cbn. rewrite bool_decide_true by done.
  specialize (Hd eq_refl). by destruct (e_depth e); [lia|].
Qed.

Lemma scan_reaches_within canceled roots : apart roots ->
  let task := scan_task cfg internal_roots queued canceled roots in
  (forall q, SubmitScan q ∈ task -> exists p, reached roots FileType_ p /\
     classify_media_file (path_text p) = Formats.Index /\ resolve_index_path cfg p = Ok q) /\
  (forall d, EnsureAlbum d ∈ task -> reached roots DirType d) /\
  ((forall k, canceled k = false) -> None ∉ entries_of internal_roots roots ->
   (forall d, reached roots DirType d -> EnsureAlbum d ∈ task) /\
   forall p q, reached roots FileType_ p -> classify_media_file (path_text p) = Formats.Index ->
     resolve_index_path cfg p = Ok q -> queued q = true -> SubmitScan q ∈ task).
Proof.
  intros Hroots. cbn zeta. unfold scan_task.
  pose proof (ensured_some canceled 0 (omap dir_path (entries_of internal_roots roots))) as Hens.
  pose proof (ensure_only canceled 0 (omap dir_path (entries_of internal_roots roots))) as Honly.
  destruct (ensure_dirs canceled 0 _) as [ensured k] eqn:He. cbn in Hens, Honly. split_and!.
  - intros q H. apply task_parts in H as [H|[H|[H|H]]].
    + apply list_elem_of_omap in H as ([?|] & _ & ?); done.
    + by apply Honly in H as [d ?].
    + apply visited_some in H as (e & Hin & H). apply visit_submits in H as (en & -> & Hty & Hc & Hs).
      pose proof (yielded_reached roots en Hroots Hin ltac:(congruence)) as Hre. rewrite Hty in Hre.
      exists (e_path en). split_and!; [done..|]. unfold submit_index in Hs. destruct (resolve_index_path _ _) as [q'|]; [|done].
      by destruct (queued q'); [injection Hs as ->|].
    + apply settle_quiet in H as (_ & H & _). by destruct (H q).
  - intros d H. apply (ensured_reached canceled roots d Hroots). unfold scan_task. by rewrite He.
  - intros Hfree Herr. split.
    + intros d Hd. pose proof (reached_ensured canceled roots d Hroots Hfree Herr Hd) as H. unfold scan_task in H. by rewrite He in H.
    + intros p q Hre Hc Hres Hq. apply reached_yielded in Hre as (e & Hin & <- & Hty & _); [|done..].
      do 2 (apply elem_of_app; right). apply elem_of_app. left.
      rewrite visit_free by done. apply list_elem_of_bind. exists (Some e). split; [|done].
      apply visit_submits. exists e. split_and!; [done..|]. unfold submit_index. by rewrite Hres, Hq.
Qed.

(** ** What the counters say *)
Definition tally (p : Note -> bool) (actions : list Action) : nat :=
  length (List.filter (fun a => match a with Count_ n => p n | _ => false end) actions).
Definition is_scanned (n : Note) : bool := match n with Scanned => true | _ => false end.
Definition is_matched (n : Note) : bool := match n with Matched => true | _ => false end.
Definition is_failed (n : Note) : bool := match n with FileFailed _ => true | _ => false end.
Lemma tally_app p l1 l2 : tally p (l1 ++ l2) = (tally p l1 + tally p l2)%nat.
Proof. unfold tally. by rewrite List.filter_app, length_app. Qed.
Lemma counted_status job l s : slot_job s = job ->
  let s' := counted job l s in
  slot_job s' = job /\ IndexJob.scanned (slot_status s') = IndexJob.scanned (slot_status s) + N.of_nat (tally is_scanned l) /\
  matched (slot_status s') = matched (slot_status s) + N.of_nat (tally is_matched l) /\
  failed (slot_status s') = failed (slot_status s) + N.of_nat (tally is_failed l).
Proof.
  cbn zeta. unfold counted. revert s. induction l as [|a l IH]; intros s Hj; cbn [fold_left]; [cbn; rewrite !N.add_0_r; by split_and!|].
  assert (slot_job (match a with Count_ n => update_status job (note n) s | _ => s end) = job) as Hj'.
  { destruct a; try done. unfold update_status. by destruct (_ =? _). }
  destruct (IH _ Hj') as (H1 & H2 & H3 & H4). rewrite H2, H3, H4. split; [done|]. unfold tally. cbn [List.filter].
  destruct a as [n| | | | | | | |]; try by split_and!. unfold update_status. rewrite Hj, N.eqb_refl.
  destruct n; cbn; split_and!; lia.
Qed.

Definition files_of (entries : list (option Entry)) : list Path :=
  omap (fun e => match e with Some en => if bool_decide (e_type en = FileType_) then Some (e_path en) else None | None => None end) entries.
Definition errors_in (entries : list (option Entry)) : nat := length (List.filter (fun e => negb (is_some e)) entries).
Definition media_of (files : list Path) : list Path :=
  List.filter (fun p => match classify_media_file (path_text p) with Formats.Index => true | Skip _ => false end) files.
Definition refused_of (files : list Path) : list Path := List.filter (fun p => negb (is_some (submit_index cfg queued p))) (media_of files).

(** A scan that is not cancelled counts every regular file it was shown as scanned and
    every medium as matched.  It counts as failed each medium the intake did not take, and
    each error of the walk twice, once in the walk for directories and once in the walk
    for files. *)
Theorem scan_counts canceled roots job s : (forall k, canceled k = false) -> slot_job s = job ->
  let entries := entries_of internal_roots roots in
  let st' := slot_status (counted job (scan_task cfg internal_roots queued canceled roots) s) in
  IndexJob.scanned st' = IndexJob.scanned (slot_status s) + N.of_nat (length (files_of entries)) /\
  matched st' = matched (slot_status s) + N.of_nat (length (media_of (files_of entries))) /\
  failed st' = failed (slot_status s) + N.of_nat (length (refused_of (files_of entries)) + 2 * errors_in entries).
Proof.
  intros Hfree Hj. cbn zeta. destruct (counted_status job (scan_task cfg internal_roots queued canceled roots) s Hj) as (_ & -> & -> & ->).
  unfold scan_task. set (entries := entries_of internal_roots roots).
  pose proof (ensure_only canceled 0 (omap dir_path entries)) as Honly. destruct (ensure_dirs canceled 0 _) as [ensured k]. cbn in Honly.
  assert (forall p l, (forall n, Count_ n ∉ l) -> tally p l = 0%nat) as Hquiet.
  { intros p l Hl. unfold tally. induction l as [|a l IH]; [done|]. cbn. destruct a; try (apply IH; set_solver).
    exfalso. apply (Hl n). set_solver. }
  rewrite !tally_app, !(Hquiet _ ensured), !(Hquiet _ (settle_scan cfg roots)).
  2,3,4: intros n H; apply settle_quiet in H as (_ & _ & H); by apply (H n).
  2,3,4: intros n H; by apply Honly in H as [d ?].
  rewrite visit_free by done. clear Honly Hquiet. rewrite !Nat.add_0_r, !Nat.add_0_l.
  assert (forall p, tally p (omap walk_error entries) = if p (FileFailed None) then errors_in entries else 0%nat) as Herr.
  { intros p. unfold tally, errors_in. clear. induction entries as [|[e|] l IH]; cbn; [by destruct (p _)|done|].
    destruct (p (FileFailed None)); cbn in *; by rewrite IH. }
  rewrite !Herr. cbn [is_scanned is_matched is_failed].
  assert (tally is_scanned (entries ≫= visit cfg queued) = length (files_of entries) /\
          tally is_matched (entries ≫= visit cfg queued) = length (media_of (files_of entries)) /\
          tally is_failed (entries ≫= visit cfg queued) = (length (refused_of (files_of entries)) + errors_in entries)%nat) as (H1 & H2 & H3).
  { unfold errors_in. clear. induction entries as [|e l (IH1 & IH2 & IH3)]; [done|].
    change ((e :: l) ≫= visit cfg queued) with (visit cfg queued e ++ (l ≫= visit cfg queued)). rewrite !tally_app, IH1, IH2, IH3.
    destruct e as [en|]; cbn [visit files_of omap list_omap].
    - unfold files_of in *. cbn. destruct (bool_decide (e_type en = FileType_)); [|cbn; by split_and!].
      unfold media_of, refused_of, submit_file. cbn. unfold media_of. cbn. destruct (classify_media_file _); [|cbn; by split_and!].
      cbn. destruct (submit_index _ _ _); cbn; split_and!; lia.
    - cbn. unfold files_of. split_and!; [done..|]. cbn. lia. }
  rewrite H1, H2, H3. split_and!; lia.
Qed.
End Reach.

(** The roots of a request that is taken are checked by how they are spelled. *)
Lemma validated_apart {F : Fs} is_dir image users data_root src selector roots :
  validated_roots is_dir image users data_root src selector = Ok roots -> apart (internal_subtree_roots data_root) roots.
Proof.
  unfold validated_roots. intros (_ & _ & (image_root & _ & (scan_roots & _ & H)%bind_Ok)%bind_Ok)%bind_Ok.
  destruct (existsb _ scan_roots) eqn:He; [done|]. injection H as <-. apply Forall_forall. intros r Hr.
  destruct (is_inside_internal_subtree r _) eqn:Hi; [|done]. assert (existsb (fun r => is_inside_internal_subtree r
    (internal_subtree_roots data_root)) scan_roots = true) by (apply existsb_exists; exists r; by rewrite <-list_elem_of_In). congruence.
Qed.

(** C28: For the roots of any request that is taken: every directory a scan makes an album
    of, and every file it submits, is reached from a root by names, is what it is taken for,
    and is not spelled as lying in the server's own directories; a file is submitted under
    its cleaned path, which is the path itself unless a root holds [..], and only when that
    lies below a configured root.  All this holds whatever is cancelled and whatever the
    walk cannot read; a scan that is not cancelled and reads everything makes an album of
    every such directory and submits every such medium.  Where a root holds [..] the
    spelling says nothing about the place: such a request can make albums of the server's
    own directories ([internal_dirs_can_be_scanned]). *)
Theorem scan_reaches {W : WalkDir} {Wl : WalkLaws} {Ca : Casing} {I : Infer} {F : Fs}
    cfg queued canceled is_dir data_root src selector roots :
  validated_roots is_dir (get_resolved_image_home cfg) (get_resolved_users_home cfg) data_root src selector = Ok roots ->
  let internal_roots := internal_subtree_roots data_root in
  let task := scan_task cfg internal_roots queued canceled roots in
  (forall q, SubmitScan q ∈ task -> exists p, reached internal_roots roots FileType_ p /\
     classify_media_file (path_text p) = Formats.Index /\ resolve_index_path cfg p = Ok q /\
     ((exists names, p = RootDir :: (Normal <$> names)) -> q = p)) /\
  (forall d, EnsureAlbum d ∈ task -> reached internal_roots roots DirType d) /\
  ((forall k, canceled k = false) -> None ∉ entries_of internal_roots roots ->
   (forall d, reached internal_roots roots DirType d -> EnsureAlbum d ∈ task) /\
   forall p q, reached internal_roots roots FileType_ p -> classify_media_file (path_text p) = Formats.Index ->
     resolve_index_path cfg p = Ok q -> queued q = true -> SubmitScan q ∈ task).
Proof.
  intros Hv. cbn zeta. destruct (scan_reaches_within cfg _ queued canceled roots (validated_apart _ _ _ _ _ _ _ Hv)) as [H1 H2].
  split; [|exact H2]. intros q (p & Hp & Hc & Hres)%H1. exists p. split_and!; [done..|]. intros [names Hn].
  by eapply submitted_clean.
Qed.

(** ** The albums of a scan *)
Section AlbumsMade.
Context {Fa : Fates} {U : Uppercase} {X : Sidecars} {K : Nfkc}.

Lemma created_cached now fresh dir l d :
  let '(r, l') := create_dir_album now fresh dir l in
  (is_ok r = true -> is_Some (get_album_id_for_dir dir (albums l'))) /\
  (d <> dir -> get_album_id_for_dir d (albums l') = get_album_id_for_dir d (albums l)) /\
  (is_Some (get_album_id_for_dir d (albums l)) -> is_Some (get_album_id_for_dir d (albums l'))).
Proof.
  unfold create_dir_album. destruct (get_album_id_for_dir dir (albums l)) as [i|] eqn:Hd; [by rewrite Hd|].
  destruct (write_album_to_db now fresh dir (index l)) as [w ix]. unfold get_or_create_dir_album.
  unfold get_album_id_for_dir in *. rewrite Hd. destruct w as [i|e]; cbn; [|done]. split_and!.
  - intros _. rewrite lookup_insert_eq. by eexists.
  - intros Hne. by rewrite lookup_insert_ne.
  - intros Hs. destruct (decide (d = dir)) as [->|]; [rewrite lookup_insert_eq; by eexists|by rewrite lookup_insert_ne].
Qed.
Lemma writing_works now fresh dir l : (forall n op, fault (Redb:=fate n) op = None) ->
  is_ok (create_dir_album now fresh dir l).1 = true.
Proof.
  intros Hio. unfold create_dir_album. destruct (get_album_id_for_dir dir (albums l)) as [i|] eqn:Hd; [done|].
  unfold write_album_to_db, redb. rewrite !Hio. cbn. unfold get_or_create_dir_album, get_album_id_for_dir in *. by rewrite Hd.
Qed.

(** After a scan that is not cancelled, reads everything and can write, every directory
    below its roots and outside the server's own has an album, and no other directory has
    gained or lost one. *)
Theorem scan_makes_albums {W : WalkDir} {Wl : WalkLaws} {Ca : Casing} {I : Infer}
    cfg internal_roots queued canceled roots now draws l : apart internal_roots roots ->
  (forall k, canceled k = false) -> None ∉ entries_of internal_roots roots ->
  (forall n op, fault (Redb:=fate n) op = None) ->
  let l' := ensure_albums now draws (scan_task cfg internal_roots queued canceled roots) l in
  forall d, (reached internal_roots roots DirType d -> is_Some (get_album_id_for_dir d (albums l'))) /\
    (~ reached internal_roots roots DirType d -> get_album_id_for_dir d (albums l') = get_album_id_for_dir d (albums l)).
Proof.
  intros Hroots Hfree Herr Hio. cbn zeta. intros d. unfold ensure_albums. set (task := scan_task _ _ _ _ _).
  assert (forall actions n l, let l' := (fold_left (fun '(n, l) a => match a with
     | EnsureAlbum dir => (S n, (create_dir_album now (draws n) dir l).2) | _ => (n, l) end) actions (n, l)).2 in
     (EnsureAlbum d ∈ actions \/ is_Some (get_album_id_for_dir d (albums l)) -> is_Some (get_album_id_for_dir d (albums l'))) /\
     (EnsureAlbum d ∉ actions -> get_album_id_for_dir d (albums l') = get_album_id_for_dir d (albums l))) as H.
  { clear -Hio. intros actions. induction actions as [|a actions IH]; intros n l; cbn [fold_left].
    { split; [|done]. by intros [?%elem_of_nil|]. }
    destruct a as [|dir| | | | | | |]; try (destruct (IH n l) as [H1 H2]; split; [|intros; apply H2; set_solver];
      intros [[H|H]%elem_of_cons|H]; [done|by apply H1; left|by apply H1; right]).
    pose proof (created_cached now (draws n) dir l d) as Hc. pose proof (writing_works now (draws n) dir l Hio) as Hw.
    destruct (create_dir_album now (draws n) dir l) as [r l1]. cbn in Hw. destruct Hc as (Hc1 & Hc2 & Hc3).
    destruct (IH (S n) l1) as [H1 H2]. cbn [snd]. split.
    - intros [[[= ->]|H]%elem_of_cons|H]; apply H1; [right; auto|by left|right; auto].
    - intros Hn. rewrite H2 by set_solver. apply Hc2. intros ->. set_solver. }
  destruct (H task O l) as [H1 H2]. split.
  - intros Hd. apply H1. left. by apply reached_ensured.
  - intros Hd. apply H2. intros Hin. by eapply Hd, ensured_reached.
Qed.
End AlbumsMade.

(** ** The routes *)
Section RouteFacts.
Context {Jc : JsonCodec} {Lh : LegacyHash} {Ca : Casing} {Cr : Crypto} {J : Jwt} {Tc : TokenCodec} {F : Fs}.
Variable is_dir : Path -> bool.
Variable data_root : Path.

(** C29: A request to index is one of an administrator while the server is writable, or
    changes nothing; it is refused without a trace for a bad selector or place.  An
    administrator's is answered with a conflict while a job runs, the slot kept, and
    otherwise its steps are those of a job of the transition system, which has dropped the
    tables first when asked to, or failed to and kept them; so whatever the system
    guarantees of its jobs holds of the requests. *)
Theorem index_request_refines c srv req s mem r s' mem' :
  index_album_handler is_dir data_root c srv req s mem = (r, s', mem') ->
  let start := Accept (ir_album req) (ir_clear req) (c_now c) in
  let job := next_job_id s in
  let allowed := (exists claims, admin_claims c srv = Ok claims) /\ may_mutate c srv = Ok tt in
  match r with
  | Ok (j, roots) =>
      allowed /\ j = job /\
      validated_roots is_dir (get_resolved_image_home (c_roots c)) (get_resolved_users_home (c_roots c)) data_root
        (ir_album req) (ir_root req) = Ok roots /\
      run_jobs [start; Register job; Launch job true] s = Some s' /\
      (if ir_clear req then mem_tree mem' = [] /\ by_id (index (mem_library mem')) = ∅ /\ cache (albums (mem_library mem')) = ∅
       else mem' = mem)
  | Err e =>
      (s' = s /\ mem' = mem) \/
      (allowed /\ run_jobs [start] s = Some s' /\ mem' = mem /\ Errors.kind e = Conflict /\ slot_status s' = slot_status s) \/
      (allowed /\ ir_clear req = true /\ run_jobs [start; Register job; Launch job false] s = Some s' /\ Errors.kind e = Internal /\
       mem_tree mem' = mem_tree mem /\ same_tables (index (mem_library mem')) (index (mem_library mem)))
  end.
Proof.
  cbn zeta. unfold index_album_handler. set (allowed := _ /\ may_mutate c srv = Ok tt). destruct (admin_claims c srv) as [claims|e] eqn:Hadmin; cbn [mbind result_bind]; [|intros [= <- <- <-]; by left].
  destruct (may_mutate c srv) as [[]|e] eqn:Hmay; cbn [mbind result_bind]; [|intros [= <- <- <-]; by left].
  assert allowed as Hallowed by (split; [by exists claims|done]). clearbody allowed. unfold index_album_with_root. destruct (validated_roots _ _ _ _ _ _) as [roots|e] eqn:Hv; [|intros [= <- <- <-]; by left].
  destruct (accept (ir_album req) (ir_clear req) (c_now c) s) as [[[]|e] s1] eqn:Ha.
  2:{ assert (run_jobs [Accept (ir_album req) (ir_clear req) (c_now c)] s = Some s1) as Hone by (cbn; by rewrite Ha).
      unfold accept in Ha. cbn in Ha. destruct (bool_decide _); [|done]. injection Ha as <- <-. intros [= <- <- <-].
      right. left. by split_and!. }
  assert (phases s1 !! next_job_id s = Some (Accepted (ir_clear req))) as Hp.
  { unfold accept in Ha. cbn in Ha. destruct (bool_decide _); [done|]. injection Ha as <-. cbn. apply lookup_insert_eq. }
  assert (forall ok, run_jobs [Accept (ir_album req) (ir_clear req) (c_now c); Register (next_job_id s); Launch (next_job_id s) ok] s
    = Some (let s := set_active (Some (next_job_id s)) (set_phases (<[next_job_id s := Registered (ir_clear req)]> (phases s1)) s1) in
            if ir_clear req && negb ok then set_phases (delete (next_job_id s1 - 1) (phases s)) s
            else set_phases (<[next_job_id s1 - 1 := Walking]> (phases s)) s)) as Hrun.
  { intros ok. unfold accept in Ha. cbn in Ha. cbn. unfold accept. cbn. destruct (bool_decide _); [done|]. injection Ha as <-. cbn.
    rewrite lookup_insert_eq. cbn. rewrite lookup_insert_eq. cbn. by replace (next_job_id s + 1 - 1) with (next_job_id s) by lia. }
  assert (next_job_id s1 - 1 = next_job_id s) as Hn.
  { unfold accept in Ha. cbn in Ha. destruct (bool_decide _); [done|]. injection Ha as <-. cbn. lia. }
  rewrite Hn in Hrun. clear Hn Hp Ha. destruct (ir_clear req) eqn:Hclear.
  - destruct (clear_asset_tables_and_caches mem) as [[[]|e] mem1] eqn:Hc; intros [= <- <- <-].
    + unfold clear_asset_tables_and_caches in Hc. destruct (clear_all_asset_tables_drop _) as [[[]|e] ix] eqn:Hd; [|done].
      injection Hc as <-. unfold clear_all_asset_tables_drop in Hd. destruct (mbind _ _); [|done]. injection Hd as <-.
      split_and!; try done; first [by exists claims|by rewrite (Hrun true)].
    + right. right. unfold clear_asset_tables_and_caches in Hc. destruct (clear_all_asset_tables_drop _) as [[[]|e'] ix] eqn:Hd; [done|].
      injection Hc as <- <-. unfold clear_all_asset_tables_drop in Hd. destruct (mbind _ _); [done|]. injection Hd as _ <-.
      split_and!; try done; by rewrite (Hrun false).
  - intros [= <- <- <-]. split_and!; try done; first [by exists claims|by rewrite (Hrun true)].
Qed.
End RouteFacts.

(** ** A concrete scan *)
Import (hints) ServerWitness HomeWitness PathWitness TokenWitness.
Module ScanWitness.
Definition top : Path := [RootDir].
Definition img : Path := components (lit "/img").
Definition photo : Path := components (lit "/img/x.jpg").
(** One directory with one file. *)
Definition kind_of (p : Path) : option FileType :=
  if bool_decide (p = top) then Some DirType else if bool_decide (p = img) then Some DirType
  else if bool_decide (p = photo) then Some FileType_ else None.
Definition chain (keep : Entry -> bool) (d : nat) (ps : list Path) : list (option Entry) :=
  (fix go d ps := match ps with
     | [] => []
     | p :: ps =>
         let e := mkEntry p d (default OtherType (kind_of p)) in
         if keep e then Some e :: go (S d) ps else []
     end) d ps.
Definition below_ (root : Path) : list Path :=
  if bool_decide (root = top) then [top; img; photo] else if bool_decide (root = img) then [img; photo]
  else if bool_decide (root = photo) then [photo] else [].
#[export] Instance one_file : WalkDir := {| walk_dir root keep := chain keep 0 (below_ root); type_at := kind_of |}.

Lemma kind_known p ty : kind_of p = Some ty -> p = top /\ ty = DirType \/ p = img /\ ty = DirType \/ p = photo /\ ty = FileType_.
Proof. unfold kind_of. repeat case_bool_decide; intros [= <-]; subst; auto. Qed.
Lemma below_cases root : root = top /\ below_ root = [top; img; photo] \/ root = img /\ below_ root = [img; photo] \/
  root = photo /\ below_ root = [photo] \/ below_ root = [].
Proof. unfold below_. repeat case_bool_decide; subst; auto 6. Qed.
Ltac each_root root := destruct (below_cases root) as [[-> ->]|[[-> ->]|[[-> ->]| ->]]]; unfold chain.
#[export] Instance one_file_laws : WalkLaws.
Proof.
  split.
  - intros root keep e. cbn [walk_dir one_file]. each_root root; repeat case_match; intros He;
      repeat (apply elem_of_cons in He as [[= ->]|He]); try (by apply elem_of_nil in He); (split; [done|]); (split; [by vm_compute|]);
      first [by exists []|by exists [lit "img"]|by exists [lit "x.jpg"]|by exists [lit "img"; lit "x.jpg"]].
  - intros root keep. cbn [walk_dir one_file]. each_root root; repeat case_match; cbn; repeat constructor;
      (apply (bool_decide_unpack _); by vm_compute) || set_solver.
  - intros root keep l e l'. cbn [walk_dir one_file]. each_root root; repeat case_match; intros Hl Hd;
      repeat (destruct l as [|? l]; [injection Hl as <-; cbn in Hd; (lia || idtac)|injection Hl as <- Hl]); try (by destruct l);
      try discriminate; (exists (mkEntry img 1 DirType); split_and!; [set_solver|done|by vm_compute]).
  - intros root keep names ty _ Hall.
    assert (forall names', names' `prefix_of` names -> exists ty', kind_of (root ++ (Normal <$> names')) = Some ty' /\
      keep (mkEntry (root ++ (Normal <$> names')) (length names') ty') = true) as Hk.
    { intros names' Hp. destruct (Hall names' Hp) as (ty' & H1 & _ & _ & H2). eauto. }
    destruct (Hall names) as (ty' & Hty & _ & He & _); [done|]. specialize (He eq_refl) as ->. clear Hall. cbn in Hty.
    pose proof (Hk [] (prefix_nil _)) as (t0 & Ht0 & Hk0). cbn in Ht0, Hk0. rewrite app_nil_r in Ht0, Hk0.
    pose proof (Hk names ltac:(done)) as (t2 & Ht2 & Hk2). rewrite Hty in Ht2. injection Ht2 as <-.
    assert (forall n m, names = [n; m] -> exists t1, kind_of (root ++ [Normal n]) = Some t1 /\ keep (mkEntry (root ++ [Normal n]) 1 t1) = true)
      as Hk1 by (intros n m ->; destruct (Hk [n]) as (t1 & H1 & H2); [by exists [m]|eauto]).
    cbn [walk_dir one_file].
    destruct (kind_known _ _ Hty) as [[Hp ->]|[[Hp ->]|[Hp ->]]], (kind_known _ _ Ht0) as [[-> ->]|[[-> ->]|[-> ->]]];
      unfold top, img, photo in Hp; cbn in Hp; destruct names as [|n [|m [|? ?]]]; try discriminate; cbn in Hp;
      try (injection Hp as -> ->); try (injection Hp as ->);
      try (destruct (Hk1 _ _ eq_refl) as (t1 & Ht1 & Hkk1); vm_compute in Ht1; injection Ht1 as <-);
      rewrite ?app_nil_r in *; vm_compute; vm_compute in Hk0, Hk2; try (vm_compute in Hkk1);
      rewrite ?Hk0; try rewrite Hkk1; rewrite ?Hk2; repeat constructor.
  - intros p n ty Hty. cbn in Hty. cbn. destruct (kind_known _ _ Hty) as [[Hp ->]|[[Hp ->]|[Hp ->]]].
    + by destruct p as [|? []].
    + apply (app_inj_tail p [RootDir]) in Hp as [-> _]. by vm_compute.
    + apply (app_inj_tail p img) in Hp as [-> _]. by vm_compute.
Qed.
#[export] Instance jpegs_only : Infer := {| infer_get _ := Ok (Some (lit "jpg")) |}.
(** The same directory next to one that cannot be read. *)
Definition with_unreadable : WalkDir := {|
  walk_dir _ _ := [None; Some (mkEntry photo 1 FileType_)]; type_at := kind_of
|}.
Definition internal : list Path := components <$> [lit "/data/object"; lit "/data/db"].
Definition task (W : WalkDir) (roots : list Path) : list Action :=
  scan_task (W:=W) PathWitness.cfg internal (fun _ => true) (fun _ => false) roots.
Definition running : Jobs := run_of [Accept (lit "/") false 5; Register 1; Launch 1 true].
Definition nothing_stored : Library_ := mkLib (mkIndex ∅ ∅ ∅ ∅ 0) (mkAlbums ∅ ∅).
Definition admin : Ctx := ServerWitness.ctx_at AuthWitness.now AuthWitness.signed_in (lit "jti") (Ok tt).
Definition asked : app_result (N * list Path) * Jobs * Memory :=
  index_album_handler (fun _ => true) (components (lit "/data")) admin ServerWitness.solo
    (mkIndexRequest (lit "/") true (Some (lit "global"))) no_jobs (mkMemory nothing_stored []).
Lemma top_apart : apart internal [top].
Proof. constructor; [by vm_compute|by constructor]. Qed.
Lemma all_read root : None ∉ entries_of internal [root].
Proof.
  unfold entries_of, walked. cbn [mbind list_bind]. rewrite app_nil_r. cbn [walk_dir one_file]. unfold chain.
  destruct (below_cases root) as [[_ ->]|[[_ ->]|[[_ ->]| ->]]]; repeat case_match; set_solver.
Qed.
End ScanWitness.
Import (hints) ScanWitness.

(** The errors of the walk are counted with the failed files, and twice: a scan whose only
    medium is left to a newer submission and that met one directory it could not read is
    reported as one of which every file failed, with no file named. *)
Theorem walk_errors_fail_the_job :
  let s := counted 1 (ScanWitness.task ScanWitness.with_unreadable [ScanWitness.img]) ScanWitness.running in
  matched (slot_status s) = 1 /\ processed (slot_status s) = 0 /\ failed (slot_status s) = 2 /\
  failed_paths (slot_status s) = [] /\ final_state 1 s = IndexFailed.
Proof. vm_compute. by split_and!. Qed.

Lemma scan_reaches_witness :
  SubmitScan ScanWitness.photo ∈ ScanWitness.task ScanWitness.one_file [ScanWitness.img].
Proof.
  refine (proj2 (proj2 (proj2 (scan_reaches PathWitness.cfg (fun _ => true) (fun _ => false) (fun _ => true)
    (components (lit "/data")) (lit "/") (Some (lit "global")) [ScanWitness.img] _)) (fun _ => eq_refl) _)
    ScanWitness.photo ScanWitness.photo _ _ _ eq_refl).
  - by vm_compute.
  - exact (ScanWitness.all_read ScanWitness.img).
  - exists ScanWitness.img, [lit "x.jpg"]. split_and!; [by apply list_elem_of_singleton|done|by vm_compute|done|by vm_compute].
  - by vm_compute.
  - by vm_compute.
Defined.

Lemma scan_counts_witness :
  let st := slot_status (counted 1 (ScanWitness.task ScanWitness.one_file [ScanWitness.img]) ScanWitness.running) in
  IndexJob.scanned st = 1 /\ matched st = 1 /\ failed st = 0.
Proof.
  refine (scan_counts PathWitness.cfg ScanWitness.internal (fun _ => true) (fun _ => false) [ScanWitness.img] 1 ScanWitness.running
    (fun _ => eq_refl) _). by vm_compute.
Defined.

Lemma scan_makes_albums_witness : is_Some (get_album_id_for_dir ScanWitness.img
  (albums (ensure_albums (Fa:=all_healthy) 5 (fun _ => lit "new") (ScanWitness.task ScanWitness.one_file [ScanWitness.top])
     ScanWitness.nothing_stored))).
Proof.
  refine (proj1 (scan_makes_albums (Fa:=all_healthy) PathWitness.cfg ScanWitness.internal (fun _ => true) (fun _ => false)
    [ScanWitness.top] 5 (fun _ => lit "new") ScanWitness.nothing_stored ScanWitness.top_apart (fun _ => eq_refl)
    (ScanWitness.all_read _) (fun _ _ => eq_refl) ScanWitness.img) _).
  exists ScanWitness.top, [lit "img"]. split_and!; [by apply list_elem_of_singleton|done|by vm_compute|done|by vm_compute].
Defined.

Lemma index_request_refines_witness : exists s', ScanWitness.asked.1 = (Ok (1, [ScanWitness.img]), s') /\
  run_jobs [Accept (lit "/") true AuthWitness.now; Register 1; Launch 1 true] no_jobs = Some s'.
Proof.
  assert (ScanWitness.asked.1.1 = Ok (1, [ScanWitness.img])) as Hr by (vm_compute; reflexivity).
  destruct ScanWitness.asked as [[r s'] mem'] eqn:H. cbn in Hr. subst r. exists s'. split; [reflexivity|].
  refine (proj1 (proj2 (proj2 (proj2 (index_request_refines (fun _ => true) (components (lit "/data")) ScanWitness.admin
    ServerWitness.solo (mkIndexRequest (lit "/") true (Some (lit "global"))) no_jobs (mkMemory ScanWitness.nothing_stored [])
    _ s' mem' H))))).
Defined.
