(* ===== verification/Login.v ===== *)
(** * Login: signing in and out
      ([backend/src/router/post/users_authenticate.rs])

    A sign-in touches the throttle twice, before and after the password check on
    the blocking pool; between the two other requests run.  [authenticate] is
    the two halves in sequence, [begin_login] and [finish_login] the halves a
    concurrent history is made of. *)

From S2P Require Import Prelude Errors Redb Password UserStore Revocations Invites RateLimit.
From S2P Require Import LoginThrottle Paths Formats Model MetadataRecord DirAlbum Tokens RouterAuth.
From S2P Require Import IndexStore DirAlbumStore Accounts.

Definition SWEEP_INTERVAL_SECS : N := 60.

(** [with_login_throttle]: the tracker is rebuilt when the schedules changed;
    schedules [Bucket::new] rejects make it panic. *)
Definition with_login_throttle {A} (c : Ctx) (f : LoginThrottle -> A * LoginThrottle) : Api A :=
  fun s =>
  let built := match login_slot s with
               | Some (params, t) => if bool_decide (params = c_schedules c) then Some t else None
               | None => None
               end in
  match (match built with
         | Some t => Ok t
         | None => new_throttle (s_ip_short (c_schedules c)) (s_ip_long (c_schedules c))
                     (s_user_long (c_schedules c))
         end) with
  | Err _ => (Err Panicked, s)
  | Ok t =>
      let '(a, t) := f t in
      (Ok a, with_login (Some (c_schedules c, t)) (last_sweep s) s)
  end.

Section Login.
Context {Jc : JsonCodec} {Lh : LegacyHash} {Ca : Casing} {Cr : Crypto} {J : Jwt} {Tc : TokenCodec}.
Context {F : Fs} {K : Nfkc} {I : Infer} {D : Dirs} {Uc : Uppercase} {Sc : Sidecars}.

Definition invalid_credentials : AppError :=
  add_context (lit "Authentication failed") (new_error Auth (lit "Invalid credentials")).
Definition too_many (ban : N) : AppError :=
  retry_after ban (new_error RateLimited
    (lit "Too many login attempts, try again in " ++ show_N ban ++ lit "s")).

(** Its last component counts the rounds of password hashing it paid for. *)
Definition login_sync (c : Ctx) (user_id password : str) (st : Store)
  : app_result (str * UserSummary) * Store * nat :=
  let canonical := trim password in
  let '(existing, st) := UserDb.read (Rd:=c_user_io c) user_id st in
  match existing with
  | None => (Err invalid_credentials, st, 1%nat)             (* run_dummy_verify *)
  | Some record =>
      if disabled record then (Err invalid_credentials, st, 1%nat)
      else match UserDb.load (Rd:=c_user_io c) st with
           | (Err e, st) => (Err (from_err IO e), st, 0%nat)
           | (Ok store, st) =>
               let rounds := match UserDb.users store !! trim user_id ≫= User.hash with
                             | Some _ => 1%nat | None => 0%nat end in
               let '(ok, st) := UserDb.verify (Rd:=c_user_io c) (weak_env (c_policy c)) (c_rng c)
                                  store user_id canonical st in
               if negb ok then (Err invalid_credentials, st, rounds)
               else
                 let claims := new_user (c_now c) (c_jti c) user_id (admin record) (ver record) in
                 (Ok (encode_token (c_secret c) claims, summary_of user_id (admin record) record),
                  st, rounds)
           end
  end.

(** Up to the reservation: the validated id and the throttle's clock. *)
Definition begin_login (c : Ctx) (user_id : str) : Api (str * option N) :=
  let? user_id := lift (validate_user_id user_id) in
  match throttle_now c with
  | None => pure (user_id, None)
  | Some now =>
      let? ban := (fun s =>
        let due := SWEEP_INTERVAL_SECS <=? now - last_sweep s in
        let '(r, s) := with_login_throttle c (fun t =>
          let '(t, ban) := reserve (if due then sweep t now else t) (c_ip c) user_id now in
          (ban, t)) s in
        (r, match r with
            | Ok _ => if due then with_login (login_slot s) now s else s
            | Err _ => s
            end)) in
      if 0 <? ban then lift (Err (too_many ban)) else pure (user_id, Some now)
  end.

Definition finish_login (c : Ctx) (user_id password : str) (limit : option N) : Api Reply :=
  let? outcome := blocking c (fun s =>
    let '(r, st, _) := login_sync c user_id password (user_store s) in
    (Ok r, with_user_store st s)) in
  match outcome with
  | Err err =>
      if bool_decide (Errors.kind err = Auth) then
        match limit with
        | Some now =>
            let? ban := with_login_throttle c (fun t =>
              let '(t, ban) := record_failure (release t (c_ip c) user_id) (c_ip c) user_id now in
              (ban, t)) in
            if 0 <? ban then lift (Err (too_many ban)) else lift (Err err)
        | None => lift (Err err)
        end
      else
        match limit with
        | Some _ =>
            let? _ := with_login_throttle c (fun t => (tt, release t (c_ip c) user_id)) in
            lift (Err err)
        | None => lift (Err err)
        end
  | Ok (token, profile) =>
      let? _ := match limit with
                | Some now =>
                    with_login_throttle c (fun t => (tt, record_success t (c_ip c) user_id now))
                | None => pure tt
                end in
      pure (SignedIn token profile)
  end.

Definition authenticate (c : Ctx) (user_id password : str) : Api Reply :=
  let? (user_id, limit) := begin_login c user_id in
  finish_login c user_id password limit.

Definition logout (c : Ctx) : Api Reply :=
  let presented :=
    cookie_jwt (c_request c) ≫= fun token =>
      result_ok (decode_typed (T:=ClaimsSession) (c_secret c) ValidateExp (c_now c) token) in
  fun s =>
    (Ok SignedOut,
     match presented with
     | Some claims =>
         match role claims with
         | RUser _ _ =>
             with_revoked (revoke (Rd:=c_index_io c) (secs (c_now c)) (session_key (jti claims))
                             (session_exp claims) (revoked s)).2 s
         | RShare _ => s
         end
     | None => s
     end).

(** ** The account routes *)
Inductive Call :=
| Authenticate (user_id password : str)
| Logout
| Bootstrap (user_id password : str)
| Register (user_id password : str) (invite : option str)
| SetPassword (user_id new_password : str)
| SetAdmin (user_id : str) (admin : bool)
| SetDisabled (user_id : str) (disabled : bool)
| SetSharing (user_id : str) (enabled : bool)
| ListUsers
| Profile
| CreateInvite (hours : Z) (username : option str)
| ListInvites
| DeleteInvite (invite_id : str)
| DeleteUser (user_id : str).

Definition serve (c : Ctx) (call : Call) : Api Reply :=
  match call with
  | Authenticate u p => authenticate c u p
  | Logout => logout c
  | Bootstrap u p => bootstrap_admin_handler c u p
  | Register u p i => register_user_handler c u p i
  | SetPassword u p => set_user_password_handler c u p
  | SetAdmin u b => set_user_admin_handler c u b
  | SetDisabled u b => set_user_disabled_handler c u b
  | SetSharing u b => set_user_sharing_handler c u b
  | ListUsers => list_users_handler c
  | Profile => get_self_profile_handler c
  | CreateInvite h u => create_invite_handler c h u
  | ListInvites => list_invites_handler c
  | DeleteInvite i => delete_invite c i
  | DeleteUser u => delete_user_handler c u
  end.
Fixpoint serve_all (calls : list (Ctx * Call)) (s : Server) : Server :=
  match calls with
  | [] => s
  | (c, call) :: calls' => serve_all calls' (serve c call s).2
  end.
End Login.

(** ** Who can become an administrator *)
Section Roles.
Context {Jc : JsonCodec} {Jl : JsonLaws} {Lh : LegacyHash} {Ca : Casing} {Cr : Crypto} {J : Jwt}
  {Tc : TokenCodec}.
Context {F : Fs} {K : Nfkc} {I : Infer} {D : Dirs} {Uc : Uppercase} {Sc : Sidecars}.

Lemma throttle_moves R `{!PreOrder R} {A} c (f : LoginThrottle -> A * LoginThrottle) :
  moves R (with_login_throttle c f).
Proof.
  apply moves_still; [done|]. intros s. unfold with_login_throttle.
  repeat case_match; simplify_eq/=; done.
Qed.
Hint Resolve throttle_moves : moves.

Lemma begin_login_moves c u : moves steady (begin_login c u).
Proof.
  unfold begin_login. walk_steps. apply (moves_still _). intros s.
  unfold with_login_throttle. repeat case_match; simplify_eq/=; done.
Qed.

Lemma login_sync_keeps c u p st users : reads st users ->
  exists users', reads (login_sync c u p st).1.2 users' /\ steady users users'.
Proof.
  intros Hr. unfold login_sync. apply (read_keeps (Rd:=c_user_io c) u) in Hr as Hr1.
  destruct (UserDb.read u st) as [[r|] st1]; [|by exists users]. cbn in Hr1.
  destruct (disabled r); [by exists users|].
  apply (load_keeps (Rd:=c_user_io c)) in Hr1 as Hr2.
  destruct (UserDb.load st1) as [[v|e] st2]; [|by exists users].
  destruct (verify_moves (Rd:=c_user_io c) (weak_env (c_policy c)) (c_rng c) v u (trim p) st2 users Hr2)
    as (users' & Hv & Hs).
  destruct (UserDb.verify _ _ _ _ _ _) as [ok st']. exists users'. split; [|done]. by destruct ok.
Qed.

Lemma finish_login_moves c u p limit : moves steady (finish_login c u p limit).
Proof.
  unfold finish_login. walk_steps. intros s users Hr.
  destruct (login_sync_keeps c u p _ _ Hr) as (users' & Hr' & Hs). exists users'.
  by destruct (login_sync c u p (user_store s)) as [[r st] n].
Qed.
Hint Resolve begin_login_moves finish_login_moves : moves.

Lemma role_handler_moves R `{!PreOrder R} c f : moves R f -> moves R (role_handler c f).
Proof. intros Hf. unfold role_handler. walk_steps. Qed.

(** Every route but the two that make administrators. *)
Lemma serve_steady c call :
  match call with SetAdmin _ true | Bootstrap _ _ => False | _ => True end ->
  moves steady (serve c call).
Proof.
  intros Hc. destruct call as [u p| |u p|u p i|u p|u [|]|u b|u b| | |h u| |i|u]; try done;
    cbn [serve];
    unfold authenticate, register_user_handler, register_user_sync, set_user_password_handler,
      set_password_sync, set_user_admin_handler, set_user_disabled_handler,
      set_user_sharing_handler, set_admin_role, set_disabled_role, set_sharing_enabled_role, set_role,
      list_users_handler, get_self_profile_handler, create_invite_handler, list_invites_handler,
      delete_invite, delete_user_handler, provision_user, logout.
  all: try apply (role_handler_moves _).
  all: walk_steps.
  - by apply (moves_still _).
  - by apply (op_moves (OpSetAdmin a0 false) _ (c_user_io c)).
  - by apply (op_moves (OpSetDisabled a0 b) _ (c_user_io c)).
  - by apply (op_moves (OpSetSharing a0 b) _ (c_user_io c)).
Qed.

Lemma role_handler_cases c f s :
  (role_handler c f s).2 = s \/
  (exists claims, admin_claims c s = Ok claims) /\ c_read_only c = false /\
    (role_handler c f s).2 = (f s).2.
Proof.
  unfold role_handler, then_, guarded, lift, may_mutate, guard_mutate, pure. cbn [read_only_mode view].
  destruct (c_read_only c); [by left|]. cbn. destruct (admin_claims c s) as [claims|e]; [|by left].
  cbn. destruct (role claims); [|by left]. right. split_and!; [by exists claims|done|].
  by destruct (f s) as [[b|e] s'].
Qed.

(** How a request can make [id] an administrator. *)
Definition entitled (c : Ctx) (call : Call) (s : Server) (id : str) : Prop :=
  match call with
  | SetAdmin target true =>
      id = trim target /\ c_read_only c = false /\ exists claims, admin_claims c s = Ok claims
  | Bootstrap target _ =>
      id = trim target /\ c_read_only c = false /\ c_bootstrap c = true /\
      (UserDb.count (Rd:=c_user_io c) (user_store s)).1 = 0%nat
  | _ => False
  end.

Lemma raises_weaken (P Q : str -> Prop) users users' :
  (forall id, P id -> Q id) -> raises P users users' -> raises Q users users'.
Proof.
  intros HPQ [H1 H2]. split; [|done]. intros id u' Hu Ha. destruct (H1 id u' Hu Ha); auto.
Qed.

Lemma serve_raises c call s users : reads (user_store s) users ->
  exists users', reads (user_store (serve c call s).2) users' /\ raises (entitled c call s) users users'.
Proof.
  intros Hr.
  assert (match call with SetAdmin _ true | Bootstrap _ _ => False | _ => True end ->
    exists users', reads (user_store (serve c call s).2) users' /\
      raises (entitled c call s) users users') as Hsteady.
  { intros Hc. by apply (moves_steady _ _ (serve_steady c call Hc)). }
  destruct call as [u p| |target p|u p i|u p|target [|]|u b|u b| | |h u| |i|u]; auto; clear Hsteady;
    cbn [serve].
  - unfold bootstrap_admin_handler, guarded, may_mutate, guard_mutate, then_ at 1.
    cbn [read_only_mode view]. destruct (c_read_only c) eqn:Hro; [by exists users|]. cbn [map_err].
    unfold then_ at 1. unfold count_users, peek_users.
    destruct (UserDb.count (user_store s)) as [n st] eqn:Hn.
    assert (reads st users) as Hst.
    { pose proof (count_keeps (Rd:=c_user_io c) _ _ Hr) as Hk. by rewrite Hn in Hk. }
    destruct ((0 <? n)%nat || negb (c_bootstrap c)) eqn:Hw.
    + assert (moves (raises (entitled c (Bootstrap target p) s))
        (let? _ := guarded (admin_claims c) in raise (A:=Reply) Auth WINDOW_CLOSED_MSG)) as Hm
        by walk_steps.
      apply Hm. exact Hst.
    + apply orb_false_iff in Hw as [Hz Hb]. apply Nat.ltb_ge in Hz. apply negb_false_iff in Hb.
      assert (moves (raises (entitled c (Bootstrap target p) s))
        (let? created := blocking c (bootstrap_user_sync c target p) in pure (Summary created))) as Hm.
      { apply (moves_then _); [apply (moves_blocking _)|intros ?; apply (moves_pure _)].
        unfold bootstrap_user_sync. apply (moves_then _); [apply (count_users_moves _)|intros n'].
        case_match; [apply (moves_lift _)|].
        apply (moves_then _); [|intros ?; apply (moves_pure _)].
        intros s1 users1 Hr1. destruct (bootstrap_moves c target p None s1 users1 Hr1)
          as (users2 & Hr2 & HR). exists users2. split; [exact Hr2|].
        eapply raises_weaken; [|exact HR]. intros id <-. unfold entitled. rewrite Hn. cbn.
        split_and!; [done|done|done|lia]. }
      apply Hm. exact Hst.
  - destruct (role_handler_cases c (let? t := lift (validate_user_id target) in set_admin_role c t true) s)
      as [Hs|([claims Hcl] & Hro & Hs)]; unfold set_user_admin_handler; rewrite Hs; [by exists users|].
    assert (moves (raises (eq (trim target)))
      (let? t := lift (validate_user_id target) in set_admin_role c t true)) as Hm.
    { apply (moves_bind _); [walk_steps|]. intros a s1 Ha%lift_Ok%validated_trim.
      pose proof (set_admin_moves c a) as Hm. rewrite Ha in Hm |- *. by rewrite trim_idemp in Hm. }
    destruct (Hm s users Hr) as (users' & Hr' & HR). exists users'. split; [done|].
    eapply raises_weaken; [|done]. intros id <-. split_and!; [done|done|by exists claims].
Qed.

(** C3: No request makes anybody an administrator, except an administrator's own
    request to do just that, and the enrollment of the first one, which needs the
    bootstrap flag and a store that counts no users; and no request takes the last
    administrator away.  This holds whatever disk calls fail. *)
Theorem admins_only_from_admins c call s users :
  reads (user_store s) users ->
  exists users', reads (user_store (serve c call s).2) users' /\
    (forall id u', users' !! id = Some u' -> admin u' = true ->
      entitled c call s id \/ exists u, users !! id = Some u /\ admin u = true) /\
    (has_admin users -> has_admin users').
Proof. apply serve_raises. Qed.

(** Every request of the history is without an administrator session, and the
    bootstrap flag is off. *)
Fixpoint unprivileged (calls : list (Ctx * Call)) (s : Server) : Prop :=
  match calls with
  | [] => True
  | (c, call) :: calls' =>
      is_ok (admin_claims c s) = false /\ c_bootstrap c = false /\
      unprivileged calls' (serve c call s).2
  end.

(** Over any history of requests: with an administrator enrolled there always is
    one; and if none of the requests comes from an administrator and the bootstrap
    flag is off, every administrator was one at the start. *)
Theorem no_escalation calls s users :
  reads (user_store s) users ->
  exists users', reads (user_store (serve_all calls s)) users' /\
    (has_admin users -> has_admin users') /\
    (unprivileged calls s -> forall id u', users' !! id = Some u' -> admin u' = true ->
       exists u, users !! id = Some u /\ admin u = true).
Proof.
  revert s users. induction calls as [|[c call] calls IH]; intros s users Hr.
  - exists users. split_and!; [done|done|]. eauto.
  - cbn [serve_all]. destruct (serve_raises c call s users Hr) as (users1 & Hr1 & H1 & Ha1).
    destruct (IH _ _ Hr1) as (users2 & Hr2 & Ha2 & H2). exists users2.
    split_and!; [done|by auto|]. intros (Hna & Hnb & Hrest) id u' Hu Had.
    destruct (H2 Hrest id u' Hu Had) as (u1 & Hu1 & Had1).
    destruct (H1 id u1 Hu1 Had1) as [He|?]; [|done]. exfalso.
    destruct call as [| |? ?|? ? ?|? ?|? [|]| | | | | | | |]; try done; cbn in He.
    + destruct He as (_ & _ & Hb & _). congruence.
    + destruct He as (_ & _ & [claims Hcl]). by rewrite Hcl in Hna.
Qed.
End Roles.

(** ** Sessions *)
Section Sessions.
Context {Jc : JsonCodec} {Jl : JsonLaws} {Lh : LegacyHash} {Ca : Casing} {Cr : Crypto} {J : Jwt}
  {Jw : JwtLaws J} {Tc : TokenCodec}.
Context {F : Fs} {K : Nfkc} {I : Infer} {D : Dirs} {Uc : Uppercase} {Sc : Sidecars}.

Lemma read_user_ok {Rd : Redb} id st users u st' :
  reads st users -> UserDb.read id st = (Some u, st') ->
  users !! trim id = Some u /\ reads st' users.
Proof.
  intros Hr Hrd. apply (read_keeps id) in Hr as Hk. rewrite Hrd in Hk. split; [|done].
  unfold UserDb.read in Hrd. destruct (load_users st) as [[us|e] st1] eqn:Hl; [|done].
  apply (load_users_reads _ _ _ _ Hr) in Hl as ->. cbn in Hrd. congruence.
Qed.
Lemma load_ok {Rd : Redb} st users v st' :
  reads st users -> UserDb.load st = (Ok v, st') -> v = UserDb.mkUserStore users /\ reads st' users.
Proof.
  intros Hr Hld. apply load_keeps in Hr as Hk. rewrite Hld in Hk. split; [|done].
  unfold UserDb.load in Hld. destruct (load_users st) as [[us|e] st1] eqn:Hl; [|done].
  apply (load_users_reads _ _ _ _ Hr) in Hl as ->. by cbn in Hld; simplify_eq.
Qed.

(** A password check leaves everybody's version, role and lock alone. *)
Definition same_standing (users users' : gmap str UserRecord) : Prop :=
  forall id u, users !! id = Some u -> exists u', users' !! id = Some u' /\
    ver u' = ver u /\ admin u' = admin u /\ disabled u' = disabled u.
Lemma verify_standing {Rd : Redb} env rng v id p st users :
  reads st users ->
  exists users', reads (UserDb.verify env rng v id p st).2 users' /\ same_standing users users'.
Proof.
  assert (same_standing users users) as Hsame by (intros i u Hu; by exists u).
  intros Hr. unfold UserDb.verify. destruct (UserDb.users v !! trim id ≫= User.hash) as [h|];
    [|by exists users].
  destruct (verify_password p h && _); [|by exists users].
  destruct (run_op_effect (Rd, OpUpgrade env rng (trim id) (trim p)) st users Hr)
    as [Hr'|(m & He & Hr')]; cbn in Hr'; destruct (UserDb.upgrade_password_hash _ _ _ _ _) as [x st'];
    [by exists users|].
  exists m. split; [done|]. cbn in He. unfold erase, upgrade_password_hash_fn in He.
  intros i u Hu. cbn in He. case_match; simplify_eq/=; [|by exists u].
  destruct (decide (i = trim (trim id))) as [->|Hne].
  - rewrite lookup_insert_eq. simplify_eq. by eexists.
  - rewrite lookup_insert_ne by done. by exists u.
Qed.

(** What a successful password check found. *)
Record credentials (users : gmap str UserRecord) (id password : str) (u : UserRecord) : Prop := {
  cred_record : users !! trim id = Some u;
  cred_enabled : disabled u = false;
  cred_password : exists h, User.hash u = Some h /\ verify_password (trim password) h = true
}.

Lemma login_sync_ok c id p st users token profile st' n :
  reads st users -> login_sync c id p st = (Ok (token, profile), st', n) ->
  exists u users', credentials users id p u /\ reads st' users' /\ same_standing users users' /\
    token = encode_token (c_secret c) (new_user (c_now c) (c_jti c) id (admin u) (ver u)) /\
    profile = summary_of id (admin u) u.
Proof.
  intros Hr. unfold login_sync.
  destruct (UserDb.read id st) as [[u|] st1] eqn:Hrd; [|done].
  destruct (read_user_ok _ _ _ _ _ Hr Hrd) as [Hu Hr1]. destruct (disabled u) eqn:Hdis; [done|].
  destruct (UserDb.load st1) as [[v|e] st2] eqn:Hld; [|done].
  destruct (load_ok _ _ _ _ Hr1 Hld) as [-> Hr2].
  destruct (verify_standing (Rd:=c_user_io c) (weak_env (c_policy c)) (c_rng c)
    (UserDb.mkUserStore users) id (trim p) st2 users Hr2) as (users' & Hr' & Hs).
  destruct (UserDb.verify _ _ _ _ _ _) as [ok st3] eqn:Hv. destruct ok; [|done]. cbn [negb].
  intros [= <- <- <- _]. exists u, users'. split_and!; try done. split; [done|done|].
  unfold UserDb.verify in Hv. cbn [UserDb.users] in Hv. rewrite Hu in Hv.
  cbn [mbind option_bind] in Hv. destruct (User.hash u) as [h|]; [|done]. exists h. split; [done|].
  destruct (verify_password (trim p) h); [done|]. done.
Qed.

Lemma throttle_keeps {A} c (f : LoginThrottle -> A * LoginThrottle) s :
  user_store (with_login_throttle c f s).2 = user_store s /\
  revoked (with_login_throttle c f s).2 = revoked s.
Proof. unfold with_login_throttle. repeat case_match; simplify_eq/=; done. Qed.

Lemma begin_login_ok c u s id limit s1 : begin_login c u s = (Ok (id, limit), s1) ->
  validate_user_id u = Ok id /\ user_store s1 = user_store s /\ revoked s1 = revoked s.
Proof.
  unfold begin_login, then_, lift. destruct (validate_user_id u) as [id'|e]; cbn; [|done].
  destruct (throttle_now c) as [now|]; [|by intros [= <- <- <-]].
  pose proof (throttle_keeps c (fun t =>
    let '(t, ban) := reserve (if SWEEP_INTERVAL_SECS <=? now - last_sweep s then sweep t now else t)
                       (c_ip c) id' now in (ban, t)) s) as [H1 H2].
  destruct (with_login_throttle _ _ _) as [[ban|e] s'] eqn:Hw; cbn in *; [|done].
  destruct (0 <? ban); [done|]. intros [= <- <- <-]. by destruct (_ <=? _).
Qed.

Lemma finish_login_ok c id p limit s r s' : finish_login c id p limit s = (Ok r, s') ->
  exists token profile n, login_sync c id p (user_store s) = (Ok (token, profile), user_store s', n) /\
    r = SignedIn token profile /\ revoked s' = revoked s.
Proof.
  unfold finish_login, blocking, then_, lift.
  destruct (or_raise _ _ (c_join c)); cbn [map_err]; [|done].
  destruct (login_sync c id p (user_store s)) as [[[[token profile]|e] st] n] eqn:Hl; cbn.
  - destruct limit as [now|]; cbn; [|intros [= <- <-]; by eexists _, _, _].
    pose proof (throttle_keeps c (fun t => (tt, record_success t (c_ip c) id now)) (with_user_store st s))
      as [H1 H2].
    destruct (with_login_throttle _ _ _) as [[[]|e] s1]; [|done]. cbn in *.
    intros [= <- <-]. rewrite H1. by eexists _, _, _.
  - intros H. exfalso. destruct (bool_decide _), limit as [now|]; try done.
    + destruct (with_login_throttle _ _ _) as [[ban|e'] s1]; [|done]. by destruct (0 <? ban).
    + by destruct (with_login_throttle _ _ _) as [[ban|e'] s1].
Qed.

(** C4: A sign-in that succeeds: the password was the user's, the account is not
    locked; and in the state it leaves behind, a request that carries the cookie
    before it expires is admitted as that user with that role, on a disk that can
    be read and unless the fresh session id was revoked before. *)
Theorem login_opens_session c id p s users token profile s' :
  reads (user_store s) users ->
  serve c (Authenticate id p) s = (Ok (SignedIn token profile), s') ->
  exists name u, validate_user_id id = Ok name /\ credentials users name p u /\
    profile = summary_of name (admin u) u /\
    forall c', c_user_io c' = healthy -> foreign (user_store s') = false ->
      c_secret c' = c_secret c -> cookie_jwt (c_request c') = Some token ->
      (c_now c' <= Z.of_N (expiry (c_now c) (14 * 86400)) * 1000)%Z ->
      is_revoked (Rd:=c_index_io c') (secs (c_now c')) (session_key (c_jti c)) (revoked s) = false ->
      user_claims c' s' = Ok (new_user (c_now c) (c_jti c) name (admin u) (ver u)).
Proof.
  intros Hr. cbn [serve]. unfold authenticate, then_.
  destruct (begin_login c id s) as [[[name limit]|e] s1] eqn:Hb; [|done].
  apply begin_login_ok in Hb as (Hid & Hst & Hrev). intros Hf.
  apply finish_login_ok in Hf as (token' & profile' & n & Hl & [= <- <-] & Hrev').
  rewrite Hst in Hl.
  destruct (login_sync_ok _ _ _ _ _ _ _ _ _ Hr Hl) as (u & users' & Hc & Hr' & Hs & -> & ->).
  exists name, u. split_and!; try done.
  intros c' Hio Hfo Hsec Hcookie Hnow Hnot. unfold user_claims.
  destruct (Hs _ _ (cred_record _ _ _ _ Hc)) as (u' & Hu' & Hver & Hadm & Hdis).
  assert (ver u <= u64_max) as Hv.
  { apply represents_ok in Hr. apply (Hr _ _ (cred_record _ _ _ _ Hc)). }
  enough (guard_user (view c' s') (c_now c') (c_request c')
    = Ok (new_user (c_now c) (c_jti c) name (admin u) (ver u))) as -> by done.
  apply guard_user_admitted. eexists _, (new_user (c_now c) (c_jti c) name (admin u) (ver u)), name,
    (admin u), u'. split; [exact Hcookie|]. split.
  { cbn [view jwt_secret]. rewrite Hsec. apply minted_decodes; [|done|done]. split; [done|].
    split; [|exact Hv]. cbn. unfold expiry, wrapping_add_u64, u64_max.
    pose proof (N.mod_lt (Z.to_N (Z.quot (c_now c) 1000 mod 18446744073709551616) + 14 * 86400)
      18446744073709551616). lia. }
  split; [done|]. split.
  - unfold live. cbn [view session_ver new_user jti]. split_and!; [|done| |].
    + unfold user_record. cbn [view user_disk user_file]. rewrite Hio. unfold UserDb.read.
      destruct (load_users_healthy _ _ Hr' Hfo) as (st' & -> & _). cbn. by rewrite Hu'.
    + rewrite Hdis. apply (cred_enabled _ _ _ _ Hc).
    + unfold session_revoked. cbn [view tree_db revocations]. by rewrite Hrev', Hrev.
  - unfold with_admin, new_user. cbn. by rewrite Hadm.
Qed.

(** ** Signing out *)
Lemma serve_keeps (P : Server -> Prop) c call : unseen P -> keeps P (reauth c) ->
  match call with Authenticate _ _ | Logout => False | _ => True end -> keeps P (serve c call).
Proof.
  intros U Hre Hc. destruct call as [u p| |u p|u p i|u p|u b|u b|u b| | |h u| |i|u]; try done;
    cbn [serve];
    unfold bootstrap_admin_handler, bootstrap_user_sync, register_user_handler, register_user_sync,
      set_user_password_handler, set_password_sync, store_password, set_user_admin_handler,
      set_user_disabled_handler, set_user_sharing_handler, role_handler, set_admin_role,
      set_disabled_role, set_sharing_enabled_role, set_role, list_users_handler,
      get_self_profile_handler, create_invite_handler, list_invites_handler, delete_invite,
      delete_user_handler, delete_user, cascade_owned_shares, prune_personal_album, provision_user,
      provision_user_with_home, read_user, count_users, guarded, raise, pure;
    keep_steps U.
  - intros s Hs. destruct (redeem_invite _ _ _ _ _ _ _ _ _) as [[r t] st].
    by apply (unseen_invites _ U), (unseen_users _ U).
  - intros s Hs. case_match; [done|]. destruct (get_all_assets _). by apply (unseen_library _ U).
  - intros s Hs. by apply (unseen_library _ U).
Qed.

(** The revocation of [jti] is in force at [t]. *)
Definition out_until (jti : str) (t : N) (s : Server) : Prop :=
  holds_until (session_key jti) t (revoked s).
Lemma out_unseen jti t : unseen (out_until jti t).
Proof. by split. Qed.

(** No request of the history presents another token with this [jti] that expires
    earlier, and none runs on a clock past [t]. *)
Definition undisturbed (jti_ : str) (t : N) (c : Ctx) : Prop :=
  secs (c_now c) <= t /\
  forall token claims, cookie_jwt (c_request c) = Some token ->
    decode_typed (c_secret c) ValidateExp (c_now c) token = Ok claims -> jti claims = jti_ ->
    t < session_exp claims.

Lemma session_key_inj a b : session_key a = session_key b -> a = b.
Proof. unfold session_key. by intros ?%(inj (app _)). Qed.

Lemma revoke_keeps_out c token claims jti_ t s :
  undisturbed jti_ t c -> cookie_jwt (c_request c) = Some token ->
  decode_typed (c_secret c) ValidateExp (c_now c) token = Ok claims -> out_until jti_ t s ->
  holds_until (session_key jti_) t
    (revoke (Rd:=c_index_io c) (secs (c_now c)) (session_key (jti claims)) (session_exp claims)
       (revoked s)).2.
Proof.
  intros [Hnow Hu] Hc Hd Hs. destruct (revoke _ _ _ _) as [r tb] eqn:Hr. cbn [snd].
  refine (revoke_holds (Rd:=c_index_io c) _ _ _ _ _ _ _ _ Hs Hnow _ _ Hr).
  - by apply decode_exp_ok in Hd.
  - intros Hk%session_key_inj. by apply (Hu token).
Qed.

Lemma reauth_keeps_out c jti_ t : undisturbed jti_ t c -> keeps (out_until jti_ t) (reauth c).
Proof.
  intros Hu s Hs. unfold reauth, out_until. cbn [snd revoked with_guesses with_revoked].
  unfold guard_reauth. cbn [view user_file revocations user_disk].
  destruct (try_jwt_cookie_user _ _ _ _) as [claims|] eqn:Hcl; [|done].
  assert (holds_until (session_key jti_) t
    (revoke_attempt_session (view c s) (c_now c) (jti claims) (session_exp claims)).2) as Hrev.
  { apply cookie_user_admitted in Hcl as (token & cl & id & flag & r & Hc & Hd & Hrole & _ & ->).
    unfold with_admin. rewrite Hrole. cbn [jti session_exp]. by eapply revoke_keeps_out. }
  repeat (case_match; try done).
Qed.

Lemma serve_keeps_out c call jti_ t : undisturbed jti_ t c -> keeps (out_until jti_ t) (serve c call).
Proof.
  intros Hu. destruct call as [u p| |u p|u p i|u p|u b|u b|u b| | |h u| |i|u];
    try (apply serve_keeps; [apply out_unseen|by apply reauth_keeps_out|done]); cbn [serve].
  - unfold authenticate. apply keeps_then.
    + unfold begin_login. keep_steps (out_unseen jti_ t).
      intros s1 Hs1. unfold with_login_throttle. repeat (case_match; simplify_eq/=); done.
    + intros [id limit]. unfold finish_login. keep_steps (out_unseen jti_ t).
      all: intros s1 Hs1; try (unfold with_login_throttle; repeat (case_match; simplify_eq/=); done).
  - intros s Hs. unfold logout. cbn [snd].
    destruct (cookie_jwt (c_request c)) as [token|] eqn:Hc; cbn [mbind option_bind]; [|done].
    destruct (decode_typed _ _ _ _) as [claims|] eqn:Hd; cbn [result_ok]; [|done].
    destruct (role claims); [|done]. unfold out_until. cbn [revoked with_revoked].
    by eapply revoke_keeps_out.
Qed.

(** C5: Signing out: from the moment the answer is given, on an index disk that works,
    no request with the cookie is a session again, on any guard, after any history
    of account requests in between, as long as none of them presents another token
    with the same session id that expires earlier. *)
Theorem logout_closes_session c claims id flag calls s c' t :
  c_index_io c = healthy -> claims_ok claims -> session_typ claims = TSession ->
  role claims = RUser id flag ->
  cookie_jwt (c_request c) = Some (encode_token (c_secret c) claims) ->
  (c_now c <= Z.of_N (session_exp claims) * 1000)%Z -> t < session_exp claims ->
  Forall (fun call => undisturbed (jti claims) t call.1) calls ->
  c_index_io c' = healthy -> c_secret c' = c_secret c -> secs (c_now c') <= t ->
  cookie_jwt (c_request c') = cookie_jwt (c_request c) ->
  let s' := serve_all calls (serve c Logout s).2 in
  no_session (view c' s') (c_now c') (c_request c').
Proof.
  intros Hio Hok Htyp Hrole Hc Hnow Ht Hcalls Hio' Hsec Ht' Hc' s'.
  assert (decode_typed (c_secret c) ValidateExp (c_now c) (encode_token (c_secret c) claims) = Ok claims)
    as Hd by (by apply minted_decodes).
  assert (out_until (jti claims) t (serve c Logout s).2) as Hout.
  { cbn [serve]. unfold logout, out_until. cbn [snd]. rewrite Hc. cbn [mbind option_bind].
    rewrite Hd. cbn [result_ok]. rewrite Hrole, Hio. cbn [revoked with_revoked].
    apply revoke_now_holds; [|done]. by destruct Hok as (_ & He & _). }
  assert (out_until (jti claims) t s') as Hout'.
  { unfold s'. clear s'. revert Hout. generalize ((serve c Logout s).2).
    induction Hcalls as [|[c1 call] calls Hu _ IH]; intros s1 H1; [done|]. cbn [serve_all].
    apply IH. by apply serve_keeps_out. }
  refine (revoked_session_refused (view c' s') (c_now c') (c_request c')
    (encode_token (c_secret c) claims) claims t _ _ Hout' _ Ht').
  - by rewrite Hc'.
  - cbn [view jwt_secret]. rewrite Hsec. apply minted_decodes; [done|done|]. intros _.
    cbn. unfold secs in Ht'. pose proof (Z.quot_rem' (c_now c') 1000).
    pose proof (Z.rem_bound_abs (c_now c') 1000). lia.
  - done.
Qed.
End Sessions.

(** ** What a sign-in answers *)
Section Answers.
Context {Jc : JsonCodec} {Jl : JsonLaws} {Lh : LegacyHash} {Ca : Casing} {Cr : Crypto} {J : Jwt}.

(** On a working disk the answer to a sign-in is the credentials' alone: unknown
    user, locked account and wrong password get the same error.  Each of them pays
    for one round of password hashing, except an account without a password, which
    pays for none, and can be told apart by the time the answer takes. *)
Theorem login_refusals_uniform c id p st users :
  c_user_io c = healthy -> reads st users -> foreign st = false ->
  let '(r, _, rounds) := login_sync c id p st in
  match users !! trim id with
  | None => r = Err invalid_credentials /\ rounds = 1%nat
  | Some u =>
      if disabled u then r = Err invalid_credentials /\ rounds = 1%nat
      else match User.hash u with
           | None => r = Err invalid_credentials /\ rounds = 0%nat
           | Some h =>
               rounds = 1%nat /\
               r = if verify_password (trim p) h
                   then Ok (encode_token (c_secret c)
                              (new_user (c_now c) (c_jti c) id (admin u) (ver u)),
                            summary_of id (admin u) u)
                   else Err invalid_credentials
           end
  end.
Proof.
  intros Hio Hr Hfo. unfold login_sync, UserDb.read, UserDb.load, UserDb.verify. rewrite Hio.
  destruct (load_users_healthy _ _ Hr Hfo) as (st1 & -> & Hr1 & Hfo1). cbn [mbind option_bind result_ok].
  destruct (users !! trim id) as [u|] eqn:Hu; [|done]. destruct (disabled u); [done|].
  destruct (load_users_healthy _ _ Hr1 Hfo1) as (st2 & -> & _). cbn [map_err mbind result_bind UserDb.users].
  rewrite Hu. cbn [mbind option_bind]. destruct (User.hash u) as [h|]; [|done].
  destruct (verify_password (trim p) h); cbn [andb negb]; [|done].
  destruct (negb _); [|done]. by destruct (UserDb.upgrade_password_hash _ _ _ _ _).
Qed.
End Answers.

(** ** Reservations of sign-ins in flight *)
(** The reservations an entry holds. *)
Definition held {E} (fl : E -> N) (m : gmap str E) (k : str) : N :=
  match m !! k with Some e => fl e | None => 0 end.
Abbreviation ip_held t := (held ip_in_flight (ip t)).
Abbreviation user_held t := (held user_in_flight (user t)).

Section Held.
Context {E : Type} (fl : E -> N).

Lemma held_evict (ev : E -> bool) (ls : E -> N) (cap : N) (m : gmap str E) (k : str) : held fl (evict ev ls cap m) k <= held fl m k.
Proof.
  unfold held. destruct (m !! k) as [e|] eqn:Hk.
  - destruct (evict_cases ev ls cap m k e Hk) as [-> | [-> _]]; lia.
  - by rewrite evict_absent.
Qed.
Lemma held_filter (p : E -> bool) (m : gmap str E) (k : str) :
  held fl (filter (fun kv => p kv.2 = true) m) k <= held fl m k.
Proof.
  unfold held. destruct (m !! k) as [e|] eqn:Hk.
  - rewrite (filter_cases p m k e Hk). destruct (p e); lia.
  - by rewrite filter_absent.
Qed.
Lemma held_insert (m : gmap str E) (k : str) (e : E) (k' : str) :
  held fl (<[k := e]> m) k' = if decide (k' = k) then fl e else held fl m k'.
Proof.
  unfold held. destruct (decide (k' = k)) as [->|]; by rewrite ?lookup_insert_eq, ?lookup_insert_ne.
Qed.
Lemma held_alter (f : E -> E) (m : gmap str E) (k k' : str) (d : N) :
  (forall e, fl (f e) <= fl e - d) ->
  held fl (alter f k m) k' <= held fl m k' - if decide (k' = k) then d else 0.
Proof.
  intros Hf. unfold held. destruct (decide (k' = k)) as [->|].
  - rewrite lookup_alter_eq. destruct (m !! k) as [e|]; cbn; [apply Hf|lia].
  - rewrite lookup_alter_ne by done. lia.
Qed.
End Held.

Section Tracker.
Implicit Types (t : LoginThrottle) (i u : str).

(** One for the attempt's own keys; a reservation counts when it is let in. *)
Definition own (mine other : str) : N := if decide (other = mine) then 1 else 0.
Definition let_in (ban : N) (mine other : str) : N :=
  if (ban =? 0) && bool_decide (other = mine) then 1 else 0.
Lemma let_in_refused ban mine other : 0 < ban -> let_in ban mine other = 0.
Proof. intros Hb. unfold let_in. by rewrite (proj2 (N.eqb_neq ban 0)) by lia. Qed.
Lemma let_in_own mine other : let_in 0 mine other = own mine other.
Proof. unfold let_in, own. cbn. case_bool_decide; case_decide; done. Qed.

Lemma reserve_held t i u now i' u' :
  let '(t', ban) := reserve t i u now in
  ip_held t' i' <= ip_held t i' + let_in ban i i' /\
  user_held t' u' <= user_held t u' + let_in ban u u'.
Proof.
  assert (forall n, sat_add_u32 n 1 <= n + 1) as Hsat by (intros n; unfold sat_add_u32; lia).
  unfold reserve. cbv zeta.
  assert (held ip_in_flight (ip t) i = ip_in_flight (ip_entry t i)) as Hi.
  { unfold held, ip_entry. by destruct (ip t !! i). }
  assert (held user_in_flight (user t) u = user_in_flight (user_entry t u)) as Hu.
  { unfold held, user_entry. by destruct (user t !! u). }
  unfold let_in.
  repeat (match goal with |- context [if 0 <? ?x then (_, ?x) else _] =>
    let Hx := fresh in destruct (0 <? x) eqn:Hx; [to_prop;
      rewrite (proj2 (N.eqb_neq x 0)) by lia | clear Hx] end);
    cbn [ip user with_maps]; rewrite !held_insert; cbn [andb N.eqb];
    split; (case_decide as Hd; [subst; rewrite ?bool_decide_eq_true_2 by done|
      rewrite ?bool_decide_eq_false_2 by done]); cbn; rewrite ?Hi, ?Hu; try lia.
  - etrans; [apply Hsat|]. cbn. lia.
  - etrans; [apply Hsat|]. cbn. lia.
Qed.

Lemma sweep_held t now i u :
  ip_held (sweep t now) i <= ip_held t i /\ user_held (sweep t now) u <= user_held t u.
Proof.
  unfold sweep, enforce_caps. cbn [ip user with_maps]. split; (etrans; [apply held_evict|apply held_filter]).
Qed.

(** One less for the attempt's own keys. *)
Lemma release_held t i u i' u' :
  ip_held (release t i u) i' <= ip_held t i' - own i i' /\
  user_held (release t i u) u' <= user_held t u' - own u u'.
Proof. split; (etrans; [apply (held_alter _ _ _ _ _ 1); intros e; cbn; lia|done]). Qed.

Lemma failure_held t i u now i' u' :
  ip_held (record_failure t i u now).1 i' <= ip_held t i' /\
  user_held (record_failure t i u now).1 u' <= user_held t u'.
Proof.
  unfold record_failure, ip_fail, user_fail.
  destruct (Bucket.record_failure (ip_short _) now) as [b1 x1].
  destruct (Bucket.record_failure (ip_long _) now) as [b2 x2].
  destruct (Bucket.record_failure (user_long _) now) as [b3 x3].
  unfold enforce_caps. cbn [fst ip user with_maps].
  split; (etrans; [apply held_evict|]); rewrite held_insert; case_decide; subst; cbn; try done;
    unfold held, ip_entry, user_entry; [destruct (ip t !! i)|destruct (user t !! u)]; cbn; lia.
Qed.

Lemma success_held t i u now i' u' :
  ip_held (record_success t i u now) i' <= ip_held t i' - own i i' /\
  user_held (record_success t i u now) u' <= user_held t u' - own u u'.
Proof.
  unfold record_success. cbn [ip user with_maps]. split.
  - etrans; [apply (held_alter _ _ _ _ _ 1); intros e; cbn; lia|done].
  - unfold held, own. case_decide; subst; rewrite ?lookup_delete_eq, ?lookup_delete_ne by done; lia.
Qed.
End Tracker.

(** *** Interleaved sign-ins *)
Section Interleaving.
Context {Jc : JsonCodec} {Lh : LegacyHash} {Ca : Casing} {Cr : Crypto} {J : Jwt} {Tc : TokenCodec}.
Context {F : Fs} {K : Nfkc} {I : Infer} {D : Dirs} {Uc : Uppercase} {Sc : Sidecars}.

(** A sign-in between its two halves. *)
Record Pending := mkPending {
  p_ctx : Ctx; p_user : str; p_password : str; p_limit : option N
}.
Inductive LoginEvent :=
| LBegin (k : nat) (c : Ctx) (user_id password : str)
| LFinish (k : nat)
| LOther (c : Ctx) (call : Call).

Definition login_event (e : LoginEvent) (w : Server * gmap nat Pending) : Server * gmap nat Pending :=
  let '(s, ps) := w in
  match e with
  | LBegin k c u p =>
      match ps !! k with
      | Some _ => w
      | None =>
          match begin_login c u s with
          | (Ok (id, limit), s') => (s', <[k := mkPending c id p limit]> ps)
          | (Err _, s') => (s', ps)
          end
      end
  | LFinish k =>
      match ps !! k with
      | Some q => ((finish_login (p_ctx q) (p_user q) (p_password q) (p_limit q) s).2, delete k ps)
      | None => w
      end
  | LOther _ (Authenticate _ _) => w
  | LOther c call => ((serve c call s).2, ps)
  end.
Definition login_events (es : list LoginEvent) (w : Server * gmap nat Pending) :=
  fold_left (fun w e => login_event e w) es w.

(** The pending sign-ins from an address, and for a user, that hold a reservation. *)
Definition holds_ip (i : str) (q : Pending) : bool :=
  is_some (p_limit q) && bool_decide (c_ip (p_ctx q) = i).
Definition holds_user (u : str) (q : Pending) : bool :=
  is_some (p_limit q) && bool_decide (p_user q = u).
Definition counted (f : Pending -> bool) (ps : gmap nat Pending) : N :=
  N.of_nat (size (filter (fun kv => f kv.2 = true) ps)).

Lemma holds_ip_own i q : is_some (p_limit q) = true ->
  (if holds_ip i q then 1 else 0) = own (c_ip (p_ctx q)) i.
Proof. intros Hl. unfold holds_ip, own. rewrite Hl. cbn. case_bool_decide; case_decide; congruence. Qed.
Lemma holds_user_own u q : is_some (p_limit q) = true ->
  (if holds_user u q then 1 else 0) = own (p_user q) u.
Proof. intros Hl. unfold holds_user, own. rewrite Hl. cbn. case_bool_decide; case_decide; congruence. Qed.

Lemma counted_insert f ps k q : ps !! k = None ->
  counted f (<[k := q]> ps) = counted f ps + if f q then 1 else 0.
Proof.
  intros Hk. unfold counted. destruct (f q) eqn:Hf.
  - rewrite map_filter_insert_True by done. rewrite map_size_insert_None; [lia|].
    apply map_lookup_filter_None. by left.
  - rewrite map_filter_insert_False by (cbn; congruence). rewrite delete_id by done. lia.
Qed.
Lemma counted_delete f ps k q : ps !! k = Some q ->
  counted f ps = counted f (delete k ps) + if f q then 1 else 0.
Proof.
  intros Hk. rewrite <-(insert_delete_id _ _ _ Hk) at 1. apply counted_insert, lookup_delete_eq.
Qed.

Definition balanced (sch : Schedules) (ps : gmap nat Pending) (s : Server) : Prop :=
  match login_slot s with
  | None => True
  | Some (sch', t) => sch' = sch /\ forall i u,
      ip_held t i <= counted (holds_ip i) ps /\ user_held t u <= counted (holds_user u) ps
  end.
(** The request runs under these schedules, and its blocking task runs. *)
Definition regular (sch : Schedules) (c : Ctx) : Prop := c_schedules c = sch /\ c_join c = Ok tt.
Definition valid (sch : Schedules) : Prop :=
  is_ok (new_throttle (s_ip_short sch) (s_ip_long sch) (s_user_long sch)) = true.

Lemma new_held s l u t : new_throttle s l u = Ok t -> forall i v, ip_held t i = 0 /\ user_held t v = 0.
Proof.
  destruct s as [[[s1 s2] s3] s4], l as [[[l1 l2] l3] l4], u as [[[u1 u2] u3] u4]. unfold new_throttle.
  intros (? & _ & H)%bind_Ok. apply bind_Ok in H as (? & _ & H). apply bind_Ok in H as (? & _ & [= <-]).
  intros i v. unfold held. cbn [ip user]. by rewrite !lookup_empty.
Qed.

(** What [with_login_throttle] does under valid schedules. *)
Lemma throttle_step {A} sch c (f : LoginThrottle -> A * LoginThrottle) ps s :
  valid sch -> c_schedules c = sch -> balanced sch ps s ->
  exists t, (forall i u, ip_held t i <= counted (holds_ip i) ps /\
               user_held t u <= counted (holds_user u) ps) /\
    with_login_throttle c f s = (Ok (f t).1, with_login (Some (sch, (f t).2)) (last_sweep s) s).
Proof.
  intros Hv Hc Hb. unfold with_login_throttle, balanced in *. rewrite Hc.
  destruct (login_slot s) as [[sch' t]|].
  - destruct Hb as [-> Hb]. rewrite bool_decide_eq_true_2 by done. exists t. split; [exact Hb|].
    by destruct (f t).
  - unfold valid in Hv. destruct (new_throttle _ _ _) as [t|] eqn:Ht; [|done]. exists t. split.
    + intros i u. destruct (new_held _ _ _ _ Ht i u) as [-> ->]. lia.
    + by destruct (f t).
Qed.

Lemma balanced_begin sch k c u p s ps : valid sch -> c_schedules c = sch -> ps !! k = None ->
  balanced sch ps s ->
  match begin_login c u s with
  | (Ok (id, limit), s') => balanced sch (<[k := mkPending c id p limit]> ps) s'
  | (Err _, s') => balanced sch ps s'
  end.
Proof.
  intros Hv Hc Hk Hb. unfold begin_login, then_, lift.
  destruct (validate_user_id u) as [id|e]; cbn [map_err]; [|done].
  assert (forall limit s', balanced sch ps s' -> balanced sch (<[k := mkPending c id p limit]> ps) s') as Hmore.
  { intros limit s' Hb'. unfold balanced in *. destruct (login_slot s') as [[sch' t]|]; [|done].
    destruct Hb' as [-> Hb']. split; [done|]. intros i v. destruct (Hb' i v) as [Hi Hu].
    rewrite !counted_insert by done. split; lia. }
  destruct (throttle_now c) as [now|]; [|by apply Hmore].
  set (due := SWEEP_INTERVAL_SECS <=? now - last_sweep s).
  destruct (throttle_step sch c (fun t =>
    let '(t, ban) := reserve (if due then sweep t now else t) (c_ip c) id now in (ban, t)) ps s Hv Hc Hb)
    as (t & Ht & ->).
  set (t1 := if due then sweep t now else t).
  assert (forall i v, ip_held t1 i <= counted (holds_ip i) ps /\
            user_held t1 v <= counted (holds_user v) ps) as Ht1.
  { intros i v. destruct (Ht i v). unfold t1. destruct due; [|done].
    destruct (sweep_held t now i v). split; lia. }
  pose proof (reserve_held t1 (c_ip c) id now) as Hres.
  destruct (reserve t1 (c_ip c) id now) as [t2 ban]. cbn [fst snd].
  destruct (0 <? ban) eqn:Hban; cbn [map_err pure]; to_prop.
  - destruct due; (split; [done|]); intros i v; destruct (Ht1 i v), (Hres i v) as [Hi Hu];
      rewrite let_in_refused in Hi, Hu by done; lia.
  - assert (ban = 0) as -> by lia.
    destruct due; (split; [done|]); intros i v; destruct (Ht1 i v), (Hres i v) as [Hi Hu];
      rewrite let_in_own in Hi, Hu; rewrite !counted_insert, holds_ip_own, holds_user_own by done;
      cbn [p_ctx p_user]; split; lia.
Qed.

Lemma balanced_finish sch k q s ps : valid sch -> regular sch (p_ctx q) -> ps !! k = Some q ->
  balanced sch ps s ->
  balanced sch (delete k ps)
    (finish_login (p_ctx q) (p_user q) (p_password q) (p_limit q) s).2.
Proof.
  intros Hv [Hc Hj] Hk Hb. destruct q as [c id p limit]. cbn [p_ctx p_user p_password p_limit] in *.
  unfold finish_login, blocking, then_, lift. rewrite Hj. cbn [or_raise map_err].
  destruct (login_sync c id p (user_store s)) as [[r st] n]. cbn [map_err].
  set (s1 := with_user_store st s). assert (balanced sch ps s1) as Hb1 by done.
  assert (limit = None -> balanced sch (delete k ps) s1) as Hnone.
  { intros ->. unfold balanced in *. destruct (login_slot s1) as [[sch' t]|]; [|done].
    destruct Hb1 as [-> Hb1]. split; [done|]. intros i u. destruct (Hb1 i u).
    pose proof (counted_delete (holds_ip i) _ _ _ Hk) as Hci.
    pose proof (counted_delete (holds_user u) _ _ _ Hk) as Hcu.
    cbn in Hci, Hcu. split; lia. }
  assert (forall now (g : LoginThrottle -> LoginThrottle) t, limit = Some now ->
    (forall i u, ip_held (g t) i <= ip_held t i - own (c_ip c) i /\
                 user_held (g t) u <= user_held t u - own id u) ->
    (forall i u, ip_held t i <= counted (holds_ip i) ps /\ user_held t u <= counted (holds_user u) ps) ->
    balanced sch (delete k ps) (with_login (Some (sch, g t)) (last_sweep s1) s1)) as Hless.
  { intros now g t -> Hg Ht. split; [done|]. intros i u. destruct (Hg i u), (Ht i u).
    pose proof (counted_delete (holds_ip i) _ _ _ Hk) as Hci.
    pose proof (counted_delete (holds_user u) _ _ _ Hk) as Hcu.
    rewrite holds_ip_own in Hci by done. rewrite holds_user_own in Hcu by done.
    cbn [p_ctx p_user] in Hci, Hcu. split; lia. }
  destruct r as [[token profile]|e]; cbn [map_err].
  - destruct limit as [now|]; [|by apply Hnone].
    destruct (throttle_step sch c (fun t => (tt, record_success t (c_ip c) id now)) ps s1 Hv Hc Hb1)
      as (t & Ht & ->). cbn [fst snd pure].
    apply (Hless now (fun t => record_success t (c_ip c) id now) t eq_refl); [|done].
    intros i u. apply success_held.
  - assert (forall now A (a : LoginThrottle -> A) (g : LoginThrottle -> LoginThrottle) t, limit = Some now ->
      (forall i u, ip_held (g t) i <= ip_held (release t (c_ip c) id) i /\
                   user_held (g t) u <= user_held (release t (c_ip c) id) u) ->
      (forall i u, ip_held t i <= counted (holds_ip i) ps /\ user_held t u <= counted (holds_user u) ps) ->
      balanced sch (delete k ps) (with_login (Some (sch, g t)) (last_sweep s1) s1)) as Hrel.
    { intros now A a g t Hl Hg Ht. apply (Hless now g t Hl); [|done]. intros i u.
      destruct (Hg i u), (release_held t (c_ip c) id i u). split; lia. }
    destruct (bool_decide _), limit as [now|]; try by apply Hnone.
    + destruct (throttle_step sch c (fun t =>
        let '(t, ban) := record_failure (release t (c_ip c) id) (c_ip c) id now in (ban, t)) ps s1 Hv Hc Hb1)
        as (t & Ht & ->).
      pose proof (failure_held (release t (c_ip c) id) (c_ip c) id now) as Hf.
      destruct (record_failure _ _ _ _) as [t' ban] eqn:Hrf. cbn [fst snd] in *.
      pose proof (Hrel now unit (fun _ => tt) (fun _ => t') t eq_refl Hf Ht) as Hb'.
      by destruct (0 <? ban).
    + destruct (throttle_step sch c (fun t => (tt, release t (c_ip c) id)) ps s1 Hv Hc Hb1)
        as (t & Ht & ->). cbn [fst snd].
      by apply (Hrel now unit (fun _ => tt) (fun t => release t (c_ip c) id) t eq_refl).
Qed.
Lemma balanced_unseen sch ps : unseen (balanced sch ps).
Proof. by split. Qed.
Lemma serve_keeps_slot c call P : (forall s s', login_slot s' = login_slot s -> P s -> P s') -> unseen P ->
  match call with Authenticate _ _ => False | _ => True end -> keeps P (serve c call).
Proof.
  intros HP U Hc. destruct call as [u p| |u p|u p i|u p|u b|u b|u b| | |h u| |i|u]; try done;
    try (apply serve_keeps; [exact U| |done]; intros s Hs; by apply (HP s)).
  intros s Hs. apply (HP s); [|done]. cbn [serve]. unfold logout. cbn [snd].
  by repeat case_match.
Qed.

(** The sign-ins an event starts run regularly. *)
Definition regular_event (sch : Schedules) (e : LoginEvent) : Prop :=
  match e with LBegin _ c _ _ => regular sch c | _ => True end.
Definition settled (sch : Schedules) (w : Server * gmap nat Pending) : Prop :=
  balanced sch w.2 w.1 /\ map_Forall (fun _ q => regular sch (p_ctx q)) w.2.

Lemma login_event_settled sch e w : valid sch -> regular_event sch e -> settled sch w ->
  settled sch (login_event e w).
Proof.
  intros Hv He [Hb Hps]. destruct w as [s ps]. cbn [fst snd] in *.
  destruct e as [k c u p|k|c call]; cbn [login_event].
  - destruct (ps !! k) as [q|] eqn:Hk; [done|]. destruct He as [Hsch Hj].
    pose proof (balanced_begin sch k c u p s ps Hv Hsch Hk Hb) as Hb'.
    destruct (begin_login c u s) as [[[id limit]|e] s']; [|done]. split; [exact Hb'|].
    by apply map_Forall_insert_2.
  - destruct (ps !! k) as [q|] eqn:Hk; [|done]. split.
    + apply balanced_finish; [done|by apply (Hps k)|done|done].
    + by apply map_Forall_delete.
  - assert (match call with Authenticate _ _ => False | _ => True end ->
      settled sch ((serve c call s).2, ps)) as Hother.
    { intros Hc. split; [|done]. refine (serve_keeps_slot c call (balanced sch ps) _ _ Hc s Hb).
      - intros s1 s2 Hl. unfold balanced. cbn [fst snd]. by rewrite Hl.
      - apply balanced_unseen. }
    destruct call; first [exact (Hother Logic.I)|done].
Qed.

(** The tracker never holds more reservations, for an address or for a user, than
    sign-ins that are between their two halves: whatever the interleaving of the
    halves with each other and with other requests, each reservation a finished
    sign-in made has been given back.  So once none is pending the address and the
    user have all of their slots again, and concurrent attempts cannot lock anyone
    out for longer than they run. *)
Theorem no_slot_leaks sch es s :
  valid sch -> balanced sch ∅ s -> Forall (regular_event sch) es ->
  let '(s', ps) := login_events es (s, ∅) in
  balanced sch ps s' /\
  (ps = ∅ -> forall t, login_slot s' = Some (sch, t) -> forall i u, ip_held t i = 0 /\ user_held t u = 0).
Proof.
  intros Hv Hb Hes. assert (settled sch (login_events es (s, ∅))) as [Hb' _].
  { assert (settled sch (s, ∅)) as H0 by (split; [done|apply map_Forall_empty]).
    unfold login_events. revert H0. generalize (s, ∅ : gmap nat Pending).
    induction Hes as [|e es He _ IH]; intros w Hw; [done|]. cbn [fold_left].
    by apply IH, login_event_settled. }
  destruct (login_events es (s, ∅)) as [s' ps]. split; [done|]. intros -> t Ht i u.
  unfold balanced in Hb'. cbn [fst snd] in Hb'. rewrite Ht in Hb'. destruct Hb' as [_ Hle].
  destruct (Hle i u) as [Hi Hu]. unfold counted in *. rewrite !map_filter_empty, !map_size_empty in *. lia.
Qed.

(** A sign-in whose blocking task fails answers an error and stops in the state the
    reservation made: the slots of the address and of the user stay taken. *)
Theorem failed_join_keeps_slot c id p why s name now s1 :
  begin_login c id s = (Ok (name, Some now), s1) -> c_join c = Err why ->
  exists e, authenticate c id p s = (Err (Failed e), s1).
Proof.
  intros Hb Hj. unfold authenticate, then_. rewrite Hb. unfold finish_login, then_, blocking.
  rewrite Hj. by eexists.
Qed.
End Interleaving.

(** ** Witnesses *)
Module LoginWitness.
Import ServerWitness.
Import (hints) ServerWitness.
Import (hints) HomeWitness.
Import (hints) PathWitness.
Import (hints) TokenWitness.
Definition sign_in : Call := Authenticate UserWitness.alice (lit "x").
(** The state after the sign-in, and the cookie it set. *)
Definition signed_in : Server := (serve ctx sign_in solo).2.
Definition cookie : str := AuthWitness.token.
Definition later : Ctx := ctx_at 1700000001000 (AuthWitness.visit [] (Some cookie)) (lit "jti2") (Ok tt).

Lemma sign_in_ok :
  serve ctx sign_in solo = (Ok (SignedIn cookie (mkSummary UserWitness.alice true false true)), signed_in).
Proof.
  unfold signed_in. assert ((serve ctx sign_in solo).1
    = Ok (SignedIn cookie (mkSummary UserWitness.alice true false true))) as H by (vm_compute; reflexivity).
  destruct (serve ctx sign_in solo) as [r s]. cbn [fst snd] in *. by subst.
Qed.

(** Two attempts for the same user, interleaved, and a request in between. *)
Definition history : list LoginEvent :=
  [LBegin 0 ctx UserWitness.alice (lit "x"); LBegin 1 ctx UserWitness.alice (lit "wrong");
   LOther later Profile; LFinish 1; LFinish 0].
End LoginWitness.
Import ServerWitness LoginWitness.
Import (hints) ServerWitness.
Import (hints) HomeWitness.
Import (hints) PathWitness.
Import (hints) TokenWitness.

Lemma admins_only_from_admins_witness : exists users',
  reads (user_store (serve later (SetAdmin UserWitness.bob true) ServerWitness.solo).2) users' /\ has_admin users'.
Proof.
  destruct (admins_only_from_admins later (SetAdmin UserWitness.bob true) ServerWitness.solo
    AuthWitness.solo AuthWitness.solo_reads) as (users' & Hr & _ & Ha).
  exists users'. split; [exact Hr|]. apply Ha. exists UserWitness.alice. eexists.
  split; [apply lookup_singleton_eq|reflexivity].
Defined.

Lemma no_escalation_witness : exists users',
  reads (user_store (serve_all [(ctx, sign_in); (ctx, SetAdmin UserWitness.bob true)] ServerWitness.solo)) users' /\
  forall id u', users' !! id = Some u' -> admin u' = true -> exists u, AuthWitness.solo !! id = Some u /\ admin u = true.
Proof.
  destruct (no_escalation [(ctx, sign_in); (ctx, SetAdmin UserWitness.bob true)] ServerWitness.solo
    AuthWitness.solo AuthWitness.solo_reads) as (users' & Hr & _ & H).
  exists users'. split; [exact Hr|]. apply H.
  repeat (split; [vm_compute; reflexivity|]). exact Logic.I.
Defined.

Lemma login_opens_session_witness :
  user_claims later signed_in
    = Ok (new_user 1700000000000 (lit "jti") UserWitness.alice true 0).
Proof.
  destruct (login_opens_session ctx UserWitness.alice (lit "x") ServerWitness.solo AuthWitness.solo
    cookie _ signed_in AuthWitness.solo_reads sign_in_ok) as (name & u & Hid & Hc & _ & H).
  assert (validate_user_id UserWitness.alice = Ok UserWitness.alice) as Hid' by (vm_compute; reflexivity).
  assert (name = UserWitness.alice) as -> by congruence. clear Hid Hid'.
  pose proof (cred_record _ _ _ _ Hc) as Hu. unfold AuthWitness.solo in Hu.
  change (trim UserWitness.alice) with UserWitness.alice in Hu. rewrite lookup_singleton_eq in Hu.
  injection Hu as <-. refine (H later eq_refl _ eq_refl eq_refl _ _);
    [vm_compute; reflexivity|vm_compute; discriminate|vm_compute; reflexivity].
Defined.

Lemma logout_closes_session_witness :
  no_session (view later (serve_all [(later, Profile)] (serve later Logout signed_in).2)) 1700000001000
    (c_request later).
Proof.
  refine (logout_closes_session later AuthWitness.session UserWitness.alice true [(later, Profile)] signed_in
    later 1700000001 eq_refl _ eq_refl eq_refl eq_refl _ _ _ eq_refl eq_refl _ eq_refl).
  - split_and!; vm_compute; (done || discriminate || reflexivity).
  - vm_compute; discriminate.
  - vm_compute; reflexivity.
  - constructor; [|constructor]. split; [vm_compute; discriminate|]. intros token claims [= <-] Hd _.
    assert (Ok claims = Ok (E:=str) AuthWitness.session) as [= ->]
      by exact (eq_trans (eq_sym Hd) AuthWitness.token_decodes).
    vm_compute. reflexivity.
  - vm_compute; discriminate.
Defined.

Lemma login_refusals_uniform_witness :
  (login_sync ctx UserWitness.bob (lit "x") UserWitness.st).1.1 = Err invalid_credentials.
Proof.
  pose proof (login_refusals_uniform ctx UserWitness.bob (lit "x") UserWitness.st UserWitness.team
    eq_refl UserWitness.st_reads eq_refl) as H.
  destruct (login_sync _ _ _ _) as [[r st] n]. change (trim UserWitness.bob) with UserWitness.bob in H.
  rewrite UserWitness.team_bob in H. exact (proj1 H).
Defined.

Lemma no_slot_leaks_witness :
  let '(s', ps) := login_events history (ServerWitness.solo, ∅) in balanced schedules ps s'.
Proof.
  pose proof (no_slot_leaks schedules history ServerWitness.solo) as H.
  destruct (login_events history (ServerWitness.solo, ∅)) as [s' ps].
  refine (proj1 (H eq_refl Logic.I _)). repeat constructor.
Defined.

Lemma failed_join_keeps_slot_witness : exists e s1,
  authenticate (ctx_at 1700000000000 visitor (lit "jti") (Err (lit "panic"))) UserWitness.alice (lit "x")
    ServerWitness.solo = (Err (Failed e), s1).
Proof.
  destruct (begin_login (ctx_at 1700000000000 visitor (lit "jti") (Err (lit "panic"))) UserWitness.alice
    ServerWitness.solo) as [[[name limit]|e] s1] eqn:Hb.
  - assert (limit = Some 1700000000) as ->.
    { apply (f_equal fst) in Hb. vm_compute in Hb. by injection Hb as _ <-. }
    destruct (failed_join_keeps_slot _ _ (lit "x") (lit "panic") _ _ _ _ Hb eq_refl) as [e He].
    exists e, s1. exact He.
  - exfalso. apply (f_equal fst) in Hb. vm_compute in Hb. discriminate.
Defined.
