(* ===== verification/Observe.v ===== *)
(** * Observe: the timing record of the tree and snapshot pipeline
      ([backend/src/tasks/observe.rs])

    Every stage has a ring of its last samples, a count of operations in flight and
    two rate-limited reports: a slow sample (breach) and samples overwritten (wrap).
    The recorder is modelled with whole calls as steps; the section on one slot
    below takes the protocol of its stamps apart, one atomic access at a time. *)

From S2P Require Import Prelude.

(** ** Stages *)
Inductive Stage :=
  | FilterSnapshotClone | FilterParIter | ComputeLocate | TreeRefreshTotal
  | TreeRefreshBuild | TreeRefreshSort | TreeRefreshWriteWait | CpuPermitWait
  | CpuExec | PrefetchTotal | BlockingQueueWait | InteractiveExec.
#[export] Instance Stage_eq_dec : EqDecision Stage.
Proof. solve_decision. Defined.

Definition ALL : list Stage :=
  [FilterSnapshotClone; FilterParIter; ComputeLocate; TreeRefreshTotal;
   TreeRefreshBuild; TreeRefreshSort; TreeRefreshWriteWait; CpuPermitWait;
   CpuExec; PrefetchTotal; BlockingQueueWait; InteractiveExec].

Definition stage_name (st : Stage) : str :=
  match st with
  | FilterSnapshotClone => lit "filter_snapshot_clone"
  | FilterParIter => lit "filter_par_iter"
  | ComputeLocate => lit "compute_locate"
  | TreeRefreshTotal => lit "tree_refresh_total"
  | TreeRefreshBuild => lit "tree_refresh_build"
  | TreeRefreshSort => lit "tree_refresh_sort"
  | TreeRefreshWriteWait => lit "tree_refresh_write_wait"
  | CpuPermitWait => lit "cpu_permit_wait"
  | CpuExec => lit "cpu_exec"
  | PrefetchTotal => lit "prefetch_total"
  | BlockingQueueWait => lit "blocking_queue_wait"
  | InteractiveExec => lit "interactive_exec"
  end.

Definition threshold_us (st : Stage) : N :=
  match st with
  | FilterSnapshotClone => 10000
  | FilterParIter => 50000
  | ComputeLocate => 25000
  | TreeRefreshTotal => 250000
  | TreeRefreshBuild => 150000
  | TreeRefreshSort => 100000
  | TreeRefreshWriteWait => 20000
  | CpuPermitWait => 25000
  | CpuExec => 1000000
  | PrefetchTotal => 1000000
  | BlockingQueueWait => 50000
  | InteractiveExec => 500000
  end.

(** ** The ring of a stage *)
Definition RING_CAPACITY : N := 256.
Definition REPORT_INTERVAL_MS : N := 5000.

Record Sample := mkSample { duration_us : N; timestamp_ms : N; context : N }.
Record RingSlot := mkSlot { seq : N; s_duration : N; s_timestamp : N; s_context : N }.
Record StageRing := mkRing { slots : list RingSlot; write_index : N; samples : N }.

Definition new_ring : StageRing := mkRing (replicate 256 (mkSlot 0 0 0 0)) 0 0.

(** What one whole push leaves in its slot. *)
Definition publish (x : Sample) (s : RingSlot) : RingSlot :=
  mkSlot (wrapping_add_u64 (seq s) 2) (duration_us x) (timestamp_ms x) (context x).
Definition push (x : Sample) (r : StageRing) : bool * StageRing :=
  let index := N.to_nat (write_index r mod RING_CAPACITY) in
  (RING_CAPACITY <=? samples r,
   mkRing (alter (publish x) index (slots r))
     (wrapping_add_u64 (write_index r) 1) (wrapping_add_u64 (samples r) 1)).
Definition clear (r : StageRing) : StageRing :=
  mkRing ((fun s => mkSlot 0 (s_duration s) (s_timestamp s) (s_context s)) <$> slots r) 0 0.
Definition read_slot (s : RingSlot) : option N :=
  if (seq s =? 0) || negb (seq s mod 2 =? 0) then None else Some (s_duration s).
Definition durations (r : StageRing) : list N := omap read_slot (slots r).

(** ** The state of a stage and of the recorder *)
Record StageState := mkStage {
  ring : StageRing;
  in_flight : N;
  breaches : N;
  last_report_ms : N;
  wraps : N;
  last_wrap_report_ms : N;
}.
Definition new_stage : StageState := mkStage new_ring 0 0 0 0 0.

Record StageSummary := mkSummary {
  sum_samples : nat;
  sum_recorded : N;
  p50_us : N;
  p95_us : N;
  max_us : N;
  sum_in_flight : N;
  sum_breaches : N;
}.

(** The array of stages is read and written through a stage's index only. *)
Definition Recorder := Stage -> StageState.
Definition new_recorder : Recorder := fun _ => new_stage.
Definition at_stage (st : Stage) (g : StageState -> StageState) (r : Recorder) : Recorder :=
  fun st' => if decide (st' = st) then g (r st') else r st'.

Definition set_in_flight (n : N) (c : StageState) : StageState :=
  mkStage (ring c) n (breaches c) (last_report_ms c) (wraps c) (last_wrap_report_ms c).
Definition enter (st : Stage) : Recorder -> Recorder :=
  at_stage st (fun c => set_in_flight (wrapping_add_u64 (in_flight c) 1) c).
Definition leave (st : Stage) : Recorder -> Recorder :=
  at_stage st (fun c => set_in_flight (wrapping_add_u64 (in_flight c) u64_max) c).

Inductive Report := Breach | Wrap (pending : N).

Definition report_due (last now : N) : bool := REPORT_INTERVAL_MS <=? now - last.
(** The claim with the new value of the stamp; a whole call is never overtaken, so
    the exchange succeeds. *)
Definition claim_report (last now : N) : bool * N :=
  if negb (report_due last now) then (false, last)
  else if now - last <? REPORT_INTERVAL_MS then (false, last)
  else (true, now).

Definition pushed (x : Sample) (c : StageState) : StageState :=
  let (wrapped, g) := push x (ring c) in
  mkStage g (in_flight c) (breaches c) (last_report_ms c)
    (if wrapped then wrapping_add_u64 (wraps c) 1 else wraps c) (last_wrap_report_ms c).
Definition report_breach (st : Stage) (duration now : N) (c : StageState) : bool * StageState :=
  if threshold_us st <=? duration then
    let (claimed, last) := claim_report (last_report_ms c) now in
    (claimed, mkStage (ring c) (in_flight c)
                (if claimed then wrapping_add_u64 (breaches c) 1 else breaches c) last
                (wraps c) (last_wrap_report_ms c))
  else (false, c).
Definition report_wrap (now : N) (c : StageState) : option Report * StageState :=
  if (0 <? breaches c) && (0 <? wraps c) then
    let (claimed, last) := claim_report (last_wrap_report_ms c) now in
    (if claimed then Some (Wrap (wraps c)) else None,
     mkStage (ring c) (in_flight c) (breaches c) (last_report_ms c)
       (if claimed then 0 else wraps c) last)
  else (None, c).
Definition record_cell (st : Stage) (x : Sample) (now : N) (c : StageState) : option Report * StageState :=
  let (breach, c1) := report_breach st (duration_us x) now (pushed x c) in
  if breach then (Some Breach, c1) else report_wrap now c1.
Definition record_at (st : Stage) (x : Sample) (now : N) (r : Recorder) : option Report * Recorder :=
  let (rep, c) := record_cell st x now (r st) in (rep, at_stage st (fun _ => c) r).

Definition reset_cell (c : StageState) : StageState := mkStage (clear (ring c)) (in_flight c) 0 0 0 0.
Definition reset (r : Recorder) : Recorder := fun st => reset_cell (r st).

(** [percentile] of a sorted list, [sort_unstable] of numbers. *)
Definition percentile (sorted : list N) (pct : nat) : N :=
  match sorted with
  | [] => 0
  | _ => let last := (length sorted - 1)%nat in
         let index := ((last * pct + 50) / 100)%nat in
         default 0 (sorted !! (index `min` last)%nat)
  end.
Definition sort (l : list N) : list N := merge_sort N.le l.

Definition summary (c : StageState) : StageSummary :=
  let d := sort (durations (ring c)) in
  mkSummary (length d) (samples (ring c)) (percentile d 50) (percentile d 95) (default 0 (last d))
    (in_flight c) (breaches c).
Definition snapshot (r : Recorder) : Stage -> StageSummary := fun st => summary (r st).

(** [{:<22}] and [{:>8}]. *)
Definition pad_right (w : nat) (s : str) : str := s ++ replicate (w - length s) 32.
Definition pad_left (w : nat) (s : str) : str := replicate (w - length s) 32 ++ s.
Definition table (snap : Stage -> StageSummary) : str :=
  lit "  stage                     n   p50_us   p95_us    max_us" ++ [10] ++
  concat ((fun st =>
    let s := snap st in
    lit "  " ++ pad_right 22 (stage_name st) ++ lit " " ++ pad_left 3 (show_N (N.of_nat (sum_samples s))) ++
    lit " " ++ pad_left 8 (show_N (p50_us s)) ++ lit " " ++ pad_left 8 (show_N (p95_us s)) ++
    lit " " ++ pad_left 8 (show_N (max_us s)) ++ [10]) <$> ALL).
(** The text of the report, before the context is put in front, and the recorder after it. *)
Definition drain_report (r : Recorder) : str * Recorder := (table (snapshot r), reset r).

(** ** Timers *)
Record Timer := mkTimer { t_stage : option Stage; t_start : N }.

Definition elapsed_us (start now : N) : N := N.min (now - start) u64_max.
Definition timer_start (st : Stage) (now : N) (r : Recorder) : Timer * Recorder :=
  (mkTimer (Some st) now, enter st r).
(** [Drop] of a timer; a finished timer has no stage left. *)
Definition timer_drop (t : Timer) (r : Recorder) : Recorder :=
  match t_stage t with Some st => leave st r | None => r end.
(** [finish]: the report made, the recorder after the emptied timer is dropped. *)
Definition timer_finish (t : Timer) (ctx now wall mono : N) (r : Recorder) : option Report * Recorder :=
  let d := elapsed_us (t_start t) now in
  match t_stage t with
  | None => (None, timer_drop t r)
  | Some st =>
      let (rep, r') := record_at st (mkSample d wall ctx) mono (leave st r) in
      (rep, timer_drop (mkTimer None (t_start t)) r')
  end.
(** [timed]: the work under a timer. *)
Definition timed {A} (st : Stage) (ctx start now wall mono : N) (f : Recorder -> A * Recorder) (r : Recorder)
    : A * Recorder :=
  let (t, r1) := timer_start st start r in
  let (out, r2) := f r1 in
  (out, (timer_finish t ctx now wall mono r2).2).

(** ** Histories of a recorder *)
Inductive Op := Entered (st : Stage) | Left (st : Stage) | Recorded (st : Stage) (x : Sample) (now : N) | WasReset.

Definition apply (o : Op) (r : Recorder) : option Report * Recorder :=
  match o with
  | Entered st => (None, enter st r)
  | Left st => (None, leave st r)
  | Recorded st x now => record_at st x now r
  | WasReset => (None, reset r)
  end.
Definition after (ops : list Op) : Recorder := foldl (fun r o => (apply o r).2) new_recorder ops.

(** The durations recorded for a stage since the last reset. *)
Definition since_reset (st : Stage) (ops : list Op) : list N :=
  foldl (fun l o => match o with
                    | Recorded st' x _ => if decide (st' = st) then l ++ [duration_us x] else l
                    | WasReset => []
                    | _ => l
                    end) [] ops.
Definition last_n {A} (n : nat) (l : list A) : list A := drop (length l - n) l.

Lemma after_snoc ops o : after (ops ++ [o]) = (apply o (after ops)).2.
Proof. unfold after. by rewrite foldl_app. Qed.

Lemma since_reset_snoc st ops o :
  since_reset st (ops ++ [o]) =
  match o with
  | Recorded st' x _ => if decide (st' = st) then since_reset st ops ++ [duration_us x] else since_reset st ops
  | WasReset => []
  | _ => since_reset st ops
  end.
Proof. unfold since_reset. by rewrite foldl_app. Qed.

Lemma since_reset_length st ops : (length (since_reset st ops) <= length ops)%nat.
Proof.
  induction ops as [|o ops IH] using rev_ind; [done|].
  rewrite since_reset_snoc, length_app. destruct o; [| |case_decide|]; rewrite ?length_app; cbn; lia.
Qed.

Lemma at_stage_eq st g r : at_stage st g r st = g (r st).
Proof. unfold at_stage. by rewrite decide_True. Qed.
Lemma at_stage_ne st st' g r : st' <> st -> at_stage st g r st' = r st'.
Proof. intros. unfold at_stage. by rewrite decide_False. Qed.

(** *** The ring is a window on the history *)
(** A ring after the pushes [h] (oldest first) since it was cleared: its slots are the
    last [256] entries, rotated so that the next one to go is at the write index. *)
Definition slot_fresh (n : N) (s : RingSlot) : Prop := seq s mod 2 = 0 /\ seq s <= 2 * n.
Record Window (h : list N) (g : StageRing) : Prop := {
  w_index : write_index g = N.of_nat (length h);
  w_samples : samples g = N.of_nat (length h);
  w_fresh : Forall (slot_fresh (N.of_nat (length h))) (slots g);
  w_rotated : exists a b, last_n 256 (replicate 256 None ++ (Some <$> h)) = a ++ b /\
      read_slot <$> slots g = b ++ a /\ length b = N.to_nat (N.of_nat (length h) mod 256);
}.

Lemma last_n_length {A} n (l : list A) : length (last_n n l) = (n `min` length l)%nat.
Proof. unfold last_n. rewrite length_drop. lia. Qed.

Lemma last_n_snoc {A} n (l : list A) x :
  (0 < n)%nat -> (n <= length l)%nat -> last_n n (l ++ [x]) = drop 1 (last_n n l) ++ [x].
Proof.
  intros Hn Hl. unfold last_n. rewrite length_app, drop_drop. cbn.
  rewrite drop_app_le; [|lia]. do 2 f_equal. lia.
Qed.

Lemma window_new : Window [] new_ring.
Proof.
  split; [done..| |].
  - apply Forall_replicate. split; [done|]. cbn. lia.
  - by exists (replicate 256 None), [].
Qed.

Lemma window_clear h g : Window h g -> Window [] (clear g).
Proof.
  intros [_ _ _ (a & b & Hw & Hs & _)]. split; [done..| |].
  - apply Forall_fmap, Forall_true. intros s. split; [done|]. cbn. lia.
  - exists (replicate 256 None), []. split_and!; [done| |done]. cbn [clear slots app].
    rewrite <-list_fmap_compose. apply (f_equal length) in Hs, Hw.
    rewrite length_fmap, length_app in Hs.
    rewrite last_n_length, !length_app, length_replicate in Hw.
    assert (length (slots g) = 256%nat) as Hl by lia. clear Hs Hw.
    rewrite <-Hl. generalize (slots g). clear. intros l. induction l; cbn; [done|]. f_equal. exact IHl.
Qed.

Lemma read_publish (n : N) (x : Sample) (s : RingSlot) :
  slot_fresh n s -> n < 4611686018427387904 ->
  read_slot (publish x s) = Some (duration_us x) /\ slot_fresh (n + 1) (publish x s).
Proof.
  intros [He Hl] Hn. unfold read_slot, slot_fresh, publish, wrapping_add_u64. cbn [seq s_duration].
  rewrite (N.mod_small (seq s + 2)); [|lia].
  assert ((seq s + 2) mod 2 = 0) as Hm.
  { rewrite <-N.Div0.add_mod_idemp_l, He. done. }
  rewrite Hm. destruct (seq s + 2 =? 0) eqn:E; [apply N.eqb_eq in E; lia|]. split_and!; [done..|lia].
Qed.

Lemma window_push (h : list N) (x : Sample) (g : StageRing) :
  Window h g -> N.of_nat (length h) < 4611686018427387904 ->
  Window (h ++ [duration_us x]) (push x g).2.
Proof.
  intros [Hi Hs Hf (a & b & Hw & Hr & Hb)] Hn.
  assert (N.of_nat (length (h ++ [duration_us x])) = N.of_nat (length h) + 1) as Hlen
    by (rewrite length_app; cbn; lia).
  assert (length a + length b = 256)%nat as Hab.
  { apply (f_equal length) in Hw. rewrite last_n_length, !length_app, length_replicate in Hw. lia. }
  assert (length b < 256)%nat as Hb'.
  { rewrite Hb. pose proof (N.mod_lt (N.of_nat (length h)) 256). lia. }
  destruct a as [|v a]; [cbn in Hab; lia|].
  assert (exists s0, slots g !! length b = Some s0 /\ slot_fresh (N.of_nat (length h)) s0) as (s0 & Hs0 & Hf0).
  { apply (f_equal (.!! length b)) in Hr. rewrite list_lookup_fmap, lookup_app_r in Hr; [|done].
    rewrite Nat.sub_diag in Hr. destruct (slots g !! length b) eqn:E; [|done].
    eexists. split; [done|]. exact (Forall_lookup_1 _ _ _ _ Hf E). }
  destruct (read_publish _ x _ Hf0 Hn) as [Hrd Hfr].
  split; cbn [push snd write_index samples slots].
  - rewrite Hi, Hlen. unfold wrapping_add_u64. apply N.mod_small. lia.
  - rewrite Hs, Hlen. unfold wrapping_add_u64. apply N.mod_small. lia.
  - rewrite Hlen, Hi. change RING_CAPACITY with 256. rewrite <-Hb.
    apply Forall_lookup. intros i s. destruct (decide (i = length b)) as [->|Hne].
    + rewrite list_lookup_alter_eq, Hs0. intros [= <-]. exact Hfr.
    + rewrite list_lookup_alter_ne; [|done]. intros Hl.
      pose proof (Forall_lookup_1 _ _ _ _ Hf Hl) as [? ?]. split; [done|lia].
  - rewrite Hi. change RING_CAPACITY with 256. rewrite <-Hb.
    assert (read_slot <$> alter (publish x) (length b) (slots g) = b ++ Some (duration_us x) :: a) as Hr'.
    { apply list_eq. intros i. destruct (decide (i = length b)) as [->|Hne].
      - rewrite list_lookup_fmap, list_lookup_alter_eq, Hs0, lookup_app_r, Nat.sub_diag; [|done]. cbn. by rewrite Hrd.
      - rewrite list_lookup_fmap, list_lookup_alter_ne, <-list_lookup_fmap, Hr; [|done].
        destruct (decide (i < length b)%nat).
        + by rewrite !lookup_app_l.
        + rewrite !lookup_app_r; [|lia..]. destruct (i - length b)%nat eqn:E; [lia|done]. }
    rewrite fmap_app. change (Some <$> [duration_us x]) with [Some (duration_us x)].
    rewrite app_assoc, last_n_snoc; [|lia|rewrite length_app, length_replicate; lia].
    rewrite Hw, Hr', Hlen. cbn [app drop].
    assert (N.to_nat ((N.of_nat (length h) + 1) mod 256) = if decide (length a = 0)%nat then 0%nat else (length b + 1)%nat) as Hmod.
    { pose proof (N.mod_lt (N.of_nat (length h)) 256).
      rewrite <-N.Div0.add_mod_idemp_l. cbn in Hab. case_decide.
      - replace (N.of_nat (length h) mod 256) with 255 by lia. done.
      - rewrite N.mod_small; lia. }
    rewrite Hmod. case_decide as Ha.
    + destruct a; [|done]. exists (b ++ [Some (duration_us x)]), []. split_and!; [by rewrite app_nil_r|done..].
    + exists a, (b ++ [Some (duration_us x)]). rewrite length_app. split_and!; [by rewrite app_assoc| |done].
      by rewrite <-app_assoc.
Qed.

Lemma window_durations (h : list N) (g : StageRing) : Window h g -> Permutation (durations g) (last_n 256 h).
Proof.
  intros [_ _ _ (a & b & Hw & Hr & _)]. unfold durations.
  assert (omap read_slot (slots g) = omap id (read_slot <$> slots g)) as ->.
  { generalize (slots g) as l. intros l. induction l as [|s l IH]; [done|]. cbn. destruct (read_slot s); cbn; by rewrite IH. }
  assert (forall l : list N, omap id (Some <$> l) = l) as Hid.
  { induction l; [done|]. cbn. by f_equal. }
  rewrite Hr, omap_app, Permutation_app_comm, <-omap_app, <-Hw.
  unfold last_n. rewrite length_app, length_replicate, length_fmap.
  replace (256 + length h - 256)%nat with (length h) by lia.
  destruct (decide (length h <= 256)%nat).
  - rewrite drop_app_le; [|rewrite length_replicate; lia]. rewrite omap_app, Hid.
    replace (length h - 256)%nat with 0%nat by lia. rewrite drop_0, drop_replicate.
    generalize (256 - length h)%nat as k. intros k. by induction k.
  - rewrite drop_app_ge; [|rewrite length_replicate; lia]. rewrite length_replicate, <-fmap_drop, Hid. done.
Qed.

(** *** What one call does to a stage *)
Lemma record_cell_fields st x now c :
  let (rep, c') := record_cell st x now c in
  ring c' = (push x (ring c)).2 /\ in_flight c' = in_flight c /\
  (rep = Some Breach ->
     last_report_ms c + REPORT_INTERVAL_MS <= now /\ last_report_ms c' = now /\
     last_wrap_report_ms c' = last_wrap_report_ms c) /\
  (forall k, rep = Some (Wrap k) ->
     last_wrap_report_ms c + REPORT_INTERVAL_MS <= now /\ last_wrap_report_ms c' = now /\
     last_report_ms c' = last_report_ms c) /\
  (rep = None -> last_report_ms c' = last_report_ms c /\ last_wrap_report_ms c' = last_wrap_report_ms c).
Proof.
  unfold record_cell, report_breach, report_wrap, pushed, claim_report, report_due, REPORT_INTERVAL_MS.
  destruct (push x (ring c)) as [wrapped g]. cbn [ring in_flight breaches last_report_ms wraps last_wrap_report_ms snd].
  split_matches; cbn [ring in_flight breaches last_report_ms wraps last_wrap_report_ms snd] in *; simplify_eq;
    split_and!; try done; to_prop; try (intros; simplify_eq; split_and!; try done; lia).
Qed.

Lemma record_cell_counts st x now c :
  wraps c < u64_max -> breaches c < u64_max ->
  let (rep, c') := record_cell st x now c in
  breaches c' = breaches c + (if rep is Some Breach then 1 else 0) /\
  wraps c' + (if rep is Some (Wrap k) then k else 0) =
    wraps c + (if RING_CAPACITY <=? samples (ring c) then 1 else 0).
Proof.
  unfold u64_max. intros Hw Hb.
  unfold record_cell, report_breach, report_wrap, pushed, push, wrapping_add_u64.
  destruct (claim_report (last_report_ms c) now) as [b1 l1] eqn:E1.
  destruct (claim_report (last_wrap_report_ms c) now) as [b2 l2] eqn:E2.
  cbn [ring in_flight breaches last_report_ms wraps last_wrap_report_ms].
  rewrite !(N.mod_small (wraps c + 1)), !(N.mod_small (breaches c + 1)) by lia.
  destruct (RING_CAPACITY <=? samples (ring c)), (threshold_us st <=? duration_us x), b1, b2;
    cbn [ring in_flight breaches last_report_ms wraps last_wrap_report_ms]; rewrite ?E2;
    split_matches; split; lia.
Qed.

(** The reports of a stage since the last reset, oldest first. *)
Definition reports_since (st : Stage) (ops : list Op) : list Report :=
  (foldl (fun '(r, l) o =>
     let (rep, r') := apply o r in
     (r', match o with
          | Recorded st' _ _ => if decide (st' = st) then l ++ option_list rep else l
          | WasReset => []
          | _ => l
          end)) (new_recorder, []) ops).2.
Fixpoint breach_count (l : list Report) : N :=
  match l with [] => 0 | Breach :: l' => breach_count l' + 1 | Wrap _ :: l' => breach_count l' end.
Fixpoint wrap_count (l : list Report) : N :=
  match l with [] => 0 | Breach :: l' => wrap_count l' | Wrap k :: l' => wrap_count l' + k end.

Lemma reports_since_snoc st ops o :
  reports_since st (ops ++ [o]) =
  match o with
  | Recorded st' _ _ =>
      if decide (st' = st) then reports_since st ops ++ option_list (apply o (after ops)).1
      else reports_since st ops
  | WasReset => []
  | _ => reports_since st ops
  end.
Proof.
  unfold reports_since, after. rewrite foldl_app.
  set (F := fun '(r, l) o => _). set (p := foldl F _ ops).
  assert (p.1 = foldl (fun r o => (apply o r).2) new_recorder ops) as <-.
  { unfold p. generalize (@nil Report) as l, new_recorder as r. induction ops as [|o' ops IH]; [done|].
    intros l r. cbn [foldl]. unfold F at 2. destruct (apply o' r). by rewrite IH. }
  destruct p as [r l]. cbn [foldl fst snd]. unfold F. destruct (apply o r). cbn. by destruct o.
Qed.

Lemma breach_count_app l l' : breach_count (l ++ l') = breach_count l + breach_count l'.
Proof. induction l as [|[] l IH]; cbn [breach_count wrap_count app]; rewrite ?IH; lia. Qed.
Lemma wrap_count_app l l' : wrap_count (l ++ l') = wrap_count l + wrap_count l'.
Proof. induction l as [|[] l IH]; cbn [breach_count wrap_count app]; rewrite ?IH; lia. Qed.

Lemma apply_cell o st r :
  (apply o r).2 st =
  match o with
  | Entered st' => if decide (st = st') then set_in_flight (wrapping_add_u64 (in_flight (r st)) 1) (r st) else r st
  | Left st' => if decide (st = st') then set_in_flight (wrapping_add_u64 (in_flight (r st)) u64_max) (r st) else r st
  | Recorded st' x now => if decide (st = st') then (record_cell st' x now (r st)).2 else r st
  | WasReset => reset_cell (r st)
  end.
Proof.
  destruct o as [st'|st'|st' x now|]; cbn [apply]; [unfold enter, at_stage| unfold leave, at_stage | unfold record_at |done]; try done.
  destruct (decide (st = st')) as [->|Hne]; destruct (record_cell st' x now (r st')) as [rep c] eqn:E; cbn [snd].
  - by rewrite at_stage_eq.
  - by rewrite at_stage_ne.
Qed.

Lemma apply_report st x now r : (apply (Recorded st x now) r).1 = (record_cell st x now (r st)).1.
Proof. cbn. unfold record_at. by destruct (record_cell st x now (r st)). Qed.

(** The ring of a stage is the window on what was recorded since the last reset. *)
Lemma ring_window st ops :
  N.of_nat (length ops) <= 4611686018427387904 -> Window (since_reset st ops) (ring (after ops st)).
Proof.
  induction ops as [|o ops IH] using rev_ind; intros Hl; [exact window_new|].
  rewrite length_app in Hl. cbn in Hl.
  assert (Window (since_reset st ops) (ring (after ops st))) as Hw by (apply IH; lia). clear IH.
  rewrite since_reset_snoc, after_snoc, apply_cell.
  destruct o as [st'|st'|st' x now|].
  - case_decide; exact Hw.
  - case_decide; exact Hw.
  - pose proof (record_cell_fields st' x now (after ops st)) as Hf.
    destruct (record_cell st' x now (after ops st)) as [rep c]. cbn [snd].
    destruct (decide (st = st')) as [<-|Hne]; [|rewrite decide_False; [exact Hw|congruence]].
    rewrite decide_True by done. destruct Hf as [-> _]. apply window_push; [done|].
    pose proof (since_reset_length st ops). lia.
  - exact (window_clear _ _ Hw).
Qed.

Lemma counts_account st ops :
  N.of_nat (length ops) <= 4611686018427387904 ->
  breaches (after ops st) = breach_count (reports_since st ops) /\
  wraps (after ops st) + wrap_count (reports_since st ops) = N.of_nat (length (since_reset st ops)) - RING_CAPACITY /\
  breaches (after ops st) <= N.of_nat (length ops).
Proof.
  induction ops as [|o ops IH] using rev_ind; intros Hl; [done|].
  rewrite length_app in Hl |- *. cbn [length] in Hl |- *.
  destruct IH as (Hb & Hw & Hm); [lia|].
  pose proof (ring_window st ops) as [_ Hs _ _]; [lia|].
  pose proof (since_reset_length st ops) as Hlen.
  rewrite since_reset_snoc, reports_since_snoc, after_snoc, apply_cell.
  destruct o as [st'|st'|st' x now|]; [case_decide; cbn; split_and!; lia..| |cbn; split_and!; lia].
  rewrite apply_report. destruct (decide (st = st')) as [<-|Hne].
  - rewrite !decide_True by done.
    pose proof (record_cell_counts st x now (after ops st)) as Hc.
    destruct (record_cell st x now (after ops st)) as [rep c]. cbn [fst snd].
    destruct Hc as [Hcb Hcw]; [unfold u64_max, RING_CAPACITY in *; lia..|].
    rewrite breach_count_app, wrap_count_app, length_app. cbn [length].
    rewrite Hs in Hcw. unfold RING_CAPACITY in *.
    destruct (256 <=? N.of_nat (length (since_reset st ops))) eqn:E; to_prop;
      destruct rep as [[|k]|]; cbn [option_list option_rect breach_count wrap_count] in *; split_and!; lia.
  - rewrite !decide_False by congruence. split_and!; [done..|lia].
Qed.

(** *** Summaries *)
Lemma sort_permutation l l' : Permutation l l' -> sort l = sort l'.
Proof.
  intros Hp. unfold sort. apply (Sorted_unique N.le).
  - apply Sorted_merge_sort, _.
  - apply Sorted_merge_sort, _.
  - by rewrite !merge_sort_Permutation.
Qed.

Lemma percentile_elem l pct : l <> [] -> percentile l pct ∈ l.
Proof.
  intros Hl. unfold percentile. destruct l as [|a l]; [done|].
  set (i := (_ `min` _)%nat). assert (i < length (a :: l))%nat as Hi by (unfold i; cbn [length]; lia).
  destruct ((a :: l) !! i) eqn:E; [|apply lookup_ge_None in E; lia].
  cbn [default from_option id]. by apply list_elem_of_lookup_2 in E.
Qed.

Lemma sorted_lookup_le l i j x y :
  Sorted N.le l -> l !! i = Some x -> l !! j = Some y -> (i <= j)%nat -> x <= y.
Proof.
  intros Hs%Sorted_StronglySorted Hi Hj Hij; [|intros ???; lia].
  destruct (decide (i = j)) as [->|]; [simplify_eq; lia|].
  rewrite <-(take_drop j l) in Hs. eapply StronglySorted_app_1_elem_of; [exact Hs|..].
  - apply (list_elem_of_lookup_2 _ i). rewrite lookup_take_lt by lia. done.
  - apply (list_elem_of_lookup_2 _ 0). by rewrite lookup_drop, Nat.add_0_r.
Qed.

Lemma percentile_mono l p q : Sorted N.le l -> (p <= q)%nat -> percentile l p <= percentile l q.
Proof.
  intros Hs Hpq. unfold percentile. destruct l as [|a l]; [done|].
  set (m := (length (a :: l) - 1)%nat).
  set (i := (_ `min` _)%nat). set (j := (((m * q + 50) / 100) `min` m)%nat).
  assert (i <= j)%nat as Hij.
  { unfold i, j. assert (m * p + 50 <= m * q + 50)%nat as Hm by nia.
    pose proof (Nat.Div0.div_le_mono _ _ 100 Hm). lia. }
  assert (j < length (a :: l))%nat as Hj by (unfold j, m; cbn [length]; lia).
  destruct ((a :: l) !! i) eqn:Ei; [|apply lookup_ge_None in Ei; lia].
  destruct ((a :: l) !! j) eqn:Ej; [|apply lookup_ge_None in Ej; lia].
  exact (sorted_lookup_le _ _ _ _ _ Hs Ei Ej Hij).
Qed.

Lemma last_sorted_max l d : Sorted N.le l -> d ∈ l -> d <= default 0 (last l).
Proof.
  intros Hs [i Hi]%list_elem_of_lookup_1.
  rewrite last_lookup. pose proof (lookup_lt_Some _ _ _ Hi) as Hlt.
  destruct (l !! pred (length l)) eqn:E; [|apply lookup_ge_None in E; lia].
  eapply sorted_lookup_le; [done|exact Hi|exact E|lia].
Qed.

(** A summary describes exactly the last 256 samples recorded for its stage since
    the last reset: it counts them, counts everything recorded besides, and its
    percentiles and maximum are those of that window, whatever else was timed,
    entered or reset in between. *)
Theorem summary_spec (ops : list Op) (st : Stage) :
  N.of_nat (length ops) <= 4611686018427387904 ->
  let all := since_reset st ops in
  let window := last_n 256 all in
  let s := summary (after ops st) in
  sum_recorded s = N.of_nat (length all) /\
  sum_samples s = (256 `min` length all)%nat /\
  p50_us s = percentile (sort window) 50 /\ p95_us s = percentile (sort window) 95 /\
  p50_us s <= p95_us s <= max_us s /\
  (forall d, d ∈ window -> d <= max_us s) /\
  (window <> [] -> p50_us s ∈ window /\ p95_us s ∈ window /\ max_us s ∈ window) /\
  sum_breaches s = breach_count (reports_since st ops).
Proof.
  intros Hl all window s.
  pose proof (ring_window st ops Hl) as Hw. destruct (counts_account st ops Hl) as (Hb & _ & _).
  pose proof (window_durations _ _ Hw) as Hp. pose proof (w_samples _ _ Hw) as Hs. fold all window in Hp, Hs.
  assert (sort (durations (ring (after ops st))) = sort window) as Hsort by (by apply sort_permutation).
  assert (Sorted N.le (sort window)) as Hsd by apply Sorted_merge_sort, _.
  assert (Permutation (sort window) window) as Hpw by apply merge_sort_Permutation.
  unfold s, summary. rewrite Hsort. cbn [sum_samples sum_recorded p50_us p95_us max_us sum_in_flight sum_breaches].
  assert (forall d, d ∈ sort window <-> d ∈ window) as Hel by (intros d; by rewrite Hpw).
  assert (forall d, d ∈ window -> d <= default 0 (last (sort window))) as Hmax
    by (intros d Hd; apply last_sorted_max; [done|by apply Hel]).
  assert (window <> [] -> sort window <> []) as Hne
    by (intros H1 H2; rewrite H2 in Hpw; by apply Permutation_nil_l in Hpw).
  assert (forall pct, window <> [] -> percentile (sort window) pct ∈ window) as Hin
    by (intros pct H1; apply Hel, percentile_elem; auto).
  split_and!; [done| |done..| | |done| |done].
  - rewrite Hpw. unfold window. apply last_n_length.
  - apply percentile_mono; [done|lia].
  - destruct window as [|a w] eqn:E; [cbn; lia|]. apply Hmax, Hin. done.
  - intros H1. split_and!; [by apply Hin..|]. apply Hel. apply Hne in H1.
    destruct (last (sort window)) eqn:E; [by apply last_Some_elem_of in E|by apply last_None in E].
Qed.

Lemma summary_spec_witness :
  let ops := WasReset :: map (fun n => Recorded CpuExec (mkSample (N.of_nat n) 0 0) 9) (List.seq 1 300) in
  let s := summary (after ops CpuExec) in
  sum_recorded s = 300 /\ sum_samples s = 256%nat /\ max_us s = 300 /\ p50_us s = 173 /\ p50_us s <= p95_us s.
Proof.
  intros ops s.
  assert (N.of_nat (length ops) <= 4611686018427387904) as Hl by (vm_compute; discriminate).
  split_and!; [by vm_compute..|]. exact (proj1 (proj1 (proj2 (proj2 (proj2 (proj2 (summary_spec ops CpuExec Hl))))))).
Defined.

(** ** Reports are rate limited, and nothing evicted is forgotten *)
Definition same_kind (a b : Report) : bool :=
  match a, b with Breach, Breach | Wrap _, Wrap _ => true | _, _ => false end.
Definition stamp (a : Report) (c : StageState) : N :=
  match a with Breach => last_report_ms c | Wrap _ => last_wrap_report_ms c end.

Lemma report_stamps st x now c (a : Report) :
  (record_cell st x now c).1 = Some a ->
  stamp a c + REPORT_INTERVAL_MS <= now /\ stamp a (record_cell st x now c).2 = now.
Proof.
  intros H. pose proof (record_cell_fields st x now c) as Hf. destruct (record_cell st x now c) as [rep c'].
  cbn in H. subst rep. destruct Hf as (_ & _ & Hb & Hw & _).
  destruct a; [by destruct Hb as (? & ? & ?)|by destruct (Hw pending) as (? & ? & ?)].
Qed.

Lemma stamp_mono st (a : Report) r o : o <> WasReset -> stamp a (r st) <= stamp a ((apply o r).2 st).
Proof.
  intros Ho. rewrite apply_cell. destruct o as [st'|st'|st' x now|]; [case_decide; destruct a; cbn; lia..| |done].
  case_decide; [|lia]. subst st'. pose proof (record_cell_fields st x now (r st)) as Hf.
  destruct (record_cell st x now (r st)) as [rep c']. destruct Hf as (_ & _ & Hb & Hw & Hn). cbn [snd].
  unfold REPORT_INTERVAL_MS in *.
  destruct rep as [[|k]|]; [destruct Hb as (? & ? & ?)|destruct (Hw k) as (? & ? & ?)|destruct Hn as [? ?]];
    try done; destruct a; cbn [stamp]; lia.
Qed.

Lemma stamp_mono_all st (a : Report) ops mid :
  WasReset ∉ mid -> stamp a (after ops st) <= stamp a (after (ops ++ mid) st).
Proof.
  induction mid as [|o mid IH] using rev_ind; intros Hm; [rewrite app_nil_r; lia|].
  rewrite app_assoc, after_snoc. etrans; [apply IH; set_solver|]. apply stamp_mono. set_solver.
Qed.

(** Between two resets, two reports of one stage of the same kind (two breaches, or
    two wraps) lie at least five seconds apart on the clock the calls were given, and
    the clock has not gone back between them. *)
Theorem reports_spaced (ops mid : list Op) (st : Stage) (x1 x2 : Sample) (now1 now2 : N) (a b : Report) :
  WasReset ∉ mid ->
  (apply (Recorded st x1 now1) (after ops)).1 = Some a ->
  (apply (Recorded st x2 now2) (after (ops ++ Recorded st x1 now1 :: mid))).1 = Some b ->
  same_kind a b = true ->
  now1 + REPORT_INTERVAL_MS <= now2.
Proof.
  rewrite !apply_report. intros Hm Ha Hb Hk.
  apply report_stamps in Ha as [_ Ha], Hb as [Hb _].
  assert (stamp b (after (ops ++ [Recorded st x1 now1]) st) = now1) as Hs.
  { rewrite after_snoc, apply_cell, decide_True by done. destruct a, b; try done; exact Ha. }
  rewrite cons_middle, app_assoc in Hb.
  pose proof (stamp_mono_all st b (ops ++ [Recorded st x1 now1]) mid Hm). lia.
Qed.

Lemma reports_spaced_witness :
  let slow := mkSample 2000000 0 0 in
  (apply (Recorded CpuExec slow 15000) (after ([] ++ Recorded CpuExec slow 9000 :: [Recorded CpuExec slow 10000]))).1
    = Some Breach /\ 9000 + REPORT_INTERVAL_MS <= 15000.
Proof.
  intros slow. split; [by vm_compute|].
  refine (reports_spaced [] [Recorded CpuExec slow 10000] CpuExec slow slow 9000 15000 Breach Breach _ _ _ _);
    [set_solver|by vm_compute..].
Defined.

(** Every sample that overwrote an older one since the last reset is either still
    pending or counted by exactly one wrap report, and the breach counter is the number
    of breach reports made. *)
Theorem evictions_accounted (ops : list Op) (st : Stage) :
  N.of_nat (length ops) <= 4611686018427387904 ->
  wraps (after ops st) + wrap_count (reports_since st ops)
    = N.of_nat (length (since_reset st ops)) - RING_CAPACITY /\
  breaches (after ops st) = breach_count (reports_since st ops).
Proof. intros H. destruct (counts_account st ops H) as (? & ? & _). done. Qed.

Lemma evictions_accounted_witness :
  let ops := map (fun n => Recorded CpuExec (mkSample 1 0 0) (N.of_nat n)) (List.seq 1 260) ++
             [Recorded CpuExec (mkSample 1000000 0 0) 7000; Recorded CpuExec (mkSample 1 0 0) 7001] in
  reports_since CpuExec ops = [Breach; Wrap 6] /\
  wraps (after ops CpuExec) + wrap_count (reports_since CpuExec ops)
    = N.of_nat (length (since_reset CpuExec ops)) - RING_CAPACITY.
Proof.
  intros ops. split; [by vm_compute|].
  refine (proj1 (evictions_accounted ops CpuExec _)). vm_compute. discriminate.
Defined.

(** A slow sample in the first five seconds of the clock is neither reported nor counted;
    the clock starts at the first sample recorded. *)
Theorem early_breach_is_silent (ops : list Op) (st : Stage) (x : Sample) (now : N) :
  now < REPORT_INTERVAL_MS ->
  (apply (Recorded st x now) (after ops)).1 = None /\
  (breaches (after ops st) = 0 -> breaches ((apply (Recorded st x now) (after ops)).2 st) = 0).
Proof.
  intros Hn. rewrite apply_report, apply_cell, decide_True by done.
  unfold record_cell, report_breach, report_wrap, pushed, claim_report, report_due, REPORT_INTERVAL_MS in *.
  destruct (push x (ring (after ops st))) as [wrapped g].
  cbn [ring in_flight breaches last_report_ms wraps last_wrap_report_ms].
  split_matches; cbn [ring in_flight breaches last_report_ms wraps last_wrap_report_ms fst snd] in *; to_prop;
    split; try done; try lia.
Qed.

Lemma early_breach_is_silent_witness :
  breaches ((apply (Recorded CpuExec (mkSample 9000000 0 0) 4000) (after [])).2 CpuExec) = 0.
Proof. refine (proj2 (early_breach_is_silent [] CpuExec (mkSample 9000000 0 0) 4000 _) _); [done|by vm_compute]. Defined.

(** The boundaries the documentation does not mention: a second slow sample within five
    seconds is not counted as a breach, a reset reopens the window at once, and of two
    samples the larger is taken for the median. *)
Definition nearest_rank (sorted : list N) (pct : nat) : N :=
  default 0 (sorted !! pred ((length sorted * pct + 99) / 100)).
Theorem breach_counter_and_window :
  let slow n := Recorded CpuExec (mkSample 2000000 0 0) n in
  sum_breaches (summary (after [slow 9000; slow 9001; slow 9002] CpuExec)) = 1 /\
  (apply (slow 9001) (after [slow 9000; WasReset])).1 = Some Breach /\
  percentile [1; 2] 50 = 2 /\ nearest_rank [1; 2] 50 = 1.
Proof. by vm_compute. Qed.

(** ** Timers *)
(** A recorder with the timers alive in the program.  [finish] consumes its timer and
    dropping it is the only other way to lose it. *)
Record Timed := mkTimed { recorder : Recorder; timers : list Timer }.

Inductive tstep : Timed -> Timed -> Prop :=
  | t_start_one st now r ts :
      tstep (mkTimed r ts) (let (t, r') := timer_start st now r in mkTimed r' (t :: ts))
  | t_finish_one t ctx now wall mono r a b :
      tstep (mkTimed r (a ++ t :: b)) (mkTimed (timer_finish t ctx now wall mono r).2 (a ++ b))
  | t_drop_one t r a b :
      tstep (mkTimed r (a ++ t :: b)) (mkTimed (timer_drop t r) (a ++ b))
  | t_record st x now r ts :
      tstep (mkTimed r ts) (mkTimed (record_at st x now r).2 ts)
  | t_reset r ts :
      tstep (mkTimed r ts) (mkTimed (reset r) ts).

Definition running (st : Stage) (ts : list Timer) : N :=
  N.of_nat (length (List.filter (fun t => bool_decide (t_stage t = Some st)) ts)).
Definition timers_inv (s : Timed) : Prop :=
  Forall (fun t => is_Some (t_stage t)) (timers s) /\
  forall st, in_flight (recorder s st) = running st (timers s) mod 18446744073709551616.

Lemma running_app st a b : running st (a ++ b) = running st a + running st b.
Proof. unfold running. rewrite List.filter_app, length_app. lia. Qed.
Lemma running_cons st t ts :
  running st (t :: ts) = (if bool_decide (t_stage t = Some st) then 1 else 0) + running st ts.
Proof. unfold running. cbn [List.filter]. case_bool_decide; cbn [length]; lia. Qed.

Lemma record_at_in_flight st x now r st' : in_flight ((record_at st x now r).2 st') = in_flight (r st').
Proof.
  change (record_at st x now r) with (apply (Recorded st x now) r). rewrite apply_cell. case_decide; [|done]. subst.
  pose proof (record_cell_fields st x now (r st)) as Hf. by destruct (record_cell st x now (r st)), Hf as (_ & ? & _).
Qed.

Lemma leave_running st st' ts a b t r :
  t_stage t = Some st -> ts = a ++ t :: b ->
  in_flight (r st') = running st' ts mod 18446744073709551616 ->
  in_flight (leave st r st') = running st' (a ++ b) mod 18446744073709551616.
Proof.
  intros Ht -> Hr. rewrite running_app, running_cons in Hr. rewrite running_app. unfold leave.
  destruct (decide (st' = st)) as [->|Hne].
  - rewrite at_stage_eq. cbn [in_flight set_in_flight]. rewrite Hr, bool_decide_true by done.
    unfold wrapping_add_u64, u64_max. rewrite N.Div0.add_mod_idemp_l.
    replace (running st a + (1 + running st b) + 18446744073709551615)
      with (running st a + running st b + 1 * 18446744073709551616) by lia.
    apply N.Div0.mod_add.
  - rewrite at_stage_ne by done. rewrite Hr, bool_decide_false by congruence. f_equal; lia.
Qed.

Lemma timers_inv_step s s' : timers_inv s -> tstep s s' -> timers_inv s'.
Proof.
  intros [Hall Hin] Hs. destruct Hs; cbn [timers recorder timer_start] in *.
  - split; cbn [timers recorder]; [by constructor; [eexists|]|]. intros st'. rewrite running_cons. cbn [t_stage].
    unfold enter. destruct (decide (st' = st)) as [->|Hne].
    + rewrite at_stage_eq, bool_decide_true by done. cbn [in_flight set_in_flight]. rewrite Hin.
      unfold wrapping_add_u64. rewrite N.Div0.add_mod_idemp_l. f_equal. lia.
    + rewrite at_stage_ne, bool_decide_false by congruence. rewrite Hin. f_equal.
  - apply Forall_app in Hall as [Ha Hb%Forall_cons]. destruct Hb as [[st Hst] Hb].
    split; cbn [timers recorder]; [by apply Forall_app|]. intros st'.
    unfold timer_finish. rewrite Hst.
    destruct (record_at st _ mono (leave st r)) as [rep r'] eqn:E. cbn [snd timer_drop t_stage].
    apply (f_equal snd) in E. cbn in E. subst r'. rewrite record_at_in_flight. by eapply leave_running.
  - apply Forall_app in Hall as [Ha Hb%Forall_cons]. destruct Hb as [[st Hst] Hb].
    split; cbn [timers recorder]; [by apply Forall_app|]. intros st'.
    unfold timer_drop. rewrite Hst. by eapply leave_running.
  - split; [done|]. intros st'. cbn [recorder timers]. by rewrite record_at_in_flight.
  - done.
Qed.

(** Whatever is timed, dropped early, recorded or reset, the in-flight count of a
    stage is the number of its timers alive: each timer leaves exactly once, whether it
    is finished or dropped, and a reset in between does not disturb the count. *)
Theorem in_flight_counts_timers (s : Timed) (st : Stage) :
  rtc tstep (mkTimed new_recorder []) s ->
  N.of_nat (length (timers s)) <= u64_max ->
  in_flight (recorder s st) = running st (timers s).
Proof.
  intros Hr Hl.
  assert (timers_inv s) as [_ Hin].
  { revert Hr. apply rtc_ind_r; [split; [by constructor|done]|]. eauto using timers_inv_step. }
  rewrite Hin. apply N.mod_small. unfold running, u64_max in *.
  pose proof (List.filter_length_le (fun t => bool_decide (t_stage t = Some st)) (timers s)). lia.
Qed.

Lemma in_flight_counts_timers_witness :
  let t := mkTimer (Some CpuExec) 5 in
  in_flight (recorder (mkTimed (reset (enter CpuExec new_recorder)) [t]) CpuExec) = 1.
Proof.
  intros t.
  refine (in_flight_counts_timers (mkTimed (reset (enter CpuExec new_recorder)) [t]) CpuExec _ _); [|by vm_compute].
  eapply rtc_l; [exact (t_start_one CpuExec 5 new_recorder [])|]. apply rtc_once. exact (t_reset _ _).
Defined.

(** ** One slot, access by access
    The writers and a reader of one slot, interleaved at their atomic accesses; the
    fences keep the accesses of each side in the order written here.  Nothing keeps a
    second writer out: when the ring has gone round while a writer is in its slot, the
    next one enters it too. *)
Inductive Writing :=
  | WLoaded (at_seq : N) (x : Sample)      (* [seq.load] *)
  | WStamped (at_seq : N) (x : Sample)     (* the odd stamp is stored *)
  | WDuration (at_seq : N) (x : Sample)
  | WTimestamp (at_seq : N) (x : Sample)
  | WContext (at_seq : N) (x : Sample).
Inductive Reading :=
  | RIdle                                  (* before the slot, or past it without a sample *)
  | RBefore (before : N)
  | RDuration (before d : N)
  | RTimestamp (before d t : N)
  | RContext (before d t c : N)
  | RAccepted (x : Sample).
Record SlotSys := mkSlotSys { slot : RingSlot; writers : list Writing; reading : Reading; published : list Sample }.
Definition fresh_slot : SlotSys := mkSlotSys (mkSlot 0 0 0 0) [] RIdle [].

(** [WriterStep n]: the next access of the [n]-th writer in the slot. *)
Inductive Access := Begin (x : Sample) | WriterStep (n : nat) | ReaderStep | ClearSlot.

(** [push] on its slot: the next store, and where the writer is then, or that it is done. *)
Definition writer_step (w : Writing) (c : RingSlot) : RingSlot * (Writing + Sample) :=
  match w with
  | WLoaded q x => (mkSlot (wrapping_add_u64 q 1) (s_duration c) (s_timestamp c) (s_context c), inl (WStamped q x))
  | WStamped q x => (mkSlot (seq c) (duration_us x) (s_timestamp c) (s_context c), inl (WDuration q x))
  | WDuration q x => (mkSlot (seq c) (s_duration c) (timestamp_ms x) (s_context c), inl (WTimestamp q x))
  | WTimestamp q x => (mkSlot (seq c) (s_duration c) (s_timestamp c) (context x), inl (WContext q x))
  | WContext q x => (mkSlot (wrapping_add_u64 q 2) (s_duration c) (s_timestamp c) (s_context c), inr x)
  end.
(** The body of the loop of [durations] on its slot. *)
Definition reader_step (r : Reading) (c : RingSlot) : Reading :=
  match r with
  | RIdle | RAccepted _ => if (seq c =? 0) || negb (seq c mod 2 =? 0) then RIdle else RBefore (seq c)
  | RBefore q => RDuration q (s_duration c)
  | RDuration q d => RTimestamp q d (s_timestamp c)
  | RTimestamp q d t => RContext q d t (s_context c)
  | RContext q d t x => if q =? seq c then RAccepted (mkSample d t x) else RIdle
  end.
Definition access (a : Access) (s : SlotSys) : SlotSys :=
  match a with
  | Begin x => mkSlotSys (slot s) (writers s ++ [WLoaded (seq (slot s)) x]) (reading s) (published s)
  | WriterStep n =>
      match writers s !! n with
      | None => s
      | Some w =>
          match writer_step w (slot s) with
          | (c, inl w') => mkSlotSys c (<[n := w']> (writers s)) (reading s) (published s)
          | (c, inr x) => mkSlotSys c (delete n (writers s)) (reading s) (published s ++ [x])
          end
      end
  | ReaderStep => mkSlotSys (slot s) (writers s) (reader_step (reading s) (slot s)) (published s)
  | ClearSlot => mkSlotSys (mkSlot 0 (s_duration (slot s)) (s_timestamp (slot s)) (s_context (slot s)))
                   (writers s) (reading s) (published s)
  end.
Definition run_slot (l : list Access) : SlotSys := foldl (fun s a => access a s) fresh_slot l.
(** No writer enters the slot while another is in it. *)
Definition one_writer (s : SlotSys) : bool := (length (writers s) <=? 1)%nat.
Fixpoint exclusive (s : SlotSys) (l : list Access) : bool :=
  match l with [] => true | a :: l => one_writer (access a s) && exclusive (access a s) l end.
Lemma exclusive_snoc l : forall s a, exclusive s (l ++ [a]) = true ->
  exclusive s l = true /\ one_writer (access a (foldl (fun s a => access a s) s l)) = true.
Proof.
  induction l as [|b l IH]; intros s a; cbn.
  - by intros [? _]%andb_true_iff.
  - intros [-> [H1 H2]%IH]%andb_true_iff. by rewrite H1.
Qed.

(** The sample a slot holds when its stamp is even. *)
Definition held (c : RingSlot) : Sample := mkSample (s_duration c) (s_timestamp c) (s_context c).
Definition count (h : list Sample) : N := 2 * N.of_nat (length h).
Definition writer_inv (s : SlotSys) : Prop :=
  match writers s with
  | [] => seq (slot s) = count (published s) /\ (published s <> [] -> last (published s) = Some (held (slot s)))
  | [WLoaded q _] => q = count (published s) /\ seq (slot s) = q /\
                   (published s <> [] -> last (published s) = Some (held (slot s)))
  | [WStamped q _] => q = count (published s) /\ seq (slot s) = q + 1
  | [WDuration q x] => q = count (published s) /\ seq (slot s) = q + 1 /\ s_duration (slot s) = duration_us x
  | [WTimestamp q x] => q = count (published s) /\ seq (slot s) = q + 1 /\ s_duration (slot s) = duration_us x /\
                      s_timestamp (slot s) = timestamp_ms x
  | [WContext q x] => q = count (published s) /\ seq (slot s) = q + 1 /\ held (slot s) = x
  | _ => False
  end.
(** What the reader holds is of the slot's sample as long as the stamp has not moved. *)
Definition saw (q : N) (agrees : Prop) (s : SlotSys) : Prop :=
  0 < q <= seq (slot s) /\ q mod 2 = 0 /\ (q = seq (slot s) -> agrees).
Definition reader_inv (s : SlotSys) : Prop :=
  let c := slot s in
  match reading s with
  | RIdle => True
  | RBefore q => saw q True s
  | RDuration q d => saw q (d = s_duration c) s
  | RTimestamp q d t => saw q (d = s_duration c /\ t = s_timestamp c) s
  | RContext q d t x => saw q (mkSample d t x = held c) s
  | RAccepted x => x ∈ published s
  end.

Lemma count_even h : count h mod 2 = 0.
Proof. unfold count. rewrite N.mul_comm. apply N.Div0.mod_mul. Qed.
Lemma odd_count h : (count h + 1) mod 2 = 1.
Proof. rewrite <-N.Div0.add_mod_idemp_l, count_even. done. Qed.
Lemma count_snoc h x : count (h ++ [x]) = count h + 2.
Proof. unfold count. rewrite length_app. cbn [length]. lia. Qed.

(** An even stamp that is not zero: no write is under way, and the slot holds the last
    sample published. *)
Lemma even_stamp s :
  writer_inv s -> seq (slot s) <> 0 -> seq (slot s) mod 2 = 0 -> last (published s) = Some (held (slot s)).
Proof.
  unfold writer_inv. intros Hw H0 Hm.
  assert (seq (slot s) = count (published s) -> published s <> []) as Hne.
  { intros Hc Hp. rewrite Hp in Hc. by rewrite Hc in H0. }
  destruct (writers s) as [|[] []]; try done; destruct_and?; [by eauto| |exfalso..].
  { match goal with H : _ -> last _ = _ |- _ => apply H, Hne end. congruence. }
  all: match goal with Hs : seq (slot _) = _ + 1 |- _ => rewrite Hs in Hm end; subst;
    by rewrite odd_count in Hm.
Qed.

(** A step that is not the reader's, in a slot with one writer at most. *)
Lemma writing_alone a s : a <> ClearSlot -> a <> ReaderStep -> writer_inv s -> one_writer (access a s) = true ->
  access a s = s \/
  (exists x, a = Begin x /\ writers s = [] /\
     access a s = mkSlotSys (slot s) [WLoaded (seq (slot s)) x] (reading s) (published s)) \/
  exists w, writers s = [w] /\ access a s = match writer_step w (slot s) with
    | (c, inl w') => mkSlotSys c [w'] (reading s) (published s)
    | (c, inr x) => mkSlotSys c [] (reading s) (published s ++ [x])
    end.
Proof.
  destruct s as [c ws rd pub]. intros Hc Hr Hw Ho. destruct a as [x|n| |]; [| |done..].
  - right. left. exists x. unfold one_writer in Ho. cbn in *. by destruct ws as [|w [|]].
  - cbn [access writers slot reading published]. destruct (ws !! n) as [w|] eqn:Hn; [|by left]. right. right. exists w.
    assert (ws = [w] /\ n = 0%nat) as [-> ->].
    { unfold writer_inv in Hw. cbn [writers] in Hw. destruct ws as [|w' [|? ?]]; [done| |destruct w'; done].
      destruct n; [by injection Hn as ->|done]. }
    by destruct (writer_step w c) as [c' [w'|x]].
Qed.

Lemma writer_inv_access a s :
  a <> ClearSlot -> one_writer (access a s) = true -> count (published s) + 2 < 18446744073709551616 ->
  writer_inv s -> writer_inv (access a s).
Proof.
  intros Ha Ho Hb Hw. assert (a = ReaderStep \/ a <> ReaderStep) as [->|Hr] by (destruct a; auto); [exact Hw|].
  destruct (writing_alone a s Ha Hr Hw Ho) as [->|[(x & _ & He & ->)|(w & He & ->)]]; [done|..];
    unfold writer_inv in Hw; rewrite He in Hw; [exact (conj (proj1 Hw) (conj eq_refl (proj2 Hw)))|].
  unfold writer_inv. destruct w as [q x|q x|q x|q x|q x]; cbn [writer_step writers slot published seq s_duration s_timestamp s_context];
    destruct_and?; unfold wrapping_add_u64, held in *; subst; cbn [seq s_duration s_timestamp s_context];
    rewrite ?N.mod_small by lia; try done.
  - split_and!; try done. by destruct x; cbn in *; congruence.
  - rewrite count_snoc. split; [done|]. by rewrite last_snoc.
Qed.

(** The stamp never goes back; where it is even and stays, the slot stays. *)
Lemma stamp_grows a s :
  a <> ClearSlot -> one_writer (access a s) = true -> count (published s) + 2 < 18446744073709551616 -> writer_inv s ->
  seq (slot s) <= seq (slot (access a s)) /\
  (seq (slot s) mod 2 = 0 -> seq (slot (access a s)) = seq (slot s) -> slot (access a s) = slot s).
Proof.
  intros Ha Ho Hb Hw. assert (a = ReaderStep \/ a <> ReaderStep) as [->|Hr] by (destruct a; auto); [cbn; split; [lia|done]|].
  destruct (writing_alone a s Ha Hr Hw Ho) as [->|[(x & _ & He & ->)|(w & He & ->)]]; [split; [lia|done]|cbn; split; [lia|done]|].
  unfold writer_inv in Hw. rewrite He in Hw. unfold wrapping_add_u64.
  destruct w; cbn [writer_step slot seq]; destruct_and?; unfold wrapping_add_u64; subst; rewrite ?N.mod_small by lia;
    (split; [lia|]); intros Hm Hs; exfalso; try lia;
    match goal with H : seq (slot s) = _ + 1 |- _ => rewrite H in Hm; by rewrite odd_count in Hm end.
Qed.

Lemma saw_access (q : N) (P Q : Prop) a s :
  a <> ClearSlot -> one_writer (access a s) = true -> count (published s) + 2 < 18446744073709551616 -> writer_inv s ->
  (slot (access a s) = slot s -> P -> Q) -> saw q P s -> saw q Q (access a s).
Proof.
  intros Ha Ho Hb Hw Hpq ((H0 & Hle) & Hm & Hp). destruct (stamp_grows a s Ha Ho Hb Hw) as [Hg Hu].
  split_and!; [lia..|done|]. intros Hq. assert (q = seq (slot s)) as Hqs by lia.
  apply Hpq; [|by apply Hp]. apply Hu; congruence.
Qed.

Lemma access_keeps a s : (a <> ReaderStep -> reading (access a s) = reading s) /\
  (length (published (access a s)) <= S (length (published s)))%nat /\ forall x, x ∈ published s -> x ∈ published (access a s).
Proof.
  destruct a as [x|n| |]; cbn [access]; [split_and!; try done; cbn; lia| |split_and!; try done; cbn; lia..].
  destruct (writers s !! n) as [w|]; [|split_and!; try done; lia].
  destruct (writer_step w (slot s)) as [c [w'|x]]; cbn [reading published]; split_and!; try done; try lia.
  - rewrite length_app. cbn. lia.
  - set_solver.
Qed.

Lemma reader_inv_access a s :
  a <> ClearSlot -> one_writer (access a s) = true -> count (published s) + 2 < 18446744073709551616 -> writer_inv s ->
  reader_inv s -> reader_inv (access a s).
Proof.
  intros Ha Ho Hb Hw Hr. assert (a = ReaderStep \/ a <> ReaderStep) as [->|Hnr] by (destruct a; auto).
  - unfold reader_inv in *. cbn [access reading]. unfold reader_step.
    assert (forall b : Reading, b = (if (seq (slot s) =? 0) || negb (seq (slot s) mod 2 =? 0) then RIdle else RBefore (seq (slot s))) ->
      match b with RIdle => True | RBefore q => saw q True s | _ => False end) as Hbegin.
    { intros b ->. destruct (_ || _) eqn:E; [done|]. to_prop. split_and!; try done; lia. }
    destruct (reading s) as [|q|q d|q d t|q d t c|x].
    + specialize (Hbegin _ eq_refl). by destruct (_ || _).
    + destruct Hr as (Hq & Hm & _). exact (conj Hq (conj Hm (fun _ => eq_refl))).
    + destruct Hr as (Hq & Hm & Hx). exact (conj Hq (conj Hm (fun E => conj (Hx E) eq_refl))).
    + destruct Hr as (Hq & Hm & Hx). refine (conj Hq (conj Hm (fun E => _))). cbn [slot].
      by destruct (Hx E) as [-> ->].
    + destruct (q =? seq (slot s)) eqn:E; [|done]. to_prop. destruct Hr as (? & Hm & Hx). cbn [published].
      rewrite (Hx E). apply last_Some_elem_of, even_stamp; [done|lia|congruence].
    + specialize (Hbegin _ eq_refl). by destruct (_ || _).
  - destruct (access_keeps a s) as (Hrd & _ & Hpub). specialize (Hrd Hnr). unfold reader_inv in *. rewrite Hrd.
    destruct (reading s); [done|..|by apply Hpub];
      (eapply saw_access; [done..| |exact Hr]); cbv zeta; intros Hs; rewrite ?Hs; auto.
Qed.

(** C30: As long as the ring is not cleared and no writer enters the slot while another is
    in it, a reader accepts only whole samples: whatever the interleaving of its accesses
    with the writers', the three fields it read are those of one sample that was
    published in the slot.  Neither condition is one the code enforces; the theorems below
    show a mixed sample where one of them fails. *)
Theorem accepted_is_published (l : list Access) (x : Sample) :
  ClearSlot ∉ l -> exclusive fresh_slot l = true -> N.of_nat (length l) < 4611686018427387904 ->
  reading (run_slot l) = RAccepted x -> x ∈ published (run_slot l).
Proof.
  intros Hl Ho Hn Hx.
  assert (writer_inv (run_slot l) /\ reader_inv (run_slot l) /\
          (length (published (run_slot l)) <= length l)%nat) as (_ & Hr & _).
  { clear Hx x. unfold run_slot. induction l as [|a l IH] using rev_ind; [done|].
    apply exclusive_snoc in Ho as [Ho1 Ho2]. rewrite foldl_app, length_app in *. cbn [foldl length] in *.
    destruct IH as (Hw & Hr & Hlen); [set_solver|done|lia|].
    assert (a <> ClearSlot) as Ha by (intros ->; apply Hl, elem_of_app; right; by apply list_elem_of_singleton).
    assert (count (published (foldl (fun s a => access a s) fresh_slot l)) + 2 < 18446744073709551616) as Hc
      by (unfold count; lia).
    split_and!; [by apply writer_inv_access|by apply reader_inv_access|].
    destruct (access_keeps a (foldl (fun s a => access a s) fresh_slot l)) as (_ & Hp & _). lia. }
  unfold reader_inv in Hr. by rewrite Hx in Hr.
Qed.

Lemma accepted_is_published_witness :
  let w := WriterStep 0 in
  let l := Begin (mkSample 1 2 3) :: replicate 5 w ++ Begin (mkSample 4 5 6) :: ReaderStep :: w ::
           replicate 4 ReaderStep ++ replicate 4 w ++ replicate 5 ReaderStep in
  reading (run_slot (take 13 l)) = RIdle /\ mkSample 4 5 6 ∈ published (run_slot l).
Proof.
  intros w l. split; [by vm_compute|].
  refine (accepted_is_published l (mkSample 4 5 6) _ _ _ _); [|by vm_compute..].
  intros H%list_elem_of_In. vm_compute in H. intuition discriminate.
Defined.

(** When the ring is cleared while a reader is in a slot, the stamp starts over and a
    mixed sample is accepted. *)
Theorem clear_lets_mixed_sample_through :
  let l := Begin (mkSample 1 2 3) :: replicate 5 (WriterStep 0) ++ [ReaderStep; ReaderStep; ClearSlot] ++
           Begin (mkSample 4 5 6) :: replicate 5 (WriterStep 0) ++ replicate 3 ReaderStep in
  exclusive fresh_slot l = true /\
  reading (run_slot l) = RAccepted (mkSample 1 5 6) /\ published (run_slot l) = [mkSample 1 2 3; mkSample 4 5 6].
Proof. by vm_compute. Qed.
(** When a writer enters the slot of another, whose odd stamp it takes for the stamp to
    count from, the stamp is even while it writes, and a mixed sample is accepted. *)
Theorem second_writer_lets_mixed_sample_through :
  let l := Begin (mkSample 1 2 3) :: WriterStep 0 :: Begin (mkSample 4 5 6) :: WriterStep 1 :: WriterStep 1 ::
           replicate 5 ReaderStep in
  ClearSlot ∉ l /\ exclusive fresh_slot l = false /\
  reading (run_slot l) = RAccepted (mkSample 4 0 0) /\ published (run_slot l) = [].
Proof. split; [|by vm_compute]. intros H%list_elem_of_In. vm_compute in H. intuition discriminate. Qed.
